(* ===== verification/_CoqProject ===== *)
-Q . S2P
Prelude.v
Digits.v
Libc.v
Utility.v
CleanPath.v
StdMap.v
Convert.v
Tree.v
TreeFormats.v
ExceptionMonad.v
Cgi.v
CgiFacts.v
CgiRequest.v
Decimal.v
DecimalFacts.v
DecimalDiv.v
DecimalText.v
DecimalProps.v
Uint128.v
Encode.v
Uuid.v
Explode.v
Dispatcher.v
DispatcherFacts.v
ZooKeeper.v
ZooKeeperFacts.v
ZooKeeperOps.v
ZooKeeperTracker.v
Council.v
Naming.v
ObjectMap.v
ObjectPool.v
TimeoutPool.v
AsyncRouter.v
StateMonad.v
Cmdline.v
Sockets.v
Resolver.v
FixedThreadPool.v
KeyedThreadPool.v
GrowableThreadPool.v
ReadWriteLock.v
LinkageWorker.v
LinkageWorkerFacts.v
LinkageWorkerProps.v
AbstractIo.v
Directories.v
Logger.v
SslIo.v
SslContext.v
SafeIo.v
PidFile.v
Daemon.v
Processes.v
Programs.v
FastCgi.v
Babysitter.v
TimedIo.v
Interface.v
InterfaceFacts.v
InterfaceProps.v
Linkage.v
LinkageFacts.v
LinkageReceive.v
LinkageLife.v
Listener.v
EasyServer.v
EasyServerInv.v
EasyServerFacts.v
EasyServerMethods.v
EasyServerJobs.v
EasyServerInit.v
EasyServerShutdown.v
EasyServerLife.v
Framing.v
LinkageFraming.v
LinkageOnWorker.v
EasyServerDemo.v
EasyServerProps.v
LinkageProps.v
