(* ===== verification/Prelude.v ===== *)
(** * Flinter: a verification library (root file)

    flinter is a C++ library for network servers.  This development models its
    server and connection code, the containers and thread pools they rest on,
    its FastCGI and ZooKeeper layers, its daemon and process utilities in C, its
    value types and text utilities, and proves that they are correct.  Paths are
    relative to src/flinter/.


    ** The program and its parts

    An [EasyServer] (linkage/easy_server.cpp) owns I/O threads and job threads.
    Each I/O thread runs a [LinkageWorker] (linkage/linkage_worker.cpp), an
    event loop over libev with timers and a queue of commands from other
    threads.  The loop serves [Listener]s (linkage/listener.cpp), which accept
    connections, and [Linkage]s (linkage/linkage.cpp), one per connection,
    which cut a byte stream into messages and queue what the kernel does not
    take.  A linkage reads and writes through an I/O engine
    (linkage/abstract_io.h): plain descriptors (linkage/file_descriptor_io.cpp)
    or SSL (linkage/ssl_io.cpp).  The sockets are made by [Interface]
    (linkage/interface.cpp), over the restarted system calls of safeio.c, the
    names of hosts come from the [Resolver] (linkage/resolver.cpp).  The
    application is called back through handlers; with several job threads its
    messages are jobs of a [FixedThreadPool] (thread/fixed_thread_pool.cpp).
    Clients that multiplex calls use [AsyncRouter] (linkage/async_router.h),
    built on [ObjectMap] (object_map.h) and [TimeoutPool] (timeout_pool.h).

    The FastCGI [Dispatcher] (fastcgi/dispatcher.cpp) routes requests to
    handlers derived from [CGI] (fastcgi/cgi.cpp), whose input is a [Tree]
    (types/tree.cpp).  A [ZooKeeper] session (zookeeper/zookeeper.cpp) carries
    the [ZooKeeperTracker], which the [Council] (elections) and the [Naming]
    (names of servers) use.  A program becomes a daemon through daemon.c, which
    finds its files through cmdline.c and mkdirs.c, holds a PID file
    (pidfile.c) and may be watched by babysitter.c.  The value types and the
    text utilities are independent of all this.


    ** The files

    Shared: this file (bytes, integers, errors, tactics), Digits.v and Libc.v
    (the C library on digits and characters), StdMap.v (std::map and
    std::multimap), StateMonad.v (programs with a state and failing assertions)
    and ExceptionMonad.v (programs with a state and exceptions).

    Connections:
    - AbstractIo.v: the I/O engine as an interface (class [AbstractIo]), the
      kernel (class [Kernel]) and the engine of plain descriptors; SslIo.v: the
      engine over OpenSSL (class [OpenSSL]), linkage/ssl_io.cpp, ssl_peer.h;
      SslContext.v: its settings and tickets, linkage/ssl_context.cpp;
    - Sockets.v, SafeIo.v, Interface.v: linkage/interface.cpp,
      linkage_peer.cpp, safeio.c and the socket functions of utility.c;
      InterfaceFacts.v and InterfaceProps.v prove that open descriptors follow a
      ledger of owners; TimedIo.v: the calls of safeio.c with a timeout;
    - Linkage.v: linkage/linkage.cpp, linkage_handler.cpp, linkage_base.cpp;
      LinkageFacts.v, LinkageReceive.v and LinkageLife.v its invariant,
      Framing.v and LinkageFraming.v the specification of framing and the
      refinement of it, LinkageProps.v the properties, also
      over SSL;
    - LinkageWorker.v, with LinkageWorkerFacts.v and LinkageWorkerProps.v:
      linkage/linkage_worker.cpp; LinkageOnWorker.v makes it the worker that
      linkages are written against, and holds an example;
    - Resolver.v: linkage/resolver.cpp.

    Server:
    - FixedThreadPool.v: thread/fixed_thread_pool.cpp, abstract_thread_pool.cpp;
    - Listener.v: linkage/listener.cpp;
    - EasyServer.v: linkage/easy_server.cpp, easy_handler.cpp, easy_context.cpp.
      EasyServerInv.v is its invariant; EasyServerFacts.v, EasyServerMethods.v,
      EasyServerJobs.v, EasyServerInit.v and EasyServerShutdown.v show that each
      method keeps it; EasyServerLife.v composes them into the runs and the life of
      a server; EasyServerDemo.v gives it the linkages of
      Linkage.v, and an example; EasyServerProps.v holds the properties.

    Threads: KeyedThreadPool.v, GrowableThreadPool.v and ReadWriteLock.v, the
    files of the same names under thread/ (the lock is the one for systems that
    have none of their own).

    Containers and calls: ObjectMap.v (object_map.h), ObjectPool.v
    (object_pool.h), TimeoutPool.v (timeout_pool.h), AsyncRouter.v
    (linkage/async_router.h, route_handler.h).

    FastCGI: Cgi.v with CgiFacts.v (the response of fastcgi/cgi.cpp),
    CgiRequest.v (its constructor), Dispatcher.v with DispatcherFacts.v (routing,
    exceptions, workers), FastCgi.v (modes, environments, signals and pools).

    ZooKeeper: ZooKeeper.v with ZooKeeperFacts.v (a session and its callbacks),
    ZooKeeperOps.v (the synchronous calls), ZooKeeperTracker.v, Council.v,
    Naming.v.

    Processes: Processes.v (signals.c, msleep.c, envvars.c), Babysitter.v,
    Directories.v (mkdirs.c, rmdirs.c), PidFile.v, Cmdline.v, Daemon.v,
    Programs.v (system.c), Logger.v (logger.cpp).

    Values and text:
    - Decimal.v (with the functions of GMP that are called, as an interface),
      DecimalFacts.v, DecimalDiv.v, DecimalText.v, DecimalProps.v
      (types/decimal.cpp); Uint128.v (types/uint128_t.cpp); Uuid.v
      (types/uuid.cpp); Encode.v (encode.cpp); Explode.v (explode.cpp, trim.cpp); Convert.v (convert.cpp);
      Utility.v and CleanPath.v (utility.c);
    - Tree.v (types/tree.cpp) and TreeFormats.v (tree_xml.cpp, tree_json.cpp,
      tree_cs.cpp).

    A method of the code is a definition of the same name; a member is a field
    of the same name.  A name that several classes share has the file in front
    of it, or a suffix where C++ overloads.


    ** How the code is modelled

    A method that changes an object is a function from state to state, or a
    program of the monad [ST] of StateMonad.v.  A failing [assert], undefined
    behaviour, an exception and exhausted fuel are errors ([exn]); a theorem
    [run m s Q] says that [m] returns from [s] and that [Q] holds then, so it
    excludes all four.  Where exceptions are caught the monad is [XT] of
    ExceptionMonad.v.

    Pointers are addresses in an explicit store where objects are shared: the
    heap of the server, the peers of an interface, the connections of a router,
    the requests of a ZooKeeper session, the memory of cmdline.c.  A dead
    address is an error to use and to delete twice.

    Concurrency: a critical section is one atomic step, and the runs of a
    component are arbitrary sequences of such steps (events of EasyServerLife.v,
    [serve] of LinkageLife.v, steps of ObjectPool.v, AsyncRouter.v, the thread
    pools, Resolver.v, ZooKeeper.v and PidFile.v); a wait for a condition is a
    predicate on the state.  Mutexes themselves are not modelled.  Where the
    code lets go of a mutex in the middle of a method, the method is several
    steps.

    Code outside the repository is an interface (a class with laws), or an
    argument: the answers of the kernel, of libev, [rand()] and the clock.  The
    C files on processes take lists of such answers, one per turn of a loop, and
    the theorems are about all of them; a result [None] means that the answers
    were not enough, that is that the call has not returned yet.
    Integers are [Z]; where the width matters the wrap-around is written
    ([u64], [signed]), and a signed overflow is undefined behaviour.


    ** Interfaces between the components

    [Kernel] and [Descriptors] (system calls), [AbstractIo] (engine to linkage),
    [OpenSSL] (to the SSL engine), [WorkerApi] (worker to linkage),
    [LinkageHandler] (application to linkage), [Clients] and [Polite] (linkages
    to worker), [LinkageApi] (linkage to server), [EasyHandlers] (application to
    server), [Acceptor] (host of a listener), [Objects] (object map to its
    owner), [RouteHandler] (connection to router), [Gmp], [Inet], [Resolving].
    The clients are proved against the interface; [FileDescriptorIo_io],
    [SslIo_io], [worker_api], [linkage_api] and [server_acceptor] are the
    implementations, proved to obey it.


    ** The theorems

    - Connections: no assertion of a linkage can fail, whatever the kernel, the
      engine and the application do; messages do not depend on how the stream
      was cut, up to the packet in which the connection hangs up; the bytes on
      the wire are those that were sent, in order; queued bytes are always
      waited for; a connection that has hung up takes no bytes and delivers no
      message any more.
      The same over SSL, whose contexts keep their settings and free what they
      make; a ticket is read by who has its key.
    - Event loop: watchers are those of live clients; leaving the loop and the
      health check release exactly what they should; commands run once.
    - Sockets: open descriptors have one owner each; a call with a timeout
      transfers what it says and does not wait beyond its deadline.
    - Server: it is safe at any moment of its life (no dead object is used,
      counters count, descriptors are owned); Initialize, Connect and Send on
      every branch; Shutdown ends and frees everything.
    - Threads: one writer or readers, and nobody waits for ever; jobs of a key
      run in order, one at a time; the growable pool has a thread for its jobs;
      one thread resolves a host at a time.
    - Containers: objects live as long as they are held; nothing is lost or
      handed out twice; timeouts expire exactly the late ones; the task of a call
      of a router is pending, given back, deleted or leaked, once.
    - FastCGI: what is sent is one block of headers and the body, one response
      for each request; the handler of a request is that of its path, or the
      only one.
    - ZooKeeper: no pending is used when it is dead, if its users keep to the
      rules; a tracker follows its nodes, a council informs and elects.
    - Processes: the babysitter restarts as often as it may, closes what it
      opens and kills only a child that is late; a PID file has one valid holder
      (and where the lock does not help); the name of the process stays in its
      memory; trees are made and removed; paths resolve as written;
      a program is killed when its time is over and not before; the logger never
      leaves its buffer, and has one file open.
    - Values: decimal arithmetic is that of rationals, division is correctly
      rounded, text round trips; comparison of 128-bit integers; encoders invert;
      a tree is a finite map, and documents read it back.
    - Explode: fields and lists of ranges are those of a specification.
    - Errors of the code are theorems too, where the model shows them: their
      names end in what goes wrong (rmdirs_inside_forgets, pidfile_two_instances).
    - A theorem about all runs says in its comment which calls it leaves out;
      they are those of [enabled], [legal], [polite] or of the step relation of
      its file, and beside it is what goes wrong with them
      (refused_connection_dangles, growable_pool_Shutdown_hangs,
      zookeeper_rules, zookeeper_forgotten, babysitter_limit_leaves_pipe).

    Each property with hypotheses has a witness: the theorem at a concrete
    input.


    ** Fuel

    [DoReceived] and [split] take the length of the buffer, since every message
    takes a byte; [OnEvent] the engine's [internal] bound and two; the [Cleanup]
    of decimals the scale and one; [restart], [wait_loop] and the safe_
    functions [interrupts], the bound of calls interrupted in a row;
    [explode_list] the length of the text and two; the loops over an array of
    the environment ([compact], putenv) its length, those over memory ([peek])
    its size, [read_all_fds] the number of entries.  Each is proved enough: the
    model never returns [out_of_fuel], and where the loop returns an option its
    theorem says that it returns.


    ** What is not modelled

    The ClearSilver, libcurl, libxml2, iconv and ICU parts are calls of libraries
    that are not here, and so is most of the cryptography; MurmurHash3 is third
    party.  The messages of daemon.c, and those that other code gives to the
    logger, are left out.  The destructors of workers leave their pending
    commands; system threads are not created.  Conversions to floating point
    numbers, and what is only for Windows, are left out. *)

From Stdlib Require Export Ascii String ZArith Lia.
From stdpp Require Export base list strings sorting gmap.

Open Scope Z_scope.

(** ** Bytes and characters

    A [std::string], a [char *] without its terminator and a [void *] buffer
    of known length are lists of 8-bit characters. *)

Abbreviation bytes := (list ascii) (only parsing).

(** Byte string of a Rocq string literal. *)
Definition B (s : string) : list ascii := list_ascii_of_string s.

(** The unsigned value of a byte, and the byte of a value (modulo 256). *)
Definition code (c : ascii) : Z := Z.of_N (N_of_ascii c).
Definition chr (z : Z) : ascii := ascii_of_N (Z.to_N (z mod 256)).

Definition zlen {A} (l : list A) : Z := Z.of_nat (length l).

(** ** Machine integers *)

Definition u64 (z : Z) : Z := z mod 2 ^ 64.
Definition u32 (z : Z) : Z := z mod 2 ^ 32.

(** Two's complement reading of the low [w] bits. *)
Definition signed (w z : Z) : Z :=
  let m := z mod 2 ^ w in if m <? 2 ^ (w - 1) then m else m - 2 ^ w.

Definition INT_MAX : Z := 2147483647.
Definition INT_MIN : Z := -2147483648.
Definition LLONG_MAX : Z := 9223372036854775807.
Definition LLONG_MIN : Z := -9223372036854775808.
Definition ULLONG_MAX : Z := 18446744073709551615.

(** ** Results of code that can throw *)

Inductive result (E A : Type) : Type :=
| Ok (a : A)
| Err (e : E).
Arguments Ok {E A} _.
Arguments Err {E A} _.

Definition rbind {E A C} (m : result E A) (k : A -> result E C) : result E C :=
  match m with Ok a => k a | Err e => Err e end.

Declare Scope flinter_scope.
Delimit Scope flinter_scope with flinter.
Notation "'let!' x ':=' m 'in' k" := (rbind m (fun x => k))
  (at level 10, x pattern, m at level 100, k at level 200) : flinter_scope.
Open Scope flinter_scope.

(** C++ exceptions and failed assertions of the modelled code. *)
Inductive exn : Type :=
| invalid_argument (what : string)
| runtime_error (what : string)
| logic_error (what : string)
| out_of_range (what : string)
| bad_alloc
| assertion_failed
| undefined_behaviour (** signed overflow, access out of bounds, invalid iterator *)
| out_of_fuel. (** a loop of the model ran out of fuel; proved unreachable *)

(** An [int] expression: overflow is undefined. *)
Definition int_ (z : Z) : result exn Z :=
  if (INT_MIN <=? z) && (z <=? INT_MAX) then Ok z else Err undefined_behaviour.

(** ** Aliased operands

    The operand [const T &o] of a method that tests [this == &o]: the object
    itself, or another one. *)
Inductive operand (A : Type) : Type :=
| This
| Obj (o : A).
Arguments This {A}.
Arguments Obj {A} _.

Definition deref {A} (a : operand A) (self : A) : A :=
  match a with This => self | Obj o => o end.

(** ** Tactics *)

(** Case analysis on the [if]s, [match]es and [decide]s of the goal. *)
Ltac bcase :=
  match goal with
  | |- context [if ?b then _ else _] => destruct b eqn:?
  | |- context [match ?x with _ => _ end] => destruct x eqn:?
  end.

(** Turn boolean comparisons of the context into propositions. *)
Ltac bprop :=
  repeat match goal with
  | H : (_ <? _) = true |- _ => apply Z.ltb_lt in H
  | H : (_ <? _) = false |- _ => apply Z.ltb_ge in H
  | H : (_ <=? _) = true |- _ => apply Z.leb_le in H
  | H : (_ <=? _) = false |- _ => apply Z.leb_gt in H
  | H : (_ >? _) = true |- _ => apply Z.gtb_lt in H
  | H : (_ >=? _) = true |- _ => apply Z.geb_le in H
  | H : (_ =? _) = true |- _ => apply Z.eqb_eq in H
  | H : (_ =? _) = false |- _ => apply Z.eqb_neq in H
  | H : negb _ = true |- _ => apply negb_true_iff in H
  | H : negb _ = false |- _ => apply negb_false_iff in H
  | H : (_ && _) = true |- _ => apply andb_true_iff in H; destruct H
  | H : (_ || _) = false |- _ => apply orb_false_iff in H; destruct H
  end.

Create HintDb flinter.
Create Rewrite HintDb zlen.

Lemma int_ok (z : Z) : INT_MIN <= z <= INT_MAX -> int_ z = Ok z.
Proof.
  intros [H1 H2]. unfold int_. apply Z.leb_le in H1, H2. by rewrite H1, H2.
Qed.

(** ** Lemmas on bytes *)

Lemma code_range (c : ascii) : 0 <= code c < 256.
Proof.
  unfold code. pose proof (N_ascii_bounded c). lia.
Qed.

Lemma chr_code (c : ascii) : chr (code c) = c.
Proof.
  unfold chr. rewrite Z.mod_small by apply code_range.
  unfold code. rewrite N2Z.id. apply ascii_N_embedding.
Qed.

Lemma code_chr (z : Z) : code (chr z) = z mod 256.
Proof.
  unfold code, chr. rewrite N_ascii_embedding.
  - apply Z2N.id. apply Z.mod_pos_bound. lia.
  - pose proof (Z.mod_pos_bound z 256). lia.
Qed.

Lemma code_chr_small (z : Z) : 0 <= z < 256 -> code (chr z) = z.
Proof. intros. rewrite code_chr. apply Z.mod_small. lia. Qed.

Lemma code_inj (a b : ascii) : code a = code b -> a = b.
Proof. intros H. rewrite <- (chr_code a), <- (chr_code b). by rewrite H. Qed.

Lemma zlen_nonneg {A} (l : list A) : 0 <= zlen l.
Proof. unfold zlen. lia. Qed.

Lemma zlen_app {A} (l k : list A) : zlen (l ++ k) = zlen l + zlen k.
Proof. unfold zlen. rewrite length_app. lia. Qed.

Lemma zlen_cons {A} (x : A) (l : list A) : zlen (x :: l) = 1 + zlen l.
Proof. unfold zlen. simpl length. lia. Qed.

Lemma zlen_nil {A} : zlen (@nil A) = 0.
Proof. reflexivity. Qed.

Lemma zlen_zero {A} (l : list A) : zlen l = 0 -> l = [].
Proof. destruct l; [done|]. rewrite zlen_cons. pose proof (zlen_nonneg l). lia. Qed.

#[export] Hint Resolve code_range zlen_nonneg : flinter.
#[export] Hint Rewrite @zlen_app @zlen_cons @zlen_nil : zlen.
