(* ===== verification/Digits.v ===== *)
(** * Decimal and hexadecimal digit strings

    What the C library's integer formatting and parsing means on digit
    strings: the value of a run of digits, the canonical decimal string of a
    natural number ([%d], [operator <<]), and the left padding of
    [setfill('0') << setw(n)] and [%0*lu].  [Decimal], [Explode], [Convert],
    [Tree] and the zookeeper files use them. *)

From S2P Require Import Prelude.

Definition is_digit (c : ascii) : bool := (48 <=? code c) && (code c <=? 57).
Definition digit_val (c : ascii) : Z := code c - 48.
Definition digit_chr (d : Z) : ascii := chr (48 + d).

Definition digits_value (l : list ascii) : Z :=
  fold_left (fun a c => 10 * a + digit_val c) l 0.

(** The decimal digits of [n], most significant first; the fuel of [dec] is
    one more than the binary logarithm, which bounds the number of digits. *)
Fixpoint dec_fuel (fuel : nat) (n : Z) : list ascii :=
  match fuel with
  | O => [digit_chr (n mod 10)]
  | S f => if n <? 10 then [digit_chr n]
           else dec_fuel f (n / 10) ++ [digit_chr (n mod 10)]
  end.
Definition dec (n : Z) : list ascii := dec_fuel (Z.to_nat (Z.log2 n)) n.

(** [operator <<] of a signed integer. *)
Definition dec_signed (n : Z) : list ascii :=
  if n <? 0 then "-"%char :: dec (- n) else dec n.

(** Left padding with zeros to [w] characters. *)
Definition pad0 (w : nat) (l : list ascii) : list ascii :=
  replicate (w - length l)%nat "0"%char ++ l.

(** A digit string with no superfluous leading zero. *)
Definition canonical (l : list ascii) : Prop :=
  match l with
  | [] => False
  | [c] => True
  | c :: _ => c <> "0"%char
  end.

(** ** Single digits *)

Lemma digit_val_range c : is_digit c = true -> 0 <= digit_val c <= 9.
Proof. unfold is_digit, digit_val. intros. bprop. lia. Qed.

Lemma is_digit_chr d : 0 <= d <= 9 -> is_digit (digit_chr d) = true.
Proof.
  intros. unfold is_digit, digit_chr. rewrite code_chr_small by lia.
  apply andb_true_iff. split; apply Z.leb_le; lia.
Qed.

Lemma digit_val_chr d : 0 <= d <= 9 -> digit_val (digit_chr d) = d.
Proof. intros. unfold digit_val, digit_chr. rewrite code_chr_small; lia. Qed.

Lemma digit_chr_val c : is_digit c = true -> digit_chr (digit_val c) = c.
Proof.
  intros. unfold digit_chr, digit_val. replace (48 + _) with (code c) by lia.
  apply chr_code.
Qed.

Lemma digit_val_zero c : is_digit c = true -> digit_val c = 0 -> c = "0"%char.
Proof. intros Hd Hv. rewrite <- (digit_chr_val c Hd), Hv. reflexivity. Qed.

(** ** Values of digit strings *)

Lemma digits_value_fold l a :
  fold_left (fun a c => 10 * a + digit_val c) l a
  = a * 10 ^ zlen l + digits_value l.
Proof.
  revert a. induction l as [|c l IH]; intros a.
  - unfold digits_value. cbn. rewrite zlen_nil. lia.
  - unfold digits_value. cbn [fold_left].
    rewrite (IH (10 * a + _)), (IH (10 * 0 + _)), zlen_cons, Z.pow_add_r;
      pose proof (zlen_nonneg l); lia.
Qed.

Lemma digits_value_app l k :
  digits_value (l ++ k) = digits_value l * 10 ^ zlen k + digits_value k.
Proof. unfold digits_value at 1. by rewrite fold_left_app, digits_value_fold. Qed.

Lemma digits_value_cons c l :
  digits_value (c :: l) = digit_val c * 10 ^ zlen l + digits_value l.
Proof. exact (digits_value_app [c] l). Qed.

Lemma digits_value_replicate0 n : digits_value (replicate n "0"%char) = 0.
Proof. induction n; [done|]. simpl replicate. by rewrite digits_value_cons, IHn. Qed.

Lemma digits_value_range l :
  forallb is_digit l = true -> 0 <= digits_value l < 10 ^ zlen l.
Proof.
  induction l as [|c l IH]; [done|]. cbn [forallb]. intros H. bprop.
  rewrite digits_value_cons, zlen_cons, Z.pow_add_r by (auto with flinter || lia).
  specialize (IH ltac:(assumption)). pose proof (digit_val_range c ltac:(assumption)).
  nia.
Qed.

Lemma digits_value_zero l :
  forallb is_digit l = true -> digits_value l = 0 ->
  l = replicate (length l) "0"%char.
Proof.
  induction l as [|c l IH]; [done|]. cbn [forallb]. intros H Hv. bprop.
  rewrite digits_value_cons in Hv.
  pose proof (digits_value_range l ltac:(assumption)).
  pose proof (digit_val_range c ltac:(assumption)).
  assert (digit_val c = 0) as Hc by nia.
  rewrite Hc in Hv. cbn. f_equal; [by apply digit_val_zero | apply IH; [done | lia]].
Qed.

(** ** Canonical decimal strings *)

Lemma dec_fuel_digits f n : 0 <= n -> forallb is_digit (dec_fuel f n) = true.
Proof.
  revert n. induction f as [|f IH]; intros n Hn; cbn.
  - rewrite is_digit_chr; [done|]. pose proof (Z.mod_pos_bound n 10). lia.
  - bcase; bprop; cbn; [rewrite is_digit_chr by lia; done|].
    rewrite forallb_app, IH by (apply Z.div_pos; lia). cbn.
    rewrite is_digit_chr; [done|]. pose proof (Z.mod_pos_bound n 10). lia.
Qed.

Lemma dec_fuel_value f n :
  0 <= n < 2 ^ (Z.of_nat f + 1) -> digits_value (dec_fuel f n) = n.
Proof.
  revert n. induction f as [|f IH]; intros n Hn; cbn [dec_fuel].
  - change (2 ^ (Z.of_nat 0 + 1)) with 2 in Hn. rewrite digits_value_cons. unfold digits_value; cbn.
    rewrite (Z.mod_small n 10), digit_val_chr by lia. change (zlen []) with 0. lia.
  - bcase; bprop.
    + rewrite digits_value_cons. unfold digits_value; cbn.
      rewrite digit_val_chr by lia. change (zlen []) with 0. lia.
    + rewrite digits_value_app, IH.
      * change (zlen [_]) with 1. rewrite digits_value_cons.
        unfold digits_value; cbn [fold_left zlen].
        rewrite digit_val_chr by (pose proof (Z.mod_pos_bound n 10); lia).
        change (zlen []) with 0. pose proof (Z_div_mod_eq_full n 10). lia.
      * split; [apply Z.div_pos; lia|]. apply Z.div_lt_upper_bound; [lia|].
        rewrite Nat2Z.inj_succ in Hn.
        replace (Z.succ (Z.of_nat f) + 1) with (1 + (Z.of_nat f + 1)) in Hn by lia.
        rewrite Z.pow_add_r in Hn by lia. nia.
Qed.

Lemma dec_log2_bound n : 0 <= n -> 0 <= n < 2 ^ (Z.of_nat (Z.to_nat (Z.log2 n)) + 1).
Proof.
  intros. rewrite Z2Nat.id by apply Z.log2_nonneg. split; [done|].
  destruct (Z.eq_dec n 0) as [->|]; [done|].
  apply Z.log2_spec. lia.
Qed.

Lemma dec_digits n : 0 <= n -> forallb is_digit (dec n) = true.
Proof. apply dec_fuel_digits. Qed.

Lemma dec_value n : 0 <= n -> digits_value (dec n) = n.
Proof. intros. apply dec_fuel_value. by apply dec_log2_bound. Qed.

Lemma dec_fuel_canonical f n : 0 <= n < 2 ^ (Z.of_nat f + 1) ->
  canonical (dec_fuel f n) /\ (0 < n -> hd_error (dec_fuel f n) <> Some "0"%char).
Proof.
  revert n. induction f as [|f IH]; intros n Hn; cbn [dec_fuel].
  - change (2 ^ (Z.of_nat 0 + 1)) with 2 in Hn.
    split; [done|]. intros Hp. replace n with 1 by lia. done.
  - bcase; bprop.
    + split; [done|]. intros Hp [= Hc]. apply (f_equal digit_val) in Hc.
      rewrite digit_val_chr in Hc by lia. vm_compute in Hc. lia.
    + assert (0 < n / 10) by (apply Z.div_str_pos; lia).
      destruct (IH (n / 10)) as [Hcan Hhd].
      { split; [lia|]. apply Z.div_lt_upper_bound; [lia|].
        rewrite Nat2Z.inj_succ in Hn.
        replace (Z.succ (Z.of_nat f) + 1) with (1 + (Z.of_nat f + 1)) in Hn by lia.
        rewrite Z.pow_add_r in Hn by lia. nia. }
      specialize (Hhd ltac:(lia)).
      destruct (dec_fuel f (n / 10)) as [|c l]; [done|]. cbn in *.
      assert (c <> "0"%char) by congruence.
      split; [|congruence]. destruct l; done.
Qed.

Lemma dec_canonical n : 0 <= n -> canonical (dec n).
Proof. intros. by apply dec_fuel_canonical, dec_log2_bound. Qed.

Lemma dec_hd_pos n : 0 < n -> hd_error (dec n) <> Some "0"%char.
Proof. intros. apply dec_fuel_canonical; [apply dec_log2_bound|]; lia. Qed.

Lemma canonical_pos l :
  forallb is_digit l = true -> canonical l -> (1 < length l)%nat ->
  10 ^ (zlen l - 1) <= digits_value l.
Proof.
  destruct l as [|c [|c' l]]; cbn [length]; try (intros; lia).
  intros Hd Hc _. cbn [forallb] in Hd. bprop.
  rewrite digits_value_cons, zlen_cons.
  pose proof (digit_val_range c ltac:(assumption)).
  assert (digit_val c <> 0) by (intros E; apply Hc; by apply digit_val_zero).
  assert (forallb is_digit (c' :: l) = true) as Hd' by (cbn; by apply andb_true_iff).
  pose proof (digits_value_range _ Hd').
  replace (1 + zlen (c' :: l) - 1) with (zlen (c' :: l)) by lia. nia.
Qed.

(** Two canonical digit strings of one value are equal. *)
Lemma canonical_length l k :
  forallb is_digit l = true -> canonical l ->
  forallb is_digit k = true -> canonical k ->
  digits_value l = digits_value k -> length l = length k.
Proof.
  intros Hl Cl Hk Ck E.
  pose proof (digits_value_range l Hl) as Rl. pose proof (digits_value_range k Hk) as Rk.
  assert (forall l k : list ascii, forallb is_digit l = true -> canonical l ->
    forallb is_digit k = true -> digits_value l = digits_value k ->
    canonical k -> ~ (length k < length l)%nat) as Hlt.
  { clear. intros l k Hl Cl Hk E Ck Hlen.
    assert (1 <= length k)%nat by (destruct k; [done | cbn; lia]).
    pose proof (canonical_pos l Hl Cl ltac:(lia)).
    pose proof (digits_value_range k Hk).
    assert (10 ^ zlen k <= 10 ^ (zlen l - 1)).
    { apply Z.pow_le_mono_r; [lia|]. unfold zlen. lia. }
    lia. }
  pose proof (Hlt l k Hl Cl Hk E Ck). pose proof (Hlt k l Hk Ck Hl (eq_sym E) Cl). lia.
Qed.

Lemma digits_value_inj l k :
  forallb is_digit l = true -> forallb is_digit k = true ->
  length l = length k -> digits_value l = digits_value k -> l = k.
Proof.
  revert k. induction l as [|c l IH]; intros [|d k]; try done.
  cbn [forallb length]. intros Hl Hk Hlen E. bprop.
  rewrite !digits_value_cons in E.
  assert (zlen l = zlen k) as Hz by (unfold zlen; lia). rewrite Hz in E.
  pose proof (digits_value_range l ltac:(assumption)) as Rl. rewrite Hz in Rl.
  pose proof (digits_value_range k ltac:(assumption)) as Rk.
  pose proof (digit_val_range c ltac:(assumption)).
  pose proof (digit_val_range d ltac:(assumption)).
  assert (digit_val c = digit_val d) as Hcd by nia.
  f_equal.
  - rewrite <- (digit_chr_val c), <- (digit_chr_val d) by done. by rewrite Hcd.
  - apply IH; [done | done | lia |]. rewrite Hcd in E. lia.
Qed.

Lemma dec_unique l n :
  forallb is_digit l = true -> canonical l -> digits_value l = n -> l = dec n.
Proof.
  intros Hl Cl E.
  assert (0 <= n) by (pose proof (digits_value_range l Hl); lia).
  apply digits_value_inj; auto using dec_digits.
  - apply canonical_length; auto using dec_digits, dec_canonical.
    by rewrite dec_value.
  - by rewrite dec_value.
Qed.

Lemma dec_not_nil n : 0 <= n -> dec n <> [].
Proof. intros H E. pose proof (dec_canonical n H) as C. by rewrite E in C. Qed.

Lemma dec_length_pos n : 0 < n -> 10 ^ (zlen (dec n) - 1) <= n < 10 ^ zlen (dec n).
Proof.
  intros. pose proof (digits_value_range (dec n) (dec_digits n ltac:(lia))) as R.
  rewrite dec_value in R by lia. split; [|lia].
  destruct (decide (1 < length (dec n))%nat) as [Hl|Hl].
  - pose proof (canonical_pos (dec n) (dec_digits n ltac:(lia)) (dec_canonical n ltac:(lia)) Hl).
    rewrite dec_value in *; lia.
  - pose proof (dec_not_nil n ltac:(lia)).
    assert (zlen (dec n) = 1) as ->; [|cbn; lia].
    unfold zlen. destruct (dec n); [done|]. cbn in *. lia.
Qed.

Lemma pad0_length w l : length (pad0 w l) = Nat.max w (length l).
Proof. unfold pad0. rewrite length_app, length_replicate. lia. Qed.

Lemma forallb_replicate {A} (p : A -> bool) n x :
  p x = true -> forallb p (replicate n x) = true.
Proof. intros. induction n; cbn; [done|]. by rewrite H. Qed.

Lemma pad0_digits w l : forallb is_digit l = true -> forallb is_digit (pad0 w l) = true.
Proof.
  intros. unfold pad0. rewrite forallb_app, forallb_replicate by done. done.
Qed.

Lemma pad0_value w l : digits_value (pad0 w l) = digits_value l.
Proof. unfold pad0. rewrite digits_value_app, digits_value_replicate0. lia. Qed.

#[export] Hint Resolve dec_digits dec_canonical pad0_digits : flinter.
