(* ===== verification/Libc.v ===== *)
(** * The C library functions the modelled files call

    [isspace], [isxdigit], [strtoul], [strtoll], [strtoull] and the [%llx]
    conversions of [snprintf] and [sscanf], in the "C" locale, on the bytes
    that follow a [const char *]: the end of the list, or a NUL in it, is the
    terminator. *)

From S2P Require Import Prelude Digits.

Definition NUL : ascii := chr 0.

(** [s.c_str()] read as a C string. *)
Fixpoint c_str (s : bytes) : bytes :=
  match s with
  | [] => []
  | c :: s => if bool_decide (c = NUL) then [] else c :: c_str s
  end.

Definition isspace (c : ascii) : bool :=
  (code c =? 32) || ((9 <=? code c) && (code c <=? 13)).

Definition tolower (c : ascii) : ascii :=
  if (65 <=? code c) && (code c <=? 90) then chr (code c + 32) else c.

(** The value of a hexadecimal digit, in either case. *)
Definition xdigit (c : ascii) : option Z :=
  if is_digit c then Some (code c - 48)
  else if (65 <=? code c) && (code c <=? 70) then Some (code c - 55)
  else if (97 <=? code c) && (code c <=? 102) then Some (code c - 87)
  else None.

Definition isxdigit (c : ascii) : bool := bool_decide (is_Some (xdigit c)).

(** The value of a digit of a number in [base] (at most 16). *)
Definition base_digit (base : Z) (c : ascii) : option Z :=
  match xdigit c with
  | Some d => if d <? base then Some d else None
  | None => None
  end.

Fixpoint skip_spaces (l : bytes) : bytes :=
  match l with
  | [] => []
  | c :: k => if isspace c then skip_spaces k else l
  end.

(** The longest prefix of digits: accumulated value, count, rest. *)
Fixpoint span_digits (base acc n : Z) (l : bytes) : Z * Z * bytes :=
  match l with
  | [] => (acc, n, [])
  | c :: k =>
      match base_digit base c with
      | Some d => span_digits base (base * acc + d) (n + 1) k
      | None => (acc, n, l)
      end
  end.

Definition take_sign (l : bytes) : bool * bytes :=
  match l with
  | c :: k => if bool_decide (c = "-"%char) then (true, k)
              else if bool_decide (c = "+"%char) then (false, k) else (false, l)
  | [] => (false, l)
  end.

Definition is_x (c : ascii) : bool := bool_decide (c = "x"%char \/ c = "X"%char).

(** The base and the digits of a subject sequence in base 0. *)
Definition base0 (l : bytes) : Z * bytes :=
  match l with
  | c :: k =>
      if bool_decide (c = "0"%char) then
        match k with
        | x :: h :: _ => if is_x x && isxdigit h then (16, tail k) else (8, l)
        | _ => (8, l)
        end
      else (10, l)
  | [] => (10, l)
  end.

(** The subject sequence of [strtol] and its relatives: sign, magnitude and
    what follows; [None] when no conversion can be performed. *)
Definition strto (base : Z) (l : bytes) : option (bool * Z * bytes) :=
  let '(neg, l) := take_sign (skip_spaces l) in
  let '(base, l) := if base =? 0 then base0 l else (base, l) in
  let '(v, n, rest) := span_digits base 0 0 l in
  if n =? 0 then None else Some (neg, v, rest).

(** Value, the rest [*endptr], and whether [errno] is set to [ERANGE].
    Without a conversion the value is 0 and [*endptr] the argument. *)
Definition strtoll (base : Z) (l : bytes) : Z * bytes * bool :=
  match strto base l with
  | None => (0, l, false)
  | Some (neg, v, rest) =>
      let v := if neg : bool then - v else v in
      if v <? LLONG_MIN then (LLONG_MIN, rest, true)
      else if LLONG_MAX <? v then (LLONG_MAX, rest, true)
      else (v, rest, false)
  end.

Definition strtoull (base : Z) (l : bytes) : Z * bytes * bool :=
  match strto base l with
  | None => (0, l, false)
  | Some (neg, v, rest) =>
      if ULLONG_MAX <? v then (ULLONG_MAX, rest, true)
      else (if neg : bool then u64 (- v) else v, rest, false)
  end.

(** [unsigned long] is 64 bits wide. *)
Definition strtoul : Z -> bytes -> Z * bytes * bool := strtoull.

(** ** Hexadecimal conversions *)

(** ["0123456789abcdef"[d]] *)
Definition hex_chr (d : Z) : ascii := if d <? 10 then chr (48 + d) else chr (87 + d).

(** [w] hexadecimal digits of [n], as [%0*llx] prints a value of that size. *)
Fixpoint hexw (w : nat) (n : Z) : bytes :=
  match w with
  | O => []
  | S w => hexw w (n / 16) ++ [hex_chr (n mod 16)]
  end.

(** [%016llx] of [sscanf]: blanks, then at most 16 characters of an optional
    sign, an optional [0x] and digits. *)
Definition sscanf_016llx (l : bytes) : option (Z * bytes) :=
  let l := skip_spaces l in
  let field := take 16 l in
  let '(neg, f) := take_sign field in
  let f := match f with
           | z :: x :: k => if bool_decide (z = "0"%char) && is_x x then k else f
           | _ => f
           end in
  let '(v, n, rest) := span_digits 16 0 0 f in
  if n =? 0 then None
  else Some (u64 (if neg then - v else v), rest ++ drop 16 l).

(** The value of a string of hexadecimal digits. *)
Definition hex_value (l : bytes) : Z :=
  fold_left (fun a c => 16 * a + default 0 (xdigit c)) l 0.

(** ** Lemmas *)

Lemma xdigit_range c d : xdigit c = Some d -> 0 <= d < 16.
Proof.
  unfold xdigit, is_digit. pose proof (code_range c).
  destruct (Z.leb_spec 48 (code c)), (Z.leb_spec (code c) 57), (Z.leb_spec 65 (code c)),
    (Z.leb_spec (code c) 70), (Z.leb_spec 97 (code c)), (Z.leb_spec (code c) 102);
    cbn [andb]; try done; intros [= <-]; lia.
Qed.

Lemma isxdigit_some c : isxdigit c = true -> exists d, xdigit c = Some d.
Proof. unfold isxdigit. intros H. by apply bool_decide_eq_true in H. Qed.

Lemma xdigit_hex_chr d : 0 <= d < 16 -> xdigit (hex_chr d) = Some d.
Proof.
  intros H. unfold xdigit, hex_chr, is_digit.
  destruct (Z.ltb_spec d 10); rewrite code_chr_small by lia;
    repeat match goal with |- context [?a <=? ?b] => destruct (Z.leb_spec a b); try lia end;
    cbn [andb]; f_equal; lia.
Qed.

Lemma isxdigit_hex_chr d : 0 <= d < 16 -> isxdigit (hex_chr d) = true.
Proof. intros. unfold isxdigit. rewrite xdigit_hex_chr by done. done. Qed.

Lemma hex_value_fold l a :
  fold_left (fun a c => 16 * a + default 0 (xdigit c)) l a = a * 16 ^ zlen l + hex_value l.
Proof.
  revert a. induction l as [|c l IH]; intros a.
  - unfold hex_value. cbn. rewrite zlen_nil. lia.
  - unfold hex_value. cbn [fold_left].
    rewrite (IH (16 * a + _)), (IH (16 * 0 + _)), zlen_cons, Z.pow_add_r;
      pose proof (zlen_nonneg l); lia.
Qed.

Lemma hex_value_app l k : hex_value (l ++ k) = hex_value l * 16 ^ zlen k + hex_value k.
Proof. unfold hex_value at 1. by rewrite fold_left_app, hex_value_fold. Qed.

Lemma hex_value_cons c l :
  hex_value (c :: l) = default 0 (xdigit c) * 16 ^ zlen l + hex_value l.
Proof. exact (hex_value_app [c] l). Qed.

Lemma hex_value_range l : forallb isxdigit l = true -> 0 <= hex_value l < 16 ^ zlen l.
Proof.
  induction l as [|c l IH]; [done|]. cbn [forallb]. intros H. bprop.
  rewrite hex_value_cons, zlen_cons, Z.pow_add_r by (auto with flinter || lia).
  specialize (IH ltac:(assumption)).
  destruct (isxdigit_some c) as [d Hd]; [done|]. pose proof (xdigit_range c d Hd).
  rewrite Hd, Z.pow_1_r. cbn [from_option id]. nia.
Qed.

Lemma hexw_xdigits w n : forallb isxdigit (hexw w n) = true.
Proof.
  revert n. induction w as [|w IH]; intros n; cbn; [done|].
  rewrite forallb_app, IH. cbn. rewrite isxdigit_hex_chr; [done|].
  apply Z.mod_pos_bound. lia.
Qed.

Lemma hexw_length w n : length (hexw w n) = w.
Proof. revert n. induction w as [|w IH]; intros n; cbn; [done|]. rewrite length_app, IH. cbn. lia. Qed.

Lemma hexw_value w n : 0 <= n < 16 ^ Z.of_nat w -> hex_value (hexw w n) = n.
Proof.
  revert n. induction w as [|w IH]; intros n Hn.
  - change (16 ^ Z.of_nat 0) with 1 in Hn. change (hex_value (hexw 0 n)) with 0. lia.
  - cbn [hexw]. rewrite hex_value_app. change (zlen [_]) with 1.
    pose proof (Z.mod_pos_bound n 16 ltac:(lia)).
    rewrite hex_value_cons, xdigit_hex_chr by lia. cbn [from_option id].
    change (zlen (@nil ascii)) with 0. change (hex_value []) with 0.
    rewrite IH; [pose proof (Z_div_mod_eq_full n 16); lia|].
    rewrite Nat2Z.inj_succ, Z.pow_succ_r in Hn by lia.
    split; [apply Z.div_pos; lia|apply Z.div_lt_upper_bound; lia].
Qed.

Lemma span_digits_xdigits l k acc n : forallb isxdigit l = true ->
  (forall c k', k = c :: k' -> isxdigit c = false) ->
  span_digits 16 acc n (l ++ k) =
  (fold_left (fun a c => 16 * a + default 0 (xdigit c)) l acc, n + zlen l, k).
Proof.
  revert acc n. induction l as [|c l IH]; intros acc n Hd Hk.
  - change (zlen (@nil ascii)) with 0. rewrite Z.add_0_r. destruct k as [|c k]; [done|]. cbn.
    specialize (Hk c k eq_refl). unfold isxdigit in Hk.
    apply bool_decide_eq_false in Hk. unfold base_digit.
    destruct (xdigit c) eqn:E; [by destruct Hk|done].
  - cbn [forallb] in Hd. bprop. cbn [app span_digits fold_left].
    destruct (isxdigit_some c) as [d Hd]; [done|]. unfold base_digit. rewrite Hd.
    pose proof (xdigit_range c d Hd). destruct (Z.ltb_spec d 16); [|lia].
    rewrite IH by done. rewrite zlen_cons. cbn [from_option id]. do 2 f_equal. lia.
Qed.

Lemma isxdigit_not_special c : isxdigit c = true ->
  isspace c = false /\ c <> "-"%char /\ c <> "+"%char /\ is_x c = false.
Proof.
  intros H. assert (c <> "-"%char /\ c <> "+"%char /\ c <> "x"%char /\ c <> "X"%char) as (H1 & H2 & H3 & H4).
  { repeat split; intros ->; done. }
  split; [|split; [done|split; [done|]]].
  - destruct (isxdigit_some c H) as [d Hd]. unfold xdigit, is_digit in Hd. unfold isspace.
    destruct (Z.eqb_spec (code c) 32) as [E|]; [by rewrite E in Hd|].
    destruct (Z.leb_spec 9 (code c)), (Z.leb_spec (code c) 13); try done.
    exfalso. revert Hd.
    destruct (Z.leb_spec 48 (code c)), (Z.leb_spec 65 (code c)), (Z.leb_spec 97 (code c));
      cbn [andb]; try done; lia.
  - unfold is_x. apply bool_decide_false. intros [?|?]; done.
Qed.

Lemma sscanf_016llx_xdigits l k : forallb isxdigit l = true -> length l = 16%nat ->
  sscanf_016llx (l ++ k) = Some (hex_value l, k).
Proof.
  intros Hd Hl. unfold sscanf_016llx.
  assert (skip_spaces (l ++ k) = l ++ k) as ->.
  { destruct l as [|c l]; [done|]. cbn [forallb] in Hd. bprop. cbn [app skip_spaces].
    destruct (isxdigit_not_special c) as (-> & _); done. }
  rewrite take_app_length' by done.
  assert (take_sign l = (false, l)) as ->.
  { destruct l as [|c l]; [done|]. cbn [forallb] in Hd. bprop.
    destruct (isxdigit_not_special c) as (_ & ? & ? & _); [done|].
    cbn. by rewrite !bool_decide_false. }
  assert (match l with
          | z :: x :: k => if bool_decide (z = "0"%char) && is_x x then k else l
          | _ => l
          end = l) as ->.
  { destruct l as [|z [|x l]]; try done. cbn [forallb] in Hd. bprop.
    destruct (isxdigit_not_special x) as (_ & _ & _ & ->); [done|]. by rewrite andb_false_r. }
  pose proof (span_digits_xdigits l [] 0 0 Hd) as E. rewrite app_nil_r in E.
  rewrite E by done. rewrite drop_app_length' by done.
  unfold zlen. rewrite Hl. cbn [Z.add Z.of_nat Z.eqb app]. fold (hex_value l).
  pose proof (hex_value_range l Hd) as R. unfold zlen in R. rewrite Hl in R.
  unfold u64. rewrite Z.mod_small by (change (2 ^ 64) with (16 ^ Z.of_nat 16); lia). done.
Qed.

(** ** Decimal numbers at the head of a text *)

Lemma is_digit_base c : is_digit c = true -> base_digit 10 c = Some (digit_val c).
Proof.
  intros H. unfold base_digit, xdigit. rewrite H. pose proof (digit_val_range c H).
  unfold digit_val in *. by rewrite (proj2 (Z.ltb_lt _ _)) by lia.
Qed.

Lemma not_digit_base c : is_digit c = false -> base_digit 10 c = None.
Proof.
  intros H. unfold base_digit. destruct (xdigit c) as [d|] eqn:E; [|done].
  assert (10 <= d).
  { unfold xdigit in E. rewrite H in E. revert E.
    destruct (Z.leb_spec 65 (code c)), (Z.leb_spec (code c) 70), (Z.leb_spec 97 (code c)),
      (Z.leb_spec (code c) 102); cbn [andb]; try done; intros [= <-]; lia. }
  by rewrite (proj2 (Z.ltb_ge _ _)) by lia.
Qed.

Lemma span_digits_10 l k acc n : forallb is_digit l = true ->
  is_digit (hd NUL k) = false ->
  span_digits 10 acc n (l ++ k) = (acc * 10 ^ zlen l + digits_value l, n + zlen l, k).
Proof.
  intros Hd Hk. rewrite <- digits_value_fold. revert acc n Hd.
  induction l as [|c l IH]; intros acc n Hd.
  - change (zlen (@nil ascii)) with 0. rewrite Z.add_0_r.
    destruct k as [|c k]; [done|]. cbn in *. by rewrite not_digit_base.
  - cbn [forallb] in Hd. bprop. cbn [app span_digits fold_left].
    rewrite is_digit_base by done. rewrite IH by done. rewrite zlen_cons. do 2 f_equal. lia.
Qed.

Lemma digit_head c : is_digit c = true ->
  isspace c = false /\ c <> "-"%char /\ c <> "+"%char /\ c <> ","%char /\ c <> " "%char.
Proof.
  intros H. split; [|repeat split; intros ->; done].
  unfold is_digit in H. unfold isspace. bprop.
  destruct (Z.eqb_spec (code c) 32), (Z.leb_spec 9 (code c)), (Z.leb_spec (code c) 13);
    try done; lia.
Qed.

(** The maximal run of digits at the head of a text. *)
Lemma digit_run s : exists l k, s = l ++ k /\ forallb is_digit l = true /\
  is_digit (hd NUL k) = false.
Proof.
  induction s as [|c s (l & k & -> & Hl & Hk)].
  - by exists [], [].
  - destruct (is_digit c) eqn:E.
    + exists (c :: l), k. cbn. by rewrite E.
    + by exists [], (c :: l ++ k).
Qed.

Lemma strtoul_digits l k : l <> [] -> forallb is_digit l = true ->
  is_digit (hd NUL k) = false ->
  strtoul 10 (l ++ k) =
  if ULLONG_MAX <? digits_value l then (ULLONG_MAX, k, true) else (digits_value l, k, false).
Proof.
  intros Hn Hd Hk. unfold strtoul, strtoull, strto.
  assert (skip_spaces (l ++ k) = l ++ k) as ->.
  { destruct l as [|c l]; [done|]. cbn [forallb] in Hd. bprop. cbn.
    by destruct (digit_head c) as (-> & _). }
  assert (take_sign (l ++ k) = (false, l ++ k)) as ->.
  { destruct l as [|c l]; [done|]. cbn [forallb] in Hd. bprop.
    destruct (digit_head c) as (_ & ? & ? & _); [done|]. cbn. by rewrite !bool_decide_false. }
  cbn [Z.eqb]. rewrite span_digits_10 by done.
  destruct (Z.eqb_spec (0 + zlen l) 0) as [E|E]; [|done].
  exfalso. apply Hn, zlen_zero. lia.
Qed.

(** At a digit, [strtoul] moves on and its value is not negative. *)
Lemma strtoul_progress s : is_digit (hd NUL s) = true ->
  exists n e b, strtoul 10 s = (n, e, b) /\ 0 <= n /\ (length e < length s)%nat.
Proof.
  intros H. destruct (digit_run s) as (l & k & -> & Hl & Hk).
  assert (l <> []) by (intros ->; cbn in H; congruence).
  rewrite strtoul_digits by done. pose proof (digits_value_range l Hl).
  assert (length k < length (l ++ k))%nat.
  { rewrite length_app. destruct l; [done|]. cbn. lia. }
  destruct (_ <? _); eexists _, _, _; (split; [reflexivity|]); unfold ULLONG_MAX; split; (lia || done).
Qed.
