(* ===== verification/Utility.v ===== *)
(** * Small functions of utility.c: numbers, random numbers, limits

    [atoi32] reads a number that is not negative, [ranged_rand] draws one up to
    a bound from the C library's generator, the rest asks the kernel for timers
    and limits.  A [long] is 64 bits wide. *)

From Stdlib Require Import ZifyBool.
From S2P Require Import Prelude Digits Libc.

(** ** atoi32 *)

(** [value]: the bytes before the terminator; [stale]: errno was ERANGE before
    the call (strtol leaves it alone when it succeeds). *)
Definition atoi32 (value : option bytes) (stale : bool) : Z :=
  match value with
  | None => -1
  | Some value =>
      if bool_decide (value = []) then -1
      else
        let '(i, rest, erange) := strtoll 10 value in
        if negb (bool_decide (rest = []))
           || ((i =? LLONG_MAX) && (erange || stale))
           || (INT_MAX <? i) || (i <? 0)
        then -1
        else i
  end.

(** ** Random numbers *)

Section Random.

(** [RAND_MAX] of the C library; [rand] returns numbers of [0, RAND_MAX], and
    the values that it is about to return are a list. *)
Context (RAND_MAX : Z).

(** do ... while (r > bad); [None]: the list is at its end. *)
Fixpoint draw (bad : Z) (draws : list Z) : option (Z * list Z) :=
  match draws with
  | [] => None
  | r :: draws => if bad <? r then draw bad draws else Some (r, draws)
  end.

Definition rand (draws : list Z) : option (Z * list Z) :=
  match draws with [] => None | r :: draws => Some (r, draws) end.

Definition power_of_two (n : Z) : bool := Z.land n (- n) =? n.

Definition ranged_rand (range : Z) (draws : list Z) : option (Z * list Z) :=
  if (range <? 0) || (RAND_MAX <? range) then Some (-1, draws)
  else if range =? 0 then Some (0, draws)
  else if range =? RAND_MAX then rand draws
  else
    let n := range + 1 in
    if power_of_two n then
      match rand draws with Some (r, draws) => Some (r mod n, draws) | None => None end
    else
      let bad := RAND_MAX - RAND_MAX mod n in
      match draw bad draws with Some (r, draws) => Some (r mod n, draws) | None => None end.

(** ranged_rand_r: the same, of rand_r(seedp). *)
Definition ranged_rand_r (range : Z) (draws : list Z) : option (Z * list Z) := ranged_rand range draws.

(** What one value of the generator gives, if it is not rejected. *)
Definition outcome (range r : Z) : option Z :=
  match ranged_rand range [r] with Some (k, _) => Some k | None => None end.

End Random.

(** ** Timers and limits *)

(** it_value of the timer: seconds and microseconds. *)
Definition set_alarm_timer (milliseconds : Z) : Z * Z :=
  let milliseconds := if milliseconds <? 0 then 0 else milliseconds in
  (Z.quot milliseconds 1000, Z.rem milliseconds 1000 * 1000).

Definition FD_SETSIZE : Z := 1024.

Definition add_to_set (max_fd fd : Z) (set : gset Z) : Z * gset Z :=
  if (fd <? 0) || (FD_SETSIZE <=? fd) then (max_fd, set)
  else (if max_fd <? fd then fd else max_fd, {[ fd ]} ∪ set).

Definition RLIM_INFINITY : Z := 2 ^ 64 - 1.

Record rlimit : Type := mkRlimit { rlim_cur : Z; rlim_max : Z }.

Section Limits.

(** The limit in force ([None]: getrlimit fails), and which ones the kernel
    accepts. *)
Context (allowed : rlimit -> bool).

Definition setrlimit (rlim old : rlimit) : bool * rlimit :=
  if allowed rlim then (true, rlim) else (false, old).

(** The value and the limit in force afterwards. *)
Definition set_maximum_files (nofile : Z) (limits : option rlimit) : Z * option rlimit :=
  match limits with
  | None => (-1, None)
  | Some old =>
      if rlim_cur old =? nofile then (signed 64 (rlim_cur old), Some old)
      else
        let last rlim :=
          let (ok, now) := setrlimit rlim old in
          (signed 64 (if ok : bool then rlim_cur rlim else rlim_cur old), Some now) in
        if negb (rlim_max old =? RLIM_INFINITY) && (rlim_max old <? nofile) then
          let (ok, now) := setrlimit (mkRlimit nofile nofile) old in
          if ok : bool then (signed 64 nofile, Some now)
          else if rlim_cur old =? rlim_max old then (signed 64 (rlim_cur old), Some old)
          else last (mkRlimit (rlim_max old) (rlim_max old))
        else last (mkRlimit nofile (rlim_max old))
  end.

(** The value is the limit in force. *)
Lemma set_maximum_files_truth nofile old : exists now,
  set_maximum_files nofile (Some old) = (signed 64 (rlim_cur now), Some now) /\
  (now = old \/ (allowed now = true /\
     (rlim_cur now = nofile \/ (rlim_cur now = rlim_max old /\ rlim_max old < nofile)))).
Proof.
  unfold set_maximum_files, setrlimit. destruct (rlim_cur old =? nofile) eqn:E0; [eauto|].
  destruct (negb _ && _) eqn:E1.
  - destruct (allowed (mkRlimit nofile nofile)) eqn:A1; [exists (mkRlimit nofile nofile); eauto 6|].
    destruct (rlim_cur old =? rlim_max old); [eauto|].
    destruct (allowed (mkRlimit (rlim_max old) (rlim_max old))) eqn:A2; [|eauto].
    eexists. split; [done|]. right. split; [done|]. right. bprop. by split.
  - destruct (allowed (mkRlimit nofile (rlim_max old))) eqn:A2; [|eauto].
    eexists. split; [done|]. right. split; [done|]. by left.
Qed.

End Limits.

Lemma set_alarm_timer_exact ms : let (s, us) := set_alarm_timer ms in
  0 <= s /\ 0 <= us < 1000000 /\ s * 1000000 + us = Z.max 0 ms * 1000.
Proof.
  unfold set_alarm_timer. set (m := if ms <? 0 then 0 else ms).
  assert (m = Z.max 0 ms) as <- by (unfold m; destruct (Z.ltb_spec ms 0); lia).
  assert (0 <= m) by (unfold m; destruct (Z.ltb_spec ms 0); lia). clearbody m.
  rewrite Z.quot_div_nonneg, Z.rem_mod_nonneg by lia.
  pose proof (Z.div_mod m 1000 ltac:(lia)). pose proof (Z.mod_pos_bound m 1000 ltac:(lia)). lia.
Qed.

Lemma add_to_set_in max_fd fd s : 0 <= fd < FD_SETSIZE ->
  let (m, s') := add_to_set max_fd fd s in fd ∈ s' /\ max_fd <= m /\ fd <= m /\ (s ⊆ s').
Proof.
  intros H. unfold add_to_set. replace (_ || _) with false by lia.
  destruct (max_fd <? fd) eqn:E; split_and!; (lia || set_solver).
Qed.

(** ** What atoi32 reads *)

(** [s] is a number as strtol takes it: spaces, a sign, digits; [n] its value. *)
Definition numeral (s : bytes) (n : Z) : Prop :=
  exists spaces sign ds, s = spaces ++ sign ++ ds /\ Forall (fun c => isspace c = true) spaces /\
    (sign = [] \/ sign = ["+"%char] \/ sign = ["-"%char]) /\
    ds <> [] /\ forallb is_digit ds = true /\
    n = if bool_decide (sign = ["-"%char]) then - digits_value ds else digits_value ds.

Lemma skip_spaces_split s : exists x, s = x ++ skip_spaces s /\ Forall (fun c => isspace c = true) x /\
  isspace (hd NUL (skip_spaces s)) = false.
Proof.
  induction s as [|c s (x & E & H & Hh)]; [by exists []|]. cbn. destruct (isspace c) eqn:Ec.
  - exists (c :: x). split; [cbn; congruence|]. split; [by constructor|done].
  - exists []. by split_and!.
Qed.

Lemma skip_spaces_app x s : Forall (fun c => isspace c = true) x -> isspace (hd NUL s) = false ->
  skip_spaces (x ++ s) = s.
Proof.
  intros H Hs. induction H as [|c x Hc _ IH]; cbn; [|by rewrite Hc].
  destruct s as [|c s]; [done|]. cbn in *. by rewrite Hs.
Qed.

Lemma take_sign_split s : exists sign, s = sign ++ (take_sign s).2 /\
  (sign = [] \/ sign = ["+"%char] \/ sign = ["-"%char]) /\
  (take_sign s).1 = bool_decide (sign = ["-"%char]).
Proof.
  destruct s as [|c s]; [by exists []; auto|]. cbn. case_bool_decide as E1; [subst c; exists ["-"%char]; auto|].
  case_bool_decide as E2; [subst c; exists ["+"%char]; auto|]. exists []. auto.
Qed.

(** Of a whole numeral strtoll leaves nothing. *)
Lemma strtoll_numeral s n : numeral s n ->
  strtoll 10 s = if n <? LLONG_MIN then (LLONG_MIN, [], true)
                 else if LLONG_MAX <? n then (LLONG_MAX, [], true) else (n, [], false).
Proof.
  intros (x & sign & ds & -> & Hx & Hsg & Hne & Hd & ->). unfold strtoll, strto.
  destruct ds as [|d ds]; [done|]. pose proof Hd as Hd'. cbn [forallb] in Hd'. bprop.
  destruct (digit_head d) as (D1 & D2 & D3 & _); [done|].
  rewrite skip_spaces_app; [|done|by destruct Hsg as [-> |[-> | ->]]].
  assert (take_sign (sign ++ d :: ds) = (bool_decide (sign = ["-"%char]), d :: ds)) as ->.
  { destruct Hsg as [-> |[-> | ->]]; cbn; try done. by rewrite !bool_decide_false. }
  cbn [Z.eqb]. rewrite <- (app_nil_r (d :: ds)), span_digits_10 by done. rewrite app_nil_r.
  replace (0 + zlen (d :: ds) =? 0) with false by (rewrite zlen_cons; pose proof (zlen_nonneg ds); lia).
  rewrite Z.mul_0_l, Z.add_0_l. done.
Qed.

(** And what it reads to the end is a numeral. *)
Lemma strtoll_all s i e : s <> [] -> strtoll 10 s = (i, [], e) -> exists n, numeral s n.
Proof.
  unfold strtoll, strto. intros Hs.
  destruct (skip_spaces_split s) as (x & E & Hx & _).
  destruct (take_sign_split (skip_spaces s)) as (sign & E2 & Hsg & E3).
  destruct (take_sign (skip_spaces s)) as [neg r]. cbn [fst snd] in *.
  cbn [Z.eqb]. destruct (digit_run r) as (l & k & -> & Hl & Hk).
  rewrite span_digits_10 by done.
  destruct (Z.eqb_spec (0 + zlen l) 0) as [E4|E4]; [by intros [= _ -> _]|].
  intros H. assert (k = []) as ->.
  { destruct (_ <? LLONG_MIN); [by injection H|]. destruct (LLONG_MAX <? _); by injection H. }
  rewrite app_nil_r in E2. eexists. exists x, sign, l. split_and!; try done.
  - by rewrite <- E2.
  - intros ->. by apply E4.
Qed.

(** [atoi32] reads exactly the numbers of 0 to INT_MAX: text that strtol takes
    as a whole and whose value is in that range gives its value, anything else
    -1, whatever errno was before. *)
Theorem atoi32_reads (s : bytes) (stale : bool) :
  -1 <= atoi32 (Some s) stale <= INT_MAX /\
  forall n, 0 <= n -> (atoi32 (Some s) stale = n <-> numeral s n /\ n <= INT_MAX).
Proof.
  split.
  { unfold atoi32, INT_MAX. case_bool_decide; [lia|]. destruct (strtoll 10 s) as [[i rest] e].
    destruct (_ || _) eqn:E; [lia|]. bprop. unfold INT_MAX in *. lia. }
  intros n Hn. unfold atoi32. case_bool_decide as Es.
  - subst s. split; [lia|]. intros [(x & sign & ds & E & _ & _ & Hd & _) _]. symmetry in E.
    apply app_nil in E as [_ [_ ->]%app_nil]. done.
  - split.
    + destruct (strtoll 10 s) as [[i rest] e] eqn:E. case_bool_decide as Er; cbn [negb orb]; [|lia].
      subst rest. intros H.
      destruct (_ || _) eqn:Eb in H; [lia|]. subst n. bprop. split; [|done].
      destruct (strtoll_all s i e Es E) as [m Hm]. rewrite (strtoll_numeral s m Hm) in E.
      unfold INT_MAX, LLONG_MAX, LLONG_MIN in *.
      destruct (m <? _); [injection E; lia|]. destruct (_ <? m); [injection E; lia|]. by injection E as ->.
    + intros [Hm Hmax]. rewrite (strtoll_numeral s n Hm). unfold INT_MAX, LLONG_MAX, LLONG_MIN in *.
      replace (n <? _) with false by lia. replace (_ <? n) with false by lia.
      rewrite bool_decide_true by done. cbn [negb orb].
      replace (n =? _) with false by lia. replace (2147483647 <? n) with false by lia.
      by replace (n <? 0) with false by lia.
Qed.

Lemma atoi32_reads_witness : atoi32 (Some (B " +0042")) true = 42.
Proof.
  apply (proj2 (atoi32_reads (B " +0042") true) 42); [lia|]. split; [|unfold INT_MAX; lia].
  exists (B " "), (B "+"), (B "0042"). split_and!; try done; [by repeat constructor|by right; left].
Defined.

(** ** What ranged_rand draws *)

(** How many of the values below [m] satisfy [f]. *)
Fixpoint count_below (m : nat) (f : Z -> bool) : Z :=
  match m with
  | O => 0
  | S m => count_below m f + (if f (Z.of_nat m) then 1 else 0)
  end.

Lemma count_below_ext m f g : (forall r, 0 <= r < Z.of_nat m -> f r = g r) -> count_below m f = count_below m g.
Proof. induction m as [|m IH]; intros H; [done|]. cbn [count_below]. rewrite (H (Z.of_nat m)) by lia. rewrite IH; [done|]. intros r Hr. apply H. lia. Qed.

(** The residues of the first numbers. *)
Lemma count_residue m n k : 0 <= k < n ->
  count_below m (fun r => r mod n =? k) = Z.of_nat m / n + (if k <? Z.of_nat m mod n then 1 else 0).
Proof.
  intros Hk. induction m as [|m IH]; cbn [count_below].
  - rewrite Z.mod_0_l, Z.div_0_l by lia. by replace (k <? 0) with false by lia.
  - rewrite IH. rewrite Nat2Z.inj_succ. unfold Z.succ. set (z := Z.of_nat m).
    pose proof (Z.div_mod z n ltac:(lia)) as H1. pose proof (Z.mod_pos_bound z n ltac:(lia)) as H2.
    destruct (decide (z mod n = n - 1)) as [E|E].
    + assert ((z + 1) / n = z / n + 1) as -> by (symmetry; apply (Z.div_unique _ _ _ 0); lia).
      assert ((z + 1) mod n = 0) as -> by (symmetry; apply (Z.mod_unique _ _ (z / n + 1)); lia).
      destruct (k <? z mod n) eqn:B1, (z mod n =? k) eqn:B2, (k <? 0) eqn:B3; lia.
    + assert ((z + 1) / n = z / n) as -> by (symmetry; apply (Z.div_unique _ _ _ (z mod n + 1)); lia).
      assert ((z + 1) mod n = z mod n + 1) as -> by (symmetry; apply (Z.mod_unique _ _ (z / n)); lia).
      destruct (k <? z mod n) eqn:B1, (z mod n =? k) eqn:B2, (k <? z mod n + 1) eqn:B3; lia.
Qed.

Lemma count_below_none m f : (forall r, 0 <= r -> f r = false) -> count_below m f = 0.
Proof. intros H. induction m as [|m IH]; cbn; [done|]. rewrite IH, H by lia. done. Qed.

Lemma count_below_split m m' f : (m' <= m)%nat -> (forall r, Z.of_nat m' <= r < Z.of_nat m -> f r = false) ->
  count_below m f = count_below m' f.
Proof.
  intros Hm H. induction m as [|m IH]; [by replace m' with 0%nat by lia|].
  destruct (decide (m' = S m)) as [->|Hne]; [done|]. cbn [count_below].
  rewrite H by lia. rewrite IH; [lia|lia|]. intros r Hr. apply H. lia.
Qed.

Lemma draw_spec bad draws r rest : draw bad draws = Some (r, rest) -> r <= bad /\ In r draws.
Proof.
  induction draws as [|a draws IH]; cbn; [done|]. destruct (bad <? a) eqn:E.
  - intros [H1 H2]%IH. auto.
  - intros [= -> ->]. split; [lia|by left].
Qed.

Lemma draw_some bad draws : (exists r, In r draws /\ r <= bad) -> exists x, draw bad draws = Some x.
Proof.
  intros (r & Hin & Hr). induction draws as [|a draws IH]; [done|]. cbn.
  destruct (bad <? a) eqn:E; [|eauto]. apply IH. destruct Hin as [-> |?]; [lia|done].
Qed.

(** The bound itself is drawn. *)
Lemma ranged_rand_bound RAND_MAX range : 0 < range <= RAND_MAX -> ranged_rand RAND_MAX range [range] = Some (range, []).
Proof.
  intros H. unfold ranged_rand. rewrite (proj2 (Z.ltb_ge range 0)), (proj2 (Z.ltb_ge RAND_MAX range)) by lia. cbn [orb].
  rewrite (proj2 (Z.eqb_neq range 0)) by lia. cbn [rand draw].
  destruct (Z.eqb_spec range RAND_MAX); [done|].
  rewrite (Z.mod_small range) by lia. destruct (power_of_two _); [done|].
  rewrite (proj2 (Z.ltb_ge _ range)); [by rewrite (Z.mod_small range) by lia|].
  pose proof (Z.div_mod RAND_MAX (range + 1) ltac:(lia)). pose proof (Z.mod_pos_bound RAND_MAX (range + 1) ltac:(lia)).
  assert (1 <= RAND_MAX / (range + 1)) by (apply Z.div_le_lower_bound; lia). nia.
Qed.

(** [ranged_rand] stays in [0, range]: for every bound that it accepts the
    value is one of [0, range], both ends included, and it comes as soon as the
    generator returns a value of its lower half; other bounds give -1. *)
Theorem ranged_rand_range (RAND_MAX range : Z) (draws : list Z) : 0 < RAND_MAX ->
  Forall (fun r => 0 <= r <= RAND_MAX) draws ->
  (0 <= range <= RAND_MAX ->
     (forall k rest, ranged_rand RAND_MAX range draws = Some (k, rest) -> 0 <= k <= range) /\
     ((exists r, In r draws /\ 2 * r <= RAND_MAX) -> exists x, ranged_rand RAND_MAX range draws = Some x)) /\
  (~ 0 <= range <= RAND_MAX -> ranged_rand RAND_MAX range draws = Some (-1, draws)).
Proof.
  intros HM HD. rewrite Forall_forall in HD. split.
  - intros Hr. unfold ranged_rand. replace (_ || _) with false by lia.
    destruct (range =? 0) eqn:E0; [split; [intros k rest [= <- <-]; lia|eauto]|].
    assert (forall r rest, rand draws = Some (r, rest) -> 0 <= r <= RAND_MAX) as HR.
    { intros r rest. unfold rand. destruct draws as [|a draws]; [done|]. intros [= -> ->].
      apply HD. by left. }
    assert (forall r, In r draws -> exists x rest, rand draws = Some (x, rest)) as HS.
    { intros r. destruct draws; [done|]. cbn. eauto. }
    destruct (range =? RAND_MAX) eqn:E1.
    { split; [intros k rest H; apply HR in H; lia|]. intros (r & Hin & _). destruct (HS r Hin) as (x & rest & ->). eauto. }
    assert (forall r, 0 <= r mod (range + 1) <= range) as Hm.
    { intros r. pose proof (Z.mod_pos_bound r (range + 1) ltac:(lia)). lia. }
    destruct (power_of_two (range + 1)).
    + split.
      * intros k rest. destruct (rand draws) as [[r d]|]; [|done]. intros [= <- <-]. apply Hm.
      * intros (r & Hin & _). destruct (HS r Hin) as (x & rest & ->). eauto.
    + split.
      * intros k rest. destruct (draw _ draws) as [[r d]|]; [|done]. intros [= <- <-]. apply Hm.
      * intros (r & Hin & Hlow). destruct (draw_some (RAND_MAX - RAND_MAX mod (range + 1)) draws) as [[x d] ->]; [|eauto].
        exists r. split; [done|].
        pose proof (Z.div_mod RAND_MAX (range + 1) ltac:(lia)).
        pose proof (Z.mod_pos_bound RAND_MAX (range + 1) ltac:(lia)).
        assert (1 <= RAND_MAX / (range + 1)) by (apply Z.div_le_lower_bound; lia). nia.
  - intros Hr. unfold ranged_rand. by replace (_ || _) with true by lia.
Qed.

Lemma ranged_rand_range_witness :
  ranged_rand 32767 5 [32767; 9] = Some (3, []) /\ 0 <= 3 <= 5.
Proof.
  destruct (ranged_rand_range 32767 5 [32767; 9]) as [H _]; [lia|repeat constructor; lia|].
  destruct (H ltac:(lia)) as [HR _]. split; [reflexivity|]. apply (HR 3 []). reflexivity.
Defined.

Lemma outcome_rejecting RAND_MAX range r : 0 < range < RAND_MAX -> power_of_two (range + 1) = false ->
  outcome RAND_MAX range r =
  if RAND_MAX - RAND_MAX mod (range + 1) <? r then None else Some (r mod (range + 1)).
Proof.
  intros H Hp. unfold outcome, ranged_rand. replace (_ || _) with false by lia.
  replace (range =? 0) with false by lia. replace (range =? RAND_MAX) with false by lia. rewrite Hp.
  cbn [draw]. by destruct (_ <? r).
Qed.

Lemma outcome_power RAND_MAX range r : 0 < range < RAND_MAX -> power_of_two (range + 1) = true ->
  outcome RAND_MAX range r = Some (r mod (range + 1)).
Proof.
  intros H Hp. unfold outcome, ranged_rand. replace (_ || _) with false by lia.
  replace (range =? 0) with false by lia. replace (range =? RAND_MAX) with false by lia. by rewrite Hp.
Qed.

(** How many values of the generator give [k]. *)
Definition chances (RAND_MAX range k : Z) : Z :=
  count_below (Z.to_nat (RAND_MAX + 1)) (fun r => bool_decide (outcome RAND_MAX range r = Some k)).

(** Ranged_rand is not equally distributed.  When the size of the range
    divides the number of values of the generator by a power of two all results
    are as likely as each other, as the header says; otherwise one value too many is
    accepted, and 0 is given by one value of the generator more than every
    other result. *)
Theorem ranged_rand_biased (RAND_MAX range k : Z) : 0 < range < RAND_MAX -> 0 <= k <= range ->
  chances RAND_MAX range k =
    if power_of_two (range + 1)
    then (RAND_MAX + 1) / (range + 1) + (if k <? (RAND_MAX + 1) mod (range + 1) then 1 else 0)
    else RAND_MAX / (range + 1) + (if k =? 0 then 1 else 0).
Proof.
  intros Hr Hk. unfold chances. set (n := range + 1). assert (1 < n) as Hn by (unfold n; lia).
  destruct (power_of_two n) eqn:Hp.
  - rewrite (count_below_ext _ _ (fun r => r mod n =? k)).
    + rewrite count_residue by lia. by rewrite Z2Nat.id by lia.
    + intros r _. rewrite outcome_power by done. case_bool_decide as E; [injection E as <-; by rewrite Z.eqb_refl|].
      symmetry. apply Z.eqb_neq. intros <-. by apply E.
  - remember (RAND_MAX - RAND_MAX mod n) as bad eqn:Eb.
    pose proof (Z.div_mod RAND_MAX n ltac:(lia)) as H1. pose proof (Z.mod_pos_bound RAND_MAX n ltac:(lia)) as H2.
    assert (0 <= RAND_MAX / n) as H3 by (apply Z.div_pos; lia). assert (bad = n * (RAND_MAX / n)) as Hb by lia.
    rewrite (count_below_split _ (Z.to_nat (bad + 1))); [|lia|].
    + rewrite (count_below_ext _ _ (fun r => r mod n =? k)).
      * rewrite count_residue, Z2Nat.id by nia.
        assert ((bad + 1) / n = RAND_MAX / n) as -> by (symmetry; apply (Z.div_unique _ _ _ 1); lia).
        assert ((bad + 1) mod n = 1) as -> by (symmetry; apply (Z.mod_unique _ _ (RAND_MAX / n)); lia).
        f_equal. destruct (k <? 1) eqn:B1, (k =? 0) eqn:B2; lia.
      * intros r Hr'. rewrite outcome_rejecting by done. fold n. rewrite <- Eb.
        replace (bad <? r) with false by lia. case_bool_decide as E; [injection E as <-; by rewrite Z.eqb_refl|].
        symmetry. apply Z.eqb_neq. intros <-. by apply E.
    + intros r Hr'. rewrite outcome_rejecting by done. fold n. rewrite <- Eb.
      replace (bad <? r) with true by lia. by rewrite bool_decide_false.
Qed.

(** A generator of 100 values and the range [0, 6]. *)
Lemma ranged_rand_biased_witness :
  map (chances 99 6) [0; 1; 6] = [15; 14; 14] /\ chances 99 6 3 = 14.
Proof. split; [vm_compute; reflexivity|]. rewrite (ranged_rand_biased 99 6 3) by lia. reflexivity. Defined.
