(* ===== verification/CleanPath.v ===== *)
(** * Cleaning a path: make_clean_path of utility.c

    A first pass copies the path with single slashes and a slash at its end, a
    second one drops the "." tokens and lets each ".." drop the token before
    it.  Both write into buffers of the heap, whose sizes are checked here.  The
    specification is a stack of the names of the path. *)

From Stdlib Require Import ZifyBool.
From S2P Require Import Prelude.

Local Abbreviation slash := "/"%char.
Local Abbreviation dot := "."%char.

Definition EINVAL : Z := 22.
Definition ENOMEM : Z := 12.

(** Writing [x] behind [r] into a buffer of [cap] bytes. *)
Definition put (cap : Z) (x r : bytes) : result exn bytes :=
  if zlen (r ++ x) <=? cap then Ok (r ++ x) else Err undefined_behaviour.

(** ** Stage one *)

Definition is_blank (c : ascii) : bool := bool_decide (c = " "%char \/ c = "009"%char).
Definition is_slash (c : ascii) : bool := bool_decide (c = slash \/ c = "\"%char).

Fixpoint ltrim (p : bytes) : bytes :=
  match p with
  | [] => []
  | c :: q => if is_blank c then ltrim q else p
  end.

(** The bytes of [p] are copied behind those of [r]. *)
Fixpoint squeeze (cap : Z) (p r : bytes) : result exn bytes :=
  match p with
  | [] => Ok r
  | c :: p =>
      if is_slash c then
        match last r with
        | Some d => if bool_decide (d = slash) then squeeze cap p r
                    else let! r := put cap [slash] r in squeeze cap p r
        | None => let! r := put cap [slash] r in squeeze cap p r
        end
      else let! r := put cap [c] r in squeeze cap p r
  end.

Definition rtrim (r : bytes) : bytes := rev (ltrim (rev r)).

(** The stage, without the terminator; [None]: out of memory. *)
Definition make_clean_path_stage_one (path : bytes) (trim : bool) (malloc : bool)
  : result exn (option bytes) :=
  let cap := zlen path + 7 in
  if negb malloc then Ok None
  else
    let p := if trim then ltrim path else path in
    let! r := squeeze cap p [] in
    let r := if trim then rtrim r else r in
    let! r := match r with [] => put cap [dot] r | _ => Ok r end in
    let! r := match last r with
              | Some d => if bool_decide (d = slash) then Ok r else put cap [slash] r
              | None => Err undefined_behaviour
              end in
    let! _ := put cap ["000"%char] r in
    Ok (Some r).

(** ** Stage two *)

(** [q]: the token at the front, up to the next slash, which must be there. *)
Fixpoint token (p : bytes) : option bytes :=
  match p with
  | [] => None
  | c :: p => if bool_decide (c = slash) then Some []
              else match token p with Some q => Some (c :: q) | None => None end
  end.

(** Where the token before [s] begins. *)
Fixpoint rewind (r : bytes) (s : nat) : nat :=
  match s with
  | O => O
  | S s' => if bool_decide (r !! s' = Some slash) then s else rewind r s'
  end.

Definition dotdot_slash : bytes := [dot; dot; slash].

(** A ".." behind [r]. *)
Definition go_up (cap : Z) (r : bytes) : result exn bytes :=
  match r with
  | [] => put cap dotdot_slash r
  | _ =>
      let s := rewind r (length r - 1) in
      if (s =? 0)%nat && bool_decide (r !! s = Some slash) then Ok r
      else if (s =? 0)%nat && negb (bool_decide (r !! s = Some dot)) then Ok (take s r)
      else if (length r - s =? 3)%nat && bool_decide (r !! s = Some dot) &&
              bool_decide (r !! S s = Some dot) then put cap dotdot_slash r
      else Ok (take s r)
  end.

(** The loop over [p]; its body moves [p] forward by [skip], then the loop by
    one more. *)
Fixpoint stage_two_loop (cap : Z) (p : bytes) (skip : nat) (r : bytes) : result exn bytes :=
  match p with
  | [] => Ok r
  | c :: p' =>
      match skip with
      | S n => stage_two_loop cap p' n r
      | O =>
          match token p with
          | None => Err undefined_behaviour
          | Some q =>
              if bool_decide (c = dot) then
                if (length q =? 2)%nat && bool_decide (p !! 1%nat = Some dot) then
                  let! r := go_up cap r in stage_two_loop cap p' 2 r
                else if (length q =? 1)%nat then stage_two_loop cap p' 1 r
                else
                  let! r := put cap q r in
                  let! r := put cap [slash] r in
                  stage_two_loop cap p' 0 r
              else
                let! r := put cap (q ++ [slash]) r in
                stage_two_loop cap p' (length q) r
          end
      end
  end.

Definition make_clean_path_stage_two (stage : bytes) (malloc : bool) : result exn (option bytes) :=
  let cap := zlen stage + 2 + 1 in
  if negb malloc then Ok None
  else
    let! (p, r) := match stage with
                   | c :: p => if bool_decide (c = slash) then let! r := put cap [slash] [] in Ok (p, r)
                               else Ok (stage, [])
                   | [] => Ok (stage, [])
                   end in
    let! r := stage_two_loop cap p 0 r in
    let! r := match r with [] => put cap [dot] r | _ => Ok r end in
    let r := if bool_decide (last r = Some slash) && negb (length r =? 1)%nat then removelast r else r in
    let! _ := put cap ["000"%char] r in
    Ok (Some r).

(** [malloc1], [malloc2]: whether there is memory; [inl]: null, with [errno]. *)
Definition make_clean_path (path : option bytes) (trim malloc1 malloc2 : bool) : result exn (Z + bytes) :=
  match path with
  | None => Ok (inl EINVAL)
  | Some path =>
      let! stage := make_clean_path_stage_one path trim malloc1 in
      match stage with
      | None => Ok (inl ENOMEM)
      | Some stage =>
          let! r := make_clean_path_stage_two stage malloc2 in
          match r with None => Ok (inl ENOMEM) | Some r => Ok (inr r) end
      end
  end.

(** ** What a clean path is *)

(** The names between the slashes. *)
Fixpoint names_from (acc p : bytes) : list bytes :=
  match p with
  | [] => match acc with [] => [] | _ => [acc] end
  | c :: p => if is_slash c then match acc with [] => names_from [] p | _ => acc :: names_from [] p end
              else names_from (acc ++ [c]) p
  end.
Definition names (p : bytes) : list bytes := names_from [] p.

Definition absolute (p : bytes) : bool :=
  match p with c :: _ => is_slash c | [] => false end.

(** The stack of the names, the last one first. *)
Definition enter (abs : bool) (stack : list bytes) (name : bytes) : list bytes :=
  if bool_decide (name = [dot]) then stack
  else if bool_decide (name = [dot; dot]) then
    match stack with
    | [] => if abs then [] else [[dot; dot]]
    | top :: below => if bool_decide (top = [dot; dot]) then [dot; dot] :: stack else below
    end
  else name :: stack.

Definition resolve (abs : bool) (l : list bytes) : list bytes := foldl (enter abs) [] l.

Fixpoint join (l : list bytes) : bytes :=
  match l with
  | [] => []
  | [n] => n
  | n :: l => n ++ slash :: join l
  end.

Definition print (abs : bool) (stack : list bytes) : bytes :=
  match abs, stack with
  | true, _ => slash :: join (rev stack)
  | false, [] => [dot]
  | false, _ => join (rev stack)
  end.

Definition trimmed (trim : bool) (p : bytes) : bytes := if trim then rtrim (ltrim p) else p.

Definition clean (p : bytes) : bytes := print (absolute p) (resolve (absolute p) (names p)).

(** A name that begins with a dot and is more than "." or "..". *)
Definition hidden (n : bytes) : bool :=
  match n with
  | c :: _ => bool_decide (c = dot) && negb (bool_decide (n = [dot])) && negb (bool_decide (n = [dot; dot]))
  | [] => false
  end.

(** ** Stage one is right *)

Definition flat (l : list bytes) : bytes := concat (map (fun n => n ++ [slash]) l).

(** A name between slashes. *)
Definition is_name (n : bytes) : Prop := n <> [] /\ Forall (fun c => is_slash c = false) n.

Lemma put_ok cap x r : zlen r + zlen x <= cap -> put cap x r = Ok (r ++ x).
Proof. intros H. unfold put. rewrite zlen_app. by replace (_ <=? _) with true by lia. Qed.

(** What [squeeze] writes; [b]: a slash was written last. *)
Fixpoint squeezed (b : bool) (p : bytes) : bytes :=
  match p with
  | [] => []
  | c :: p =>
      if is_slash c then if b then squeezed true p else slash :: squeezed true p
      else c :: squeezed false p
  end.

Definition ends (r : bytes) : bool := bool_decide (last r = Some slash).

Lemma ends_snoc r c : ends (r ++ [c]) = bool_decide (c = slash).
Proof. unfold ends. rewrite last_snoc. apply bool_decide_ext. split; congruence. Qed.

Lemma is_slash_slash : is_slash slash = true.
Proof. reflexivity. Qed.

Lemma not_slash c : is_slash c = false -> c <> slash.
Proof. intros H ->. by rewrite is_slash_slash in H. Qed.

Lemma squeeze_ok cap p r : zlen r + zlen p <= cap -> squeeze cap p r = Ok (r ++ squeezed (ends r) p).
Proof.
  revert r. induction p as [|c p IH]; intros r H; cbn [squeeze squeezed]; [by rewrite app_nil_r|].
  rewrite zlen_cons in H. pose proof (zlen_nonneg p).
  assert (forall d, squeeze cap p (r ++ [d]) = Ok (r ++ d :: squeezed (bool_decide (d = slash)) p)) as IHd.
  { intros d. rewrite IH by (rewrite zlen_app, zlen_cons, zlen_nil; lia).
    rewrite ends_snoc, <- (assoc (++)). reflexivity. }
  assert (forall d, put cap [d] r = Ok (r ++ [d])) as Hp by (intros d; apply put_ok; rewrite zlen_cons, zlen_nil; lia).
  destruct (is_slash c) eqn:Ec.
  - unfold ends. destruct (last r) as [d|] eqn:El.
    + case_bool_decide as Ed.
      * subst d. rewrite IH by lia. unfold ends. by rewrite El, !bool_decide_true by done.
      * rewrite Hp. cbn [rbind]. rewrite IHd, bool_decide_true by done.
        rewrite bool_decide_false by congruence. done.
    + rewrite Hp. cbn [rbind]. rewrite IHd, bool_decide_true by done. by rewrite bool_decide_false.
  - rewrite Hp. cbn [rbind]. rewrite IHd. apply not_slash in Ec. by rewrite bool_decide_false by done.
Qed.

Lemma squeezed_length b p : zlen (squeezed b p) <= zlen p.
Proof.
  revert b. induction p as [|c p IH]; intros b; cbn; [done|].
  destruct (is_slash c); [destruct b|]; rewrite ?zlen_cons; [pose proof (IH true)|pose proof (IH true)|pose proof (IH false)]; lia.
Qed.

(** The slash at the end. *)
Definition close (r : bytes) : bytes := if ends r then r else r ++ [slash].

Lemma close_cons c r : r <> [] -> close (c :: r) = c :: close r.
Proof. intros H. unfold close, ends. destruct r as [|d r]; [done|]. change (last (c :: d :: r)) with (last (d :: r)). by case_bool_decide. Qed.

Lemma close_app x r : r <> [] -> close (x ++ r) = x ++ close r.
Proof.
  intros H. induction x as [|c x IH]; [done|]. cbn [app]. rewrite close_cons, IH; [done|].
  intros [_ ?]%app_nil. done.
Qed.

Lemma close_squeezed p :
  (forall acc, is_name acc -> close (acc ++ squeezed false p) = flat (names_from acc p)) /\
  close (slash :: squeezed true p) = slash :: flat (names_from [] p).
Proof.
  induction p as [|c p [IH1 IH2]].
  - split; [|done]. intros acc [Ha Hs]. cbn [squeezed names_from]. rewrite app_nil_r.
    destruct acc as [|a acc]; [done|]. cbn [flat map concat]. rewrite app_nil_r. unfold close, ends.
    rewrite bool_decide_false; [done|]. intros Hl.
    apply last_Some in Hl as [l Hl]. rewrite Hl in Hs. apply Forall_app in Hs as [_ Hs].
    inversion Hs as [|? ? E _]. by rewrite is_slash_slash in E.
  - split.
    + intros acc [Ha Hs]. cbn [squeezed names_from]. destruct (is_slash c) eqn:Ec.
      * rewrite close_app by done. rewrite IH2. destruct acc as [|a acc]; [done|].
        cbn [flat map concat]. by rewrite <- (assoc (++)).
      * rewrite <- IH1; [by rewrite <- (assoc (++))|]. split; [by intros [_ ?]%app_nil|].
        apply Forall_app. split; [done|]. by constructor.
    + cbn [squeezed names_from]. destruct (is_slash c) eqn:Ec; [done|].
      rewrite close_cons by done. f_equal. apply (IH1 [c]). split; [done|]. by constructor.
Qed.

Lemma close_start p : p <> [] ->
  close (squeezed false p) = (if absolute p then [slash] else []) ++ flat (names p).
Proof.
  destruct p as [|c p]; [done|]. intros _. unfold names. cbn [squeezed absolute names_from].
  destruct (close_squeezed p) as [H1 H2]. destruct (is_slash c) eqn:E; [done|].
  apply (H1 [c]). split; [done|]. by constructor.
Qed.

(** Blanks are not slashes. *)
Lemma blank_not_slash c : is_blank c = true -> is_slash c = false.
Proof. intros [->| ->]%bool_decide_eq_true; reflexivity. Qed.

Lemma ltrim_split p : exists x, p = x ++ ltrim p /\ Forall (fun c => is_blank c = true) x.
Proof.
  induction p as [|c p (x & E & H)]; [by exists []|]. cbn. destruct (is_blank c) eqn:Ec.
  - exists (c :: x). split; [cbn; congruence|]. by constructor.
  - exists []. by split.
Qed.

Lemma ltrim_blanks x p : Forall (fun c => is_blank c = true) x -> ltrim (x ++ p) = ltrim p.
Proof. induction 1 as [|c x Hc _ IH]; cbn; [done|]. by rewrite Hc. Qed.

Lemma rtrim_split p : exists x, p = rtrim p ++ x /\ Forall (fun c => is_blank c = true) x.
Proof.
  destruct (ltrim_split (rev p)) as (x & E & H). exists (rev x). split; [|by apply Forall_rev].
  unfold rtrim. rewrite <- rev_app_distr, <- E. by rewrite rev_involutive.
Qed.

Lemma rtrim_blanks x p : Forall (fun c => is_blank c = true) x -> rtrim (p ++ x) = rtrim p.
Proof. intros H. unfold rtrim. rewrite rev_app_distr, ltrim_blanks; [done|]. by apply Forall_rev. Qed.

Lemma rtrim_last p c : is_blank c = false -> rtrim (p ++ [c]) = p ++ [c].
Proof.
  intros H. unfold rtrim. rewrite rev_app_distr. cbn [rev app ltrim]. rewrite H.
  cbn [rev]. by rewrite rev_involutive.
Qed.

Lemma squeezed_blanks b p x : Forall (fun c => is_blank c = true) x -> squeezed b (p ++ x) = squeezed b p ++ x.
Proof.
  intros H. revert b. induction p as [|c p IH]; intros b; cbn [app squeezed].
  - revert b. induction H as [|c x Hc _ IH]; intros b; cbn; [done|].
    rewrite (blank_not_slash c Hc). cbn. by rewrite IH.
  - destruct (is_slash c); [destruct b|]; cbn; by rewrite IH.
Qed.

Lemma squeezed_snoc b p c : is_slash c = false -> squeezed b (p ++ [c]) = squeezed b p ++ [c].
Proof.
  intros H. revert b. induction p as [|d p IH]; intros b; cbn [app squeezed]; [by rewrite H|].
  destruct (is_slash d); [destruct b|]; cbn; by rewrite IH.
Qed.

Lemma squeezed_snoc_slash b p c : is_slash c = true ->
  (exists y, squeezed b (p ++ [c]) = y ++ [slash]) \/ (squeezed b (p ++ [c]) = [] /\ b = true).
Proof.
  intros H. revert b. induction p as [|d p IH]; intros b; cbn [app squeezed].
  - rewrite H. destruct b; [by right|]. left. by exists [].
  - destruct (is_slash d); [destruct b; [by apply IH|]|]; left.
    + destruct (IH true) as [[y ->]|[-> _]]; [by exists (slash :: y)|by exists []].
    + destruct (IH false) as [[y ->]|[_ ?]]; [by exists (d :: y)|done].
Qed.

Lemma rtrim_cases p : rtrim p = [] \/ exists q c, rtrim p = q ++ [c] /\ is_blank c = false.
Proof.
  unfold rtrim. destruct (ltrim (rev p)) as [|c q] eqn:E; [by left|]. right. exists (rev q), c.
  split; [done|]. clear - E. induction (rev p) as [|d l IH]; [done|]. cbn in E.
  destruct (is_blank d) eqn:Ed; [by apply IH|]. by injection E as -> _.
Qed.

Lemma rtrim_squeezed p : rtrim (squeezed false p) = squeezed false (rtrim p).
Proof.
  destruct (rtrim_split p) as (x & E & Hx).
  transitivity (rtrim (squeezed false (rtrim p))).
  - rewrite E at 1. rewrite squeezed_blanks by done. by apply rtrim_blanks.
  - destruct (rtrim_cases p) as [-> | (q & c & -> & Hc)]; [done|].
    destruct (is_slash c) eqn:Es.
    + destruct (squeezed_snoc_slash false q c Es) as [[y ->]|[_ ?]]; [by apply rtrim_last|done].
    + rewrite squeezed_snoc by done. by apply rtrim_last.
Qed.

Lemma ltrim_length p : zlen (ltrim p) <= zlen p.
Proof.
  destruct (ltrim_split p) as (x & E & _). rewrite E at 2. rewrite zlen_app. pose proof (zlen_nonneg x). lia.
Qed.

Lemma rtrim_length p : zlen (rtrim p) <= zlen p.
Proof.
  destruct (rtrim_split p) as (x & E & _). rewrite E at 2. rewrite zlen_app. pose proof (zlen_nonneg x). lia.
Qed.

Lemma squeezed_nil p : squeezed false p = [] -> p = [].
Proof. destruct p as [|c p]; cbn; [done|]. by destruct (is_slash c). Qed.

(** What stage one writes for the trimmed path [p]. *)
Definition staged (p : bytes) : bytes :=
  match p with
  | [] => [dot; slash]
  | _ => (if absolute p then [slash] else []) ++ flat (names p)
  end.

Lemma stage_one_ok path trim :
  make_clean_path_stage_one path trim true = Ok (Some (staged (trimmed trim path))).
Proof.
  unfold make_clean_path_stage_one. cbn [negb]. set (cap := zlen path + 7).
  assert ((if trim then rtrim (squeezed false (if trim then ltrim path else path))
           else squeezed false (if trim then ltrim path else path)) = squeezed false (trimmed trim path)) as E.
  { unfold trimmed. destruct trim; [by rewrite rtrim_squeezed|done]. }
  assert (zlen (squeezed false (trimmed trim path)) <= zlen path) as HL.
  { pose proof (squeezed_length false (trimmed trim path)).
    pose proof (rtrim_length (ltrim path)). pose proof (ltrim_length path).
    unfold trimmed in *. destruct trim; lia. }
  pose proof (zlen_nonneg path).
  rewrite squeeze_ok by (rewrite zlen_nil; pose proof (ltrim_length path); destruct trim; unfold cap; lia).
  cbn [rbind app]. change (ends []) with false. rewrite E. clear E.
  set (p := trimmed trim path) in *. clearbody p.
  destruct (squeezed false p) as [|c r] eqn:Er; rewrite ?Er in HL.
  - apply squeezed_nil in Er as ->. rewrite put_ok by (unfold cap; rewrite ?zlen_app, ?zlen_cons, ?zlen_nil; lia). cbn [rbind app last].
    rewrite bool_decide_false by done. rewrite put_ok by (unfold cap; rewrite ?zlen_app, ?zlen_cons, ?zlen_nil; lia). cbn [rbind app].
    rewrite put_ok by (unfold cap; rewrite ?zlen_app, ?zlen_cons, ?zlen_nil; lia). done.
  - cbn [rbind]. assert (p <> []) as Hp by by intros ->.
    assert (staged p = close (c :: r)) as ->.
    { rewrite <- Er, close_start by done. by destruct p. }
    destruct (last (c :: r)) as [d|] eqn:El; [|by apply last_None in El].
    unfold close, ends. rewrite El. case_bool_decide as Ed.
    + subst d. rewrite bool_decide_true by done. cbn [rbind]. rewrite put_ok; [done|].
      rewrite (zlen_cons _ []), zlen_nil. unfold cap. lia.
    + rewrite bool_decide_false by congruence.
      rewrite put_ok by (rewrite (zlen_cons slash), zlen_nil; unfold cap; lia). cbn [rbind].
      rewrite put_ok; [done|]. rewrite zlen_app.
      change (zlen [slash]) with 1. change (zlen ["000"%char]) with 1. unfold cap. lia.
Qed.

(** ** Stage two is right *)

Definition enc (abs : bool) (stack : list bytes) : bytes := (if abs then [slash] else []) ++ flat (rev stack).

(** A name that stage two copies right. *)
Definition plain (n : bytes) : Prop := is_name n /\ hidden n = false.

Lemma flat_app a b : flat (a ++ b) = flat a ++ flat b.
Proof. unfold flat. by rewrite map_app, concat_app. Qed.

Lemma flat_cons n l : flat (n :: l) = n ++ slash :: flat l.
Proof. unfold flat. cbn. by rewrite <- (assoc (++)). Qed.

Lemma enc_cons abs n st : enc abs (n :: st) = enc abs st ++ n ++ [slash].
Proof. unfold enc. cbn [rev]. rewrite flat_app, flat_cons. cbn. by rewrite <- !(assoc (++)). Qed.

Lemma enc_end abs st : enc abs st = [] \/ exists r, enc abs st = r ++ [slash].
Proof.
  destruct st as [|n st]; [destruct abs; [right; by exists []|by left]|].
  right. exists (enc abs st ++ n). by rewrite enc_cons, <- (assoc (++)).
Qed.

Lemma enc_nil abs st : enc abs st = [] -> abs = false /\ st = [].
Proof.
  destruct st as [|n st]; [by destruct abs|]. rewrite enc_cons. intros [_ [_ ?]%app_nil]%app_nil. done.
Qed.

Lemma name_slash n : is_name n -> Forall (fun c => c <> slash) n.
Proof. intros [_ H]. eapply Forall_impl; [exact H|]. by intros c ?%not_slash. Qed.

Lemma rewind_ok x y z : Forall (fun c => c <> slash) y -> x = [] \/ (exists r, x = r ++ [slash]) ->
  rewind (x ++ y ++ z) (length (x ++ y)) = length x.
Proof.
  intros Hy Hx. revert z Hy. induction y as [|c y IH] using rev_ind; intros z Hy.
  - rewrite app_nil_r. cbn [app]. destruct Hx as [-> | [r ->]]; [done|].
    rewrite length_app. cbn [length]. rewrite Nat.add_1_r. cbn [rewind].
    rewrite bool_decide_true; [done|]. rewrite <- (assoc (++)), lookup_app_r, Nat.sub_diag by lia. done.
  - apply Forall_app in Hy as [Hy Hc]. inversion Hc as [|? ? Hne _]. rewrite <- (assoc (++)). cbn [app].
    replace (length (x ++ y ++ [c])) with (S (length (x ++ y))) by (rewrite !length_app; cbn; lia).
    cbn [rewind].
    rewrite bool_decide_false.
    + by apply IH.
    + rewrite (assoc (++)), lookup_app_r, Nat.sub_diag by lia. cbn. congruence.
Qed.

Lemma hidden_dot n : hidden (dot :: n) = false -> dot :: n = [dot] \/ dot :: n = [dot; dot].
Proof.
  unfold hidden. rewrite bool_decide_true by done. case_bool_decide; [by left|].
  case_bool_decide; [by right|done].
Qed.

(** The rewinding loop finds the name on top of the stack. *)
Lemma rewind_top abs st n : is_name n ->
  rewind (enc abs st ++ n ++ [slash]) (length (enc abs st ++ n ++ [slash]) - 1) = length (enc abs st).
Proof.
  intros Hn. rewrite !length_app. cbn [length].
  replace (_ + (_ + 1) - 1)%nat with (length (enc abs st ++ n)) by (rewrite length_app; lia).
  apply rewind_ok; [by apply name_slash|]. apply enc_end.
Qed.

Lemma go_up_ok cap abs st : Forall plain st -> zlen (enc abs st) + 3 <= cap ->
  go_up cap (enc abs st) = Ok (enc abs (enter abs st [dot; dot])).
Proof.
  intros Hst Hc. unfold enter. rewrite bool_decide_false, bool_decide_true by done.
  destruct st as [|top below]; [destruct abs; [done|by apply put_ok]|].
  inversion Hst as [|? ? [Ht Hh] Hb]; subst.
  assert (put cap dotdot_slash (enc abs (top :: below)) = Ok (enc abs ([dot; dot] :: top :: below))) as Hput.
  { rewrite put_ok by exact Hc. by rewrite (enc_cons abs [dot; dot]). }
  assert (take (length (enc abs below)) (enc abs (top :: below)) = enc abs below) as Htake.
  { rewrite enc_cons. apply take_app_length. }
  unfold go_up. destruct (enc abs (top :: below)) as [|b0 r0] eqn:Er; [by apply enc_nil in Er as [_ ?]|].
  rewrite <- Er in *. clear b0 r0 Er.
  rewrite enc_cons, rewind_top by done. rewrite <- enc_cons.
  destruct Ht as [Hne Hsl]. destruct top as [|c top]; [done|]. apply Forall_inv in Hsl as Hsc. apply not_slash in Hsc.
  assert (forall i, enc abs ((c :: top) :: below) !! (length (enc abs below) + i)%nat = ((c :: top) ++ [slash]) !! i) as Hat.
  { intros i. rewrite enc_cons. rewrite lookup_app_r by lia. f_equal. lia. }
  pose proof (Hat 0%nat) as H0. pose proof (Hat 1%nat) as H1. rewrite Nat.add_0_r in H0. rewrite Nat.add_1_r in H1.
  cbn in H0. rewrite H0, H1. clear Hat H0 H1.
  assert ((length (enc abs ((c :: top) :: below)) - length (enc abs below))%nat = S (S (length top))) as HL.
  { rewrite enc_cons, !length_app. cbn [length]. lia. }
  rewrite HL, (bool_decide_false (Some c = Some slash)) by congruence. rewrite andb_false_r.
  destruct (decide (c :: top = [dot; dot])) as [Hd|Hd].
  - injection Hd as -> ->. rewrite !bool_decide_true by done. rewrite andb_false_r. cbn. exact Hput.
  - rewrite (bool_decide_false _ Hd).
    replace (S (S (length top)) =? 3)%nat with (length top =? 1)%nat by lia.
    destruct (length top =? 1)%nat eqn:E1; cbn [andb].
    + destruct top as [|d [|]]; try discriminate E1. cbn.
      destruct (decide (c = dot)) as [->|Hcd].
      * destruct (hidden_dot _ Hh); [done|]. congruence.
      * rewrite (bool_decide_false (Some c = Some dot)) by congruence. cbn. rewrite andb_true_r.
        by destruct (_ =? 0)%nat; rewrite Htake.
    + by destruct (_ && _); rewrite Htake.
Qed.

Lemma token_ok n rest : Forall (fun c => c <> slash) n -> token (n ++ slash :: rest) = Some n.
Proof. induction 1 as [|c n Hc _ IH]; cbn; [done|]. by rewrite bool_decide_false, IH by done. Qed.

Lemma stage_two_skip cap x rest r :
  stage_two_loop cap (x ++ rest) (length x) r = stage_two_loop cap rest 0 r.
Proof. induction x as [|c x IH]; [done|]. cbn. apply IH. Qed.

Lemma enter_plain abs st n : Forall plain st -> plain n -> Forall plain (enter abs st n).
Proof.
  intros Hst Hn. unfold enter. case_bool_decide; [done|]. case_bool_decide; [|by constructor].
  assert (plain [dot; dot]) as Hdd by (split; [split; [done|by repeat constructor]|done]).
  destruct st as [|top below]; [destruct abs; by repeat constructor|].
  case_bool_decide; [by constructor|]. by inversion Hst.
Qed.

Lemma resolve_plain abs l : Forall plain l -> Forall plain (resolve abs l).
Proof.
  intros Hl. unfold resolve. assert (Forall plain (@nil bytes)) as H0 by constructor.
  revert H0. generalize (@nil bytes) as st.
  induction Hl as [|n l Hn Hl IH]; intros st H0; [done|]. cbn. apply IH. by apply enter_plain.
Qed.

Lemma enter_length abs st n : zlen (enc abs (enter abs st n)) <= zlen (enc abs st) + zlen n + 1.
Proof.
  pose proof (zlen_nonneg n). unfold enter. case_bool_decide; [lia|]. case_bool_decide as E.
  - subst n. destruct st as [|top below]; [by destruct abs; vm_compute|].
    pose proof (zlen_nonneg top). change (zlen [dot; dot]) with 2.
    case_bool_decide; [rewrite (enc_cons _ [dot; dot])|rewrite (enc_cons _ top)]; rewrite !zlen_app;
      change (zlen [slash]) with 1; [change (zlen [dot; dot]) with 2|]; lia.
  - rewrite enc_cons, !zlen_app. change (zlen [slash]) with 1. lia.
Qed.

(** One name. *)
Lemma stage_two_step cap abs st n rest : Forall plain st -> plain n ->
  zlen (enc abs st) + zlen n + 1 <= cap ->
  stage_two_loop cap (n ++ slash :: rest) 0 (enc abs st) =
  stage_two_loop cap rest 0 (enc abs (enter abs st n)).
Proof.
  intros Hst [Hn Hh] Hc. pose proof (name_slash n Hn) as Hs. destruct n as [|c n]; [by destruct Hn|].
  pose proof (token_ok (c :: n) rest Hs) as Ht. cbn [app stage_two_loop]. rewrite zlen_cons in Hc.
  cbn [app] in Ht. rewrite Ht.
  destruct (decide (c = dot)) as [->|Hd].
  - rewrite bool_decide_true by done. destruct (hidden_dot _ Hh) as [E|E]; injection E as ->.
    + cbn. unfold enter. by rewrite bool_decide_true.
    + cbn. rewrite go_up_ok; [done|done|]. change (zlen [dot]) with 1 in Hc. lia.
  - rewrite bool_decide_false by done. rewrite put_ok.
    + cbn [rbind length]. change (n ++ slash :: rest) with (n ++ [slash] ++ rest). rewrite (assoc (++)).
      replace (S (length n)) with (length (n ++ [slash])) by (rewrite length_app; cbn; lia).
      rewrite stage_two_skip. f_equal. unfold enter. rewrite !bool_decide_false by congruence.
      by rewrite enc_cons.
    + rewrite zlen_app, zlen_cons. change (zlen [slash]) with 1. lia.
Qed.

Lemma stage_two_names cap abs l st : Forall plain st -> Forall plain l ->
  zlen (enc abs st) + zlen (flat l) <= cap ->
  stage_two_loop cap (flat l) 0 (enc abs st) = Ok (enc abs (foldl (enter abs) st l)) /\
  zlen (enc abs (foldl (enter abs) st l)) <= zlen (enc abs st) + zlen (flat l).
Proof.
  intros Hst Hl. revert st Hst. induction Hl as [|n l Hn Hl IH]; intros st Hst Hc.
  - split; [done|]. change (foldl (enter abs) st []) with st. pose proof (zlen_nonneg (flat [])). lia.
  - rewrite flat_cons in *. rewrite zlen_app, zlen_cons in Hc. pose proof (zlen_nonneg (flat l)).
    pose proof (enter_length abs st n). rewrite stage_two_step by (done || lia). cbn [foldl].
    destruct (IH (enter abs st n)) as [-> HL]; [by apply enter_plain|lia|]. split; [done|].
    rewrite zlen_app, zlen_cons. lia.
Qed.

(** The names of a path have no slashes in them. *)
Lemma names_from_ok p acc : acc = [] \/ is_name acc -> Forall is_name (names_from acc p).
Proof.
  revert acc. induction p as [|c p IH]; intros acc Ha; cbn [names_from].
  - destruct acc; [constructor|]. destruct Ha; [done|]. by apply Forall_singleton.
  - destruct (is_slash c) eqn:E.
    + destruct acc; [by apply IH; left|]. destruct Ha; [done|]. constructor; [done|]. apply IH. by left.
    + apply IH. right. split; [by intros [_ ?]%app_nil|]. apply Forall_app. split; [|by repeat constructor].
      destruct Ha as [-> |[_ ?]]; [constructor|done].
Qed.

Lemma names_ok p : Forall is_name (names p).
Proof. apply names_from_ok. by left. Qed.

Lemma flat_join l : l <> [] -> flat l = join l ++ [slash].
Proof.
  induction l as [|n l IH]; [done|]. intros _. rewrite flat_cons. destruct l as [|m l]; [done|].
  rewrite IH by done. cbn [join]. by rewrite <- (assoc (++)).
Qed.

Lemma join_names_length l n : plain n -> (1 <= length (join (n :: l)))%nat.
Proof. intros [[Hn _] _]. destruct n; [done|]. destruct l; cbn; lia. Qed.

Lemma rev_not_nil {A} (x : A) l : exists y k, rev (x :: l) = y :: k.
Proof. destruct (rev (x :: l)) as [|y k] eqn:E; [|eauto]. cbn in E. by apply app_nil in E as [_ ?]. Qed.

(** The end of stage two. *)
Lemma stage_two_end abs st : Forall plain st ->
  let r := match enc abs st with [] => [dot] | r => r end in
  (if bool_decide (last r = Some slash) && negb (length r =? 1)%nat then removelast r else r) = print abs st.
Proof.
  intros Hst. destruct st as [|n st]; [by destruct abs|].
  destruct (rev_not_nil n st) as (m & k & E).
  assert (plain m) as Hm by (apply Forall_rev in Hst; rewrite E in Hst; by inversion Hst).
  pose proof (join_names_length k m Hm) as HL.
  assert (enc abs (n :: st) = ((if abs then [slash] else []) ++ join (m :: k)) ++ [slash]) as ->.
  { unfold enc. rewrite E, flat_join by done. by rewrite (assoc (++)). }
  assert (print abs (n :: st) = (if abs then [slash] else []) ++ join (m :: k)) as ->.
  { unfold print. rewrite E. by destruct abs. }
  set (x := _ ++ join (m :: k)). assert (1 <= length x)%nat as Hx by (unfold x; rewrite length_app; lia).
  cbv zeta. destruct (x ++ [slash]) as [|c r] eqn:Er; [by apply app_nil in Er as [_ ?]|]. rewrite <- Er.
  rewrite last_snoc, bool_decide_true by done. rewrite length_app. cbn [length].
  replace (length x + 1 =? 1)%nat with false by lia. cbn. apply removelast_last.
Qed.

Lemma removelast_length {A} (x : list A) : zlen (removelast x) <= zlen x.
Proof.
  induction x as [|c [|d x] IH]; [done|done|].
  change (removelast (c :: d :: x)) with (c :: removelast (d :: x)). rewrite !(zlen_cons c). lia.
Qed.

Lemma stage_two_ok (abs : bool) l : Forall plain l -> flat l <> [] \/ abs = true ->
  make_clean_path_stage_two ((if abs then [slash] else []) ++ flat l) true = Ok (Some (print abs (resolve abs l))).
Proof.
  intros Hl Hne. unfold make_clean_path_stage_two. cbn [negb].
  set (stage := _ ++ flat l). set (cap := zlen stage + 2 + 1).
  assert (forall X, (let! (p, r) := match stage with
            | [] => Ok (stage, [])
            | c :: p => if bool_decide (c = slash) then let! r := put cap [slash] [] in Ok (p, r) else Ok (stage, [])
            end in X p r) = X (flat l) (enc abs []) :> result exn (option bytes)) as Hstart.
  { intros X. unfold stage. destruct abs; cbn [app].
    - rewrite bool_decide_true by done. rewrite put_ok; [done|]. unfold cap, stage. cbn [app].
      change (zlen [slash]) with 1. change (zlen (@nil ascii)) with 0. rewrite zlen_cons.
      pose proof (zlen_nonneg (flat l)). lia.
    - destruct (flat l) as [|c p] eqn:El; [by destruct Hne|]. rewrite bool_decide_false; [done|].
      intros ->. destruct l as [|n l]; [done|]. rewrite flat_cons in El. apply Forall_inv in Hl as [[Hn Hs] _].
      destruct n as [|d n]; [done|]. injection El as -> _. by apply Forall_inv in Hs. }
  rewrite Hstart. clear Hstart.
  assert (zlen (enc abs []) + zlen (flat l) = zlen stage) as HL.
  { unfold stage, enc. cbn [rev]. change (flat []) with (@nil ascii). rewrite app_nil_r, zlen_app. done. }
  destruct (stage_two_names cap abs l []) as [-> HE]; [constructor|done|lia|]. cbn [rbind].
  fold (resolve abs l) in *.
  assert (Forall plain (resolve abs l)) as Hp by by apply resolve_plain.
  pose proof (stage_two_end abs (resolve abs l) Hp) as Hend. cbv zeta in Hend.
  set (e := enc abs (resolve abs l)) in *.
  assert ((match e with [] => put cap [dot] e | _ => Ok e end) = Ok (match e with [] => [dot] | _ => e end)) as ->.
  { destruct e; [|done]. apply put_ok. change (zlen [dot]) with 1. change (zlen (@nil ascii)) with 0.
    pose proof (zlen_nonneg stage). lia. }
  cbn [rbind]. replace (match e with [] => [dot] | a :: l0 => a :: l0 end) with (match e with [] => [dot] | _ => e end) in Hend by by destruct e.
  rewrite Hend. rewrite put_ok; [done|]. rewrite <- Hend.
  set (m := match e with [] => [dot] | _ => e end).
  assert (zlen m <= zlen stage + 1) as Hm.
  { unfold m. destruct e; [change (zlen [dot]) with 1; pose proof (zlen_nonneg stage)|]; lia. }
  change (zlen ["000"%char]) with 1. pose proof (removelast_length m). destruct (_ && _); lia.
Qed.

(** Both stages. *)
Lemma cleans (path : bytes) (trim : bool) :
  Forall (fun n => hidden n = false) (names (trimmed trim path)) ->
  make_clean_path (Some path) trim true true = Ok (inr (clean (trimmed trim path))).
Proof.
  intros Hh. unfold make_clean_path. rewrite stage_one_ok. cbn [rbind].
  set (p := trimmed trim path) in *. clearbody p.
  assert (Forall plain (names p)) as Hp.
  { pose proof (names_ok p) as Hn. apply Forall_forall. intros n Hin. split.
    - by apply (proj1 (Forall_forall _ _) Hn).
    - by apply (proj1 (Forall_forall _ _) Hh). }
  unfold staged, clean. destruct p as [|c p]; [done|].
  rewrite stage_two_ok; [done|done|].
  unfold names. cbn [absolute names_from app]. destruct (is_slash c) eqn:E; [by right|left].
  assert (exists n l, names_from [c] p = n :: l) as (n & l & ->).
  { clear. assert (forall acc, acc <> [] -> exists n l, names_from acc p = n :: l) as H.
    { induction p as [|d p IH]; intros acc Ha; cbn [names_from]; [destruct acc; eauto; done|].
      destruct (is_slash d); [destruct acc; eauto; done|]. apply IH. by intros [_ ?]%app_nil. }
    by apply H. }
  rewrite flat_cons. by intros [_ ?]%app_nil.
Qed.

(** ** Clean paths are clean *)

Lemma rev_replicate {A} n (x : A) : rev (replicate n x) = replicate n x.
Proof.
  induction n as [|n IH]; [done|]. cbn. rewrite IH. clear IH. induction n as [|n IH]; [done|].
  cbn. by rewrite IH.
Qed.

Lemma names_from_app acc n p : Forall (fun c => is_slash c = false) n ->
  names_from acc (n ++ p) = names_from (acc ++ n) p.
Proof.
  intros H. revert acc. induction H as [|c n Hc _ IH]; intros acc; [by rewrite app_nil_r|].
  cbn [app names_from]. rewrite Hc, IH, <- (assoc (++)). done.
Qed.

Lemma names_join l : Forall is_name l -> names (join l) = l.
Proof.
  intros H. unfold names. induction H as [|n l [Hn Hs] Hl IH]; [done|]. destruct l as [|m l].
  - cbn [join]. rewrite <- (app_nil_r n) at 1. rewrite names_from_app by done. cbn. by destruct n.
  - change (join (n :: m :: l)) with (n ++ slash :: join (m :: l)). rewrite names_from_app by done.
    cbn [app names_from]. rewrite is_slash_slash, IH. by destruct n.
Qed.

Lemma absolute_join n l : is_name n -> absolute (join (n :: l)) = false.
Proof.
  intros [Hn Hs]. destruct n as [|c n]; [done|]. apply Forall_inv in Hs. by destruct l.
Qed.

Lemma print_names abs st : Forall is_name st -> st <> [] \/ abs = true ->
  names (print abs st) = rev st /\ absolute (print abs st) = abs.
Proof.
  intros H Hne. apply Forall_rev in H. destruct abs.
  - split; [|done]. unfold print, names. cbn [names_from]. rewrite is_slash_slash. by apply names_join.
  - destruct st as [|n st]; [by destruct Hne|]. unfold print.
    destruct (rev_not_nil n st) as (m & k & E). rewrite E in *. split; [by apply names_join|].
    apply absolute_join. by apply Forall_inv in H.
Qed.

(** A stack that is resolved: proper names over the ".." of a relative path. *)
Definition proper (n : bytes) : Prop := n <> [dot] /\ n <> [dot; dot].
Definition resolved (abs : bool) (st : list bytes) : Prop :=
  exists a k, st = a ++ replicate k [dot; dot] /\ Forall proper a /\ (abs = true -> k = 0%nat).

Lemma enter_resolved abs st n : resolved abs st -> resolved abs (enter abs st n).
Proof.
  intros (a & k & -> & Ha & Hk). unfold enter. case_bool_decide as E1; [by exists a, k|].
  case_bool_decide as E2; [|exists (n :: a), k; split_and!; [done|by constructor|done]].
  destruct a as [|b a].
  - destruct k as [|k]; cbn [app replicate].
    + destruct abs; [by exists [], 0%nat|]. by exists [], 1%nat.
    + rewrite bool_decide_true by done. exists [], (S (S k)). split_and!; [done|constructor|].
      intros H. specialize (Hk H). done.
  - inversion Ha as [|? ? [Hb1 Hb2] Ha']; subst. cbn [app]. rewrite bool_decide_false by done. by exists a, k.
Qed.

Lemma resolve_resolved abs l : resolved abs (resolve abs l).
Proof.
  unfold resolve. assert (resolved abs []) as H by by exists [], 0%nat. revert H.
  generalize (@nil bytes) as st. induction l as [|n l IH]; intros st H; [done|].
  cbn. apply IH. by apply enter_resolved.
Qed.

Lemma resolve_fixed abs st : resolved abs st -> resolve abs (rev st) = st.
Proof.
  intros (a & k & -> & Ha & Hk). unfold resolve. rewrite rev_app_distr, foldl_app.
  assert (foldl (enter abs) [] (rev (replicate k [dot; dot])) = replicate k [dot; dot]) as ->.
  { clear Ha. induction k as [|k IH]; [done|]. cbn [replicate rev]. rewrite foldl_app, IH.
    - cbn [foldl]. unfold enter. destruct abs; [by specialize (Hk eq_refl)|]. by destruct k.
    - intros H. by specialize (Hk H). }
  clear Hk. induction Ha as [|n a [H1 H2] _ IH]; [done|]. cbn [rev]. rewrite foldl_app, IH. cbn [foldl app].
  unfold enter. by rewrite !bool_decide_false.
Qed.

Lemma hidden_resolve abs l : Forall (fun n => hidden n = false) l -> Forall is_name l ->
  Forall plain (resolve abs l).
Proof.
  intros H1 H2. apply resolve_plain, Forall_forall. intros n Hin.
  split; [by apply (proj1 (Forall_forall _ _) H2)|by apply (proj1 (Forall_forall _ _) H1)].
Qed.

(** C22: a path is cleaned as its names say.  When no name begins with a dot
    (other than "." and ".." themselves), make_clean_path writes only inside its
    buffers and returns the path, rid of the blanks around it if asked, with its
    names resolved on a stack: "." is dropped, ".." removes the name before it,
    stays where there is none in a relative path, and is dropped at the root;
    slashes and backslashes of any number separate names. *)
Theorem make_clean_path_cleans (path : bytes) (trim : bool) :
  Forall (fun n => hidden n = false) (names (trimmed trim path)) ->
  make_clean_path (Some path) trim true true = Ok (inr (clean (trimmed trim path))).
Proof. apply cleans. Qed.

Lemma make_clean_path_cleans_witness :
  names (trimmed true (B "  /a//b\../c/./ ")) = [B "a"; B "b"; B ".."; B "c"; B "."] /\
  make_clean_path (Some (B "  /a//b\../c/./ ")) true true true = Ok (inr (B "/a/c")).
Proof.
  split; [vm_compute; reflexivity|].
  rewrite (make_clean_path_cleans (B "  /a//b\../c/./ ") true); [vm_compute; reflexivity|].
  vm_compute. repeat constructor.
Defined.

(** Cleaning is done once.  What make_clean_path returns for such a path is
    a fixed point of it; it is absolute when the path was; it is "." or has no
    name "."; its names are some "..", none in an absolute path, then proper
    names; and it is written with one slash between names and none at the
    end. *)
Theorem make_clean_path_idempotent (path : bytes) (trim : bool) :
  Forall (fun n => hidden n = false) (names (trimmed trim path)) ->
  exists r, make_clean_path (Some path) trim true true = Ok (inr r) /\
    make_clean_path (Some r) false true true = Ok (inr r) /\
    absolute r = absolute (trimmed trim path) /\
    (r = [dot] \/ exists k l, names r = replicate k [dot; dot] ++ l /\ Forall proper l /\
       (absolute r = true -> k = 0%nat) /\
       r = (if absolute r then [slash] else []) ++ join (names r)).
Proof.
  intros Hh. exists (clean (trimmed trim path)). split; [by apply cleans|]. unfold clean.
  set (p := trimmed trim path) in *. set (abs := absolute p). set (st := resolve abs (names p)).
  assert (Forall plain st) as Hp by (apply hidden_resolve; [done|apply names_ok]).
  assert (Forall is_name st) as Hn by (eapply Forall_impl; [exact Hp|]; by intros n [? _]).
  pose proof (resolve_resolved abs (names p)) as HR. fold st in HR.
  destruct (decide (st = [] /\ abs = false)) as [[E1 E2]|Hne].
  - rewrite E1, E2. split_and!; [|done|by left]. vm_compute. done.
  - destruct (print_names abs st Hn) as [E1 E2]; [destruct st, abs; auto; by destruct Hne|].
    split; [|split; [done|right]].
    + rewrite cleans; unfold trimmed; rewrite ?E1.
      * unfold clean. rewrite E1, E2, resolve_fixed; done.
      * apply Forall_rev. eapply Forall_impl; [exact Hp|]. by intros n [_ ?].
    + destruct HR as (a & k & E & Ha & Hk). exists k, (rev a). rewrite E1, E2.
      split; [rewrite E, rev_app_distr, rev_replicate; done|]. split; [by apply Forall_rev|]. split; [done|].
      unfold print. destruct abs; [done|]. destruct st; [by destruct Hne|done].
Qed.

Lemma make_clean_path_idempotent_witness :
  exists r, make_clean_path (Some (B "../x/../y/")) false true true = Ok (inr r) /\
    make_clean_path (Some r) false true true = Ok (inr r) /\ r = B "../y".
Proof.
  destruct (make_clean_path_idempotent (B "../x/../y/") false) as (r & H1 & H2 & _); [vm_compute; repeat constructor|].
  exists r. split; [exact H1|]. split; [exact H2|]. vm_compute in H1. injection H1 as <-. reflexivity.
Defined.

(** The loop at a name that begins with a dot. *)
Lemma stage_two_hidden cap y x : y <> dot -> Forall (fun c => c <> slash) (y :: x) -> zlen x + 3 <= cap ->
  stage_two_loop cap (dot :: (y :: x) ++ [slash]) 0 [] =
  put cap ((y :: x) ++ [slash]) (dot :: (y :: x) ++ [slash]).
Proof.
  intros Hy Hs Hc. pose proof (zlen_nonneg x).
  assert (token (dot :: (y :: x) ++ [slash]) = Some (dot :: y :: x)) as Ht.
  { apply (token_ok (dot :: y :: x) []). by constructor. }
  pose proof (token_ok (y :: x) [] Hs) as Ht2. cbn [app] in *.
  cbn [stage_two_loop]. rewrite Ht, bool_decide_true by done. cbn [length lookup list_lookup].
  rewrite (bool_decide_false (Some y = Some dot)) by congruence. rewrite andb_false_r. cbn [Nat.eqb].
  rewrite put_ok by (rewrite !zlen_cons, zlen_nil; lia). cbn [rbind app].
  rewrite put_ok by (rewrite !zlen_cons, zlen_nil; lia). cbn [rbind app].
  rewrite Ht2, (bool_decide_false (y = dot)) by done.
  destruct (put cap _ _) as [r|] eqn:E; [|done]. cbn [rbind].
  rewrite <- (app_nil_r (x ++ [slash])). cbn [length].
  replace (S (length x)) with (length (x ++ [slash])) by (rewrite length_app; cbn; lia).
  by rewrite stage_two_skip.
Qed.

(** A name that begins with a dot is copied twice: stage two does not move
    on behind it.  The path of one such name of up to three characters comes
    out wrong, and a longer one is written beyond the end of the buffer. *)
Theorem make_clean_path_hidden (x : bytes) : is_name x -> head x <> Some dot ->
  make_clean_path (Some (dot :: x)) false true true =
    if (length x <=? 2)%nat then Ok (inr (dot :: x ++ slash :: x)) else Err undefined_behaviour.
Proof.
  intros Hx Hd. destruct x as [|y x]; [by destruct Hx|].
  assert (y <> dot) as Hy by (intros ->; by apply Hd).
  pose proof (name_slash _ Hx) as Hs.
  assert (is_name (dot :: y :: x)) as Hn by (split; [done|constructor; [done|apply Hx]]).
  unfold make_clean_path. rewrite stage_one_ok. cbn [rbind trimmed].
  assert (staged (dot :: y :: x) = dot :: (y :: x) ++ [slash]) as ->.
  { unfold staged. change (absolute (dot :: y :: x)) with false.
    change (names (dot :: y :: x)) with (names (join [dot :: y :: x])). rewrite names_join by by apply Forall_singleton.
    by rewrite flat_cons. }
  unfold make_clean_path_stage_two. cbn [negb]. rewrite bool_decide_false by done. cbn [rbind].
  set (cap := zlen (dot :: (y :: x) ++ [slash]) + 2 + 1).
  assert (cap = zlen x + 6) as Hc.
  { unfold cap. rewrite zlen_cons, zlen_app, zlen_cons. change (zlen [slash]) with 1. lia. }
  clearbody cap. pose proof (zlen_nonneg x).
  rewrite (stage_two_hidden cap y x) by (done || lia).
  unfold put at 1. autorewrite with zlen. change (length (y :: x)) with (S (length x)).
  replace (_ <=? cap) with (S (length x) <=? 2)%nat by (autorewrite with zlen; unfold zlen in *; lia).
  destruct (S (length x) <=? 2)%nat eqn:E; [|done]. cbn [rbind app].
  rewrite (app_assoc _ (y :: x) [slash]), !app_comm_cons, last_snoc, bool_decide_true by done.
  replace (length _ =? 1)%nat with false by (rewrite !length_app; cbn; lia). cbn [andb negb].
  rewrite !removelast_last. rewrite put_ok by (autorewrite with zlen; unfold zlen in *; lia).
  cbn [rbind]. by rewrite <- (assoc (++)).
Qed.

Lemma make_clean_path_hidden_witness :
  make_clean_path (Some (B ".rc")) false true true = Ok (inr (B ".rc/rc")) /\
  make_clean_path (Some (B ".profile")) false true true = Err undefined_behaviour.
Proof.
  split.
  - exact (make_clean_path_hidden (B "rc") ltac:(split; [discriminate|repeat constructor]) ltac:(discriminate)).
  - exact (make_clean_path_hidden (B "profile") ltac:(split; [discriminate|repeat constructor]) ltac:(discriminate)).
Defined.
