(* ===== verification/StdMap.v ===== *)
(** * std::map and std::multimap

    Sorted association lists over an ordered key type: the keys are visited in
    order, [insert] keeps an existing element, a multimap inserts after the
    elements of the same key.  An iterator into a map is a key ([None] is
    [end()]).  [ObjectMap], [TimeoutPool] and [AsyncRouter] are built on
    these. *)

From S2P Require Import Prelude.

(** ** Ordered keys *)

(** [operator <] of a key type: a strict total order. *)
Class Ordered (K : Type) := {
  ordered_eq_dec :: EqDecision K;
  lt : K -> K -> bool;
  lt_irrefl a : lt a a = false;
  lt_trans a b c : lt a b = true -> lt b c = true -> lt a c = true;
  lt_total a b : lt a b = false -> lt b a = false -> a = b
}.

#[export, refine] Instance Z_ordered : Ordered Z := {| lt := Z.ltb |}.
Proof.
  - apply Z.ltb_irrefl.
  - intros a b c. rewrite !Z.ltb_lt. lia.
  - intros a b. rewrite !Z.ltb_ge. lia.
Defined.

(** [std::string]: by the unsigned values of the characters, a prefix first. *)
Fixpoint bytes_lt (a b : bytes) : bool :=
  match a, b with
  | _, [] => false
  | [], _ :: _ => true
  | x :: a, y :: b => (code x <? code y) || ((code x =? code y) && bytes_lt a b)
  end.

#[export, refine] Instance bytes_ordered : Ordered bytes := {| lt := bytes_lt |}.
Proof.
  - intros a. induction a as [|x a IH]; [done|]. cbn. by rewrite IH, Z.ltb_irrefl, andb_false_r.
  - intros a. induction a as [|x a IH]; intros [|y b] [|z c]; try done. cbn.
    rewrite !orb_true_iff, !andb_true_iff, !Z.ltb_lt, !Z.eqb_eq.
    intros [H1|[H1 H1']] [H2|[H2 H2']]; [left; lia..|]. right. split; [lia|]. by eapply IH.
  - intros a. induction a as [|x a IH]; intros [|y b]; try done. cbn.
    rewrite !orb_false_iff, !andb_false_iff, !Z.ltb_ge, !Z.eqb_neq.
    intros [H1 H2] [H3 H4]. assert (code x = code y) as E by lia.
    rewrite (code_inj _ _ E). f_equal. apply IH; [destruct H2|destruct H4]; done.
Defined.

Section Map.
Context {K V : Type} {O : Ordered K}.

Implicit Types (k : K) (v : V) (m : list (K * V)).

Definition keys m : list K := map fst m.

(** [m.find(k)] *)
Fixpoint find k m : option V :=
  match m with
  | [] => None
  | (a, v) :: m => if decide (a = k) then Some v else find k m
  end.

(** [m.insert(make_pair(k, v))] of a map, when the key is absent; of a
    multimap, always: after the keys that are not greater. *)
Fixpoint insert k v m : list (K * V) :=
  match m with
  | [] => [(k, v)]
  | (a, w) :: m' => if lt k a then (k, v) :: m else (a, w) :: insert k v m'
  end.

(** [p->second = v] for the iterator [p] at [k]. *)
Fixpoint assign k v m : list (K * V) :=
  match m with
  | [] => []
  | (a, w) :: m => if decide (a = k) then (a, v) :: m else (a, w) :: assign k v m
  end.

(** [m.erase(k)] of a map: the element of key [k]. *)
Fixpoint erase k m : list (K * V) :=
  match m with
  | [] => []
  | (a, w) :: m => if decide (a = k) then m else (a, w) :: erase k m
  end.

(** [++p] for the iterator [p] at [k]: the least greater key. *)
Fixpoint after k m : option K :=
  match m with
  | [] => None
  | (a, _) :: m => if lt k a then Some a else after k m
  end.

(** [m.begin()] *)
Definition first m : option K := match m with [] => None | (a, _) :: _ => Some a end.

(** The keys strictly increase: the invariant of a map. *)
Definition sorted m : Prop := StronglySorted (fun a b => lt a b = true) (keys m).

Lemma lt_neq a b : lt a b = true -> a <> b.
Proof. intros H ->. by rewrite lt_irrefl in H. Qed.

Lemma find_in k v m : find k m = Some v -> (k, v) ∈ m.
Proof.
  induction m as [|[a w] m IH]; cbn; [done|].
  case_decide; [intros [= ->]; subst; left|intros; right; auto].
Qed.

Lemma find_none k m : find k m = None <-> k ∉ keys m.
Proof.
  induction m as [|[a w] m IH]; cbn; [split; [intros _ H; inversion H|done]|].
  rewrite not_elem_of_cons. case_decide.
  - split; [done|intros []; congruence].
  - rewrite IH. split; [intros H1; split; [congruence|done]|by intros []].
Qed.

Lemma in_keys k v m : (k, v) ∈ m -> k ∈ keys m.
Proof. intros H. unfold keys. apply (list_elem_of_fmap_2 fst) in H. done. Qed.

Lemma sorted_cons_inv a w m : sorted ((a, w) :: m) ->
  sorted m /\ Forall (fun b => lt a b = true) (keys m).
Proof. unfold sorted. cbn. intros H. by inversion H. Qed.

Lemma sorted_notin a w m : sorted ((a, w) :: m) -> a ∉ keys m.
Proof.
  intros [_ H]%sorted_cons_inv Hin. rewrite Forall_forall in H.
  specialize (H _ Hin). by rewrite lt_irrefl in H.
Qed.

Lemma find_sorted k v m : sorted m -> (k, v) ∈ m -> find k m = Some v.
Proof.
  induction m as [|[a w] m IH]; intros Hs Hin; [inversion Hin|]. cbn.
  pose proof (sorted_notin _ _ _ Hs) as Hn. apply sorted_cons_inv in Hs as [Hs _].
  apply elem_of_cons in Hin as [[= -> ->]|Hin].
  - by rewrite decide_True.
  - rewrite decide_False; [auto|]. intros ->. by apply Hn, (in_keys _ v).
Qed.

(** ** insert *)

Lemma insert_permutation k v m : insert k v m ≡ₚ (k, v) :: m.
Proof.
  induction m as [|[a w] m IH]; cbn; [done|]. destruct (lt k a); [done|].
  rewrite IH. apply Permutation_swap.
Qed.

Lemma insert_sorted k v m : sorted m -> k ∉ keys m -> sorted (insert k v m).
Proof.
  induction m as [|[a w] m IH]; intros Hs Hn; cbn; [by repeat constructor|].
  cbn in Hn. rewrite not_elem_of_cons in Hn. destruct Hn as [Hka Hn].
  pose proof Hs as Hs'. apply sorted_cons_inv in Hs as [Hs Ha].
  destruct (lt k a) eqn:E.
  - unfold sorted in *. cbn. constructor; [done|]. constructor; [done|].
    eapply Forall_impl; [exact Ha|]. cbn. intros b Hb. by eapply lt_trans.
  - assert (lt a k = true).
    { destruct (lt a k) eqn:E'; [done|]. exfalso. apply Hka. by apply lt_total. }
    unfold sorted in *. cbn. constructor; [by apply IH|].
    assert (keys (insert k v m) ≡ₚ k :: keys m) as ->.
    { unfold keys. by rewrite insert_permutation. }
    by constructor.
Qed.

Lemma find_insert k v m : k ∉ keys m -> find k (insert k v m) = Some v.
Proof.
  induction m as [|[a w] m IH]; cbn; intros Hn; [by rewrite decide_True|].
  rewrite not_elem_of_cons in Hn. destruct Hn. destruct (lt k a); cbn.
  - by rewrite decide_True.
  - rewrite decide_False by done. auto.
Qed.

Lemma find_insert_ne k j v m : j <> k -> find j (insert k v m) = find j m.
Proof.
  intros Hj. induction m as [|[a w] m IH]; cbn; [by rewrite decide_False|].
  destruct (lt k a); cbn; [by rewrite (decide_False (P := k = j))|]. by rewrite IH.
Qed.

(** ** assign *)

Lemma assign_keys k v m : keys (assign k v m) = keys m.
Proof.
  unfold keys. induction m as [|[a w] m IH]; cbn; [done|].
  case_decide; cbn; [done|]. by rewrite IH.
Qed.

Lemma assign_sorted k v m : sorted m -> sorted (assign k v m).
Proof. unfold sorted. by rewrite assign_keys. Qed.

Lemma find_assign k v m : k ∈ keys m -> find k (assign k v m) = Some v.
Proof.
  induction m as [|[a w] m IH]; cbn; [by intros ?%elem_of_nil|]. intros H.
  destruct (decide (a = k)) as [E|Hne]; cbn; [by rewrite decide_True|]. rewrite decide_False by done.
  apply IH. apply elem_of_cons in H as [->|]; done.
Qed.

Lemma find_assign_ne k j v m : j <> k -> find j (assign k v m) = find j m.
Proof.
  intros Hj. induction m as [|[a w] m IH]; cbn; [done|].
  destruct (decide (a = k)) as [->|Hne]; cbn; [by rewrite !decide_False by done|].
  by destruct (decide (a = j)).
Qed.

Lemma assign_permutation k v w m : find k m = Some w ->
  exists r, m ≡ₚ (k, w) :: r /\ assign k v m ≡ₚ (k, v) :: r.
Proof.
  induction m as [|[a x] m IH]; cbn; [done|]. case_decide.
  - intros [= ->]. subst. by exists m.
  - intros H1. destruct (IH H1) as (r & E1 & E2). exists ((a, x) :: r).
    split; [rewrite E1|rewrite E2]; apply Permutation_swap.
Qed.

(** ** erase *)

Lemma erase_permutation k v m : find k m = Some v -> m ≡ₚ (k, v) :: erase k m.
Proof.
  induction m as [|[a w] m IH]; cbn; [done|]. case_decide.
  - intros [= ->]. by subst.
  - intros H1. rewrite (IH H1) at 1. apply Permutation_swap.
Qed.

Lemma erase_none k m : find k m = None -> erase k m = m.
Proof.
  induction m as [|[a w] m IH]; cbn; [done|]. case_decide; [done|].
  intros. by rewrite IH.
Qed.

Lemma erase_sublist k m : sublist (erase k m) m.
Proof.
  induction m as [|[a w] m IH]; cbn; [done|]. case_decide; [by apply sublist_cons|].
  by apply sublist_skip.
Qed.

Lemma sublist_sorted m m' : sublist m' m -> sorted m -> sorted m'.
Proof.
  intros H. induction H as [|[a w] l k H IH|[a w] l k H IH]; [done| |].
  - intros [Hs Ha]%sorted_cons_inv. unfold sorted. cbn. constructor; [by apply IH|].
    apply Forall_forall. intros b Hb. rewrite Forall_forall in Ha. apply Ha.
    eapply elem_of_sublist; [exact Hb|]. by apply (fmap_sublist fst).
  - intros [Hs _]%sorted_cons_inv. auto.
Qed.

Lemma erase_sorted k m : sorted m -> sorted (erase k m).
Proof. apply sublist_sorted, erase_sublist. Qed.

Lemma find_erase k m : sorted m -> find k (erase k m) = None.
Proof.
  induction m as [|[a w] m IH]; intros Hs; cbn; [done|].
  pose proof (sorted_notin _ _ _ Hs). apply sorted_cons_inv in Hs as [Hs _].
  case_decide; [subst; by apply find_none|]. cbn. rewrite decide_False by done. auto.
Qed.

Lemma find_erase_ne k j m : j <> k -> find j (erase k m) = find j m.
Proof.
  intros Hj. induction m as [|[a w] m IH]; cbn; [done|].
  case_decide; cbn; [by rewrite decide_False by congruence|]. by rewrite IH.
Qed.

(** ** Iteration *)

Lemma after_keys k j m : after k m = Some j -> j ∈ keys m /\ lt k j = true.
Proof.
  induction m as [|[a w] m IH]; cbn; [done|]. destruct (lt k a) eqn:E.
  - intros [= ->]. split; [left|done].
  - intros H. destruct (IH H). split; [by right|done].
Qed.

Lemma first_keys j m : first m = Some j -> j ∈ keys m.
Proof. destruct m as [|[a w] m]; cbn; [done|]. intros [= ->]. left. Qed.

(** [++p] steps through the keys in their order. *)
Lemma after_split m1 k v m2 : sorted (m1 ++ (k, v) :: m2) ->
  after k (m1 ++ (k, v) :: m2) = first m2.
Proof.
  induction m1 as [|[a w] m1 IH]; intros Hs; cbn.
  - rewrite lt_irrefl. apply sorted_cons_inv in Hs as [_ Hf].
    destruct m2 as [|[b x] m2]; cbn; [done|]. cbn in Hf. inversion Hf as [|? ? Hb]; subst.
    by rewrite Hb.
  - pose proof Hs as Hs'. apply sorted_cons_inv in Hs as [Hs Hf].
    destruct (lt k a) eqn:E; [|by apply IH]. exfalso.
    rewrite Forall_forall in Hf. assert (lt a k = true) as E'.
    { apply Hf. unfold keys. rewrite map_app. apply elem_of_app. right. left. }
    pose proof (lt_trans _ _ _ E E') as E2. by rewrite lt_irrefl in E2.
Qed.

End Map.

#[export] Hint Resolve assign_sorted erase_sorted insert_sorted : flinter.
