(* ===== verification/Convert.v ===== *)
(** * Values out of text: convert.cpp

    [convert] of text to integers of every width, to booleans and to text, with
    a default for text that does not fit.  A long is 64 bits wide; the
    conversions to floating point numbers are not modelled. *)

From Stdlib Require Import ZifyBool.
From S2P Require Import Prelude Digits Libc.

(** DEFINE_S: the value and *valid. *)
Definition convert_signed (min max : Z) (from : bytes) (defval : Z) : Z * bool :=
  if bool_decide (from = []) then (defval, false)
  else
    let v := c_str from in
    let '(r, p, erange) := strtoll 0 v in
    if erange || negb (zlen v - zlen p =? zlen from) then (defval, false)
    else if (r <? min) || (max <? r) then (defval, false)
    else (r, true).

(** DEFINE_U *)
Definition convert_unsigned (max : Z) (from : bytes) (defval : Z) : Z * bool :=
  if bool_decide (from = []) then (defval, false)
  else
    let v := c_str from in
    let '(r, p, erange) := strtoull 0 v in
    if erange || negb (zlen v - zlen p =? zlen from) then (defval, false)
    else if max <? r then (defval, false)
    else (r, true).

Definition convert_string (from defval : bytes) : bytes * bool :=
  (if bool_decide (from = []) then defval else from, negb (bool_decide (from = []))).

Definition convert_bool (from : bytes) (defval : bool) : bool * bool :=
  let v := map tolower from in
  if bool_decide (v = B "true") || bool_decide (v = B "1") then (true, true)
  else if bool_decide (v = B "false") || bool_decide (v = B "0") then (false, true)
  else (defval, false).

(** ** The types *)

Definition convert_char := convert_signed (-128) 127.
Definition convert_short := convert_signed (-32768) 32767.
Definition convert_int := convert_signed INT_MIN INT_MAX.
Definition convert_long := convert_signed LLONG_MIN LLONG_MAX.
Definition convert_long_long := convert_signed LLONG_MIN LLONG_MAX.
Definition convert_unsigned_char := convert_unsigned 255.
Definition convert_unsigned_short := convert_unsigned 65535.
Definition convert_unsigned_int := convert_unsigned 4294967295.
Definition convert_unsigned_long := convert_unsigned ULLONG_MAX.
Definition convert_unsigned_long_long := convert_unsigned ULLONG_MAX.

(** ** Printed numbers are read back *)

Lemma c_str_digits l : forallb is_digit l = true -> c_str l = l.
Proof.
  induction l as [|c l IH]; intros H; [done|]. cbn [forallb] in H. apply andb_true_iff in H as [Hc Hl].
  cbn [c_str]. rewrite bool_decide_false, IH; [done|done|]. intros ->. discriminate Hc.
Qed.

Lemma dec_head_digit n : 0 <= n -> exists c l, dec n = c :: l /\ is_digit c = true.
Proof.
  intros H. pose proof (dec_digits n H) as Hd. pose proof (dec_not_nil n H).
  destruct (dec n) as [|c l]; [done|]. cbn [forallb] in Hd. apply andb_true_iff in Hd as [Hc _]. eauto.
Qed.

(** A canonical number is decimal in base 0, or a single octal zero. *)
Lemma base0_dec n : 0 <= n -> base0 (dec n) = (if n =? 0 then 8 else 10, dec n).
Proof.
  intros H. destruct (Z.eqb_spec n 0) as [->|Hn]; [done|].
  pose proof (dec_hd_pos n ltac:(lia)) as Hh. pose proof (dec_not_nil n H).
  destruct (dec n) as [|c l]; [done|]. cbn. rewrite bool_decide_false; [done|]. intros ->. by apply Hh.
Qed.

Lemma span_dec n : 0 <= n ->
  span_digits (if n =? 0 then 8 else 10) 0 0 (dec n) = (n, zlen (dec n), []).
Proof.
  intros H. destruct (Z.eqb_spec n 0) as [->|Hn]; [done|].
  rewrite <- (app_nil_r (dec n)) at 1. rewrite span_digits_10 by (done || by apply dec_digits).
  rewrite dec_value by done. do 2 f_equal; lia.
Qed.

Lemma strto_dec neg n : 0 <= n ->
  strto 0 ((if neg : bool then ["-"%char] else []) ++ dec n) = Some (neg, n, []).
Proof.
  intros H. destruct (dec_head_digit n H) as (c & l & E & Hc).
  destruct (digit_head c Hc) as (D1 & D2 & D3 & _). unfold strto.
  assert (take_sign (skip_spaces ((if neg : bool then ["-"%char] else []) ++ dec n)) = (neg, dec n)) as ->.
  { destruct neg; [done|]. rewrite E. cbn. rewrite D1. cbn. by rewrite !bool_decide_false. }
  cbn [Z.eqb]. rewrite base0_dec, span_dec by done.
  assert (0 < zlen (dec n)) by (rewrite E, zlen_cons; pose proof (zlen_nonneg l); lia).
  by replace (zlen (dec n) =? 0) with false by lia.
Qed.

Lemma dec_signed_split n : dec_signed n = (if n <? 0 then ["-"%char] else []) ++ dec (Z.abs n).
Proof.
  unfold dec_signed. destruct (Z.ltb_spec n 0); cbn [app]; do 2 f_equal; lia.
Qed.

Lemma c_str_dec_signed n : c_str (dec_signed n) = dec_signed n.
Proof.
  rewrite dec_signed_split. destruct (n <? 0); [cbn; f_equal|]; apply c_str_digits, dec_digits; lia.
Qed.

Lemma dec_signed_not_nil n : dec_signed n <> [].
Proof. rewrite dec_signed_split. destruct (n <? 0); [done|]. apply dec_not_nil. lia. Qed.

Lemma strtoll_dec_signed n : strtoll 0 (dec_signed n) =
  if n <? LLONG_MIN then (LLONG_MIN, [], true)
  else if LLONG_MAX <? n then (LLONG_MAX, [], true) else (n, [], false).
Proof.
  unfold strtoll. rewrite dec_signed_split, strto_dec by lia.
  replace (if n <? 0 then - Z.abs n else Z.abs n) with n; [done|]. destruct (Z.ltb_spec n 0); lia.
Qed.

(** Integers survive their text.  For every signed type a printed number is
    converted back exactly when the type holds it, and gives the default,
    flagged as not valid, when it does not; whatever the text, a result flagged
    as valid is one of the type and any other is the default. *)
Theorem convert_signed_spec (min max n defval : Z) (from : bytes) : LLONG_MIN <= min -> max <= LLONG_MAX ->
  convert_signed min max (dec_signed n) defval =
    (if (min <=? n) && (n <=? max) then (n, true) else (defval, false)) /\
  (let (r, valid) := convert_signed min max from defval in
   if valid : bool then min <= r <= max else r = defval).
Proof.
  intros Hmin Hmax. split.
  - unfold convert_signed. rewrite bool_decide_false by apply dec_signed_not_nil.
    rewrite c_str_dec_signed, strtoll_dec_signed.
    change (zlen (@nil ascii)) with 0. pose proof (zlen_nonneg (dec_signed n)).
    destruct (n <? LLONG_MIN) eqn:E1; [cbn [orb]; by replace (_ && _) with false by lia|].
    destruct (LLONG_MAX <? n) eqn:E2; [cbn [orb]; by replace (_ && _) with false by lia|].
    cbn [orb]. replace (_ - 0 =? _) with true by lia. cbn [negb].
    replace ((min <=? n) && (n <=? max)) with (negb ((n <? min) || (max <? n))) by lia.
    by destruct (_ || _).
  - unfold convert_signed. case_bool_decide; [done|]. destruct (strtoll 0 (c_str from)) as [[r p] e].
    destruct (e || _); [done|]. destruct (_ || _) eqn:E; [done|]. lia.
Qed.

Lemma convert_signed_spec_witness :
  convert_char (dec_signed (-128)) 0 = (-128, true) /\ convert_char (dec_signed 128) 7 = (7, false).
Proof.
  split.
  - exact (proj1 (convert_signed_spec (-128) 127 (-128) 0 [] ltac:(vm_compute; discriminate) ltac:(vm_compute; discriminate))).
  - exact (proj1 (convert_signed_spec (-128) 127 128 7 [] ltac:(vm_compute; discriminate) ltac:(vm_compute; discriminate))).
Defined.

(** Unsigned types read their numbers back too, and the widest ones take a
    negative number for its value modulo 2^64. *)
Lemma convert_unsigned_dec max n defval : max <= ULLONG_MAX -> 0 <= n ->
  convert_unsigned max (dec n) defval = if n <=? max then (n, true) else (defval, false).
Proof.
  intros Hmax Hn. unfold convert_unsigned. rewrite bool_decide_false by by apply dec_not_nil.
  rewrite c_str_digits by by apply dec_digits. unfold strtoull.
  pose proof (strto_dec false n Hn) as E. cbn [app] in E. rewrite E.
  change (zlen (@nil ascii)) with 0. pose proof (zlen_nonneg (dec n)).
  destruct (ULLONG_MAX <? n) eqn:E1; cbn [orb]; [by replace (n <=? max) with false by lia|].
  replace (_ - 0 =? _) with true by lia. cbn [negb].
  replace (n <=? max) with (negb (max <? n)) by lia. by destruct (max <? n).
Qed.

Example convert_minus_one : convert_unsigned_long (B "-1") 0 = (ULLONG_MAX, true).
Proof. reflexivity. Qed.
