(* ===== verification/Tree.v ===== *)
(** * Configuration trees: types/tree.cpp

    A [Tree] has a value and children by key; a path is keys joined by dots.
    The model of a tree is a finite map from lists of keys to values
    ([value_at]), and the theorems say what each method does to that map.
    Nodes are addressed by their lists of keys where the code has pointers. *)

From S2P Require Import Prelude Digits Libc StdMap.

Local Abbreviation dot := "."%char.

Inductive Tree : Type := mkTree {
  _key : bytes;
  _value : bytes;
  _full_path : bytes;
  _children : list (bytes * Tree)
}.

(** Induction with the hypothesis for every child. *)
Lemma tree_induction (P : Tree -> Prop) :
  (forall k v f l, Forall (fun e : bytes * Tree => P e.2) l -> P (mkTree k v f l)) -> forall t, P t.
Proof.
  intros H. fix IH 1. intros [k v f l]. apply H. induction l as [|[a t] l IHl]; constructor; [apply IH|done].
Qed.

Definition Tree_new : Tree := mkTree [] [] [] [].

Definition with_children (l : list (bytes * Tree)) (t : Tree) : Tree :=
  mkTree (_key t) (_value t) (_full_path t) l.

Definition GetFullPath (t : Tree) (child : bytes) : bytes :=
  match _full_path t with [] => child | f => f ++ dot :: child end.

Definition Clear (t : Tree) : Tree := mkTree [] [] (_full_path t) [].

Definition SetValue (value : bytes) (t : Tree) : Tree :=
  mkTree (_key t) value (_full_path t) (_children t).

(** ** Paths *)

(** The pieces between the dots, as the loops of CreateOrSet and Find cut the
    path with strchr. *)
Fixpoint pieces (p : bytes) : list bytes :=
  match p with
  | [] => [[]]
  | c :: p =>
      if bool_decide (c = dot) then [] :: pieces p
      else match pieces p with
           | q :: l => (c :: q) :: l
           | [] => [[c]]
           end
  end.

(** The loop of CreateOrSet from the node [t] on: the tree afterwards and the
    node found or created ([None]: null). *)
Fixpoint CreateOrSet_loop (l : list bytes) (value : bytes) (t : Tree) : Tree * option (list bytes) :=
  match l with
  | [] => (t, None)
  | [c] =>
      match find c (_children t) with
      | Some _ => (t, Some [c])
      | None => (with_children (insert c (mkTree c value (GetFullPath t c) []) (_children t)) t, Some [c])
      end
  | c :: rest =>
      if bool_decide (c = []) then (t, None)
      else
        let '(child, l) :=
          match find c (_children t) with
          | Some child => (child, _children t)
          | None => let child := mkTree c [] (GetFullPath t c) [] in (child, insert c child (_children t))
          end in
        if bool_decide (rest = [[]]) then (with_children l t, None)
        else
          let '(child, r) := CreateOrSet_loop rest value child in
          (with_children (assign c child l) t, match r with Some q => Some (c :: q) | None => None end)
  end.

Definition CreateOrSet (path value : bytes) (t : Tree) : Tree * option (list bytes) :=
  if bool_decide (path = []) then (t, None) else CreateOrSet_loop (pieces (c_str path)) value t.

Fixpoint Find_loop (l : list bytes) (t : Tree) : option Tree :=
  match l with
  | [] => None
  | [c] => find c (_children t)
  | c :: rest =>
      if bool_decide (c = []) then None
      else match find c (_children t) with
           | None => None
           | Some child => if bool_decide (rest = [[]]) then None else Find_loop rest child
           end
  end.

Definition Find (path : bytes) (t : Tree) : option Tree :=
  if bool_decide (path = []) then None else Find_loop (pieces (c_str path)) t.

Definition Has (path : bytes) (t : Tree) : bool := match Find path t with Some _ => true | None => false end.

(** Get of a const tree; [kDummyConstTree] is an empty one. *)
Definition kDummyConstTree : Tree := Tree_new.
Definition Get_const (path : bytes) (t : Tree) : Tree :=
  match Find path t with Some n => n | None => kDummyConstTree end.

(** Get of a tree that can change: the node, and the tree it is in. *)
Definition Get (path : bytes) (t : Tree) : result exn (list bytes) * Tree :=
  match CreateOrSet path [] t with
  | (t, Some q) => (Ok q, t)
  | (t, None) => (Err (runtime_error "invalid path when creating subtree node."), t)
  end.

(** Set(path, value), of a value already printed. *)
Definition Set_path (path value : bytes) (t : Tree) : Tree := (CreateOrSet path value t).1.

(** ** Copies *)

(** The loop of Merge over the children of the other tree, [M] being the call
    of Merge for a child. *)
Definition merge_loop (M : Tree -> Tree -> Tree) (full_path : bytes) :=
  fix loop (ol l : list (bytes * Tree)) {struct ol} : list (bytes * Tree) :=
    match ol with
    | [] => l
    | (k, o) :: ol =>
        let '(q, l) :=
          match find k l with
          | Some q => (q, l)
          | None => let child := mkTree k (_value o) (full_path ++ dot :: k) [] in (child, insert k child l)
          end in
        loop ol (assign k (M o q) l)
    end.

(** Merge of another tree, not a part of this one. *)
Fixpoint Merge_other (overwrite : bool) (other t : Tree) {struct other} : Tree :=
  match other with
  | mkTree okey ovalue _ ochildren =>
      let l := merge_loop (Merge_other overwrite) (_full_path t) ochildren (_children t) in
      if overwrite then mkTree okey ovalue (_full_path t) l else with_children l t
  end.

Definition Merge (other : operand Tree) (overwrite : bool) (t : Tree) : Tree :=
  match other with This => t | Obj o => Merge_other overwrite o t end.

Definition Tree_copy (other : Tree) : Tree := Merge (Obj other) true Tree_new.

(** operator =, of any tree, parts of this one included. *)
Definition Assign (other : operand Tree) (t : Tree) : Tree :=
  match other with
  | This => t
  | Obj o => Merge (Obj (Tree_copy o)) true (Clear t)
  end.

(** Tree(map): Set for each element, in the order of the map. *)
Definition Tree_of_map (m : list (bytes * bytes)) : Tree :=
  fold_left (fun t e => Set_path e.1 e.2 t) m Tree_new.

(** ** Keys of siblings with the same name *)

(** while (total /= 10) ++len; a size_t has at most 20 digits. *)
Fixpoint decimal_width (fuel : nat) (total len : Z) : Z :=
  match fuel with
  | O => len
  | S f => if total / 10 =? 0 then len else decimal_width f (total / 10) (len + 1)
  end.

Definition FormatDuplicatedKey (i total : Z) : result exn bytes :=
  if total <=? 1 then Err assertion_failed
  else
    let len := decimal_width 20 total 1 in
    let s := "["%char :: pad0 (Z.to_nat len) (dec i) ++ ["]"%char] in
    if zlen s <? 32 then Ok s else Err undefined_behaviour.

(** ** The tree as a map *)

Fixpoint node_at (q : list bytes) (t : Tree) : option Tree :=
  match q with
  | [] => Some t
  | k :: q => match find k (_children t) with Some c => node_at q c | None => None end
  end.

Definition value_at (t : Tree) (q : list bytes) : option bytes := option_map _value (node_at q t).

(** Well-formed: children in order, under their own keys. *)
Inductive wf : Tree -> Prop :=
| wf_node k v f l : sorted l -> Forall (fun e : bytes * Tree => _key e.2 = e.1) l ->
    Forall (fun e : bytes * Tree => wf e.2) l -> wf (mkTree k v f l).

(** Every node knows where it is. *)
Inductive located : Tree -> Prop :=
| located_node k v f l :
    Forall (fun e : bytes * Tree => _full_path e.2 = GetFullPath (mkTree k v f l) e.1) l ->
    Forall (fun e : bytes * Tree => located e.2) l -> located (mkTree k v f l).

(** ** Lookups *)

Lemma node_at_cons k q t : node_at (k :: q) t = match find k (_children t) with Some c => node_at q c | None => None end.
Proof. reflexivity. Qed.

Lemma value_at_nil t : value_at t [] = Some (_value t).
Proof. reflexivity. Qed.

Lemma value_at_cons t k q :
  value_at t (k :: q) = match find k (_children t) with Some c => value_at c q | None => None end.
Proof. unfold value_at. cbn. by destruct (find k (_children t)). Qed.

Lemma value_at_leaf k v f q : value_at (mkTree k v f []) q = match q with [] => Some v | _ => None end.
Proof. by destruct q. Qed.

Lemma wf_inv t : wf t -> sorted (_children t) /\ Forall (fun e => _key e.2 = e.1) (_children t) /\
  Forall (fun e => wf e.2) (_children t).
Proof. by intros []. Qed.

Lemma wf_intro t : sorted (_children t) -> Forall (fun e => _key e.2 = e.1) (_children t) ->
  Forall (fun e => wf e.2) (_children t) -> wf t.
Proof. destruct t. by constructor. Qed.

Lemma wf_leaf k v f : wf (mkTree k v f []).
Proof. apply wf_intro; constructor. Qed.

Lemma located_leaf k v f : located (mkTree k v f []).
Proof. by constructor. Qed.

Lemma located_inv t : located t ->
  Forall (fun e => _full_path e.2 = GetFullPath t e.1) (_children t) /\ Forall (fun e => located e.2) (_children t).
Proof. by intros []. Qed.

Lemma located_intro t :
  Forall (fun e => _full_path e.2 = GetFullPath t e.1) (_children t) ->
  Forall (fun e => located e.2) (_children t) -> located t.
Proof. destruct t. by constructor. Qed.

(** What holds of all children holds of the one that is found, and is kept when
    one is added or replaced. *)
Section Children.
Context {V : Type} (P : bytes * V -> Prop).

Lemma Forall_find k v l : Forall P l -> find k l = Some v -> P (k, v).
Proof. intros H Hf. apply find_in in Hf. by apply (proj1 (Forall_forall _ _) H). Qed.

Lemma Forall_insert_child k v l : Forall P l -> P (k, v) -> Forall P (insert k v l).
Proof. intros H Hv. rewrite insert_permutation. by constructor. Qed.

Lemma Forall_assign k v l : Forall P l -> P (k, v) -> Forall P (assign k v l).
Proof.
  induction 1 as [|[a w] l Ha Hl IH]; intros Hv; cbn; [constructor|].
  destruct (decide (a = k)) as [->|]; constructor; auto.
Qed.

End Children.

(** The child [c] after it was found or made. *)
Lemma find_present {V} k (v : V) l : find k l = Some v -> k ∈ keys l.
Proof. intros H. apply find_in in H. by eapply in_keys. Qed.

Lemma find_insert_here {V} k (v : V) l : find k l = None -> find k (insert k v l) = Some v.
Proof. intros H. apply find_insert. by apply find_none. Qed.

Lemma insert_sorted_none {V} k (v : V) l : sorted l -> find k l = None -> sorted (insert k v l).
Proof. intros Hs H. apply insert_sorted; [done|]. by apply find_none. Qed.

(** ** CreateOrSet *)

(** The value of the nodes that CreateOrSet adds for the pieces [l]. *)
Fixpoint added (l : list bytes) (value : bytes) (q : list bytes) : option bytes :=
  match l, q with
  | [c], _ => if bool_decide (q = [c]) then Some value else None
  | c :: rest, k :: q =>
      if bool_decide (c = []) || negb (bool_decide (k = c)) then None
      else match q with
           | [] => Some []
           | _ => if bool_decide (rest = [[]]) then None else added rest value q
           end
  | _, _ => None
  end.

(** All the pieces are keys (or the path is just a terminator). *)
Fixpoint valid (l : list bytes) : bool :=
  match l with
  | [] => false
  | [c] => true
  | c :: rest => negb (bool_decide (c = [])) && negb (bool_decide (rest = [[]])) && valid rest
  end.

(** What a method that walks down may do to the node it walks through. *)
Definition extends (f : list bytes -> option bytes) (t t' : Tree) : Prop :=
  (forall q, value_at t' q = match value_at t q with Some x => Some x | None => f q end) /\
  (wf t -> wf t') /\ (located t -> located t') /\
  _key t' = _key t /\ _value t' = _value t /\ _full_path t' = _full_path t.

(** The child [c], made with [value] if it is not there. *)
Definition touch (c value : bytes) (t : Tree) : Tree :=
  match find c (_children t) with
  | Some _ => t
  | None => with_children (insert c (mkTree c value (GetFullPath t c) []) (_children t)) t
  end.

Lemma touch_extends c v t :
  extends (fun q => if bool_decide (q = [c]) then Some v else None) t (touch c v t) /\
  exists child, find c (_children (touch c v t)) = Some child.
Proof.
  unfold touch. destruct (find c (_children t)) as [child|] eqn:Ef.
  - split; [|eauto]. split_and!; try done. intros q. destruct (value_at t q) eqn:E; [done|].
    rewrite bool_decide_false; [done|]. intros ->. by rewrite value_at_cons, Ef in E.
  - split; [split_and!; try done|].
    + intros [|k q]; [done|]. rewrite !value_at_cons. cbn [_children with_children].
      destruct (decide (k = c)) as [->|Hne].
      * rewrite Ef, find_insert_here, value_at_leaf by done. destruct q; case_bool_decide; congruence.
      * rewrite find_insert_ne by done. rewrite bool_decide_false by congruence.
        destruct (find k (_children t)); [by destruct (value_at _ _)|done].
    + intros (Hs & Hk & Hw)%wf_inv. apply wf_intro; cbn [_children with_children].
      * by apply insert_sorted_none.
      * by apply Forall_insert_child.
      * apply Forall_insert_child; [done|]. apply wf_leaf.
    + intros [H1 H2]%located_inv. apply located_intro; cbn [_children with_children].
      * by apply Forall_insert_child.
      * apply Forall_insert_child; [done|]. apply located_leaf.
    + cbn. rewrite find_insert_here by done. eauto.
Qed.

(** A child that was extended. *)
Lemma assign_extends c f t child child' : find c (_children t) = Some child ->
  extends f child child' ->
  extends (fun q => match q with k :: q' => if bool_decide (k = c) then f q' else None | [] => None end)
    t (with_children (assign c child' (_children t)) t).
Proof.
  intros Hf (E1 & E2 & E3 & E4 & E5 & E6). split_and!; try done.
  - intros [|k q]; [done|]. rewrite !value_at_cons. cbn [_children with_children].
    destruct (decide (k = c)) as [->|Hne].
    + rewrite find_assign by by eapply find_present. by rewrite Hf, E1, bool_decide_true.
    + rewrite find_assign_ne, bool_decide_false by done.
      destruct (find k (_children t)); [by destruct (value_at _ _)|done].
  - intros (Hs & Hk & Hw)%wf_inv. apply wf_intro; cbn [_children with_children].
    + by apply assign_sorted.
    + apply Forall_assign; [done|]. cbn. rewrite E4. exact (Forall_find _ _ _ _ Hk Hf).
    + apply Forall_assign; [done|]. apply E2. exact (Forall_find _ _ _ _ Hw Hf).
  - intros [H1 H2]%located_inv. apply located_intro; cbn [_children with_children].
    + apply Forall_assign; [done|]. cbn. rewrite E6. exact (Forall_find _ _ _ _ H1 Hf).
    + apply Forall_assign; [done|]. apply E3. exact (Forall_find _ _ _ _ H2 Hf).
Qed.

Lemma extends_trans f g h t1 t2 t3 : extends f t1 t2 -> extends g t2 t3 ->
  (forall q, value_at t1 q = None -> h q = match f q with Some x => Some x | None => g q end) ->
  extends h t1 t3.
Proof.
  intros (A1 & A2 & A3 & A4 & A5 & A6) (B1 & B2 & B3 & B4 & B5 & B6) H. split_and!; try congruence; auto.
  intros q. rewrite B1, A1. destruct (value_at t1 q) eqn:E; [done|]. by rewrite H.
Qed.

Lemma CreateOrSet_loop_cons c d rest v t :
  CreateOrSet_loop (c :: d :: rest) v t =
  if bool_decide (c = []) then (t, None)
  else
    let t1 := touch c [] t in
    if bool_decide (d :: rest = [[]]) then (t1, None)
    else
      match find c (_children t1) with
      | Some child =>
          let '(child, r) := CreateOrSet_loop (d :: rest) v child in
          (with_children (assign c child (_children t1)) t1, match r with Some q => Some (c :: q) | None => None end)
      | None => (t, None)
      end.
Proof.
  cbn [CreateOrSet_loop]. case_bool_decide; [done|]. unfold touch.
  destruct (find c (_children t)) as [child|] eqn:Ef.
  - case_bool_decide; [by destruct t|]. rewrite Ef. by destruct t.
  - case_bool_decide; [done|]. cbn [_children with_children]. rewrite find_insert_here by done. by destruct t.
Qed.

Lemma CreateOrSet_loop_spec l v t : l <> [] ->
  (CreateOrSet_loop l v t).2 = (if valid l then Some l else None) /\
  extends (added l v) t (CreateOrSet_loop l v t).1.
Proof.
  revert t. induction l as [|c l IH]; intros t Hl; [done|]. clear Hl. destruct l as [|d l].
  - destruct (touch_extends c v t) as [H _]. unfold touch in H. cbn [CreateOrSet_loop valid].
    by destruct (find c (_children t)).
  - rewrite CreateOrSet_loop_cons.
    change (valid (c :: d :: l)) with
      (negb (bool_decide (c = [])) && negb (bool_decide (d :: l = [[]])) && valid (d :: l)).
    destruct (decide (c = [])) as [->|Hc].
    { rewrite !(bool_decide_true ([] = [])) by done. split; [done|]. split_and!; try done.
      intros q. cbn [fst]. destruct (value_at t q); [done|]. destruct q; [done|]. cbn [fst added]. by rewrite bool_decide_true. }
    rewrite (bool_decide_false (c = [])) by done. destruct (touch_extends c [] t) as [H1 [child Hf]].
    destruct (decide (d :: l = [[]])) as [E|E].
    + rewrite !(bool_decide_true (d :: l = [[]])) by done. split; [done|]. eapply extends_trans; [exact H1| |].
      * by instantiate (1 := fun _ => None); split_and!; try done; intros q; destruct (value_at _ q).
      * intros [|k q] _; [done|]. cbn [added]. rewrite (bool_decide_false (c = [])) by done.
        rewrite (bool_decide_true (d :: l = [[]])) by done. cbn [orb].
        destruct (decide (k = c)) as [->|Hk].
        -- rewrite bool_decide_true by done. cbn. destruct q; case_bool_decide; congruence.
        -- rewrite bool_decide_false by done. cbn. by rewrite bool_decide_false by congruence.
    + cbv zeta. rewrite !(bool_decide_false (d :: l = [[]])) by done. rewrite Hf.
      specialize (IH child ltac:(done)). destruct (CreateOrSet_loop (d :: l) v child) as [child' r].
      cbn [fst snd] in *. destruct IH as [-> IH]. split; [by destruct (valid (d :: l))|].
      eapply extends_trans; [exact H1|by eapply assign_extends|].
      intros [|k q] HN; [done|]. cbn [added]. rewrite (bool_decide_false (c = [])) by done.
      rewrite (bool_decide_false (d :: l = [[]])) by done. cbn [orb].
      destruct (decide (k = c)) as [->|Hk].
      * rewrite !(bool_decide_true (c = c)) by done. cbn [negb]. destruct q as [|k' q]; [by rewrite bool_decide_true|].
        by rewrite (bool_decide_false (c :: k' :: q = [c])).
      * rewrite (bool_decide_false (k = c)) by done. cbn. by rewrite bool_decide_false by congruence.
Qed.

(** ** Merge *)

Lemma Merge_other_eq ow o t :
  Merge_other ow o t =
  let l := merge_loop (Merge_other ow) (_full_path t) (_children o) (_children t) in
  if ow then mkTree (_key o) (_value o) (_full_path t) l else with_children l t.
Proof. by destruct o. Qed.

Definition fresh_child (fp k : bytes) (o : Tree) : Tree := mkTree k (_value o) (fp ++ dot :: k) [].

Lemma merge_loop_find ow fp ol l k : NoDup (keys ol) ->
  find k (merge_loop (Merge_other ow) fp ol l) =
  match find k ol with
  | Some o => Some (Merge_other ow o (match find k l with Some q => q | None => fresh_child fp k o end))
  | None => find k l
  end.
Proof.
  revert l. induction ol as [|[a o] ol IH]; intros l Hd; [done|]. inversion Hd as [|? ? Hn Hd']; subst.
  cbn [merge_loop find]. destruct (find a l) as [q|] eqn:Ef.
  - rewrite IH by done. destruct (decide (a = k)) as [->|Hne].
    + rewrite Ef. apply find_none in Hn. rewrite Hn, find_assign; [done|]. by eapply find_present.
    + by rewrite find_assign_ne.
  - rewrite IH by done. destruct (decide (a = k)) as [->|Hne].
    + rewrite Ef. apply find_none in Hn. rewrite Hn, find_assign; [done|].
      eapply find_present. by apply find_insert_here.
    + rewrite find_assign_ne, find_insert_ne by done. done.
Qed.

Lemma sorted_NoDup {V} (l : list (bytes * V)) : sorted l -> NoDup (keys l).
Proof.
  induction l as [|[a v] l IH]; intros H; [constructor|]. constructor.
  - by eapply sorted_notin.
  - apply IH. exact (proj1 (sorted_cons_inv _ _ _ H)).
Qed.

(** Of two values that of the other tree, if it overwrites. *)
Definition merged (overwrite : bool) (a b : option bytes) : option bytes :=
  match a, b with
  | Some x, Some y => Some (if overwrite then y else x)
  | Some x, None => Some x
  | None, b => b
  end.

Lemma Merge_value_at ow o t q : wf o ->
  value_at (Merge_other ow o t) q = merged ow (value_at t q) (value_at o q).
Proof.
  revert t q. induction o as [okey ov ofp ol IH] using tree_induction. intros t q (Hs & Hk & Hw)%wf_inv.
  cbn [_children] in *. rewrite Merge_other_eq. cbv zeta. cbn [_children _key _value].
  assert (forall x, value_at (mkTree x (if ow then ov else _value t) (_full_path t) (merge_loop (Merge_other ow) (_full_path t) ol (_children t))) q
    = merged ow (value_at t q) (value_at (mkTree okey ov ofp ol) q)) as H.
  { intros x. destruct q as [|k q]; [done|]. rewrite !value_at_cons. cbn [_children].
    rewrite merge_loop_find by by apply sorted_NoDup.
    destruct (find k ol) as [o|] eqn:Eo.
    - rewrite (Forall_find _ _ _ _ IH Eo) by exact (Forall_find _ _ _ _ Hw Eo).
      destruct (find k (_children t)); [done|]. unfold fresh_child. rewrite value_at_leaf.
      destruct q; [by destruct ow|done].
    - destruct (find k (_children t)); [by destruct (value_at _ _)|done]. }
  destruct ow; [apply H|]. apply H.
Qed.

Lemma Merge_wf ow o t : wf o -> wf t -> wf (Merge_other ow o t).
Proof.
  revert t. induction o as [okey ov ofp ol IH] using tree_induction. intros t (Hs & Hk & Hw)%wf_inv (Hs' & Hk' & Hw')%wf_inv.
  cbn [_children] in *. rewrite Merge_other_eq. cbv zeta. cbn [_children _key _value].
  assert (forall l, sorted l -> Forall (fun e => _key e.2 = e.1) l -> Forall (fun e => wf e.2) l ->
    sorted (merge_loop (Merge_other ow) (_full_path t) ol l) /\
    Forall (fun e => _key e.2 = e.1) (merge_loop (Merge_other ow) (_full_path t) ol l) /\
    Forall (fun e => wf e.2) (merge_loop (Merge_other ow) (_full_path t) ol l)) as H.
  { clear Hs Hs' Hk' Hw'. induction ol as [|[k o] ol IHol]; intros l L1 L2 L3; [done|]. cbn [merge_loop].
    inversion IH as [|? ? IHo IH']; subst. inversion Hk as [|? ? Ko Hk']; subst. inversion Hw as [|? ? Wo Hw']; subst.
    cbn [fst snd] in *.
    assert (forall q, _key q = k -> wf q -> _key (Merge_other ow o q) = k /\ wf (Merge_other ow o q)) as HM.
    { intros q E Hq. split; [|by apply IHo]. rewrite Merge_other_eq. by destruct ow. }
    destruct (find k l) as [q|] eqn:Ef.
    - destruct (HM q) as [M1 M2]; [exact (Forall_find _ _ _ _ L2 Ef)|exact (Forall_find _ _ _ _ L3 Ef)|].
      apply IHol; try done; [by apply assign_sorted|by apply Forall_assign..].
    - destruct (HM (fresh_child (_full_path t) k o)) as [M1 M2]; [done|apply wf_leaf|]. fold (fresh_child (_full_path t) k o).
      apply IHol; try done.
      + by apply assign_sorted, insert_sorted_none.
      + apply Forall_assign; [|done]. by apply Forall_insert_child.
      + apply Forall_assign; [|done]. apply Forall_insert_child; [done|apply wf_leaf]. }
  destruct (H (_children t) Hs' Hk' Hw') as (H1 & H2 & H3). destruct ow; by apply wf_intro.
Qed.

Lemma wf_new : wf Tree_new.
Proof. apply wf_leaf. Qed.

Lemma copy_value_at o q : wf o -> value_at (Tree_copy o) q = value_at o q.
Proof.
  intros H. unfold Tree_copy, Merge. rewrite Merge_value_at by done. destruct q; [done|].
  cbn. by destruct (value_at o _).
Qed.

Lemma copy_wf o : wf o -> wf (Tree_copy o).
Proof. intros H. apply Merge_wf; [done|apply wf_new]. Qed.

Lemma Assign_value_at o t q : wf o -> value_at (Assign (Obj o) t) q = value_at o q.
Proof.
  intros H. unfold Assign, Merge. rewrite Merge_value_at by by apply copy_wf. rewrite copy_value_at by done.
  destruct q; [done|]. cbn. by destruct (value_at o _).
Qed.

(** ** Well-formed trees *)

(** The calls on a tree; the pieces of an operand are those of another tree. *)
Inductive call : Type :=
| CSet (path value : bytes)
| CGet (path : bytes)
| CSetValue (value : bytes)
| CMerge (other : operand Tree) (overwrite : bool)
| CAssign (other : operand Tree)
| CClear.

Definition run_call (c : call) (t : Tree) : Tree :=
  match c with
  | CSet path value => Set_path path value t
  | CGet path => (Get path t).2
  | CSetValue value => SetValue value t
  | CMerge other ow => Merge other ow t
  | CAssign other => Assign other t
  | CClear => Clear t
  end.

Definition operand_wf (o : operand Tree) : Prop := match o with This => True | Obj o => wf o end.
Definition call_wf (c : call) : Prop :=
  match c with CMerge o _ | CAssign o => operand_wf o | _ => True end.

(** Calls that keep the full paths. *)
Definition keeps_paths (c : call) : bool :=
  match c with CMerge (Obj _) _ | CAssign (Obj _) => false | _ => true end.

Lemma pieces_not_nil p : pieces p <> [].
Proof. induction p as [|c p IH]; cbn; [done|]. case_bool_decide; [done|]. by destruct (pieces p). Qed.

Lemma CreateOrSet_extends path v t : exists f, extends f t (CreateOrSet path v t).1.
Proof.
  unfold CreateOrSet. case_bool_decide.
  - exists (fun _ => None). split_and!; try done. intros q. by destruct (value_at _ _).
  - eexists. apply CreateOrSet_loop_spec. apply pieces_not_nil.
Qed.

Lemma Get_tree path t : (Get path t).2 = (CreateOrSet path [] t).1.
Proof. unfold Get. by destruct (CreateOrSet path [] t) as [? []]. Qed.

Lemma run_call_wf c t : call_wf c -> wf t -> wf (run_call c t).
Proof.
  intros Hc Ht. destruct c as [path v|path|v|[|o] ow|[|o]|]; cbn in *; try done.
  - destruct (CreateOrSet_extends path v t) as (f & _ & H & _). auto.
  - rewrite Get_tree. destruct (CreateOrSet_extends path [] t) as (f & _ & H & _). auto.
  - apply wf_inv in Ht as (H1 & H2 & H3). by apply wf_intro.
  - by apply Merge_wf.
  - apply Merge_wf; [by apply copy_wf|apply wf_leaf].
  - apply wf_leaf.
Qed.

Lemma run_call_located c t : keeps_paths c = true -> located t -> located (run_call c t).
Proof.
  intros Hc Ht. destruct c as [path v|path|v|[|o] ow|[|o]|]; cbn in *; try done.
  - destruct (CreateOrSet_extends path v t) as (f & _ & _ & H & _). auto.
  - rewrite Get_tree. destruct (CreateOrSet_extends path [] t) as (f & _ & _ & H & _). auto.
  - apply located_inv in Ht as (H1 & H2). by apply located_intro.
Qed.

(** The keys before the first empty piece. *)
Fixpoint good (l : list bytes) : list bytes :=
  match l with
  | [] => []
  | c :: l => if bool_decide (c = []) then [] else c :: good l
  end.

Definition is_prefix (q l : list bytes) : bool := bool_decide (q = take (length q) l).

Lemma added_closed l v q : q <> [] ->
  added l v q = if valid l && bool_decide (q = l) then Some v
                else if is_prefix q (good l) then Some [] else None.
Proof.
  unfold is_prefix. revert q. induction l as [|c rest IH]; intros [|k q] Hq; try done.
  clear Hq. destruct rest as [|d rest].
  - cbn [added valid andb good]. case_bool_decide as E; [done|].
    destruct (decide (c = [])) as [->|Hc].
    { rewrite (bool_decide_true ([] = [])) by done. cbn [length take]. by rewrite bool_decide_false. }
    rewrite (bool_decide_false (c = [])) by done. cbn [length take]. rewrite bool_decide_false; [done|].
    intros [= -> Hq]. apply E. by destruct q.
  - change (added (c :: d :: rest) v (k :: q)) with
      (if bool_decide (c = []) || negb (bool_decide (k = c)) then None
       else match q with [] => Some [] | _ => if bool_decide (d :: rest = [[]]) then None else added (d :: rest) v q end).
    change (valid (c :: d :: rest)) with
      (negb (bool_decide (c = [])) && negb (bool_decide (d :: rest = [[]])) && valid (d :: rest)).
    change (good (c :: d :: rest)) with (if bool_decide (c = []) then [] else c :: good (d :: rest)).
    destruct (decide (c = [])) as [->|Hc].
    { rewrite !(bool_decide_true ([] = [])) by done. cbn [orb negb andb length take]. by rewrite bool_decide_false. }
    rewrite !(bool_decide_false (c = [])) by done. cbn [orb negb andb length take].
    destruct (decide (k = c)) as [->|Hk].
    + rewrite (bool_decide_true (c = c)) by done. cbn [negb]. destruct q as [|k' q].
      * rewrite (bool_decide_false ([c] = _)) by done. rewrite andb_false_r. by rewrite bool_decide_true.
      * destruct (decide (d :: rest = [[]])) as [E|E].
        -- rewrite !(bool_decide_true (d :: rest = [[]])) by done. cbn [negb andb]. injection E as -> ->.
           by rewrite bool_decide_false.
        -- rewrite !(bool_decide_false (d :: rest = [[]])) by done. cbn [negb andb]. rewrite IH by done.
           replace (bool_decide (c :: k' :: q = c :: d :: rest)) with (bool_decide (k' :: q = d :: rest))
             by (apply bool_decide_ext; split; congruence).
           replace (bool_decide (c :: k' :: q = c :: take _ _)) with
             (bool_decide (k' :: q = take (length (k' :: q)) (good (d :: rest))))
             by (apply bool_decide_ext; split; congruence). done.
    + rewrite (bool_decide_false (k = c)) by done. cbn [negb]. rewrite (bool_decide_false (k :: q = _)) by congruence.
      rewrite andb_false_r. rewrite bool_decide_false by congruence. done.
Qed.

(** ** The map that a tree stands for *)

Abbreviation tree_map := (list bytes -> option bytes).

Definition empty_map : tree_map := fun q => match q with [] => Some [] | _ => None end.

(** Putting a value under [path]: what is there stays; nodes on the way to it
    are there with an empty value; of an invalid path the way to its first
    empty key. *)
Definition put_path (path value : bytes) (m : tree_map) : tree_map := fun q =>
  let l := pieces (c_str path) in
  match m q with
  | Some x => Some x
  | None => if bool_decide (path = []) then None
            else if valid l && bool_decide (q = l) then Some value
            else if is_prefix q (good l) then Some [] else None
  end.

Definition spec_call (c : call) (m : tree_map) : tree_map :=
  match c with
  | CSet path value => put_path path value m
  | CGet path => put_path path [] m
  | CSetValue value => fun q => match q with [] => Some value | _ => m q end
  | CMerge This _ | CAssign This => m
  | CMerge (Obj o) ow => fun q => merged ow (m q) (value_at o q)
  | CAssign (Obj o) => value_at o
  | CClear => empty_map
  end.

Lemma CreateOrSet_value_at path v t q : value_at (CreateOrSet path v t).1 q = put_path path v (value_at t) q.
Proof.
  unfold CreateOrSet, put_path. case_bool_decide as E; [cbn [fst]; by destruct (value_at t q)|].
  destruct (CreateOrSet_loop_spec (pieces (c_str path)) v t (pieces_not_nil _)) as [_ (H & _)]. rewrite H.
  destruct (value_at t q) eqn:Eq; [done|]. apply added_closed. by intros ->.
Qed.

Lemma run_call_spec c t q : call_wf c -> value_at (run_call c t) q = spec_call c (value_at t) q.
Proof.
  intros Hc. destruct c as [path v|path|v|[|o] ow|[|o]|]; cbn [run_call spec_call].
  - apply CreateOrSet_value_at.
  - rewrite Get_tree. apply CreateOrSet_value_at.
  - by destruct q.
  - done.
  - by apply Merge_value_at.
  - done.
  - by apply Assign_value_at.
  - by destruct q.
Qed.

(** Equal maps stay equal. *)
Lemma spec_call_ext c m m' : (forall q, m q = m' q) -> forall q, spec_call c m q = spec_call c m' q.
Proof.
  intros H q. destruct c as [path v|path|v|[|o] ow|[|o]|]; cbn; unfold put_path; rewrite ?H; try done.
Qed.

Definition run_calls (l : list call) (t : Tree) : Tree := fold_left (fun t c => run_call c t) l t.
Definition spec_calls (l : list call) (m : tree_map) : tree_map := fold_left (fun m c => spec_call c m) l m.

Lemma run_calls_spec l t m : Forall call_wf l -> (forall q, value_at t q = m q) ->
  forall q, value_at (run_calls l t) q = spec_calls l m q.
Proof.
  intros Hl. revert t m. induction Hl as [|c l Hc Hl IH]; intros t m H; [done|].
  cbn. apply IH. intros q. rewrite run_call_spec by done. by apply spec_call_ext.
Qed.

Lemma run_calls_wf l t : Forall call_wf l -> wf t -> wf (run_calls l t).
Proof.
  intros Hl. revert t. induction Hl as [|c l Hc Hl IH]; intros t Ht; [done|]. apply IH. by apply run_call_wf.
Qed.

Lemma run_calls_located l t : forallb keeps_paths l = true -> located t ->
  located (run_calls l t) /\ _full_path (run_calls l t) = _full_path t.
Proof.
  revert t. induction l as [|c l IH]; intros t Hl Ht; [done|]. cbn in Hl. bprop.
  destruct (IH (run_call c t)) as [H1 H2]; [done|by apply run_call_located|]. split; [done|].
  change (run_calls (c :: l) t) with (run_calls l (run_call c t)). rewrite H2.
  destruct c as [path v|path|v|[|o] ow|[|o]|]; cbn in *; try done; rewrite ?Get_tree;
    [destruct (CreateOrSet_extends path v t) as (f & HE)|destruct (CreateOrSet_extends path [] t) as (f & HE)]; apply HE.
Qed.

(** The full path of the node under [q]. *)
Definition joined (f : bytes) (q : list bytes) : bytes :=
  fold_left (fun f k => match f with [] => k | _ => f ++ dot :: k end) q f.

Lemma located_at q t n : located t -> node_at q t = Some n -> _full_path n = joined (_full_path t) q.
Proof.
  revert t. induction q as [|k q IH]; intros t Ht H; [by injection H as <-|]. rewrite node_at_cons in H.
  apply located_inv in Ht as [H1 H2]. destruct (find k (_children t)) as [c|] eqn:E; [|done].
  rewrite (IH c) by (done || exact (Forall_find _ _ _ _ H2 E)).
  pose proof (Forall_find _ _ _ _ H1 E) as HF. cbn [fst snd] in HF. rewrite HF. unfold joined, GetFullPath. cbn [fold_left]. by destruct (_full_path t).
Qed.

Lemma wf_key_at q k t n : wf t -> node_at (q ++ [k]) t = Some n -> _key n = k.
Proof.
  revert t. induction q as [|a q IH]; intros t (Hs & Hk & Hw)%wf_inv H; cbn [app] in H; rewrite node_at_cons in H.
  - destruct (find k (_children t)) as [c|] eqn:E; [|done]. injection H as <-. exact (Forall_find _ _ _ _ Hk E).
  - destruct (find a (_children t)) as [c|] eqn:E; [|done]. apply (IH c); [|done]. exact (Forall_find _ _ _ _ Hw E).
Qed.

(** C23: a tree is the map of its paths.  Whatever calls of Set, Get, Merge, =
    and Clear are made of a new tree, with well-formed trees as operands, the
    values under all lists of keys are those of a map that went through the
    same calls: Set and Get add what is not there, Merge joins the maps, the
    other one winning where it overwrites, and = copies. *)
Theorem tree_refines_map (l : list call) : Forall call_wf l ->
  forall q, value_at (run_calls l Tree_new) q = spec_calls l empty_map q.
Proof. intros Hl. apply run_calls_spec; [done|]. by intros []. Qed.

(** Trees are well formed.  After any such calls the children of every node
    are sorted, each node has the key it is stored under, and, unless another
    tree was merged or assigned, the full path that its keys give. *)
Theorem tree_well_formed (l : list call) : Forall call_wf l ->
  wf (run_calls l Tree_new) /\
  (forall q k n, node_at (q ++ [k]) (run_calls l Tree_new) = Some n -> _key n = k) /\
  (forallb keeps_paths l = true ->
     forall q n, node_at q (run_calls l Tree_new) = Some n -> _full_path n = joined [] q).
Proof.
  intros Hl. pose proof (run_calls_wf l Tree_new Hl wf_new) as Hw. split; [done|]. split.
  - intros q k n. by apply wf_key_at.
  - intros Hp q n H. destruct (run_calls_located l Tree_new Hp) as [HL HE]; [apply located_leaf|].
    rewrite (located_at q _ n HL H). by rewrite HE.
Qed.

Definition demo_calls : list call :=
  [CSet (B "a.b") (B "1"); CSet (B "a.b") (B "2"); CSet (B "a.c..d") (B "3");
   CMerge (Obj (run_calls [CSet (B "a.b") (B "9"); CSet (B "x") (B "y")] Tree_new)) false].

Lemma demo_calls_wf : Forall call_wf demo_calls.
Proof. repeat constructor. Qed.

Lemma tree_refines_map_witness :
  value_at (run_calls demo_calls Tree_new) [B "a"; B "b"] = Some (B "1") /\
  value_at (run_calls demo_calls Tree_new) [B "a"; B "c"] = Some [] /\
  value_at (run_calls demo_calls Tree_new) [B "x"] = Some (B "y").
Proof.
  split; [|split]; rewrite (tree_refines_map demo_calls demo_calls_wf); vm_compute; reflexivity.
Defined.

Lemma tree_well_formed_witness :
  wf (run_calls demo_calls Tree_new) /\
  option_map _full_path (node_at [B "a"; B "b"] (run_calls [CSet (B "a.b") (B "1")] Tree_new)) = Some (B "a.b").
Proof.
  split; [exact (proj1 (tree_well_formed demo_calls demo_calls_wf))|].
  destruct (tree_well_formed [CSet (B "a.b") (B "1")]) as (_ & _ & H); [by repeat constructor|].
  destruct (node_at [B "a"; B "b"] (run_calls [CSet (B "a.b") (B "1")] Tree_new)) as [n|] eqn:E.
  - cbn [option_map]. rewrite (H eq_refl _ _ E). reflexivity.
  - vm_compute in E. discriminate E.
Defined.

(** A copy forgets where it is: the full paths of the children of a root begin
    with a dot. *)
Example copy_full_path :
  option_map _full_path (node_at [B "a"] (Tree_copy (run_calls [CSet (B "a") (B "1")] Tree_new))) = Some (B ".a").
Proof. reflexivity. Qed.

(** ** Set and Find *)

Lemma Find_loop_valid l t : valid l = true -> Find_loop l t = node_at l t.
Proof.
  revert t. induction l as [|c l IH]; intros t H; [done|]. destruct l as [|d l].
  - cbn. by destruct (find c (_children t)).
  - change (valid (c :: d :: l)) with
      (negb (bool_decide (c = [])) && negb (bool_decide (d :: l = [[]])) && valid (d :: l)) in H.
    apply andb_true_iff in H as [[Hc Hd]%andb_true_iff Hv]. apply negb_true_iff in Hc, Hd.
    change (Find_loop (c :: d :: l) t) with
      (if bool_decide (c = []) then None
       else match find c (_children t) with
            | None => None
            | Some child => if bool_decide (d :: l = [[]]) then None else Find_loop (d :: l) child
            end).
    rewrite Hc, node_at_cons. destruct (find c (_children t)) as [child|]; [|done]. rewrite Hd. by apply IH.
Qed.

Lemma Find_loop_invalid l t : l <> [] -> valid l = false -> Find_loop l t = None.
Proof.
  revert t. induction l as [|c l IH]; intros t Hl H; [done|]. destruct l as [|d l]; [done|].
  change (valid (c :: d :: l)) with
    (negb (bool_decide (c = [])) && negb (bool_decide (d :: l = [[]])) && valid (d :: l)) in H.
  change (Find_loop (c :: d :: l) t) with
    (if bool_decide (c = []) then None
     else match find c (_children t) with
          | None => None
          | Some child => if bool_decide (d :: l = [[]]) then None else Find_loop (d :: l) child
          end).
  destruct (bool_decide (c = [])); [done|]. destruct (find c (_children t)) as [child|]; [|done].
  destruct (bool_decide (d :: l = [[]])); [done|]. by apply IH.
Qed.

(** Set does not set what is there.  After Set of a valid path Find leads to
    a node, with the new value if there was none before and with its old value
    if there was one; Set of an invalid path gives no node and Get throws, but
    the keys before its first empty one are added; no other value changes. *)
Theorem tree_Set_keeps (path value : bytes) (t : Tree) : path <> [] ->
  let l := pieces (c_str path) in
  let t' := Set_path path value t in
  (if valid l
   then exists n, Find path t' = Some n /\
          _value n = match Find path t with Some old => _value old | None => value end
   else Find path t' = None /\ (Get path t).1 = Err (runtime_error "invalid path when creating subtree node.")) /\
  (forall q x, value_at t q = Some x -> value_at t' q = Some x) /\
  (forall q x, value_at t' q = Some x -> value_at t q = Some x \/ q = l \/ (x = [] /\ is_prefix q (good l) = true)).
Proof.
  intros Hp l t'. assert (forall q, value_at t' q = put_path path value (value_at t) q) as HV
    by (intros q; apply CreateOrSet_value_at).
  assert (forall u, Find path u = Find_loop l u) as HF by (intros u; unfold Find; by rewrite bool_decide_false).
  split; [|split].
  - destruct (valid l) eqn:Ev.
    + rewrite !HF, !Find_loop_valid by done. pose proof (HV l) as Hl. unfold put_path in Hl. fold l in Hl.
      rewrite bool_decide_false, Ev, bool_decide_true in Hl by done. cbn [andb] in Hl.
      unfold value_at in Hl. destruct (node_at l t') as [n|]; cbn in Hl.
      * exists n. split; [done|]. destruct (node_at l t); cbn in Hl; congruence.
      * by destruct (node_at l t).
    + rewrite HF. split; [apply Find_loop_invalid; [apply pieces_not_nil|done]|].
      unfold Get, CreateOrSet. rewrite bool_decide_false by done. fold l.
      destruct (CreateOrSet_loop_spec l [] t (pieces_not_nil _)) as [E _]. rewrite Ev in E.
      destruct (CreateOrSet_loop l [] t) as [u r]. cbn in E. by subst r.
  - intros q x E. rewrite HV. unfold put_path. by rewrite E.
  - intros q x. rewrite HV. unfold put_path. fold l. destruct (value_at t q) eqn:E; [by left|].
    rewrite bool_decide_false by done. right. destruct (valid l && bool_decide (q = l)) eqn:E1.
    + apply andb_true_iff in E1 as [_ E1%bool_decide_eq_true]. by left.
    + destruct (is_prefix q (good l)) eqn:E2; [|done]. right. split; [congruence|done].
Qed.

Lemma tree_Set_keeps_witness :
  let t := Set_path (B "a") (B "old") Tree_new in
  exists n, Find (B "a") (Set_path (B "a") (B "new") t) = Some n /\ _value n = B "old".
Proof.
  cbv zeta. destruct (tree_Set_keeps (B "a") (B "new") (Set_path (B "a") (B "old") Tree_new)) as [H _]; [discriminate|].
  exact H.
Defined.

(** ** Keys of siblings *)

Lemma digits_lt l k x y : length l = length k -> forallb is_digit l = true -> forallb is_digit k = true ->
  digits_value l < digits_value k -> bytes_lt (l ++ x) (k ++ y) = true.
Proof.
  revert k. induction l as [|c l IH]; intros [|d k] HL Hl Hk Hv; try discriminate HL; [cbn in Hv; lia|].
  injection HL as HL. cbn [forallb] in Hl, Hk. apply andb_true_iff in Hl as [Hc Hl], Hk as [Hd Hk].
  rewrite !digits_value_cons in Hv. cbn [app bytes_lt].
  assert (zlen l = zlen k) as EL by (unfold zlen; by rewrite HL).
  pose proof (digits_value_range l Hl) as R1. pose proof (digits_value_range k Hk) as R2. rewrite EL in *.
  unfold digit_val in *. apply orb_true_iff. destruct (Z.lt_ge_cases (code c) (code d)) as [H|H]; [left; by apply Z.ltb_lt|].
  right. assert (code c = code d) as E by nia. rewrite E, Z.eqb_refl. apply IH; try done. rewrite E in Hv. nia.
Qed.

Lemma decimal_width_spec fuel total len : 0 < total < 10 ^ Z.of_nat fuel ->
  len + 0 <= decimal_width fuel total len /\ total < 10 ^ (decimal_width fuel total len - len + 1) /\
  decimal_width fuel total len <= len + Z.of_nat fuel.
Proof.
  revert total len. induction fuel as [|f IH]; intros total len H; [cbn in H; lia|]. cbn [decimal_width].
  pose proof (Z.div_mod total 10 ltac:(lia)). pose proof (Z.mod_pos_bound total 10 ltac:(lia)).
  destruct (Z.eqb_spec (total / 10) 0) as [E|E].
  - replace (len - len + 1) with 1 by lia. lia.
  - assert (0 <= total / 10) by (apply Z.div_pos; lia).
    destruct (IH (total / 10) (len + 1)) as (W1 & W2 & W3).
    { split; [lia|]. rewrite Nat2Z.inj_succ, Z.pow_succ_r in H by lia. lia. }
    set (w := decimal_width f (total / 10) (len + 1)) in *.
    replace (w - len + 1) with (Z.succ (w - (len + 1) + 1)) by lia. rewrite Z.pow_succ_r by lia. lia.
Qed.

Lemma decimal_width_ok total : 1 < total < 2 ^ 64 ->
  1 <= decimal_width 20 total 1 <= 21 /\ total < 10 ^ decimal_width 20 total 1.
Proof.
  intros H. destruct (decimal_width_spec 20 total 1) as (H1 & H2 & H3).
  - split; [lia|]. eapply Z.lt_trans; [apply H|]. vm_compute. reflexivity.
  - replace (decimal_width 20 total 1 - 1 + 1) with (decimal_width 20 total 1) in H2 by lia. lia.
Qed.

(** The digits of a number that is small enough, padded. *)
Lemma pad0_dec_length w i : 0 <= i < 10 ^ Z.of_nat w -> (1 <= w)%nat -> length (pad0 w (dec i)) = w.
Proof.
  intros H Hw. rewrite pad0_length. assert (length (dec i) <= w)%nat; [|lia].
  destruct (decide (i = 0)) as [->|Hne]; [done|].
  destruct (dec_length_pos i ltac:(lia)) as [HL _]. unfold zlen in HL.
  assert (Z.of_nat (length (dec i)) - 1 < Z.of_nat w); [|lia].
  apply (Z.pow_lt_mono_r_iff 10); lia.
Qed.

(** Siblings of the same name keep their order.  For every number of them
    that a size_t holds, the keys of FormatDuplicatedKey fit its buffer, and a
    later sibling has a greater key, so that the tree visits them in the order
    of the document. *)
Theorem FormatDuplicatedKey_ordered (i j total : Z) : 1 < total < 2 ^ 64 -> 0 <= i < j -> j < total ->
  exists a b, FormatDuplicatedKey i total = Ok a /\ FormatDuplicatedKey j total = Ok b /\ lt a b = true.
Proof.
  intros Ht Hi Hj. destruct (decimal_width_ok total Ht) as [Hw Hlt]. unfold FormatDuplicatedKey.
  rewrite (proj2 (Z.leb_gt total 1)) by lia. set (w := decimal_width 20 total 1) in *.
  assert (forall n, 0 <= n < total -> length (pad0 (Z.to_nat w) (dec n)) = Z.to_nat w) as HL.
  { intros n Hn. apply pad0_dec_length; [rewrite Z2Nat.id|]; lia. }
  assert (forall n, 0 <= n < total ->
    (zlen ("["%char :: pad0 (Z.to_nat w) (dec n) ++ ["]"%char]) <? 32) = true) as HS.
  { intros n Hn. apply Z.ltb_lt. autorewrite with zlen. unfold zlen. rewrite HL by done. lia. }
  rewrite !HS by lia. do 2 eexists. split; [done|]. split; [done|].
  cbn [lt bytes_ordered bytes_lt]. rewrite Z.eqb_refl, Z.ltb_irrefl. cbn [orb andb].
  apply digits_lt; [by rewrite !HL by lia|apply pad0_digits, dec_digits; lia..|].
  rewrite !pad0_value, !dec_value; lia.
Qed.

Lemma FormatDuplicatedKey_ordered_witness :
  exists a b, FormatDuplicatedKey 2 11 = Ok a /\ FormatDuplicatedKey 10 11 = Ok b /\ lt a b = true /\
    a = B "[02]".
Proof.
  destruct (FormatDuplicatedKey_ordered 2 10 11) as (a & b & H1 & H2 & H3); [lia..|].
  exists a, b. split; [exact H1|]. split; [exact H2|]. split; [exact H3|].
  vm_compute in H1. injection H1 as <-. reflexivity.
Defined.
