(* ===== verification/TreeFormats.v ===== *)
(** * Trees from and to documents: types/tree_xml.cpp, tree_json.cpp, tree_cs.cpp

    The documents are what the parsers of libxml2, JsonCpp and ClearSilver
    leave in memory, as the code walks it: nodes with names, contents and
    children.  Text is not parsed or printed here, and memory does not run
    out. *)

From S2P Require Import Prelude Digits Libc StdMap Tree.

(** ** XML *)

Inductive xmlElementType : Type :=
| XML_ELEMENT_NODE
| XML_TEXT_NODE
| XML_CDATA_SECTION_NODE
| XML_OTHER_NODE.

(** [content]: what xmlNodeGetContent returns; [properties]: the attributes with
    what xmlGetProp returns. *)
Inductive xmlNode : Type := mkXml {
  name : option bytes;
  type : xmlElementType;
  content : option bytes;
  properties : list (bytes * option bytes);
  children : list xmlNode
}.

(** counts[key] *)
Definition counts (l : list xmlNode) (key : bytes) : Z :=
  zlen (List.filter (fun p => bool_decide (name p = Some key)) l).

(** The key of a child; [seen] are the children before it, which indexes[key]
    counts. *)
Definition xml_key (all seen : list xmlNode) (p : xmlNode) : result exn bytes :=
  match name p with
  | None => Ok []
  | Some k =>
      if 1 <? counts all k then
        let! d := FormatDuplicatedKey (counts seen k) (counts all k) in Ok (k ++ d)
      else Ok k
  end.

(** _children.insert: an element that is there stays. *)
Definition insert_child (key : bytes) (child : Tree) (t : Tree) : Tree :=
  match find key (_children t) with
  | Some _ => t
  | None => with_children (insert key child (_children t)) t
  end.

(** The loop over the attributes. *)
Fixpoint parse_properties (l : list (bytes * option bytes)) (t : Tree) : Tree :=
  match l with
  | [] => t
  | (k, value) :: l =>
      parse_properties l
        match value with
        | Some (c :: v) =>
            let key := "@"%char :: k in
            insert_child key (mkTree key (c :: v) (GetFullPath t key) []) t
        | _ => t
        end
  end.

(** The loop over the children, [P] being the call for a child; false: the
    early return. *)
Definition parse_xml_loop (P : xmlNode -> Tree -> result exn (bool * Tree)) (all : list xmlNode) :=
  fix loop (seen l : list xmlNode) (t : Tree) : result exn (bool * Tree) :=
    match l with
    | [] => Ok (true, t)
    | p :: l =>
        let! key := xml_key all seen p in
        match type p with
        | XML_ELEMENT_NODE =>
            if bool_decide (key = []) then Ok (false, t)
            else
              let child := mkTree key [] (GetFullPath t key) [] in
              let! (ok, child) := P p child in
              let t := insert_child key child t in
              if ok : bool then loop (seen ++ [p]) l t else Ok (false, t)
        | XML_TEXT_NODE | XML_CDATA_SECTION_NODE =>
            loop (seen ++ [p]) l (match content p with Some (c :: v) => SetValue (c :: v) t | _ => t end)
        | XML_OTHER_NODE => loop (seen ++ [p]) l t
        end
    end.

Fixpoint ParseFromXmlInternal (root : xmlNode) (t : Tree) {struct root} : result exn (bool * Tree) :=
  match root with
  | mkXml _ _ _ props l =>
      let! (ok, t) := parse_xml_loop ParseFromXmlInternal l [] l t in
      if ok : bool then Ok (true, parse_properties props t) else Ok (false, t)
  end.

(** ParseFromXml: [root] is the root element, if any. *)
Definition ParseFromXml (root : option xmlNode) (t : Tree) : result exn (bool * Tree) :=
  match root with
  | None => Ok (true, Clear t)
  | Some root => ParseFromXmlInternal root (Clear t)
  end.

(** key.resize(key.find('[')) *)
Fixpoint until_bracket (key : bytes) : bytes :=
  match key with
  | [] => []
  | c :: key => if bool_decide (c = "["%char) then [] else c :: until_bracket key
  end.

(** xmlNewTextChild and xmlNewNode *)
Definition text_node (v : bytes) : xmlNode := mkXml (Some (B "text")) XML_TEXT_NODE (Some v) [] [].
Definition element (key : bytes) (l : list xmlNode) : xmlNode := mkXml (Some key) XML_ELEMENT_NODE None [] l.

(** The loop over the children, [S] being the call for a child: the nodes added
    behind [acc], and *empty. *)
Definition serialize_xml_loop (only : bool) (S : Tree -> list xmlNode * bool) :=
  fix loop (l : list (bytes * Tree)) (acc : list xmlNode) (empty : bool) : list xmlNode * bool :=
    match l with
    | [] => (acc, empty)
    | (_, child) :: l =>
        let key := until_bracket (_key child) in
        match _children child with
        | [] =>
            if bool_decide (_value child = []) && only then loop l acc empty
            else loop l (acc ++ [element key [text_node (_value child)]]) false
        | _ =>
            let '(c, e) := S child in
            if e && only then (acc, empty)
            else loop l (acc ++ [element key c]) false
        end
    end.

Fixpoint SerializeToXmlInternal (only : bool) (t : Tree) : list xmlNode * bool :=
  match t with
  | mkTree _ _ _ l => serialize_xml_loop only (SerializeToXmlInternal only) l [] true
  end.

(** SerializeToXmlString up to the printing: the root element. *)
Definition SerializeToXml (only : bool) (root_name : bytes) (t : Tree) : option xmlNode :=
  match root_name with
  | [] => None
  | _ => Some (element root_name (SerializeToXmlInternal only t).1)
  end.

(** ** JSON *)

(** A Json::Value: a scalar with its text, or the elements of an array or object
    with their names (empty in an array). *)
Inductive json : Type :=
| Scalar (text : bytes)
| Members (l : list (bytes * json)).

Definition parse_json_loop (P : json -> Tree -> Tree) :=
  fix loop (l : list (bytes * json)) (index : Z) (t : Tree) : Tree :=
    match l with
    | [] => t
    | (name, j) :: l =>
        let '(key, index) :=
          match name with
          | [] => ("["%char :: dec index ++ ["]"%char], index + 1)
          | _ => (name, index)
          end in
        let child :=
          match j with
          | Members _ => P j (mkTree key [] (GetFullPath t key) [])
          | Scalar text => mkTree key text (GetFullPath t key) []
          end in
        loop l index (insert_child key child t)
    end.

(** It always returns true; a scalar has no elements. *)
Fixpoint ParseFromJsonInternal (j : json) (t : Tree) : Tree :=
  match j with
  | Scalar _ => t
  | Members l => parse_json_loop ParseFromJsonInternal l 0 t
  end.

Definition ParseFromJson (j : json) (t : Tree) : Tree := ParseFromJsonInternal j (Clear t).

(** ** HDF *)

(** A HDF object and those behind it: name, value, first child. *)
Inductive hdf : Type := mkHdf {
  obj_name : bytes;
  obj_value : option bytes;
  obj_children : list hdf
}.

Definition parse_hdf_loop (C : hdf -> Tree -> Tree) :=
  fix loop (l : list hdf) (t : Tree) : Tree :=
    match l with
    | [] => t
    | h :: l => loop l (insert_child (obj_name h) (C h t) t)
    end.

(** The child made for an object, under [parent]. *)
Fixpoint hdf_child (h : hdf) (parent : Tree) : Tree :=
  match h with
  | mkHdf key value sub =>
      parse_hdf_loop hdf_child sub (mkTree key (default [] value) (GetFullPath parent key) [])
  end.

Definition ParseFromHdfInternal (l : list hdf) (t : Tree) : Tree := parse_hdf_loop hdf_child l t.

(** hdf_set_value(hdf, path, value), in the order of the calls. *)
Definition serialize_hdf_loop (S : Tree -> list (bytes * bytes)) :=
  fix loop (l : list (bytes * Tree)) : list (bytes * bytes) :=
    match l with
    | [] => []
    | (_, c) :: l => S c ++ loop l
    end.

Fixpoint SerializeToHdfInternal (only : bool) (t : Tree) : list (bytes * bytes) :=
  match t with
  | mkTree _ v f l =>
      serialize_hdf_loop (SerializeToHdfInternal only) l ++
      (if bool_decide (v = []) && (negb (bool_decide (l = [])) || only) then [] else [(f, v)])
  end.

(** ** From a tree to XML and back *)

(** Trees that XML can hold: no value beside children, no key that needs a
    bracket, full paths as the parser makes them. *)
Inductive xml_tree : Tree -> Prop :=
| xml_tree_node k v f l : sorted l -> (l <> [] -> v = []) ->
    Forall (fun e : bytes * Tree => _key e.2 = e.1 /\ e.1 <> [] /\ until_bracket e.1 = e.1 /\
                   _full_path e.2 = GetFullPath (mkTree k v f l) e.1) l ->
    Forall (fun e : bytes * Tree => xml_tree e.2) l -> xml_tree (mkTree k v f l).

(** The element of a child. *)
Definition child_element (c : Tree) : xmlNode :=
  match _children c with
  | [] => element (until_bracket (_key c)) [text_node (_value c)]
  | _ => element (until_bracket (_key c)) (SerializeToXmlInternal false c).1
  end.

Lemma serialize_all l acc empty :
  (serialize_xml_loop false (SerializeToXmlInternal false) l acc empty).1 =
  acc ++ map (fun e => child_element e.2) l.
Proof.
  revert acc empty. induction l as [|[k c] l IH]; intros acc empty; cbn [serialize_xml_loop map]; [by rewrite app_nil_r|].
  unfold child_element at 1. cbn [snd]. destruct (_children c).
  - rewrite andb_false_r, IH. by rewrite <- (assoc (++)).
  - destruct (SerializeToXmlInternal false c) as [n e]. rewrite andb_false_r, IH. by rewrite <- (assoc (++)).
Qed.

Lemma serialize_children t : (SerializeToXmlInternal false t).1 = map (fun e => child_element e.2) (_children t).
Proof. destruct t as [k v f l]. apply serialize_all. Qed.

Lemma insert_last {V} (l : list (bytes * V)) k v :
  Forall (fun a => lt a k = true) (keys l) -> find k l = None /\ insert k v l = l ++ [(k, v)].
Proof.
  induction l as [|[a w] l IH]; intros H; [done|]. apply Forall_cons in H as [Ha H].
  destruct (IH H) as [H1 H2]. cbn [fst] in Ha. cbn [find insert].
  rewrite decide_False by (intros ->; by rewrite lt_irrefl in Ha).
  destruct (lt k a) eqn:E; [pose proof (lt_trans _ _ _ Ha E) as Hc; by rewrite lt_irrefl in Hc|].
  split; [done|]. by rewrite H2.
Qed.

(** A key that occurs once. *)
Lemma counts_once l k : NoDup (keys l) ->
  Forall (fun e : bytes * Tree => _key e.2 = e.1 /\ until_bracket e.1 = e.1) l -> k ∈ keys l ->
  counts (map (fun e => child_element e.2) l) k = 1.
Proof.
  intros Hd Hl Hk.
  assert (forall e, e ∈ l -> name (child_element e.2) = Some e.1) as HN.
  { intros e He. destruct (proj1 (Forall_forall _ _) Hl e He) as [E1 E2]. unfold child_element.
    rewrite E1, E2. by destruct (_children e.2). }
  clear Hl. unfold counts.
  assert (forall l, (forall e, e ∈ l -> name (child_element e.2) = Some e.1) -> NoDup (keys l) ->
    zlen (List.filter (fun p => bool_decide (name p = Some k)) (map (fun e => child_element e.2) l)) =
    if decide (k ∈ keys l) then 1 else 0) as H.
  { clear. induction l as [|[a c] l IH]; intros HN Hd.
    - cbn. rewrite decide_False; [done|]. apply not_elem_of_nil.
    - inversion Hd as [|? ? Ha Hd']; subst. cbn [map List.filter snd].
      pose proof (HN (a, c) ltac:(by left)) as E0. cbn [fst snd] in E0. rewrite E0.
      specialize (IH ltac:(intros e He; apply HN; by right) Hd').
      destruct (decide (a = k)) as [->|Hne].
      + rewrite bool_decide_true by done. rewrite zlen_cons, IH.
        rewrite decide_False by done. rewrite decide_True; [done|]. by left.
      + rewrite bool_decide_false by congruence. rewrite IH. cbn [keys map fst].
        destruct (decide (k ∈ keys l)); [rewrite decide_True; [done|by right]|].
        rewrite decide_False; [done|]. intros [?|?]%elem_of_cons; [congruence|by auto]. }
  rewrite H by done. by rewrite decide_True.
Qed.

Lemma until_bracket_idem k : until_bracket (until_bracket k) = until_bracket k.
Proof. induction k as [|c k IH]; [done|]. cbn. case_bool_decide; [done|]. cbn. by rewrite bool_decide_false, IH. Qed.

Lemma sorted_app_lt {V} (l1 l2 : list (bytes * V)) k v : sorted (l1 ++ (k, v) :: l2) ->
  Forall (fun a => lt a k = true) (keys l1) /\ sorted ((l1 ++ [(k, v)]) ++ l2).
Proof.
  intros H. split; [|by rewrite <- (assoc (++))]. unfold sorted, keys in *. rewrite map_app in H.
  induction l1 as [|[a w] l1 IH]; [constructor|]. cbn [map app] in *.
  inversion H as [|? ? H1 H2]; subst. constructor; [|by apply IH].
  apply Forall_app in H2 as [_ H2]. by apply Forall_inv in H2.
Qed.

(** The children after [l1] are read back behind it. *)
Lemma parse_xml_loop_back k v f l2 l1 : sorted (l1 ++ l2) ->
  Forall (fun e : bytes * Tree => _key e.2 = e.1 /\ e.1 <> [] /\ until_bracket e.1 = e.1 /\
                 _full_path e.2 = GetFullPath (mkTree k v f []) e.1) (l1 ++ l2) ->
  Forall (fun e : bytes * Tree => ParseFromXmlInternal (child_element e.2) (mkTree (_key e.2) [] (_full_path e.2) []) =
                                  Ok (true, e.2)) l2 ->
  let all := map (fun e : bytes * Tree => child_element e.2) (l1 ++ l2) in
  parse_xml_loop ParseFromXmlInternal all (map (fun e : bytes * Tree => child_element e.2) l1)
    (map (fun e : bytes * Tree => child_element e.2) l2) (mkTree k v f l1) = Ok (true, mkTree k v f (l1 ++ l2)).
Proof.
  revert l1. induction l2 as [|[a c] l2 IH]; intros l1 Hs Hf HP all; [by rewrite app_nil_r|].
  apply Forall_cons in HP as [Hc HP]. cbn [snd] in Hc.
  assert (_key c = a /\ a <> [] /\ until_bracket a = a /\ _full_path c = GetFullPath (mkTree k v f []) a)
    as (Ek & Ha & Eb & Ep).
  { apply Forall_app in Hf as [_ Hf]. by apply Forall_inv in Hf. }
  assert (name (child_element c) = Some a /\ type (child_element c) = XML_ELEMENT_NODE) as [En Et].
  { unfold child_element. rewrite Ek, Eb. by destruct (_children c). }
  destruct (sorted_app_lt l1 l2 a c Hs) as [Hlt Hs'].
  destruct (insert_last l1 a c Hlt) as [HN HI].
  cbn [map parse_xml_loop snd]. unfold xml_key. rewrite En, Et.
  assert (counts all a = 1) as ->.
  { apply counts_once; [by apply sorted_NoDup| |].
    - eapply Forall_impl; [exact Hf|]. by intros e (H1 & _ & H2 & _).
    - unfold keys. rewrite map_app. apply elem_of_app. right. by left. }
  cbn [Z.ltb Z.compare rbind]. change (1 <? 1) with false. cbn [rbind].
  rewrite bool_decide_false by done. change (GetFullPath (mkTree k v f l1) a) with (GetFullPath (mkTree k v f []) a).
  rewrite <- Ep, <- Ek, Hc, Ek. cbn [rbind]. unfold insert_child. cbn [_children]. rewrite HN.
  unfold with_children. cbn [_key _value _full_path]. rewrite HI.
  specialize (IH (l1 ++ [(a, c)]) Hs'). cbv zeta in IH.
  replace ((l1 ++ [(a, c)]) ++ l2) with (l1 ++ (a, c) :: l2) in IH by by rewrite <- (assoc (++)).
  rewrite (map_app _ l1 [(a, c)]) in IH. by apply IH.
Qed.

Lemma parse_serialized t nm : xml_tree t ->
  ParseFromXmlInternal (element nm (SerializeToXmlInternal false t).1) (mkTree (_key t) [] (_full_path t) []) =
  Ok (true, mkTree (_key t) [] (_full_path t) (_children t)).
Proof.
  revert nm. induction t as [k v f l IH] using tree_induction. intros nm Ht.
  inversion Ht as [? ? ? ? Hs Hv Hf Hc]; subst. rewrite serialize_children. cbn [_key _value _full_path _children].
  unfold element. cbn [ParseFromXmlInternal]. pose proof (parse_xml_loop_back k [] f l [] Hs) as HB. cbn [app map] in HB. rewrite HB; [done| |].
  - eapply Forall_impl; [exact Hf|]. done.
  - apply Forall_forall. intros [a c] Hin. cbn [snd].
    pose proof (proj1 (Forall_forall _ _) IH _ Hin) as IHc. pose proof (proj1 (Forall_forall _ _) Hc _ Hin) as Hxc.
    cbn [snd] in *. unfold child_element. destruct (_children c) as [|e0 l0] eqn:El.
    + destruct c as [ck cv cf cl]. cbn in El. subst cl. cbn. by destruct cv.
    + rewrite (IHc _ Hxc). destruct c as [ck cv cf cl]. cbn in *. inversion Hxc as [? ? ? ? _ Hv0 _ _]; subst.
      by rewrite Hv0.
Qed.

(** Every leaf has a value. *)
Inductive valued : Tree -> Prop :=
| valued_node k v f l : (l = [] -> v <> []) -> Forall (fun e : bytes * Tree => valued e.2) l -> valued (mkTree k v f l).

(** Then only_nodes_with_value leaves nothing out. *)
Lemma serialize_valued_loop l acc empty :
  Forall (fun e : bytes * Tree => valued e.2) l ->
  Forall (fun e : bytes * Tree => _children e.2 <> [] ->
            SerializeToXmlInternal true e.2 = ((SerializeToXmlInternal false e.2).1, false)) l ->
  serialize_xml_loop true (SerializeToXmlInternal true) l acc empty =
  ((serialize_xml_loop false (SerializeToXmlInternal false) l acc empty).1, match l with [] => empty | _ => false end).
Proof.
  revert acc empty. induction l as [|[k c] l IH]; intros acc empty Hv HS; cbn [serialize_xml_loop]; [done|].
  apply Forall_cons in Hv as [Hc Hv]. apply Forall_cons in HS as [HSc HS]. cbn [snd] in *.
  destruct (_children c) as [|e0 l0] eqn:El.
  - inversion Hc as [? v ? ? Hne ?]; subst c. cbn [_children _value] in *. rewrite (bool_decide_false _ (Hne El)). cbn [andb].
    rewrite IH by done. by destruct l.
  - rewrite HSc by done. destruct (SerializeToXmlInternal false c) as [n e]. cbn [fst andb].
    rewrite andb_false_r, IH by done. by destruct l.
Qed.

Lemma serialize_valued t : Forall (fun e : bytes * Tree => valued e.2) (_children t) ->
  SerializeToXmlInternal true t =
  ((SerializeToXmlInternal false t).1, match _children t with [] => true | _ => false end).
Proof.
  induction t as [k v f l IH] using tree_induction. cbn [_children SerializeToXmlInternal]. intros Hl.
  rewrite serialize_valued_loop; [done|done|]. apply Forall_forall. intros e He Hc.
  rewrite (proj1 (Forall_forall _ _) IH e He); [by destruct (_children e.2)|].
  pose proof (proj1 (Forall_forall _ _) Hl e He) as Hv. by inversion Hv.
Qed.


Definition demo_tree : Tree :=
  run_calls [CSet (B "a.x") (B "1"); CSet (B "a.y") []; CSet (B "b") (B "2")] Tree_new.

Definition demo_valued : Tree :=
  run_calls [CSet (B "a.x") (B "1"); CSet (B "b") (B "2")] Tree_new.


(** With only_nodes_with_value a branch without values ends the loop over its
    siblings: those after it are lost. *)
Example empty_branch_hides_siblings :
  let t := run_calls [CSet (B "a.x") []; CSet (B "b") (B "2")] Tree_new in
  SerializeToXmlInternal true t = ([], true) /\ value_at t [B "b"] = Some (B "2").
Proof. by split. Qed.

(** ** The values of JSON and HDF *)

(** Children put in one after the other: the first of a key stays. *)
Definition insert_all (l : list (bytes * Tree)) (t : Tree) : Tree :=
  fold_left (fun t e => insert_child e.1 e.2 t) l t.

Lemma insert_all_find l t k : find k (_children (insert_all l t)) =
  match find k (_children t) with Some c => Some c | None => find k l end.
Proof.
  revert t. induction l as [|[a c] l IH]; intros t; cbn [insert_all fold_left fst snd].
  - cbn. by destruct (find k (_children t)).
  - change (fold_left _ l ?t) with (insert_all l t). rewrite IH. unfold insert_child.
    destruct (find a (_children t)) as [c'|] eqn:Ea; cbn [find].
    + destruct (find k (_children t)) eqn:Ek; [done|]. rewrite decide_False; [done|]. congruence.
    + cbn [_children with_children]. destruct (decide (a = k)) as [->|Hne].
      * by rewrite find_insert_here, Ea.
      * by rewrite find_insert_ne.
Qed.

Lemma insert_all_frame l t : _key (insert_all l t) = _key t /\ _value (insert_all l t) = _value t /\
  _full_path (insert_all l t) = _full_path t.
Proof.
  revert t. induction l as [|[a c] l IH]; intros t; [done|].
  change (insert_all ((a, c) :: l) t) with (insert_all l (insert_child a c t)).
  destruct (IH (insert_child a c t)) as (-> & -> & ->). unfold insert_child.
  by destruct (find a (_children t)).
Qed.

(** The elements under the keys that the parser gives them. *)
Fixpoint keyed (l : list (bytes * json)) (index : Z) : list (bytes * json) :=
  match l with
  | [] => []
  | ([], j) :: l => ("["%char :: dec index ++ ["]"%char], j) :: keyed l (index + 1)
  | (n, j) :: l => (n, j) :: keyed l index
  end.

Definition json_child (fp : bytes) (e : bytes * json) : bytes * Tree :=
  let t := mkTree e.1 (match e.2 with Scalar v => v | Members _ => [] end)
             (GetFullPath (mkTree [] [] fp []) e.1) [] in
  (e.1, match e.2 with Members _ => ParseFromJsonInternal e.2 t | Scalar _ => t end).

Lemma insert_child_path k c t : _full_path (insert_child k c t) = _full_path t.
Proof. unfold insert_child. by destruct (find k (_children t)). Qed.

Lemma parse_json_loop_all l index t :
  parse_json_loop ParseFromJsonInternal l index t = insert_all (map (json_child (_full_path t)) (keyed l index)) t.
Proof.
  revert index t. induction l as [|[n j] l IH]; intros index t; [done|]. cbn [parse_json_loop keyed].
  destruct n as [|c n]; cbn [map insert_all fold_left]; rewrite IH, insert_child_path; unfold json_child at 2; cbn [fst snd];
    change (GetFullPath (mkTree [] [] (_full_path t) [])) with (GetFullPath t); by destruct j.
Qed.

(** The value of a document under a list of keys; a scalar's is its text. *)
Fixpoint json_at (q : list bytes) (j : json) : option bytes :=
  match q, j with
  | [], Scalar v => Some v
  | [], Members _ => Some []
  | k :: q, Scalar _ => None
  | k :: q, Members l => match find k (keyed l 0) with Some j => json_at q j | None => None end
  end.

Lemma find_map {V W} (f : bytes * V -> bytes * W) l k : (forall e, (f e).1 = e.1) ->
  find k (map f l) = match find k l with Some v => Some (f (k, v)).2 | None => None end.
Proof.
  intros H. induction l as [|[a v] l IH]; [done|]. cbn [map find]. pose proof (H (a, v)) as Ha.
  destruct (f (a, v)) as [b w] eqn:Ef. cbn in Ha. subst b. cbn [find].
  destruct (decide (a = k)) as [->|]; [by rewrite Ef|done].
Qed.

(** What ParseFromJson leaves is what the document holds. *)
Lemma ParseFromJson_value_at l t q :
  value_at (ParseFromJson (Members l) t) q = json_at q (Members l).
Proof.
  unfold ParseFromJson. cut (forall q l t, _children t = [] -> _value t = [] ->
    value_at (ParseFromJsonInternal (Members l) t) q = json_at q (Members l)); [auto|]. clear.
  induction q as [|k q IH]; intros l t Hc Hv; cbn [ParseFromJsonInternal]; rewrite parse_json_loop_all.
  - rewrite value_at_nil. destruct (insert_all_frame (map (json_child (_full_path t)) (keyed l 0)) t) as (_ & -> & _).
    by rewrite Hv.
  - rewrite value_at_cons, insert_all_find, Hc. cbn [find json_at]. rewrite find_map by done.
    destruct (find k (keyed l 0)) as [[v|l']|]; [|by apply IH|done].
    unfold json_child. cbn [snd fst]. rewrite value_at_leaf. by destruct q.
Qed.

(** *** HDF *)

Fixpoint hdf_at (q : list bytes) (l : list hdf) : option bytes :=
  match q with
  | [] => None
  | k :: q =>
      match find k (map (fun h => (obj_name h, h)) l) with
      | Some h => match q with [] => Some (default [] (obj_value h)) | _ => hdf_at q (obj_children h) end
      | None => None
      end
  end.

Lemma GetFullPath_of t t' k : _full_path t = _full_path t' -> GetFullPath t k = GetFullPath t' k.
Proof. unfold GetFullPath. by intros ->. Qed.

Lemma hdf_child_of h t t' : _full_path t = _full_path t' -> hdf_child h t = hdf_child h t'.
Proof. destruct h as [n v sub]. intros H. cbn [hdf_child]. by rewrite (GetFullPath_of t t'). Qed.

Lemma parse_hdf_loop_all l t :
  parse_hdf_loop hdf_child l t = insert_all (map (fun h => (obj_name h, hdf_child h t)) l) t.
Proof.
  enough (forall p, _full_path p = _full_path t ->
    parse_hdf_loop hdf_child l t = insert_all (map (fun h => (obj_name h, hdf_child h p)) l) t) as H by by apply H.
  revert t. induction l as [|h l IH]; intros t p Hp; [done|]. cbn [parse_hdf_loop map insert_all fold_left fst snd].
  rewrite (hdf_child_of h t p) by done. apply (IH _ p). by rewrite insert_child_path.
Qed.

Lemma ParseFromHdf_value_at q l t : _children t = [] -> q <> [] ->
  value_at (ParseFromHdfInternal l t) q = hdf_at q l.
Proof.
  revert l t. induction q as [|k q IH]; intros l t Hc Hq; [done|]. unfold ParseFromHdfInternal.
  rewrite parse_hdf_loop_all, value_at_cons, insert_all_find, Hc. cbn [find hdf_at].
  assert (find k (map (fun h => (obj_name h, hdf_child h t)) l) =
          match find k (map (fun h => (obj_name h, h)) l) with Some h => Some (hdf_child h t) | None => None end) as ->.
  { clear. induction l as [|h l IH]; [done|]. cbn [map find]. by destruct (decide (obj_name h = k)). }
  destruct (find k (map (fun h => (obj_name h, h)) l)) as [[n v sub]|]; [|done]. cbn [obj_value obj_children hdf_child].
  destruct q as [|k' q].
  - rewrite value_at_nil, parse_hdf_loop_all. by destruct (insert_all_frame (map (fun h => (obj_name h, hdf_child h (mkTree n (default [] v) (GetFullPath t n) []))) sub) (mkTree n (default [] v) (GetFullPath t n) [])) as (_ & -> & _).
  - by apply IH.
Qed.
