(* ===== verification/ExceptionMonad.v ===== *)
(** * Programs with a state and exceptions

    [XT S E A]: a program on a state of type [S] that returns an [A] or throws
    an [E]; what it did to the state before it threw stays done.  [ends m s Q]:
    started in [s], [m] ends with a result and a state of which [Q] holds. *)

From S2P Require Import Prelude.

Section ExceptionMonad.
Context {S E : Type}.

Definition XT (A : Type) : Type := S -> result E A * S.
Definition ret {A : Type} (a : A) : XT A := fun s => (Ok a, s).
Definition bind {A C : Type} (m : XT A) (k : A -> XT C) : XT C :=
  fun s => match m s with (Ok a, s) => k a s | (Err e, s) => (Err e, s) end.
Definition throw {A : Type} (e : E) : XT A := fun s => (Err e, s).
Definition gets {A : Type} (f : S -> A) : XT A := fun s => (Ok (f s), s).
Definition modify (f : S -> S) : XT unit := fun s => (Ok tt, f s).

(** try { m } catch (e) { h(e) } *)
Definition catch {A : Type} (m : XT A) (h : E -> XT A) : XT A :=
  fun s => match m s with (Ok a, s) => (Ok a, s) | (Err e, s) => h e s end.

Definition ends {A : Type} (m : XT A) (s : S) (Q : result E A -> S -> Prop) : Prop := Q (m s).1 (m s).2.

Lemma ends_bind {A C} (m : XT A) (k : A -> XT C) s Q :
  ends m s (fun r s => match r with Ok a => ends (k a) s Q | Err e => Q (Err e) s end) -> ends (bind m k) s Q.
Proof. unfold ends, bind. by destruct (m s) as [[a|e] s']. Qed.

Lemma ends_catch {A} (m : XT A) h s Q :
  ends m s (fun r s => match r with Ok a => Q (Ok a) s | Err e => ends (h e) s Q end) -> ends (catch m h) s Q.
Proof. unfold ends, catch. by destruct (m s) as [[a|e] s']. Qed.

Lemma ends_mono {A} (m : XT A) s (P Q : result E A -> S -> Prop) :
  ends m s P -> (forall r s', P r s' -> Q r s') -> ends m s Q.
Proof. unfold ends. auto. Qed.

Lemma ends_ret {A} (a : A) s (Q : result E A -> S -> Prop) : Q (Ok a) s -> ends (ret a) s Q.
Proof. done. Qed.

Lemma ends_throw {A} (e : E) s (Q : result E A -> S -> Prop) : Q (Err e) s -> ends (throw e) s Q.
Proof. done. Qed.

Lemma ends_gets {A} (f : S -> A) s (Q : result E A -> S -> Prop) : Q (Ok (f s)) s -> ends (gets f) s Q.
Proof. done. Qed.

Lemma ends_modify f s (Q : result E unit -> S -> Prop) : Q (Ok tt) (f s) -> ends (modify f) s Q.
Proof. done. Qed.

Lemma bind_assoc {A C D} (m : XT A) (k : A -> XT C) (l : C -> XT D) s :
  bind (bind m k) l s = bind m (fun a => bind (k a) l) s.
Proof. unfold bind. by destruct (m s) as [[a|e] s']. Qed.

Lemma bind_same {A C} (m : XT A) (k k' : A -> XT C) s :
  (forall a s', k a s' = k' a s') -> bind m k s = bind m k' s.
Proof. intros H. unfold bind. destruct (m s) as [[a|e] s']; auto. Qed.

End ExceptionMonad.
Arguments XT : clear implicits.

Notation "'let*' x ':=' m 'in' k" := (bind m (fun x => k))
  (at level 10, x pattern, m at level 100, k at level 200) : flinter_scope.
Notation "m ';;;' k" := (bind m (fun _ => k))
  (at level 100, k at level 200, right associativity) : flinter_scope.

(** One step of a program: the rule for its first instruction. *)
Ltac ends1 :=
  lazymatch goal with
  | |- ends (bind _ _) _ _ => apply ends_bind
  | |- ends (catch _ _) _ _ => apply ends_catch
  | |- ends (ret _) _ _ => apply ends_ret
  | |- ends (throw _) _ _ => apply ends_throw
  | |- ends (gets _) _ _ => apply ends_gets
  | |- ends (modify _) _ _ => apply ends_modify
  end.
