(* ===== verification/Cgi.v ===== *)
(** * A request's handler: fastcgi/cgi.cpp

    The handler collects headers and the body and sends them to the web
    server: [CGI] is the state of one handler together with what was sent,
    programs on it can throw.  What the application's class does in [Run] and
    in its filters is a list of [action]s, the methods it may call.

    ClearSilver's [neos_strip], the writes of [cgiwrap_write] and the printed
    dates come from outside. *)

From S2P Require Import Prelude Digits Libc StdMap ExceptionMonad.

(** ** Status codes: fastcgi/http_status_codes.cpp *)

Definition kHttpStatusCodes : list (Z * bytes) :=
  [(100, B "Continue"); (101, B "Switching Protocols"); (102, B "Processing");
   (200, B "OK"); (201, B "Created"); (202, B "Accepted"); (203, B "Non-Authoritative Information");
   (204, B "No Content"); (205, B "Reset Content"); (206, B "Partial Content"); (207, B "Multi-Status");
   (208, B "Already Reported"); (226, B "IM Used");
   (300, B "Multiple Choises"); (301, B "Moved Permanently"); (302, B "Found"); (303, B "See Other");
   (304, B "Not Modified"); (305, B "Use Proxy"); (306, B "Switch Proxy"); (307, B "Temporary Redirect");
   (308, B "Permanent Redirect");
   (400, B "Bad Request"); (401, B "Unauthorized"); (402, B "Payment Required"); (403, B "Forbidden");
   (404, B "Not Found"); (405, B "Method Not Allowed"); (406, B "Not Acceptable");
   (407, B "Proxy Authentication Required"); (408, B "Request Timeout"); (409, B "Conflict"); (410, B "Gone");
   (411, B "Length Required"); (412, B "Precondition Failed"); (413, B "Request Entity Too Large");
   (414, B "Request-URI Too Long"); (415, B "Unsupported Media Type"); (416, B "Requested Range Not Satisfiable");
   (417, B "Expectation Failed"); (419, B "Authentication Timeout"); (422, B "Unprocessable Entity");
   (423, B "Locked"); (424, B "Failed Dependency"); (425, B "Unordered Collection"); (426, B "Upgrade Required");
   (428, B "Precondition Required"); (429, B "Too Many Requests"); (431, B "Request Header Fields Too Large");
   (451, B "Unavailable For Legal Reasons");
   (500, B "Internal Server Error"); (501, B "Not Implemented"); (502, B "Bad Gateway");
   (503, B "Service Unavailable"); (504, B "Gateway Timeout"); (505, B "HTTP Version Not Supported");
   (506, B "Variant Also Negotiates"); (507, B "Insufficient Storage"); (508, B "Loop Detected");
   (510, B "Not Extended"); (511, B "Network Authentication Required")].

(** ** The state of a handler *)

(** What can be thrown: HttpException with its status code, the exception of
    End, and all others. *)
Inductive thrown : Type :=
| HttpException (status_code : Z)
| EndException
| Exception (e : exn).

(** The connection with the web server: what was sent, and how the next writes
    go ([Some n]: an error behind [n] bytes; at the end of the list all
    succeed). *)
Record wire : Type := mkWire { sent : bytes; writes : list (option nat) }.

Record CGI : Type := mkCGI {
  _headers : list (bytes * bytes);
  _buffered_body : bytes;
  _request_handled : bool;
  _header_sent : bool;
  _body_sent : bool;
  _buffered : bool;
  _status : Z;
  badbit : bool; (** of the stream BODY *)
  out : wire
}.

Definition CGI_new (w : wire) : CGI := mkCGI [] [] false false false true 200 false w.

Abbreviation M := (XT CGI thrown).

Definition set_headers (h : list (bytes * bytes)) : M unit := modify (fun s =>
  mkCGI h (_buffered_body s) (_request_handled s) (_header_sent s) (_body_sent s) (_buffered s) (_status s) (badbit s) (out s)).
Definition set_buffered_body (b : bytes) : M unit := modify (fun s =>
  mkCGI (_headers s) b (_request_handled s) (_header_sent s) (_body_sent s) (_buffered s) (_status s) (badbit s) (out s)).
Definition set_request_handled (b : bool) : M unit := modify (fun s =>
  mkCGI (_headers s) (_buffered_body s) b (_header_sent s) (_body_sent s) (_buffered s) (_status s) (badbit s) (out s)).
Definition set_header_sent (b : bool) : M unit := modify (fun s =>
  mkCGI (_headers s) (_buffered_body s) (_request_handled s) b (_body_sent s) (_buffered s) (_status s) (badbit s) (out s)).
Definition set_body_sent (b : bool) : M unit := modify (fun s =>
  mkCGI (_headers s) (_buffered_body s) (_request_handled s) (_header_sent s) b (_buffered s) (_status s) (badbit s) (out s)).
Definition set_buffered (b : bool) : M unit := modify (fun s =>
  mkCGI (_headers s) (_buffered_body s) (_request_handled s) (_header_sent s) (_body_sent s) b (_status s) (badbit s) (out s)).
Definition set_status (n : Z) : M unit := modify (fun s =>
  mkCGI (_headers s) (_buffered_body s) (_request_handled s) (_header_sent s) (_body_sent s) (_buffered s) n (badbit s) (out s)).
Definition set_badbit (b : bool) : M unit := modify (fun s =>
  mkCGI (_headers s) (_buffered_body s) (_request_handled s) (_header_sent s) (_body_sent s) (_buffered s) (_status s) b (out s)).
Definition set_out (w : wire) : M unit := modify (fun s =>
  mkCGI (_headers s) (_buffered_body s) (_request_handled s) (_header_sent s) (_body_sent s) (_buffered s) (_status s) (badbit s) w).

Definition nl : ascii := chr 10.

Section CGI.

(** neos_strip: the text without the blanks around it. *)
Context (neos_strip : bytes -> bytes).

(** ** Sending *)

Definition kMaximum : Z := INT_MAX / 2.

(** cgiwrap_write, and ThrowIfNeoError of what it returns. *)
Definition cgiwrap_write (b : bytes) : M unit :=
  let* w := gets out in
  match writes w with
  | Some n :: l => set_out (mkWire (sent w ++ take n b) l) ;;; throw (HttpException 400)
  | None :: l => set_out (mkWire (sent w ++ b) l)
  | [] => set_out (mkWire (sent w ++ b) [])
  end.

Fixpoint RealOutput_loop (fuel : nat) (what : bytes) : M unit :=
  if kMaximum <? zlen what then
    match fuel with
    | O => throw (Exception out_of_fuel)
    | S f => cgiwrap_write (take (Z.to_nat kMaximum) what) ;;; RealOutput_loop f (drop (Z.to_nat kMaximum) what)
    end
  else cgiwrap_write what.

Definition RealOutput (what : bytes) : M unit := RealOutput_loop (Z.to_nat (zlen what / kMaximum)) what.

(** RealOutputV: the printed text goes in one write. *)
Definition RealOutputV (text : bytes) : M unit := cgiwrap_write text.

(** ** Headers *)

Definition kForbiddenHeaders : list bytes :=
  [B "status"; B "location"; B "set-cookie"; B "content-type"; B "content-length"; B "transfer-encoding"].

Definition kForbiddenCookies : list bytes := [B "path"; B "domain"; B "expires"; B "max-age"].

Definition IsForbiddenToken (key : bytes) (array : list bytes) : bool :=
  let k := map tolower (neos_strip (c_str key)) in
  existsb (fun hay => bool_decide (k = hay)) array.

Definition IsForbiddenHeader (key : bytes) : bool := IsForbiddenToken key kForbiddenHeaders.
Definition IsForbiddenCookie (key : bytes) : bool := IsForbiddenToken key kForbiddenCookies.

Definition SetHeaderInternal (key value : bytes) (allow_duplicate : bool) : M unit :=
  let* header_sent := gets _header_sent in
  if (header_sent : bool) then throw (Exception (logic_error "trying to set header after body"))
  else
    let* h := gets _headers in
    match value with
    | [] => set_headers (filter (fun e => e.1 <> key) h)
    | _ =>
        match find key h with
        | Some _ => if allow_duplicate then set_headers (insert key value h) else set_headers (assign key value h)
        | None => set_headers (insert key value h)
        end
    end.

Definition SetHeader (key value : bytes) : M unit :=
  if bool_decide (key = []) || IsForbiddenHeader key then ret tt else SetHeaderInternal key value false.

Definition Redirect (url : bytes) (moved_permanently : bool) : M unit :=
  SetHeaderInternal (B "Location") url false ;;; set_status (if moved_permanently then 301 else 302).

Definition SetContentType (type charset : bytes) : M unit :=
  if bool_decide (charset = []) then SetHeaderInternal (B "Content-Type") type false
  else SetHeaderInternal (B "Content-Type") (type ++ B "; charset=" ++ charset) false.

Definition SetStatusCode (status : Z) : M unit :=
  match find status kHttpStatusCodes with
  | None => throw (Exception (out_of_range "HTTP status code out of range"))
  | Some _ => set_status status
  end.

(** The value of a cookie's header; [expires]: the printed time at which it
    ends, [max_age] from now. *)
Definition cookie (key value : bytes) (max_age : Z) (expires path domain flags : bytes) : bytes :=
  key ++ B "=" ++ value
  ++ (if max_age =? 0 then [] else B "; max-age=" ++ dec_signed max_age ++ B "; expires=" ++ expires)
  ++ B "; path=" ++ (if bool_decide (path = []) then B "/" else path)
  ++ (if bool_decide (domain = []) then [] else B "; domain=" ++ domain)
  ++ (if bool_decide (flags = []) then [] else B "; " ++ flags).

Definition SetCookie (key value : bytes) (max_age : Z) (expires path domain flags : bytes) : M unit :=
  if bool_decide (key = []) || IsForbiddenCookie key then ret tt
  else SetHeaderInternal (B "Set-Cookie") (cookie key value max_age expires path domain flags) true.

Definition RemoveCookie (key expires path domain : bytes) : M unit :=
  SetCookie key (B "deleted") (-31536001) expires path domain [].

Definition OutputStatusHeader : M unit :=
  let* status := gets _status in
  match find status kHttpStatusCodes with
  | None => throw (Exception undefined_behaviour)
  | Some str => RealOutput (B "Status: " ++ dec_signed status ++ B " " ++ str ++ [nl])
  end.

Fixpoint OutputHeaders_loop (h : list (bytes * bytes)) : M unit :=
  match h with
  | [] => ret tt
  | (k, v) :: h => RealOutput (c_str k ++ B ": " ++ v ++ [nl]) ;;; OutputHeaders_loop h
  end.

Definition OutputHeaders : M unit :=
  let* header_sent := gets _header_sent in
  if (header_sent : bool) then ret tt
  else
    set_header_sent true ;;;
    OutputStatusHeader ;;;
    let* h := gets _headers in
    OutputHeaders_loop h ;;;
    RealOutput [nl].

(** ** The body *)

Definition OutputBody (body : bytes) : M unit :=
  if bool_decide (body = []) then ret tt
  else
    let* buffered := gets _buffered in
    if (buffered : bool) then let* b := gets _buffered_body in set_buffered_body (b ++ body)
    else OutputHeaders ;;; set_body_sent true ;;; RealOutput body.

(** OutputBodyV of a format that is not empty and prints [text]; [args]: it
    takes arguments from the list, which the first vsnprintf has used up. *)
Definition OutputBodyV (args : bool) (text : bytes) : M unit :=
  let* buffered := gets _buffered in
  if (buffered : bool) then
    if INT_MAX <? zlen text then throw (Exception (runtime_error "vsnprintf(3)"))
    else if zlen text =? 0 then ret tt
    else if zlen text <? 8192 then OutputBody text
    else if args then throw (Exception undefined_behaviour)
    else OutputBody text
  else OutputHeaders ;;; set_body_sent true ;;; RealOutputV text.

Definition OutputBodyF (fmt_empty args : bool) (text : bytes) : M unit :=
  if fmt_empty then ret tt else OutputBodyV args text.

(** BODY << text: the stream catches what OutputBody throws, and is bad from
    then on. *)
Definition stream (text : bytes) : M unit :=
  let* bad := gets badbit in
  if (bad : bool) then ret tt else
    catch (OutputBody text) (fun e => match e with Exception undefined_behaviour => throw e | _ => set_badbit true end).

Definition FlushBody : M unit :=
  let* buffered_body := gets _buffered_body in
  if bool_decide (buffered_body = []) then OutputHeaders
  else
    let* handled := gets _request_handled in
    let* header_sent := gets _header_sent in
    (if (handled : bool) then
       if (header_sent : bool) then ret tt else SetHeaderInternal (B "Content-Length") (dec (zlen buffered_body)) false
     else
       if (header_sent : bool) then ret tt else SetHeaderInternal (B "Transfer-Encoding") (B "chunked") false) ;;;
    set_buffered_body [] ;;;
    OutputHeaders ;;;
    set_body_sent true ;;;
    RealOutput buffered_body.

Definition SetBodyBuffered (b : bool) : M unit :=
  set_buffered b ;;; (if b then ret tt else FlushBody).

(** ** What an application does *)

Inductive action : Type :=
| ASetHeader (key value : bytes)
| ASetContentType (type charset : bytes)
| ASetStatusCode (status : Z)
| ARedirect (url : bytes) (moved_permanently : bool)
| ASetCookie (key value : bytes) (max_age : Z) (expires path domain flags : bytes)
| ARemoveCookie (key expires path domain : bytes)
| ASetBodyBuffered (buffered : bool)
| AOutputBody (body : bytes)
| AOutputBodyF (fmt_empty args : bool) (text : bytes)
| AStream (text : bytes)
| AEnd
| AThrow (e : thrown).

Definition exec (a : action) : M unit :=
  match a with
  | ASetHeader k v => SetHeader k v
  | ASetContentType t c => SetContentType t c
  | ASetStatusCode n => SetStatusCode n
  | ARedirect u m => Redirect u m
  | ASetCookie k v m e p d f => SetCookie k v m e p d f
  | ARemoveCookie k e p d => RemoveCookie k e p d
  | ASetBodyBuffered b => SetBodyBuffered b
  | AOutputBody b => OutputBody b
  | AOutputBodyF f a t => OutputBodyF f a t
  | AStream t => stream t
  | AEnd => throw EndException
  | AThrow e => throw e
  end.

Fixpoint exec_all (l : list action) : M unit :=
  match l with [] => ret tt | a :: l => exec a ;;; exec_all l end.

(** ** Filters and the request *)

Inductive Result : Type := kResultPass | kResultFail | kResultBreak | kResultNext.

(** A filter: what its Process does for the request, and returns. *)
Definition filter_t : Type := list action * Result.

Definition fails (r : Result) : bool := match r with kResultFail | kResultNext => true | _ => false end.
Definition stops (r : Result) : bool := match r with kResultFail | kResultBreak => true | _ => false end.

Fixpoint run_filters (l : list filter_t) (ready : bool) : M bool :=
  match l with
  | [] => ret ready
  | (acts, r) :: l =>
      exec_all acts ;;;
      let ready := if fails r then false else ready in
      if stops r then ret ready else run_filters l ready
  end.

Definition ProcessRequest (filters : list filter_t) (Run : list action) : M bool :=
  catch (let* ready := run_filters filters true in if (ready : bool) then exec_all Run else ret tt)
        (fun e => match e with EndException => ret tt | _ => throw e end) ;;;
  set_request_handled true ;;;
  FlushBody ;;;
  ret true.

End CGI.
