(* ===== verification/CgiFacts.v ===== *)
(** * Theorems about a request's handler

    What a handler sends is one block of headers and the body behind it,
    whatever the application's class does. *)

From S2P Require Import Prelude Digits Libc StdMap ExceptionMonad Cgi.

(** ** The response *)

Definition header_line (e : bytes * bytes) : bytes := c_str e.1 ++ B ": " ++ e.2 ++ [nl].

(** The block of headers. *)
Definition head (hs : list (bytes * bytes)) (status : Z) : bytes :=
  match find status kHttpStatusCodes with
  | Some str => B "Status: " ++ dec_signed status ++ B " " ++ str ++ [nl]
  | None => []
  end ++ concat (map header_line hs) ++ [nl].

(** What an action adds to the body, and whether it ends the buffering. *)
Definition text (a : action) : bytes :=
  match a with
  | AOutputBody b | AStream b => b
  | AOutputBodyF fmt_empty _ t => if fmt_empty then [] else t
  | _ => []
  end.

Definition texts (l : list action) : bytes := concat (map text l).

Definition unbuffers (a : action) : bool := match a with ASetBodyBuffered false => true | _ => false end.

(** The actions of filters and of Run in the order in which they are done. *)
Fixpoint script (filters : list filter_t) (ready : bool) (Run : list action) : list action :=
  match filters with
  | [] => if ready then Run else []
  | (acts, r) :: l =>
      let ready := if fails r then false else ready in
      acts ++ (if stops r then if ready then Run else [] else script l ready Run)
  end.

#[local] Opaque kHttpStatusCodes.

Abbreviation content_length := (B "Content-Length").

Section CgiFacts.
Context (neos_strip : bytes -> bytes).

(** ** Sending *)

Definition sends (b : bytes) (s : CGI) : CGI :=
  mkCGI (_headers s) (_buffered_body s) (_request_handled s) (_header_sent s) (_body_sent s) (_buffered s) (_status s)
    (badbit s) (mkWire (sent (out s) ++ b) []).

Definition with_header_sent (s : CGI) : CGI :=
  mkCGI (_headers s) (_buffered_body s) (_request_handled s) true (_body_sent s) (_buffered s) (_status s)
    (badbit s) (out s).

Lemma sends_sends a b s : sends b (sends a s) = sends (a ++ b) s.
Proof. unfold sends. cbn. by rewrite app_assoc. Qed.

Lemma cgiwrap_write_ok b s : writes (out s) = [] -> cgiwrap_write b s = (Ok tt, sends b s).
Proof. intros H. unfold cgiwrap_write, bind, gets. by rewrite H. Qed.

Lemma RealOutput_loop_ok fuel what s : writes (out s) = [] -> zlen what / kMaximum <= Z.of_nat fuel ->
  RealOutput_loop fuel what s = (Ok tt, sends what s).
Proof.
  assert (0 < kMaximum) as Hk by done.
  revert what s. induction fuel as [|f IH]; intros what s Hw Hf; cbn [RealOutput_loop];
    destruct (Z.ltb_spec kMaximum (zlen what)) as [Hlt|Hle]; try by apply cgiwrap_write_ok.
  - exfalso. assert (1 <= zlen what / kMaximum) by (apply Z.div_le_lower_bound; lia). lia.
  - unfold bind. rewrite cgiwrap_write_ok, IH by (try done;
      unfold zlen in *; rewrite ?length_drop, Nat2Z.inj_sub, Z2Nat.id by lia;
      pose proof (Z.div_add_l 1 kMaximum (Z.of_nat (length what) - kMaximum) ltac:(lia));
      replace (1 * kMaximum + (Z.of_nat (length what) - kMaximum)) with (Z.of_nat (length what)) in * by lia; lia).
    by rewrite sends_sends, take_drop.
Qed.

Lemma RealOutput_ok what s : writes (out s) = [] -> RealOutput what s = (Ok tt, sends what s).
Proof.
  intros H. unfold RealOutput. apply RealOutput_loop_ok; [done|].
  rewrite Z2Nat.id; [lia|]. apply Z.div_pos; [apply zlen_nonneg|done].
Qed.

Lemma OutputHeaders_loop_ok hs s : writes (out s) = [] ->
  exists s', OutputHeaders_loop hs s = (Ok tt, s') /\ writes (out s') = [] /\
    sends [nl] s' = sends (concat (map header_line hs) ++ [nl]) s.
Proof.
  revert s. induction hs as [|[k v] hs IH]; intros s Hw; cbn [OutputHeaders_loop]; [by exists s|].
  unfold bind. rewrite RealOutput_ok by done. destruct (IH (sends (c_str k ++ B ": " ++ v ++ [nl]) s)) as (s' & E & Hw' & Es); [done|].
  exists s'. split_and!; [done|done|]. rewrite Es, sends_sends. cbn [map concat]. unfold header_line. cbn [fst snd].
  by rewrite !app_assoc.
Qed.

Lemma OutputHeaders_ok s : writes (out s) = [] -> find (_status s) kHttpStatusCodes <> None ->
  OutputHeaders s = (Ok tt, if _header_sent s then s else sends (head (_headers s) (_status s)) (with_header_sent s)).
Proof.
  intros Hw Hs. unfold OutputHeaders, bind at 1, gets at 1. destruct (_header_sent s); [done|].
  unfold bind at 1, set_header_sent, modify. cbv beta iota. fold (with_header_sent s).
  unfold bind at 1, OutputStatusHeader, bind at 1, gets at 1. cbn [_status with_header_sent]. unfold head.
  destruct (find (_status s) kHttpStatusCodes) as [str|]; [|done].
  rewrite RealOutput_ok by done. unfold bind at 1, gets. cbn [_headers sends with_header_sent].
  match goal with |- bind _ _ ?t = _ => destruct (OutputHeaders_loop_ok (_headers s) t) as (s' & E & Hw' & Es); [done|] end.
  unfold bind. rewrite E, RealOutput_ok by done. by rewrite Es, sends_sends.
Qed.

(** ** Headers *)

Definition with_headers (h : list (bytes * bytes)) (s : CGI) : CGI :=
  mkCGI h (_buffered_body s) (_request_handled s) (_header_sent s) (_body_sent s) (_buffered s) (_status s) (badbit s) (out s).

Lemma find_filter_ne (key k : bytes) (h : list (bytes * bytes)) : k <> key ->
  find k (filter (fun e => e.1 <> key) h) = find k h.
Proof.
  intros Hk. induction h as [|[a v] h IH]; [done|]. rewrite filter_cons. cbn [fst find].
  destruct (decide (a <> key)) as [Ha|Ha]; cbn [find]; [by rewrite IH|].
  rewrite decide_False by (intros ->; by apply Ha). done.
Qed.

Lemma SetHeaderInternal_ok key value dup s : _header_sent s = false ->
  exists h, SetHeaderInternal key value dup s = (Ok tt, with_headers h s) /\
    (forall k, k <> key -> find k h = find k (_headers s)) /\
    (value <> [] -> dup = false \/ find key (_headers s) = None -> find key h = Some value).
Proof.
  intros Hs. unfold SetHeaderInternal, bind, gets. rewrite Hs. cbv beta iota.
  destruct value as [|v0 value].
  - eexists. split; [reflexivity|]. split; [intros k Hk; by apply find_filter_ne|done].
  - destruct (find key (_headers s)) as [w|] eqn:Hf; [destruct dup|]; eexists; (split; [reflexivity|]); split;
      [intros k Hk; by apply find_insert_ne|intros _ [|]; done
      |intros k Hk; by apply find_assign_ne|intros _ _|intros k Hk; by apply find_insert_ne|intros _ _].
    + apply find_assign. by eapply in_keys, find_in.
    + by apply find_insert, find_none.
Qed.

(** ** The invariant *)

Definition valid_status (n : Z) : Prop := find n kHttpStatusCodes <> None.

(** [base] was sent before, the body is [said]; [u]: buffering was ended; [C]
    holds of the headers. *)
Record Core (C : list (bytes * bytes) -> Prop) (base said : bytes) (u : bool) (s : CGI) : Prop := {
  core_writes : writes (out s) = [];
  core_bad : badbit s = false;
  core_status : valid_status (_status s);
  core_sent :
    if _header_sent s then
      u = true /\ exists hs st flushed, valid_status st /\ sent (out s) = base ++ head hs st ++ flushed /\
        flushed ++ _buffered_body s = said /\ C hs
    else
      sent (out s) = base /\ _buffered_body s = said /\ C (_headers s)
}.

Definition no_length (hs : list (bytes * bytes)) : Prop := find content_length hs = None.

Definition Inv (base said : bytes) (u : bool) (s : CGI) : Prop :=
  Core no_length base said u s /\ (_buffered s = false -> _buffered_body s = [] /\ u = true) /\
  (u = true -> _header_sent s = true) /\ _request_handled s = false.

Lemma Core_new base : Core no_length base [] false (CGI_new (mkWire base [])).
Proof. by split. Qed.

Lemma CGI_new_inv base : Inv base [] false (CGI_new (mkWire base [])).
Proof. split_and!; [apply Core_new|done..]. Qed.

Lemma Inv_headers base said u s h : Inv base said u s -> _header_sent s = false -> no_length h ->
  Inv base said u (with_headers h s).
Proof.
  intros ([Hw Hb Hst Hs] & Hbuf & Hu & Hh) Hns Hcl. split_and!; [|done..]. split; [done|done|done|].
  unfold with_headers. cbn. rewrite Hns in *. by destruct Hs as (? & ? & _).
Qed.

(** Setting a header that is not Content-Length. *)
Lemma SetHeaderInternal_inv key value dup base said u s : Inv base said u s -> key <> content_length ->
  ends (SetHeaderInternal key value dup) s (fun r s' =>
    match r with Ok _ => Inv base said u s' | Err e => Inv base said u s' /\ e <> EndException end).
Proof.
  intros HI Hk. destruct (_header_sent s) eqn:Hs.
  - unfold ends, SetHeaderInternal, bind, gets. rewrite Hs. cbn. done.
  - destruct (SetHeaderInternal_ok key value dup s Hs) as (h & E & Hf & _). unfold ends. rewrite E. cbn.
    apply Inv_headers; [done|done|]. unfold no_length. rewrite Hf by congruence. destruct HI as ([_ _ _ Hsent] & _).
    rewrite Hs in Hsent. by destruct Hsent as (_ & _ & ?).
Qed.

Lemma OutputHeaders_core C base said s : Core C base said true s -> exists s', OutputHeaders s = (Ok tt, s') /\
  Core C base said true s' /\ _header_sent s' = true /\ _buffered_body s' = _buffered_body s /\
  _buffered s' = _buffered s /\ _request_handled s' = _request_handled s.
Proof.
  intros [Hw Hb Hst Hs]. rewrite OutputHeaders_ok by done. destruct (_header_sent s) eqn:Hh.
  - exists s. split_and!; try done. split; try done. by rewrite Hh.
  - eexists. split; [reflexivity|]. split_and!; [|done..]. split; [done|done|done|].
    cbn. split; [done|]. exists (_headers s), (_status s), []. destruct Hs as (-> & <- & Hc).
    split_and!; [done| |done|done]. by rewrite app_nil_r.
Qed.

(** What is sent behind the headers is the next piece of the body. *)
Lemma sends_core C base said b s : Core C base said true s -> _header_sent s = true -> _buffered_body s = [] ->
  Core C base (said ++ b) true (sends b s).
Proof.
  intros [Hw Hb Hst Hs] Hh Hbuf. split; [done|done|done|]. cbn. rewrite Hh in *.
  destruct Hs as (_ & hs & st & fl & Hv & E & E' & Hc). split; [done|]. exists hs, st, (fl ++ b).
  rewrite Hbuf, app_nil_r in E' |- *. subst. rewrite E, <- !app_assoc. done.
Qed.

Definition with_body_sent (s : CGI) : CGI :=
  mkCGI (_headers s) (_buffered_body s) (_request_handled s) (_header_sent s) true (_buffered s) (_status s) (badbit s) (out s).
Definition with_buffered_body (b : bytes) (s : CGI) : CGI :=
  mkCGI (_headers s) b (_request_handled s) (_header_sent s) (_body_sent s) (_buffered s) (_status s) (badbit s) (out s).

Lemma Core_body_sent C base said u s : Core C base said u s -> Core C base said u (with_body_sent s).
Proof. by intros [? ? ? ?]. Qed.

(** The end of OutputBody and FlushBody. *)
Lemma send_core C base said b s m : Core C base said true s -> _buffered_body s = [] ->
  (m = RealOutput b \/ m = RealOutputV b) ->
  exists s', (OutputHeaders ;;; set_body_sent true ;;; m) s = (Ok tt, s') /\ Core C base (said ++ b) true s' /\
    _buffered_body s' = [] /\ _header_sent s' = true /\ _buffered s' = _buffered s /\
    _request_handled s' = _request_handled s.
Proof.
  intros HC Hbuf Hm. destruct (OutputHeaders_core _ _ _ _ HC) as (s1 & E & HC1 & Hh & E2 & E3 & E4).
  unfold bind at 1. rewrite E. unfold bind, set_body_sent, modify. fold (with_body_sent s1).
  assert (writes (out (with_body_sent s1)) = []) as Hw by apply HC1.
  exists (sends b (with_body_sent s1)). split.
  - destruct Hm as [->| ->]; [by apply RealOutput_ok|by apply cgiwrap_write_ok].
  - split_and!; [|cbn; congruence..]. apply sends_core; [by apply Core_body_sent|done|cbn; congruence].
Qed.

Lemma OutputBody_inv base said u b s : Inv base said u s ->
  exists s', OutputBody b s = (Ok tt, s') /\ Inv base (said ++ b) u s'.
Proof.
  intros (HC & Hbuf & Hsent & Hh). unfold OutputBody. destruct b as [|b0 b]; [exists s; by rewrite app_nil_r|].
  rewrite bool_decide_eq_false_2 by done. set (bb := b0 :: b). clearbody bb.
  unfold bind at 1, gets at 1. destruct (_buffered s) eqn:Eb.
  - eexists. split; [reflexivity|]. destruct HC as [Hw Hb Hst Hs]. split_and!; [|cbn; congruence|done|done].
    split; [done|done|done|]. cbn. destruct (_header_sent s); [|by destruct Hs as (? & -> & ?)].
    destruct Hs as (Hu & hs & st & fl & Hv & E & E' & Hc). split; [done|]. exists hs, st, fl. split_and!; try done.
    by rewrite <- E', app_assoc.
  - destruct (Hbuf eq_refl) as [Hbuf' ->].
    destruct (send_core _ base said bb s _ HC Hbuf' (or_introl eq_refl)) as (s' & E & HC' & E2 & Es & E3 & E4).
    exists s'. split; [done|]. split_and!; [done|done|done|congruence].
Qed.

(** The end of FlushBody, and FlushBody with nothing to send. *)
Lemma flush_core C base said s : Core C base said true s ->
  exists s', (set_buffered_body [] ;;; OutputHeaders ;;; set_body_sent true ;;; RealOutput (_buffered_body s)) s = (Ok tt, s') /\
    Core C base said true s' /\ _header_sent s' = true /\ _buffered_body s' = [] /\ _buffered s' = _buffered s /\
    _request_handled s' = _request_handled s.
Proof.
  intros [Hw Hb Hst Hs]. unfold bind at 1, set_buffered_body, modify. fold (with_buffered_body [] s).
  destruct (_header_sent s) eqn:Hh.
  - destruct Hs as (_ & hs & st & fl & Hv & E & E' & Hc).
    destruct (send_core C base fl (_buffered_body s) (with_buffered_body [] s) (RealOutput (_buffered_body s)))
      as (s' & Es & HC' & E2 & E3 & E4 & E5); [|done|by left|].
    + split; [done|done|done|]. cbn. rewrite Hh. split; [done|]. exists hs, st, fl. by rewrite app_nil_r.
    + exists s'. rewrite E' in HC'. done.
  - destruct Hs as (E & E' & Hc).
    destruct (send_core C base [] (_buffered_body s) (with_buffered_body [] s) (RealOutput (_buffered_body s)))
      as (s' & Es & HC' & E2 & E3 & E4 & E5); [|done|by left|].
    + split; [done|done|done|]. cbn. by rewrite Hh.
    + exists s'. cbn in HC'. rewrite E' in HC'. done.
Qed.

Lemma Core_true C base said u s : Core C base said u s -> Core C base said true s.
Proof. intros [Hw Hb Hst Hs]. split; [done|done|done|]. destruct (_header_sent s); [|done]. by destruct Hs. Qed.

Lemma FlushBody_inv base said u s : Core no_length base said u s -> _request_handled s = false ->
  exists s', FlushBody s = (Ok tt, s') /\ Core no_length base said true s' /\ _buffered_body s' = [] /\
    _buffered s' = _buffered s /\ _header_sent s' = true /\ _request_handled s' = false.
Proof.
  intros HC%Core_true Hh. unfold FlushBody, bind at 1, gets at 1. destruct (bool_decide_reflect (_buffered_body s = [])) as [E0|E0].
  - destruct (OutputHeaders_core _ _ _ _ HC) as (s1 & E & HC1 & Es & E2 & E3 & E4). exists s1.
    split_and!; try done; congruence.
  - unfold bind at 1, gets at 1. rewrite Hh. unfold bind at 1, gets at 1. destruct (_header_sent s) eqn:Hs.
    + destruct (flush_core _ _ _ _ HC) as (s' & E & HC' & Es & E2 & E3 & E4). exists s'.
      split_and!; try done; congruence.
    + destruct (SetHeaderInternal_ok (B "Transfer-Encoding") (B "chunked") false s Hs) as (h & E & Hf & _).
      assert (Core no_length base said true (with_headers h s)) as HC2.
      { destruct HC as [Hw Hb Hst HS]. split; [done|done|done|]. cbn. rewrite Hs in *. destruct HS as (? & ? & ?).
        split_and!; [done|done|]. unfold no_length. by rewrite Hf. }
      destruct (flush_core _ _ _ _ HC2) as (s' & E' & HC' & Es & E2 & E3 & E4). exists s'. unfold bind at 1. rewrite E.
      split_and!; try done; cbn in *; congruence.
Qed.

(** The flush at the end of ProcessRequest; what it says of Content-Length. *)
Definition true_length (said : bytes) (u : bool) (hs : list (bytes * bytes)) : Prop :=
  if u then no_length hs
  else if bool_decide (said = []) then no_length hs else find content_length hs = Some (dec (zlen said)).

Definition with_handled (s : CGI) : CGI :=
  mkCGI (_headers s) (_buffered_body s) true (_header_sent s) (_body_sent s) (_buffered s) (_status s) (badbit s) (out s).

Lemma FlushBody_final base said u s : Inv base said u s ->
  exists s', (set_request_handled true ;;; FlushBody) s = (Ok tt, s') /\
    Core (true_length said u) base said true s' /\ _buffered_body s' = [] /\ _header_sent s' = true.
Proof.
  intros (HC & _ & Hu & _). unfold bind at 1, set_request_handled, modify. cbv beta iota.
  fold (with_handled s). unfold FlushBody, bind at 1, gets at 1. cbn [with_handled _buffered_body].
  destruct HC as [Hw Hb Hst HS]. destruct (_header_sent s) eqn:Hs.
  - destruct HS as (-> & hs & st & fl & Hv & E1 & E2 & HC).
    assert (Core (true_length said true) base said true (with_handled s)) as HC0.
    { split; [done|done|done|]. cbn. rewrite Hs. split; [done|]. exists hs, st, fl. done. }
    destruct (bool_decide_reflect (_buffered_body s = [])) as [E0|E0].
    + destruct (OutputHeaders_core _ _ _ _ HC0) as (s1 & E & HC1 & E3 & E4 & _). exists s1. split_and!; try done.
      by rewrite E4.
    + unfold bind at 1, gets at 1. cbn [with_handled _request_handled]. unfold bind at 1, gets at 1. cbn [with_handled _header_sent]. rewrite Hs.
      destruct (flush_core _ _ _ _ HC0) as (s' & E & HC' & E3 & E4 & _). by exists s'.
  - destruct u; [by specialize (Hu eq_refl)|]. destruct HS as (E1 & E2 & HC). destruct (bool_decide_reflect (_buffered_body s = [])) as [E0|E0].
    + assert (Core (true_length said false) base said true (with_handled s)) as HC0.
      { split; [done|done|done|]. cbn. rewrite Hs. split_and!; [done|done|]. rewrite E0 in E2. subst said.
        done. }
      destruct (OutputHeaders_core _ _ _ _ HC0) as (s1 & E & HC1 & E3 & E4 & _). exists s1. split_and!; try done.
      by rewrite E4.
    + unfold bind at 1, gets at 1. cbn [with_handled _request_handled]. unfold bind at 1, gets at 1. cbn [with_handled _header_sent]. rewrite Hs.
      destruct (SetHeaderInternal_ok content_length (dec (zlen (_buffered_body s))) false (with_handled s) Hs) as (h & E & _ & Hf).
      assert (find content_length h = Some (dec (zlen (_buffered_body s)))) as Hf'.
      { apply Hf; [|by left]. apply dec_not_nil, zlen_nonneg. }
      assert (Core (true_length said false) base said true (with_headers h (with_handled s))) as HC0.
      { split; [done|done|done|]. cbn. rewrite Hs. split_and!; [done|done|]. unfold true_length. rewrite <- E2.
        rewrite bool_decide_eq_false_2 by done. done. }
      unfold bind at 1. rewrite E. destruct (flush_core _ _ _ _ HC0) as (s' & E' & HC' & E3 & E4 & _). by exists s'.
Qed.

(** ** The actions of the application *)

(** What an action leaves behind: it was done, or it threw and did nothing. *)
Definition step_post (base said : bytes) (u : bool) (a : action) (r : result thrown unit) (s : CGI) : Prop :=
  match r with
  | Ok _ => Inv base (said ++ text a) (u || unbuffers a) s
  | Err e => Inv base said u s /\ (e = EndException -> a = AEnd \/ a = AThrow EndException)
  end.

Lemma step_silent base said u a s : text a = [] -> unbuffers a = false -> Inv base said u s -> step_post base said u a (Ok tt) s.
Proof. intros Ht Hu H. unfold step_post. by rewrite Ht, Hu, app_nil_r, orb_false_r. Qed.

Lemma step_header base said u a key value dup s : text a = [] -> unbuffers a = false -> Inv base said u s ->
  key <> content_length -> ends (SetHeaderInternal key value dup) s (step_post base said u a).
Proof.
  intros Ht Hu HI Hk. eapply ends_mono; [by apply SetHeaderInternal_inv|]. intros [[]|e] s' H.
  - by apply step_silent.
  - destruct H as [H He]. split; [done|]. by intros ->.
Qed.

Hypothesis neos_strip_id : forall s, isspace (hd NUL s) = false -> isspace (List.last s NUL) = false -> neos_strip s = s.

Lemma content_length_forbidden : IsForbiddenHeader neos_strip content_length = true.
Proof. unfold IsForbiddenHeader, IsForbiddenToken. rewrite neos_strip_id by done. done. Qed.

Lemma Inv_status base said u s n : Inv base said u s -> valid_status n ->
  ends (set_status n) s (fun r s' => r = Ok tt /\ Inv base said u s').
Proof. intros ([Hw Hb Hst Hs] & Hbuf & Hu & Hh) Hn. by split. Qed.

Lemma SetCookie_step base said u a s key value max_age expires path domain flags : text a = [] -> unbuffers a = false ->
  Inv base said u s ->
  ends (SetCookie neos_strip key value max_age expires path domain flags) s (step_post base said u a).
Proof.
  intros Ht Hu HI. unfold SetCookie. destruct (_ || _); [by apply step_silent|]. by apply step_header.
Qed.

Lemma SetBodyBuffered_step base said u b s : Inv base said u s ->
  ends (SetBodyBuffered b) s (step_post base said u (ASetBodyBuffered b)).
Proof.
  intros (HC & Hbuf & Hu & Hh). unfold SetBodyBuffered. apply ends_bind, ends_modify. set (s0 := mkCGI _ _ _ _ _ _ _ _ _).
  assert (Core no_length base said u s0) as HC0 by (by destruct HC). destruct b.
  - apply ends_ret. apply step_silent; [done|done|]. by split_and!.
  - destruct (FlushBody_inv _ _ _ _ HC0 Hh) as (s' & E & HC' & E2 & E3 & Es & E4). unfold ends. rewrite E. cbn.
    rewrite app_nil_r, orb_true_r. by split_and!.
Qed.

Lemma OutputBody_step base said u a b s : text a = b -> unbuffers a = false -> Inv base said u s ->
  ends (OutputBody b) s (step_post base said u a).
Proof.
  intros Ht Hu HI. destruct (OutputBody_inv _ _ _ b _ HI) as (s' & E & HI'). unfold ends. rewrite E. cbn.
  by rewrite Ht, Hu, orb_false_r.
Qed.

Lemma stream_step base said u b s : Inv base said u s -> ends (stream b) s (step_post base said u (AStream b)).
Proof.
  intros HI. destruct (OutputBody_inv _ _ _ b _ HI) as (s' & E & HI'). pose proof HI as ([_ Hb _ _] & _).
  unfold ends, stream, bind, gets, catch. rewrite Hb, E. cbn. by rewrite orb_false_r.
Qed.

Lemma OutputBodyV_step base said u a args t s : text a = t -> unbuffers a = false -> Inv base said u s ->
  ends (OutputBodyV args t) s (step_post base said u a).
Proof.
  intros Ht Hu HI. unfold OutputBodyV. apply ends_bind, ends_gets. destruct (_buffered s) eqn:Eb.
  - destruct (INT_MAX <? zlen t); [by apply ends_throw|].
    destruct (Z.eqb_spec (zlen t) 0) as [E0|E0].
    { apply ends_ret, step_silent; [|done|done]. rewrite Ht. destruct t; [done|]. rewrite zlen_cons in E0.
      pose proof (zlen_nonneg t). lia. }
    destruct (zlen t <? 8192); [by apply OutputBody_step|]. destruct args; [by apply ends_throw|by apply OutputBody_step].
  - destruct HI as (HC & Hbuf & Hsent & Hh). destruct (Hbuf Eb) as [Hbuf' ->].
    destruct (send_core _ base said t s _ HC Hbuf' (or_intror eq_refl)) as (s' & E & HC' & E2 & Es & E3 & E4).
    unfold ends. rewrite E. cbn. rewrite Ht. split_and!; [done|done|done|congruence].
Qed.

Lemma exec_step base said u a s : Inv base said u s -> ends (exec neos_strip a) s (step_post base said u a).
Proof.
  intros HI. destruct a as [k v|t c|n|url m|k v m e p d f|k e p d|b|b|fe args t|t| |e]; cbn [exec].
  - unfold SetHeader. destruct (bool_decide_reflect (k = [])); [by apply ends_ret, step_silent|]. cbn [orb].
    destruct (IsForbiddenHeader neos_strip k) eqn:Ef; [by apply ends_ret, step_silent|].
    apply step_header; [done|done|done|]. intros ->. by rewrite content_length_forbidden in Ef.
  - unfold SetContentType. destruct (bool_decide _); by apply step_header.
  - unfold SetStatusCode. destruct (find n kHttpStatusCodes) eqn:En; [|by apply ends_throw].
    eapply ends_mono; [eapply (Inv_status _ _ _ _ n HI); unfold valid_status; by rewrite En|].
    intros r s' [-> H]. by apply step_silent.
  - unfold Redirect. apply ends_bind.
    eapply ends_mono; [by apply (SetHeaderInternal_inv (B "Location") url false base said u s HI)|].
    intros [[]|e] s' H; [|destruct H as [H He]; split; [done|by intros ->]].
    eapply ends_mono; [apply (Inv_status _ _ _ _ (if m then 301 else 302) H); by destruct m|].
    intros r s2 [-> H2]. by apply step_silent.
  - by apply SetCookie_step.
  - by apply SetCookie_step.
  - by apply SetBodyBuffered_step.
  - by apply OutputBody_step.
  - unfold OutputBodyF. destruct fe; [by apply ends_ret, step_silent|]. by apply OutputBodyV_step.
  - by apply stream_step.
  - apply ends_throw. split; [done|]. by left.
  - apply ends_throw. split; [done|]. intros ->. by right.
Qed.

(** What a list of actions leaves behind: some of them were done, the next one
    threw. *)
Definition unbuffers_any (l : list action) : bool := existsb unbuffers l.

Lemma exec_all_step base said u l s : Inv base said u s ->
  ends (exec_all neos_strip l) s (fun r s' => exists l1 l2, l = l1 ++ l2 /\
    Inv base (said ++ texts l1) (u || unbuffers_any l1) s' /\
    match r with
    | Ok _ => l2 = []
    | Err e => e = EndException -> exists a l3, l2 = a :: l3 /\ (a = AEnd \/ a = AThrow EndException)
    end).
Proof.
  revert said u s. induction l as [|a l IH]; intros said u s HI; cbn [exec_all].
  - apply ends_ret. exists [], []. unfold texts, unbuffers_any. cbn. by rewrite app_nil_r, orb_false_r.
  - apply ends_bind. eapply ends_mono; [by apply exec_step|]. intros [[]|e] s' H.
    + eapply ends_mono; [by apply IH|]. intros r s2 (l1 & l2 & -> & H2 & Hr). exists (a :: l1), l2.
      split; [done|]. split; [|done]. unfold texts, unbuffers_any in *. cbn. by rewrite app_assoc, orb_assoc.
    + destruct H as [H He]. exists [], (a :: l). unfold texts, unbuffers_any. cbn. rewrite app_nil_r, orb_false_r.
      split_and!; [done|done|]. intros E. exists a, l. by split; [|apply He].
Qed.

(** Filters and Run do the actions of their script. *)
Lemma exec_all_app l1 l2 s : exec_all neos_strip (l1 ++ l2) s = (exec_all neos_strip l1 ;;; exec_all neos_strip l2) s.
Proof.
  revert s. induction l1 as [|a l1 IH]; intros s; [done|]. cbn [exec_all app].
  rewrite bind_assoc. apply bind_same. intros x s'. apply IH.
Qed.

Lemma run_script filters ready Run s :
  (let* ready := run_filters neos_strip filters ready in if (ready : bool) then exec_all neos_strip Run else ret tt) s =
  exec_all neos_strip (script filters ready Run) s.
Proof.
  revert ready s. induction filters as [|[acts r] l IH]; intros ready s; cbn [run_filters script].
  - unfold bind, ret. by destruct ready.
  - rewrite exec_all_app, bind_assoc. apply bind_same. intros x s'. destruct (stops r).
    + unfold bind, ret. by destruct (if fails r then false else ready).
    + apply IH.
Qed.

End CgiFacts.

(** ** ProcessRequest *)

Lemma ProcessRequest_spec (neos_strip : bytes -> bytes) (filters : list filter_t) (Run : list action) (base : bytes) :
  (forall s, isspace (hd NUL s) = false -> isspace (List.last s NUL) = false -> neos_strip s = s) ->
  let '(r, s) := ProcessRequest neos_strip filters Run (CGI_new (mkWire base [])) in
  writes (out s) = [] /\
  exists l1 l2, script filters true Run = l1 ++ l2 /\
  match r with
  | Ok b =>
      b = true /\ (l2 = [] \/ exists a l3, l2 = a :: l3 /\ (a = AEnd \/ a = AThrow EndException)) /\
      exists hs st, valid_status st /\ sent (out s) = base ++ head hs st ++ texts l1 /\
        true_length (texts l1) (unbuffers_any l1) hs
  | Err e =>
      e <> EndException /\
      (if _header_sent s then
         exists hs st flushed, valid_status st /\ flushed `prefix_of` texts l1 /\
           sent (out s) = base ++ head hs st ++ flushed
       else sent (out s) = base)
  end.
Proof.
  intros Hid. unfold ProcessRequest. unfold bind at 1, catch at 1. rewrite run_script.
  pose proof (exec_all_step neos_strip Hid base [] false (script filters true Run) _ (CGI_new_inv base)) as H.
  unfold ends in H. destruct (exec_all neos_strip _ _) as [r s]. cbn [fst snd] in H.
  destruct H as (l1 & l2 & E & HI & Hr). cbn [app orb] in HI.
  assert (forall s' : CGI, s' = s -> let '(r, s) := (set_request_handled true ;;; FlushBody ;;; ret true) s' in
    writes (out s) = [] /\ r = Ok true /\ exists hs st, valid_status st /\
      sent (out s) = base ++ head hs st ++ texts l1 /\ true_length (texts l1) (unbuffers_any l1) hs) as Hend.
  { intros s' ->. destruct (FlushBody_final _ _ _ _ HI) as (s1 & E1 & [Hw _ _ Hs] & E2 & E3).
    rewrite E3, E2 in Hs. destruct Hs as (_ & hs & st & fl & Hv & Es & Et & Ht). rewrite app_nil_r in Et. subst fl.
    rewrite <- bind_assoc. unfold bind at 1. rewrite E1. unfold ret. split; [done|]. split; [done|]. by exists hs, st. }
  destruct r as [[]|e].
  - specialize (Hend s eq_refl). destruct ((_ ;;; _) s) as [r' s2]. destruct Hend as (Hw & -> & Hrest).
    split; [done|]. exists l1, l2. split_and!; [done|done|by left|done].
  - destruct e as [n| |e]; cbn [ret throw].
    + destruct HI as ([Hw _ _ Hs] & _). split; [done|]. exists l1, l2. split; [done|]. split; [done|].
      destruct (_header_sent s); [|by destruct Hs]. destruct Hs as (_ & hs & st & fl & Hv & Es & Et & _).
      exists hs, st, fl. split_and!; [done| |done]. by exists (_buffered_body s).
    + unfold ret. specialize (Hend s eq_refl). destruct ((_ ;;; _) s) as [r' s2]. destruct Hend as (Hw & -> & Hrest).
      split; [done|]. exists l1, l2. split_and!; [done|done|right; by apply Hr|done].
    + destruct HI as ([Hw _ _ Hs] & _). split; [done|]. exists l1, l2. split; [done|]. split; [done|].
      destruct (_header_sent s); [|by destruct Hs]. destruct Hs as (_ & hs & st & fl & Hv & Es & Et & _).
      exists hs, st, fl. split_and!; [done| |done]. by exists (_buffered_body s).
Qed.

(** C26: a request's handler, whatever its filters and its Run do.  If nothing
    but End is thrown, one block of headers with a known status is sent and
    the body behind it, what the actions that were done printed, in order;
    Content-Length is the length of this body, and it is there unless
    buffering was ended or the body is empty.  If something else is thrown,
    either nothing was sent or the headers and a beginning of the body. *)
Theorem cgi_ProcessRequest (neos_strip : bytes -> bytes) (filters : list filter_t) (Run : list action) (base : bytes) :
  (forall s, isspace (hd NUL s) = false -> isspace (List.last s NUL) = false -> neos_strip s = s) ->
  let '(r, s) := ProcessRequest neos_strip filters Run (CGI_new (mkWire base [])) in
  writes (out s) = [] /\
  exists l1 l2, script filters true Run = l1 ++ l2 /\
  match r with
  | Ok b =>
      b = true /\ (l2 = [] \/ exists a l3, l2 = a :: l3 /\ (a = AEnd \/ a = AThrow EndException)) /\
      exists hs st, valid_status st /\ sent (out s) = base ++ head hs st ++ texts l1 /\
        true_length (texts l1) (unbuffers_any l1) hs
  | Err e =>
      e <> EndException /\
      (if _header_sent s then
         exists hs st flushed, valid_status st /\ flushed `prefix_of` texts l1 /\
           sent (out s) = base ++ head hs st ++ flushed
       else sent (out s) = base)
  end.
Proof. apply ProcessRequest_spec. Qed.

(** A handler that buffers, with a filter, and one whose headers come too late. *)
Lemma cgi_ProcessRequest_witness :
  exists s, ProcessRequest (fun s => s) [([ASetHeader (B "Pragma") (B "no-cache")], kResultPass)]
      [AStream (B "hello, "); ASetStatusCode 201; AOutputBody (B "world"); AEnd; AStream (B "never")]
      (CGI_new (mkWire (B "|") [])) = (Ok true, s) /\
    sent (out s) = B "|Status: 201 Created" ++ nl :: B "Content-Length: 12" ++ nl :: B "Pragma: no-cache" ++ nl :: nl
      :: B "hello, world" /\
    writes (out s) = [].
Proof.
  pose proof (cgi_ProcessRequest (fun s => s) [([ASetHeader (B "Pragma") (B "no-cache")], kResultPass)]
      [AStream (B "hello, "); ASetStatusCode 201; AOutputBody (B "world"); AEnd; AStream (B "never")] (B "|")
      ltac:(reflexivity)) as H.
  destruct (ProcessRequest _ _ _ _) as [r s] eqn:E. exists s. vm_compute in E. injection E as <- <-.
  split; [reflexivity|]. split; [reflexivity|]. exact (proj1 H).
Defined.

Example ProcessRequest_late_header :
  (ProcessRequest (fun s => s) [] [ASetBodyBuffered false; ASetHeader (B "X") (B "y")] (CGI_new (mkWire [] []))).1
  = Err (Exception (logic_error "trying to set header after body")).
Proof. vm_compute. reflexivity. Qed.

(** A buffered text of more than the buffer is printed a second time with a
    list of arguments that the first vsnprintf has used up. *)
Lemma OutputBodyV_reuses_arguments t s : _buffered s = true -> 8192 <= zlen t <= INT_MAX ->
  OutputBodyV true t s = (Err (Exception undefined_behaviour), s).
Proof.
  intros Hb Ht. unfold OutputBodyV, bind, gets. rewrite Hb.
  rewrite (proj2 (Z.ltb_ge _ _)), (proj2 (Z.eqb_neq _ _)), (proj2 (Z.ltb_ge _ _)) by lia. done.
Qed.
