(* ===== verification/CgiRequest.v ===== *)
(** * What a handler knows of its request: the constructor of fastcgi/cgi.cpp

    The trees of the server's variables, cookies, query and post, the uploaded
    files and the raw body.  ClearSilver, which parses the request, is a record
    of what its functions return; the body's reader [Parser::Parse], which it
    calls back, is modelled here. *)

From Stdlib Require Import ZifyBool.
From S2P Require Import Prelude Digits Libc StdMap Utility Tree Cgi.

(** ** Reading the body *)

(** cgiwrap_read into a buffer of 8192 bytes: what the next calls return; an
    empty piece, or the end of the list, is the end of the input. *)
Definition reads : Type := list bytes.

Inductive NEOERR : Type := STATUS_OK | NERR_PARSE | NERR_IO.

Fixpoint Parse_loop (r : reads) (total len : Z) (body : bytes) : result thrown (Z * bytes) :=
  match r with
  | [] | [] :: _ => Ok (len, body)
  | p :: r =>
      let body := body ++ p in
      match int_ (len + zlen p) with
      | Err e => Err (Exception e)
      | Ok len => if len <? total then Parse_loop r total len body else Ok (len, body)
      end
  end.

(** strcmp(type, s) == 0, and strncmp(type, s, strlen(s)) == 0, of bytes without
    a terminator in [s]. *)
Definition is_prefix (s type : bytes) : bool := bool_decide (take (length s) type = s).

Definition skipped_type (type : bytes) : bool :=
  bool_decide (type = B "application/x-www-form-urlencoded") || is_prefix (B "multipart/form-data") type.

(** The body it has read, and what it returns. *)
Definition Parser_Parse (_SERVER : Tree) (r : reads) : result thrown (bytes * NEOERR) :=
  let total := atoi32 (Some (c_str (_value (Get_const (B "CONTENT_LENGTH") _SERVER)))) false in
  if total <? 0 then Ok ([], NERR_PARSE)
  else if total =? 0 then Ok ([], STATUS_OK)
  else if skipped_type (c_str (_value (Get_const (B "CONTENT_TYPE") _SERVER))) then Ok ([], STATUS_OK)
  else
    match Parse_loop r total 0 [] with
    | Err e => Err e
    | Ok (len, body) => Ok (body, if len =? total then STATUS_OK else NERR_IO)
    end.

(** ** ClearSilver *)

Record File : Type := mkFile {
  _size : Z;
  _name : bytes;
  _type : bytes;
  _tmp_name : bytes
}.

(** A node of an HDF tree: its name and value, null or not. *)
Definition node : Type := option bytes * option bytes.

Record ClearSilver : Type := mkClearSilver {
  iterenv : nat -> option (option (bytes * bytes)); (** [None]: an error; [Some None]: no more *)
  cgi_init : bool;
  hdf_children : bytes -> option (list node); (** before the body is parsed; [None]: no such node *)
  cgi_register_parse_cb : bool;
  hdf_remove_tree : bool;
  cgi_parse : NEOERR -> bool; (** given what the callback returns, if it is called *)
  parses_with_callback : bool;
  hdf_posts : option (list node); (** the children of Query after it was parsed *)
  cgi_filehandle : option bytes -> option (option Z); (** [Some s]: an open file and its size, if known *)
  hdf_get_value : bytes -> option bytes
}.

Fixpoint TranslateEnvvars_loop (fuel i : nat) (cs : ClearSilver) (maps : Tree) : result thrown Tree :=
  match fuel with
  | O => Err (Exception out_of_fuel)
  | S f =>
      match iterenv cs i with
      | None => Err (HttpException 400)
      | Some None => Ok maps
      | Some (Some (k, v)) => TranslateEnvvars_loop f (S i) cs (Set_path k v maps)
      end
  end.

(** [fuel]: more than there are variables. *)
Definition TranslateEnvvars (fuel : nat) (cs : ClearSilver) (maps : Tree) : result thrown Tree :=
  TranslateEnvvars_loop fuel 0 cs (Clear maps).

Fixpoint TranslateHDF_loop (l : list node) (maps : Tree) : Tree :=
  match l with
  | [] => maps
  | (Some k, Some v) :: l => TranslateHDF_loop l (Set_path k v maps)
  | _ :: l => TranslateHDF_loop l maps
  end.

Definition TranslateHDF (cs : ClearSilver) (node : bytes) (maps : Tree) : Tree :=
  match hdf_children cs node with None => maps | Some l => TranslateHDF_loop l maps end.

(** A string assigned from a value, if there is one. *)
Definition or_empty (v : option bytes) : bytes := match v with Some v => v | None => [] end.

(** Whether it is a file, and the files afterwards. *)
Definition TranslateFile (cs : ClearSilver) (key : option bytes) (files : list (bytes * File)) : bool * list (bytes * File) :=
  match cgi_filehandle cs key with
  | None => (false, files)
  | Some size =>
      let path := match key with Some k => B "Query." ++ k | None => B "PUT" end in
      let file := mkFile (match size with Some n => n | None => ULLONG_MAX end)
        (or_empty (hdf_get_value cs path)) (or_empty (hdf_get_value cs (path ++ B ".Type")))
        (or_empty (hdf_get_value cs (path ++ B ".FileName"))) in
      let name := or_empty key in
      (true, match find name files with Some _ => files | None => insert name file files end)
  end.

Definition TranslatePut (cs : ClearSilver) (files : list (bytes * File)) : list (bytes * File) :=
  (TranslateFile cs None files).2.

Fixpoint TranslatePost_loop (cs : ClearSilver) (l : list node) (posts : Tree) (files : list (bytes * File))
  : Tree * list (bytes * File) :=
  match l with
  | [] => (posts, files)
  | (Some k, Some v) :: l =>
      let '(is_file, files) := TranslateFile cs (Some k) files in
      TranslatePost_loop cs l (if is_file : bool then posts else Set_path k v posts) files
  | _ :: l => TranslatePost_loop cs l posts files
  end.

Definition TranslatePost (cs : ClearSilver) (posts : Tree) (files : list (bytes * File)) : Tree * list (bytes * File) :=
  match hdf_posts cs with None => (posts, files) | Some l => TranslatePost_loop cs l posts files end.

(** ** The constructor *)

Record request : Type := mkRequest {
  _GET : Tree;
  _POST : Tree;
  _COOKIE : Tree;
  _SERVER : Tree;
  _REQUEST : Tree;
  _FILES : list (bytes * File);
  request_body : bytes
}.

(** ThrowIfNeoError of an error, false, or of none. *)
Definition throw_unless (ok : bool) : result thrown unit := if ok then Ok tt else Err (HttpException 400).

Definition CGI_construct (fuel : nat) (process_body : bool) (cs : ClearSilver) (r : reads) : result thrown request :=
  let! server := TranslateEnvvars fuel cs Tree_new in
  let! _ := throw_unless (cgi_init cs) in
  let cookies := TranslateHDF cs (B "Cookie") Tree_new in
  let queries := TranslateHDF cs (B "Query") Tree_new in
  if negb process_body then Ok (mkRequest queries Tree_new cookies server Tree_new [] [])
  else
    let! _ := throw_unless (cgi_register_parse_cb cs) in
    let! _ := throw_unless (hdf_remove_tree cs) in
    let! (body, e) := if parses_with_callback cs then Parser_Parse server r else Ok ([], STATUS_OK) in
    let! _ := throw_unless (cgi_parse cs e) in
    let method := _value (Get_const (B "REQUEST_METHOD") server) in
    let '(posts, files) :=
      if bool_decide (method = B "POST") then TranslatePost cs Tree_new []
      else if bool_decide (method = B "PUT") then (Tree_new, TranslatePut cs [])
      else (Tree_new, []) in
    let all := Merge (Obj posts) true (Assign (Obj queries) Tree_new) in
    Ok (mkRequest queries posts cookies server all files body).

(** ** The body *)

Lemma Parse_loop_spec r total len body : Forall (fun p => zlen p <= 8192) r -> 0 <= len < total -> total <= INT_MAX - 8192 ->
  exists r1 r2, r = r1 ++ r2 /\ Parse_loop r total len body = Ok (len + zlen (concat r1), body ++ concat r1) /\
    (len + zlen (concat r1) < total -> r2 = [] \/ exists r3, r2 = [] :: r3) /\
    (r1 <> [] -> len + zlen (concat (removelast r1)) < total).
Proof.
  revert len body. induction r as [|p r IH]; intros len body Hr Hlen Htot.
  - exists [], []. cbn. rewrite app_nil_r, Z.add_0_r. split_and!; [done|done|by left|done].
  - inversion Hr as [|? ? Hp Hr']; subst. destruct p as [|c p].
    + exists [], ([] :: r). cbn. rewrite app_nil_r, Z.add_0_r. split_and!; [done|done|eauto|done].
    + cbn [Parse_loop]. set (q := c :: p) in *. assert (0 < zlen q) as Hq by (unfold q; rewrite zlen_cons; pose proof (zlen_nonneg p); lia).
      clearbody q. rewrite int_ok by (unfold INT_MIN, INT_MAX in *; lia). destruct (Z.ltb_spec (len + zlen q) total) as [Hlt|Hge].
      * destruct (IH (len + zlen q) (body ++ q) Hr' ltac:(lia) Htot) as (r1 & r2 & -> & E & H1 & H2).
        exists (q :: r1), r2. cbn [concat app]. rewrite E, zlen_app, <- app_assoc, Z.add_assoc.
        split_and!; [done|done|done|]. intros _. destruct r1 as [|x r1].
        { cbn [removelast concat]. change (zlen (@nil ascii)) with 0. lia. }
        change (removelast (q :: x :: r1)) with (q :: removelast (x :: r1)). cbn [concat]. rewrite zlen_app, Z.add_assoc.
        by apply H2.
      * exists [q], r. cbn [concat app removelast]. rewrite app_nil_r. split_and!; [done|done|lia|].
        intros _. change (zlen (@nil ascii)) with 0. lia.
Qed.

(** The reader of the raw body of a request whose Content-Length is
    [total] reads until it has so many bytes or the input ends; it succeeds
    exactly if it has read [total] bytes, which are then the body, and fails
    on a body that is too short or, in its last piece, too long. *)
Theorem cgi_Parser_Parse (_SERVER : Tree) (r : reads) (total : Z) :
  total = atoi32 (Some (c_str (_value (Get_const (B "CONTENT_LENGTH") _SERVER)))) false ->
  0 < total <= INT_MAX - 8192 ->
  skipped_type (c_str (_value (Get_const (B "CONTENT_TYPE") _SERVER))) = false ->
  Forall (fun p => zlen p <= 8192) r ->
  exists r1 r2 e, r = r1 ++ r2 /\ Parser_Parse _SERVER r = Ok (concat r1, e) /\
    (zlen (concat r1) = total <-> e = STATUS_OK) /\
    (zlen (concat r1) < total -> r2 = [] \/ exists r3, r2 = [] :: r3) /\
    (r1 <> [] -> zlen (concat (removelast r1)) < total).
Proof.
  intros Et Htot Hskip Hr. unfold Parser_Parse. rewrite <- Et, Hskip.
  rewrite (proj2 (Z.ltb_ge _ _)), (proj2 (Z.eqb_neq _ _)) by lia.
  destruct (Parse_loop_spec r total 0 [] Hr ltac:(lia) ltac:(lia)) as (r1 & r2 & E & -> & H1 & H2).
  exists r1, r2, (if zlen (concat r1) =? total then STATUS_OK else NERR_IO). cbn [app]. rewrite !Z.add_0_l in *.
  split_and!; [done|done| |done|done]. by destruct (Z.eqb_spec (zlen (concat r1)) total).
Qed.

Definition demo_server : Tree := Set_path (B "CONTENT_TYPE") (B "text/plain") (Set_path (B "CONTENT_LENGTH") (B "5") Tree_new).

Lemma cgi_Parser_Parse_witness :
  Parser_Parse demo_server [B "ab"; B "cde"; B "f"] = Ok (B "abcde", STATUS_OK) /\
  exists r1 e, Parser_Parse demo_server [B "ab"] = Ok (concat r1, e) /\ (zlen (concat r1) = 5 <-> e = STATUS_OK).
Proof.
  split; [vm_compute; reflexivity|].
  destruct (cgi_Parser_Parse demo_server [B "ab"] 5) as (r1 & r2 & e & _ & E & H & _).
  - vm_compute. reflexivity.
  - vm_compute. split; congruence.
  - vm_compute. reflexivity.
  - constructor; [vm_compute; congruence|constructor].
  - exists r1, e. split; [exact E|exact H].
Defined.

(** ** The trees *)

Lemma Set_path_wf k v t : wf t -> wf (Set_path k v t).
Proof. intros H. destruct (CreateOrSet_extends k v t) as (f & _ & Hw & _). by apply Hw. Qed.

Lemma TranslateHDF_loop_wf l t : wf t -> wf (TranslateHDF_loop l t).
Proof. revert t. induction l as [|[[k|] [v|]] l IH]; intros t Ht; cbn; auto using Set_path_wf. Qed.

Lemma TranslatePost_loop_wf cs l t files : wf t -> wf (TranslatePost_loop cs l t files).1.
Proof.
  revert t files. induction l as [|[[k|] [v|]] l IH]; intros t files Ht; cbn; auto.
  destruct (TranslateFile cs (Some k) files) as [[|] files']; auto using Set_path_wf.
Qed.

(** _REQUEST holds what was posted and the query: at every path the value
    of _POST, else that of _GET. *)
Theorem cgi_REQUEST_merges (fuel : nat) (cs : ClearSilver) (r : reads) (q : request) :
  CGI_construct fuel true cs r = Ok q ->
  forall path, value_at (_REQUEST q) path =
    match value_at (_POST q) path with Some v => Some v | None => value_at (_GET q) path end.
Proof.
  unfold CGI_construct. intros H path.
  destruct (TranslateEnvvars _ _ _) as [server|]; [|done]. cbn [rbind negb] in H.
  destruct (cgi_init cs), (cgi_register_parse_cb cs), (hdf_remove_tree cs); try done. cbn [throw_unless rbind] in H.
  destruct (if parses_with_callback cs then _ else _) as [[body e]|]; [|done]. cbn [rbind] in H.
  destruct (cgi_parse cs e); [|done]. cbn [throw_unless rbind] in H.
  destruct (if bool_decide _ then TranslatePost _ _ _ else _) as [posts files] eqn:Ep.
  match type of H with Ok ?x = Ok _ => assert (x = q) as <- by congruence end. cbn [_REQUEST _POST _GET].
  assert (wf (TranslateHDF cs (B "Query") Tree_new)) as Hq.
  { unfold TranslateHDF. destruct (hdf_children _ _); [apply TranslateHDF_loop_wf|]; apply wf_new. }
  assert (wf posts) as Hp.
  { destruct (bool_decide _).
    - assert (posts = (TranslatePost cs Tree_new []).1) as -> by (by rewrite Ep). unfold TranslatePost.
      destruct (hdf_posts cs); [apply TranslatePost_loop_wf|]; apply wf_new.
    - destruct (bool_decide _); injection Ep as <- _; apply wf_new. }
  set (t := Assign _ _). cbn [Merge].
  rewrite Merge_value_at by done. unfold t. rewrite Assign_value_at by done. unfold merged.
  destruct (value_at (TranslateHDF _ _ _) path), (value_at posts path); done.
Qed.

(** A post whose x overwrites that of the query. *)
Definition demo_cs : ClearSilver :=
  let server := [(B "REQUEST_METHOD", B "POST"); (B "CONTENT_LENGTH", B "7")] in
  mkClearSilver (fun i => Some (nth_error server i)) true
    (fun n => if bool_decide (n = B "Query") then Some [(Some (B "x"), Some (B "1")); (Some (B "y"), Some (B "2"))] else None)
    true true (fun e => match e with STATUS_OK => true | _ => false end) false
    (Some [(Some (B "x"), Some (B "3")); (Some (B "z"), None); (Some (B "x"), Some (B "4"))]) (fun _ => None) (fun _ => None).

Lemma cgi_REQUEST_merges_witness : exists q, CGI_construct 3 true demo_cs [] = Ok q /\
  value_at (_REQUEST q) [B "x"] = Some (B "3") /\ value_at (_REQUEST q) [B "y"] = Some (B "2").
Proof.
  destruct (CGI_construct 3 true demo_cs []) as [q|e] eqn:E; [|vm_compute in E; discriminate].
  exists q. split; [reflexivity|]. rewrite !(cgi_REQUEST_merges 3 demo_cs [] q E).
  vm_compute in E. injection E as <-. split; reflexivity.
Defined.
