(* ===== verification/Decimal.v ===== *)
(** * Arbitrary precision decimals: types/decimal.h and types/decimal.cpp

    [Decimal] is the state behind a [flinter::Decimal] (its [Context]).  Every
    method is a function of the same name; the ones that can throw, fail an
    assertion or overflow an [int] return a [result].  The argument of a
    method that compares [this == &o] is an [operand], so that the aliased call is
    a case of its own.  The theorems are in [DecimalFacts].

    [types/decimal.cpp] computes with [mpz_t] values of GMP, which is not part
    of this repository.  [Gmp] is the interface: one method per [mpz_*]
    function that file calls, over integers, with the law the GMP manual
    documents for it.  Functions whose sign alone is documented
    ([mpz_cmp], ...) have a law on the sign alone; [mpz_divexact_ui] and
    [mpz_tdiv_qr] have one where the manual defines them.  [gmp_model] is a
    concrete instance, so that the interface is inhabited and the witnesses
    evaluate. *)

From S2P Require Import Prelude Digits.

(** The text of [mpz_get_str] in base 10 is the canonical decimal one. *)
Class Gmp := {
  mpz_init : Z;
  mpz_set_ui : Z -> Z;
  mpz_set_si : Z -> Z;
  mpz_add : Z -> Z -> Z;
  mpz_sub : Z -> Z -> Z;
  mpz_mul : Z -> Z -> Z;
  mpz_neg : Z -> Z;
  mpz_add_ui : Z -> Z -> Z;
  mpz_sub_ui : Z -> Z -> Z;
  mpz_ui_pow_ui : Z -> Z -> Z;
  mpz_mul_2exp : Z -> Z -> Z;
  mpz_tdiv_qr : Z -> Z -> Z * Z;
  mpz_mod_ui : Z -> Z -> Z;
  mpz_divexact_ui : Z -> Z -> Z;
  mpz_cmp : Z -> Z -> Z;
  mpz_cmp_ui : Z -> Z -> Z;
  mpz_cmpabs : Z -> Z -> Z;
  mpz_sgn : Z -> Z;
  mpz_odd_p : Z -> Z;
  mpz_sizeinbase : Z -> Z -> Z;
  mpz_set_str : bytes -> Z -> option Z; (** None: returns -1 *)
  mpz_get_str : Z -> Z -> option bytes; (** base, value; None: NULL *)
  mpz_init_0 : mpz_init = 0;
  mpz_set_ui_eq n : 0 <= n <= ULLONG_MAX -> mpz_set_ui n = n;
  mpz_set_si_eq n : LLONG_MIN <= n <= LLONG_MAX -> mpz_set_si n = n;
  mpz_add_eq a b : mpz_add a b = a + b;
  mpz_sub_eq a b : mpz_sub a b = a - b;
  mpz_mul_eq a b : mpz_mul a b = a * b;
  mpz_neg_eq a : mpz_neg a = - a;
  mpz_add_ui_eq a n : 0 <= n <= ULLONG_MAX -> mpz_add_ui a n = a + n;
  mpz_sub_ui_eq a n : 0 <= n <= ULLONG_MAX -> mpz_sub_ui a n = a - n;
  mpz_ui_pow_ui_eq b n :
    0 <= b <= ULLONG_MAX -> 0 <= n <= ULLONG_MAX -> mpz_ui_pow_ui b n = b ^ n;
  mpz_mul_2exp_eq a n : 0 <= n -> mpz_mul_2exp a n = a * 2 ^ n;
  mpz_tdiv_qr_eq n d : d <> 0 -> mpz_tdiv_qr n d = (Z.quot n d, Z.rem n d);
  mpz_mod_ui_eq n d : 0 < d -> mpz_mod_ui n d = n mod d;
  mpz_divexact_ui_eq n d : 0 < d -> (d | n) -> mpz_divexact_ui n d = n / d;
  mpz_cmp_sgn a b : Z.sgn (mpz_cmp a b) = Z.sgn (a - b);
  mpz_cmp_ui_sgn a n : 0 <= n <= ULLONG_MAX -> Z.sgn (mpz_cmp_ui a n) = Z.sgn (a - n);
  mpz_cmpabs_sgn a b : Z.sgn (mpz_cmpabs a b) = Z.sgn (Z.abs a - Z.abs b);
  mpz_sgn_eq a : mpz_sgn a = Z.sgn a;
  mpz_odd_p_eq a : mpz_odd_p a <> 0 <-> Z.odd a = true;
  mpz_sizeinbase_10 a : zlen (dec (Z.abs a)) <= mpz_sizeinbase a 10;
  mpz_set_str_pos l : l <> [] -> forallb is_digit l = true ->
    mpz_set_str l 10 = Some (digits_value l);
  mpz_set_str_neg l : l <> [] -> forallb is_digit l = true ->
    mpz_set_str ("-"%char :: l) 10 = Some (- digits_value l);
  mpz_get_str_10 a : mpz_get_str 10 a = Some (dec_signed a);
}.

(** ** A concrete instance *)

Definition parse_mpz (l : bytes) (base : Z) : option Z :=
  match l with
  | "-"%char :: k =>
      if negb (bool_decide (k = [])) && forallb is_digit k
      then Some (- digits_value k) else None
  | _ => if negb (bool_decide (l = [])) && forallb is_digit l
         then Some (digits_value l) else None
  end.

Lemma parse_mpz_pos l b : l <> [] -> forallb is_digit l = true ->
  parse_mpz l b = Some (digits_value l).
Proof.
  intros Hn Hd. unfold parse_mpz. rewrite Hd, bool_decide_false by done. cbn.
  destruct l as [|[[] [] [] [] [] [] [] []] l]; try done.
Qed.

Definition sgn_diff (a b : Z) : Z := Z.sgn (a - b).

#[local, refine] Instance gmp_model : Gmp := {|
  mpz_init := 0;
  mpz_set_ui n := n;
  mpz_set_si n := n;
  mpz_add := Z.add;
  mpz_sub := Z.sub;
  mpz_mul := Z.mul;
  mpz_neg := Z.opp;
  mpz_add_ui := Z.add;
  mpz_sub_ui := Z.sub;
  mpz_ui_pow_ui := Z.pow;
  mpz_mul_2exp a n := a * 2 ^ n;
  mpz_tdiv_qr := Z.quotrem;
  mpz_mod_ui := Z.modulo;
  mpz_divexact_ui := Z.div;
  mpz_cmp := sgn_diff;
  mpz_cmp_ui := sgn_diff;
  mpz_cmpabs a b := sgn_diff (Z.abs a) (Z.abs b);
  mpz_sgn := Z.sgn;
  mpz_odd_p a := if Z.odd a then 1 else 0;
  mpz_sizeinbase a _ := zlen (dec (Z.abs a));
  mpz_set_str := parse_mpz;
  mpz_get_str _ a := Some (dec_signed a)
|}.
Proof.
  all: intros; cbn; try reflexivity; try (unfold sgn_diff; by rewrite Z.sgn_sgn).
  - unfold Z.quot, Z.rem. by destruct (Z.quotrem n d).
  - by destruct (Z.odd a).
  - by apply parse_mpz_pos.
  - by rewrite bool_decide_false, H0.
Defined.

Inductive Rounding : Type :=
| kRoundingTiesToEven
| kRoundingTiesAwayFromZero
| kRoundingTowardsZero
| kRoundingTowardsPositiveInfinity
| kRoundingTowardsNegativeInfinity.

#[export] Instance Rounding_eq_dec : EqDecision Rounding.
Proof. solve_decision. Defined.

Record Decimal : Type := mkDecimal {
  _v : Z;
  _scale : Z;
  _dscale : Z;
  _rounding : Rounding
}.

Definition set_v (c : Decimal) (v : Z) : Decimal :=
  mkDecimal v (_scale c) (_dscale c) (_rounding c).
Definition set_scale (c : Decimal) (s : Z) : Decimal :=
  mkDecimal (_v c) s (_dscale c) (_rounding c).

Abbreviation arg := (operand Decimal).

Section Decimal.
Context {G : Gmp}.

(** ** Construction and copies *)

Definition Decimal_new : Decimal := mkDecimal mpz_init 0 (-1) kRoundingTiesToEven.

Definition Decimal_copy (o : Decimal) : Decimal :=
  mkDecimal (_v o) (_scale o) (_dscale o) kRoundingTiesToEven.

Definition assign (self : Decimal) (o : arg) : Decimal :=
  match o with
  | This => self
  | Obj o => mkDecimal (_v o) (_scale o) (_dscale o) kRoundingTiesToEven
  end.

(** [D(t)]: [fits] is [sizeof(t) <= sizeof(long)]. *)
Definition Decimal_of_unsigned (fits : bool) (s : Z) : Decimal :=
  mkDecimal (if fits then mpz_set_ui s else default 0 (mpz_set_str (dec s) 10))
    0 (-1) kRoundingTiesToEven.

Definition Decimal_of_signed (fits : bool) (s : Z) : Decimal :=
  mkDecimal (if fits then mpz_set_si s else default 0 (mpz_set_str (dec_signed s) 10))
    0 (-1) kRoundingTiesToEven.

(** ** Parse *)

(** The scanner's local variables; [pos] is the length of [buffer]. *)
Record scan : Type := mkScan {
  digits : Z;
  scale_ : Z;
  zdigits : Z;
  buffer : bytes
}.

Definition scan_step (st : scan) (p : ascii) : option scan :=
  if is_digit p then
    Some (mkScan (digits st + 1)
            (if 0 <=? scale_ st then scale_ st + 1 else scale_ st)
            (if bool_decide (p = "0"%char) then zdigits st + 1 else 0)
            (buffer st ++ [p]))
  else if bool_decide (p = "."%char) then
    if 0 <=? scale_ st then None
    else Some (mkScan (digits st) 0 (zdigits st) (buffer st))
  else None.

Fixpoint scan_loop (st : scan) (s : bytes) : option scan :=
  match s with
  | [] => Some st
  | p :: s => match scan_step st p with Some st => scan_loop st s | None => None end
  end.

(** [Parse] returns whether it succeeded, and the object after it. *)
Definition Parse (c : Decimal) (s : bytes) : bool * Decimal :=
  if bool_decide (s = []) || (1024 <=? zlen s) then (false, c)
  else
    let '(sign, body) :=
      match s with
      | p :: k => if bool_decide (p = "-"%char) then ([p], k) else ([], s)
      | [] => ([], s)
      end in
    match scan_loop (mkScan 0 (-1) 0 sign) body with
    | None => (false, c)
    | Some st =>
        if digits st =? 0 then (false, c)
        else if zdigits st =? digits st then
          (true, set_scale (set_v c (mpz_set_ui 0)) 0)
        else
          let z := if 0 <? scale_ st then Z.min (zdigits st) (scale_ st) else 0 in
          let scale := if 0 <? z then scale_ st - z else scale_ st in
          let buf := if 0 <? z
                     then take (length (buffer st) - Z.to_nat z) (buffer st)
                     else buffer st in
          match mpz_set_str buf 10 with
          | None => (false, c)
          | Some v => (true, set_scale (set_v c v) (Z.max 0 scale))
          end
    end.

Definition Decimal_of_string (s : bytes) : result exn Decimal :=
  let '(ok, c) := Parse Decimal_new s in
  if ok then Ok (mkDecimal (_v c) (_scale c) (-1) kRoundingTiesToEven)
  else Err (invalid_argument "invalid decimal string").

(** [None] is the null pointer. *)
Definition Decimal_of_cstr (s : option bytes) : result exn Decimal :=
  match s with
  | None | Some [] => Err (invalid_argument "invalid decimal string")
  | Some s =>
      let '(ok, c) := Parse Decimal_new s in
      if ok then Ok (mkDecimal (_v c) (_scale c) (-1) kRoundingTiesToEven)
      else Err (invalid_argument "invalid decimal string")
  end.

(** ** Scale changes *)

Definition Upscale (c : Decimal) (s : Z) : result exn Decimal :=
  let v := mpz_mul (_v c) (mpz_ui_pow_ui 10 (u64 s)) in
  let! s' := int_ (_scale c + s) in
  Ok (set_scale (set_v c v) s').

(** [while (_scale)]: one unit of fuel per iteration. *)
Fixpoint Cleanup_loop (fuel : nat) (c : Decimal) : result exn Decimal :=
  match fuel with
  | O => Err out_of_fuel
  | S f =>
      if _scale c =? 0 then Ok c
      else if negb (mpz_cmp_ui (mpz_mod_ui (_v c) 10) 0 =? 0) then Ok c
      else Cleanup_loop f
             (set_scale (set_v c (mpz_divexact_ui (_v c) 10)) (_scale c - 1))
  end.

Definition Cleanup (c : Decimal) : result exn Decimal :=
  Cleanup_loop (S (Z.to_nat (_scale c))) c.

(** ** Arithmetic *)

Definition zero (c : Decimal) : bool := mpz_cmp_ui (_v c) 0 =? 0.
Definition positive (c : Decimal) : bool := 0 <? mpz_cmp_ui (_v c) 0.
Definition negative (c : Decimal) : bool := mpz_cmp_ui (_v c) 0 <? 0.

Definition Add (c : Decimal) (a : arg) : result exn Decimal :=
  let o := deref a c in
  let! c :=
    if _scale c <? _scale o then
      let! d := int_ (_scale o - _scale c) in
      let! c := Upscale c d in
      Ok (set_v c (mpz_add (_v c) (_v o)))
    else if _scale o <? _scale c then
      let! d := int_ (_scale c - _scale o) in
      let! t := Upscale (Decimal_copy o) d in
      Ok (set_v c (mpz_add (_v c) (_v t)))
    else Ok (set_v c (mpz_add (_v c) (_v o)))
  in Cleanup c.

Definition Sub (c : Decimal) (a : arg) : result exn Decimal :=
  let! c :=
    match a with
    | This => Ok (set_scale (set_v c (mpz_set_ui 0)) 0)
    | Obj o =>
        if _scale c <? _scale o then
          let! d := int_ (_scale o - _scale c) in
          let! c := Upscale c d in
          Ok (set_v c (mpz_sub (_v c) (_v o)))
        else if _scale o <? _scale c then
          let! d := int_ (_scale c - _scale o) in
          let! t := Upscale (Decimal_copy o) d in
          Ok (set_v c (mpz_sub (_v c) (_v t)))
        else Ok (set_v c (mpz_sub (_v c) (_v o)))
    end
  in Cleanup c.

Definition Mul (c : Decimal) (a : arg) : result exn Decimal :=
  let o := deref a c in
  let v := mpz_mul (_v c) (_v o) in
  let! s := int_ (_scale c + _scale o) in
  Cleanup (set_scale (set_v c v) s).

(** The remainder and quotient of [Div] before rounding: [(q, r, d)]. *)
Definition Div_qr (c o : Decimal) (scale diff : Z) : result exn (Z * Z * Z) :=
  let d := _v o in
  if diff <? scale then
    let! e := int_ (scale - diff) in
    let q := mpz_ui_pow_ui 10 (u64 e) in
    let '(q, r) := mpz_tdiv_qr (mpz_mul (_v c) q) d in
    Ok (q, r, d)
  else if scale <? diff then
    let! e := int_ (diff - scale) in
    let q := mpz_ui_pow_ui 10 (u64 e) in
    let d := mpz_mul d q in
    let '(q, r) := mpz_tdiv_qr (_v c) d in
    Ok (q, r, d)
  else
    let '(q, r) := mpz_tdiv_qr (_v c) d in
    Ok (q, r, d).

(** The rounding step of [Div]: the result of the method and the quotient. *)
Definition Div_round (rounding : Rounding) (qdir q r d : Z) : Z * Z :=
  if mpz_cmp_ui r 0 =? 0 then (0, q)
  else match rounding with
  | kRoundingTowardsPositiveInfinity =>
      (1, if 0 <? qdir then mpz_add_ui q 1 else q)
  | kRoundingTowardsNegativeInfinity =>
      (-1, if qdir <? 0 then mpz_sub_ui q 1 else q)
  | kRoundingTowardsZero => (- qdir, q)
  | _ =>
      let cmp := mpz_cmpabs (mpz_mul_2exp r 1) d in
      let bump :=
        if cmp =? 0 then
          if bool_decide (rounding = kRoundingTiesToEven)
          then negb (mpz_odd_p q =? 0) else true
        else if cmp <? 0 then false else true in
      if bump then
        (qdir, if 0 <? qdir then mpz_add_ui q 1 else mpz_sub_ui q 1)
      else (- qdir, q)
  end.

Definition Div (c : Decimal) (a : arg) (scale : Z) (rounding : Rounding)
  : result exn (Z * Decimal) :=
  let o := deref a c in
  if scale <? 0 then Err (invalid_argument "must specify scale")
  else if zero o then Err (invalid_argument "devided by zero")
  else match a with
  | This => Ok (0, set_scale (set_v c (mpz_set_ui 1)) 0)
  | Obj o =>
      if mpz_cmp_ui (_v c) 0 =? 0 then Ok (0, c)
      else
        let! diff := int_ (_scale c - _scale o) in
        let! (q, r, d) := Div_qr c o scale diff in
        let qdir := if mpz_sgn (_v c) =? mpz_sgn d then 1 else -1 in
        let '(result, q) := Div_round rounding qdir q r d in
        let! c := Cleanup (set_scale (set_v c q) scale) in
        Ok (result, c)
  end.

(** ** Comparison *)

Definition compare (c : Decimal) (a : arg) : result exn Z :=
  match a with
  | This => Ok 0
  | Obj o =>
      if _scale c =? _scale o then Ok (mpz_cmp (_v c) (_v o))
      else if _scale c <? _scale o then
        let! d := int_ (_scale o - _scale c) in
        let! t := Upscale (Decimal_copy c) d in
        Ok (mpz_cmp (_v t) (_v o))
      else
        let! d := int_ (_scale c - _scale o) in
        let! t := Upscale (Decimal_copy o) d in
        Ok (mpz_cmp (_v c) (_v t))
  end.

Definition op_gt c a := let! r := compare c a in Ok (0 <? r).
Definition op_lt c a := let! r := compare c a in Ok (r <? 0).
Definition op_eq c a := let! r := compare c a in Ok (r =? 0).
Definition op_ne c a := let! r := compare c a in Ok (negb (r =? 0)).
Definition op_ge c a := let! r := compare c a in Ok (0 <=? r).
Definition op_le c a := let! r := compare c a in Ok (r <=? 0).

(** ** Operators *)

Definition op_add_assign (c : Decimal) (a : arg) : result exn Decimal := Add c a.
Definition op_sub_assign (c : Decimal) (a : arg) : result exn Decimal := Sub c a.
Definition op_mul_assign (c : Decimal) (a : arg) : result exn Decimal := Mul c a.

(** [_dscale >= 0 ? _dscale : std::max(6, _scale - o._scale)] *)
Definition div_scale (c o : Decimal) : result exn Z :=
  if 0 <=? _dscale c then Ok (_dscale c)
  else let! d := int_ (_scale c - _scale o) in Ok (Z.max 6 d).

Definition op_div_assign (c : Decimal) (a : arg) : result exn Decimal :=
  let! scale := div_scale c (deref a c) in
  let! (_, c) := Div c a scale (_rounding c) in Ok c.

(** The binary operators work on a copy, which is never the operand. *)
Definition op_add (c : Decimal) (a : arg) : result exn Decimal :=
  Add (Decimal_copy c) (Obj (deref a c)).
Definition op_sub (c : Decimal) (a : arg) : result exn Decimal :=
  Sub (Decimal_copy c) (Obj (deref a c)).
Definition op_mul (c : Decimal) (a : arg) : result exn Decimal :=
  Mul (Decimal_copy c) (Obj (deref a c)).
Definition op_neg (c : Decimal) : Decimal :=
  let n := Decimal_copy c in set_v n (mpz_neg (_v n)).
Definition op_div (c : Decimal) (a : arg) : result exn Decimal :=
  let! scale := div_scale c (deref a c) in
  let! (_, n) := Div (Decimal_copy c) (Obj (deref a c)) scale (_rounding c) in Ok n.

Definition scale (c : Decimal) : Z := _scale c.
Definition set_default_scale (c : Decimal) (s : Z) : Decimal :=
  mkDecimal (_v c) (_scale c) s (_rounding c).
Definition default_scale (c : Decimal) : Z := _dscale c.
Definition set_default_rounding (c : Decimal) (r : Rounding) : Decimal :=
  mkDecimal (_v c) (_scale c) (_dscale c) r.
Definition default_rounding (c : Decimal) : Rounding := _rounding c.

(** ** Serialization *)

Definition PrintZero (scale : Z) : bytes :=
  if scale =? 0 then B "0"
  else <[1%nat := "."%char]> (replicate (Z.to_nat (scale + 2)) "0"%char).

Definition PrintOne (negative : bool) (scale : Z) : bytes :=
  if scale =? 0 then B (if negative then "-1" else "1")
  else if negative then
    <[0%nat := "-"%char]> (<[2%nat := "."%char]>
      (<[Z.to_nat (scale + 2) := "1"%char]>
        (replicate (Z.to_nat (scale + 3)) "0"%char)))
  else
    <[1%nat := "."%char]> (<[Z.to_nat (scale + 1) := "1"%char]>
      (replicate (Z.to_nat (scale + 2)) "0"%char)).

(** [s->insert(p, n, c)] with [p] at offset [i]. *)
Definition insert_at (i : nat) (x : bytes) (s : bytes) : bytes :=
  take i s ++ x ++ drop i s.

Definition SerializeWithAppending (c : Decimal) (scale : Z) : result exn bytes :=
  if scale <? 0 then Err assertion_failed
  else
    let! extra := int_ (scale - _scale c) in
    if extra <? 0 then Err assertion_failed
    else
      let size := mpz_sizeinbase (_v c) 10 + 2 in
      match mpz_get_str 10 (_v c) with
      | None => Err (runtime_error "failed to call mpz_get_str()")
      | Some s =>
          if size <? zlen s + 1 then Err undefined_behaviour
          else
            let neg := bool_decide (hd_error s = Some "-"%char) in
            let p := if neg then 1%nat else 0%nat in
            let len := zlen s - (if neg then 1 else 0) in
            let s :=
              if negb (_scale c =? 0) then
                if len <=? _scale c then
                  let more := _scale c - len in
                  let s := insert_at p (replicate (Z.to_nat (more + 2)) "0"%char) s in
                  if neg then <[2%nat := "."%char]> s else <[1%nat := "."%char]> s
                else
                  insert_at (p + Z.to_nat (len - _scale c)) ["."%char] s
              else if 0 <? extra then s ++ ["."%char] else s in
            Ok (s ++ replicate (Z.to_nat extra) "0"%char)
      end.

Definition SerializeWithRounding (c : Decimal) (scale : Z) (rounding : Rounding)
  : result exn (Z * bytes) :=
  if scale <? 0 then Err assertion_failed
  else
    let! (ret, m) :=
      Div (Decimal_copy c) (Obj (Decimal_of_signed true 1)) scale rounding in
    let! s := SerializeWithAppending m scale in
    Ok (ret, s).

Definition Serialize (c : Decimal) (scale : Z) (rounding : Rounding)
  : result exn (Z * bytes) :=
  if (scale <? 0) && (mpz_cmp_ui (_v c) 0 =? 0) then Ok (0, PrintZero 0)
  else
    let ns := if 0 <=? scale then scale else _scale c in
    let! extra := int_ (ns - _scale c) in
    if 0 <=? extra
    then let! s := SerializeWithAppending c ns in Ok (0, s)
    else SerializeWithRounding c ns rounding.

Definition str (c : Decimal) (scale : Z) : result exn bytes :=
  let! (_, s) :=
    Serialize c (if 0 <=? scale then scale else _dscale c) (_rounding c) in
  Ok s.

End Decimal.
