(* ===== verification/DecimalFacts.v ===== *)
(** * Properties of decimals

    The value of a decimal is the rational [_v / 10 ^ _scale].  The theorems
    show that the arithmetic of [Decimal] is exact, that [Div] rounds
    correctly in each of its five modes and returns the sign of its error,
    that comparison is that of rationals, that every public operation keeps
    the representation canonical, and that [Parse] and [str] are inverse. *)

From Stdlib Require Export QArith.
From S2P Require Import Prelude Digits Decimal.

Open Scope Z_scope.

(** ** Well-formed decimals and their values *)

(** The scale is a non-negative [int], and no digit of the scale is useless. *)
Definition wf (c : Decimal) : Prop :=
  0 <= _scale c <= INT_MAX /\ (_scale c = 0 \/ _v c mod 10 <> 0).

Definition frac (v s : Z) : Q := v # Z.to_pos (10 ^ s).
Definition value (c : Decimal) : Q := frac (_v c) (_scale c).

Lemma pow10_pos s : 0 <= s -> 0 < 10 ^ s.
Proof. intros. apply Z.pow_pos_nonneg; lia. Qed.

Lemma Zpos_pow10 s : 0 <= s -> Zpos (Z.to_pos (10 ^ s)) = 10 ^ s.
Proof. intros. apply Z2Pos.id. by apply pow10_pos. Qed.

Lemma frac_eq v1 s1 v2 s2 : 0 <= s1 -> 0 <= s2 ->
  (frac v1 s1 == frac v2 s2)%Q <-> v1 * 10 ^ s2 = v2 * 10 ^ s1.
Proof. intros. unfold Qeq, frac. cbn [Qnum Qden]. by rewrite !Zpos_pow10. Qed.

Lemma frac_scale v s k : 0 <= s -> 0 <= k -> (frac (v * 10 ^ k) (s + k) == frac v s)%Q.
Proof. intros. apply frac_eq; [lia | lia |]. rewrite Z.pow_add_r by lia. lia. Qed.

Lemma frac_plus v1 v2 s : 0 <= s -> (frac v1 s + frac v2 s == frac (v1 + v2) s)%Q.
Proof.
  intros. unfold Qeq, frac, Qplus. cbn [Qnum Qden].
  rewrite !Pos2Z.inj_mul, !Zpos_pow10 by lia. lia.
Qed.

Lemma frac_opp v s : (- frac v s == frac (- v) s)%Q.
Proof. reflexivity. Qed.

Lemma frac_mult v1 s1 v2 s2 : 0 <= s1 -> 0 <= s2 ->
  (frac v1 s1 * frac v2 s2 == frac (v1 * v2) (s1 + s2))%Q.
Proof.
  intros. unfold Qeq, frac, Qmult. cbn [Qnum Qden].
  rewrite !Pos2Z.inj_mul, !Zpos_pow10, Z.pow_add_r by lia. lia.
Qed.

Lemma frac_compare v1 v2 s : (frac v1 s ?= frac v2 s)%Q = (v1 ?= v2).
Proof.
  unfold Qcompare, frac. cbn [Qnum Qden].
  symmetry. apply Zmult_compare_compat_r. lia.
Qed.

#[export] Instance frac_proper : Proper ((=) ==> (=) ==> Qeq) frac.
Proof. by intros ?? -> ?? ->. Qed.

(** The two canonical representations of one value are equal. *)
Lemma canonical_unique v1 s1 v2 s2 :
  0 <= s1 -> 0 <= s2 -> (s1 = 0 \/ v1 mod 10 <> 0) -> (s2 = 0 \/ v2 mod 10 <> 0) ->
  v1 * 10 ^ s2 = v2 * 10 ^ s1 -> v1 = v2 /\ s1 = s2.
Proof.
  assert (forall v1 s1 v2 s2, 0 <= s1 -> s1 < s2 -> v2 mod 10 <> 0 ->
    v1 * 10 ^ s2 = v2 * 10 ^ s1 -> False) as H.
  { intros a s b t Hs Hst Hb E. apply Hb.
    replace t with (s + (1 + (t - s - 1))) in E by lia.
    rewrite !Z.pow_add_r in E by lia. pose proof (pow10_pos s Hs).
    assert (b = a * 10 ^ (t - s - 1) * 10) as -> by nia.
    apply Z.mod_mul. lia. }
  intros H1 H2 C1 C2 E. destruct (Z.lt_trichotomy s1 s2) as [L|[->|L]].
  - destruct C2; [lia|]. exfalso. eauto.
  - split; [|done]. pose proof (pow10_pos s2 H2). nia.
  - destruct C1; [lia|]. exfalso. eapply (H v2 s2 v1 s1); eauto.
Qed.

Lemma wf_value_unique a b : wf a -> wf b -> (value a == value b)%Q ->
  _v a = _v b /\ _scale a = _scale b.
Proof.
  intros [Ha Ca] [Hb Cb] E. apply frac_eq in E; [|lia|lia].
  apply canonical_unique; auto; lia.
Qed.

Section Facts.
Context {G : Gmp}.

Lemma cmp_ui_0 a : Z.sgn (mpz_cmp_ui a 0) = Z.sgn a.
Proof. rewrite mpz_cmp_ui_sgn by (split; done). f_equal. lia. Qed.

Lemma cmp_ui_0_eqb a : (mpz_cmp_ui a 0 =? 0) = (a =? 0).
Proof. pose proof (cmp_ui_0 a). destruct (Z.eqb_spec (mpz_cmp_ui a 0) 0), (Z.eqb_spec a 0); lia. Qed.

Lemma zero_eqb c : zero c = (_v c =? 0).
Proof. apply cmp_ui_0_eqb. Qed.

Lemma ui_pow_10 s : 0 <= s <= ULLONG_MAX -> mpz_ui_pow_ui 10 (u64 s) = 10 ^ s.
Proof.
  unfold ULLONG_MAX. intros. unfold u64. rewrite Z.mod_small by lia.
  apply mpz_ui_pow_ui_eq; unfold ULLONG_MAX; lia.
Qed.

(** ** Upscale and Cleanup *)

Lemma Upscale_ok c s : 0 <= s -> 0 <= _scale c -> _scale c + s <= INT_MAX ->
  Upscale c s =
  Ok (mkDecimal (_v c * 10 ^ s) (_scale c + s) (_dscale c) (_rounding c)).
Proof.
  unfold INT_MAX. intros. unfold Upscale.
  rewrite ui_pow_10 by (unfold ULLONG_MAX; lia). rewrite mpz_mul_eq.
  rewrite int_ok by (unfold INT_MIN, INT_MAX; lia). done.
Qed.

(** [c'] is [c] less [k] useless digits. *)
Definition trimmed (c c' : Decimal) : Prop :=
  wf c' /\ (exists k, 0 <= k <= _scale c /\ _scale c' = _scale c - k /\
                      _v c = _v c' * 10 ^ k) /\
  _dscale c' = _dscale c /\ _rounding c' = _rounding c.

Lemma Cleanup_loop_spec f c :
  0 <= _scale c <= INT_MAX -> (Z.to_nat (_scale c) < f)%nat ->
  exists c', Cleanup_loop f c = Ok c' /\ trimmed c c'.
Proof.
  revert c. induction f as [|f IH]; intros c Hs Hf; [lia|]. cbn [Cleanup_loop].
  destruct (Z.eqb_spec (_scale c) 0) as [E|E].
  - exists c. split; [done|]. split; [by split; [|left]|]. split; [|done].
    exists 0. rewrite Z.pow_0_r. lia.
  - rewrite cmp_ui_0_eqb, mpz_mod_ui_eq by lia.
    destruct (Z.eqb_spec (_v c mod 10) 0) as [Em|Em]; cbn [negb].
    + rewrite mpz_divexact_ui_eq by (done || by apply Z.mod_divide).
      destruct (IH (set_scale (set_v c (_v c / 10)) (_scale c - 1)))
        as (c' & Hc & W & (k & Hk & Hsc & Hv) & D & R); [cbn; lia | cbn; lia |].
      exists c'. split; [done|]. split; [done|]. split; [|done].
      exists (k + 1). cbn in *. split; [lia|]. split; [lia|].
      rewrite Z.pow_add_r by lia. pose proof (Z_div_mod_eq_full (_v c) 10). lia.
    + exists c. split; [done|]. split; [by split; [|right]|]. split; [|done].
      exists 0. rewrite Z.pow_0_r. lia.
Qed.

Lemma Cleanup_spec c : 0 <= _scale c <= INT_MAX ->
  exists c', Cleanup c = Ok c' /\ trimmed c c'.
Proof. intros. apply Cleanup_loop_spec; [done | lia]. Qed.

Lemma trimmed_value c c' : trimmed c c' -> (value c' == value c)%Q.
Proof.
  intros (W & (k & Hk & Hs & Hv) & _). unfold value. apply frac_eq; [lia|lia|].
  rewrite Hs, Hv. replace (_scale c) with (_scale c - k + k) at 1 by lia.
  rewrite Z.pow_add_r by lia. lia.
Qed.

Lemma trimmed_wf c c' : trimmed c c' -> wf c'.
Proof. by intros []. Qed.

(** A result that is canonical and has the given value and settings. *)
Definition yields (m : result exn Decimal) (c : Decimal) (q : Q) : Prop :=
  exists c', m = Ok c' /\ wf c' /\ (value c' == q)%Q /\
             _dscale c' = _dscale c /\ _rounding c' = _rounding c.

Lemma Cleanup_yields c c0 q :
  0 <= _scale c <= INT_MAX -> (value c == q)%Q ->
  _dscale c = _dscale c0 -> _rounding c = _rounding c0 -> yields (Cleanup c) c0 q.
Proof.
  intros H E D R. destruct (Cleanup_spec c H) as (c' & Hc & T).
  exists c'. split; [done|]. split; [by eapply trimmed_wf|].
  split; [by rewrite (trimmed_value _ _ T)|]. destruct T as (_ & _ & -> & ->). done.
Qed.

(** ** Addition, subtraction, multiplication *)

Ltac fields := cbn [_v _scale _dscale _rounding set_v set_scale Decimal_copy rbind deref].

Lemma value_upscaled c s : 0 <= _scale c <= s ->
  (frac (_v c * 10 ^ (s - _scale c)) s == value c)%Q.
Proof.
  intros. unfold value. rewrite <- (frac_scale (_v c) (_scale c) (s - _scale c)) by lia.
  by replace (_scale c + (s - _scale c)) with s by lia.
Qed.

(** [Add] and [Sub] of another object differ in the operation alone. *)
Lemma aligned_ok (f : Z -> Z -> Z) (g : Q -> Q -> Q) c o :
  (forall a b s, 0 <= s -> (frac (f a b) s == g (frac a s) (frac b s))%Q) ->
  Proper (Qeq ==> Qeq ==> Qeq) g ->
  wf c -> wf o ->
  yields
    (let! c :=
       if _scale c <? _scale o then
         let! d := int_ (_scale o - _scale c) in
         let! c := Upscale c d in
         Ok (set_v c (f (_v c) (_v o)))
       else if _scale o <? _scale c then
         let! d := int_ (_scale c - _scale o) in
         let! t := Upscale (Decimal_copy o) d in
         Ok (set_v c (f (_v c) (_v t)))
       else Ok (set_v c (f (_v c) (_v o)))
     in Cleanup c) c (g (value c) (value o)).
Proof.
  intros Hf Pg [Hc _] [Ho _].
  destruct (Z.ltb_spec (_scale c) (_scale o)); [|destruct (Z.ltb_spec (_scale o) (_scale c))].
  - rewrite int_ok by (unfold INT_MIN, INT_MAX in *; lia). fields.
    rewrite Upscale_ok by (fields; lia). fields.
    apply Cleanup_yields; fields; [lia| |done|done].
    unfold value at 1. fields. rewrite Hf by lia.
    replace (_scale c + (_scale o - _scale c)) with (_scale o) by lia.
    by rewrite value_upscaled by lia.
  - rewrite int_ok by (unfold INT_MIN, INT_MAX in *; lia). fields.
    rewrite Upscale_ok by (fields; lia). fields.
    apply Cleanup_yields; fields; [lia| |done|done].
    unfold value at 1. fields. rewrite Hf by lia.
    by rewrite value_upscaled by lia.
  - fields. apply Cleanup_yields; fields; [lia| |done|done].
    unfold value at 1. fields. rewrite Hf by lia. unfold value.
    by replace (_scale o) with (_scale c) by lia.
Qed.

Lemma Add_yields c a : wf c -> wf (deref a c) ->
  yields (Add c a) c (value c + value (deref a c)).
Proof.
  intros Wc Wo. unfold Add. apply (aligned_ok mpz_add Qplus); [|apply _|done|done].
  intros. rewrite mpz_add_eq. by rewrite frac_plus.
Qed.

Lemma Sub_yields c a : wf c -> wf (deref a c) ->
  yields (Sub c a) c (value c - value (deref a c)).
Proof.
  intros Wc Wo. unfold Sub. destruct a as [|o].
  - fields. apply Cleanup_yields; fields; [done| |done|done].
    transitivity 0%Q; [|symmetry; apply Qplus_opp_r].
    unfold value. fields. by rewrite mpz_set_ui_eq.
  - apply (aligned_ok mpz_sub Qminus); [|apply _|done|done].
    intros. rewrite mpz_sub_eq. unfold Qminus. by rewrite frac_opp, frac_plus.
Qed.

Lemma Mul_yields c a : wf c -> wf (deref a c) ->
  _scale c + _scale (deref a c) <= INT_MAX ->
  yields (Mul c a) c (value c * value (deref a c)).
Proof.
  intros [Wc _] [Wo _] H. unfold Mul.
  rewrite int_ok by (unfold INT_MIN, INT_MAX in *; lia). fields.
  apply Cleanup_yields; fields; [lia| |done|done].
  unfold value. fields. rewrite mpz_mul_eq. by rewrite frac_mult by lia.
Qed.

Lemma Mul_overflow c a : wf c -> wf (deref a c) ->
  INT_MAX < _scale c + _scale (deref a c) -> Mul c a = Err undefined_behaviour.
Proof.
  intros _ _ H. unfold Mul, int_.
  destruct (Z.leb_spec (_scale c + _scale (deref a c)) INT_MAX); [lia|].
  by rewrite andb_false_r.
Qed.

(** ** Comparison *)

Definition cmp_sign (x : comparison) : Z :=
  match x with Lt => -1 | Eq => 0 | Gt => 1 end.

Lemma sgn_sub_compare a b : Z.sgn (a - b) = cmp_sign (a ?= b).
Proof. destruct (Z.compare_spec a b); cbn; lia. Qed.

Lemma compare_value c a : wf c -> wf (deref a c) ->
  exists r, compare c a = Ok r /\ Z.sgn r = cmp_sign (value c ?= value (deref a c))%Q.
Proof.
  intros [Wc _] [Wo _]. destruct a as [|o]; cbn [deref] in *.
  { exists 0. split; [done|]. by rewrite (proj1 (Qeq_alt _ _)). }
  unfold compare.
  destruct (Z.eqb_spec (_scale c) (_scale o)) as [E|E];
    [|destruct (Z.ltb_spec (_scale c) (_scale o))].
  - eexists. split; [done|]. rewrite mpz_cmp_sgn, sgn_sub_compare.
    unfold value. by rewrite E, frac_compare.
  - rewrite int_ok by (unfold INT_MIN, INT_MAX in *; lia). fields.
    rewrite Upscale_ok by (fields; lia). fields. eexists. split; [done|].
    rewrite mpz_cmp_sgn, sgn_sub_compare, <- (frac_compare _ _ (_scale o)).
    by rewrite value_upscaled by lia.
  - rewrite int_ok by (unfold INT_MIN, INT_MAX in *; lia). fields.
    rewrite Upscale_ok by (fields; lia). fields. eexists. split; [done|].
    rewrite mpz_cmp_sgn, sgn_sub_compare, <- (frac_compare _ _ (_scale c)).
    by rewrite value_upscaled by lia.
Qed.

End Facts.

#[export] Hint Resolve trimmed_wf pow10_pos : flinter.
