(* ===== verification/DecimalDiv.v ===== *)
(** * Division of decimals

    [Div] of types/decimal.cpp is correctly rounded in its five modes
    ([rounded]), and its result is the sign of the error of the quotient it
    stores, as the comment of types/decimal.h says.  The integer algorithm
    (truncated division, then a step on the quotient) is proved on fractions
    of integers ([roundedZ]) and carried over to rationals. *)

From Stdlib Require Export Qabs.
From S2P Require Import Prelude Digits Decimal DecimalFacts.

Open Scope Z_scope.

(** ** The specification of rounding *)

(** [q] is [x] rounded to an integer. *)
Definition rounded (m : Rounding) (x : Q) (q : Z) : Prop :=
  let e := Qabs (inject_Z q - x) in
  match m with
  | kRoundingTowardsPositiveInfinity => (x <= inject_Z q < x + 1)%Q
  | kRoundingTowardsNegativeInfinity => (x - 1 < inject_Z q <= x)%Q
  | kRoundingTowardsZero =>
      (Qabs (inject_Z q) <= Qabs x < Qabs (inject_Z q) + 1 /\ 0 <= inject_Z q * x)%Q
  | kRoundingTiesToEven => (2 * e < 1 \/ 2 * e == 1 /\ Z.even q = true)%Q
  | kRoundingTiesAwayFromZero =>
      (2 * e < 1 \/ 2 * e == 1 /\ Qabs x < Qabs (inject_Z q))%Q
  end.

#[export] Instance rounded_proper m : Proper (Qeq ==> (=) ==> iff) (rounded m).
Proof.
  intros x y E q ? <-. unfold rounded. destruct m; by setoid_rewrite E.
Qed.

(** The same for a fraction of integers with a positive denominator. *)
Definition roundedZ (m : Rounding) (N D q : Z) : Prop :=
  let e := Z.abs (q * D - N) in
  match m with
  | kRoundingTowardsPositiveInfinity => N <= q * D < N + D
  | kRoundingTowardsNegativeInfinity => N - D < q * D <= N
  | kRoundingTowardsZero =>
      Z.abs q * D <= Z.abs N < Z.abs q * D + D /\ 0 <= q * N
  | kRoundingTiesToEven => 2 * e < D \/ 2 * e = D /\ Z.even q = true
  | kRoundingTiesAwayFromZero => 2 * e < D \/ 2 * e = D /\ Z.abs N < Z.abs q * D
  end.

Lemma rounded_Z m N D q : roundedZ m N (Zpos D) q -> rounded m (N # D) q.
Proof.
  assert (forall q N, Qabs (inject_Z q - (N # D)) == Z.abs (q * Zpos D - N) # D)%Q as HA.
  { intros. unfold Qeq, Qabs, Qminus, Qplus, inject_Z, Qopp. cbn [Qnum Qden]. lia. }
  unfold rounded, roundedZ. destruct m; try rewrite HA;
    unfold Qminus, Qlt, Qle, Qeq, Qplus, Qmult, Qopp, Qabs, inject_Z; cbn [Qnum Qden];
    intros H; rewrite ?Pos.mul_1_r, ?Pos.mul_1_l; try lia.
  by rewrite !Z.mul_1_r, Z.mul_1_l.
Qed.

(** ** The integer division of [Div_round] *)

Lemma quot_sign n d : d <> 0 -> 0 <= Z.quot n d * (n * Z.sgn d).
Proof.
  assert (forall n d, 0 <= n -> 0 < d -> 0 <= Z.quot n d * n) as H.
  { intros a b Ha Hb. pose proof (Z.quot_pos a b Ha Hb). nia. }
  intros Hd. destruct (Z.sgn_spec d) as [[? ->]|[[? ->]|[? ->]]]; [|lia|];
    destruct (Z.le_gt_cases 0 n).
  - rewrite Z.mul_1_r. auto.
  - specialize (H (- n) d). rewrite Z.quot_opp_l in H by lia. lia.
  - specialize (H n (- d)). rewrite Z.quot_opp_r in H by lia. lia.
  - specialize (H (- n) (- d)). rewrite Z.quot_opp_opp in H by lia. lia.
Qed.

Lemma quot_rem_normal n d : d <> 0 ->
  n * Z.sgn d = Z.quot n d * Z.abs d + Z.rem n d * Z.sgn d /\
  Z.abs (Z.rem n d) < Z.abs d /\ 0 <= Z.rem n d * n.
Proof.
  intros Hd. pose proof (Z.quot_rem n d Hd) as E.
  pose proof (Z.rem_bound_abs n d Hd). pose proof (Z.rem_sign_mul n d Hd).
  repeat split; [|done|lia].
  rewrite <- Z.sgn_abs. rewrite E at 1. ring.
Qed.

(** [Div_round] without GMP: [h] compares twice the remainder to [d]. *)
Definition round_step (m : Rounding) (qdir q : Z) (h : comparison) : Z * Z :=
  match m with
  | kRoundingTowardsPositiveInfinity => (1, if 0 <? qdir then q + 1 else q)
  | kRoundingTowardsNegativeInfinity => (-1, if qdir <? 0 then q - 1 else q)
  | kRoundingTowardsZero => (- qdir, q)
  | _ =>
      let bump := match h with
                  | Eq => if bool_decide (m = kRoundingTiesToEven) then Z.odd q else true
                  | Lt => false
                  | Gt => true
                  end in
      if bump then (qdir, if 0 <? qdir then q + 1 else q - 1) else (- qdir, q)
  end.

Lemma Div_round_step {G : Gmp} m qdir q r d :
  Div_round m qdir q r d =
  if r =? 0 then (0, q) else round_step m qdir q (2 * Z.abs r ?= Z.abs d).
Proof.
  unfold Div_round. rewrite cmp_ui_0_eqb, mpz_add_ui_eq, mpz_sub_ui_eq, mpz_mul_2exp_eq
    by (unfold ULLONG_MAX; lia).
  destruct (r =? 0); [done|].
  pose proof (mpz_cmpabs_sgn (r * 2 ^ 1) d) as HC.
  assert (negb (mpz_odd_p q =? 0) = Z.odd q) as ->.
  { pose proof (mpz_odd_p_eq q). destruct (Z.eqb_spec (mpz_odd_p q) 0); cbn.
    - destruct (Z.odd q) eqn:E; [|done]. by destruct (proj2 H eq_refl).
    - symmetry. by apply H. }
  unfold round_step.
  destruct m; try done;
    destruct (Z.compare_spec (2 * Z.abs r) (Z.abs d)), (Z.eqb_spec (mpz_cmpabs (r * 2 ^ 1) d) 0),
      (Z.ltb_spec (mpz_cmpabs (r * 2 ^ 1) d) 0); try done; lia.
Qed.

Lemma even_succ_odd q : Z.odd q = true -> Z.even (q + 1) = true /\ Z.even (q - 1) = true.
Proof.
  intros. rewrite Z.even_add, Z.even_sub, <- Z.negb_odd, H. done.
Qed.

Ltac step_cases Hs m R D q :=
  unfold round_step in Hs; unfold roundedZ; destruct m;
  rewrite ?bool_decide_true, ?bool_decide_false in Hs by done;
  destruct (Z.compare_spec (2 * Z.abs R) D); try destruct (Z.odd q);
  cbn in Hs; injection Hs as <- <-; cbn [Z.opp].

(** [N] and [D] are the fraction, [R] the remainder, [qdir] the sign of [N]. *)
Lemma round_step_spec m N D q R ret q' :
  0 < D -> N <> 0 -> N = q * D + R -> Z.abs R < D -> 0 <= R * N -> 0 <= q * N -> R <> 0 ->
  round_step m (Z.sgn N) q (2 * Z.abs R ?= D) = (ret, q') ->
  roundedZ m N D q' /\ Z.sgn ret = Z.sgn (q' * D - N).
Proof.
  intros HD HN E HR HRN HQN HR0 Hs.
  pose proof (even_succ_odd q) as HE.
  assert (Z.odd q = false -> Z.even q = true) as HO.
  { intros HO. rewrite <- Z.negb_odd. by rewrite HO. }
  destruct (Z.lt_trichotomy N 0) as [L|[L|L]]; [|lia|].
  - rewrite (Z.sgn_neg N L) in Hs. assert (R < 0) by nia. assert (q <= 0) by nia.
    step_cases Hs m R D q.
    all: rewrite ?(Z.abs_neq q), ?(Z.abs_neq (q - 1)), ?Z.mul_sub_distr_r by lia.
    all: split; [first [lia | left; lia | right; split; [lia|first [tauto|lia]]] | lia].
  - rewrite (Z.sgn_pos N L) in Hs. assert (R > 0) by nia. assert (0 <= q) by nia.
    step_cases Hs m R D q.
    all: rewrite ?(Z.abs_eq q), ?(Z.abs_eq (q + 1)), ?Z.mul_add_distr_r by lia.
    all: split; [first [lia | left; lia | right; split; [lia|first [tauto|lia]]] | lia].
Qed.

Lemma roundedZ_exact m D q : 0 < D -> roundedZ m (q * D) D q.
Proof.
  intros. unfold roundedZ. replace (q * D - q * D) with 0 by lia.
  destruct m; rewrite ?Z.abs_mul, ?(Z.abs_eq D) by lia; try lia; (left; lia) || nia.
Qed.

Lemma Div_round_spec {G : Gmp} m n d ret q' :
  d <> 0 -> n <> 0 ->
  Div_round m (if Z.sgn n =? Z.sgn d then 1 else -1) (Z.quot n d) (Z.rem n d) d = (ret, q') ->
  roundedZ m (n * Z.sgn d) (Z.abs d) q' /\
  Z.sgn ret = Z.sgn (q' * Z.abs d - n * Z.sgn d).
Proof.
  intros Hd Hn. rewrite Div_round_step.
  destruct (quot_rem_normal n d Hd) as (EN & HR & HS).
  pose proof (quot_sign n d Hd) as HQ.
  assert ((if Z.sgn n =? Z.sgn d then 1 else -1) = Z.sgn (n * Z.sgn d)) as ->.
  { destruct n, d; done. }
  destruct (Z.eqb_spec (Z.rem n d) 0) as [E0|E0].
  - intros [= <- <-]. rewrite EN, E0, Z.mul_0_l, Z.add_0_r, Z.sub_diag.
    split; [apply roundedZ_exact; lia | done].
  - replace (Z.abs (Z.rem n d)) with (Z.abs (Z.rem n d * Z.sgn d)) by lia.
    intros E. eapply (round_step_spec m); [lia | lia | exact EN | lia | nia | lia | lia |].
    exact E.
Qed.

(** ** From integers to rationals *)

Lemma inject_Z_nonzero d : d <> 0 -> ~ (inject_Z d == 0)%Q.
Proof. intros H E. apply H. unfold Qeq in E. cbn in E. lia. Qed.

Lemma inject_Z_div n d : d <> 0 ->
  (inject_Z n / inject_Z d == n * Z.sgn d # Z.to_pos (Z.abs d))%Q.
Proof.
  intros. unfold Qdiv, Qinv, inject_Z, Qeq, Qmult. destruct d; cbn [Qnum Qden Z.sgn Z.abs Z.to_pos]; rewrite ?Pos.mul_1_l; try lia;
    by rewrite Z2Pos.id by lia.
Qed.

Lemma frac_inject v s : 0 <= s -> (frac v s == inject_Z v / inject_Z (10 ^ s))%Q.
Proof.
  intros. pose proof (pow10_pos s H). rewrite inject_Z_div by lia.
  unfold frac. rewrite Z.sgn_pos, Z.abs_eq, Z.mul_1_r by lia. done.
Qed.

(** The quotient of two decimals in units of [10 ^ -s], as a fraction. *)
Lemma ratio_frac v a w b s n d :
  0 <= a -> 0 <= b -> 0 <= s -> w <> 0 -> d <> 0 ->
  v * 10 ^ (b + s) * d = n * w * 10 ^ a ->
  (frac v a / frac w b * inject_Z (10 ^ s) == n * Z.sgn d # Z.to_pos (Z.abs d))%Q.
Proof.
  intros Ha Hb Hs Hw Hd E. rewrite <- inject_Z_div by done.
  rewrite !frac_inject by done.
  pose proof (inject_Z_nonzero w Hw). pose proof (inject_Z_nonzero d Hd).
  pose proof (pow10_pos a Ha) as Pa. pose proof (pow10_pos b Hb) as Pb.
  assert (~ inject_Z (10 ^ a) == 0)%Q by (apply inject_Z_nonzero; lia).
  assert (~ inject_Z (10 ^ b) == 0)%Q by (apply inject_Z_nonzero; lia).
  rewrite Z.pow_add_r in E by lia. apply (f_equal inject_Z) in E.
  rewrite !inject_Z_mult in E.
  transitivity ((inject_Z v * (inject_Z (10 ^ b) * inject_Z (10 ^ s)) * inject_Z d)
                / (inject_Z d * inject_Z w * inject_Z (10 ^ a)))%Q; [by field|].
  rewrite E. by field.
Qed.

Lemma Qcompare_mul_pos x y z : (0 < z)%Q -> (x * z ?= y * z)%Q = (x ?= y)%Q.
Proof.
  intros Hz. destruct (Qcompare_spec x y) as [E|L|L].
  - apply Qeq_alt. by rewrite E.
  - apply Qlt_alt. by apply Qmult_lt_r.
  - apply Qgt_alt. by apply Qmult_lt_r.
Qed.

(** The error of a quotient, in units of its last digit and exactly. *)
Lemma ret_sign m x q s N D :
  0 <= s -> 0 < D -> (x * inject_Z (10 ^ s) == N # Z.to_pos D)%Q ->
  roundedZ m N D q ->
  rounded m (x * inject_Z (10 ^ s)) q /\ cmp_sign (frac q s ?= x)%Q = Z.sgn (q * D - N).
Proof.
  intros Hs HD E H. split.
  { rewrite E. apply rounded_Z. by rewrite Z2Pos.id. }
  rewrite sgn_sub_compare. f_equal.
  pose proof (pow10_pos s Hs) as Ps.
  rewrite <- (Qcompare_mul_pos _ _ (inject_Z (10 ^ s))) by (unfold Qlt; cbn; lia).
  rewrite E, frac_inject by done.
  assert (inject_Z q / inject_Z (10 ^ s) * inject_Z (10 ^ s) == inject_Z q)%Q as ->.
  { field. apply inject_Z_nonzero. lia. }
  unfold Qcompare. cbn [Qnum Qden inject_Z]. by rewrite Z2Pos.id, Z.mul_1_r.
Qed.

Lemma Div_qr_spec {G : Gmp} c o s :
  0 <= _scale c <= INT_MAX -> 0 <= _scale o <= INT_MAX -> 0 <= s <= INT_MAX ->
  s - (_scale c - _scale o) <= INT_MAX -> _v o <> 0 ->
  exists n d,
    Div_qr c o s (_scale c - _scale o) = Ok (Z.quot n d, Z.rem n d, d) /\
    d <> 0 /\ Z.sgn n = Z.sgn (_v c) /\
    _v c * 10 ^ (_scale o + s) * d = n * _v o * 10 ^ _scale c.
Proof.
  intros Hc Ho Hs HI Hv. unfold Div_qr, INT_MAX in *.
  set (diff := _scale c - _scale o) in *.
  destruct (Z.ltb_spec diff s) as [L|L]; [|destruct (Z.ltb_spec s diff) as [L'|L']].
  - rewrite int_ok by (unfold INT_MIN, INT_MAX; lia). cbn [rbind].
    rewrite ui_pow_10 by (unfold ULLONG_MAX; lia).
    rewrite mpz_tdiv_qr_eq, mpz_mul_eq by done.
    pose proof (pow10_pos (s - diff) ltac:(lia)).
    eexists (_v c * 10 ^ (s - diff)), (_v o). split; [done|]. split; [done|].
    split; [rewrite Z.sgn_mul; lia|].
    replace (_scale o + s) with (_scale c + (s - diff)) by lia.
    rewrite Z.pow_add_r by lia. ring.
  - rewrite int_ok by (unfold INT_MIN, INT_MAX; lia). cbn [rbind].
    rewrite ui_pow_10 by (unfold ULLONG_MAX; lia).
    pose proof (pow10_pos (diff - s) ltac:(lia)).
    rewrite mpz_tdiv_qr_eq, mpz_mul_eq by (rewrite ?mpz_mul_eq; lia).
    eexists (_v c), (_v o * 10 ^ (diff - s)). split; [done|]. split; [lia|].
    split; [done|].
    replace (_scale c) with (_scale o + s + (diff - s)) by lia.
    rewrite (Z.pow_add_r _ (_scale o + s)) by lia. ring.
  - rewrite mpz_tdiv_qr_eq by done. eexists (_v c), (_v o).
    split; [done|]. split; [done|]. split; [done|].
    replace (_scale o + s) with (_scale c) by lia. ring.
Qed.

(** What the comment on [Div] in the header says: the value is the quotient
    rounded to [s] digits, and the result is the sign of its error. *)
Definition divides (m : Rounding) (s : Z) (x y : Q) (ret : Z) (c' : Decimal) : Prop :=
  wf c' /\
  (exists q, rounded m (x / y * inject_Z (10 ^ s)) q /\ (value c' == frac q s)%Q) /\
  Z.sgn ret = cmp_sign (value c' ?= x / y)%Q.

Lemma value_zero c : _v c = 0 -> (value c == 0)%Q.
Proof. intros E. unfold value, frac. by rewrite E. Qed.

Lemma value_nonzero c : _v c <> 0 -> ~ (value c == 0)%Q.
Proof. intros H E. apply H. unfold Qeq, value in E. cbn in E. lia. Qed.

(** The quotients that [Div] does not compute: a decimal by itself, and zero. *)
Lemma divides_exact m s x y c' z : 0 <= s -> wf c' ->
  (value c' == inject_Z z)%Q -> (x / y == inject_Z z)%Q -> divides m s x y 0 c'.
Proof.
  intros Hs W Hv E. split; [done|]. split.
  - exists (z * 10 ^ s). split.
    + rewrite E, <- inject_Z_mult. apply (rounded_Z m _ 1).
      rewrite <- (Z.mul_1_r (z * 10 ^ s)) at 1. by apply roundedZ_exact.
    + rewrite Hv. unfold frac, Qeq. cbn [Qnum Qden inject_Z].
      rewrite Zpos_pow10 by done. lia.
  - rewrite Hv, E. by rewrite (proj1 (Qeq_alt _ _)).
Qed.

Lemma Div_spec {G : Gmp} c a s m :
  wf c -> wf (deref a c) -> 0 <= s <= INT_MAX -> _v (deref a c) <> 0 ->
  s - (_scale c - _scale (deref a c)) <= INT_MAX ->
  exists ret c', Div c a s m = Ok (ret, c') /\
    divides m s (value c) (value (deref a c)) ret c' /\
    _dscale c' = _dscale c /\ _rounding c' = _rounding c.
Proof.
  intros Wc Wo Hs Hv HI. pose proof Wc as [Sc _]. pose proof Wo as [So _].
  unfold Div. rewrite zero_eqb.
  destruct (Z.ltb_spec s 0); [lia|]. destruct (Z.eqb_spec (_v (deref a c)) 0); [done|].
  destruct a as [|o]; cbn [deref] in *.
  - eexists _, _. split; [done|]. split; [|done]. rewrite mpz_set_ui_eq by done.
    apply (divides_exact _ _ _ _ _ 1); [lia | | done |].
    + split; cbn; [by split|by left].
    + field. by apply value_nonzero.
  - rewrite cmp_ui_0_eqb. destruct (Z.eqb_spec (_v c) 0) as [Z0|Z0].
    + eexists _, _. split; [done|]. split; [|done].
      apply (divides_exact _ _ _ _ _ 0); [lia | done | by apply value_zero |].
      rewrite (value_zero c) by done. unfold Qdiv. apply Qmult_0_l.
    + rewrite int_ok by (unfold INT_MIN, INT_MAX in *; lia). cbn [rbind].
      destruct (Div_qr_spec c o s Sc So Hs HI Hv) as (num & d & -> & Hd & Hsg & E).
      cbn [rbind]. rewrite !mpz_sgn_eq, <- Hsg.
      destruct (Div_round m _ _ _ _) as [ret q] eqn:HR.
      apply Div_round_spec in HR; [|done|lia]. destruct HR as [HR Hret].
      destruct (Cleanup_spec (set_scale (set_v c q) s)) as (c' & -> & T); [done|].
      cbn [rbind]. exists ret, c'. split; [done|].
      pose proof (trimmed_value _ _ T) as Tv. destruct T as (W & _ & HD & HRd).
      split; [|done].
      destruct (ret_sign m (value c / value o) q s (num * Z.sgn d) (Z.abs d))
        as [H1 H2]; [lia | lia | apply (ratio_frac _ _ (_v o)); lia || done | done |].
      split; [done|]. split; [by exists q|]. rewrite Tv. by rewrite Hret, <- H2.
Qed.
