(* ===== verification/DecimalText.v ===== *)
(** * Text of decimals

    [SerializeWithAppending], [Serialize] and [str] print the canonical
    positional notation ([format]); [Parse] accepts exactly the decimal
    literals shorter than its buffer and reads their value; the two are
    inverse. *)

From S2P Require Import Prelude Digits Decimal DecimalFacts DecimalDiv.

Open Scope Z_scope.

(** Positional notation of [v / 10 ^ s]: sign, integer part, and [s] digits. *)
Definition format (v s : Z) : bytes :=
  (if v <? 0 then ["-"%char] else []) ++
  dec (Z.abs v / 10 ^ s) ++
  (if s =? 0 then []
   else "."%char :: pad0 (Z.to_nat s) (dec (Z.abs v mod 10 ^ s))).

(** Decimal literals, with their unscaled value and the length of the fraction. *)
Inductive literal : bytes -> Z -> Z -> Prop :=
| literal_intro (neg : bool) (ip fp : bytes) (point : bool) :
    forallb is_digit ip = true -> forallb is_digit fp = true ->
    ip ++ fp <> [] -> (point = false -> fp = []) ->
    literal
      ((if neg then ["-"%char] else []) ++ ip ++ (if point then "."%char :: fp else []))
      (if neg then - digits_value (ip ++ fp) else digits_value (ip ++ fp))
      (zlen fp).

(** ** Digit strings of a fixed length *)

Lemma dec_length_le b s : 0 <= b < 10 ^ s -> 0 < s -> zlen (dec b) <= s.
Proof.
  intros Hb Hs. destruct (Z.eq_dec b 0) as [->|].
  { change (zlen (dec 0)) with 1. lia. }
  pose proof (dec_length_pos b ltac:(lia)) as [Hp _].
  assert (10 ^ (zlen (dec b) - 1) < 10 ^ s) as HL by lia.
  apply Z.pow_lt_mono_r_iff in HL; lia.
Qed.

Lemma pad0_unique w l b : (0 < w)%nat ->
  forallb is_digit l = true -> length l = w -> digits_value l = b -> l = pad0 w (dec b).
Proof.
  intros Hw Hd Hl Hv. pose proof (digits_value_range l Hd) as R.
  assert (0 <= b) as Hb by lia.
  assert (length (dec b) <= w)%nat.
  { pose proof (dec_length_le b (zlen l)). unfold zlen in *. lia. }
  apply digits_value_inj.
  - done.
  - by apply pad0_digits, dec_digits.
  - rewrite pad0_length. lia.
  - by rewrite pad0_value, dec_value.
Qed.

Lemma zeros_unique n l b : length l = n -> forallb is_digit l = true ->
  digits_value l = 0 -> b = 0 -> (0 < n)%nat -> pad0 n (dec b) = l.
Proof. intros. symmetry. apply pad0_unique; auto; lia. Qed.

Lemma digits_zeros n : forallb is_digit (replicate n "0"%char) = true.
Proof. by apply forallb_replicate. Qed.

Lemma div_mod_pow10_shift a s k : 0 <= a -> 0 <= s -> 0 <= k ->
  a * 10 ^ k / 10 ^ (s + k) = a / 10 ^ s /\
  (a * 10 ^ k) mod 10 ^ (s + k) = (a mod 10 ^ s) * 10 ^ k.
Proof.
  intros. pose proof (pow10_pos s ltac:(lia)). pose proof (pow10_pos k ltac:(lia)).
  rewrite Z.pow_add_r by lia. split.
  - by rewrite Z.div_mul_cancel_r by lia.
  - by rewrite Z.mul_mod_distr_r by lia.
Qed.

(** More fraction digits are zeros. *)
Lemma format_extend v s k : 0 <= s -> 0 <= k ->
  format (v * 10 ^ k) (s + k) =
  format v s ++ (if (s =? 0) && (0 <? k) then ["."%char] else []) ++
  replicate (Z.to_nat k) "0"%char.
Proof.
  intros Hs Hk. unfold format. pose proof (pow10_pos k Hk) as Pk.
  replace (v * 10 ^ k <? 0) with (v <? 0)
    by (destruct (Z.ltb_spec v 0), (Z.ltb_spec (v * 10 ^ k) 0); nia).
  rewrite Z.abs_mul, (Z.abs_eq (10 ^ k)) by lia.
  destruct (div_mod_pow10_shift (Z.abs v) s k) as [-> ->]; [lia..|].
  rewrite <- !app_assoc. do 2 f_equal.
  destruct (Z.eqb_spec (s + k) 0), (Z.eqb_spec s 0), (Z.ltb_spec 0 k); try lia; cbn [andb app].
  - by replace k with 0 by lia.
  - f_equal. subst s. rewrite Z.pow_0_r, Z.mod_1_r, Z.mul_0_l.
    apply zeros_unique; rewrite ?length_replicate, ?digits_value_replicate0; auto using digits_zeros; lia.
  - f_equal. pose proof (Z.mod_pos_bound (Z.abs v) (10 ^ s) (pow10_pos s Hs)).
    symmetry. apply pad0_unique; [lia | | |].
    + rewrite forallb_app, digits_zeros, andb_true_r. apply pad0_digits, dec_digits. lia.
    + rewrite length_app, length_replicate, pad0_length.
      enough (length (dec (Z.abs v mod 10 ^ s)) <= Z.to_nat s)%nat by lia.
      pose proof (dec_length_le (Z.abs v mod 10 ^ s) s). unfold zlen in *. lia.
    + rewrite digits_value_app, digits_value_replicate0, pad0_value, dec_value by lia.
      unfold zlen. rewrite length_replicate, Z2Nat.id by lia. lia.
  - f_equal. replace k with 0 by lia. cbn. by rewrite Z.add_0_r, app_nil_r, Z.mul_1_r.
Qed.

(** ** SerializeWithAppending *)

Lemma dec_split_low a s : 0 < s -> 0 <= a -> zlen (dec a) <= s ->
  a / 10 ^ s = 0 /\ pad0 (Z.to_nat s) (dec (a mod 10 ^ s)) =
  replicate (Z.to_nat (s - zlen (dec a))) "0"%char ++ dec a.
Proof.
  intros Hs Ha Hl. pose proof (digits_value_range (dec a) (dec_digits a Ha)) as R.
  rewrite dec_value in R by done.
  assert (10 ^ zlen (dec a) <= 10 ^ s) by (apply Z.pow_le_mono_r; lia).
  rewrite Z.div_small, Z.mod_small by lia. split; [done|].
  unfold pad0. do 2 f_equal. unfold zlen. lia.
Qed.

Lemma dec_split_high a s : 0 < s -> 0 <= a -> s < zlen (dec a) ->
  dec (a / 10 ^ s) = take (Z.to_nat (zlen (dec a) - s)) (dec a) /\
  pad0 (Z.to_nat s) (dec (a mod 10 ^ s)) = drop (Z.to_nat (zlen (dec a) - s)) (dec a).
Proof.
  intros Hs Ha Hl. set (D := dec a) in *. set (n := Z.to_nat (zlen D - s)) in *.
  assert (n <= length D)%nat as Hn by (unfold n, zlen in *; lia).
  assert (length (drop n D) = Z.to_nat s) as Hd
    by (rewrite length_drop; unfold n, zlen in *; lia).
  assert (0 < n)%nat as Hn0 by (unfold n; lia).
  pose proof (dec_digits a Ha) as HD. fold D in HD.
  pose proof HD as HD'. rewrite <- (take_drop n D), forallb_app in HD'.
  apply andb_true_iff in HD' as [HT HR].
  pose proof (dec_value a Ha) as HV. fold D in HV.
  rewrite <- (take_drop n D), digits_value_app in HV.
  replace (zlen (drop n D)) with s in HV by (unfold zlen; lia).
  pose proof (digits_value_range _ HR) as R.
  replace (zlen (drop n D)) with s in R by (unfold zlen; lia).
  assert (a / 10 ^ s = digits_value (take n D) /\ a mod 10 ^ s = digits_value (drop n D))
    as [E1 E2].
  { split; [symmetry; apply (Z.div_unique_pos _ _ _ (digits_value (drop n D)))
           |symmetry; apply (Z.mod_unique_pos _ _ (digits_value (take n D)))]; lia. }
  split.
  - symmetry. apply dec_unique; [done | | done].
    pose proof (dec_canonical a Ha) as C. pose proof (dec_hd_pos a) as Hp. fold D in C, Hp.
    unfold canonical in C |- *. destruct D as [|c D'] eqn:ED; [done|].
    destruct n as [|n']; [lia|]. cbn [take] in *.
    destruct n' as [|n'']; [done|].
    destruct D' as [|c' D'']; [unfold zlen in Hl; cbn [length] in Hl; lia|]. done.
  - symmetry. apply pad0_unique; auto; lia.
Qed.

Lemma hd_dec_signed v :
  bool_decide (hd_error (dec_signed v) = Some "-"%char) = (v <? 0).
Proof.
  unfold dec_signed. destruct (Z.ltb_spec v 0); [done|].
  apply bool_decide_false. pose proof (dec_digits v ltac:(lia)) as H1.
  destruct (dec v) as [|c l]; [done|]. intros [= ->]. done.
Qed.

(** ** The scanner of Parse *)

Lemma digit_not_point c : is_digit c = true -> c <> "."%char /\ c <> "-"%char.
Proof. intros H. split; intros ->; done. Qed.

(** The count of trailing zeros. *)
Definition tz_step (z : Z) (c : ascii) : Z :=
  if bool_decide (c = "0"%char) then z + 1 else 0.
Definition tz (l : bytes) : Z := fold_left tz_step l 0.

Lemma tz_spec l : exists p,
  l = p ++ replicate (Z.to_nat (tz l)) "0"%char /\ 0 <= tz l /\
  (p = [] \/ exists p' c, p = p' ++ [c] /\ c <> "0"%char).
Proof.
  induction l as [|c l IH] using rev_ind.
  - exists []. split; [done|]. split; [done|by left].
  - destruct IH as (p & E & Hz & Hp). unfold tz. rewrite fold_left_app. cbn [fold_left].
    fold (tz l). unfold tz_step. case_bool_decide as Hc.
    + exists p. split; [|split; [lia|done]]. subst c.
      replace (Z.to_nat (tz l + 1)) with (Z.to_nat (tz l) + 1)%nat by lia.
      rewrite replicate_add, app_assoc. cbn. by rewrite <- E.
    + exists (l ++ [c]). split; [by rewrite app_nil_r|]. split; [done|]. right. eauto.
Qed.

Lemma scan_loop_app st l k :
  scan_loop st (l ++ k) =
  match scan_loop st l with Some st => scan_loop st k | None => None end.
Proof.
  revert st. induction l as [|c l IH]; intros st; [done|]. cbn.
  by destruct (scan_step st c).
Qed.

Lemma scan_digits l st : forallb is_digit l = true -> -1 <= scale_ st ->
  scan_loop st l =
  Some (mkScan (digits st + zlen l)
          (if 0 <=? scale_ st then scale_ st + zlen l else scale_ st)
          (fold_left tz_step l (zdigits st)) (buffer st ++ l)).
Proof.
  revert st. induction l as [|c l IH]; intros st Hd Hs; cbn [scan_loop].
  - destruct st as [d sc z b]. cbn [digits scale_ zdigits buffer fold_left].
    rewrite app_nil_r, !zlen_nil, !Z.add_0_r. by destruct (0 <=? _).
  - cbn [forallb] in Hd. bprop. unfold scan_step. rewrite H.
    rewrite IH; [|done|cbn [scale_]; destruct (Z.leb_spec 0 (scale_ st)); lia]. cbn [digits scale_ zdigits buffer fold_left].
    rewrite <- app_assoc, zlen_cons. f_equal. f_equal; [lia|].
    pose proof (zlen_nonneg l).
    repeat (match goal with |- context [?a <=? ?b] => destruct (Z.leb_spec a b) end); lia.
Qed.

(** The scanner's state after a whole literal. *)
Lemma scan_literal sg ip fp (point : bool) :
  forallb is_digit ip = true -> forallb is_digit fp = true ->
  (point = false -> fp = []) ->
  scan_loop (mkScan 0 (-1) 0 sg) (ip ++ (if point then "."%char :: fp else [])) =
  Some (mkScan (zlen (ip ++ fp)) (if point then zlen fp else -1)
          (tz (ip ++ fp)) (sg ++ ip ++ fp)).
Proof.
  intros Hi Hf Hp. rewrite scan_loop_app, scan_digits by done.
  cbn [digits scale_ zdigits buffer]. destruct point.
  - cbn [scan_loop]. unfold scan_step at 1. change (is_digit "."%char) with false.
    cbv iota. rewrite bool_decide_true by done. cbn [digits scale_ zdigits buffer Z.leb Z.compare].
    rewrite scan_digits by done. cbn [digits scale_ zdigits buffer].
    unfold tz. rewrite fold_left_app, zlen_app, <- app_assoc. done.
  - rewrite Hp by done. cbn. by rewrite app_nil_r.
Qed.

(** The scanner accepts digits with at most one point. *)
Lemma scan_loop_shape l st st' : -1 <= scale_ st -> scan_loop st l = Some st' ->
  exists ip fp point,
    l = ip ++ (if point : bool then "."%char :: fp else []) /\
    forallb is_digit ip = true /\ forallb is_digit fp = true /\
    (point = false -> fp = []) /\ (0 <= scale_ st -> point = false).
Proof.
  revert st. induction l as [|c l IH]; intros st Hs H; cbn [scan_loop] in H.
  - exists [], [], false. done.
  - destruct (scan_step st c) as [st1|] eqn:E; [|done]. unfold scan_step in E.
    destruct (is_digit c) eqn:Hc.
    + injection E as <-. apply IH in H; [|cbn [scale_]; destruct (Z.leb_spec 0 (scale_ st)); lia].
      destruct H as (ip & fp & point & -> & Hi & Hf & Hp & Hn). exists (c :: ip), fp, point.
      split; [done|]. cbn [forallb]. rewrite Hc, Hi. split; [done|]. split; [done|].
      split; [done|]. intros. apply Hn. cbn [scale_]. destruct (Z.leb_spec 0 (scale_ st)); lia.
    + case_bool_decide as Hpt; [|done]. subst c.
      destruct (Z.leb_spec 0 (scale_ st)); [done|]. injection E as <-.
      apply IH in H; [|cbn; lia].
      destruct H as (ip & fp & point & -> & Hi & Hf & Hp & Hn).
      rewrite Hn by (cbn; lia). exists [], ip, true. rewrite app_nil_r.
      split; [done|]. split; [done|]. split; [done|]. split; [done|]. lia.
Qed.

(** ** Parse *)

(** What [Parse] does with a literal's sign and digits. *)
Lemma zeros_iff l : forallb is_digit l = true -> l <> [] ->
  tz l = zlen l <-> digits_value l = 0.
Proof.
  intros Hd Hn. destruct (tz_spec l) as (p & E & Hz & Hp). split; intros H.
  - assert (p = []) as ->.
    { apply zlen_zero. apply (f_equal zlen) in E. rewrite zlen_app in E.
      unfold zlen in E at 3. rewrite length_replicate in E. lia. }
    rewrite E. apply digits_value_replicate0.
  - destruct Hp as [->|(p' & c & -> & Hc)].
    + rewrite E at 2. unfold zlen. cbn. rewrite length_replicate. lia.
    + exfalso. apply Hc. rewrite E, !forallb_app in Hd. bprop. cbn [forallb] in *. bprop.
      rewrite E, !digits_value_app, digits_value_replicate0 in H.
      pose proof (digits_value_range p' ltac:(done)). pose proof (digit_val_range c ltac:(done)).
      apply digit_val_zero; [done|]. rewrite digits_value_cons in H.
      change (digits_value []) with 0 in H. rewrite zlen_nil in H.
      pose proof (pow10_pos (zlen (replicate (Z.to_nat (tz l)) "0"%char)) (zlen_nonneg _)).
      change (zlen [c]) with 1 in H. nia.
Qed.

Lemma tz_range l : 0 <= tz l <= zlen l.
Proof.
  destruct (tz_spec l) as (p & E & Hz & _). split; [done|].
  apply (f_equal zlen) in E. rewrite zlen_app in E. unfold zlen in E at 3.
  rewrite length_replicate in E. pose proof (zlen_nonneg p). lia.
Qed.

(** [l] without [z] of its trailing zeros. *)
Lemma tz_drop l z : 0 <= z <= tz l ->
  l = take (length l - Z.to_nat z) l ++ replicate (Z.to_nat z) "0"%char.
Proof.
  intros Hz. destruct (tz_spec l) as (p & E & _ & _).
  assert (l = (p ++ replicate (Z.to_nat (tz l - z)) "0"%char) ++ replicate (Z.to_nat z) "0"%char)
    as E'.
  { rewrite <- app_assoc, <- replicate_add. rewrite E at 1. do 2 f_equal. lia. }
  set (m := p ++ replicate (Z.to_nat (tz l - z)) "0"%char) in *.
  assert (length l - Z.to_nat z = length m)%nat as ->.
  { apply (f_equal length) in E'. rewrite length_app, length_replicate in E'. lia. }
  rewrite E' at 2. by rewrite take_app_length.
Qed.

(** Without all its trailing zeros, a non-zero digit string is no multiple of 10. *)
Lemma tz_drop_all l : forallb is_digit l = true -> tz l <> zlen l ->
  digits_value (take (length l - Z.to_nat (tz l)) l) mod 10 <> 0.
Proof.
  intros Hd Ht. destruct (tz_spec l) as (p & E & Hz & Hp).
  assert (take (length l - Z.to_nat (tz l)) l = p) as ->.
  { pose proof (f_equal length E) as EL. rewrite length_app, length_replicate in EL.
    replace (length l - Z.to_nat (tz l))%nat with (length p) by lia.
    generalize (Z.to_nat (tz l)) as n, E. intros n ->. by rewrite take_app_length. }
  destruct Hp as [->|(p' & c & -> & Hc)].
  - exfalso. apply Ht. apply (f_equal zlen) in E. cbn in E. unfold zlen in E at 2.
    rewrite length_replicate in E. lia.
  - rewrite E, !forallb_app in Hd. bprop. cbn [forallb] in *. bprop.
    rewrite digits_value_app, digits_value_cons.
    change (zlen [c]) with 1. change (zlen []) with 0. change (digits_value []) with 0.
    rewrite Z.pow_1_r, Z.pow_0_r, Z.add_comm, Z.mod_add by done.
    pose proof (digit_val_range c ltac:(done)).
    rewrite Z.mod_small by lia. intros E0. apply Hc. apply digit_val_zero; [done|lia].
Qed.

Lemma mod10_opp v : v mod 10 <> 0 -> (- v) mod 10 <> 0.
Proof. intros H E. apply H. apply Z.mod_opp_l_z in E; [|done]. by rewrite Z.opp_involutive in E. Qed.

(** [Parse] takes the sign off a literal. *)
Lemma literal_sign (neg : bool) ip fp (point : bool) :
  forallb is_digit ip = true -> ip ++ fp <> [] -> (point = false -> fp = []) ->
  let body := ip ++ (if point then "."%char :: fp else []) in
  let s := (if neg then ["-"%char] else []) ++ body in
  s <> [] /\
  match s with
  | p :: k => if bool_decide (p = "-"%char) then ([p], k) else ([], s)
  | [] => ([], s)
  end = (if neg then ["-"%char] else [], body).
Proof.
  intros Hi Hn Hp. destruct neg; cbn zeta; [done|].
  destruct ip as [|c ip].
  - destruct point; [done|]. by rewrite Hp in Hn.
  - cbn [app]. cbn [forallb] in Hi. bprop. rewrite bool_decide_false; [done|].
    by apply digit_not_point.
Qed.

Section Text.
Context {G : Gmp}.

Lemma mpz_set_str_literal (neg : bool) l : l <> [] -> forallb is_digit l = true ->
  mpz_set_str ((if neg then ["-"%char] else []) ++ l) 10 =
  Some (if neg then - digits_value l else digits_value l).
Proof. intros. destruct neg; cbn [app]; [by apply mpz_set_str_neg | by apply mpz_set_str_pos]. Qed.

Lemma Parse_literal c s v k : literal s v k -> zlen s < 1024 ->
  exists c', Parse c s = (true, c') /\ wf c' /\ (value c' == frac v k)%Q /\
             _dscale c' = _dscale c /\ _rounding c' = _rounding c.
Proof.
  intros [neg ip fp point Hi Hf Hn Hp] Hl. unfold Parse.
  destruct (literal_sign neg ip fp point Hi Hn Hp) as [Hs ->].
  rewrite bool_decide_false by done. rewrite (proj2 (Z.leb_gt _ _) Hl). cbn [orb].
  rewrite scan_literal by done. cbn [digits zdigits scale_ buffer].
  set (l := ip ++ fp) in *. set (sg := if neg then ["-"%char] else []) in *.
  assert (forallb is_digit l = true) as Hd by (unfold l; rewrite forallb_app, Hi; done).
  assert (zlen fp <= zlen l) as Hfl by (unfold l; rewrite zlen_app; pose proof (zlen_nonneg ip); lia).
  assert (zlen l < 1024) as Hl'.
  { unfold l. rewrite !zlen_app in *. pose proof (zlen_nonneg sg).
    destruct point; [rewrite zlen_cons in *|rewrite (Hp eq_refl), zlen_nil in *]; lia. }
  pose proof (zlen_nonneg fp).
  destruct (Z.eqb_spec (zlen l) 0) as [E|E]; [by apply zlen_zero in E|].
  destruct (Z.eqb_spec (tz l) (zlen l)) as [Ez|Ez].
  { apply zeros_iff in Ez; [|done|done]. eexists. split; [done|].
    split; [by split; [cbn|left]|]. split; [|done].
    unfold value. cbn [_v _scale set_v set_scale]. rewrite mpz_set_ui_eq, Ez by done.
    by destruct neg. }
  set (sc := if point then zlen fp else -1).
  set (z := if 0 <? sc then Z.min (tz l) sc else 0).
  destruct (tz_spec l) as (_ & _ & Htz & _).
  assert (0 <= z <= tz l /\ z <= zlen fp) as [Hz Hzf].
  { unfold z, sc. destruct point, (Z.ltb_spec 0 (zlen fp)); cbn; lia. }
  assert (Z.max 0 (if 0 <? z then sc - z else sc) = zlen fp - z) as ->.
  { unfold z, sc. destruct point; [|rewrite (Hp eq_refl); done].
    destruct (Z.ltb_spec 0 (zlen fp)); [|cbn; lia].
    destruct (Z.ltb_spec 0 (Z.min (tz l) (zlen fp))); lia. }
  assert ((if 0 <? z then take (length (sg ++ l) - Z.to_nat z) (sg ++ l) else sg ++ l)
          = sg ++ take (length l - Z.to_nat z) l) as ->.
  { destruct (Z.ltb_spec 0 z).
    - rewrite length_app, take_app. f_equal; [|f_equal; lia].
      apply take_ge. unfold zlen in *. lia.
    - rewrite take_ge; [done|]. lia. }
  pose proof (tz_drop l z Hz) as El. set (l' := take (length l - Z.to_nat z) l) in *.
  pose proof Hd as Hd'. rewrite El, forallb_app in Hd'. apply andb_true_iff in Hd' as [Hd' _].
  assert (l' <> []) as Hn'.
  { intros E'. rewrite E' in El. apply Ez.
    apply (f_equal zlen) in El. cbn [app] in El. unfold zlen in El at 2.
    rewrite length_replicate in El. pose proof (tz_range l). lia. }
  unfold sg. rewrite mpz_set_str_literal by done.
  eexists. split; [done|].
  assert (digits_value l = digits_value l' * 10 ^ z) as Ev.
  { rewrite El at 1. rewrite digits_value_app, digits_value_replicate0.
    unfold zlen. rewrite length_replicate, Z2Nat.id by lia. lia. }
  split; [split|split; [|done]]; cbn [_v _scale set_v set_scale].
  - unfold INT_MAX. lia.
  - destruct (Z.eq_dec (zlen fp - z) 0); [by left|right].
    assert (z = tz l) as Hzt.
    { revert Hzf n. unfold z, sc. destruct point; [|rewrite (Hp eq_refl)];
      repeat (match goal with |- context [0 <? ?b] => destruct (Z.ltb_spec 0 b) end);
      intros; change (zlen (@nil ascii)) with 0 in *; lia. }
    pose proof (tz_drop_all l Hd Ez) as HT. rewrite <- Hzt in HT. fold l' in HT.
    destruct neg; [by apply mod10_opp|done].
  - unfold value. cbn [_v _scale set_v set_scale]. apply frac_eq; [lia|lia|].
    replace (zlen fp) with (z + (zlen fp - z)) at 1 by lia. rewrite Ev, Z.pow_add_r by lia.
    destruct neg; lia.
Qed.

(** [Parse] succeeds on literals alone, and leaves the object on failure. *)
Lemma Parse_cases c s :
  Parse c s = (false, c) \/ (zlen s < 1024 /\ exists v k, literal s v k).
Proof.
  unfold Parse. destruct (Z.leb_spec 1024 (zlen s)) as [L|L].
  { rewrite orb_true_r. by left. }
  rewrite orb_false_r. case_bool_decide as Hn; [by left|].
  assert (exists neg : bool, exists body,
    s = (if neg then ["-"%char] else []) ++ body /\
    match s with
    | p :: k => if bool_decide (p = "-"%char) then ([p], k) else ([], s)
    | [] => ([], s)
    end = (if neg then ["-"%char] else [], body)) as (neg & body & Es & ->).
  { destruct s as [|p k]; [done|]. case_bool_decide as E.
    - subst. by exists true, k.
    - by exists false, (p :: k). }
  destruct (scan_loop _ body) as [st|] eqn:E; [|by left].
  pose proof E as E'. apply scan_loop_shape in E'; [|cbn; lia].
  destruct E' as (ip & fp & point & -> & Hi & Hf & Hp & _).
  rewrite scan_literal in E by done. injection E as <-. cbn [digits].
  destruct (Z.eqb_spec (zlen (ip ++ fp)) 0) as [E|E]; [by left|].
  right. split; [done|]. eexists _, _. rewrite Es. apply literal_intro; [done|done| |done].
  intros E'. by rewrite E' in E.
Qed.

Lemma Parse_reject c s : (forall v k, ~ literal s v k) \/ 1024 <= zlen s ->
  Parse c s = (false, c).
Proof.
  intros H. destruct (Parse_cases c s) as [E|(L & v & k & Hl)]; [done|].
  destruct H as [H|H]; [by destruct (H v k) | lia].
Qed.

Lemma SerializeWithAppending_format c s :
  0 <= _scale c <= s -> s <= INT_MAX ->
  SerializeWithAppending c s = Ok (format (_v c * 10 ^ (s - _scale c)) s).
Proof.
  intros Hc Hs. unfold SerializeWithAppending.
  destruct (Z.ltb_spec s 0); [lia|].
  rewrite int_ok by (unfold INT_MIN, INT_MAX in *; lia). cbn [rbind].
  destruct (Z.ltb_spec (s - _scale c) 0); [lia|].
  rewrite mpz_get_str_10, hd_dec_signed.
  set (v := _v c) in *. set (k := s - _scale c) in *. set (t := _scale c) in *.
  assert (zlen (dec_signed v) <= zlen (dec (Z.abs v)) + 1) as HL.
  { unfold dec_signed. destruct (Z.ltb_spec v 0).
    - rewrite zlen_cons, Z.abs_neq; lia.
    - rewrite Z.abs_eq; lia. }
  pose proof (mpz_sizeinbase_10 v). destruct (Z.ltb_spec (mpz_sizeinbase v 10 + 2) (zlen (dec_signed v) + 1)); [lia|].
  assert (s = t + k) as Es by lia. rewrite Es, format_extend by lia.
  f_equal. rewrite app_assoc. f_equal.
  unfold format. set (a := Z.abs v) in *.
  assert (dec_signed v = (if v <? 0 then ["-"%char] else []) ++ dec a) as ->.
  { unfold dec_signed, a. destruct (Z.ltb_spec v 0); cbn; [rewrite Z.abs_neq | rewrite Z.abs_eq]; lia || done. }
  assert (0 <= a) as Ha by lia.
  assert (zlen ((if v <? 0 then ["-"%char] else []) ++ dec a) - (if v <? 0 then 1 else 0)
          = zlen (dec a)) as ->.
  { rewrite zlen_app. destruct (v <? 0); [change (zlen ["-"%char]) with 1 | rewrite zlen_nil]; lia. }
  destruct (Z.eqb_spec t 0) as [E|E]; cbn [negb andb].
  { rewrite E, Z.pow_0_r, Z.div_1_r, app_nil_r. by destruct (0 <? k); rewrite ?app_nil_r. }
  rewrite app_nil_r. destruct (Z.leb_spec (zlen (dec a)) t) as [L|L].
  - destruct (dec_split_low a t) as [-> ->]; [lia..|].
    replace (Z.to_nat (t - zlen (dec a) + 2)) with (S (S (Z.to_nat (t - zlen (dec a))))) by lia.
    by destruct (v <? 0).
  - destruct (dec_split_high a t) as [-> ->]; [lia..|]. unfold insert_at.
    destruct (v <? 0); cbn [app Nat.add take drop]; done.
Qed.

Lemma format_literal v s : 0 <= s -> literal (format v s) v s.
Proof.
  intros Hs. unfold format. set (a := Z.abs v).
  pose proof (pow10_pos s Hs) as Ps. assert (0 <= a) as Ha by lia.
  assert (0 <= a / 10 ^ s) as Hq by (apply Z.div_pos; lia).
  pose proof (Z.mod_pos_bound a (10 ^ s) Ps) as Hr.
  set (fp := if s =? 0 then [] else pad0 (Z.to_nat s) (dec (a mod 10 ^ s))).
  assert (forallb is_digit fp = true) as Hf.
  { unfold fp. destruct (s =? 0); [done|]. apply pad0_digits, dec_digits. lia. }
  assert (zlen fp = s) as Hl.
  { unfold fp, zlen. destruct (Z.eqb_spec s 0); [by subst|]. rewrite pad0_length.
    pose proof (dec_length_le (a mod 10 ^ s) s). unfold zlen in *. lia. }
  assert (digits_value (dec (a / 10 ^ s) ++ fp) = a) as Hv.
  { rewrite digits_value_app, dec_value, Hl by done.
    assert (digits_value fp = a mod 10 ^ s) as ->.
    { unfold fp. destruct (Z.eqb_spec s 0) as [->|]; [by rewrite Z.mod_1_r|].
      rewrite pad0_value, dec_value by lia. done. }
    pose proof (Z_div_mod_eq_full a (10 ^ s)). lia. }
  pose proof (literal_intro (v <? 0) (dec (a / 10 ^ s)) fp (negb (s =? 0))) as L.
  rewrite Hv, Hl in L.
  replace (if v <? 0 then - a else a) with v in L
    by (unfold a; destruct (Z.ltb_spec v 0); lia).
  assert ((if negb (s =? 0) then "."%char :: fp else []) =
          (if s =? 0 then [] else "."%char :: pad0 (Z.to_nat s) (dec (a mod 10 ^ s)))) as E
    by (unfold fp; by destruct (s =? 0)).
  rewrite E in L. apply L; [by apply dec_digits | done | |].
  - pose proof (dec_not_nil _ Hq). by destruct (dec (a / 10 ^ s)).
  - unfold fp. by destruct (s =? 0).
Qed.

(** ** Serialize *)

Lemma wf_one : wf (Decimal_of_signed true 1).
Proof. split; cbn; [by split|by left]. Qed.

Lemma value_one : (value (Decimal_of_signed true 1) == 1)%Q.
Proof. unfold value. cbn. rewrite mpz_set_si_eq; [done|by split]. Qed.

Lemma value_copy c : value (Decimal_copy c) = value c.
Proof. done. Qed.

Lemma wf_copy c : wf c -> wf (Decimal_copy c).
Proof. done. Qed.

(** The scale of a quotient is at most the one asked for. *)
Lemma format_of_value c q s : wf c -> 0 <= s -> _scale c <= s -> (value c == frac q s)%Q ->
  _v c * 10 ^ (s - _scale c) = q.
Proof.
  intros [Hc _] Hs Hle E. unfold value in E. apply frac_eq in E; [|lia|lia].
  replace s with (_scale c + (s - _scale c)) in E at 1 by lia.
  rewrite Z.pow_add_r in E by lia. pose proof (pow10_pos (_scale c) ltac:(lia)). nia.
Qed.

Lemma wf_scale_le c q s : wf c -> 0 <= s -> (value c == frac q s)%Q -> _scale c <= s.
Proof.
  intros [Hc Hv] Hs E. destruct Hv as [->|Hv]; [done|].
  destruct (Z.le_gt_cases (_scale c) s); [done|]. exfalso. apply Hv.
  apply frac_eq in E; [|lia|lia].
  replace (_scale c) with (s + (1 + (_scale c - s - 1))) in E by lia.
  rewrite !Z.pow_add_r, Z.pow_1_r in E by lia. pose proof (pow10_pos s Hs).
  assert (_v c = q * 10 ^ (_scale c - s - 1) * 10) as -> by nia.
  by apply Z.mod_mul.
Qed.

(** [Serialize] to a scale prints the value rounded to it. *)
Lemma Serialize_rounded c s m : wf c -> 0 <= s <= INT_MAX ->
  exists ret q, Serialize c s m = Ok (ret, format q s) /\
    rounded m (value c * inject_Z (10 ^ s)) q /\
    Z.sgn ret = cmp_sign (frac q s ?= value c)%Q.
Proof.
  intros W Hs. pose proof W as [Hc _]. unfold Serialize.
  destruct (Z.ltb_spec s 0); [lia|]. cbn [andb].
  destruct (Z.leb_spec 0 s); [|lia].
  rewrite int_ok by (unfold INT_MIN, INT_MAX in *; lia). cbn [rbind].
  destruct (Z.leb_spec 0 (s - _scale c)).
  - rewrite SerializeWithAppending_format by lia. cbn [rbind]. eexists _, _. split; [done|].
    assert (value c * inject_Z (10 ^ s) == inject_Z (_v c * 10 ^ (s - _scale c)))%Q as E.
    { unfold value. rewrite frac_inject, inject_Z_mult by lia.
      replace s with (_scale c + (s - _scale c)) at 1 by lia.
      rewrite Z.pow_add_r, inject_Z_mult by lia. field.
      apply inject_Z_nonzero. pose proof (pow10_pos (_scale c)). lia. }
    split.
    + rewrite E. apply (rounded_Z m _ 1).
      rewrite <- (Z.mul_1_r (_v c * _)) at 1. by apply roundedZ_exact.
    + rewrite (proj1 (Qeq_alt _ _)); [done|]. apply value_upscaled. lia.
  - unfold SerializeWithRounding. destruct (Z.ltb_spec s 0); [lia|].
    destruct (Div_spec (Decimal_copy c) (Obj (Decimal_of_signed true 1)) s m)
      as (ret & c' & -> & (W' & (q & Hq & Hv) & Hr) & _).
    + done.
    + apply wf_one.
    + done.
    + cbn. rewrite mpz_set_si_eq; [done|by split].
    + cbn. lia.
    + cbn [rbind deref] in *.
      assert (forall x, x / value (Decimal_of_signed true 1) == x)%Q as Hdiv1.
      { intros x. rewrite value_one. field. }
      rewrite Hdiv1, value_copy in Hq, Hr. rewrite Hv in Hr.
      pose proof (wf_scale_le c' q s W' ltac:(lia) Hv).
      rewrite SerializeWithAppending_format by (destruct W'; lia). cbn [rbind].
      rewrite (format_of_value c' q s) by (done || lia). eauto.
Qed.

(** Without a scale it prints all the digits. *)
Lemma Serialize_exact c s m : wf c -> s < 0 ->
  Serialize c s m = Ok (0, format (_v c) (_scale c)).
Proof.
  intros [Hc Hv] Hs. unfold Serialize. rewrite cmp_ui_0_eqb.
  destruct (Z.ltb_spec s 0); [|lia]. cbn [andb].
  destruct (Z.eqb_spec (_v c) 0) as [E|E].
  - rewrite E in *. destruct Hv as [->|Hv]; done.
  - destruct (Z.leb_spec 0 s); [lia|]. rewrite Z.sub_diag. cbn [int_ rbind].
    rewrite int_ok by done. cbn [rbind].
    rewrite SerializeWithAppending_format by lia.
    cbn [rbind Z.leb Z.compare]. by rewrite Z.sub_diag, Z.mul_1_r.
Qed.

End Text.
