(* ===== verification/DecimalProps.v ===== *)
(** * Correctness of decimals

    The theorems about [flinter::Decimal] that its users rely on: exact
    arithmetic, correctly rounded division, the order of rationals, a
    canonical representation kept by every public operation, and the grammar
    and round trip of its text. *)

From Stdlib Require Import Lqa.
From S2P Require Import Prelude Digits Decimal DecimalFacts DecimalDiv DecimalText.

Open Scope Z_scope.

(** ** The objects a program can make through the public interface *)

Section Public.
Context {G : Gmp}.

Inductive public : Decimal -> Prop :=
| public_new : public Decimal_new
| public_copy o : public o -> public (Decimal_copy o)
| public_unsigned fits s : 0 <= s <= ULLONG_MAX -> public (Decimal_of_unsigned fits s)
| public_signed fits s : LLONG_MIN <= s <= LLONG_MAX -> public (Decimal_of_signed fits s)
| public_string s c : Decimal_of_string s = Ok c -> public c
| public_cstr s c : Decimal_of_cstr s = Ok c -> public c
| public_assign c o : public c -> public (deref o c) -> public (assign c o)
| public_parse c s : public c -> public (snd (Parse c s))
| public_add c o c' : public c -> public (deref o c) -> Add c o = Ok c' -> public c'
| public_sub c o c' : public c -> public (deref o c) -> Sub c o = Ok c' -> public c'
| public_mul c o c' : public c -> public (deref o c) -> Mul c o = Ok c' -> public c'
| public_div c o s m r c' : public c -> public (deref o c) -> s <= INT_MAX ->
    Div c o s m = Ok (r, c') -> public c'
| public_div_assign c o c' : public c -> public (deref o c) ->
    op_div_assign c o = Ok c' -> public c'
| public_div_op c o c' : public c -> public (deref o c) -> op_div c o = Ok c' -> public c'
| public_neg c : public c -> public (op_neg c)
| public_scale c s : public c -> INT_MIN <= s <= INT_MAX -> public (set_default_scale c s)
| public_rounding c m : public c -> public (set_default_rounding c m).

Definition inv (c : Decimal) : Prop := wf c /\ INT_MIN <= _dscale c <= INT_MAX.

Lemma yields_ok m c q c' : yields m c q -> m = Ok c' ->
  wf c' /\ _dscale c' = _dscale c.
Proof. intros (c0 & -> & W & _ & D & _) [= <-]. done. Qed.

Lemma Mul_inv c o c' : wf c -> wf (deref o c) -> Mul c o = Ok c' ->
  wf c' /\ _dscale c' = _dscale c.
Proof.
  intros Wc Wo E. destruct (Z.le_gt_cases (_scale c + _scale (deref o c)) INT_MAX).
  - eapply yields_ok; [by apply Mul_yields | done].
  - rewrite Mul_overflow in E by (done || lia). done.
Qed.

Lemma Cleanup_inv c c' : 0 <= _scale c <= INT_MAX -> Cleanup c = Ok c' ->
  wf c' /\ _dscale c' = _dscale c.
Proof.
  intros H E. destruct (Cleanup_spec c H) as (c0 & E0 & W & _ & D & _).
  rewrite E0 in E. injection E as <-. done.
Qed.

Lemma Div_inv c o s m r c' : wf c -> s <= INT_MAX -> Div c o s m = Ok (r, c') ->
  wf c' /\ _dscale c' = _dscale c.
Proof.
  intros W Hs. unfold Div. destruct (Z.ltb_spec s 0); [done|].
  destruct (zero (deref o c)); [done|]. destruct o as [|o].
  - intros [= <- <-]. rewrite mpz_set_ui_eq by done.
    split; [|done]. split; [by split | by left].
  - destruct (_ =? 0); [by intros [= <- <-]|].
    destruct (int_ _) as [diff|]; [cbn [rbind]|done].
    destruct (Div_qr _ _ _ _) as [[[q0 r0] d]|]; [cbn [rbind]|done].
    destruct (Div_round _ _ _ _ _) as [ret q].
    destruct (Cleanup _) as [c1|] eqn:E; [cbn [rbind]|done].
    intros [= <- <-]. apply Cleanup_inv in E; [done | cbn; lia].
Qed.

Lemma Parse_inv c s : wf c -> wf (snd (Parse c s)) /\ _dscale (snd (Parse c s)) = _dscale c.
Proof.
  intros W. destruct (Parse_cases c s) as [->|(Hl & v & k & L)]; [done|].
  destruct (Parse_literal c s v k L Hl) as (c0 & -> & W0 & _ & D & _). done.
Qed.

Lemma integer_inv v : inv (mkDecimal v 0 (-1) kRoundingTiesToEven).
Proof. split; [split; [by split|by left]|done]. Qed.

Lemma wf_neg c : wf c -> wf (op_neg c).
Proof.
  intros [Hs [H|H]]; (split; [done|]); [by left|right]. cbn. rewrite mpz_neg_eq.
  by apply mod10_opp.
Qed.

Lemma Decimal_new_inv : inv Decimal_new.
Proof. unfold Decimal_new. apply integer_inv. Qed.

Lemma parsed_inv b c s :
  Parse Decimal_new s = (b, c) -> inv (mkDecimal (_v c) (_scale c) (-1) kRoundingTiesToEven).
Proof.
  intros E. destruct (Parse_inv Decimal_new s) as [W _]; [apply Decimal_new_inv|].
  rewrite E in W. cbn in W. by split.
Qed.

Lemma div_scale_le c o s : inv c -> wf o -> div_scale c o = Ok s -> s <= INT_MAX.
Proof.
  intros [_ Hd] _. unfold div_scale, int_. destruct (Z.leb_spec 0 (_dscale c)).
  - intros [= <-]. lia.
  - destruct (_ && _) eqn:E; [|done]. bprop. intros [= <-]. unfold INT_MAX in *. lia.
Qed.

Lemma public_inv c : public c -> inv c.
Proof.
  induction 1 as [ | | | | s c E | s c E | c o _ I1 _ I2 | | c o c' _ [] _ [] E
    | c o c' _ [] _ [] E | c o c' _ [] _ [] E | c o s m r c' _ [] _ [] Hs E
    | c o c' _ I1 _ [] E | c o c' _ I1 _ [] E | c _ [] | c s _ [] | c m _ []].
  - apply Decimal_new_inv.
  - done.
  - apply integer_inv.
  - apply integer_inv.
  - unfold Decimal_of_string in E. destruct (Parse _ s) as [[] c0] eqn:P; [|done].
    injection E as <-. by eapply parsed_inv.
  - unfold Decimal_of_cstr in E. destruct s as [[|x s]|]; try done.
    destruct (Parse _ _) as [[] c0] eqn:P; [|done]. injection E as <-. by eapply parsed_inv.
  - by destruct o.
  - destruct IHpublic. destruct (Parse_inv c s) as [? E]; [done|]. split; [done|by rewrite E].
  - destruct (yields_ok _ _ _ _ (Add_yields c o ltac:(done) ltac:(done)) E) as [? D].
    split; [done|by rewrite D].
  - destruct (yields_ok _ _ _ _ (Sub_yields c o ltac:(done) ltac:(done)) E) as [? D].
    split; [done|by rewrite D].
  - apply Mul_inv in E as [? D]; [|done|done]. split; [done|by rewrite D].
  - apply Div_inv in E as [? D]; [|done|done]. split; [done|by rewrite D].
  - unfold op_div_assign in E. destruct (div_scale _ _) as [s|] eqn:S; [|done].
    apply div_scale_le in S; [|done|done]. cbn [rbind] in E.
    destruct (Div _ _ _ _) as [[r c1]|] eqn:E1; [|done]. injection E as <-.
    destruct I1. apply Div_inv in E1 as [? D]; [|done|done]. split; [done|by rewrite D].
  - unfold op_div in E. destruct (div_scale _ _) as [s|] eqn:S; [|done].
    apply div_scale_le in S; [|done|done]. cbn [rbind] in E.
    destruct (Div _ _ _ _) as [[r c1]|] eqn:E1; [|done]. injection E as <-.
    destruct I1. apply Div_inv in E1 as [? D]; [|done|done]. split; [done|by rewrite D].
  - split; [by apply wf_neg|done].
  - done.
  - done.
Qed.

(** ** Properties *)

(** C18: every decimal a program can build through the public interface keeps
    its invariant: the scale is a non-negative int and the representation is
    canonical (no useless trailing zero in the scale), so two equal decimals
    have the same representation. *)
Theorem decimal_public_canonical c : public c ->
  (0 <= _scale c <= INT_MAX /\ (_scale c = 0 \/ _v c mod 10 <> 0)) /\
  (forall o, public o -> op_eq c (Obj o) = Ok true -> _v c = _v o /\ _scale c = _scale o).
Proof.
  intros P. destruct (public_inv c P) as [W _]. split; [done|].
  intros o Po E. destruct (public_inv o Po) as [Wo _].
  destruct (compare_value c (Obj o) W Wo) as (r & Er & Hr). cbn [deref] in Hr.
  unfold op_eq in E. rewrite Er in E. cbn [rbind] in E. injection E as E. bprop. subst r.
  apply wf_value_unique; [done|done|]. apply Qeq_alt.
  by destruct (value c ?= value o)%Q.
Qed.

(** C19: addition, subtraction and multiplication are exact, also when the
    operand is the object itself; multiplication alone can fail, exactly when
    the sum of the scales is not an int. *)
Theorem decimal_arithmetic_exact c a : wf c -> wf (deref a c) ->
  yields (Add c a) c (value c + value (deref a c)) /\
  yields (Sub c a) c (value c - value (deref a c)) /\
  (if _scale c + _scale (deref a c) <=? INT_MAX
   then yields (Mul c a) c (value c * value (deref a c))
   else Mul c a = Err undefined_behaviour).
Proof.
  intros. split; [by apply Add_yields|]. split; [by apply Sub_yields|].
  destruct (Z.leb_spec (_scale c + _scale (deref a c)) INT_MAX).
  - by apply Mul_yields.
  - by apply Mul_overflow.
Qed.

(** C20: division to a scale returns the quotient rounded to that scale in the
    requested mode and the sign of the rounding error; it throws exactly for a
    negative scale and for a zero divisor. *)
Theorem decimal_Div_rounded c a s m : wf c -> wf (deref a c) -> s <= INT_MAX ->
  s - (_scale c - _scale (deref a c)) <= INT_MAX ->
  if s <? 0 then Div c a s m = Err (invalid_argument "must specify scale")
  else if _v (deref a c) =? 0 then Div c a s m = Err (invalid_argument "devided by zero")
  else exists ret c' q, Div c a s m = Ok (ret, c') /\ wf c' /\
    rounded m (value c / value (deref a c) * inject_Z (10 ^ s)) q /\
    (value c' == frac q s)%Q /\
    Z.sgn ret = cmp_sign (value c' ?= value c / value (deref a c))%Q.
Proof.
  intros Wc Wo Hs HI. destruct (Z.ltb_spec s 0) as [L|L].
  { unfold Div. by rewrite (proj2 (Z.ltb_lt _ _) L). }
  destruct (Z.eqb_spec (_v (deref a c)) 0) as [E|E].
  { unfold Div. rewrite (proj2 (Z.ltb_ge _ _) L), zero_eqb, E. done. }
  destruct (Div_spec c a s m Wc Wo ltac:(lia) E HI) as (ret & c' & H & (W & (q & Hq & Hv) & Hr) & _).
  exists ret, c', q. done.
Qed.

(** [compare] has the sign of the comparison of the rational values, and
    the six relational operators are those of the rationals. *)
Theorem decimal_compare_rational c a : wf c -> wf (deref a c) ->
  let x := value c in let y := value (deref a c) in
  (exists r, compare c a = Ok r /\ Z.sgn r = cmp_sign (x ?= y)%Q) /\
  (exists b, op_lt c a = Ok b /\ (b = true <-> (x < y)%Q)) /\
  (exists b, op_le c a = Ok b /\ (b = true <-> (x <= y)%Q)) /\
  (exists b, op_gt c a = Ok b /\ (b = true <-> (y < x)%Q)) /\
  (exists b, op_ge c a = Ok b /\ (b = true <-> (y <= x)%Q)) /\
  (exists b, op_eq c a = Ok b /\ (b = true <-> (x == y)%Q)) /\
  (exists b, op_ne c a = Ok b /\ (b = true <-> ~ (x == y)%Q)).
Proof.
  intros Wc Wo x y. destruct (compare_value c a Wc Wo) as (r & E & Hr).
  fold x y in Hr. split; [eauto|].
  unfold op_lt, op_le, op_gt, op_ge, op_eq, op_ne. rewrite E. cbn [rbind].
  destruct (Qcompare_spec x y) as [O|O|O]; cbn in Hr; repeat split; eexists;
    (split; [reflexivity|]); split; intros Hb;
    first [ lra | exfalso; lra | intros ?; lra | bprop; exfalso; lia
          | apply Z.ltb_lt; lia | apply Z.leb_le; lia | apply Z.eqb_eq; lia
          | apply negb_true_iff, Z.eqb_neq; lia | exfalso; by apply Hb ].
Qed.

(** [Parse] accepts exactly the decimal literals (an optional minus sign,
    digits with at most one point, at least one digit) that fit its buffer,
    and then stores the literal's value in canonical form; otherwise it
    returns false and leaves the object alone. *)
Theorem decimal_Parse_grammar c s :
  (forall v k, literal s v k -> zlen s < 1024 ->
     exists c', Parse c s = (true, c') /\ wf c' /\ (value c' == frac v k)%Q) /\
  (fst (Parse c s) = true <-> zlen s < 1024 /\ exists v k, literal s v k) /\
  (fst (Parse c s) = false -> snd (Parse c s) = c).
Proof.
  split.
  { intros v k L H. destruct (Parse_literal c s v k L H) as (c' & ? & ? & ? & _). eauto. }
  destruct (Parse_cases c s) as [E|(H & v & k & L)].
  - rewrite E. split; [|done]. split; [done|]. intros (H & v & k & L).
    destruct (Parse_literal c s v k L H) as (c' & E' & _). by rewrite E' in E.
  - destruct (Parse_literal c s v k L H) as (c' & E & _). rewrite E. split; [|done].
    split; [|done]. eauto.
Qed.

(** C21: what [str] prints parses back, whatever the object that parses it,
    unless it has 1024 bytes or more, which Parse refuses: without a scale,
    neither given nor set as the default, it gives back the unscaled value and
    the scale; with one, the value rounded to that scale. *)
Theorem decimal_str_Parse_roundtrip c c0 scale :
  wf c -> scale <= INT_MAX -> _dscale c <= INT_MAX ->
  let s := if 0 <=? scale then scale else _dscale c in
  exists text, str c scale = Ok text /\
    (1024 <= zlen text -> Parse c0 text = (false, c0)) /\
    (zlen text < 1024 ->
     exists c', Parse c0 text = (true, c') /\ wf c' /\
       (s < 0 -> _v c' = _v c /\ _scale c' = _scale c) /\
       (0 <= s -> exists q, rounded (_rounding c) (value c * inject_Z (10 ^ s)) q /\ (value c' == frac q s)%Q)).
Proof.
  intros W Hs Hd s. assert (s <= INT_MAX) as HI by (unfold s; by destruct (0 <=? scale)).
  assert (exists v k, str c scale = Ok (format v k) /\ 0 <= k /\
    (s < 0 -> v = _v c /\ k = _scale c) /\
    (0 <= s -> k = s /\ rounded (_rounding c) (value c * inject_Z (10 ^ s)) v)) as (v & k & -> & Hk & Hneg & Hpos).
  { unfold str. fold s. destruct (Z.lt_ge_cases s 0) as [Hlt|Hge].
    - rewrite Serialize_exact by done. exists (_v c), (_scale c). destruct W. split_and!; (done || lia).
    - destruct (Serialize_rounded c s (_rounding c) W (conj Hge HI)) as (ret & q & E & Hq & _). rewrite E.
      exists q, s. split_and!; (done || lia). }
  exists (format v k). split; [done|]. split; intros Hl.
  { unfold Parse. by rewrite (proj2 (Z.leb_le _ _) Hl), orb_true_r. }
  destruct (Parse_literal c0 _ _ _ (format_literal v k Hk) Hl) as (c' & E & W' & V & _).
  exists c'. split; [done|]. split; [done|]. split.
  - intros Hlt. destruct (Hneg Hlt) as [-> ->]. by apply wf_value_unique.
  - intros Hge. destruct (Hpos Hge) as [-> Hq]. by exists v.
Qed.

(** [Serialize] to a scale prints, in positional notation with exactly
    that many fraction digits, the value rounded in the requested mode, and
    returns the sign of the rounding error. *)
Theorem decimal_Serialize_rounded c s m : wf c -> 0 <= s <= INT_MAX ->
  exists ret q, Serialize c s m = Ok (ret, format q s) /\
    rounded m (value c * inject_Z (10 ^ s)) q /\
    Z.sgn ret = cmp_sign (frac q s ?= value c)%Q.
Proof. apply Serialize_rounded. Qed.

End Public.

(** ** Witnesses *)

Definition d_1_25 : Decimal := mkDecimal 125 2 (-1) kRoundingTiesToEven.
Definition d_m0_5 : Decimal := mkDecimal (-5) 1 (-1) kRoundingTiesToEven.

Lemma wf_1_25 : wf d_1_25.
Proof. split; [by split | right; done]. Defined.
Lemma wf_m0_5 : wf d_m0_5.
Proof. split; [by split | right; done]. Defined.

Lemma decimal_public_canonical_witness :
  public (G := gmp_model) (Decimal_new (G := gmp_model)) /\ 0 <= _scale (Decimal_new (G := gmp_model)) <= INT_MAX.
Proof.
  split; [apply public_new|].
  exact (proj1 (proj1 (decimal_public_canonical (G := gmp_model) (Decimal_new (G := gmp_model))
    (public_new (G := gmp_model))))).
Defined.

Lemma decimal_arithmetic_exact_witness :
  yields (Mul (G := gmp_model) d_1_25 (Obj d_m0_5)) d_1_25 (value d_1_25 * value d_m0_5).
Proof.
  exact (proj2 (proj2 (decimal_arithmetic_exact (G := gmp_model) d_1_25 (Obj d_m0_5) wf_1_25 wf_m0_5))).
Defined.

Lemma decimal_Div_rounded_witness :
  exists ret c' q, Div (G := gmp_model) d_1_25 (Obj d_m0_5) 0 kRoundingTiesToEven = Ok (ret, c')
    /\ wf c' /\ rounded kRoundingTiesToEven (value d_1_25 / value d_m0_5 * inject_Z 1) q /\
    (value c' == frac q 0)%Q /\
    Z.sgn ret = cmp_sign (value c' ?= value d_1_25 / value d_m0_5)%Q.
Proof.
  apply (decimal_Div_rounded (G := gmp_model) d_1_25 (Obj d_m0_5) 0 kRoundingTiesToEven
    wf_1_25 wf_m0_5); vm_compute; discriminate.
Defined.

Lemma decimal_compare_rational_witness :
  exists r, compare (G := gmp_model) d_1_25 (Obj d_m0_5) = Ok r /\
    Z.sgn r = cmp_sign (value d_1_25 ?= value d_m0_5)%Q.
Proof.
  exact (proj1 (decimal_compare_rational (G := gmp_model) d_1_25 (Obj d_m0_5) wf_1_25 wf_m0_5)).
Defined.

(** 1.25, and 1.2 to one digit. *)
Lemma decimal_str_Parse_roundtrip_witness :
  (str (G := gmp_model) d_1_25 (-1) = Ok (B "1.25") /\
   exists c', Parse (G := gmp_model) d_m0_5 (B "1.25") = (true, c') /\ _v c' = 125 /\ _scale c' = 2) /\
  (str (G := gmp_model) d_1_25 1 = Ok (B "1.2") /\
   exists c', Parse (G := gmp_model) d_m0_5 (B "1.2") = (true, c') /\
     exists q, rounded kRoundingTiesToEven (value d_1_25 * inject_Z 10) q /\ (value c' == frac q 1)%Q).
Proof.
  assert (str (G := gmp_model) d_1_25 (-1) = Ok (B "1.25")) as E1 by (vm_compute; reflexivity).
  assert (str (G := gmp_model) d_1_25 1 = Ok (B "1.2")) as E2 by (vm_compute; reflexivity).
  split; (split; [assumption|]).
  - destruct (decimal_str_Parse_roundtrip (G := gmp_model) d_1_25 d_m0_5 (-1) wf_1_25) as (t & E & _ & H);
      [vm_compute; discriminate|vm_compute; discriminate|].
    rewrite E1 in E. injection E as <-. destruct H as (c' & E & _ & H & _); [reflexivity|].
    exists c'. split; [exact E|]. apply H. reflexivity.
  - destruct (decimal_str_Parse_roundtrip (G := gmp_model) d_1_25 d_m0_5 1 wf_1_25) as (t & E & _ & H);
      [vm_compute; discriminate|vm_compute; discriminate|].
    rewrite E2 in E. injection E as <-. destruct H as (c' & E & _ & _ & H); [reflexivity|].
    exists c'. split; [exact E|]. apply H. vm_compute. discriminate.
Defined.

Lemma decimal_Serialize_rounded_witness :
  Serialize (G := gmp_model) d_1_25 1 kRoundingTiesToEven = Ok (-1, B "1.2") /\
  exists ret q, Serialize (G := gmp_model) d_1_25 1 kRoundingTiesToEven = Ok (ret, format q 1) /\
    rounded kRoundingTiesToEven (value d_1_25 * inject_Z 10) q /\
    Z.sgn ret = cmp_sign (frac q 1 ?= value d_1_25)%Q.
Proof.
  split; [vm_compute; reflexivity|].
  apply (decimal_Serialize_rounded (G := gmp_model) d_1_25 1 kRoundingTiesToEven wf_1_25).
  vm_compute; split; discriminate.
Defined.

Lemma decimal_Parse_grammar_witness :
  Parse (G := gmp_model) d_1_25 (B "-0.50") = (true, d_m0_5) /\
  exists c', Parse (G := gmp_model) d_1_25 (B "-0.50") = (true, c') /\ wf c' /\
    (value c' == frac (-50) 2)%Q.
Proof.
  split; [vm_compute; reflexivity|].
  apply (decimal_Parse_grammar (G := gmp_model) d_1_25 (B "-0.50")).
  - apply (literal_intro true (B "0") (B "50") true); done.
  - reflexivity.
Defined.
