(* ===== verification/Uint128.v ===== *)
(** * 128-bit unsigned integers: types/uint128_t.h and types/uint128_t.cpp

    A [uint128_t] is two 64-bit halves.  The theorems: [Compare] and the
    relational operators are those of the 128-bit value, the conversions from
    signed types extend the sign, and [FromHexString] inverts
    [ToHexString]. *)

From S2P Require Import Prelude Digits Libc.

Record uint128_t : Type := mkU128 { _high : Z; _low : Z }.

(** [uint128_t()] and [uint128_t(uint64_t, uint64_t)]. *)
Definition uint128_zero : uint128_t := mkU128 0 0.
Definition uint128_pair (high low : Z) : uint128_t := mkU128 high low.

(** [uint128_t(int64_t, uint64_t)]: the bits of [high]. *)
Definition uint128_signed_pair (high low : Z) : uint128_t := mkU128 (u64 high) low.

(** The constructors and assignments from unsigned and from signed types. *)
Definition uint128_of_unsigned (low : Z) : uint128_t := mkU128 0 low.
Definition uint128_of_signed (low : Z) : uint128_t :=
  mkU128 (if low <? 0 then u64 (-1) else 0) (u64 low).
Definition assign_unsigned (_ : uint128_t) (low : Z) : uint128_t := mkU128 0 low.
Definition assign_signed (_ : uint128_t) (low : Z) : uint128_t :=
  mkU128 (if low <? 0 then u64 (-1) else 0) (u64 low).

Definition high (x : uint128_t) : Z := _high x.
Definition low (x : uint128_t) : Z := _low x.

Definition Compare (x : uint128_t) (other : operand uint128_t) : Z :=
  match other with
  | This => 0
  | Obj other =>
      if _high x <? _high other then -1
      else if _high x =? _high other then
        if _low x <? _low other then -1
        else if _low x =? _low other then 0 else 1
      else 1
  end.

Definition op_eq x other := Compare x other =? 0.
Definition op_ne x other := negb (Compare x other =? 0).
Definition op_lt x other := Compare x other <? 0.
Definition op_gt x other := 0 <? Compare x other.
Definition op_le x other := Compare x other <=? 0.
Definition op_ge x other := 0 <=? Compare x other.

Definition ToHexString (x : uint128_t) : bytes := hexw 16 (_high x) ++ hexw 16 (_low x).

Definition HEX_STRING_LENGTH : nat := 32.

(** [for (i = 0; i < HEX_STRING_LENGTH; ++i)]: the terminator is no digit. *)
Fixpoint all_xdigit (n : nat) (hex : bytes) : bool :=
  match n with
  | O => true
  | S n => match hex with
           | [] => false
           | c :: hex => if isxdigit c then all_xdigit n hex else false
           end
  end.

(** Whether it succeeded, and the object; [None] is the null pointer. *)
Definition FromHexString (x : uint128_t) (hex : option bytes) : bool * uint128_t :=
  match hex with
  | None => (false, x)
  | Some hex =>
      if negb (all_xdigit HEX_STRING_LENGTH hex) then (false, x)
      else match sscanf_016llx hex with
           | None => (false, x)
           | Some (h, rest) =>
               match sscanf_016llx rest with
               | None => (false, x)
               | Some (l, _) => (true, mkU128 h l)
               end
           end
  end.

(** ** Values *)

Definition wf (x : uint128_t) : Prop := 0 <= _high x < 2 ^ 64 /\ 0 <= _low x < 2 ^ 64.
Definition value (x : uint128_t) : Z := _high x * 2 ^ 64 + _low x.

Lemma all_xdigit_spec n l : all_xdigit n l = true ->
  exists p k, l = p ++ k /\ length p = n /\ forallb isxdigit p = true.
Proof.
  revert l. induction n as [|n IH]; intros l H; cbn in H.
  - by exists [], l.
  - destruct l as [|c l]; [done|]. destruct (isxdigit c) eqn:E; [|done].
    destruct (IH l H) as (p & k & -> & Hl & Hp). exists (c :: p), k. cbn.
    by rewrite E, Hp, Hl.
Qed.

Lemma all_xdigit_app p k : forallb isxdigit p = true -> all_xdigit (length p) (p ++ k) = true.
Proof.
  induction p as [|c p IH]; [done|]. cbn. intros H. bprop. rewrite H. by apply IH.
Qed.

Lemma FromHexString_digits x p q k :
  forallb isxdigit p = true -> forallb isxdigit q = true ->
  length p = 16%nat -> length q = 16%nat ->
  FromHexString x (Some (p ++ q ++ k)) = (true, mkU128 (hex_value p) (hex_value q)).
Proof.
  intros Hp Hq Lp Lq. unfold FromHexString.
  assert (all_xdigit HEX_STRING_LENGTH ((p ++ q) ++ k) = true) as E.
  { replace HEX_STRING_LENGTH with (length (p ++ q))
      by (rewrite length_app, Lp, Lq; done).
    apply all_xdigit_app. by rewrite forallb_app, Hp, Hq. }
  rewrite <- app_assoc in E. rewrite E. cbn [negb].
  by rewrite !sscanf_016llx_xdigits.
Qed.

(** ** Properties *)

(** [Compare] is the comparison of the 128-bit values, and the relational
    operators are the order on them. *)
Theorem uint128_compare_order x y : wf x -> wf y ->
  Compare x (Obj y) = match value x ?= value y with Lt => -1 | Eq => 0 | Gt => 1 end /\
  op_lt x (Obj y) = (value x <? value y) /\ op_le x (Obj y) = (value x <=? value y) /\
  op_gt x (Obj y) = (value y <? value x) /\ op_ge x (Obj y) = (value y <=? value x) /\
  op_eq x (Obj y) = (value x =? value y) /\ op_ne x (Obj y) = negb (value x =? value y) /\
  Compare x This = Compare x (Obj x).
Proof.
  intros [Hx1 Hx2] [Hy1 Hy2].
  assert (Compare x (Obj y) = match value x ?= value y with Lt => -1 | Eq => 0 | Gt => 1 end) as E.
  { unfold Compare, value.
    destruct (Z.ltb_spec (_high x) (_high y)), (Z.eqb_spec (_high x) (_high y)),
      (Z.ltb_spec (_low x) (_low y)), (Z.eqb_spec (_low x) (_low y)),
      (Z.compare_spec (_high x * 2 ^ 64 + _low x) (_high y * 2 ^ 64 + _low y)); try done; lia. }
  split; [done|]. unfold op_lt, op_le, op_gt, op_ge, op_eq, op_ne. rewrite E.
  assert (Compare x This = Compare x (Obj x)) as E'.
  { cbn. by rewrite !Z.ltb_irrefl, !Z.eqb_refl. }
  destruct (Z.compare_spec (value x) (value y)); cbn [Z.ltb Z.leb Z.eqb Z.compare];
    repeat split; try done; symmetry;
    try apply negb_true_iff; try apply negb_false_iff;
    rewrite ?Z.ltb_lt, ?Z.ltb_ge, ?Z.leb_le, ?Z.leb_gt, ?Z.eqb_eq, ?Z.eqb_neq; lia.
Qed.

(** [FromHexString] reads back what [ToHexString] prints, whatever
    follows it, and it succeeds exactly on 32 hexadecimal digits, of either
    case, whose value it stores. *)
Theorem uint128_hex_roundtrip x y k : wf x ->
  FromHexString y (Some (ToHexString x ++ k)) = (true, x) /\
  (forall l, fst (FromHexString y (Some l)) = true <->
     exists p q k, l = p ++ q ++ k /\ length p = 16%nat /\ length q = 16%nat /\
       forallb isxdigit (p ++ q) = true /\
       FromHexString y (Some l) = (true, mkU128 (hex_value p) (hex_value q))).
Proof.
  intros [H1 H2]. split.
  - unfold ToHexString. rewrite <- app_assoc.
    rewrite FromHexString_digits by (apply hexw_xdigits || apply hexw_length).
    rewrite !hexw_value; [by destruct x | |]; done.
  - intros l. split; [|by intros (p & q & k' & _ & _ & _ & _ & ->)].
    unfold FromHexString at 1. destruct (all_xdigit HEX_STRING_LENGTH l) eqn:E; [|done].
    intros _. apply all_xdigit_spec in E as (p & k' & -> & Lp & Hp).
    exists (take 16 p), (drop 16 p), k'.
    rewrite <- (take_drop 16 p), forallb_app in Hp. bprop.
    assert (length (take 16 p) = 16%nat) as L1 by (rewrite length_take, Lp; done).
    assert (length (drop 16 p) = 16%nat) as L2 by (rewrite length_drop, Lp; done).
    rewrite app_assoc, take_drop. split; [done|]. split; [done|]. split; [done|].
    split; [by rewrite <- (take_drop 16 p), forallb_app, H, H0|].
    rewrite <- (take_drop 16 p) at 1. rewrite <- app_assoc.
    by apply FromHexString_digits.
Qed.

(** ** Witnesses *)

Lemma uint128_compare_order_witness :
  Compare (mkU128 1 2) (Obj (mkU128 1 3)) = -1 /\ op_lt (mkU128 1 2) (Obj (mkU128 1 3)) = true.
Proof.
  split; [reflexivity|].
  refine (eq_trans (proj1 (proj2 (uint128_compare_order (mkU128 1 2) (mkU128 1 3) _ _))) _);
    vm_compute; repeat split; discriminate.
Defined.

Lemma uint128_hex_roundtrip_witness :
  FromHexString uint128_zero (Some (ToHexString (mkU128 1 255) ++ B "zz")) = (true, mkU128 1 255).
Proof.
  refine (proj1 (uint128_hex_roundtrip (mkU128 1 255) uint128_zero (B "zz") _)).
  vm_compute; repeat split; discriminate.
Defined.
