(* ===== verification/Encode.v ===== *)
(** * Hexadecimal and HTML encoding: encode.cpp

    [EncodeHex] and [DecodeHex] are inverse, [DecodeHex] fails exactly on
    strings that are not pairs of hexadecimal digits, and [EscapeHtml] leaves
    no markup character and can be undone. *)

From S2P Require Import Prelude Digits.

(** ** The code *)

(** The bounds of a character range, as the comparisons of [char]s in the code. *)
Definition in_range (lo hi c : ascii) : bool := (code lo <=? code c) && (code c <=? code hi).

Definition HexChar (c : ascii) : Z :=
  if in_range "0" "9" c then code c - code "0"
  else if in_range "A" "F" c then code c - code "A" + 10
  else if in_range "a" "f" c then code c - code "a" + 10
  else -1.

Definition HEX : bytes := B "0123456789ABCDEF".

Definition hex_at (i : Z) : ascii := nth (Z.to_nat i) HEX (chr 0).

Fixpoint EncodeHex_loop (what : bytes) : bytes :=
  match what with
  | [] => []
  | q :: what => hex_at (code q / 16) :: hex_at (code q mod 16) :: EncodeHex_loop what
  end.

(** The return value and [*hex]. *)
Definition EncodeHex (what : bytes) : Z * bytes :=
  match what with
  | [] => (0, [])
  | _ => (0, EncodeHex_loop what)
  end.

Definition EncodeHex_string (what : bytes) : bytes :=
  let '(ret, hex) := EncodeHex what in if ret =? 0 then hex else [].

(** [what->resize(n)]: truncated, or extended with NULs. *)
Definition resize (n : nat) (s : bytes) : bytes := take n s ++ replicate (n - length s) (chr 0).

(** The loop of [DecodeHex]; the second list is [*what] from [p] on. *)
Fixpoint DecodeHex_loop (hex : bytes) (what : bytes) : Z * bytes :=
  match hex with
  | h :: l :: hex =>
      if (HexChar h <? 0) || (HexChar l <? 0) then (-1, what)
      else let '(ret, rest) := DecodeHex_loop hex (tail what) in
           (ret, chr (HexChar h * 16 + HexChar l) :: rest)
  | _ => (0, what)
  end.

(** The return value and [*what], from its previous contents. *)
Definition DecodeHex (hex what : bytes) : Z * bytes :=
  if (length hex =? 0)%nat || negb (length hex mod 2 =? 0)%nat then (-1, what)
  else DecodeHex_loop hex (resize (length hex / 2) what).

Definition DecodeHex_string (hex : bytes) : bytes :=
  let '(ret, what) := DecodeHex hex [] in if ret =? 0 then what else [].

Definition quote : ascii := chr 34.
Definition apostrophe : ascii := chr 39.

(** The first loop of [EscapeHtml]. *)
Definition escape_extra (c : ascii) : Z :=
  if bool_decide (c = "<"%char \/ c = ">"%char) then 3
  else if bool_decide (c = "&"%char) then 4
  else if bool_decide (c = apostrophe \/ c = quote) then 5
  else 0.

Definition escape_char (ie_compatible : bool) (c : ascii) : bytes :=
  if bool_decide (c = "<"%char) then B "&lt;"
  else if bool_decide (c = ">"%char) then B "&gt;"
  else if bool_decide (c = "&"%char) then B "&amp;"
  else if bool_decide (c = quote) then B "&quot;"
  else if bool_decide (c = apostrophe) then (if ie_compatible then B "&#039;" else B "&apos;")
  else [c].

Definition EscapeHtml (html : bytes) (ie_compatible : bool) : bytes :=
  match html with
  | [] => html
  | _ =>
      let extra := fold_left (fun e c => e + escape_extra c) html 0 in
      if extra =? 0 then html
      else fold_left (fun r c => r ++ escape_char ie_compatible c) html []
  end.

(** ** Hexadecimal digits *)

Lemma in_range_spec lo hi c : in_range lo hi c = true <-> code lo <= code c <= code hi.
Proof. unfold in_range. rewrite andb_true_iff, !Z.leb_le. done. Qed.

Lemma HexChar_range c : -1 <= HexChar c < 16.
Proof.
  unfold HexChar.
  destruct (in_range "0" "9" c) eqn:E1; [|destruct (in_range "A" "F" c) eqn:E2;
    [|destruct (in_range "a" "f" c) eqn:E3; [|lia]]];
    match goal with H : in_range _ _ _ = true |- _ => apply in_range_spec in H end;
    repeat match goal with
    | H : context [code (Ascii ?a ?b ?c ?d ?e ?f ?g ?h)] |- _ =>
        let v := eval vm_compute in (code (Ascii a b c d e f g h)) in
        change (code (Ascii a b c d e f g h)) with v in *
    end; lia.
Qed.

Lemma HexChar_hex_at i : 0 <= i < 16 -> HexChar (hex_at i) = i.
Proof.
  intros H. assert (forall n, (n < 16)%nat -> HexChar (hex_at (Z.of_nat n)) = Z.of_nat n) as E.
  { intros n Hn. do 16 (destruct n as [|n]; [reflexivity|]). lia. }
  rewrite <- (Z2Nat.id i) at 1 by lia. rewrite E; lia.
Qed.

Lemma length_EncodeHex w : length (EncodeHex_loop w) = (2 * length w)%nat.
Proof. induction w as [|c w IH]; cbn; lia. Qed.

Lemma EncodeHex_eq w : EncodeHex w = (0, EncodeHex_loop w).
Proof. by destruct w. Qed.

Lemma nibbles c : 0 <= code c / 16 < 16 /\ 0 <= code c mod 16 < 16 /\
  chr (code c / 16 * 16 + code c mod 16) = c.
Proof.
  pose proof (code_range c). pose proof (Z_div_mod_eq_full (code c) 16).
  pose proof (Z.mod_pos_bound (code c) 16 ltac:(lia)).
  split; [lia|]. split; [lia|]. replace (_ + _) with (code c) by lia. apply chr_code.
Qed.

Lemma length_resize n s : length (resize n s) = n.
Proof. unfold resize. rewrite length_app, length_take, length_replicate. lia. Qed.

Lemma DecodeHex_length_ok hex what : hex <> [] -> (length hex mod 2 = 0)%nat ->
  DecodeHex hex what = DecodeHex_loop hex (resize (length hex / 2) what).
Proof.
  intros Hn He. unfold DecodeHex. rewrite He. by destruct hex.
Qed.

Lemma DecodeHex_EncodeHex_loop w what : length what = length w ->
  DecodeHex_loop (EncodeHex_loop w) what = (0, w).
Proof.
  revert what. induction w as [|c w IH]; intros what Hl.
  - by destruct what.
  - destruct what as [|x what]; [done|]. destruct (nibbles c) as (H1 & H2 & E).
    cbn [EncodeHex_loop DecodeHex_loop].
    rewrite !HexChar_hex_at by lia.
    destruct (Z.ltb_spec (code c / 16) 0); [lia|]. destruct (Z.ltb_spec (code c mod 16) 0); [lia|].
    cbn [orb tail]. rewrite IH by (injection Hl; done). by rewrite E.
Qed.

Definition is_hex (c : ascii) : bool := 0 <=? HexChar c.

Lemma even_length_cases {A} (l : list A) : (length l mod 2 = 0)%nat ->
  l = [] \/ exists a b k, l = a :: b :: k /\ (length k mod 2 = 0)%nat.
Proof.
  destruct l as [|a [|b k]]; intros H; [by left|done|right].
  exists a, b, k. split; [done|]. cbn [length] in H.
  replace (S (S (length k))) with (length k + 1 * 2)%nat in H by lia.
  by rewrite Nat.Div0.mod_add in H.
Qed.

(** A run of the loop: it stops at the first pair with a non-digit, and what
    it has stored until then keeps its place. *)
Lemma DecodeHex_loop_spec n hex what :
  (length hex <= n)%nat -> (length hex mod 2 = 0)%nat -> length what = (length hex / 2)%nat ->
  length (snd (DecodeHex_loop hex what)) = length what /\
  fst (DecodeHex_loop hex what) = (if forallb is_hex hex then 0 else -1).
Proof.
  revert hex what. induction n as [|n IH]; intros hex what Hn He Hl.
  - destruct hex; [|cbn in Hn; lia]. by apply nil_length_inv in Hl as ->.
  - destruct (even_length_cases hex He) as [->|(h & l & k & -> & Hk)];
      [by apply nil_length_inv in Hl as ->|].
    cbn [length] in Hl, Hn.
    replace (S (S (length k))) with (length k + 1 * 2)%nat in Hl by lia.
    rewrite Nat.div_add in Hl by done. destruct what as [|x what]; [cbn in Hl; lia|].
    cbn [length] in Hl. specialize (IH k what ltac:(lia) Hk ltac:(lia)).
    cbn [DecodeHex_loop forallb tail].
    unfold is_hex at 1 2.
    destruct (Z.ltb_spec (HexChar h) 0), (Z.ltb_spec (HexChar l) 0),
      (Z.leb_spec 0 (HexChar h)), (Z.leb_spec 0 (HexChar l)); try lia; cbn [orb andb fst snd]; try done.
    destruct (DecodeHex_loop k what) as [ret rest]. cbn in *. by destruct IH as [-> ->].
Qed.

Lemma escape_fold ie html acc :
  fold_left (fun r c => r ++ escape_char ie c) html acc = acc ++ concat (map (escape_char ie) html).
Proof.
  revert acc. induction html as [|c html IH]; intros acc; cbn; [by rewrite app_nil_r|].
  by rewrite IH, app_assoc.
Qed.

Lemma escape_extra_nonneg c : 0 <= escape_extra c.
Proof. unfold escape_extra. repeat case_bool_decide; lia. Qed.

Lemma escape_extra_fold html acc :
  fold_left (fun e c => e + escape_extra c) html acc =
  acc + fold_left (fun e c => e + escape_extra c) html 0.
Proof.
  revert acc. induction html as [|c html IH]; intros acc; cbn [fold_left]; [lia|].
  rewrite IH, (IH (0 + _)). lia.
Qed.

Lemma escape_extra_zero ie c : escape_extra c = 0 -> escape_char ie c = [c].
Proof.
  unfold escape_extra, escape_char. intros H.
  repeat case_bool_decide; try lia; naive_solver.
Qed.

(** The short cut for strings without markup is no special case. *)
Lemma EscapeHtml_concat html ie : EscapeHtml html ie = concat (map (escape_char ie) html).
Proof.
  unfold EscapeHtml. destruct html as [|c html]; [done|]. set (s := c :: html).
  destruct (Z.eqb_spec (fold_left (fun e c => e + escape_extra c) s 0) 0) as [E|E];
    [|apply escape_fold].
  clearbody s. clear c html. induction s as [|c s IH]; [done|].
  cbn [fold_left] in E. rewrite escape_extra_fold in E.
  assert (0 <= fold_left (fun e c => e + escape_extra c) s 0) as Hp.
  { clear. induction s as [|c s IH]; [done|]. cbn [fold_left]. rewrite escape_extra_fold.
    pose proof (escape_extra_nonneg c). lia. }
  pose proof (escape_extra_nonneg c).
  cbn [map concat]. rewrite escape_extra_zero by lia. cbn. f_equal. apply IH. lia.
Qed.

Definition markup (c : ascii) : Prop :=
  c = "<"%char \/ c = ">"%char \/ c = quote \/ c = apostrophe.

Lemma escape_char_no_markup ie c x : x ∈ escape_char ie c -> ~ markup x.
Proof.
  unfold escape_char, markup. repeat case_bool_decide; try destruct ie;
    (intros Hx; rewrite list_elem_of_In in Hx; cbn in Hx;
     repeat destruct Hx as [<-|Hx]; [..|done]; intros [|[|[|]]]; done).
Qed.

(** The escapes are a prefix code. *)
Lemma escape_char_prefix ie c d r s :
  escape_char ie c ++ r = escape_char ie d ++ s -> c = d.
Proof.
  unfold escape_char, quote, apostrophe.
  repeat case_bool_decide; destruct ie; cbn; intros E; try congruence;
    try (injection E; intros; subst; done).
Qed.

(** ** Properties *)

(** Hexadecimal text: decoding what was encoded gives the bytes back
    whatever the output held before; decoding succeeds exactly on a non-empty
    even number of hexadecimal digits; on a string of the wrong length it
    leaves the output alone, and on a bad digit it leaves one of half the
    length of the input. *)
Theorem hex_roundtrip_and_errors :
  (forall w old, w <> [] -> DecodeHex (snd (EncodeHex w)) old = (0, w)) /\
  (forall hex old, let '(ret, what) := DecodeHex hex old in
     (ret = 0 <-> hex <> [] /\ (length hex mod 2 = 0)%nat /\ forallb is_hex hex = true) /\
     (ret <> 0 -> ret = -1 /\ (what = old \/ length what = (length hex / 2)%nat))).
Proof.
  split.
  - intros w old Hw. rewrite EncodeHex_eq. cbn [snd].
    assert (length (EncodeHex_loop w) mod 2 = 0)%nat as He.
    { rewrite length_EncodeHex, Nat.mul_comm. apply Nat.Div0.mod_mul. }
    rewrite DecodeHex_length_ok; [|by destruct w|done].
    apply DecodeHex_EncodeHex_loop. rewrite length_resize, length_EncodeHex, Nat.mul_comm.
    by apply Nat.div_mul.
  - intros hex old. unfold DecodeHex.
    destruct (Nat.eqb_spec (length hex) 0) as [E0|E0].
    { apply nil_length_inv in E0 as ->. cbn. split; [|auto]. split; [done|]. by intros []. }
    destruct (Nat.eqb_spec (length hex mod 2) 0) as [E|E]; cbn [orb negb].
    + destruct (DecodeHex_loop_spec (length hex) hex (resize (length hex / 2) old))
        as [HL HR]; [done|done|by rewrite length_resize|].
      rewrite length_resize in HL.
      destruct (DecodeHex_loop hex _) as [ret what]. cbn [fst snd] in *. subst ret.
      assert (hex <> []) by (intros ->; done).
      destruct (forallb is_hex hex); (split; [|auto]); split; try done.
      by intros (_ & _ & ?).
    + split; [|auto]. split; [done|]. by intros (_ & ? & _).
Qed.

(** Escaping for HTML leaves none of the markup characters and is
    injective, so nothing of the text is lost; a text without markup is
    returned as it is. *)
Theorem EscapeHtml_safe_injective ie :
  (forall s x, x ∈ EscapeHtml s ie -> ~ markup x) /\
  (forall s t, EscapeHtml s ie = EscapeHtml t ie -> s = t) /\
  (forall s, Forall (fun c => ~ markup c /\ c <> "&"%char) s -> EscapeHtml s ie = s).
Proof.
  split; [|split].
  - intros s x. rewrite EscapeHtml_concat, list_elem_of_In, in_concat.
    intros (l & Hl & Hx). apply in_map_iff in Hl as (c & <- & _).
    eapply escape_char_no_markup. by apply list_elem_of_In.
  - intros s t. rewrite !EscapeHtml_concat. revert t.
    induction s as [|c s IH]; intros [|d t] E; cbn in E; [done| | |].
    + exfalso. revert E. unfold escape_char. repeat case_bool_decide; by destruct ie.
    + exfalso. revert E. unfold escape_char. repeat case_bool_decide; by destruct ie.
    + pose proof (escape_char_prefix _ _ _ _ _ E) as ->. f_equal. apply IH.
      by apply app_inv_head in E.
  - intros s H. rewrite EscapeHtml_concat. induction H as [|c s [Hm Ha] _ IH]; [done|].
    cbn. rewrite IH. unfold escape_char, markup in *.
    repeat case_bool_decide; naive_solver.
Qed.

Lemma hex_roundtrip_and_errors_witness :
  EncodeHex (B "Az") = (0, B "417A") /\ DecodeHex (snd (EncodeHex (B "Az"))) (B "old") = (0, B "Az").
Proof.
  split; [reflexivity|]. apply (proj1 hex_roundtrip_and_errors). discriminate.
Defined.

Lemma EscapeHtml_safe_injective_witness :
  EscapeHtml (B "a<b") true = B "a&lt;b" /\ EscapeHtml (B "plain") true = B "plain".
Proof.
  split; [reflexivity|]. apply (proj2 (proj2 (EscapeHtml_safe_injective true))).
  repeat constructor; try discriminate; intros [|[|[|]]]; discriminate.
Defined.
