(* ===== verification/Uuid.v ===== *)
(** * Universally unique identifiers: types/uuid.cpp

    libuuid is not part of the repository: [LibUuid] is what it documents, with
    an instance.  An object is the address of its [Context], and the map of
    contexts is the state: Compare and the assignment look whether two objects
    are the same. *)

From Stdlib Require Import ZifyBool.
From S2P Require Import Prelude Libc Encode.

(** A [uuid_t] is an array of 16 bytes. *)
Definition kBinaryLength : nat := 16.
Definition kStringLength : nat := 36.
Definition nil_uuid : bytes := replicate kBinaryLength (chr 0).

Fixpoint lex (a b : bytes) : comparison :=
  match a, b with
  | [], [] => Eq
  | [], _ => Lt
  | _, [] => Gt
  | x :: a, y :: b => match code x ?= code y with Eq => lex a b | c => c end
  end.

(** uuid_parse: nothing for a negative result. *)
Class LibUuid : Type := {
  uuid_is_null : bytes -> bool;
  uuid_parse : bytes -> option bytes;
  uuid_unparse : bytes -> bytes;
  uuid_compare : bytes -> bytes -> Z;
  uuid_is_null_spec u : length u = kBinaryLength -> uuid_is_null u = bool_decide (u = nil_uuid);
  uuid_parse_length s u : uuid_parse s = Some u -> length u = kBinaryLength;
  uuid_unparse_text u : length u = kBinaryLength -> length (uuid_unparse u) = kStringLength /\ NUL ∉ uuid_unparse u;
  uuid_parse_unparse u : length u = kBinaryLength -> uuid_parse (uuid_unparse u) = Some u;
  uuid_compare_lex u v : length u = kBinaryLength -> length v = kBinaryLength -> (uuid_compare u v ?= 0) = lex u v
}.

Abbreviation contexts := (gmap Z bytes) (only parsing).

Section Uuid.
Context `{LibUuid}.

Implicit Types (h : contexts) (this other : Z).

(** [new Context]: at the address [this], [junk] is what was there. *)
Definition new_Context (this : Z) (junk : bytes) h : contexts := <[this := junk]> h.

Definition Clear this h : contexts := <[this := nil_uuid]> h.

(** uuid_generate made [uuid]. *)
Definition Generate (uuid : bytes) this h : contexts := <[this := uuid]> h.

Definition Parse (value : option bytes) this h : contexts * bool :=
  match value with
  | None | Some [] => (h, false)
  | Some value =>
      match uuid_parse value with
      | None => (<[this := nil_uuid]> h, false)
      | Some uuid => (<[this := uuid]> h, true)
      end
  end.

Definition Parse_string (value : bytes) this h : contexts * bool := Parse (Some (c_str value)) this h.

(** The constructors; one that throws leaves its Context. *)
Definition Uuid (junk : bytes) this h : contexts := Clear this (new_Context this junk h).

Definition Uuid_value (value : option bytes) (junk : bytes) this h : contexts * result exn unit :=
  let '(h, ok) := Parse value this (new_Context this junk h) in
  (h, if negb ok then Err (invalid_argument "invalid UUID string") else Ok tt).

Definition Uuid_string (value : bytes) (junk : bytes) this h : contexts * result exn unit :=
  let '(h, ok) := Parse_string value this (new_Context this junk h) in
  (h, if negb ok then Err (invalid_argument "invalid UUID string") else Ok tt).

Definition destroy this h : contexts := delete this h.

Definition Uuid_copy other (junk : bytes) this h : contexts := <[this := h !!! other]> (new_Context this junk h).

Definition CreateRandom (uuid junk : bytes) this h : contexts := Generate uuid this (Uuid junk this h).

Definition IsNull this h : bool := uuid_is_null (h !!! this).
Definition to_bool this h : bool := negb (IsNull this h).

Definition str this h : bytes := uuid_unparse (h !!! this).

(** true, where the same object is compared, is 1. *)
Definition Compare this other h : Z := if this =? other then 1 else uuid_compare (h !!! this) (h !!! other).

Definition lt this other h : bool := Compare this other h <? 0.
Definition gt this other h : bool := 0 <? Compare this other h.
Definition le this other h : bool := Compare this other h <=? 0.
Definition ge this other h : bool := 0 <=? Compare this other h.
Definition eq this other h : bool := Compare this other h =? 0.
Definition ne this other h : bool := negb (Compare this other h =? 0).

Definition assign this other h : contexts := if this =? other then h else <[this := h !!! other]> h.

(** The buffers have 16 bytes or more. *)
Definition Save (buffer : option bytes) this h : option bytes :=
  match buffer with None => None | Some b => Some (h !!! this ++ drop kBinaryLength b) end.

Definition Load (buffer : option bytes) this h : contexts :=
  match buffer with None => h | Some b => <[this := take kBinaryLength b]> h end.

(** With an object [u] of its own. *)
Definition IsValidString (value : option bytes) (junk : bytes) u h : contexts * bool :=
  let '(h, ok) := Parse value u (Uuid junk u h) in (destroy u h, ok).
Definition IsValidString_string (value : bytes) (junk : bytes) u h : contexts * bool :=
  let '(h, ok) := Parse_string value u (Uuid junk u h) in (destroy u h, ok).

(** Every context is an array of 16 bytes. *)
Definition well_formed h : Prop := map_Forall (fun _ u => length u = kBinaryLength) h.

Lemma well_formed_at h this : well_formed h -> is_Some (h !! this) -> length (h !!! this) = kBinaryLength.
Proof. intros Hw [u Hu]. rewrite lookup_total_alt, Hu. exact (Hw _ _ Hu). Qed.

Lemma well_formed_insert h this u : well_formed h -> length u = kBinaryLength -> well_formed (<[this := u]> h).
Proof. intros Hw Hu. by apply map_Forall_insert_2. Qed.

Lemma Parse_well_formed value this h : well_formed h -> well_formed (Parse value this h).1.
Proof.
  intros Hw. unfold Parse. destruct value as [[|c v]|]; [done| |done].
  destruct (uuid_parse (c :: v)) as [u|] eqn:E; cbn; apply well_formed_insert; [done| |done|done]. by eapply uuid_parse_length.
Qed.

(** The text and the binary form give the value back, to any object. *)
Theorem Uuid_round_trips this other b h :
  well_formed h -> is_Some (h !! this) -> length b = kBinaryLength ->
  Parse_string (str this h) other h = (<[other := h !!! this]> h, true) /\
  length (str this h) = kStringLength /\
  Load (Save (Some b) this h) other h = <[other := h !!! this]> h.
Proof.
  intros Hw Ht Hb. pose proof (well_formed_at _ _ Hw Ht) as Hl. destruct (uuid_unparse_text _ Hl) as [Hs Hn].
  unfold Parse_string, str, Parse.
  assert (c_str (uuid_unparse (h !!! this)) = uuid_unparse (h !!! this)) as ->.
  { clear Hs. induction (uuid_unparse (h !!! this)) as [|c s IH]; [done|]. cbn [c_str].
    rewrite bool_decide_eq_false_2 by set_solver. f_equal. apply IH. set_solver. }
  pose proof (uuid_parse_unparse _ Hl) as Hp. destruct (uuid_unparse (h !!! this)) as [|c s]; [done|]. rewrite Hp.
  split_and!; [done..|]. cbn. rewrite take_app_length' by done. done.
Qed.

(** Different objects are ordered as their bytes are. *)
Theorem Uuid_order this other h :
  well_formed h -> is_Some (h !! this) -> is_Some (h !! other) -> this <> other ->
  (lt this other h = true <-> lex (h !!! this) (h !!! other) = Lt) /\
  (gt this other h = true <-> lex (h !!! this) (h !!! other) = Gt) /\
  (eq this other h = true <-> h !!! this = h !!! other) /\
  le this other h = negb (gt this other h) /\ ge this other h = negb (lt this other h) /\ ne this other h = negb (eq this other h).
Proof.
  intros Hw Ht Ho Hne. pose proof (uuid_compare_lex _ _ (well_formed_at _ _ Hw Ht) (well_formed_at _ _ Hw Ho)) as Hc.
  unfold lt, gt, eq, le, ge, ne, Compare. replace (this =? other) with false by lia.
  assert (forall a b, lex a b = Eq <-> a = b) as Hlex.
  { clear. intros a. induction a as [|x a IH]; intros [|y b]; cbn; try done. destruct (Z.compare_spec (code x) (code y)) as [E| |].
    - rewrite IH. assert (x = y) as -> by (rewrite <- (chr_code x), <- (chr_code y); by rewrite E). naive_solver.
    - split; [done|]. intros [= -> ->]. lia.
    - split; [done|]. intros [= -> ->]. lia. }
  rewrite <- (Hlex (h !!! this) (h !!! other)), <- Hc.
  destruct (Z.compare_spec (uuid_compare (h !!! this) (h !!! other)) 0); split_and!; try lia; split; intros; try done; lia.
Qed.

(** An object compared with itself is greater than itself, and not equal. *)
Theorem Uuid_is_not_itself this h :
  eq this this h = false /\ ne this this h = true /\ le this this h = false /\ gt this this h = true.
Proof. unfold eq, ne, le, gt, Compare. by rewrite Z.eqb_refl. Qed.

(** Text that is not a UUID clears the object, no text leaves it; a constructor
    that throws leaves its context behind. *)
Theorem Uuid_errors value junk this h :
  uuid_parse value = None -> value <> [] ->
  Parse (Some value) this h = (<[this := nil_uuid]> h, false) /\ Parse None this h = (h, false) /\ Parse (Some []) this h = (h, false) /\
  exists e h', Uuid_value (Some value) junk this h = (h', Err e) /\ is_Some (h' !! this).
Proof.
  intros Hv Hn. unfold Uuid_value. destruct value as [|c v]; [done|]. cbn [Parse]. rewrite Hv. split_and!; [done..|].
  eexists _, _. split; [done|]. rewrite lookup_insert_eq. by eexists.
Qed.

(** IsValidString leaves no object, and is Parse's verdict. *)
Lemma IsValidString_spec value junk u h : h !! u = None ->
  IsValidString value junk u h = (h, (Parse value u h).2).
Proof.
  intros Hu. unfold IsValidString, Uuid, Clear, new_Context, destroy, Parse.
  destruct value as [[|c v]|]; [|destruct (uuid_parse (c :: v))|]; cbn; f_equal; rewrite ?insert_insert_eq; by apply delete_insert_id.
Qed.

End Uuid.

(** ** An instance: hexadecimal digits in groups, bytes compared in order *)

Definition dashed (hex : bytes) : bytes :=
  take 8 hex ++ B "-" ++ take 4 (drop 8 hex) ++ B "-" ++ take 4 (drop 12 hex) ++ B "-" ++ take 4 (drop 16 hex) ++ B "-" ++ drop 20 hex.

Definition undashed (s : bytes) : bytes :=
  take 8 s ++ take 4 (drop 9 s) ++ take 4 (drop 14 s) ++ take 4 (drop 19 s) ++ drop 24 s.

Definition hex_parse (s : bytes) : option bytes :=
  let u := (DecodeHex_loop (undashed s) nil_uuid).2 in
  if bool_decide (dashed (undashed s) = s) && forallb is_hex (undashed s) && (length u =? kBinaryLength)%nat then Some u else None.

Lemma hex_at_ok i : 0 <= i < 16 -> is_hex (hex_at i) = true /\ hex_at i <> NUL.
Proof.
  intros Hi. unfold is_hex. pose proof (HexChar_hex_at i Hi) as E. split; [lia|]. intros Hn. rewrite Hn in E. change (HexChar NUL) with (-1) in E. lia.
Qed.

Lemma EncodeHex_ok w : forallb is_hex (EncodeHex_loop w) = true /\ NUL ∉ EncodeHex_loop w.
Proof.
  induction w as [|c w [IH1 IH2]]; cbn [EncodeHex_loop forallb]; [split; [done|set_solver]|].
  destruct (nibbles c) as (H1 & H2 & _). destruct (hex_at_ok _ H1), (hex_at_ok _ H2). rewrite IH1. split; [by repeat (apply andb_true_intro; split)|set_solver].
Qed.

Lemma undashed_dashed hex : length hex = 32%nat -> undashed (dashed hex) = hex.
Proof. intros Hl. do 32 (destruct hex as [|? hex]; [done|]). by destruct hex. Qed.

Lemma length_dashed hex : length hex = 32%nat -> length (dashed hex) = 36%nat.
Proof. intros Hl. do 32 (destruct hex as [|? hex]; [done|]). by destruct hex. Qed.

Lemma elem_of_piece {A} (c : A) n m l : c ∈ take n (drop m l) -> c ∈ l.
Proof. intros H. rewrite <- (take_drop m l), elem_of_app. right. rewrite <- (take_drop n (drop m l)), elem_of_app. by left. Qed.

Lemma elem_of_dashed c hex : c ∈ dashed hex -> c ∈ hex \/ c = "-"%char.
Proof.
  unfold dashed. rewrite <- (firstn_all (drop 20 hex)). rewrite !elem_of_app. change (B "-") with ["-"%char]. rewrite !list_elem_of_singleton.
  change (take 8 hex) with (take 8 (drop 0 hex)). pose proof (@elem_of_piece ascii c). naive_solver.
Qed.

Definition sign (c : comparison) : Z := match c with Lt => -1 | Eq => 0 | Gt => 1 end.

#[export, program] Instance hex_uuid : LibUuid := {
  uuid_is_null u := bool_decide (u = nil_uuid);
  uuid_parse := hex_parse;
  uuid_unparse u := dashed (EncodeHex_loop u);
  uuid_compare u v := sign (lex u v)
}.
Next Obligation. done. Qed.
Next Obligation.
  intros s u. unfold hex_parse. cbv zeta. destruct (_ && (length _ =? _)%nat) eqn:E; [|done]. intros [= <-].
  apply andb_prop in E as [_ E%Nat.eqb_eq]. exact E.
Qed.
Next Obligation.
  intros u Hu. assert (length (EncodeHex_loop u) = 32%nat) as Hl by (rewrite length_EncodeHex, Hu; done). split; [by apply length_dashed|].
  intros [H|H]%elem_of_dashed; [by apply (proj2 (EncodeHex_ok u))|done].
Qed.
Next Obligation.
  intros u Hu. assert (length (EncodeHex_loop u) = 32%nat) as Hl by (rewrite length_EncodeHex, Hu; done).
  unfold hex_parse. rewrite undashed_dashed by done. rewrite DecodeHex_EncodeHex_loop by done. cbn [snd].
  rewrite bool_decide_eq_true_2 by done. rewrite (proj1 (EncodeHex_ok u)), Hu. done.
Qed.
Next Obligation. intros u v _ _. cbn. by destruct (lex u v). Qed.

Definition demo_uuids : gmap Z bytes := Generate (map chr [1;2;3;4;5;6;7;8;9;10;11;12;13;14;15;255]) 7 (Uuid [] 7 (Uuid [] 8 ∅)).

Example demo_str : string_of_list_ascii (str 7 demo_uuids) = "01020304-0506-0708-090A-0B0C0D0E0FFF"%string.
Proof. vm_compute. reflexivity. Qed.

Lemma Uuid_order_witness : gt 7 8 demo_uuids = true <-> lex (demo_uuids !!! 7) (demo_uuids !!! 8) = Gt.
Proof.
  apply (Uuid_order 7 8 demo_uuids); [|by eexists..|lia]. intros i u Hu. unfold demo_uuids, Generate, Uuid, Clear, new_Context in Hu.
  rewrite !lookup_insert_Some in Hu. naive_solver.
Defined.
