(* ===== verification/Explode.v ===== *)
(** * Splitting strings: explode.cpp and trim.cpp

    [explode] splits at delimiters; [explode_list] and [explode_lists] parse
    lists of integers and ranges such as "1,3-5;7".  A [const char *] into the
    text is the list of the characters that follow it; [Past] is the pointer
    one past the terminator.  The theorems: [explode] computes the fields of
    the text, with or without the empty ones, and the fields give the text
    back; the outputs of [explode_list] are sorted, without duplicates and
    within bounds, and it reads back every list that can be written. *)

From S2P Require Import Prelude Digits Libc.

(** ** trim.cpp *)

Definition DELIMITER : bytes := B " " ++ map chr [9; 13; 10; 12; 11; 8; 7].

Definition is_blank (c : ascii) : bool := bool_decide (c ∈ DELIMITER).

(** [find_first_not_of] and [find_last_not_of]: None is [npos]. *)
Fixpoint find_first_not (p : ascii -> bool) (i : nat) (s : bytes) : option nat :=
  match s with
  | [] => None
  | c :: s => if p c then find_first_not p (S i) s else Some i
  end.

Fixpoint find_last_not (p : ascii -> bool) (i : nat) (s : bytes) (r : option nat) : option nat :=
  match s with
  | [] => r
  | c :: s => find_last_not p (S i) s (if p c then r else Some i)
  end.

Definition substr (pos n : nat) (s : bytes) : bytes := take n (drop pos s).

Definition trim (string : bytes) : bytes :=
  let str := c_str string in
  match find_first_not is_blank 0 str with
  | None => []
  | Some strhead =>
      match find_last_not is_blank 0 str None with
      | None => []
      | Some strtail => substr strhead (strtail - strhead + 1) str
      end
  end.

Definition ltrim (string : bytes) : bytes :=
  let str := c_str string in
  match find_first_not is_blank 0 str with
  | None => []
  | Some strhead => drop strhead str
  end.

Definition rtrim (string : bytes) : bytes :=
  let str := c_str string in
  match find_last_not is_blank 0 str None with
  | None => []
  | Some strtail => substr 0 (strtail + 1) str
  end.

(** ** explode *)

(** [methods.find_first_of(delim, pos)]. *)
Fixpoint find_first_of (delim : bytes) (i : nat) (s : bytes) : option nat :=
  match s with
  | [] => None
  | c :: s => if bool_decide (c ∈ delim) then Some i else find_first_of delim (S i) s
  end.
Definition find_from (methods delim : bytes) (pos : nat) : option nat :=
  find_first_of delim pos (drop pos methods).

(** [while (pos < methods.length())], one unit of fuel per iteration. *)
Fixpoint explode_loop (fuel : nat) (methods delim : bytes) (preserve_null : bool)
    (pos : nat) (acc : list bytes) : result exn (list bytes) :=
  match fuel with
  | O => Err out_of_fuel
  | S f =>
      if (pos <? length methods)%nat then
        match find_from methods delim pos with
        | None => Ok (acc ++ [drop pos methods])
        | Some hit =>
            explode_loop f methods delim preserve_null (hit + 1)
              (if negb (pos =? hit)%nat || preserve_null
               then acc ++ [substr pos (hit - pos) methods] else acc)
        end
      else Ok (if preserve_null then acc ++ [[]] else acc)
  end.

(** Into a vector or a list: [delim] is a C string. *)
Definition explode (methods delim : bytes) (preserve_null : bool) : result exn (list bytes) :=
  explode_loop (S (length methods)) methods (c_str delim) preserve_null 0 [].

(** Into a set. *)
Fixpoint explode_set_loop (fuel : nat) (methods delim : bytes) (pos : nat)
    (acc : gset bytes) : result exn (gset bytes) :=
  match fuel with
  | O => Err out_of_fuel
  | S f =>
      if (pos <? length methods)%nat then
        match find_from methods delim pos with
        | None => Ok (acc ∪ {[ drop pos methods ]})
        | Some hit =>
            explode_set_loop f methods delim (hit + 1)
              (if negb (pos =? hit)%nat
               then acc ∪ {[ substr pos (hit - pos) methods ]} else acc)
        end
      else Ok acc
  end.

Definition explode_set (methods delim : bytes) : result exn (gset bytes) :=
  explode_set_loop (S (length methods)) methods (c_str delim) 0 ∅.

(** ** explode_list *)

Inductive last_t : Type := NONE | DASH | COMMA | DIGIT | RANGE.

#[export] Instance last_t_eq_dec : EqDecision last_t.
Proof. solve_decision. Defined.

(** A [const char *] into a text: before or at its terminator, or past it. *)
Inductive ptr : Type := At (l : bytes) | Past.

(** [++s] *)
Definition next (s : bytes) : ptr := match s with [] => Past | _ :: k => At k end.

(** [for (int i = digit; i <= now; ++i)] overflows when [now] is INT_MAX. *)
Definition push_range (digit now : Z) (o : list Z) : result exn (list Z) :=
  if now =? INT_MAX then Err undefined_behaviour
  else Ok (o ++ seqZ digit (now - digit + 1)).

(** The scanning loop; the result's first component is the pointer that the
    function returns, [None] being [NULL]. *)
Fixpoint list_loop (fuel : nat) (s : bytes) (last : last_t) (digit : Z) (o : list Z)
    (max : Z) : result exn (option ptr * list Z) :=
  match fuel with
  | O => Err out_of_fuel
  | S f =>
      let c := hd NUL s in
      if is_digit c then
        if bool_decide (last <> COMMA /\ last <> DASH /\ last <> NONE) then Ok (None, o)
        else
          let '(n, end_, _) := strtoul 10 s in
          if (length end_ =? length s)%nat || (max <? n) then Ok (None, o)
          else if bool_decide (last = DASH) then
            if n <? digit then Ok (None, o)
            else let! o := push_range digit n o in
                 list_loop f end_ RANGE digit o max
          else list_loop f end_ DIGIT n o max
      else if bool_decide (c = ","%char) then
        if bool_decide (last <> DIGIT /\ last <> RANGE) then Ok (None, o)
        else list_loop f (tail s) COMMA digit
               (if bool_decide (last = DIGIT) then o ++ [digit] else o) max
      else if bool_decide (c = "-"%char) then
        if bool_decide (last <> DIGIT) then Ok (None, o)
        else list_loop f (tail s) DASH digit o max
      else if bool_decide (c = " "%char \/ c = chr 9) then
        list_loop f (tail s) last digit o max
      else if bool_decide (c = ";"%char \/ c = NUL) then
        if bool_decide (last = DIGIT) then Ok (Some (next s), o ++ [digit])
        else if bool_decide (last <> RANGE /\ last <> NONE) then Ok (None, o)
        else Ok (Some (next s), o)
      else Ok (None, o)
  end.

(** [std::sort] *)
Definition sort (o : list Z) : list Z := merge_sort Z.le o.

(** [std::unique] and [erase] *)
Fixpoint unique (o : list Z) : list Z :=
  match o with
  | x :: k => match k with
              | y :: _ => if x =? y then unique k else x :: unique k
              | [] => [x]
              end
  | [] => []
  end.

Definition explode_list_internal (s : bytes) (max : Z) : result exn (option ptr * list Z) :=
  let! (p, o) := list_loop (S (length s)) s NONE (-1) [] max in
  match p with
  | None => Ok (None, o)
  | Some p => Ok (Some p, unique (sort o))
  end.

(** The output pointer is not null. *)
Definition explode_list (input : bytes) (max : Z) : result exn (Z * list Z) :=
  if max <? 0 then Ok (-1, [])
  else let! (p, o) := explode_list_internal input max in
       Ok (match p with Some _ => 0 | None => -1 end, o).

(** [while (s <= e)] *)
Fixpoint lists_loop (fuel : nat) (s : ptr) (max : Z) (output : list (list Z))
  : result exn (Z * list (list Z)) :=
  match fuel with
  | O => Err out_of_fuel
  | S f =>
      match s with
      | Past => Ok (0, output)
      | At s =>
          let! (p, one) := explode_list_internal s max in
          match p with
          | None => Ok (-1, output)
          | Some s => lists_loop f s max (output ++ [one])
          end
      end
  end.

Definition explode_lists (input : bytes) (max : Z) : result exn (Z * list (list Z)) :=
  if max <? 0 then Ok (-1, [])
  else lists_loop (length input + 2) (At input) max [].

Example explode_lists_ex :
  explode_lists (B "3, 1-2,2;;7") 9 = Ok (0, [[1; 2; 3]; []; [7]]).
Proof. vm_compute. reflexivity. Qed.

(** ** Fields *)

(** The fields of a text between delimiters: one more than delimiters. *)
Fixpoint fields (d s : bytes) : list bytes :=
  match s with
  | [] => [[]]
  | c :: s =>
      if bool_decide (c ∈ d) then [] :: fields d s
      else match fields d s with
           | f :: fs => (c :: f) :: fs
           | [] => [[c]]
           end
  end.

Definition non_empty (fs : list bytes) : list bytes := filter (fun f => f <> []) fs.

(** Fields joined by one separator. *)
Fixpoint join (sep : ascii) (fs : list bytes) : bytes :=
  match fs with
  | [] => []
  | f :: fs => match fs with [] => f | _ => f ++ sep :: join sep fs end
  end.

Definition free (d s : bytes) : Prop := Forall (fun c => c ∉ d) s.

Lemma find_first_of_spec d i s :
  match find_first_of d i s with
  | None => free d s
  | Some h => exists p c r, s = p ++ c :: r /\ h = (i + length p)%nat /\ free d p /\ c ∈ d
  end.
Proof.
  revert i. induction s as [|c s IH]; intros i; cbn; [by constructor|].
  case_bool_decide as H.
  - exists [], c, s. cbn. split; [done|]. split; [lia|]. split; [by constructor|done].
  - specialize (IH (S i)). destruct (find_first_of d (S i) s) as [h|].
    + destruct IH as (p & c' & r & -> & -> & Hp & Hc). exists (c :: p), c', r. cbn.
      split; [done|]. split; [lia|]. split; [by constructor|done].
    + by constructor.
Qed.

Lemma fields_free d p : free d p -> fields d p = [p].
Proof.
  induction 1 as [|c p Hc _ IH]; [done|]. cbn. by rewrite bool_decide_false, IH.
Qed.

Lemma fields_app d p c r : free d p -> c ∈ d -> fields d (p ++ c :: r) = p :: fields d r.
Proof.
  intros Hp Hc. induction Hp as [|x p Hx _ IH]; cbn.
  - by rewrite bool_decide_true.
  - by rewrite bool_decide_false, IH.
Qed.

Lemma fields_not_nil d s : fields d s <> [].
Proof. induction s as [|c s IH]; cbn; [done|]. case_bool_decide; [done|]. by destruct (fields d s). Qed.

Lemma fields_are_free d s : Forall (free d) (fields d s).
Proof.
  induction s as [|c s IH]; cbn; [by repeat constructor|].
  case_bool_decide; [by constructor; [constructor|]|].
  destruct (fields d s); inversion IH; subst; repeat constructor; done.
Qed.

Lemma join_fields c s : join c (fields [c] s) = s.
Proof.
  induction s as [|x s IH]; [done|]. cbn [fields]. case_bool_decide as H.
  - apply list_elem_of_singleton in H as ->. cbn [join].
    pose proof (fields_not_nil [c] s). destruct (fields [c] s); [done|]. by rewrite IH.
  - pose proof (fields_not_nil [c] s). destruct (fields [c] s) as [|f fs]; [done|].
    cbn [join] in *. destruct fs; by rewrite <- IH.
Qed.

(** The position of a hit, and the text on its two sides. *)
Lemma find_from_spec m d pos : (pos < length m)%nat ->
  match find_from m d pos with
  | None => free d (drop pos m)
  | Some h => exists p c r, drop pos m = p ++ c :: r /\ h = (pos + length p)%nat /\
                free d p /\ c ∈ d /\ substr pos (h - pos) m = p /\ drop (h + 1) m = r /\
                (h < length m)%nat
  end.
Proof.
  intros Hp. unfold find_from. pose proof (find_first_of_spec d pos (drop pos m)) as H.
  destruct (find_first_of d pos (drop pos m)) as [h|]; [|done].
  destruct H as (p & c & r & E & -> & Hf & Hc). exists p, c, r.
  split; [done|]. split; [done|]. split; [done|]. split; [done|].
  replace (pos + length p - pos)%nat with (length p) by lia. unfold substr.
  rewrite E, take_app_length. split; [done|].
  rewrite <- Nat.add_assoc, <- drop_drop, E.
  split; [by rewrite drop_app_add|].
  apply (f_equal length) in E. rewrite length_drop, length_app in E. cbn in E. lia.
Qed.

Lemma drop_not_nil {A} (m : list A) pos : (pos < length m)%nat -> drop pos m <> [].
Proof. intros L E. apply (f_equal length) in E. rewrite length_drop in E. cbn in E. lia. Qed.

Lemma explode_loop_spec fuel m d pn pos acc : (length m - pos < fuel)%nat ->
  explode_loop fuel m d pn pos acc =
  Ok (acc ++ (if pn then fields d (drop pos m) else non_empty (fields d (drop pos m)))).
Proof.
  revert pos acc. induction fuel as [|fuel IH]; intros pos acc Hf; [lia|].
  cbn [explode_loop]. destruct (Nat.ltb_spec pos (length m)) as [L|L].
  - pose proof (find_from_spec m d pos L) as H.
    destruct (find_from m d pos) as [h|].
    + destruct H as (p & c & r & E & Hh & Hp & Hc & -> & Hr & Hlt).
      rewrite IH by lia. rewrite Hr, E, fields_app by done.
      assert ((pos =? h)%nat = bool_decide (p = [])) as ->.
      { subst h. case_bool_decide as Hn; [subst; apply Nat.eqb_eq; cbn; lia|].
        apply Nat.eqb_neq. destruct p; [done|]. cbn. lia. }
      destruct pn; cbn [orb].
      * by rewrite orb_true_r, <- app_assoc.
      * rewrite orb_false_r. unfold non_empty. rewrite filter_cons.
        case_bool_decide; case_decide; try done. cbn [negb]. by rewrite <- app_assoc.
    + rewrite fields_free by done. destruct pn; [done|]. unfold non_empty.
      rewrite filter_cons. case_decide as Hn; [done|]. exfalso.
      by apply (drop_not_nil m pos).
  - rewrite drop_ge by lia. cbn. destruct pn; [done|]. by rewrite app_nil_r.
Qed.

Lemma explode_set_loop_spec fuel m d pos acc : (length m - pos < fuel)%nat ->
  explode_set_loop fuel m d pos acc =
  Ok (acc ∪ list_to_set (non_empty (fields d (drop pos m)))).
Proof.
  revert pos acc. induction fuel as [|fuel IH]; intros pos acc Hf; [lia|].
  cbn [explode_set_loop]. destruct (Nat.ltb_spec pos (length m)) as [L|L].
  - pose proof (find_from_spec m d pos L) as H.
    destruct (find_from m d pos) as [h|].
    + destruct H as (p & c & r & E & Hh & Hp & Hc & -> & Hr & Hlt).
      rewrite IH by lia. rewrite Hr, E, fields_app by done.
      assert ((pos =? h)%nat = bool_decide (p = [])) as ->.
      { subst h. case_bool_decide as Hn; [subst; apply Nat.eqb_eq; cbn; lia|].
        apply Nat.eqb_neq. destruct p; [done|]. cbn. lia. }
      unfold non_empty. rewrite filter_cons.
      case_bool_decide; case_decide; try done. cbn [negb list_to_set list_fmap foldr].
      by rewrite union_assoc_L.
    + rewrite fields_free by done. unfold non_empty.
      rewrite filter_cons. case_decide as Hn; [cbn; by rewrite union_empty_r_L|].
      exfalso.
      by apply (drop_not_nil m pos).
  - rewrite drop_ge by lia. cbn [fields]. change (non_empty [[]]) with (@nil bytes).
    cbn [list_to_set foldr]. by rewrite union_empty_r_L.
Qed.

(** ** sort and unique *)

Lemma unique_sorted o : Sorted Z.le o -> StronglySorted Z.lt (unique o) /\
  (forall x, x ∈ unique o <-> x ∈ o).
Proof.
  intros H. apply Sorted_StronglySorted in H; [|apply _].
  induction H as [|x k Hk IH Hx]; [by split; [constructor|]|].
  destruct IH as [IS IE]. destruct k as [|y k]; [split; [by repeat constructor|done]|].
  cbn [unique] in *. destruct (Z.eqb_spec x y) as [->|N].
  - split; [done|]. intros z. rewrite IE. set_solver.
  - split.
    + constructor; [done|]. apply Forall_forall. intros z Hz. apply IE in Hz.
      apply StronglySorted_inv in Hk as [_ Hk].
      rewrite Forall_forall in Hk, Hx. pose proof (Hx y ltac:(set_solver)).
      apply elem_of_cons in Hz as [->|Hz]; [lia|]. specialize (Hk z Hz). lia.
    + intros z. rewrite !elem_of_cons. rewrite IE, elem_of_cons. done.
Qed.

Lemma sort_unique o : StronglySorted Z.lt (unique (sort o)) /\
  (forall x, x ∈ unique (sort o) <-> x ∈ o).
Proof.
  destruct (unique_sorted (sort o)) as [H1 H2].
  { apply Sorted_merge_sort. intros x y. lia. }
  split; [done|]. intros x. rewrite H2. unfold sort. by rewrite merge_sort_Permutation.
Qed.

(** ** The scanning loop *)

Definition in_bounds (max x : Z) : Prop := 0 <= x <= max.

Lemma hd_cons (s : bytes) : hd NUL s <> NUL -> exists k, s = hd NUL s :: k.
Proof. destruct s as [|c k]; [done|]. by exists k. Qed.

Lemma tail_shorter (s : bytes) : hd NUL s <> NUL -> (length (tail s) < length s)%nat.
Proof. intros H. destruct (hd_cons s H) as [k ->]. cbn. lia. Qed.

Lemma seqZ_bounds max a b : 0 <= a -> b <= max -> Forall (in_bounds max) (seqZ a (b - a + 1)).
Proof.
  intros Ha Hb. apply Forall_forall. intros x Hx. apply elem_of_seqZ in Hx.
  unfold in_bounds. lia.
Qed.

(** What a call leaves behind: bounded numbers and a pointer further on. *)
Definition loop_post (s : bytes) (max : Z) (r : result exn (option ptr * list Z)) : Prop :=
  match r with
  | Ok (p, o) => Forall (in_bounds max) o /\
      match p with Some (At k) => (length k < length s)%nat | _ => True end
  | Err e => e = undefined_behaviour /\ max = INT_MAX
  end.

Lemma loop_post_shorter s s' max r : (length s' <= length s)%nat ->
  loop_post s' max r -> loop_post s max r.
Proof. intros H. destruct r as [[[[k|]|] o]|]; cbn; intuition lia. Qed.

Lemma next_shorter s : match next s with At k => (length k < length s)%nat | Past => True end.
Proof. destruct s; cbn; [done|lia]. Qed.

Lemma list_loop_post fuel s last digit o max :
  (length s < fuel)%nat -> max <= INT_MAX ->
  (last = DIGIT \/ last = DASH -> in_bounds max digit) -> Forall (in_bounds max) o ->
  loop_post s max (list_loop fuel s last digit o max).
Proof.
  revert s last digit o. induction fuel as [|f IH]; intros s last digit o Hf Hm Hd Ho; [lia|].
  cbn [list_loop]. destruct (is_digit (hd NUL s)) eqn:Ec.
  - case_bool_decide; [done|].
    destruct (strtoul_progress s Ec) as (n & e & b & -> & Hn & He).
    destruct (Nat.eqb_spec (length e) (length s)); [lia|]. cbn [orb].
    destruct (Z.ltb_spec max n); [done|].
    case_bool_decide.
    + destruct (Z.ltb_spec n digit); [done|]. unfold push_range.
      destruct (Z.eqb_spec n INT_MAX); [cbn; split; [done|lia]|]. cbn [rbind].
      eapply loop_post_shorter; [|apply IH]; [lia|lia|done| |].
      * by intros [|].
      * apply Forall_app. split; [done|]. apply seqZ_bounds; [|done]. apply Hd. by right.
    + eapply loop_post_shorter; [|apply IH]; [lia|lia|done| |done]. by split.
  - assert (forall last o, hd NUL s <> NUL ->
      (last = DIGIT \/ last = DASH -> in_bounds max digit) -> Forall (in_bounds max) o ->
      loop_post s max (list_loop f (tail s) last digit o max)) as HT.
    { intros last' o' Hn Hd' Ho'. pose proof (tail_shorter s Hn).
      eapply loop_post_shorter; [|apply IH]; [lia|lia|done|done|done]. }
    assert (last = DIGIT -> Forall (in_bounds max) (o ++ [digit])) as Hpush.
    { intros E. apply Forall_app. split; [done|]. repeat constructor; apply Hd; by left. }
    case_bool_decide as E1.
    { case_bool_decide; [done|]. apply HT; [by rewrite E1|by intros [|]|].
      case_bool_decide; auto. }
    case_bool_decide as E2.
    { case_bool_decide as E; [done|]. apply HT; [by rewrite E2| |done].
      intros _. apply Hd. left. by destruct (decide (last = DIGIT)). }
    case_bool_decide as E3.
    { apply HT; [|done|done]. destruct E3 as [->| ->]; done. }
    case_bool_decide; [|done].
    pose proof (next_shorter s).
    case_bool_decide; [split; [by apply Hpush|done]|]. case_bool_decide; done.
Qed.

(** ** Lists that can be written *)

Inductive item : Type := One (n : Z) | Span (n m : Z).

Definition render_item (i : item) : bytes :=
  match i with One n => dec n | Span n m => dec n ++ "-"%char :: dec m end.
Definition render (l : list item) : bytes := join ","%char (map render_item l).

Definition denote (i : item) : list Z :=
  match i with One n => [n] | Span n m => seqZ n (m - n + 1) end.

Definition item_ok (max : Z) (i : item) : Prop :=
  match i with
  | One n => 0 <= n <= max
  | Span n m => 0 <= n <= m /\ m <= max
  end.

Lemma dec_head n : 0 <= n -> exists c l, dec n = c :: l /\ is_digit c = true.
Proof.
  intros H. pose proof (dec_digits n H) as Hd. pose proof (dec_not_nil n H).
  destruct (dec n) as [|c l]; [done|]. cbn in Hd. bprop. eauto.
Qed.

Lemma step_number f n k last digit o max :
  last = NONE \/ last = COMMA \/ last = DASH /\ digit <= n ->
  0 <= n <= max -> max < INT_MAX -> is_digit (hd NUL k) = false ->
  list_loop (S f) (dec n ++ k) last digit o max =
  (if bool_decide (last = DASH)
   then list_loop f k RANGE digit (o ++ seqZ digit (n - digit + 1)) max
   else list_loop f k DIGIT n o max).
Proof.
  intros Hl Hn Hm Hk. unfold INT_MAX in *. cbn [list_loop].
  assert (is_digit (hd NUL (dec n ++ k)) = true) as ->.
  { destruct (dec_head n) as (c & l & -> & ?); [lia|done]. }
  rewrite bool_decide_false by (intros (? & ? & ?); naive_solver).
  rewrite strtoul_digits; [|apply dec_not_nil; lia|apply dec_digits; lia|done].
  rewrite dec_value by lia. unfold ULLONG_MAX.
  rewrite (proj2 (Z.ltb_ge _ _)) by lia.
  assert (length k < length (dec n ++ k))%nat.
  { rewrite length_app. destruct (dec_head n) as (c & l & -> & ?); [lia|]. cbn. lia. }
  destruct (Nat.eqb_spec (length k) (length (dec n ++ k))); [lia|].
  rewrite (proj2 (Z.ltb_ge max n)) by lia. cbn [orb].
  case_bool_decide as E; [|done]. destruct Hl as [->|[->|[_ Hl]]]; [done|done|].
  rewrite (proj2 (Z.ltb_ge n digit)) by lia. unfold push_range.
  destruct (Z.eqb_spec n INT_MAX); [unfold INT_MAX in *; lia|]. done.
Qed.

Lemma step_comma f k last digit o max : last = DIGIT \/ last = RANGE ->
  list_loop (S f) (","%char :: k) last digit o max =
  list_loop f k COMMA digit (if bool_decide (last = DIGIT) then o ++ [digit] else o) max.
Proof. intros [->| ->]; done. Qed.

Lemma step_dash f k digit o max :
  list_loop (S f) ("-"%char :: k) DIGIT digit o max = list_loop f k DASH digit o max.
Proof. done. Qed.

Definition at_end (k : bytes) : Prop := hd NUL k = ";"%char \/ hd NUL k = NUL.

Lemma at_end_not_digit k : at_end k -> is_digit (hd NUL k) = false.
Proof. intros [->| ->]; done. Qed.

Lemma step_end f k last digit o max : at_end k ->
  last = DIGIT \/ last = RANGE \/ last = NONE ->
  list_loop (S f) k last digit o max =
  Ok (Some (next k), if bool_decide (last = DIGIT) then o ++ [digit] else o).
Proof.
  intros Hk Hl. cbn [list_loop]. rewrite at_end_not_digit by done.
  destruct Hk as [E|E]; rewrite E; destruct Hl as [->|[->| ->]]; done.
Qed.

(** After one item the scanner has pushed a range, or holds a number. *)
Lemma step_item f i k last digit o max :
  last = NONE \/ last = COMMA -> item_ok max i -> max < INT_MAX ->
  is_digit (hd NUL k) = false -> (length (render_item i ++ k) < f)%nat ->
  exists f' last' digit' o', (length k < f')%nat /\
    list_loop f (render_item i ++ k) last digit o max = list_loop f' k last' digit' o' max /\
    (last' = DIGIT \/ last' = RANGE) /\
    (if bool_decide (last' = DIGIT) then o' ++ [digit'] else o') = o ++ denote i.
Proof.
  intros Hl Hi Hm Hk Hf. destruct f as [|f]; [lia|].
  assert (bool_decide (last = DASH) = false) as HD.
  { apply bool_decide_false. by destruct Hl as [->| ->]. }
  destruct i as [n|n m]; cbn [render_item denote item_ok] in *.
  - rewrite step_number, HD by (tauto || lia || done).
    exists f, DIGIT, n, o. rewrite length_app in Hf.
    destruct (dec_head n) as (c & l & E & _); [lia|]. rewrite E in Hf. cbn in Hf.
    split; [lia|]. split; [done|]. split; [by left|done].
  - rewrite <- app_assoc in *. cbn [app] in *.
    rewrite step_number, HD by (tauto || lia || done).
    rewrite !length_app in Hf. cbn [length] in Hf. rewrite length_app in Hf.
    destruct (dec_head n) as (c & l & E & _); [lia|]. rewrite E in Hf.
    destruct (dec_head m) as (c' & l' & E' & _); [lia|]. rewrite E' in Hf. cbn in Hf.
    destruct f as [|[|f]]; [lia|lia|]. rewrite step_dash.
    rewrite step_number by (done || lia || (right; right; split; [done|lia])).
    rewrite bool_decide_true by done.
    exists f, RANGE, n, (o ++ seqZ n (m - n + 1)).
    split; [lia|]. split; [done|]. split; [by right|done].
Qed.

(** The scanner reads a written list, from its start or after a comma. *)
Lemma list_loop_render l f k last digit o max :
  (l = [] -> last = NONE) -> last = NONE \/ last = COMMA ->
  Forall (item_ok max) l -> max < INT_MAX -> at_end k ->
  (length (render l ++ k) < f)%nat ->
  list_loop f (render l ++ k) last digit o max = Ok (Some (next k), o ++ flat_map denote l).
Proof.
  revert f last digit o. induction l as [|i l IH]; intros f last digit o Hn Hl Hi Hm Hk Hf.
  - rewrite Hn by done. destruct f as [|f]; [lia|]. cbn [render map join app flat_map].
    rewrite step_end by tauto. by rewrite app_nil_r.
  - inversion Hi as [|? ? Hi1 Hi2]; subst. cbn [flat_map]. destruct l as [|j l].
    + change (render [i]) with (render_item i) in *. cbn [flat_map]. rewrite app_nil_r.
      destruct (step_item f i k last digit o max) as (f' & last' & d' & o' & Hf' & -> & Hl' & <-);
        auto using at_end_not_digit.
      destruct f' as [|f']; [lia|]. rewrite step_end by tauto. done.
    + change (render (i :: j :: l)) with (render_item i ++ ","%char :: render (j :: l)) in *.
      rewrite <- app_assoc in *. cbn [app] in *.
      destruct (step_item f i (","%char :: render (j :: l) ++ k) last digit o max)
        as (f' & last' & d' & o' & Hf' & -> & Hl' & Eo); auto.
      destruct f' as [|f']; [lia|]. rewrite step_comma by tauto. rewrite Eo.
      cbn [length] in Hf'. rewrite IH by (done || auto || lia). by rewrite <- app_assoc.
Qed.

Lemma internal_render l k max : Forall (item_ok max) l -> max < INT_MAX -> at_end k ->
  explode_list_internal (render l ++ k) max =
  Ok (Some (next k), unique (sort (flat_map denote l))).
Proof.
  intros Hl Hm Hk. unfold explode_list_internal.
  by rewrite list_loop_render by (auto || lia).
Qed.

Lemma lists_loop_render ls f output max :
  Forall (Forall (item_ok max)) ls -> ls <> [] -> max < INT_MAX -> (length ls < f)%nat ->
  lists_loop f (At (join ";"%char (map render ls))) max output =
  Ok (0, output ++ map (fun l => unique (sort (flat_map denote l))) ls).
Proof.
  revert f output. induction ls as [|l ls IH]; intros f output Hl Hn Hm Hf; [done|].
  inversion Hl as [|? ? Hl1 Hl2]; subst. destruct f as [|f]; [lia|].
  cbn [length] in Hf. destruct ls as [|l' ls].
  - change (join ";"%char (map render [l])) with (render l). cbn [lists_loop map].
    rewrite <- (app_nil_r (render l)).
    rewrite internal_render by (done || by right). cbn [rbind next].
    destruct f as [|f]; [cbn [length] in Hf; lia|]. done.
  - change (join ";"%char (map render (l :: l' :: ls)))
      with (render l ++ ";"%char :: join ";"%char (map render (l' :: ls))). cbn [lists_loop].
    rewrite internal_render by (done || by left). cbn [rbind next].
    rewrite IH by (done || lia). cbn [map]. by rewrite <- app_assoc.
Qed.

Lemma join_length sep fs : (length fs <= length (join sep fs) + 1)%nat.
Proof.
  induction fs as [|f fs IH]; [cbn; lia|]. cbn [join length].
  destruct fs; [cbn; lia|]. rewrite length_app. cbn [length] in *. lia.
Qed.

(** ** Properties *)

(** [explode] returns the fields of the text between delimiters, all of
    them or the non-empty ones, into a sequence or a set; no field holds a
    delimiter, and the fields joined by a single delimiter are the text. *)
Theorem explode_is_fields m delim :
  explode m delim true = Ok (fields (c_str delim) m) /\
  explode m delim false = Ok (non_empty (fields (c_str delim) m)) /\
  explode_set m delim = Ok (list_to_set (non_empty (fields (c_str delim) m))) /\
  Forall (free (c_str delim)) (fields (c_str delim) m) /\
  (forall c, c_str delim = [c] -> join c (fields (c_str delim) m) = m).
Proof.
  unfold explode, explode_set.
  rewrite !explode_loop_spec, explode_set_loop_spec by lia. rewrite drop_0.
  split; [done|]. split; [done|]. split; [by rewrite union_empty_l_L|].
  split; [apply fields_are_free|]. intros c ->. apply join_fields.
Qed.

(** [explode_list] always returns; a list it accepts comes out strictly
    increasing (so sorted and without duplicates), and every number is
    between 0 and [max]; the range loop can overflow only when [max] is
    INT_MAX. *)
Theorem explode_list_sorted_bounded input max : max <= INT_MAX ->
  (exists o, explode_list input max = Ok (-1, o)) \/
  (exists o, explode_list input max = Ok (0, o) /\
     StronglySorted Z.lt o /\ Forall (fun x => 0 <= x <= max) o) \/
  (explode_list input max = Err undefined_behaviour /\ max = INT_MAX).
Proof.
  intros Hm. unfold explode_list. destruct (Z.ltb_spec max 0); [by left; eexists|].
  unfold explode_list_internal.
  pose proof (list_loop_post (S (length input)) input NONE (-1) [] max
    ltac:(lia) Hm ltac:(by intros [|]) ltac:(constructor)) as HP.
  destruct (list_loop _ _ _ _ _ _) as [[[p|] o]|e]; cbn [rbind loop_post] in *.
  - right; left. destruct HP as [Ho _]. eexists. split; [done|].
    destruct (sort_unique o) as [HS HE]. split; [done|].
    apply Forall_forall. intros x Hx. apply HE in Hx. rewrite Forall_forall in Ho. by apply Ho.
  - left. by eexists.
  - right; right. by destruct HP as [-> ->].
Qed.

(** [explode_lists] reads back every semicolon-separated sequence of lists
    of numbers and ranges: each comes out as the increasing list of the
    numbers it denotes. *)
Theorem explode_lists_render ls max :
  ls <> [] -> Forall (Forall (item_ok max)) ls -> 0 <= max < INT_MAX ->
  exists os, explode_lists (join ";"%char (map render ls)) max = Ok (0, os) /\
    Forall2 (fun l o => StronglySorted Z.lt o /\ forall x, x ∈ o <-> x ∈ flat_map denote l) ls os.
Proof.
  intros Hn Hl Hm. exists (map (fun l => unique (sort (flat_map denote l))) ls).
  unfold explode_lists. rewrite (proj2 (Z.ltb_ge _ _)) by lia.
  pose proof (join_length ";"%char (map render ls)) as HL. rewrite length_map in HL.
  rewrite lists_loop_render by (done || lia). split; [done|].
  clear. induction ls; constructor; [apply sort_unique|done].
Qed.

Lemma explode_list_sorted_bounded_witness :
  explode_list (B "5,1-3,2") 9 = Ok (0, [1; 2; 3; 5]) /\
  ((exists o, explode_list (B "5,1-3,2") 9 = Ok (-1, o)) \/
   (exists o, explode_list (B "5,1-3,2") 9 = Ok (0, o) /\
      StronglySorted Z.lt o /\ Forall (fun x => 0 <= x <= 9) o) \/
   (explode_list (B "5,1-3,2") 9 = Err undefined_behaviour /\ 9 = INT_MAX)).
Proof.
  split; [vm_compute; reflexivity|].
  apply (explode_list_sorted_bounded (B "5,1-3,2") 9). vm_compute. discriminate.
Defined.

Lemma explode_lists_render_witness :
  exists os, explode_lists (B "1-2,7;;3") 9 = Ok (0, os) /\
    Forall2 (fun l o => StronglySorted Z.lt o /\ forall x, x ∈ o <-> x ∈ flat_map denote l)
      [[Span 1 2; One 7]; []; [One 3]] os.
Proof.
  apply (explode_lists_render [[Span 1 2; One 7]; []; [One 3]] 9).
  - discriminate.
  - repeat constructor; discriminate.
  - vm_compute. split; [discriminate|reflexivity].
Defined.
