(* ===== verification/Dispatcher.v ===== *)
(** * From a request to its handler: fastcgi/dispatcher.cpp

    The dispatcher finds the factory for a request's URI, runs the handler and
    answers exceptions with a page of the default handler; a worker of the
    FastCGI mode does so for one request after the other.  The filters of
    fastcgi/common_filters.cpp and the page of fastcgi/default_handlers.cpp
    are lists of actions of Cgi.v. *)

From stdpp Require Import strings.
From S2P Require Import Prelude Digits Libc StdMap Encode Explode Tree ExceptionMonad Cgi CgiRequest.

Record handler : Type := mkHandler { filters : list filter_t; Run : list action }.

Definition server_value (name : bytes) (q : request) : bytes := _value (Get_const name (_SERVER q)).

(** std::string::find of a character. *)
Fixpoint find_char (c : ascii) (s : bytes) : option nat :=
  match s with
  | [] => None
  | a :: s => if bool_decide (a = c) then Some O else match find_char c s with Some i => Some (S i) | None => None end
  end.

(** substr(0, find(c)) *)
Definition before (c : ascii) (s : bytes) : bytes := match find_char c s with Some i => take i s | None => s end.

(** ** common_filters.cpp *)

Definition HttpsFilter (_port : Z) (q : request) : filter_t :=
  if bool_decide (server_value (B "REQUEST_SCHEME") q = B "https") then ([], kResultPass)
  else
    let port := if _port =? 0 then 443 else _port in
    let hostname := before ":" (server_value (B "HTTP_HOST") q) in
    let url := B "https://" ++ hostname ++ (if port =? 443 then [] else B ":" ++ dec port) ++ server_value (B "REQUEST_URI") q in
    ([ARedirect url false], kResultFail).

Definition NoCacheFilter : filter_t :=
  ([ASetHeader (B "Cache-Control") (B "private, no-cache, no-store, must-revalidate, max-age=0");
    ASetHeader (B "Pragma") (B "no-cache")], kResultPass).

(** The sets of methods come from explode. *)
Definition AllowedMethodsFilter (_methods : gset bytes) (q : request) : filter_t :=
  if bool_decide (server_value (B "REQUEST_METHOD") q ∈ _methods) then ([], kResultPass)
  else ([AThrow (HttpException 405)], kResultPass).

Definition DeniedMethodsFilter (_methods : gset bytes) (q : request) : filter_t :=
  if bool_decide (server_value (B "REQUEST_METHOD") q ∈ _methods) then ([AThrow (HttpException 405)], kResultPass)
  else ([], kResultPass).

Definition AllowedContentTypeFilter (_allowed : bytes) (q : request) : filter_t :=
  let alen := zlen _allowed in
  let t := server_value (B "CONTENT_TYPE") q in
  if (zlen t <? alen)
     || ((alen <? zlen t) && negb (bool_decide (nth_error t (Z.to_nat alen) = Some ";"%char)))
     || negb (bool_decide (take (Z.to_nat alen) t = _allowed))
  then ([AThrow (HttpException 400)], kResultPass)
  else ([], kResultPass).

(** ** default_handlers.cpp *)

Section DefaultHandlers.

(** cgi_url_unescape of ClearSilver. *)
Context (cgi_url_unescape : bytes -> bytes).

Definition DecodeUrl (url : bytes) : bytes := c_str (cgi_url_unescape (c_str url)).

Definition line (s : bytes) : bytes := s ++ [nl].

(** The sentence for a status: the switch of RunStandardHandler. *)
Definition standard_text (code : Z) (final admin method : bytes) : bytes :=
  if (code =? 301) || (code =? 302) || (code =? 307) || (code =? 308) then
    line (B "<p>The document has moved <a href=" ++ quote :: final ++ quote :: B ">here</a>.</p>")
  else if code =? 303 then
    line (B "<p>The answer to your request is located <a href=" ++ quote :: final ++ quote :: B ">here</a>.</p>")
  else if code =? 305 then
    line (B "<p>This resource is only accessible through the proxy") ++ line (final ++ B "<br />")
    ++ line (B "You will need to configure your client to use that proxy.</p>")
  else if code =? 400 then
    line (B "<p>Your browser sent a request that this server could not understand.<br />")
  else if (code =? 403) || (code =? 407) then
    line (B "<p>You don't have permission to access " ++ final) ++ line (B "on this server.<br /></p>")
  else if code =? 404 then
    line (B "<p>The requested URL " ++ final ++ B " was not found on this server.</p>")
  else if code =? 405 then
    line (B "<p>The requested method " ++ method ++ B " is not allowed for the URL " ++ final ++ B ".</p>")
  else if code =? 406 then
    line (B "<p>An appropriate representation of the requested resource " ++ final
          ++ B " could not be found on this server.</p>")
  else if code =? 412 then
    line (B "<p>The precondition on the request for the URL " ++ final ++ B " evaluated to false.</p>")
  else if code =? 415 then
    line (B "<p>The supplied request data is not in a format") ++ line (B "acceptable for processing by this resource.</p>")
  else if code =? 416 then
    line (B "<p>None of the range-specifier values in the Range") ++ line (B "request-header field overlap the current extent")
    ++ line (B "of the selected resource.</p>")
  else if code =? 428 then
    line (B "<p>The request is required to be conditional.</p>")
  else if code =? 501 then
    line (B "<p>" ++ method ++ B " to " ++ final ++ B " not supported.<br /></p>")
  else if code =? 502 then
    line (B "<p>The proxy server received an invalid") ++ line (B "response from an upstream server.<br /></p>")
  else if code =? 503 then
    line (B "<p>The server is temporarily unable to service your") ++ line (B "request due to maintenance downtime or capacity")
    ++ line (B "problems. Please try again later.</p>")
  else if code =? 504 then
    line (B "<p>The gateway did not receive a timely response") ++ line (B "from the upstream server or application.</p>")
  else
    line (B "<p>The server encountered an internal error or") ++ line (B "misconfiguration and was unable to complete")
    ++ line (B "your request.</p>") ++ line (B "<p>Please contact the server administrator at ")
    ++ line (B " " ++ admin ++ B " to inform them of the time this error occurred,")
    ++ line (B " and the actions you performed just before this error.</p>")
    ++ line (B "<p>More information about this error may be available") ++ line (B "in the server error log.</p>").

Definition RunStandardHandler (status_code : Z) (q : request) : list action :=
  let '(first, second) :=
    match find status_code kHttpStatusCodes with
    | Some str => (status_code, str)
    | None => (500, B "Internal Server Error")
    end in
  let path := before "?" (server_value (B "REQUEST_URI") q) in
  let final := EscapeHtml (DecodeUrl path) false in
  let admin := EscapeHtml (server_value (B "SERVER_ADMIN") q) false in
  let method := EscapeHtml (server_value (B "REQUEST_METHOD") q) false in
  [ASetStatusCode status_code; ASetBodyBuffered true; ASetContentType (B "text/html") (B "iso-8859-1");
   AStream (line (B "<!DOCTYPE HTML PUBLIC " ++ quote :: B "-//IETF//DTD HTML 2.0//EN" ++ quote :: B ">")
            ++ line (B "<html><head>") ++ line (B "<title>" ++ dec first ++ B " " ++ second ++ B "</title>")
            ++ line (B "</head><body>") ++ line (B "<h1>" ++ second ++ B "</h1>"));
   AStream (standard_text first final admin method);
   AStream (line (B "</body></html>"))].

(** A factory of DefaultApacheHandler objects: the constructor of CGI, without
    the body, and set_status_code. *)
Definition DefaultApacheHandler {R} (construct : R -> result thrown request) (status_code : Z) (r : R) : result thrown handler :=
  let! q := construct r in Ok (mkHandler [] (RunStandardHandler status_code q)).

End DefaultHandlers.

(** ** The dispatcher *)

Section Dispatcher.

(** A request as the web server passes it on. *)
Context {R : Type} (REQUEST_URI : R -> option bytes).

Definition factory : Type := R -> result thrown handler.

Record Dispatcher : Type := mkDispatcher {
  _factories : list (bytes * factory);
  _default_factory : Z -> factory; (** with the status code that is set on what it creates *)
  RequestUriToHandlerPath : bytes -> bytes; (** of the custom dispatcher *)
  _site_root : bytes;
  _single_handler_mode : bool
}.

(** The table of the system's handlers is empty. *)
Definition kSystemFactories : list (bytes * factory) := [].

Definition PassthroughDispatcher (request_uri : bytes) : bytes := before "?" request_uri.

Definition set_site_root (site_root : bytes) (d : Dispatcher) : result exn Dispatcher :=
  if bool_decide (site_root = []) || negb (bool_decide (hd NUL site_root = "/"%char))
     || negb (bool_decide (List.last site_root NUL = "/"%char))
  then Err (invalid_argument "invalid site root specified")
  else Ok (mkDispatcher (_factories d) (_default_factory d) (RequestUriToHandlerPath d) site_root (_single_handler_mode d)).

(** _factories[path] = &factory *)
Definition RegisterFactory (f : factory) (path : bytes) (d : Dispatcher) : Dispatcher :=
  mkDispatcher (match find path (_factories d) with Some _ => assign path f (_factories d) | None => insert path f (_factories d) end)
    (_default_factory d) (RequestUriToHandlerPath d) (_site_root d) (_single_handler_mode d).

Definition GetDefaultHandler (d : Dispatcher) (r : R) : result thrown (option handler) :=
  let! h := _default_factory d 404 r in Ok (Some h).

Definition create (f : factory) (r : R) : result thrown (option handler) := let! h := f r in Ok (Some h).

(** By the path of the URI. *)
Definition GetHandler_uri (d : Dispatcher) (r : R) : result thrown (option handler) :=
  match option_map c_str (REQUEST_URI r) with
  | None => Ok None
  | Some uri =>
      if negb (bool_decide (hd NUL uri = "/"%char)) then Ok None
      else
        let path := before "?" uri in
        let root := _site_root d in
        if negb (bool_decide (take (length root) path = root)) then GetDefaultHandler d r
        else
          match find (drop (length root - 1) path) kSystemFactories with
          | Some f => create f r
          | None =>
              let uri := RequestUriToHandlerPath d (drop (length root - 1) uri) in
              if bool_decide (uri = []) then GetDefaultHandler d r
              else match find uri (_factories d) with
                   | Some f => create f r
                   | None => GetDefaultHandler d r
                   end
          end
  end.

Definition GetHandler (d : Dispatcher) (r : R) : result thrown (option handler) :=
  match _single_handler_mode d, _factories d with
  | true, [(_, f)] => create f r
  | _, _ => GetHandler_uri d r
  end.

Context (neos_strip : bytes -> bytes).

(** ProcessException: the page of the default handler, if no headers were sent;
    what is thrown here is not caught. *)
Definition ProcessException (d : Dispatcher) (r : R) (header_sent : bool) (code : Z) (w : wire) : result thrown bool * wire :=
  if header_sent then (Ok true, w)
  else
    match _default_factory d code r with
    | Err e => (Err e, w)
    | Ok h =>
        let '(x, s) := ProcessRequest neos_strip (filters h) (Run h) (CGI_new w) in
        match x with Ok _ => (Ok true, out s) | Err e => (Err e, out s) end
    end.

(** The clauses behind the try. *)
Definition caught (d : Dispatcher) (r : R) (header_sent : bool) (e : thrown) (w : wire) : result thrown bool * wire :=
  match e with
  | HttpException code => ProcessException d r header_sent code w
  | Exception undefined_behaviour => (Err e, w)
  | _ => (Ok false, w)
  end.

Definition DispatchRequest (d : Dispatcher) (r : R) (w : wire) : result thrown bool * wire :=
  match GetHandler d r with
  | Ok None => (Ok false, w)
  | Err e => caught d r false e w
  | Ok (Some h) =>
      let '(x, s) := ProcessRequest neos_strip (filters h) (Run h) (CGI_new w) in
      match x with
      | Ok _ => (Ok true, out s)
      | Err e => caught d r (_header_sent s) e (out s)
      end
  end.

(** Worker::Run: [accepts] are the next turns of the loop, the flag [_run] and
    what FCGX_Accept_r returns, an error or a request with its connection.
    The result, and what was sent in reply to each request that was
    finished. *)
Fixpoint Worker_loop (d : Dispatcher) (accepts : list (bool * (Z + R * wire))) : result thrown bool * list wire :=
  match accepts with
  | [] => (Ok true, [])
  | (false, _) :: _ => (Ok true, [])
  | (true, inl _) :: _ => (Ok true, [])
  | (true, inr (r, w)) :: accepts =>
      match DispatchRequest d r w with
      | (Ok true, w) => let '(x, l) := Worker_loop d accepts in (x, w :: l)
      | (Ok false, w) => (Ok false, [])
      | (Err e, w) => (Err e, [])
      end
  end.

Definition Worker_Run (d : Dispatcher) (init : bool) (accepts : list (bool * (Z + R * wire))) : result thrown bool * list wire :=
  if init then Worker_loop d accepts else (Ok false, []).

End Dispatcher.
