(* ===== verification/DispatcherFacts.v ===== *)
(** * Theorems about the dispatcher

    Which handler a request gets, what is sent in reply, and when a worker
    ends. *)

From S2P Require Import Prelude Digits Libc StdMap Encode Tree ExceptionMonad Cgi CgiFacts CgiRequest Dispatcher.

#[local] Opaque kHttpStatusCodes.

(** ** Paths *)

Lemma before_nil_or c s : before c s = s \/ exists t, s = before c s ++ c :: t.
Proof.
  unfold before. destruct (find_char c s) as [i|] eqn:E; [right|by left]. revert i E.
  induction s as [|a s IH]; intros i; cbn; [done|]. case_bool_decide as Ha.
  - intros [= <-]. exists s. by subst.
  - destruct (find_char c s) as [k|]; [|done]. intros [= <-]. destruct (IH k eq_refl) as [t E]. exists t. cbn. by f_equal.
Qed.

Lemma before_cons c a s : before c (a :: s) = if bool_decide (a = c) then [] else a :: before c s.
Proof. unfold before. cbn. case_bool_decide; [done|]. by destruct (find_char c s). Qed.

Lemma before_drop c n s : (n <= length (before c s))%nat -> before c (drop n s) = drop n (before c s).
Proof.
  revert s. induction n as [|n IH]; intros s H; [done|]. destruct s as [|a s]; [done|]. rewrite before_cons in H |- *.
  case_bool_decide; cbn in H |- *; [lia|]. apply IH. lia.
Qed.

(** What is behind the site's root, if the path is below it. *)
Definition below (root path : bytes) : option bytes :=
  if bool_decide (take (length root) path = root) then Some (drop (length root) path) else None.

Section Routing.
Context {R : Type} (REQUEST_URI : R -> option bytes).

(** C28: in the single handler mode (the default) the only handler takes every
    request, even one whose URI does not match it or is no path at all.
    Otherwise the dispatcher finds the handler of a URI by what the mapping
    makes of the part below the site's root; every other path gets the default
    handler with 404, and what is not a path at all no handler.  Without a
    mapping of its own that is the path below the root, whatever the query
    behind it. *)
Theorem dispatcher_routes (d : Dispatcher) (r : R) (root : bytes) :
  _site_root d = root ++ ["/"%char] ->
  (forall k f, _single_handler_mode d = true -> _factories d = [(k, f)] -> GetHandler REQUEST_URI d r = create f r) /\
  ((_single_handler_mode d = true -> length (_factories d) <> 1%nat) ->
   GetHandler REQUEST_URI d r =
     match option_map c_str (REQUEST_URI r) with
     | Some ("/"%char :: uri) =>
         match below (_site_root d) (before "?" ("/"%char :: uri)) with
         | Some _ =>
             match RequestUriToHandlerPath d (drop (length root) ("/"%char :: uri)) with
             | [] => GetDefaultHandler d r
             | path => match find path (_factories d) with
                       | Some f => create f r
                       | None => GetDefaultHandler d r
                       end
             end
         | None => GetDefaultHandler d r
         end
     | _ => Ok None
     end) /\
  (RequestUriToHandlerPath d = PassthroughDispatcher -> forall uri rest,
     below (_site_root d) (before "?" uri) = Some rest ->
     RequestUriToHandlerPath d (drop (length root) uri) = "/"%char :: rest).
Proof.
  intros Hroot. split; [|split].
  - intros k f Hs Hf. unfold GetHandler. by rewrite Hs, Hf.
  - intros Hs.
    assert (GetHandler REQUEST_URI d r = GetHandler_uri REQUEST_URI d r) as ->.
    { unfold GetHandler. destruct (_single_handler_mode d); [|done].
      destruct (_factories d) as [|[k f] [|]]; try done. by destruct (Hs eq_refl). }
    unfold GetHandler_uri. destruct (option_map c_str (REQUEST_URI r)) as [[|a uri]|]; [done| |done]. cbn [hd].
    case_bool_decide as Ha; cbn [negb]; [subst a|]; [|destruct a as [[] [] [] [] [] [] [] []]; done].
    unfold below. case_bool_decide as Ht; cbn [negb]; [|done]. cbn [kSystemFactories find].
    assert (length (_site_root d) - 1 = length root)%nat as -> by (rewrite Hroot, length_app; cbn; lia).
    by destruct (RequestUriToHandlerPath d _).
  - intros Hp uri rest. unfold below. case_bool_decide as Ht; [|done]. intros [= <-]. rewrite Hp. unfold PassthroughDispatcher.
    assert (length (_site_root d) <= length (before "?" uri))%nat as Hlen.
    { rewrite <- Ht at 1. rewrite length_take. lia. }
    rewrite Hroot in Ht, Hlen |- *. rewrite length_app in Ht, Hlen |- *. cbn [length] in *.
    rewrite before_drop by lia.
    rewrite <- (take_drop (length root + 1) (before "?" uri)) at 1. rewrite Ht, <- app_assoc.
    by rewrite drop_app_length'.
Qed.

End Routing.

(** ** Replies *)

Section Replies.
Context {R : Type} (REQUEST_URI : R -> option bytes) (neos_strip : bytes -> bytes).
Hypothesis neos_strip_id : forall s, isspace (hd NUL s) = false -> isspace (List.last s NUL) = false -> neos_strip s = s.

(** One block of headers, and all that the handler's actions print, up to End. *)
Definition whole_response (h : handler) (base : bytes) (w : wire) : Prop :=
  exists hs st l1 l2, script (filters h) true (Run h) = l1 ++ l2 /\
    (l2 = [] \/ exists a l3, l2 = a :: l3 /\ (a = AEnd \/ a = AThrow EndException)) /\
    valid_status st /\ sent w = base ++ head hs st ++ texts l1 /\ true_length (texts l1) (unbuffers_any l1) hs.

(** One block of headers, and a beginning of what the handler's actions print. *)
Definition cut_response (h : handler) (base : bytes) (w : wire) : Prop :=
  exists hs st body, valid_status st /\ body `prefix_of` texts (script (filters h) true (Run h)) /\
    sent w = base ++ head hs st ++ body.

Lemma texts_app l1 l2 : texts (l1 ++ l2) = texts l1 ++ texts l2.
Proof. unfold texts. by rewrite map_app, concat_app. Qed.

Lemma texts_prefix body l1 l2 : body `prefix_of` texts l1 -> body `prefix_of` texts (l1 ++ l2).
Proof. intros [k E]. rewrite texts_app, E, <- app_assoc. by exists (k ++ texts l2). Qed.

Lemma ProcessRequest_response h base :
  let '(x, s) := ProcessRequest neos_strip (filters h) (Run h) (CGI_new (mkWire base [])) in
  writes (out s) = [] /\
  match x with
  | Ok _ => whole_response h base (out s)
  | Err e => e <> EndException /\ if _header_sent s then cut_response h base (out s) else sent (out s) = base
  end.
Proof.
  pose proof (ProcessRequest_spec neos_strip (filters h) (Run h) base neos_strip_id) as H.
  destruct (ProcessRequest _ _ _ _) as [x s]. destruct H as (Hw & l1 & l2 & E & H). split; [done|].
  destruct x as [b|e].
  - destruct H as (_ & Hl & hs & st & Hv & Es & Ht). by exists hs, st, l1, l2.
  - destruct H as (He & H). split; [done|]. destruct (_header_sent s); [|done].
    destruct H as (hs & st & fl & Hv & Hp & Es). exists hs, st, fl. rewrite E. split_and!; [done| |done].
    by apply texts_prefix.
Qed.

(** The handler of the request throws the HttpException [code], [late] telling
    whether its headers were sent by then. *)
Definition throws (d : Dispatcher) (r : R) (base : bytes) (h : handler) (code : Z) (late : bool) : Prop :=
  GetHandler REQUEST_URI d r = Ok (Some h) /\ exists s,
    ProcessRequest neos_strip (filters h) (Run h) (CGI_new (mkWire base [])) = (Err (HttpException code), s) /\
    _header_sent s = late.

(** The one that answers: the handler of the request, or that of an error that
    the request's threw before its headers, or that there was in finding it. *)
Definition answers (d : Dispatcher) (r : R) (base : bytes) (h : handler) : Prop :=
  GetHandler REQUEST_URI d r = Ok (Some h) \/
  exists code, _default_factory d code r = Ok h /\
    (GetHandler REQUEST_URI d r = Err (HttpException code) \/ exists h0, throws d r base h0 code false).

Lemma ProcessException_response d r code base :
  (GetHandler REQUEST_URI d r = Err (HttpException code) \/ exists h0, throws d r base h0 code false) ->
  let '(x, w) := ProcessException neos_strip d r false code (mkWire base []) in
  writes w = [] /\
  match x with
  | Ok b => b = true /\ exists h, answers d r base h /\ whole_response h base w
  | Err _ => sent w = base \/ exists h, answers d r base h /\ cut_response h base w
  end.
Proof.
  intros Hthrow. unfold ProcessException. destruct (_default_factory d code r) as [h|e] eqn:Ef; [|split; [done|by left]].
  assert (answers d r base h) as Hh by (right; by exists code).
  pose proof (ProcessRequest_response h base) as H. destruct (ProcessRequest _ _ _ _) as [x s]. destruct H as (Hw & H).
  destruct x; (split; [done|]); [split; [done|by exists h]|]. destruct H as [_ H]. destruct (_header_sent s); [right; by exists h|by left].
Qed.

(** What DispatchRequest leaves. *)
Definition replied (d : Dispatcher) (r : R) (base : bytes) (x : result thrown bool) (w : wire) : Prop :=
  writes w = [] /\
  match x with
  | Ok true => exists h, answers d r base h /\
      (whole_response h base w \/ (exists code, throws d r base h code true) /\ cut_response h base w)
  | _ => sent w = base \/ exists h, answers d r base h /\ cut_response h base w
  end.

Lemma caught_replied d r base e :
  (GetHandler REQUEST_URI d r = Err e \/ exists h s, GetHandler REQUEST_URI d r = Ok (Some h) /\
     ProcessRequest neos_strip (filters h) (Run h) (CGI_new (mkWire base [])) = (Err e, s) /\ _header_sent s = false) ->
  let '(x, w) := caught neos_strip d r false e (mkWire base []) in replied d r base x w.
Proof.
  intros He. unfold replied. destruct e as [code| |e]; cbn [caught]; [|split; [done|by left]|destruct e; (split; [done|by left])].
  pose proof (ProcessException_response d r code base) as H. destruct (ProcessException _ _ _ _ _ _) as [x w].
  destruct H as [Hw H].
  { destruct He as [?|(h & s & H1 & H2 & H3)]; [by left|right]. exists h. split; [done|]. by exists s. }
  split; [done|]. destruct x as [b|]; [|done]. destruct H as (-> & h & Ha & Hr). exists h. auto.
Qed.

(** C27: one reply to a request, as long as the web server takes all that is
    written to it.  If DispatchRequest returns true, one block of
    headers with a known status was sent and the whole body of one handler, all
    that its actions print up to its end or End, Content-Length being its
    length: the request's handler, or, if that one threw an HttpException before
    any header was sent or could not be found, the one for the error.  The only
    exception is a handler that throws an HttpException behind its headers: true
    is returned, and the body is a beginning of what it would print.  If it
    returns false or throws, nothing was sent, or one block of headers and a
    beginning of the body of one of them. *)
Theorem dispatcher_one_response (d : Dispatcher) (r : R) (base : bytes) :
  let '(x, w) := DispatchRequest REQUEST_URI neos_strip d r (mkWire base []) in replied d r base x w.
Proof.
  unfold DispatchRequest. destruct (GetHandler REQUEST_URI d r) as [[h|]|e] eqn:Eh.
  - pose proof (ProcessRequest_response h base) as H. destruct (ProcessRequest _ _ _ _) as [x s] eqn:EP. destruct H as (Hw & H).
    assert (answers d r base h) as Hh by by left.
    destruct x as [b|e]; [split; [done|by exists h; auto]|]. destruct H as [He H]. destruct (_header_sent s) eqn:Hs.
    + destruct e as [code| |e]; cbn [caught ProcessException]; [|done|].
      * split; [done|]. exists h. split; [done|]. right. split; [|done]. exists code. split; [done|]. by exists s.
      * destruct e; (split; [done|right; by exists h]).
    + pose proof (caught_replied d r base e ltac:(right; by exists h, s)) as Hc.
      assert (out s = mkWire base []) as -> by (destruct (out s); cbn in *; by subst). exact Hc.
  - split; [done|by left].
  - apply caught_replied. by left.
Qed.

(** ** The page for an exception *)

Definition with_status (n : Z) (s : CGI) : CGI :=
  mkCGI (_headers s) (_buffered_body s) (_request_handled s) (_header_sent s) (_body_sent s) (_buffered s) n (badbit s) (out s).

Lemma stream_buffered b s : _buffered s = true -> badbit s = false ->
  stream b s = (Ok tt, with_buffered_body (_buffered_body s ++ b) s).
Proof.
  intros H1 H2. unfold stream, bind, gets, catch, OutputBody. rewrite H2. destruct b as [|c b].
  - rewrite app_nil_r, bool_decide_eq_true_2 by done. by destruct s.
  - rewrite bool_decide_eq_false_2 by done. unfold bind, gets. by rewrite H1.
Qed.

(** FlushBody of a buffered body at the end, nothing being sent. *)
Lemma FlushBody_at_end s : writes (out s) = [] -> valid_status (_status s) -> _header_sent s = false ->
  _request_handled s = true -> _buffered_body s <> [] ->
  exists s' h, FlushBody s = (Ok tt, s') /\ writes (out s') = [] /\
    sent (out s') = sent (out s) ++ head h (_status s) ++ _buffered_body s /\
    find content_length h = Some (dec (zlen (_buffered_body s))).
Proof.
  intros Hw Hst Hs Hh Hb. unfold FlushBody, bind at 1, gets at 1. rewrite bool_decide_eq_false_2 by done.
  unfold bind at 1, gets at 1. rewrite Hh. unfold bind at 1, gets at 1. rewrite Hs.
  destruct (SetHeaderInternal_ok content_length (dec (zlen (_buffered_body s))) false s Hs) as (h & E & _ & Hf).
  specialize (Hf (dec_not_nil _ (zlen_nonneg _)) (or_introl eq_refl)).
  unfold bind at 1. rewrite E. unfold bind at 1, set_buffered_body, modify.
  match goal with |- context [(OutputHeaders ;;; _) ?s0] => remember s0 as s1 eqn:E1 end.
  unfold bind at 1. rewrite OutputHeaders_ok by (subst s1; done).
  replace (_header_sent s1) with false by (by subst s1). unfold bind, set_body_sent, modify. rewrite RealOutput_ok by done.
  eexists _, h. split; [reflexivity|]. subst s1. cbn. split; [done|]. split; [by rewrite app_assoc|done].
Qed.

(** What the page says, for a status of the table. *)
Definition page (url_unescape : bytes -> bytes) (code : Z) (q : request) : bytes :=
  texts (RunStandardHandler url_unescape code q).

Lemma page_not_nil url_unescape code q : page url_unescape code q <> [].
Proof. unfold page, texts, RunStandardHandler. by destruct (find code kHttpStatusCodes). Qed.

(** A page in three pieces. *)
Lemma page_sent code a b c base : valid_status code -> a ++ b ++ c <> [] ->
  exists s hs, ProcessRequest neos_strip []
      [ASetStatusCode code; ASetBodyBuffered true; ASetContentType (B "text/html") (B "iso-8859-1");
       AStream a; AStream b; AStream c] (CGI_new (mkWire base [])) = (Ok true, s) /\
    writes (out s) = [] /\ sent (out s) = base ++ head hs code ++ a ++ b ++ c /\
    find content_length hs = Some (dec (zlen (a ++ b ++ c))).
Proof.
  intros Hv Hn. set (s0 := CGI_new (mkWire base [])).
  destruct (find code kHttpStatusCodes) as [str|] eqn:Ef; [|done].
  destruct (SetHeaderInternal_ok (B "Content-Type") (B "text/html" ++ B "; charset=" ++ B "iso-8859-1") false (with_status code s0) eq_refl)
    as (h & E & _ & _).
  set (s1 := with_headers h (with_status code s0)) in *.
  set (s2 := with_buffered_body (a ++ b ++ c) s1).
  assert (exec_all neos_strip [ASetStatusCode code; ASetBodyBuffered true; ASetContentType (B "text/html") (B "iso-8859-1");
    AStream a; AStream b; AStream c] s0 = (Ok tt, s2)) as Ee.
  { cbn [exec_all exec]. unfold bind at 1, SetStatusCode. rewrite Ef. unfold set_status, modify. fold (with_status code s0).
    unfold bind at 1, SetBodyBuffered, bind at 1, set_buffered, modify, ret at 1.
    unfold bind at 1, SetContentType. rewrite bool_decide_eq_false_2 by done.
    change (mkCGI _ _ _ _ _ true _ _ _) with (with_status code s0). rewrite E. fold s1.
    unfold bind at 1. rewrite stream_buffered by done. unfold bind at 1. rewrite stream_buffered by done.
    unfold bind at 1. rewrite stream_buffered by done. unfold ret. unfold s2. cbn. by rewrite <- !app_assoc. }
  unfold ProcessRequest, bind at 1, catch at 1. cbn [run_filters]. unfold bind at 1, ret at 1. rewrite Ee.
  unfold bind at 1, set_request_handled, modify. fold (with_handled s2).
  destruct (FlushBody_at_end (with_handled s2)) as (s' & hs & Es & Hw & Hsent & Hf); [done..|].
  exists s', hs. unfold bind. rewrite Es. done.
Qed.

Lemma standard_handler_known url_unescape code q base : valid_status code ->
  exists s hs, ProcessRequest neos_strip [] (RunStandardHandler url_unescape code q) (CGI_new (mkWire base [])) = (Ok true, s) /\
    writes (out s) = [] /\ sent (out s) = base ++ head hs code ++ page url_unescape code q /\
    find content_length hs = Some (dec (zlen (page url_unescape code q))).
Proof.
  intros Hv. pose proof (page_not_nil url_unescape code q) as Hn. unfold page, RunStandardHandler in *.
  destruct (find code kHttpStatusCodes) as [str|] eqn:Ef; [|done].
  unfold texts in *. cbn [map text concat] in *. rewrite !app_nil_l, app_nil_r in *. by apply page_sent.
Qed.

Lemma standard_handler_unknown url_unescape code q w : find code kHttpStatusCodes = None ->
  ProcessRequest neos_strip [] (RunStandardHandler url_unescape code q) (CGI_new w) =
  (Err (Exception (out_of_range "HTTP status code out of range")), CGI_new w).
Proof.
  intros Hf. unfold RunStandardHandler. rewrite Hf. unfold ProcessRequest, bind at 1, catch at 1. cbn [run_filters].
  unfold bind at 1, ret at 1. cbn [exec_all exec]. unfold bind at 1, SetStatusCode. rewrite Hf. done.
Qed.


(** C29: a handler that throws an HttpException before any header was sent is
    answered for by the default handler: the whole page of that status, with
    its length.  For a status that the table does not have the default handler
    throws in its turn, which DispatchRequest does not catch: nothing is
    sent. *)
Theorem dispatcher_exception_page (url_unescape : bytes -> bytes) (construct : R -> result thrown request)
    (d : Dispatcher) (r : R) (q : request) (h : handler) (s : CGI) (code : Z) (base : bytes) :
  _default_factory d = DefaultApacheHandler url_unescape construct -> construct r = Ok q ->
  GetHandler REQUEST_URI d r = Ok (Some h) ->
  ProcessRequest neos_strip (filters h) (Run h) (CGI_new (mkWire base [])) = (Err (HttpException code), s) ->
  _header_sent s = false ->
  match find code kHttpStatusCodes with
  | Some _ =>
      exists w hs, DispatchRequest REQUEST_URI neos_strip d r (mkWire base []) = (Ok true, w) /\
        sent w = base ++ head hs code ++ page url_unescape code q /\
        find content_length hs = Some (dec (zlen (page url_unescape code q)))
  | None =>
      DispatchRequest REQUEST_URI neos_strip d r (mkWire base []) =
        (Err (Exception (out_of_range "HTTP status code out of range")), mkWire base [])
  end.
Proof.
  intros Hd Hq Hh HP Hs. pose proof (ProcessRequest_response h base) as H. rewrite HP, Hs in H. destruct H as (Hw & _ & Hsent).
  assert (out s = mkWire base []) as Hout by (destruct (out s); cbn in *; by subst).
  unfold DispatchRequest. rewrite Hh, HP, Hs, Hout. unfold caught, ProcessException. rewrite Hd. unfold DefaultApacheHandler at 1 2.
  rewrite Hq. cbn [rbind filters Run]. destruct (find code kHttpStatusCodes) as [str|] eqn:Ef.
  - destruct (standard_handler_known url_unescape code q base) as (s' & hs & -> & _ & Es & Hf); [by unfold valid_status; rewrite Ef|].
    by exists (out s'), hs.
  - by rewrite standard_handler_unknown.
Qed.

(** ** Workers *)

Definition request_turns (l : list (R * wire)) : list (bool * (Z + R * wire)) := map (fun e => (true, inr e)) l.

(** A worker serves the requests that it accepts, in order, as long as
    DispatchRequest returns true; the first one for which it does not, one
    without a usable URI or whose handler throws anything but an
    HttpException, ends the worker, and no request behind it is accepted. *)
Theorem fastcgi_worker_ends (d : Dispatcher) (pre : list (R * wire)) (r : R) (w : wire) (post : list (bool * (Z + R * wire))) :
  Forall (fun e => (DispatchRequest REQUEST_URI neos_strip d e.1 e.2).1 = Ok true) pre ->
  (DispatchRequest REQUEST_URI neos_strip d r w).1 <> Ok true ->
  Worker_Run REQUEST_URI neos_strip d true (request_turns pre) =
    (Ok true, map (fun e => (DispatchRequest REQUEST_URI neos_strip d e.1 e.2).2) pre) /\
  Worker_Run REQUEST_URI neos_strip d true (request_turns pre ++ (true, inr (r, w)) :: post) =
    ((DispatchRequest REQUEST_URI neos_strip d r w).1,
     map (fun e => (DispatchRequest REQUEST_URI neos_strip d e.1 e.2).2) pre).
Proof.
  intros Hpre Hr. unfold Worker_Run. induction Hpre as [|[r0 w0] pre H0 Hpre IH]; cbn [request_turns map app Worker_loop fst snd].
  - split; [done|]. destruct (DispatchRequest _ _ _ r w) as [[[]|e] w']; done.
  - destruct IH as [IH1 IH2]. cbn [fst snd] in H0. destruct (DispatchRequest _ _ _ r0 w0) as [x w']. cbn in H0. subst x.
    unfold request_turns in IH1, IH2. by rewrite IH1, IH2.
Qed.

End Replies.

(** ** Concrete requests *)

(** A request: its URI; two handlers, one of which throws what the query names. *)
Definition demo_request (uri : option bytes) : request :=
  mkRequest Tree_new Tree_new Tree_new
    (match uri with Some u => Set_path (B "REQUEST_URI") u Tree_new | None => Tree_new end) Tree_new [] [].

Definition demo_dispatcher : Dispatcher (R := option bytes) :=
  RegisterFactory (fun _ => Ok (mkHandler [] [AStream (B "hi")])) (B "/hello")
    (RegisterFactory (fun _ => Ok (mkHandler [] [AStream (B "lost"); AThrow (HttpException 418)])) (B "/tea")
      (RegisterFactory (fun _ => Ok (mkHandler [] [AThrow (Exception (runtime_error "x"))])) (B "/bad")
        (mkDispatcher [] (DefaultApacheHandler (fun s => s) (fun uri => Ok (demo_request uri)))
          PassthroughDispatcher (B "/app/") true))).

(** The only handler takes what is not below the root. *)
Definition demo_single : Dispatcher (R := option bytes) :=
  RegisterFactory (fun _ => Ok (mkHandler [] [AStream (B "hi")])) (B "/hello")
    (mkDispatcher [] (DefaultApacheHandler (fun s => s) (fun uri => Ok (demo_request uri)))
      PassthroughDispatcher (B "/app/") true).

Lemma dispatcher_routes_witness :
  GetHandler (fun u => u) demo_dispatcher (Some (B "/app/hello?x=/tea")) = Ok (Some (mkHandler [] [AStream (B "hi")])) /\
  GetHandler (fun u => u) demo_single (Some (B "/elsewhere")) = Ok (Some (mkHandler [] [AStream (B "hi")])).
Proof.
  split.
  - destruct (dispatcher_routes (fun u => u) demo_dispatcher (Some (B "/app/hello?x=/tea")) (B "/app")) as (_ & H & _).
    + reflexivity.
    + rewrite H; [reflexivity|]. intros _. vm_compute. congruence.
  - destruct (dispatcher_routes (fun u => u) demo_single (Some (B "/elsewhere")) (B "/app")) as (H & _).
    + reflexivity.
    + exact (H (B "/hello") (fun _ => Ok (mkHandler [] [AStream (B "hi")])) eq_refl eq_refl).
Defined.

Lemma dispatcher_one_response_witness :
  let '(x, w) := DispatchRequest (fun u => u) (fun s => s) demo_dispatcher (Some (B "/app/hello")) (mkWire [] []) in
  x = Ok true /\ replied (fun u => u) (fun s => s) demo_dispatcher (Some (B "/app/hello")) [] x w.
Proof.
  pose proof (dispatcher_one_response (fun u => u) (fun s => s) ltac:(reflexivity) demo_dispatcher (Some (B "/app/hello")) []) as H.
  destruct (DispatchRequest _ _ _ _ _) as [x w] eqn:E. split; [|exact H].
  vm_compute in E. by injection E as <- _.
Defined.

Lemma dispatcher_exception_page_witness :
  DispatchRequest (fun u => u) (fun s => s) demo_dispatcher (Some (B "/app/tea")) (mkWire [] []) =
    (Err (Exception (out_of_range "HTTP status code out of range")), mkWire [] []).
Proof.
  refine (dispatcher_exception_page (fun u => u) (fun s => s) ltac:(reflexivity) (fun s => s) (fun uri => Ok (demo_request uri))
    demo_dispatcher (Some (B "/app/tea")) _ (mkHandler [] [AStream (B "lost"); AThrow (HttpException 418)]) _ 418 [] _ _ _ _ _).
  - reflexivity.
  - reflexivity.
  - vm_compute. reflexivity.
  - vm_compute. reflexivity.
  - vm_compute. reflexivity.
Defined.

Lemma fastcgi_worker_ends_witness :
  Worker_Run (fun u => u) (fun s => s) demo_dispatcher true
    [(true, inr (Some (B "/app/hello"), mkWire [] [])); (true, inr (Some (B "/app/bad"), mkWire [] []));
     (true, inr (Some (B "/app/hello"), mkWire [] []))] =
  (Ok false, [mkWire (B "Status: 200 OK" ++ nl :: B "Content-Length: 2" ++ nl :: nl :: B "hi") []]).
Proof.
  refine (proj2 (fastcgi_worker_ends (fun u => u) (fun s => s) demo_dispatcher [(Some (B "/app/hello"), mkWire [] [])]
    (Some (B "/app/bad")) (mkWire [] []) [(true, inr (Some (B "/app/hello"), mkWire [] []))] _ _)).
  - constructor; [vm_compute; reflexivity|constructor].
  - vm_compute. discriminate.
Defined.

Example no_uri_ends_worker :
  Worker_Run (fun u => u) (fun s => s) demo_dispatcher true [(true, inr (Some (B "*"), mkWire [] []))] = (Ok false, []).
Proof. vm_compute. reflexivity. Qed.
