(* ===== verification/ZooKeeper.v ===== *)
(** * A session with ZooKeeper: zookeeper/zookeeper.cpp

    Requests with a callback or a watcher are [Pending]s: objects of the heap
    whose addresses the client library keeps and hands back.  The library calls
    back in one thread of its own, the worker; users call from any thread, also
    from inside a callback.  Each critical section is one step, and so is what
    the worker does before and after it calls a user, and each end of a
    zookeeper_close, which waits for the worker unless it runs inside of it.

    [world] adds what the library keeps: the requests that it has not answered
    yet and the watches that are set. *)

From Stdlib Require Import ZifyBool.
From S2P Require Import Prelude Libc ExceptionMonad.

Definition ZOK : Z := 0.
Definition ZBADARGUMENTS : Z := -8.
Definition ZINVALIDSTATE : Z := -9.
Definition ZNONODE : Z := -101.
Definition ZSESSIONEXPIRED : Z := -112.
Definition ZAUTHFAILED : Z := -115.

Definition ZOO_EXPIRED_SESSION_STATE : Z := -112.
Definition ZOO_AUTH_FAILED_STATE : Z := -113.
Definition ZOO_CONNECTING_STATE : Z := 1.
Definition ZOO_ASSOCIATING_STATE : Z := 2.
Definition ZOO_CONNECTED_STATE : Z := 3.

Definition ZOO_CREATED_EVENT : Z := 1.
Definition ZOO_CHANGED_EVENT : Z := 3.
Definition ZOO_CHILD_EVENT : Z := 4.
Definition ZOO_SESSION_EVENT : Z := -1.

Inductive Operation : Type :=
| OP_SESSION | OP_CREATE | OP_DELETE | OP_EXISTS | OP_SYNC | OP_GET | OP_SET | OP_GETA | OP_SETA | OP_GETC.

#[export] Instance Operation_eq_dec : EqDecision Operation.
Proof. solve_decision. Defined.

(** Watchers and callbacks are numbers. *)
Record Pending : Type := mkPending {
  op : Operation;
  path : bytes;
  zkw : option Z;
  zkc : option Z;
  zkw_detached : bool
}.

Definition clear_callback (p : Pending) : Pending := mkPending (op p) (path p) (zkw p) None (zkw_detached p).
Definition clear_watcher (p : Pending) : Pending := mkPending (op p) (path p) None (zkc p) false.
Definition detach_watcher (p : Pending) : Pending := mkPending (op p) (path p) None (zkc p) true.

Record ZooKeeper : Type := mkZooKeeper {
  _pending : gset nat;
  _resuming : bool;
  _client_id : Z;
  _hosts : bytes;
  _handle : bool;
  _connecting : bool;
  _timeout : Z
}.

Definition ZooKeeper_new : ZooKeeper := mkZooKeeper ∅ false 0 [] false false (-1).

(** The calls of the users' objects. *)
Inductive call : Type :=
| OnErase (zkc rc : Z) (path : bytes)
| OnSetAcl (zkc rc : Z) (path : bytes)
| OnExists (zkc rc : Z) (path : bytes)
| OnSet (zkc rc : Z) (path : bytes)
| OnGet (zkc rc : Z) (path : bytes)
| OnGetChildren (zkc rc : Z) (path : bytes)
| OnCreate (zkc rc : Z) (path : bytes)
| OnSync (zkc rc : Z) (path : bytes)
| OnGetAcl (zkc rc : Z) (path : bytes)
| OnEvent (zkw type state : Z) (path : bytes).

(** What the worker does: inside a callback of a pending ([void]: by
    GlobalVoidCompletion), inside an event of a watcher ([session]: of the
    session), on its way through ResumeSession, closing the handle. *)
Inductive worker : Type :=
| Idle
| InCallback (p : nat) (void : bool)
| InWatcher (p : nat) (session : bool)
| InResume (todo all : list nat)
| InClose.

(** Who closes the handle: Reconnect or Shutdown in OnSession; Shutdown of
    another thread; Shutdown of a user who is called back. *)
Inductive closer : Type := ByReconnect | BySession | ByUser | ByCallback.

#[export] Instance closer_eq_dec : EqDecision closer.
Proof. solve_decision. Defined.

Record world : Type := mkWorld {
  zk : ZooKeeper;
  heap : gmap nat Pending;
  next : nat;
  requests : gset nat;
  watches : gset nat;
  busy : worker;
  closing : option closer;
  calls : list call
}.

Definition start : world := mkWorld ZooKeeper_new ∅ 0 ∅ ∅ Idle None [].

Abbreviation M := (XT world exn).

Definition get {A} (f : ZooKeeper -> A) : M A := gets (fun w => f (zk w)).
Definition put (f : ZooKeeper -> ZooKeeper) : M unit :=
  modify (fun w => mkWorld (f (zk w)) (heap w) (next w) (requests w) (watches w) (busy w) (closing w) (calls w)).
Definition set_heap (h : gmap nat Pending) : M unit :=
  modify (fun w => mkWorld (zk w) h (next w) (requests w) (watches w) (busy w) (closing w) (calls w)).
Definition set_library (r a : gset nat) : M unit :=
  modify (fun w => mkWorld (zk w) (heap w) (next w) r a (busy w) (closing w) (calls w)).
Definition set_busy (b : worker) : M unit :=
  modify (fun w => mkWorld (zk w) (heap w) (next w) (requests w) (watches w) b (closing w) (calls w)).
Definition set_closing (c : option closer) : M unit :=
  modify (fun w => mkWorld (zk w) (heap w) (next w) (requests w) (watches w) (busy w) c (calls w)).
Definition calls_ (c : call) : M unit :=
  modify (fun w => mkWorld (zk w) (heap w) (next w) (requests w) (watches w) (busy w) (closing w) (calls w ++ [c])).
Definition assert_ (b : bool) : M unit := if b then ret tt else throw assertion_failed.

Definition set_pending (s : gset nat) : M unit := put (fun z =>
  mkZooKeeper s (_resuming z) (_client_id z) (_hosts z) (_handle z) (_connecting z) (_timeout z)).
Definition set_resuming (b : bool) : M unit := put (fun z =>
  mkZooKeeper (_pending z) b (_client_id z) (_hosts z) (_handle z) (_connecting z) (_timeout z)).
Definition set_client_id (n : Z) : M unit := put (fun z =>
  mkZooKeeper (_pending z) (_resuming z) n (_hosts z) (_handle z) (_connecting z) (_timeout z)).
Definition set_handle (b : bool) : M unit := put (fun z =>
  mkZooKeeper (_pending z) (_resuming z) (_client_id z) (_hosts z) b (_connecting z) (_timeout z)).
Definition set_connecting (b : bool) : M unit := put (fun z =>
  mkZooKeeper (_pending z) (_resuming z) (_client_id z) (_hosts z) (_handle z) b (_timeout z)).
Definition set_session (hosts : bytes) (timeout : Z) : M unit := put (fun z =>
  mkZooKeeper (_pending z) (_resuming z) (_client_id z) hosts (_handle z) (_connecting z) timeout).

(** new, delete and a use of a pending. *)
Definition new_Pending (x : Pending) : M nat := fun w =>
  (Ok (next w), mkWorld (zk w) (<[next w := x]> (heap w)) (S (next w)) (requests w) (watches w) (busy w) (closing w) (calls w)).

Definition deref (p : nat) : M Pending :=
  let* h := gets heap in match h !! p with Some x => ret x | None => throw undefined_behaviour end.

Definition change (p : nat) (f : Pending -> Pending) : M unit :=
  let* x := deref p in let* h := gets heap in set_heap (<[p := f x]> h).

Definition free (p : nat) : M unit := deref p ;;; let* h := gets heap in set_heap (delete p h).

Fixpoint free_all (l : list nat) : M unit :=
  match l with [] => ret tt | p :: l => free p ;;; free_all l end.

Definition is_some {A} (o : option A) : bool := match o with Some _ => true | None => false end.
Definition is_none {A} (o : option A) : bool := negb (is_some o).

Definition ErasePending (p : nat) : M unit :=
  let* x := deref p in
  assert_ (is_none (zkc x) && is_none (zkw x) && negb (zkw_detached x)) ;;;
  let* pending := get _pending in
  if bool_decide (p ∈ pending) then free p ;;; set_pending (pending ∖ {[p]}) else ret tt.

(** ** Requests *)

Definition bad_path (path : option bytes) : bool :=
  match path with None => true | Some s => negb (bool_decide (hd NUL s = "/"%char)) end.

(** The body that AsyncGet, AsyncExists and AsyncGetChildren share; [rc]: what
    the library's function returns. *)
Definition Async (o : Operation) (rc : Z) (path : option bytes) (zkc watcher : option Z) : M Z :=
  if bad_path path || (is_none zkc && is_none watcher) then ret ZBADARGUMENTS
  else
    let* handle := get _handle in
    if negb handle then ret ZINVALIDSTATE
    else
      let* p := new_Pending (mkPending o (c_str (default [] path)) watcher zkc false) in
      if negb (rc =? ZOK) then free p ;;; ret rc
      else
        let* pending := get _pending in
        set_pending ({[p]} ∪ pending) ;;;
        let* r := gets requests in
        let* a := gets watches in
        set_library ({[p]} ∪ r) a ;;;
        ret ZOK.

Definition AsyncGet := Async OP_GET.
Definition AsyncExists := Async OP_EXISTS.
Definition AsyncGetChildren := Async OP_GETC.

(** The part of Exists, Get and GetChildren that sets a watch; [good]: the
    results for which the library keeps it. *)
Definition Watch (o : Operation) (good : Z -> bool) (rc : Z) (path : option bytes) (watcher : option Z) : M Z :=
  if bad_path path then ret ZBADARGUMENTS
  else
    let* handle := get _handle in
    if negb handle then ret ZINVALIDSTATE
    else
      match watcher with
      | None => ret rc
      | Some _ =>
          let* p := new_Pending (mkPending o (c_str (default [] path)) watcher None false) in
          (if good rc then
             let* pending := get _pending in
             set_pending ({[p]} ∪ pending) ;;;
             let* r := gets requests in
             let* a := gets watches in
             set_library r ({[p]} ∪ a)
           else free p) ;;;
          ret rc
      end.

Definition Exists := Watch OP_EXISTS (fun rc => (rc =? ZOK) || (rc =? ZNONODE)).
Definition Get := Watch OP_GET (fun rc => rc =? ZOK).
Definition GetChildren := Watch OP_GETC (fun rc => rc =? ZOK).

(** Of one pending in the loop of Detach. *)
Definition detach (zkw_ zkc_ : option Z) (x : Pending) : Pending :=
  let x := if is_some zkc_ && bool_decide (zkc x = zkc_) then clear_callback x else x in
  if is_some zkw_ && bool_decide (zkw x = zkw_) then detach_watcher x else x.

Definition Detach (zkw_ zkc_ : option Z) : M unit :=
  let* pending := get _pending in
  let* h := gets heap in
  set_heap (map_imap (fun p x => Some (if bool_decide (p ∈ pending) then detach zkw_ zkc_ x else x)) h).

(** ** The worker: answers and events *)

(** The answer to a request that was made to resume a watcher. *)
Definition resumed (o : Operation) (p : nat) (x : Pending) (rc : Z) : M unit :=
  if zkw_detached x then ret tt
  else
    assert_ (is_some (zkw x)) ;;;
    assert_ (bool_decide (op x = o)) ;;;
    if rc =? ZOK then ret tt else ErasePending p.

Definition GlobalStatCompletion (p : nat) (rc : Z) : M unit :=
  let* x := deref p in
  match zkc x with
  | None => resumed OP_EXISTS p x rc
  | Some c =>
      match op x with OP_EXISTS => calls_ (OnExists c rc (path x)) | OP_SET => calls_ (OnSet c rc (path x)) | _ => ret tt end ;;;
      set_busy (InCallback p false)
  end.

Definition GlobalDataCompletion (p : nat) (rc : Z) : M unit :=
  let* x := deref p in
  match zkc x with
  | None => resumed OP_GET p x rc
  | Some c =>
      match op x with OP_GET => calls_ (OnGet c rc (path x)) | _ => ret tt end ;;;
      set_busy (InCallback p false)
  end.

Definition GlobalStringsStatCompletion (p : nat) (rc : Z) : M unit :=
  let* x := deref p in
  match zkc x with
  | None => resumed OP_GETC p x rc
  | Some c =>
      match op x with OP_GETC => calls_ (OnGetChildren c rc (path x)) | _ => ret tt end ;;;
      set_busy (InCallback p false)
  end.

Definition GlobalVoidCompletion (p : nat) (rc : Z) : M unit :=
  let* x := deref p in
  assert_ (is_none (zkw x)) ;;;
  match zkc x with
  | None => ret tt
  | Some c =>
      match op x with OP_DELETE => calls_ (OnErase c rc (path x)) | OP_SETA => calls_ (OnSetAcl c rc (path x)) | _ => ret tt end ;;;
      set_busy (InCallback p true)
  end.

Definition GlobalStringCompletion (p : nat) (rc : Z) : M unit :=
  let* x := deref p in
  assert_ (is_none (zkw x)) ;;;
  match zkc x with
  | None => ret tt
  | Some c =>
      match op x with OP_CREATE => calls_ (OnCreate c rc (path x)) | OP_SYNC => calls_ (OnSync c rc (path x)) | _ => ret tt end ;;;
      set_busy (InCallback p false)
  end.

Definition GlobalAclCompletion (p : nat) (rc : Z) : M unit :=
  let* x := deref p in
  assert_ (is_none (zkw x)) ;;;
  match zkc x with
  | None => ret tt
  | Some c =>
      match op x with OP_GETA => calls_ (OnGetAcl c rc (path x)) | _ => ret tt end ;;;
      set_busy (InCallback p false)
  end.

(** Behind the callback. *)
Definition completed (p : nat) (void : bool) : M unit :=
  change p clear_callback ;;;
  let* x := deref p in
  (if void || (is_none (zkw x) && negb (zkw_detached x)) then ErasePending p else ret tt) ;;;
  set_busy Idle.

(** GlobalWatcher of a pending, up to the call and behind it. *)
Definition GlobalWatcher (p : nat) (type state : Z) : M unit :=
  let* x := deref p in
  (if zkw_detached x then ret tt
   else
     assert_ (is_some (zkw x)) ;;;
     calls_ (OnEvent (default 0 (zkw x)) type state (path x))) ;;;
  set_busy (InWatcher p (type =? ZOO_SESSION_EVENT)).

Definition watched (p : nat) (session : bool) : M unit :=
  (if session then ret tt else change p clear_watcher ;;; ErasePending p) ;;;
  set_busy Idle.

(** ** Sessions *)

(** [init]: ZOK, or the errno of zookeeper_init. *)
Definition ReconnectNolock (init : Z) : M Z :=
  let* handle := get _handle in
  assert_ (negb handle) ;;;
  let* hosts := get _hosts in
  let* timeout := get _timeout in
  if bool_decide (hosts = []) || (timeout <? 0) then ret ZBADARGUMENTS
  else if negb (init =? ZOK) then ret init
  else set_handle true ;;; ret ZOK.

Definition Initialize (init : Z) (hosts : bytes) (timeout : Z) : M Z :=
  let* handle := get _handle in
  let* connecting := get _connecting in
  if (handle : bool) then ret ZINVALIDSTATE
  else if (connecting : bool) then ret ZOK
  else
    set_session hosts timeout ;;;
    set_connecting false ;;;
    set_client_id 0 ;;;
    ReconnectNolock init.

(** Reconnect, once the old handle is closed. *)
Definition Reconnect_rest (init : Z) : M Z :=
  set_client_id 0 ;;;
  set_resuming true ;;;
  ReconnectNolock init.

Definition Reconnect (init : Z) : M Z :=
  let* connecting := get _connecting in
  if (connecting : bool) then ret ZOK
  else
    let* handle := get _handle in
    set_handle false ;;;
    if (handle : bool) then
      set_connecting true ;;;
      set_closing (Some ByReconnect) ;;;
      set_busy InClose ;;;
      ret ZOK
    else Reconnect_rest init.

(** Shutdown up to its Disconnect. *)
Definition Shutdown (by_ : closer) : M Z :=
  let* handle := get _handle in
  if negb handle then ret ZOK
  else
    let* connecting := get _connecting in
    assert_ (negb connecting) ;;;
    set_client_id 0 ;;;
    set_handle false ;;;
    set_connecting true ;;;
    set_closing (Some by_) ;;;
    match by_ with BySession => set_busy InClose | _ => ret tt end ;;;
    ret ZOK.

(** Behind the Disconnect of Shutdown, which returned [rc]. *)
Definition Shutdown_rest (rc : Z) : M Z :=
  if negb (rc =? ZOK) then ret rc
  else
    let* handle := get _handle in
    assert_ (negb handle) ;;;
    let* connecting := get _connecting in
    assert_ connecting ;;;
    set_connecting false ;;;
    let* pending := get _pending in
    free_all (elements pending) ;;;
    set_pending ∅ ;;;
    ret ZOK.

(** zookeeper_close has returned; [kept]: the requests and watches of the
    handle for which the library may call back even now. *)
Definition closed (c : closer) (rc init : Z) (kept : gset nat) : M unit :=
  let* r := gets requests in
  let* a := gets watches in
  set_library (r ∩ kept) (a ∩ kept) ;;;
  set_closing None ;;;
  match c with
  | ByReconnect => set_connecting false ;;; Reconnect_rest init ;;; set_busy Idle
  | BySession => Shutdown_rest rc ;;; set_busy Idle
  | ByUser | ByCallback => Shutdown_rest rc ;;; ret tt
  end.

(** [cid]: what zoo_client_id returns. *)
Definition OnConnected (cid : option Z) : M unit :=
  let* handle := get _handle in
  if negb handle then let* connecting := get _connecting in assert_ connecting
  else
    match cid with
    | None => throw assertion_failed
    | Some id =>
        set_client_id id ;;;
        let* resuming := get _resuming in
        if (resuming : bool) then
          set_resuming false ;;;
          let* pending := get _pending in
          if bool_decide (pending = ∅) then ret tt
          else
            set_pending ∅ ;;;
            set_busy (InResume (elements pending) (elements pending))
        else ret tt
    end.

Definition OnSession (state : Z) (cid : option Z) (init : Z) : M unit :=
  if (state =? ZOO_CONNECTING_STATE) || (state =? ZOO_ASSOCIATING_STATE) then ret tt
  else if state =? ZOO_CONNECTED_STATE then OnConnected cid
  else if state =? ZOO_EXPIRED_SESSION_STATE then Reconnect init ;;; ret tt
  else if state =? ZOO_AUTH_FAILED_STATE then Shutdown BySession ;;; ret tt
  else ret tt.

(** One pending of ResumeSession's loop; [rc]: what the library's function
    returns for the new request. *)
Definition resume (p : nat) (status rc : Z) : M unit :=
  let* x := deref p in
  if is_none (zkc x) && (is_none (zkw x) || zkw_detached x) then ret tt
  else
    let again (type : Z) (async : option bytes -> option Z -> option Z -> M Z) (failed : Z -> Z -> bytes -> call) : M unit :=
      assert_ (is_some (zkc x) || is_some (zkw x)) ;;;
      match zkc x with
      | None => calls_ (OnEvent (default 0 (zkw x)) type status (path x))
      | Some c =>
          let* r := async (Some (path x)) (zkc x) (zkw x) in
          if r =? ZOK then ret tt else calls_ (failed c ZSESSIONEXPIRED (path x))
      end in
    match op x with
    | OP_CREATE | OP_DELETE | OP_SYNC | OP_SET | OP_GETA | OP_SETA =>
        assert_ (is_some (zkc x)) ;;; assert_ (is_none (zkw x))
    | OP_EXISTS => again ZOO_CREATED_EVENT (AsyncExists rc) OnExists
    | OP_GET => again ZOO_CHANGED_EVENT (AsyncGet rc) OnGet
    | OP_GETC => again ZOO_CHILD_EVENT (AsyncGetChildren rc) OnGetChildren
    | OP_SESSION => throw assertion_failed
    end.

(** ResumeSession: a round of its loop, or its end. *)
Definition ResumeSession (todo all : list nat) (status rc : Z) : M unit :=
  match todo with
  | p :: todo => resume p status rc ;;; set_busy (InResume todo all)
  | [] => free_all all ;;; set_busy Idle
  end.

(** ** Runs *)

(** [ECompletion] and [EWatch] come from the library, and [ESession] too;
    [EContinue] is the worker behind a call; [EClosed] the end of a
    zookeeper_close. *)
Inductive event : Type :=
| EInitialize (init : Z) (hosts : bytes) (timeout : Z)
| EShutdown (inside : bool)
| EAsync (o : Operation) (rc : Z) (path : option bytes) (zkc watcher : option Z)
| EWatched (o : Operation) (rc : Z) (path : option bytes) (watcher : option Z)
| EDetach (zkw zkc : option Z)
| ECompletion (p : nat) (rc : Z)
| EWatch (p : nat) (type state : Z)
| ESession (state : Z) (cid : option Z) (init : Z)
| EContinue (status rc : Z)
| EClosed (rc init : Z) (kept : gset nat).

(** A watch is set once the request for it is answered. *)
Definition sets_watch (x : Pending) (rc : Z) : bool :=
  (is_some (zkw x) || zkw_detached x) && ((rc =? ZOK) || (bool_decide (op x = OP_EXISTS) && (rc =? ZNONODE))).

Definition complete (p : nat) (rc : Z) : M unit :=
  let* x := deref p in
  let* r := gets requests in
  let* a := gets watches in
  set_library (r ∖ {[p]}) (if sets_watch x rc then {[p]} ∪ a else a) ;;;
  match op x with
  | OP_EXISTS | OP_SET => GlobalStatCompletion p rc
  | OP_GET => GlobalDataCompletion p rc
  | OP_GETC => GlobalStringsStatCompletion p rc
  | OP_DELETE | OP_SETA => GlobalVoidCompletion p rc
  | OP_CREATE | OP_SYNC => GlobalStringCompletion p rc
  | OP_GETA => GlobalAclCompletion p rc
  | OP_SESSION => ret tt
  end.

Definition is_idle (b : worker) : bool := match b with Idle => true | _ => false end.

(** The worker is inside a user's function, or may be. *)
Definition is_called (b : worker) : bool := match b with Idle | InClose => false | _ => true end.

(** An event that cannot happen does nothing. *)
Definition exec (e : event) : M unit :=
  let* w := gets id in
  match e with
  | EInitialize init hosts timeout => Initialize init hosts timeout ;;; ret tt
  | EShutdown inside =>
      if inside && negb (is_called (busy w)) then ret tt
      else Shutdown (if inside then ByCallback else ByUser) ;;; ret tt
  | EAsync o rc path zkc watcher =>
      match o with
      | OP_GET => AsyncGet rc path zkc watcher ;;; ret tt
      | OP_EXISTS => AsyncExists rc path zkc watcher ;;; ret tt
      | OP_GETC => AsyncGetChildren rc path zkc watcher ;;; ret tt
      | _ => ret tt
      end
  | EWatched o rc path watcher =>
      match o with
      | OP_GET => Get rc path watcher ;;; ret tt
      | OP_EXISTS => Exists rc path watcher ;;; ret tt
      | OP_GETC => GetChildren rc path watcher ;;; ret tt
      | _ => ret tt
      end
  | EDetach zkw zkc => Detach zkw zkc
  | ECompletion p rc => if is_idle (busy w) && bool_decide (p ∈ requests w) then complete p rc else ret tt
  | EWatch p type state =>
      if is_idle (busy w) && bool_decide (p ∈ watches w) then
        set_library (requests w) (if type =? ZOO_SESSION_EVENT then watches w else watches w ∖ {[p]}) ;;;
        GlobalWatcher p type state
      else ret tt
  | ESession state cid init =>
      if is_idle (busy w) && (_handle (zk w) || is_some (closing w)) then OnSession state cid init else ret tt
  | EContinue status rc =>
      match busy w with
      | InCallback p void => completed p void
      | InWatcher p session => watched p session
      | InResume todo all => ResumeSession todo all status rc
      | Idle | InClose => ret tt
      end
  | EClosed rc init kept =>
      match closing w with
      | None => ret tt
      | Some ByUser => if is_idle (busy w) then closed ByUser rc init kept else ret tt
      | Some c => closed c rc init kept
      end
  end.

Fixpoint run_events (l : list event) (w : world) : result exn world :=
  match l with
  | [] => Ok w
  | e :: l => match exec e w with (Ok _, w) => run_events l w | (Err x, _) => Err x end
  end.
