(* ===== verification/ZooKeeperFacts.v ===== *)
(** * Theorems about a session with ZooKeeper

    As long as its users keep four rules, no pending is used after it was
    deleted, no assertion fails, and every callback that is owed has its answer
    on the way. *)

From S2P Require Import Prelude Libc ExceptionMonad ZooKeeper.

(** ** What holds of each address *)

(** What the worker holds of a pending. *)
Inductive role : Type := RNone | RCallback | RWatcher | RResume.

Definition role_of (b : worker) (p : nat) : role :=
  match b with
  | InCallback q _ => if decide (q = p) then RCallback else RNone
  | InWatcher q false => if decide (q = p) then RWatcher else RNone
  | InResume _ all => if decide (p ∈ all) then RResume else RNone
  | _ => RNone
  end.

Definition three (o : Operation) : Prop := o = OP_EXISTS \/ o = OP_GET \/ o = OP_GETC.

(** Of an address that holds [x]: [i], it is in [_pending]; [r], its request is
    not answered; [a], its watch is set. *)
Definition good (resuming connecting : bool) (x : option Pending) (i r a : bool) (k : role) : Prop :=
  match x with
  | None => i = false /\ r = false /\ a = false /\ k = RNone
  | Some x =>
      three (op x) /\
      (k = RResume -> i = false /\ r = false /\ a = false) /\
      (k <> RResume -> i = true) /\
      (r = true -> is_some (zkc x) = true /\ a = false /\ k = RNone) /\
      (a = true -> is_some (zkw x) || zkw_detached x = true /\ k <> RWatcher /\ (k = RCallback \/ zkc x = None)) /\
      (k = RCallback -> is_some (zkc x) = true /\ r = false) /\
      (k = RWatcher -> zkc x = None) /\
      (zkw_detached x = false \/ zkw x = None) /\
      (resuming = true -> r = false /\ a = false) /\
      (i = true -> is_some (zkc x) = true -> r = true \/ k = RCallback \/ resuming = true \/ connecting = true)
  end.

Definition at_ (w : world) (p : nat) : Prop :=
  good (_resuming (zk w)) (_connecting (zk w)) (heap w !! p) (bool_decide (p ∈ _pending (zk w)))
    (bool_decide (p ∈ requests w)) (bool_decide (p ∈ watches w)) (role_of (busy w) p).

Definition glob (w : world) : Prop :=
  (forall p, (next w <= p)%nat -> heap w !! p = None) /\
  (_handle (zk w) = true -> _connecting (zk w) = false /\ closing w = None) /\
  match closing w with
  | None => busy w <> InClose
  | Some c => _handle (zk w) = false /\ _connecting (zk w) = true /\
      match c with ByReconnect | BySession => busy w = InClose | ByUser => busy w <> InClose | ByCallback => False end
  end /\
  match busy w with
  | InCallback p void => void = false
  | InResume todo all => NoDup all /\ (forall p, p ∈ todo -> p ∈ all) /\ _resuming (zk w) = false
  | _ => True
  end.

Definition Inv (w : world) : Prop := glob w /\ forall p, at_ w p.

(** ** Programs that return *)

Definition safe {A} (m : M A) (w : world) (Q : A -> world -> Prop) : Prop :=
  ends m w (fun r w' => match r with Ok a => Q a w' | Err _ => False end).

Lemma safe_bind {A C} (m : M A) (k : A -> M C) w Q : safe m w (fun a w' => safe (k a) w' Q) -> safe (bind m k) w Q.
Proof. unfold safe. intros H. apply ends_bind. apply (ends_mono _ _ _ _ H). by intros [a|e] w'. Qed.

Lemma safe_mono {A} (m : M A) w (P Q : A -> world -> Prop) : safe m w P -> (forall a w', P a w' -> Q a w') -> safe m w Q.
Proof. unfold safe. intros H HPQ. apply (ends_mono _ _ _ _ H). intros [a|e] w'; [apply HPQ|done]. Qed.

Lemma safe_assert b w (Q : unit -> world -> Prop) : b = true -> Q tt w -> safe (assert_ b) w Q.
Proof. by intros ->. Qed.

Lemma safe_deref p x w (Q : Pending -> world -> Prop) : heap w !! p = Some x -> Q x w -> safe (deref p) w Q.
Proof. intros H. unfold safe, ends, deref, bind, gets. by rewrite H. Qed.

Lemma safe_ret {A} (a : A) w (Q : A -> world -> Prop) : Q a w -> safe (ret a) w Q.
Proof. done. Qed.

Lemma safe_gets {A} (f : world -> A) w (Q : A -> world -> Prop) : Q (f w) w -> safe (gets f) w Q.
Proof. done. Qed.

Lemma safe_modify f w (Q : unit -> world -> Prop) : Q tt (f w) -> safe (modify f) w Q.
Proof. done. Qed.

Lemma safe_new x w (Q : nat -> world -> Prop) :
  Q (next w) (mkWorld (zk w) (<[next w := x]> (heap w)) (S (next w)) (requests w) (watches w) (busy w) (closing w) (calls w)) ->
  safe (new_Pending x) w Q.
Proof. done. Qed.

(** The rules for the instructions that cannot fail. *)
Ltac step :=
  lazymatch goal with
  | |- safe (bind _ _) _ _ => apply safe_bind
  | |- safe (ret _) _ _ => apply safe_ret
  | |- safe (gets _) _ _ => apply safe_gets
  | |- safe (get _) _ _ => apply safe_gets
  | |- safe (new_Pending _) _ _ => apply safe_new
  | |- safe (set_library _ _) _ _ => apply safe_modify
  | |- safe (set_heap _) _ _ => apply safe_modify
  | |- safe (set_busy _) _ _ => apply safe_modify
  | |- safe (set_closing _) _ _ => apply safe_modify
  | |- safe (calls_ _) _ _ => apply safe_modify
  | |- safe (put _) _ _ => apply safe_modify
  | |- safe (set_pending _) _ _ => apply safe_modify
  | |- safe (set_resuming _) _ _ => apply safe_modify
  | |- safe (set_client_id _) _ _ => apply safe_modify
  | |- safe (set_handle _) _ _ => apply safe_modify
  | |- safe (set_connecting _) _ _ => apply safe_modify
  | |- safe (set_session _ _) _ _ => apply safe_modify
  end.

(** The fields of a world that is written out. *)
Ltac fields := cbn [zk heap next requests watches busy closing calls _pending _resuming _client_id _hosts _handle
  _connecting _timeout].

Ltac steps := repeat (step; fields).

(** ** Steps that touch one address *)

(** Everything else stays: [w'] is like [w] but for the address [p]. *)
Definition elsewhere (p : nat) (w w' : world) : Prop :=
  forall q, q <> p -> heap w' !! q = heap w !! q /\
    bool_decide (q ∈ _pending (zk w')) = bool_decide (q ∈ _pending (zk w)) /\
    bool_decide (q ∈ requests w') = bool_decide (q ∈ requests w) /\
    bool_decide (q ∈ watches w') = bool_decide (q ∈ watches w) /\
    role_of (busy w') q = role_of (busy w) q.

Lemma Inv_at p w w' : Inv w -> elsewhere p w w' -> _resuming (zk w') = _resuming (zk w) -> _connecting (zk w') = _connecting (zk w) ->
  glob w' -> at_ w' p -> Inv w'.
Proof.
  intros [_ H] He Hr Ho Hg Hp. split; [done|]. intros q. destruct (decide (q = p)) as [->|Hne]; [done|].
  destruct (He q Hne) as (E1 & E2 & E3 & E4 & E5). specialize (H q). unfold at_ in *. by rewrite E1, E2, E3, E4, E5, Hr, Ho.
Qed.

Lemma in_add (p q : nat) (s : gset nat) : q <> p -> bool_decide (q ∈ {[p]} ∪ s) = bool_decide (q ∈ s).
Proof. intros H. apply bool_decide_ext. set_solver. Qed.

Lemma in_remove (p q : nat) (s : gset nat) : q <> p -> bool_decide (q ∈ s ∖ {[p]}) = bool_decide (q ∈ s).
Proof. intros H. apply bool_decide_ext. set_solver. Qed.

Lemma in_added (p : nat) (s : gset nat) : bool_decide (p ∈ {[p]} ∪ s) = true.
Proof. apply bool_decide_eq_true_2. set_solver. Qed.

Lemma in_removed (p : nat) (s : gset nat) : bool_decide (p ∈ s ∖ {[p]}) = false.
Proof. apply bool_decide_eq_false_2. set_solver. Qed.

Lemma in_empty (p : nat) `{!Decision (p ∈ (∅ : gset nat))} : bool_decide (p ∈ (∅ : gset nat)) = false.
Proof. apply bool_decide_eq_false_2. set_solver. Qed.

Lemma role_callback p v : role_of (InCallback p v) p = RCallback.
Proof. unfold role_of. by rewrite decide_True. Qed.

Lemma role_callback_ne p q v : q <> p -> role_of (InCallback p v) q = RNone.
Proof. intros H. unfold role_of. by rewrite decide_False by congruence. Qed.

Lemma role_watcher_ne p q s : q <> p -> role_of (InWatcher p s) q = RNone.
Proof. intros H. unfold role_of. destruct s; [done|]. by rewrite decide_False by congruence. Qed.

Lemma role_idle p : role_of Idle p = RNone.
Proof. done. Qed.

Lemma role_resume b p : role_of b p = RResume -> exists todo all, b = InResume todo all /\ p ∈ all.
Proof.
  destruct b as [|q v|q s|todo l|]; cbn; try done; [by case_decide|by destruct s; [|case_decide]|].
  case_decide; [|done]. by exists todo, l.
Qed.

Lemma role_called b p : role_of b p = RCallback -> exists v, b = InCallback p v.
Proof.
  destruct b as [|q v|q s|todo l|]; cbn; try done; [|by destruct s; [|case_decide]|by case_decide].
  case_decide; [|done]. subst. by exists v.
Qed.

(** An object is at the address of each pending, request and watch. *)
Lemma at_alive w p : at_ w p -> p ∈ _pending (zk w) \/ p ∈ requests w \/ p ∈ watches w \/ role_of (busy w) p <> RNone ->
  exists x, heap w !! p = Some x.
Proof.
  unfold at_, good. destruct (heap w !! p) as [x|]; [by exists x|]. intros (H1 & H2 & H3 & H4) H.
  apply bool_decide_eq_false_1 in H1, H2, H3. tauto.
Qed.

Create Rewrite HintDb zookeeper.
#[export] Hint Rewrite in_added in_removed in_empty role_callback role_idle @lookup_insert_eq @lookup_delete_eq : zookeeper.
#[export] Hint Rewrite in_add in_remove role_callback_ne role_watcher_ne @lookup_insert_ne @lookup_delete_ne
  using congruence : zookeeper.

(** [elsewhere] and [at_] of a world that is written out. *)
Ltac elsewhere := intros ? ?; cbn [zk heap next requests watches busy closing _pending]; autorewrite with zookeeper; auto.

Lemma free_safe p x w (Q : unit -> world -> Prop) : heap w !! p = Some x ->
  Q tt (mkWorld (zk w) (delete p (heap w)) (next w) (requests w) (watches w) (busy w) (closing w) (calls w)) ->
  safe (free p) w Q.
Proof. intros Hx HQ. unfold free. step. eapply safe_deref; [exact Hx|]. by steps. Qed.

Lemma change_safe p x f w (Q : unit -> world -> Prop) : heap w !! p = Some x ->
  Q tt (mkWorld (zk w) (<[p := f x]> (heap w)) (next w) (requests w) (watches w) (busy w) (closing w) (calls w)) ->
  safe (change p f) w Q.
Proof. intros Hx HQ. unfold change. step. eapply safe_deref; [exact Hx|]. by steps. Qed.

(** ErasePending of a pending that is done. *)
Definition erased (p : nat) (w : world) : world :=
  mkWorld (mkZooKeeper (_pending (zk w) ∖ {[p]}) (_resuming (zk w)) (_client_id (zk w)) (_hosts (zk w)) (_handle (zk w))
      (_connecting (zk w)) (_timeout (zk w)))
    (delete p (heap w)) (next w) (requests w) (watches w) (busy w) (closing w) (calls w).

Lemma ErasePending_safe p x w (Q : unit -> world -> Prop) : heap w !! p = Some x -> zkc x = None -> zkw x = None ->
  zkw_detached x = false -> p ∈ _pending (zk w) -> Q tt (erased p w) -> safe (ErasePending p) w Q.
Proof.
  intros Hx Hc Hw Hd Hp HQ. unfold ErasePending. step. eapply safe_deref; [exact Hx|]. step.
  apply safe_assert; [by rewrite Hc, Hw, Hd|]. steps. rewrite bool_decide_eq_true_2 by done.
  step. eapply free_safe; [exact Hx|]. by steps.
Qed.

(** ** Requests *)

(** What a request leaves alone. *)
Definition same_worker (w w' : world) : Prop :=
  busy w' = busy w /\ _resuming (zk w') = _resuming (zk w) /\ (forall p x, heap w !! p = Some x -> heap w' !! p = Some x).

(** A new pending and what the library keeps for it. *)
Definition added (x : Pending) (r a : bool) (w : world) : world :=
  let p := next w in
  mkWorld (mkZooKeeper ({[p]} ∪ _pending (zk w)) (_resuming (zk w)) (_client_id (zk w)) (_hosts (zk w)) (_handle (zk w))
      (_connecting (zk w)) (_timeout (zk w)))
    (<[p := x]> (heap w)) (S p) (if r then {[p]} ∪ requests w else requests w) (if a then {[p]} ∪ watches w else watches w)
    (busy w) (closing w) (calls w).

Lemma new_is_free w : Inv w -> heap w !! next w = None /\ role_of (busy w) (next w) = RNone /\
  bool_decide (next w ∈ _pending (zk w)) = false /\ bool_decide (next w ∈ requests w) = false /\
  bool_decide (next w ∈ watches w) = false.
Proof.
  intros [(Hf & _) H]. specialize (H (next w)). unfold at_ in H. rewrite Hf in H by done. cbn in H. rewrite Hf by done. tauto.
Qed.

Lemma glob_same w w' : glob w -> (forall p, (next w' <= p)%nat -> heap w' !! p = None) ->
  _handle (zk w') = _handle (zk w) -> _connecting (zk w') = _connecting (zk w) -> closing w' = closing w ->
  _resuming (zk w') = _resuming (zk w) -> busy w' = busy w -> glob w'.
Proof. intros (_ & H2 & H3 & H4) Hf E1 E2 E3 E4 E5. unfold glob. rewrite E1, E2, E3, E4, E5. done. Qed.

Lemma Inv_added x r a w : Inv w -> three (op x) -> zkw_detached x = false -> _resuming (zk w) = false ->
  (r = true /\ a = false /\ is_some (zkc x) = true \/ r = false /\ a = true /\ zkc x = None /\ is_some (zkw x) = true) ->
  Inv (added x r a w).
Proof.
  intros HI Ho Hd Hr Hra. pose proof (new_is_free w HI) as (E1 & E2 & E3 & E4 & E5). pose proof HI as [Hg _].
  apply (Inv_at (next w) w); [done| |done|done| |].
  - intros q Hq. cbn. rewrite lookup_insert_ne by congruence. destruct r, a; rewrite ?in_add by done; split_and!; done.
  - eapply glob_same; [exact Hg|..]; try done. cbn. intros p Hp. rewrite lookup_insert_ne by lia. apply Hg. lia.
  - unfold at_, good. cbn. rewrite lookup_insert_eq, in_added, E2, Hr.
    destruct Hra as [(-> & -> & Hc)|(-> & -> & Hc & Hw)]; rewrite ?in_added, ?E4, ?E5, Hd.
    + split_and!; try done; auto.
    + rewrite Hc, Hw. split_and!; try done; auto.
Qed.

Lemma Inv_failed x w : Inv w ->
  Inv (mkWorld (zk w) (delete (next w) (<[next w := x]> (heap w))) (S (next w)) (requests w) (watches w) (busy w) (closing w) (calls w)).
Proof.
  intros HI. pose proof (new_is_free w HI) as (E1 & _). rewrite delete_insert_id by done. destruct HI as [Hg Ha]. split.
  - eapply glob_same; [exact Hg|..]; try done. cbn. intros p Hp. apply Hg. lia.
  - exact Ha.
Qed.

Lemma Async_safe o rc path c watcher w : Inv w -> three o -> is_some c = true -> (_resuming (zk w) = true -> rc <> ZOK) ->
  safe (Async o rc path c watcher) w (fun _ w' => Inv w' /\ same_worker w w').
Proof.
  intros HI Ho Hc Hr. pose proof (new_is_free w HI) as (E1 & _). unfold Async.
  destruct (_ || _); [by steps|]. steps. destruct (negb _); [by steps|]. steps. destruct (Z.eqb_spec rc ZOK) as [->|Hne]; cbn [negb].
  - steps. set (x := mkPending o _ watcher c false). split; [|split_and!; try done].
    + apply (Inv_added x true false w); try done; auto. destruct (_resuming (zk w)); [by destruct Hr|done].
    + intros p y Hp. cbn. rewrite lookup_insert_ne; [done|]. congruence.
  - step. eapply free_safe; [cbn; apply lookup_insert_eq|]. steps. split; [by apply Inv_failed|]. split_and!; try done.
    intros p y Hp. cbn. by rewrite delete_insert_id.
Qed.

Lemma Watch_safe o g rc path watcher w : Inv w -> three o -> (_resuming (zk w) = true -> g rc = false) ->
  safe (Watch o g rc path watcher) w (fun _ w' => Inv w').
Proof.
  intros HI Ho Hr. unfold Watch. destruct (bad_path path); [by steps|]. steps. destruct (negb _); [by steps|].
  destruct watcher as [z|]; [|by steps]. steps. destruct (g rc) eqn:Eg.
  - steps. apply (Inv_added (mkPending o (c_str (default [] path)) (Some z) None false) false true w); try done; auto 6.
    destruct (_resuming (zk w)); [by discriminate Hr|done].
  - eapply free_safe; [cbn; apply lookup_insert_eq|]. steps. by apply Inv_failed.
Qed.

(** ** Detach *)

Lemma detach_keeps z x : zkc (detach z None x) = zkc x /\ op (detach z None x) = op x /\
  (is_some (zkw x) || zkw_detached x = true -> is_some (zkw (detach z None x)) || zkw_detached (detach z None x) = true) /\
  (zkw_detached x = false \/ zkw x = None -> zkw_detached (detach z None x) = false \/ zkw (detach z None x) = None).
Proof. unfold detach. cbn [is_some andb]. destruct (is_some z && _); cbn; split_and!; auto. Qed.

Lemma Detach_safe z w : Inv w -> safe (Detach z None) w (fun _ w' => Inv w').
Proof.
  intros [Hg Ha]. unfold Detach. steps. split.
  - eapply glob_same; [exact Hg|..]; try done. cbn. intros p Hp. rewrite map_lookup_imap. destruct Hg as [Hf _]. by rewrite Hf.
  - intros p. specialize (Ha p). unfold at_, good in *. cbn. rewrite map_lookup_imap.
    destruct (heap w !! p) as [x|]; cbn; [|done]. destruct (bool_decide (p ∈ _pending (zk w))) eqn:E; [|done].
    pose proof (detach_keeps z x) as (E1 & E2 & E3 & E4). rewrite E1, E2.
    destruct Ha as (A1 & A2 & A3 & A4 & A5 & A6 & A7 & A8 & A9 & A10). split_and!; auto. intros Hw. destruct (A5 Hw). auto.
Qed.

(** ** The worker *)

(** The worker may go from doing nothing to a call and back. *)
Lemma glob_busy w w' : glob w -> next w' = next w -> (forall p, heap w !! p = None -> heap w' !! p = None) ->
  _handle (zk w') = _handle (zk w) -> _connecting (zk w') = _connecting (zk w) -> closing w' = closing w ->
  busy w <> InClose -> busy w' <> InClose ->
  match busy w' with
  | InCallback p void => void = false
  | InResume todo all => NoDup all /\ (forall p, p ∈ todo -> p ∈ all) /\ _resuming (zk w') = false
  | _ => True
  end -> glob w'.
Proof.
  intros (H1 & H2 & H3 & _) En Hh E1 E2 E3 Hb Hb' H4. unfold glob. rewrite En, E1, E2, E3. split_and!; auto.
  destruct (closing w) as [[]|]; (done || tauto || naive_solver).
Qed.

Lemma Inv_called p x rc l w : Inv w -> busy w = Idle -> p ∈ requests w -> heap w !! p = Some x ->
  Inv (mkWorld (zk w) (heap w) (next w) (requests w ∖ {[p]}) (if sets_watch x rc then {[p]} ∪ watches w else watches w)
         (InCallback p false) (closing w) l).
Proof.
  intros HI Hb Hp Hx. pose proof HI as [Hg Ha]. specialize (Ha p). unfold at_, good in Ha.
  rewrite Hx, Hb, (bool_decide_eq_true_2 (p ∈ requests w)) in Ha by done.
  destruct Ha as (A1 & A2 & A3 & A4 & A5 & A6 & A7 & A8 & A9 & A10). destruct (A4 eq_refl) as (Hc & Hw & _).
  apply (Inv_at p w); [done| |done|done| |].
  - intros q Hq. cbn [heap zk requests watches busy]. rewrite role_callback_ne by done. rewrite Hb.
    destruct (sets_watch x rc); rewrite ?in_add, in_remove by done; split_and!; done.
  - eapply glob_busy; [exact Hg|..]; try done; by rewrite Hb.
  - unfold at_, good. cbn [heap zk requests watches busy closing]. rewrite Hx, role_callback, in_removed.
    split_and!; try done; auto.
    + destruct (sets_watch x rc) eqn:Es; [|by rewrite Hw]. intros _. unfold sets_watch in Es.
      apply andb_true_iff in Es as [Es _]. auto.
    + intros Hr. by destruct (A9 Hr).
Qed.

Lemma complete_safe p rc w : Inv w -> busy w = Idle -> p ∈ requests w -> safe (complete p rc) w (fun _ w' => Inv w').
Proof.
  intros HI Hb Hp. destruct (at_alive w p) as [x Hx]; [apply HI|auto|]. pose proof (proj2 HI p) as Ha.
  unfold at_, good in Ha. rewrite Hx, (bool_decide_eq_true_2 (p ∈ requests w)) in Ha by done.
  destruct Ha as (A1 & _ & _ & A4 & _). destruct (A4 eq_refl) as (Hc & _). destruct (zkc x) as [c|] eqn:Ec; [|done].
  unfold complete. step. eapply safe_deref; [exact Hx|]. steps.
  destruct A1 as [E|[E|E]]; rewrite E; [unfold GlobalStatCompletion|unfold GlobalDataCompletion|unfold GlobalStringsStatCompletion];
    (step; eapply safe_deref; [exact Hx|]; rewrite Ec, E; steps; by apply Inv_called).
Qed.

(** Behind the callback: the pending stays for its watch, or is deleted. *)
Lemma completed_safe p w : Inv w -> busy w = InCallback p false -> safe (completed p false) w (fun _ w' => Inv w').
Proof.
  intros HI Hb. destruct (at_alive w p) as [x Hx]; [apply HI|right; right; right; by rewrite Hb, role_callback|].
  pose proof HI as [Hg Ha]. specialize (Ha p). unfold at_, good in Ha. rewrite Hx, Hb, role_callback in Ha.
  destruct Ha as (A1 & A2 & A3 & A4 & A5 & A6 & A7 & A8 & A9 & A10). destruct (A6 eq_refl) as [Hc Hr].
  pose proof (A3 ltac:(done)) as Hi.
  unfold completed. step. eapply change_safe; [exact Hx|]. step. eapply safe_deref; [cbn; apply lookup_insert_eq|]. step.
  cbn [zkw zkw_detached clear_callback orb]. destruct (is_none (zkw x) && negb (zkw_detached x)) eqn:Ed.
  - apply andb_true_iff in Ed as [Hw%negb_true_iff Hd%negb_true_iff]. destruct (zkw x) eqn:Ew; [done|].
    eapply ErasePending_safe; [cbn; apply lookup_insert_eq|done|done|done|by apply bool_decide_eq_true_1 in Hi|].
    steps. apply (Inv_at p w); [done| |done|done| |].
    + intros q Hq. cbn. rewrite lookup_delete_ne, lookup_insert_ne, in_remove, Hb, role_callback_ne by done. done.
    + eapply glob_busy; [exact Hg|..]; try done; [|by rewrite Hb]. cbn. intros q Hq.
      destruct (decide (q = p)) as [->|Hne]; [by rewrite lookup_delete_eq|by rewrite lookup_delete_ne, lookup_insert_ne].
    + unfold at_, good. cbn. rewrite lookup_delete_eq, in_removed, Hr. split_and!; try done.
      destruct (bool_decide (p ∈ watches w)); [|done]. destruct (A5 eq_refl) as [H5 _]. by rewrite Hd in H5.
  - steps. apply (Inv_at p w); [done| |done|done| |].
    + intros q Hq. cbn. rewrite lookup_insert_ne, Hb, role_callback_ne by done. done.
    + eapply glob_busy; [exact Hg|..]; try done; [|by rewrite Hb]. cbn. intros q Hq. rewrite lookup_insert_ne; congruence.
    + unfold at_, good. cbn. rewrite lookup_insert_eq, Hr, Hi. cbn. split_and!; try done; auto.
      * intros Ht. destruct (A5 Ht). auto.
      * intros Ht. by destruct (A9 Ht).
Qed.

(** An event of a watch. *)
Lemma GlobalWatcher_safe p type state w : Inv w -> busy w = Idle -> p ∈ watches w ->
  safe (set_library (requests w) (if type =? ZOO_SESSION_EVENT then watches w else watches w ∖ {[p]}) ;;; GlobalWatcher p type state)
    w (fun _ w' => Inv w').
Proof.
  intros HI Hb Hp. destruct (at_alive w p) as [x Hx]; [apply HI|auto|]. pose proof HI as [Hg Ha]. specialize (Ha p).
  unfold at_, good in Ha. rewrite Hx, Hb, (bool_decide_eq_true_2 (p ∈ watches w)) in Ha by done.
  destruct Ha as (A1 & A2 & A3 & A4 & A5 & A6 & A7 & A8 & A9 & A10). destruct (A5 eq_refl) as (Hw & _ & [?|Hc]); [done|].
  assert (bool_decide (p ∈ requests w) = false) as Hr.
  { destruct (bool_decide (p ∈ requests w)); [|done]. by destruct (A4 eq_refl) as (_ & ? & _). }
  set (session := type =? ZOO_SESSION_EVENT). set (a := if session then watches w else watches w ∖ {[p]}).
  assert (forall l, Inv (mkWorld (zk w) (heap w) (next w) (requests w) a (InWatcher p session) (closing w) l)) as H.
  { intros l. apply (Inv_at p w); [done| |done|done| |].
    - intros q Hq. cbn [heap zk requests watches busy]. rewrite role_watcher_ne, Hb by done.
      unfold a. destruct session; rewrite ?in_remove by done; done.
    - eapply glob_busy; [exact Hg|..]; try done; by rewrite Hb.
    - unfold at_, good. cbn [heap zk requests watches busy closing]. rewrite Hx, Hr, (A3 ltac:(done)), Hc. unfold a.
      destruct session; cbn [role_of].
      + rewrite bool_decide_eq_true_2 by done. split_and!; try done; auto. intros Ht. by destruct (A9 Ht).
      + rewrite in_removed, decide_True by done. split_and!; try done; auto. }
  step. steps. unfold GlobalWatcher. step. eapply safe_deref; [exact Hx|]. step. destruct (zkw_detached x); [steps; apply H|].
  step. apply safe_assert; [by rewrite orb_false_r in Hw|]. steps. apply H.
Qed.

Lemma watched_safe p session w : Inv w -> busy w = InWatcher p session -> safe (watched p session) w (fun _ w' => Inv w').
Proof.
  intros HI Hb. unfold watched. pose proof HI as [Hg Ha]. destruct session.
  - steps. apply (Inv_at p w); [done| |done|done| |].
    + intros q Hq. cbn. by rewrite Hb.
    + eapply glob_busy; [exact Hg|..]; try done; by rewrite Hb.
    + specialize (Ha p). unfold at_ in *. cbn. by rewrite Hb in Ha.
  - assert (role_of (busy w) p = RWatcher) as Er by (rewrite Hb; cbn; by rewrite decide_True).
    destruct (at_alive w p) as [x Hx]; [apply HI|right; right; right; by rewrite Er|].
    specialize (Ha p). unfold at_, good in Ha. rewrite Hx, Er in Ha.
    destruct Ha as (A1 & A2 & A3 & A4 & A5 & A6 & A7 & A8 & A9 & A10). pose proof (A7 eq_refl) as Hc.
    pose proof (A3 ltac:(done)) as Hi.
    step. step. eapply change_safe; [exact Hx|].
    eapply ErasePending_safe; [cbn; apply lookup_insert_eq|done|done|done|by apply bool_decide_eq_true_1 in Hi|].
    steps. apply (Inv_at p w); [done| |done|done| |].
    + intros q Hq. cbn. rewrite lookup_delete_ne, lookup_insert_ne, in_remove, Hb, role_watcher_ne by done. done.
    + eapply glob_busy; [exact Hg|..]; try done; [|by rewrite Hb]. cbn. intros q Hq.
      destruct (decide (q = p)) as [->|Hne]; [by rewrite lookup_delete_eq|by rewrite lookup_delete_ne, lookup_insert_ne].
    + unfold at_, good. cbn. rewrite lookup_delete_eq, in_removed. split_and!; try done.
      * destruct (bool_decide (p ∈ requests w)); [|done]. by destruct (A4 eq_refl) as (_ & _ & ?).
      * destruct (bool_decide (p ∈ watches w)); [|done]. by destruct (A5 eq_refl) as (_ & ? & _).
Qed.

(** ** Sessions *)

Lemma Initialize_safe init hosts timeout w : Inv w -> safe (Initialize init hosts timeout) w (fun _ w' => Inv w').
Proof.
  intros HI. pose proof HI as [(H1 & H2 & H3 & H4) Ha]. unfold Initialize. steps. destruct (_handle (zk w)) eqn:Eh; [by steps|].
  destruct (_connecting (zk w)) eqn:Ec; [by steps|]. steps. unfold ReconnectNolock. steps. apply safe_assert; [by rewrite Eh|].
  assert (closing w = None) as Ecl by (destruct (closing w); [by destruct H3 as (_ & ? & _)|done]).
  assert (forall b n hs tm, Inv (mkWorld (mkZooKeeper (_pending (zk w)) (_resuming (zk w)) n hs b false tm)
    (heap w) (next w) (requests w) (watches w) (busy w) (closing w) (calls w))) as HI'.
  { intros b n hs tm. split.
    - unfold glob. cbn. rewrite Ecl in *. auto.
    - intros p. specialize (Ha p). unfold at_ in *. cbn. by rewrite Ec in Ha. }
  steps. destruct (_ || _); [steps; rewrite Eh; apply HI'|]. destruct (negb _); steps; [rewrite Eh|]; apply HI'.
Qed.

(** The handle is taken away to be closed. *)
Lemma Inv_closing c b n w : Inv w -> _handle (zk w) = true ->
  (c <> ByCallback) -> (if decide (c = ByUser) then b = busy w else busy w = Idle /\ b = InClose) ->
  Inv (mkWorld (mkZooKeeper (_pending (zk w)) (_resuming (zk w)) n (_hosts (zk w)) false true (_timeout (zk w)))
         (heap w) (next w) (requests w) (watches w) b (Some c) (calls w)).
Proof.
  intros [(H1 & H2 & H3 & H4) Ha] Eh Hc Hb. destruct (H2 Eh) as [_ Ecl]. rewrite Ecl in H3.
  assert (forall p, role_of b p = role_of (busy w) p) as Er.
  { destruct (decide _); [by subst|]. by destruct Hb as [-> ->]. }
  split.
  - unfold glob. cbn. split_and!; try done.
    + by destruct c, Hb; subst.
    + destruct (decide _); [by subst|]. by destruct Hb as [_ ->].
  - intros p. specialize (Ha p). unfold at_ in *. cbn. rewrite Er. unfold good in *. destruct (heap w !! p); [|done].
    destruct Ha as (A1 & A2 & A3 & A4 & A5 & A6 & A7 & A8 & A9 & A10). split_and!; auto.
Qed.

Lemma Shutdown_safe c w : Inv w -> (c = ByUser \/ c = BySession /\ busy w = Idle) -> safe (Shutdown c) w (fun _ w' => Inv w').
Proof.
  intros HI Hc. pose proof HI as [(H1 & H2 & H3 & H4) Ha]. unfold Shutdown. steps. destruct (_handle (zk w)) eqn:Eh; [|by steps].
  cbn [negb]. steps. destruct (H2 eq_refl) as [-> _]. steps. apply safe_assert; [done|]. steps.
  destruct Hc as [->|[-> Hb]]; steps; apply Inv_closing; auto; (by rewrite decide_True by done) || (by rewrite decide_False by done).
Qed.

Lemma Reconnect_safe init w : Inv w -> busy w = Idle -> _handle (zk w) || is_some (closing w) = true ->
  safe (Reconnect init) w (fun _ w' => Inv w').
Proof.
  intros HI Hb Ho. pose proof HI as [(H1 & H2 & H3 & H4) Ha]. unfold Reconnect. steps.
  destruct (_connecting (zk w)) eqn:Ec; [by steps|]. steps. destruct (_handle (zk w)) eqn:Eh.
  - steps. apply Inv_closing; auto. by rewrite decide_False by done.
  - destruct (closing w); [|done]. by destruct H3 as (_ & ? & _).
Qed.

(** Deleting a list of pendings. *)
Definition without (l : list nat) (h : gmap nat Pending) : gmap nat Pending := foldl (fun h p => delete p h) h l.

Lemma without_lookup l h p : without l h !! p = if decide (p ∈ l) then None else h !! p.
Proof.
  revert h. unfold without. induction l as [|q l IH]; intros h; cbn [foldl].
  - by rewrite decide_False by apply not_elem_of_nil.
  - rewrite IH. destruct (decide (p ∈ l)) as [Hl|Hl]; [by rewrite decide_True by (by right)|].
    destruct (decide (p = q)) as [->|Hne]; [by rewrite lookup_delete_eq, decide_True by left|].
    rewrite lookup_delete_ne by done. rewrite decide_False; [done|]. by intros [?|?]%elem_of_cons.
Qed.

Lemma free_all_safe l w (Q : unit -> world -> Prop) : NoDup l -> (forall p, p ∈ l -> heap w !! p <> None) ->
  Q tt (mkWorld (zk w) (without l (heap w)) (next w) (requests w) (watches w) (busy w) (closing w) (calls w)) ->
  safe (free_all l) w Q.
Proof.
  intros Hl. revert w. induction Hl as [|p l Hp Hl IH]; intros w Hw HQ; cbn [free_all]; [by destruct w; step|].
  step. destruct (heap w !! p) as [x|] eqn:Hx; [|by destruct (Hw p); [left|]]. eapply free_safe; [exact Hx|]. apply IH; [|done].
  intros q Hq. cbn. rewrite lookup_delete_ne by (intros ->; done). apply Hw. by right.
Qed.

(** What Shutdown leaves. *)
Lemma Shutdown_rest_safe rc w : _handle (zk w) = false -> _connecting (zk w) = true -> closing w = None ->
  requests w = ∅ -> watches w = ∅ -> (busy w = Idle \/ busy w = InClose) ->
  (forall p, (next w <= p)%nat -> heap w !! p = None) -> (forall p, at_ w p) ->
  safe (Shutdown_rest rc) w (fun _ w' => (busy w' = busy w) /\
    Inv (mkWorld (zk w') (heap w') (next w') (requests w') (watches w') Idle (closing w') (calls w'))).
Proof.
  intros Eh Ec Ecl Er Ew Hb Hf Ha.
  assert (forall p, role_of (busy w) p = RNone) as Hn by (by intros p; destruct Hb as [-> | ->]).
  unfold Shutdown_rest. destruct (negb _).
  - steps. split; [done|]. split.
    + unfold glob. cbn. rewrite Eh, Ecl. split_and!; done.
    + intros p. specialize (Ha p). unfold at_ in *. cbn. by rewrite Hn in Ha.
  - steps. apply safe_assert; [by rewrite Eh|]. steps. apply safe_assert; [done|]. steps.
    eapply free_all_safe; [apply NoDup_elements| |].
    + intros p Hp%elem_of_elements. destruct (at_alive w p) as [x Hx]; [apply Ha|auto|]. cbn. by rewrite Hx.
    + steps. split; [done|]. split.
      * unfold glob. cbn. rewrite Eh, Ecl. split_and!; try done. intros p Hp. rewrite without_lookup. destruct (decide _); [done|by apply Hf].
      * intros p. specialize (Ha p). unfold at_, good in *. fields. rewrite Er, Ew, without_lookup, !in_empty. rewrite Hn in Ha.
        destruct (decide _) as [|Hp]; [done|]. destruct (heap w !! p) as [x|]; [|done].
        destruct Ha as (_ & _ & A3 & _). specialize (A3 ltac:(done)). apply bool_decide_eq_true_1 in A3.
        by rewrite elem_of_elements in Hp.
Qed.

(** The library forgets everything while the handle is being closed. *)
Lemma at_forgotten w p : at_ w p -> role_of (busy w) p = RNone -> _connecting (zk w) = true ->
  good (_resuming (zk w)) true (heap w !! p) (bool_decide (p ∈ _pending (zk w))) false false RNone.
Proof.
  unfold at_, good. intros H Hr Hc. rewrite Hr, Hc in H. destruct (heap w !! p); [|tauto].
  destruct H as (A1 & A2 & A3 & A4 & A5 & A6 & A7 & A8 & A9 & A10). split_and!; auto; by intros.
Qed.

Lemma closed_safe c rc init w : Inv w -> closing w = Some c -> (c = ByUser -> busy w = Idle) ->
  safe (closed c rc init ∅) w (fun _ w' => Inv w').
Proof.
  intros [(H1 & H2 & H3 & H4) Ha] Ecl Hb. rewrite Ecl in H3. destruct H3 as (Eh & Ec & Hw).
  assert (busy w = Idle \/ busy w = InClose) as Hb' by (destruct c; auto; done).
  assert (forall p, role_of (busy w) p = RNone) as Hn by (by intros p; destruct Hb' as [-> | ->]).
  assert (forall p, at_ (mkWorld (zk w) (heap w) (next w) ∅ ∅ (busy w) None (calls w)) p) as Ha'.
  { intros p. unfold at_. fields. rewrite !in_empty, Hn, Ec. by apply at_forgotten. }
  unfold closed. steps. rewrite !(right_absorb_L ∅ (∩)). destruct c; [| | |done].
  - steps. unfold Reconnect_rest. steps. unfold ReconnectNolock. steps. apply safe_assert; [by rewrite Eh|]. steps.
    assert (forall b, Inv (mkWorld (mkZooKeeper (_pending (zk w)) true 0 (_hosts (zk w)) b false (_timeout (zk w)))
      (heap w) (next w) ∅ ∅ Idle None (calls w))) as HI.
    { intros b. split.
      - unfold glob. fields. split_and!; done.
      - intros p. specialize (Ha' p). unfold at_, good in *. fields. revert Ha'. fields. rewrite !in_empty, Hn, Ec.
        destruct (heap w !! p); [|done]. intros (A1 & A2 & A3 & A4 & A5 & A6 & A7 & A8 & A9 & A10). split_and!; auto. }
    destruct (_ || _); [steps; rewrite Eh; apply HI|]. destruct (negb _); steps; [rewrite Eh|]; apply HI.
  - steps. eapply safe_mono; [by apply Shutdown_rest_safe|]. intros a w' [_ HI]. by steps.
  - steps. eapply safe_mono; [by apply Shutdown_rest_safe|]. intros a w' [Eb HI]. steps. cbn in Eb. rewrite Hb in Eb by done.
    destruct w'. cbn in *. by rewrite <- Eb in HI.
Qed.

(** The pendings of the old session go over to ResumeSession. *)
Lemma OnConnected_safe cid w : Inv w -> busy w = Idle -> _handle (zk w) || is_some (closing w) = true -> is_some cid = true ->
  safe (OnConnected cid) w (fun _ w' => Inv w').
Proof.
  intros HI Hb Ho Hcid. pose proof HI as [(H1 & H2 & H3 & H4) Ha]. destruct cid as [id|]; [|done]. unfold OnConnected. steps.
  destruct (_handle (zk w)) eqn:Eh; cbn [negb].
  2: { destruct (closing w) as [c|]; [|done]. destruct H3 as (_ & Ec & _). steps. by apply safe_assert. }
  destruct (H2 eq_refl) as [Ec Ecl]. steps. destruct (_resuming (zk w)) eqn:Er.
  2: { steps. destruct w as [[]]. cbn in *. subst. exact HI. }
  steps. assert (forall p, at_ w p) as Ha' by done.
  assert (forall b, glob w -> (match b with Idle => True | InResume todo all => NoDup all /\ (forall p, p ∈ todo -> p ∈ all) | _ => False end) ->
    (forall p, role_of b p = RResume <-> p ∈ _pending (zk w)) ->
    Inv (mkWorld (mkZooKeeper ∅ false id (_hosts (zk w)) true (_connecting (zk w)) (_timeout (zk w)))
           (heap w) (next w) (requests w) (watches w) b (closing w) (calls w))) as HR.
  { intros b (G1 & _) Hbb Hrole. split.
    - unfold glob. fields. rewrite Ec, Ecl. split_and!; try done; destruct b; naive_solver.
    - intros p. specialize (Ha p). unfold at_, good in *. fields. rewrite in_empty. rewrite Hb, Er in Ha. cbn [role_of] in Ha.
      destruct (heap w !! p) as [x|].
      + destruct Ha as (A1 & A2 & A3 & A4 & A5 & A6 & A7 & A8 & A9 & A10). destruct (A9 eq_refl) as [-> ->].
        specialize (A3 ltac:(done)). apply bool_decide_eq_true_1 in A3. apply Hrole in A3. rewrite A3. split_and!; done.
      + destruct Ha as (A1 & -> & -> & _). split_and!; try done. apply bool_decide_eq_false_1 in A1. rewrite <- Hrole in A1.
        destruct b; try done. cbn in *. by destruct (decide _). }
  case_bool_decide as Hp; steps.
  - rewrite Hp, Eh. apply HR.
    + apply HI.
    + by rewrite Hb.
    + intros p. rewrite Hb, Hp. cbn. split; [done|set_solver].
  - rewrite Eh. apply HR.
    + apply HI.
    + split; [apply NoDup_elements|done].
    + intros p. cbn. destruct (decide _) as [H|H]; rewrite elem_of_elements in H; done.
Qed.

Lemma OnSession_safe state cid init w : Inv w -> busy w = Idle -> _handle (zk w) || is_some (closing w) = true ->
  is_some cid = true -> safe (OnSession state cid init) w (fun _ w' => Inv w').
Proof.
  intros HI Hb Ho Hc. unfold OnSession. destruct ((state =? ZOO_CONNECTING_STATE) || _); [by steps|]. destruct (state =? _); [by apply OnConnected_safe|].
  destruct (state =? _).
  - step. eapply safe_mono; [by apply Reconnect_safe|]. intros a w' H. by steps.
  - destruct (state =? _); [|by steps]. step. eapply safe_mono; [apply Shutdown_safe; auto|]. intros a w' H. by steps.
Qed.

(** A round of ResumeSession asks again, or calls the watcher. *)
Lemma resume_safe p status rc w : Inv w -> _resuming (zk w) = false -> (exists x, heap w !! p = Some x) ->
  safe (resume p status rc) w (fun _ w' => Inv w' /\ busy w' = busy w).
Proof.
  intros HI Hr [x Hx]. pose proof (proj2 HI p) as Ha. unfold at_, good in Ha. rewrite Hx in Ha. destruct Ha as (A1 & _).
  unfold resume. step. eapply safe_deref; [exact Hx|]. destruct (is_none (zkc x) && _) eqn:En; [by steps|].
  assert (forall type o failed, three o -> safe (
    assert_ (is_some (zkc x) || is_some (zkw x)) ;;;
    match zkc x with
    | None => calls_ (OnEvent (default 0 (zkw x)) type status (path x))
    | Some c =>
        let* r := Async o rc (Some (path x)) (zkc x) (zkw x) in
        if r =? ZOK then ret tt else calls_ (failed c ZSESSIONEXPIRED (path x))
    end) w (fun _ w' => Inv w' /\ busy w' = busy w)) as H.
  { intros type o failed Ho. step. apply safe_assert.
    - destruct (zkc x); [done|]. cbn in En. destruct (zkw x); [done|discriminate En].
    - destruct (zkc x) as [c|] eqn:Ec; [|by steps]. step. eapply safe_mono.
      + apply Async_safe; [done|done|done|]. by rewrite Hr.
      + intros r w' [HI' [Hb _]]. destruct (r =? ZOK); by steps. }
  destruct A1 as [E|[E|E]]; rewrite E; apply H; unfold three; auto.
Qed.

Lemma ResumeSession_safe todo all status rc w : Inv w -> busy w = InResume todo all ->
  safe (ResumeSession todo all status rc) w (fun _ w' => Inv w').
Proof.
  intros HI Hb. pose proof HI as [(H1 & H2 & H3 & H4) Ha]. rewrite Hb in H4. destruct H4 as (Hnd & Hsub & Hr).
  assert (forall p, p ∈ all -> role_of (busy w) p = RResume) as Hrole by (intros p Hp; rewrite Hb; cbn; by rewrite decide_True).
  assert (forall p, p ∈ all -> exists x, heap w !! p = Some x) as Hx.
  { intros p Hp. apply at_alive; [apply Ha|]. right; right; right. by rewrite Hrole. }
  destruct todo as [|p todo]; cbn [ResumeSession]; step.
  - eapply free_all_safe; [done|intros p Hp; destruct (Hx p Hp) as [x E]; by rewrite E|]. steps. split.
    + unfold glob. fields. split_and!; try done.
      * intros p Hp. rewrite without_lookup. destruct (decide _); [done|by apply H1].
      * rewrite Hb in H3. destruct (closing w) as [[]|]; try done; destruct H3 as (? & ? & ?); by split_and!.
    + intros p. specialize (Ha p). unfold at_, good in *. fields. rewrite without_lookup. destruct (decide (p ∈ all)) as [Hp|Hp].
      * destruct (Hx p Hp) as [x E]. rewrite E, (Hrole p Hp) in Ha. destruct Ha as (_ & A2 & _). by destruct (A2 eq_refl) as (-> & -> & ->).
      * rewrite Hb in Ha. cbn [role_of] in *. rewrite decide_False in Ha by done. done.
  - eapply safe_mono; [apply (resume_safe p status rc w); [done|done|apply Hx, Hsub; by left]|].
    intros a w' [[(G1 & G2 & G3 & G4) Ha'] Eb]. rewrite Eb, Hb in *. steps. split.
    + unfold glob. fields. split_and!; try done.
      * destruct (closing w') as [[]|]; try done; destruct G3 as (? & ? & ?); by split_and!.
      * intros q Hq. apply G4. by right.
      * apply G4.
    + intros q. specialize (Ha' q). unfold at_ in *. rewrite Eb in Ha'. exact Ha'.
Qed.

(** ** Runs *)

(** The rules for users: a request has a callback; while a session is being
    resumed, new requests are refused; Detach is for watchers only; a callback
    does not call Shutdown.  And the library knows its client id. *)
Definition polite (w : world) (e : event) : Prop :=
  match e with
  | EShutdown inside => inside = false
  | EAsync _ rc _ zkc _ => is_some zkc = true /\ (_resuming (zk w) = true -> rc <> ZOK)
  | EWatched _ rc _ _ => _resuming (zk w) = true -> rc <> ZOK /\ rc <> ZNONODE
  | EDetach _ zkc => zkc = None
  | ESession _ cid _ => is_some cid = true
  | _ => True
  end.

(** What the code relies on the client library for: zookeeper_close frees the
    resources of the handle (zookeeper.h), so that behind it no request of the
    handle is answered and no watch of it fires. *)
Definition closes (e : event) : Prop :=
  match e with EClosed _ _ kept => kept = ∅ | _ => True end.

Lemma exec_safe e w : Inv w -> polite w e -> closes e -> safe (exec e) w (fun _ w' => Inv w').
Proof.
  intros HI Hp Hcl. unfold exec. steps. unfold id.
  assert (forall A (m : M A), safe m w (fun _ w' => Inv w') -> safe (m ;;; ret tt) w (fun _ w' => Inv w')) as Hret.
  { intros A m H. step. eapply safe_mono; [exact H|]. intros a w' H'. by steps. }
  destruct e as [init hosts timeout|inside|o rc path c watcher|o rc path watcher|z c|p rc|p type state|state cid init|status rc|rc init kept];
    cbn in Hp, Hcl.
  - by apply Hret, Initialize_safe.
  - subst inside. cbn [andb]. apply Hret, Shutdown_safe; auto.
  - destruct Hp as [Hc Hr].
    assert (forall o, three o -> safe (Async o rc path c watcher) w (fun _ w' => Inv w')) as H.
    { intros o' Ho. eapply safe_mono; [by apply Async_safe|]. by intros a w' []. }
    destruct o; try (by steps); apply Hret, H; unfold three; auto.
  - assert (forall o g, three o -> (_resuming (zk w) = true -> g rc = false) -> safe (Watch o g rc path watcher) w (fun _ w' => Inv w')) as H
      by (intros; by apply Watch_safe).
    destruct o; try (by steps); (apply Hret, H; [unfold three; auto|intros Hr; destruct (Hp Hr); lia]).
  - subst c. by apply Detach_safe.
  - destruct (busy w) eqn:Hb; try by steps. cbn [is_idle andb]. case_bool_decide; [by apply complete_safe|by steps].
  - destruct (busy w) eqn:Hb; try by steps. cbn [is_idle andb]. case_bool_decide; [by apply GlobalWatcher_safe|by steps].
  - destruct (busy w) eqn:Hb; try by steps. cbn [is_idle andb]. destruct (_ || _) eqn:Ho; [by apply OnSession_safe|by steps].
  - destruct (busy w) eqn:Hb; try by steps.
    + destruct HI as [(G1 & G2 & G3 & G4) G5]. pose proof G4 as G4'. rewrite Hb in G4'. subst void. apply completed_safe; [by split_and!|done].
    + by apply watched_safe.
    + by apply ResumeSession_safe.
  - subst kept. destruct (closing w) as [c|] eqn:Ec; [|by steps]. destruct c; try by apply closed_safe.
    + destruct (busy w) eqn:Hb; try by steps. by apply closed_safe.
Qed.

Fixpoint polite_run (l : list event) (w : world) : Prop :=
  match l with
  | [] => True
  | e :: l => polite w e /\ match exec e w with (Ok _, w) => polite_run l w | _ => True end
  end.

Lemma run_safe l w : Inv w -> polite_run l w -> Forall closes l -> exists w', run_events l w = Ok w' /\ Inv w'.
Proof.
  revert w. induction l as [|e l IH]; intros w HI Hp Hcl; cbn [run_events polite_run] in *; [by exists w|].
  destruct Hp as [He Hl]. apply Forall_cons in Hcl as [Hc Hcl].
  pose proof (exec_safe e w HI He Hc) as H. unfold safe, ends in H. destruct (exec e w) as [[a|x] w1]; [|done]. by apply IH.
Qed.

Lemma zookeeper_start : Inv start.
Proof.
  split.
  - unfold glob. cbn. split_and!; try done.
  - intros p. unfold at_, good. cbn. by rewrite lookup_empty.
Qed.

(** C32: as long as its users keep the rules and zookeeper_close frees what it
    should, whatever the library answers, in whatever order the threads run,
    no assertion fails and no pending is used or deleted after it was deleted;
    the pendings that the library or the code still refers to are alive, and no
    others are; and while there is a handle (none is being closed, and
    zookeeper_init did not fail) whose session is not waiting to be resumed,
    whoever waits for an answer has a request with the library, or is being
    answered now.  Without one that may fail: [zookeeper_forgotten]. *)
Theorem zookeeper_safe (l : list event) : polite_run l start -> Forall closes l ->
  exists w, run_events l start = Ok w /\
    (forall p, p ∈ _pending (zk w) \/ p ∈ requests w \/ p ∈ watches w -> exists x, heap w !! p = Some x) /\
    (forall p x, heap w !! p = Some x -> p ∈ _pending (zk w) \/ exists todo all, busy w = InResume todo all /\ p ∈ all) /\
    (_handle (zk w) = true -> _resuming (zk w) = false -> forall p x c, p ∈ _pending (zk w) ->
       heap w !! p = Some x -> zkc x = Some c -> p ∈ requests w \/ busy w = InCallback p false).
Proof.
  intros Hp Hcl. destruct (run_safe l start zookeeper_start Hp Hcl) as (w & Hr & [(H1 & H2 & H3 & H4) Ha]). exists w. split; [done|]. split_and!.
  - intros p H. apply at_alive; [apply Ha|tauto].
  - intros p x Hx. specialize (Ha p). unfold at_, good in Ha. rewrite Hx in Ha. destruct Ha as (_ & _ & A3 & _).
    destruct (bool_decide (p ∈ _pending (zk w))) eqn:E; [left; by apply bool_decide_eq_true_1 in E|right]. apply role_resume.
    destruct (role_of (busy w) p); try done; by discriminate A3.
  - intros Hh Hres p x c Hin Hx Hc. specialize (Ha p). unfold at_, good in Ha.
    rewrite Hx, (bool_decide_eq_true_2 (p ∈ _pending (zk w))) in Ha by done.
    destruct Ha as (_ & _ & _ & _ & _ & _ & _ & _ & _ & A10). destruct (A10 eq_refl) as [A|[A|[A|A]]].
    + by rewrite Hc.
    + left. by apply bool_decide_eq_true_1 in A.
    + right. apply role_called in A as [v Hb]. rewrite Hb in H4. by subst.
    + congruence.
    + destruct (H2 Hh). congruence.
Qed.

(** ** Concrete runs *)

(** A session is opened. *)
Definition demo_session : list event := [EInitialize ZOK (B "h:1") 10; ESession ZOO_CONNECTED_STATE (Some 1) ZOK].

(** The session expires, and a new one begins. *)
Definition demo_expired : list event := [ESession ZOO_EXPIRED_SESSION_STATE (Some 1) ZOK; EClosed ZOK ZOK ∅].

(** A node is read and its watch fires; another request is on its way when the
    session expires: it is made again, answered, and its object is gone. *)
Definition demo_run : list event :=
  demo_session ++
  [EAsync OP_GET ZOK (Some (B "/a")) (Some 1) (Some 2); ECompletion 0 ZOK; EContinue 0 0;
   EWatch 0 ZOO_CHANGED_EVENT ZOO_CONNECTED_STATE; EContinue 0 0;
   EAsync OP_EXISTS ZOK (Some (B "/b")) (Some 1) None] ++ demo_expired ++
  [ESession ZOO_CONNECTED_STATE (Some 2) ZOK; EContinue ZOO_CONNECTED_STATE ZOK; EContinue 0 0;
   ECompletion 2 ZOK; EContinue 0 0].

Lemma zookeeper_safe_witness :
  run_events demo_run start =
    Ok (mkWorld (mkZooKeeper ∅ false 2 (B "h:1") true false 10) ∅ 3 ∅ ∅ Idle None
          [OnGet 1 ZOK (B "/a"); OnEvent 2 ZOO_CHANGED_EVENT ZOO_CONNECTED_STATE (B "/a"); OnExists 1 ZOK (B "/b")]) /\
  exists w, run_events demo_run start = Ok w.
Proof.
  split; [vm_compute; reflexivity|]. destruct (zookeeper_safe demo_run) as (w & Hr & _); [| |by exists w].
  - vm_compute. repeat split; discriminate.
  - repeat constructor.
Defined.

(** The session expires while a request is on its way and no new handle can be
    opened: the one who waits is not told, has no request, and Shutdown does
    not clean up either. *)
Example zookeeper_forgotten :
  let l := demo_session ++
    [EAsync OP_GET ZOK (Some (B "/a")) (Some 1) None; ESession ZOO_EXPIRED_SESSION_STATE (Some 1) ZOK; EClosed ZOK 12 ∅;
     EShutdown false] in
  polite_run l start /\ exists w, run_events l start = Ok w /\
    heap w !! 0%nat = Some (mkPending OP_GET (B "/a") None (Some 1) false) /\
    _pending (zk w) = {[0%nat]} /\ _handle (zk w) = false /\ closing w = None /\ requests w = ∅ /\ calls w = [].
Proof.
  split; [vm_compute; repeat split; discriminate|]. eexists. split; [vm_compute; reflexivity|]. by split_and!.
Qed.

(** Why there are rules.  A request that the library takes while the
    session is being resumed is made twice and its object deleted under the
    library; the failure of a request with a watcher only, and the answer to a
    request whose callback was detached, fail an assertion; a callback that
    shuts the handle down leaves its own object to be used; and so does a
    library that answers a request of a handle which it has closed.  And if
    zookeeper_close fails, Shutdown leaves the object as if it were connecting:
    Initialize returns ZOK and does nothing. *)
Theorem zookeeper_rules :
  run_events (demo_session ++ demo_expired ++
    [EAsync OP_GET ZOK (Some (B "/a")) (Some 1) None; ESession ZOO_CONNECTED_STATE (Some 2) ZOK;
     EContinue ZOO_CONNECTED_STATE ZOK; EContinue 0 0; ECompletion 0 ZOK]) start = Err undefined_behaviour /\
  run_events (demo_session ++
    [EAsync OP_GET ZOK (Some (B "/a")) None (Some 2); ECompletion 0 ZNONODE]) start = Err assertion_failed /\
  run_events (demo_session ++
    [EAsync OP_GET ZOK (Some (B "/a")) (Some 1) None; EDetach None (Some 1); ECompletion 0 ZOK]) start = Err assertion_failed /\
  run_events (demo_session ++
    [EAsync OP_GET ZOK (Some (B "/a")) (Some 1) None; ECompletion 0 ZOK; EShutdown true; EClosed ZOK ZOK ∅; EContinue 0 0]) start
    = Err undefined_behaviour /\
  run_events (demo_session ++
    [EAsync OP_GET ZOK (Some (B "/a")) (Some 1) None; ESession ZOO_EXPIRED_SESSION_STATE (Some 1) ZOK; EClosed ZOK ZOK {[0%nat]};
     ESession ZOO_CONNECTED_STATE (Some 2) ZOK; EContinue ZOO_CONNECTED_STATE ZOK; EContinue 0 0; ECompletion 0 ZOK]) start
    = Err undefined_behaviour /\
  (forall init hosts timeout w, run_events (demo_session ++ [EShutdown false; EClosed 1 ZOK ∅]) start = Ok w ->
     Initialize init hosts timeout w = (Ok ZOK, w) /\ _handle (zk w) = false).
Proof.
  repeat split; try by vm_compute.
  - revert H. vm_compute. by intros [= <-].
  - revert H. vm_compute. by intros [= <-].
Qed.
