(* ===== verification/ZooKeeperOps.v ===== *)
(** * The synchronous calls: zookeeper/zookeeper.cpp

    What the blocking methods check before they call the library, and what they
    make of its answer.  The library's functions are arguments. *)

From S2P Require Import Prelude Libc StdMap ZooKeeper.

Definition state (z : ZooKeeper) (zoo_state : Z) : Z := if _handle z then zoo_state else ZINVALIDSTATE.

Definition is_connected (z : ZooKeeper) (zoo_state : Z) : Z :=
  let s := state z zoo_state in
  if s =? ZOO_CONNECTED_STATE then 0 else if s =? ZOO_AUTH_FAILED_STATE then -1 else 1.

(** WaitUntilConnected: [answers] are the states that it sees, each with the
    time after its nap; [None], it waits on. *)
Fixpoint WaitUntilConnected_loop (z : ZooKeeper) (deadline : Z) (answers : list (Z * Z)) : option bool :=
  match answers with
  | [] => None
  | (zoo_state, now) :: answers =>
      let s := state z zoo_state in
      if s =? ZOO_CONNECTED_STATE then Some true
      else if s =? ZOO_AUTH_FAILED_STATE then Some false
      else if (0 <=? deadline) && (deadline <=? now) then Some false
      else WaitUntilConnected_loop z deadline answers
  end.

Definition WaitUntilConnected (z : ZooKeeper) (timeout now : Z) (answers : list (Z * Z)) : option bool :=
  WaitUntilConnected_loop z (if 0 <=? timeout then now + timeout else -1) answers.

Definition Set_ (z : ZooKeeper) (path : option bytes) (data : bytes) (zoo_set : Z) : Z :=
  if bad_path path then ZBADARGUMENTS
  else if INT_MAX <? zlen data then ZBADARGUMENTS
  else if negb (_handle z) then ZINVALIDSTATE
  else zoo_set.

Definition Erase (z : ZooKeeper) (path : option bytes) (zoo_delete : Z) : Z :=
  if bad_path path then ZBADARGUMENTS else if negb (_handle z) then ZINVALIDSTATE else zoo_delete.

(** *** Get with a buffer

    [zoo_get], given the size of the buffer: the error, the length that it
    stores and the bytes that it writes. *)

Definition NULs (n : Z) : bytes := repeat NUL (Z.to_nat n).

(** s.resize(n) *)
Definition resize (s : bytes) (n : Z) : bytes := take (Z.to_nat n) s ++ NULs (n - zlen s).

Definition Get_data (z : ZooKeeper) (path : option bytes) (data : option bytes) (zoo_get : Z -> Z * Z * bytes)
  : Z * option bytes :=
  if bad_path path then (ZBADARGUMENTS, data)
  else
    let data := match data with Some [] => Some (NULs 1024) | d => d end in
    let length := match data with Some d => Z.min (zlen d) INT_MAX | None => 0 end in
    if negb (_handle z) then (ZINVALIDSTATE, data)
    else
      let '(error, length, written) := zoo_get length in
      (error,
       match data with
       | None => None
       | Some d => if length <? 0 then Some [] else Some (resize (written ++ drop (List.length written) d) length)
       end).

(** GetChildren: the list is left alone when there is an error. *)
Definition GetChildren_list (z : ZooKeeper) (path : option bytes) (children : option (list bytes))
    (zoo_get_children : Z * list bytes) : Z * option (list bytes) :=
  if bad_path path then (ZBADARGUMENTS, children)
  else if negb (_handle z) then (ZINVALIDSTATE, children)
  else
    let '(error, strings) := zoo_get_children in
    if negb (error =? ZOK) then (error, children)
    else match children with None => (ZOK, None) | Some _ => (ZOK, Some strings) end.

(** *** Access control lists *)

(** std::pair: the first, then the second. *)
Definition pair_lt (a b : bytes * bytes) : bool := bytes_lt a.1 b.1 || (bool_decide (a.1 = b.1) && bytes_lt a.2 b.2).

#[export, refine] Instance pair_ordered : Ordered (bytes * bytes) := {| lt := pair_lt |}.
Proof.
  - intros [a b]. unfold pair_lt. cbn [fst snd]. change bytes_lt with (lt (K := bytes)). by rewrite !lt_irrefl, andb_false_r.
  - intros [a1 a2] [b1 b2] [c1 c2]. unfold pair_lt. cbn [fst snd]. change bytes_lt with (lt (K := bytes)).
    rewrite !orb_true_iff, !andb_true_iff, !bool_decide_eq_true.
    intros [H1|[-> H1]] [H2|[-> H2]]; [left; by eapply lt_trans|by left..|right; split; [done|by eapply lt_trans]].
  - intros [a1 a2] [b1 b2]. unfold pair_lt. cbn [fst snd]. change bytes_lt with (lt (K := bytes)).
    rewrite !orb_false_iff, !andb_false_iff, !bool_decide_eq_false.
    intros [H1 H2] [H3 H4]. assert (a1 = b1) as -> by by apply lt_total. f_equal.
    destruct H2, H4; try done. by apply lt_total.
Defined.

Abbreviation Acl := (list (bytes * bytes * Z)).

Definition ACL_ANYONE_OPEN : Acl := [(B "world", B "anyone", 31)].
Definition ACL_ANYONE_READ : Acl := [(B "world", B "anyone", 1)].

(** Into a vector of permissions, schemes and ids: strdup copies C strings. *)
Definition Translate (acl : Acl) : list (Z * bytes * bytes) :=
  map (fun a => (a.2, c_str a.1.1, c_str a.1.2)) acl.

Fixpoint Translate_back_loop (v : list (Z * bytes * bytes)) (acl : Acl) : Acl :=
  match v with
  | [] => acl
  | (perms, scheme, id) :: v =>
      let i := (scheme, id) in
      Translate_back_loop v
        match find i acl with
        | Some p => assign i (Z.lor p perms) acl
        | None => insert i perms acl
        end
  end.

Definition Translate_back (v : list (Z * bytes * bytes)) : Acl := Translate_back_loop v [].

Definition GetAcl (z : ZooKeeper) (path : option bytes) (acl : option Acl) (zoo_get_acl : Z * list (Z * bytes * bytes))
  : Z * option Acl :=
  if bad_path path then (ZBADARGUMENTS, acl)
  else
    match acl with
    | None => (ZBADARGUMENTS, acl)
    | Some _ =>
        if negb (_handle z) then (ZINVALIDSTATE, acl)
        else
          let '(error, v) := zoo_get_acl in
          if negb (error =? ZOK) then (error, acl) else (ZOK, Some (Translate_back v))
    end.

Definition SetAcl (z : ZooKeeper) (path : option bytes) (acl : Acl) (zoo_set_acl : list (Z * bytes * bytes) -> Z) : Z :=
  if bad_path path then ZBADARGUMENTS
  else if negb (_handle z) then ZINVALIDSTATE
  else zoo_set_acl (Translate acl).

Definition ZOO_EPHEMERAL : Z := 1.
Definition ZOO_SEQUENCE : Z := 2.

(** Create: the error, and the path that was made of it. *)
Definition Create (z : ZooKeeper) (path data actual_path : option bytes) (ephemeral sequence : bool) (acl : Acl)
    (zoo_create : bytes -> bytes -> list (Z * bytes * bytes) -> Z -> Z * bytes) : Z * option bytes :=
  if bad_path path then (ZBADARGUMENTS, actual_path)
  else
    match path, data with
    | Some path, Some data =>
        let plen := zlen (c_str path) in
        if INT_MAX - 16 <? plen then (ZBADARGUMENTS, actual_path)
        else if INT_MAX <? zlen (c_str data) then (ZBADARGUMENTS, actual_path)
        else if negb (_handle z) then (ZINVALIDSTATE, actual_path)
        else
          let flags := Z.lor (if ephemeral then ZOO_EPHEMERAL else 0) (if sequence then ZOO_SEQUENCE else 0) in
          let '(error, actual) := zoo_create (c_str path) (c_str data) (Translate acl) flags in
          if negb (error =? ZOK) then (error, actual_path)
          else (ZOK, match actual_path with Some _ => Some (c_str actual) | None => None end)
    | _, _ => (ZBADARGUMENTS, actual_path)
    end.

(** ** Theorems *)

(** A text without NUL. *)
Definition plain_text (s : bytes) : Prop := NUL ∉ s.

Lemma Translate_back_insert v acl : sorted acl -> NoDup (map (fun a => (a.1.2, a.2)) v) ->
  (forall a, a ∈ v -> (a.1.2, a.2) ∉ keys acl) ->
  sorted (Translate_back_loop v acl) /\ Translate_back_loop v acl ≡ₚ acl ++ map (fun a => (a.1.2, a.2, a.1.1)) v.
Proof.
  revert acl. induction v as [|[[perms scheme] id] v IH]; intros acl Hs Hn Ha; cbn [Translate_back_loop map] in *.
  - by rewrite app_nil_r.
  - apply NoDup_cons in Hn as [Hnin Hn]. cbn in Hnin. pose proof (Ha (perms, scheme, id) (list_elem_of_here _ _)) as Hk. cbn in Hk.
    rewrite (proj2 (find_none _ _) Hk). destruct (IH (insert (scheme, id) perms acl)) as [IHs IHp]; [by apply insert_sorted|done| |].
    + intros a Hin. unfold keys. rewrite insert_permutation. cbn. rewrite not_elem_of_cons. split.
      * intros E. apply Hnin. rewrite <- E. apply list_elem_of_fmap. by exists a.
      * apply Ha. by right.
    + split; [done|]. rewrite IHp, insert_permutation. cbn. by rewrite Permutation_middle.
Qed.

(** Sorted maps with the same elements are the same. *)
Lemma sorted_unique {K V} `{Ordered K} (m m' : list (K * V)) : sorted m -> sorted m' -> m ≡ₚ m' -> m = m'.
Proof.
  revert m'. induction m as [|[a v] m IH]; intros [|[b w] m'] Hs Hs' Hp; try done.
  - by apply Permutation_nil_l in Hp.
  - symmetry in Hp. by apply Permutation_nil_l in Hp.
  - pose proof (sorted_cons_inv _ _ _ Hs) as [Hm Ha]. pose proof (sorted_cons_inv _ _ _ Hs') as [Hm' Hb].
    rewrite Forall_forall in Ha, Hb. assert ((a, v) = (b, w)) as E.
    { assert ((a, v) ∈ (b, w) :: m') as H1 by (rewrite <- Hp; left).
      assert ((b, w) ∈ (a, v) :: m) as H2 by (rewrite Hp; left).
      apply elem_of_cons in H1 as [H1|H1]; [done|]. apply elem_of_cons in H2 as [H2|H2]; [done|].
      pose proof (lt_trans _ _ _ (Ha _ (in_keys _ _ _ H2)) (Hb _ (in_keys _ _ _ H1))) as Hl. by rewrite lt_irrefl in Hl. }
    injection E as -> ->. f_equal. apply IH; [done..|]. by apply Permutation_cons_inv in Hp.
Qed.

Lemma c_str_plain s : plain_text s -> c_str s = s.
Proof.
  unfold plain_text. induction s as [|c s IH]; intros H; [done|]. apply not_elem_of_cons in H as [Hc Hs]. cbn.
  rewrite bool_decide_eq_false_2 by congruence. by rewrite IH.
Qed.

Lemma sorted_keys_NoDup {K V} `{Ordered K} (m : list (K * V)) : sorted m -> NoDup (keys m).
Proof.
  induction m as [|[a v] m IH]; intros Hs; [constructor|]. cbn. constructor; [by eapply sorted_notin|].
  apply IH. by apply sorted_cons_inv in Hs as [].
Qed.

(** An access control list without NULs in its names is read back as it was
    set. *)
Theorem zookeeper_acl_roundtrip (acl : Acl) : sorted acl -> Forall (fun a => plain_text a.1.1 /\ plain_text a.1.2) acl ->
  Translate_back (Translate acl) = acl.
Proof.
  intros Hs Hp. set (turn := fun a : bytes * bytes * Z => (a.2, a.1.1, a.1.2)).
  assert (Translate acl = map turn acl) as ->.
  { clear Hs. unfold Translate. induction Hp as [|[[s i] p] acl [H1 H2] _ IH]; [done|]. cbn [map]. rewrite IH. unfold turn at 1.
    cbn [fst snd] in *. by rewrite !c_str_plain. }
  assert (map (fun a : Z * bytes * bytes => (a.1.2, a.2)) (map turn acl) = keys acl) as Ek.
  { rewrite map_map. apply map_ext. by intros [[s i] p]. }
  assert (map (fun a : Z * bytes * bytes => (a.1.2, a.2, a.1.1)) (map turn acl) = acl) as Ea.
  { rewrite map_map. rewrite <- (map_id acl) at 2. apply map_ext. by intros [[s i] p]. }
  destruct (Translate_back_insert (map turn acl) []) as [H1 H2].
  - constructor.
  - rewrite Ek. by apply sorted_keys_NoDup.
  - intros a _ H. by apply elem_of_nil in H.
  - apply sorted_unique; [done|done|]. unfold Translate_back. by rewrite H2, app_nil_l, Ea.
Qed.

(** Get into an empty text reads at most 1024 bytes, whatever the node has;
    without a handle the text is 1024 NULs. *)
Lemma zookeeper_Get_truncates (z : ZooKeeper) (path v : bytes) : hd NUL path = "/"%char ->
  Get_data z (Some path) (Some []) (fun size => (ZOK, Z.min size (zlen v), take (Z.to_nat size) v)) =
    if _handle z then (ZOK, Some (take 1024 v)) else (ZINVALIDSTATE, Some (NULs 1024)).
Proof.
  intros Hp. unfold Get_data, bad_path. rewrite bool_decide_eq_true_2 by done. cbn [negb].
  destruct (_handle z); cbn [negb]; [|done]. change (Z.min (zlen (NULs 1024)) INT_MAX) with 1024.
  destruct (Z.ltb_spec (Z.min 1024 (zlen v)) 0) as [H|_]; [unfold zlen in H; lia|]. do 2 f_equal. unfold resize.
  set (r := drop _ (NULs 1024)). assert (length (take (Z.to_nat 1024) v ++ r) >= Z.to_nat (Z.min 1024 (zlen v)))%nat as Hl
    by (rewrite length_app, length_take; unfold zlen; lia).
  replace (NULs _) with ([] : bytes).
  - rewrite app_nil_r, take_app_le.
    + rewrite take_take. unfold zlen. destruct (Nat.le_gt_cases 1024 (length v)); [f_equal; lia|by rewrite !take_ge by lia].
    + rewrite length_take. unfold zlen. lia.
  - unfold NULs. by replace (Z.to_nat (_ - _)) with O by (unfold zlen at 2; lia).
Qed.
