(* ===== verification/ZooKeeperTracker.v ===== *)
(** * Tracking nodes of ZooKeeper: zookeeper/zookeeper_tracker.cpp

    Callbacks are attached to paths; the tracker keeps requests and watches on
    these paths and calls back with what they bring.  Each handler holds the
    mutex while it changes the tracker and calls back after it released it,
    so that a handler is one step: the tracker afterwards, the requests that
    it made and the calls.

    [world] adds the server's side: the requests that are not answered yet and
    the watches that are set, with the documented behaviour of ZooKeeper. *)

From stdpp Require Import strings.
From S2P Require Import Prelude Libc StdMap ZooKeeper.

(** ** The tracker *)

(** A callback object is a number. *)
Record Tracker : Type := mkTracker {
  cb : Z;
  data : bool;
  children : bool;
  cancel_on_missing : bool;
  null : bool
}.

Record ZooKeeperTracker : Type := mkZkt {
  _zk : bool; (** initialized *)
  _tracks : list (bytes * Tracker);
  _exists : gset bytes;
  _data : gset bytes;
  _children : gset bytes;
  _error_has_broadcasted : bool
}.

Definition ZooKeeperTracker_new : ZooKeeperTracker := mkZkt false [] ∅ ∅ ∅ false.

Inductive request : Type := AsyncExists | AsyncGet | AsyncGetChildren.

#[export] Instance request_eq_dec : EqDecision request.
Proof. solve_decision. Defined.

(** The calls of the callbacks. *)
Inductive call : Type :=
| OnError (cb : Z) (error : Z) (path : option bytes)
| OnData (cb : Z) (path : bytes) (data : option bytes)
| OnChildren (cb : Z) (path : bytes) (children : option (list bytes)).

(** The handle during a step: its state, and what its methods return. *)
Record handle : Type := mkHandle { state : Z; async : request -> bytes -> Z }.

(** equal_range(path) *)
Definition range (path : bytes) (tracks : list (bytes * Tracker)) : list Tracker :=
  map snd (filter (fun e => e.1 = path) tracks).

(** A set of callbacks, visited in order. *)
Fixpoint callbacks (l : list Z) : list (Z * unit) :=
  match l with
  | [] => []
  | c :: l => let s := callbacks l in match find c s with Some _ => s | None => insert c tt s end
  end.

Definition callback_set (l : list Z) : list Z := map fst (callbacks l).

Definition NotifyNull (tracks : list (bytes * Tracker)) (path : bytes) : list call :=
  let r := range path tracks in
  map (fun c => OnData c path None) (callback_set (map cb (filter (fun t => data t = true) r)))
  ++ map (fun c => OnChildren c path None) (callback_set (map cb (filter (fun t => children t = true) r))).

Definition NotifyError (tracks : list (bytes * Tracker)) (path : bytes) (error : Z) : list call :=
  map (fun c => OnError c error (Some path)) (callback_set (map cb (range path tracks))).

Definition set_exists (s : gset bytes) (z : ZooKeeperTracker) : ZooKeeperTracker :=
  mkZkt (_zk z) (_tracks z) s (_data z) (_children z) (_error_has_broadcasted z).
Definition set_data (s : gset bytes) (z : ZooKeeperTracker) : ZooKeeperTracker :=
  mkZkt (_zk z) (_tracks z) (_exists z) s (_children z) (_error_has_broadcasted z).
Definition set_children (s : gset bytes) (z : ZooKeeperTracker) : ZooKeeperTracker :=
  mkZkt (_zk z) (_tracks z) (_exists z) (_data z) s (_error_has_broadcasted z).
Definition set_tracks (l : list (bytes * Tracker)) (z : ZooKeeperTracker) : ZooKeeperTracker :=
  mkZkt (_zk z) l (_exists z) (_data z) (_children z) (_error_has_broadcasted z).
Definition set_broadcasted (b : bool) (z : ZooKeeperTracker) : ZooKeeperTracker :=
  mkZkt (_zk z) (_tracks z) (_exists z) (_data z) (_children z) b.

Definition Initialize (zk : bool) (z : ZooKeeperTracker) : bool * ZooKeeperTracker :=
  if _zk z || negb zk then (false, z)
  else (true, mkZkt true (_tracks z) (_exists z) (_data z) (_children z) false).

Definition Shutdown (z : ZooKeeperTracker) : ZooKeeperTracker :=
  if _zk z then mkZkt false [] ∅ ∅ ∅ (_error_has_broadcasted z) else z.

(** ** Requests *)

(** Get, behind its tests of the handle: for the children. *)
Definition Get_children (h : handle) (path : bytes) (z : ZooKeeperTracker) : Z * ZooKeeperTracker * list request :=
  if bool_decide (path ∈ _children z) then (ZOK, z, [])
  else
    let error := async h AsyncGetChildren path in
    if error =? ZOK then (ZOK, set_children ({[path]} ∪ _children z) z, [AsyncGetChildren]) else (error, z, []).

(** The error, the tracker and the requests that were made. *)
Definition Get (h : handle) (path : bytes) (dreq creq exist_first : bool) (z : ZooKeeperTracker)
  : Z * ZooKeeperTracker * list request :=
  if negb (_zk z) then (ZINVALIDSTATE, z, [])
  else if negb (state h =? ZOO_CONNECTED_STATE) then (ZINVALIDSTATE, z, [])
  else if exist_first then
    if bool_decide (path ∈ _exists z) then (ZOK, z, [])
    else
      let error := async h AsyncExists path in
      if error =? ZOK then (ZOK, set_exists ({[path]} ∪ _exists z) z, [AsyncExists]) else (error, z, [])
  else if dreq then
    if bool_decide (path ∈ _data z) then (ZOK, z, [])
    else
      let error := async h AsyncGet path in
      if error =? ZOK then
        let z := set_data ({[path]} ∪ _data z) z in
        if creq then
          let '(error, z, reqs) := Get_children h path z in (error, z, AsyncGet :: reqs)
        else (ZOK, z, [AsyncGet])
      else (error, z, [])
  else if creq then Get_children h path z
  else (ZOK, z, []).

Definition ProcessNolock (h : handle) (path : bytes) (dreq creq erased : bool) (z : ZooKeeperTracker)
  : Z * ZooKeeperTracker * list request :=
  let r := filter (fun t => erased && cancel_on_missing t = false) (range path (_tracks z)) in
  let dneed := existsb data r && dreq in
  let cneed := existsb children r && creq in
  if negb dneed && negb cneed then (ZOK, z, []) else Get h path dneed cneed erased z.

(** Process of an event on a path. *)
Definition Process (h : handle) (path : bytes) (dreq creq erased : bool) (z : ZooKeeperTracker)
  : ZooKeeperTracker * list request * list call :=
  let '(ret, z, reqs) := ProcessNolock h path dreq creq erased z in
  (z, reqs, if ret =? ZOK then (if erased then NotifyNull (_tracks z) path else []) else NotifyError (_tracks z) path ret).

Definition OnErased (h : handle) (path : bytes) := Process h path true true true.
Definition OnCreated (h : handle) (path : bytes) := Process h path true true false.
Definition OnChanged (h : handle) (path : bytes) := Process h path true false false.
Definition OnChild (h : handle) (path : bytes) := Process h path false true false.

(** Process of a state of the session. *)
Definition Process_session (st : Z) (z : ZooKeeperTracker) : bool * ZooKeeperTracker * list call :=
  if (st =? ZOO_CONNECTED_STATE) || (st =? ZOO_CONNECTING_STATE) || (st =? ZOO_ASSOCIATING_STATE) then (true, z, [])
  else
    let error := if st =? ZOO_EXPIRED_SESSION_STATE then ZSESSIONEXPIRED else ZAUTHFAILED in
    if _error_has_broadcasted z then (false, z, [])
    else (false, set_broadcasted true z, map (fun c => OnError c error None) (callback_set (map (fun e => cb e.2) (_tracks z)))).

Definition ClearErrorState (z : ZooKeeperTracker) : ZooKeeperTracker := set_broadcasted false z.

(** ** Tracking *)

(** [c]: null or a callback. *)
Definition CancelNolock (path : bytes) (c : option Z) (z : ZooKeeperTracker) : ZooKeeperTracker :=
  set_tracks (filter (fun e => ~ (e.1 = path /\ (c = None \/ c = Some (cb e.2)))) (_tracks z)) z.

Definition Cancel (path : option bytes) (c : option Z) (z : ZooKeeperTracker) : ZooKeeperTracker :=
  match path with
  | None => z
  | Some path => if negb (bool_decide (hd NUL path = "/"%char)) then z else CancelNolock path c z
  end.

(** The loop over the trackers of the path: whether [c]'s cover the data, and
    the children. *)
Fixpoint covered (c : Z) (track_data track_children : bool) (l : list Tracker) (d r : bool) : bool * bool :=
  match l with
  | [] => (d, r)
  | t :: l =>
      if c =? cb t then
        let d' := d || negb track_data || data t in
        if (negb track_data || data t) && r then (d', r)
        else
          let r' := r || negb track_children || children t in
          if (negb track_children || children t) && d' then (d', r') else covered c track_data track_children l d' r'
      else covered c track_data track_children l d r
  end.

Definition DoTrack (h : handle) (path : option bytes) (track_data track_children notify_missing cancel_on_missing : bool)
    (c : option Z) (z : ZooKeeperTracker) : bool * ZooKeeperTracker * list request * list call :=
  match path, c with
  | Some path, Some c =>
      if negb (bool_decide (hd NUL path = "/"%char)) then (false, z, [], [])
      else if negb track_data && negb track_children then (false, z, [], [])
      else if negb (_zk z) then (false, z, [], [])
      else
        let '(d, r) := covered c track_data track_children (range path (_tracks z)) false false in
        if d && r then (true, z, [], [])
        else
          let t := mkTracker c track_data track_children cancel_on_missing notify_missing in
          let '(ret, z, reqs) := ProcessNolock h path true true false (set_tracks (insert path t (_tracks z)) z) in
          if ret =? ZOK then (true, z, reqs, [])
          else
            let z := CancelNolock path (Some c) z in
            (false, z, reqs, NotifyError (_tracks z) path ret)
  | _, _ => (false, z, [], [])
  end.

Definition Track (h : handle) (path : option bytes) (track_data track_children notify_missing : bool) (c : option Z) :=
  DoTrack h path track_data track_children notify_missing false c.

Definition TrackExisting (h : handle) (path : option bytes) (track_data track_children : bool) (c : option Z) :=
  DoTrack h path track_data track_children true true c.

(** ** Answers *)

(** CancelNolock for each tracker that is cancelled when the node is missing. *)
Definition cancel_missing (path : bytes) (z : ZooKeeperTracker) : ZooKeeperTracker :=
  fold_left (fun z t => if cancel_on_missing t : bool then CancelNolock path (Some (cb t)) z else z)
    (range path (_tracks z)) z.

Definition OnExists (h : handle) (rc : Z) (path : bytes) (z : ZooKeeperTracker)
  : ZooKeeperTracker * list request * list call :=
  let z := set_exists (_exists z ∖ {[path]}) z in
  let '(rc', z, reqs) := if rc =? ZOK then ProcessNolock h path true true false z else (rc, z, []) in
  if (rc =? ZOK) && (rc' =? ZOK) then (z, reqs, [])
  else if negb (rc' =? ZNONODE) then (z, reqs, NotifyError (_tracks z) path rc')
  else (cancel_missing path z, reqs, []).

(** The answer that the node is missing. *)
Definition missing (h : handle) (path : bytes) (z : ZooKeeperTracker) : ZooKeeperTracker * list request * list call :=
  let '(rc, z, reqs) := ProcessNolock h path true true true z in
  (z, reqs, if rc =? ZOK then NotifyNull (_tracks z) path else NotifyError (_tracks z) path rc).

Definition OnGet (h : handle) (rc : Z) (path value : bytes) (z : ZooKeeperTracker)
  : ZooKeeperTracker * list request * list call :=
  let z := set_data (_data z ∖ {[path]}) z in
  if rc =? ZNONODE then missing h path z
  else if negb (rc =? ZOK) then (z, [], NotifyError (_tracks z) path rc)
  else (z, [], map (fun c => OnData c path (Some value))
                 (callback_set (map cb (filter (fun t => data t = true) (range path (_tracks z)))))).

Definition OnGetChildren (h : handle) (rc : Z) (path : bytes) (l : list bytes) (z : ZooKeeperTracker)
  : ZooKeeperTracker * list request * list call :=
  let z := set_children (_children z ∖ {[path]}) z in
  if rc =? ZNONODE then missing h path z
  else if negb (rc =? ZOK) then (z, [], NotifyError (_tracks z) path rc)
  else (z, [], map (fun c => OnChildren c path (Some l))
                 (callback_set (map cb (filter (fun t => children t = true) (range path (_tracks z)))))).

(** ** The server's side *)

(** Watches on a node: for its creation, its data, its children. *)
Inductive watch : Type := WExists | WData | WChild.

#[export] Instance watch_eq_dec : EqDecision watch.
Proof. solve_decision. Defined.

(** [asked]: requests without an answer yet; [failed]: paths of which an error
    was reported since their last request for data; [broken]: the session was
    lost, and with it all watches. *)
Record world : Type := mkWorld {
  zkt : ZooKeeperTracker;
  asked : list (request * bytes);
  watches : list (watch * bytes);
  failed : list bytes;
  broken : bool
}.

Definition start : world := mkWorld ZooKeeperTracker_new [] [] [] false.

Inductive event : Type :=
| EInitialize
| EShutdown
| EClearErrorState
| ETrack (path : option bytes) (track_data track_children notify_missing cancel_on_missing : bool) (c : option Z)
| ECancel (path : option bytes) (c : option Z)
| EExists (rc : Z) (path : bytes)
| EGet (rc : Z) (path value : bytes)
| EGetChildren (rc : Z) (path : bytes) (l : list bytes)
| ECreated (path : bytes)
| EChanged (path : bytes)
| EErased (path : bytes)
| EChild (path : bytes)
| ESession (st : Z).

(** Taking one element out of a list. *)
Fixpoint remove1 {A} `{EqDecision A} (x : A) (l : list A) : list A :=
  match l with [] => [] | a :: l => if decide (a = x) then l else a :: remove1 x l end.

(** The watch that a successful answer leaves. *)
Definition leaves (r : request) (rc : Z) (path : bytes) : list (watch * bytes) :=
  if rc =? ZOK then
    match r with AsyncExists | AsyncGet => [(WData, path)] | AsyncGetChildren => [(WChild, path)] end
  else if rc =? ZNONODE then match r with AsyncExists => [(WExists, path)] | _ => [] end
  else [].

(** Requests for a node, which tell about its data or its absence. *)
Definition asks_data (reqs : list request) : bool := existsb (fun r => bool_decide (r = AsyncGet \/ r = AsyncExists)) reqs.

Definition is_error (calls : list call) : bool := existsb (fun c => match c with OnError _ _ _ => true | _ => false end) calls.

Definition drop_watches (P : watch * bytes -> bool) (l : list (watch * bytes)) : list (watch * bytes) :=
  filter (fun w => P w = false) l.

(** The world behind a step of the tracker for [path], [w] and [a] being the
    watches and the requests that are left. *)
Definition stepped (path : bytes) (w : list (watch * bytes)) (a : list (request * bytes)) (x : world)
    (s : ZooKeeperTracker * list request * list call) : world * list call :=
  let '(z, reqs, calls) := s in
  (mkWorld z (map (fun r => (r, path)) reqs ++ a) w
     (if is_error calls then path :: failed x
      else if asks_data reqs then filter (fun p => p <> path) (failed x) else failed x) (broken x), calls).

Definition with_zkt (z : ZooKeeperTracker) (x : world) : world := mkWorld z (asked x) (watches x) (failed x) (broken x).

(** An event happens if it can: an answer to a request that was made, an event
    of a watch that is set. *)
Definition exec (h : handle) (e : event) (x : world) : world * list call :=
  let z := zkt x in
  let answered r rc path s :=
    if bool_decide ((r, path) ∈ asked x) then
      stepped path (leaves r rc path ++ watches x) (remove1 (r, path) (asked x)) x s
    else (x, []) in
  let fired k path s :=
    if bool_decide ((k, path) ∈ watches x) then
      stepped path (drop_watches (fun w => bool_decide (w = (k, path))) (watches x)) (asked x) x s
    else (x, []) in
  match e with
  | EInitialize => (with_zkt (Initialize true z).2 x, [])
  | EShutdown => (with_zkt (Shutdown z) x, [])
  | EClearErrorState => (with_zkt (ClearErrorState z) x, [])
  | ETrack path d r n m c =>
      match path with
      | Some p => let '(ok, z, reqs, calls) := DoTrack h path d r n m c z in stepped p (watches x) (asked x) x (z, reqs, calls)
      | None => (x, [])
      end
  | ECancel path c => (with_zkt (Cancel path c z) x, [])
  | EExists rc path => answered AsyncExists rc path (OnExists h rc path z)
  | EGet rc path value => answered AsyncGet rc path (OnGet h rc path value z)
  | EGetChildren rc path l => answered AsyncGetChildren rc path (OnGetChildren h rc path l z)
  | ECreated path => fired WExists path (OnCreated h path z)
  | EChanged path => fired WData path (OnChanged h path z)
  | EChild path => fired WChild path (OnChild h path z)
  | EErased path =>
      if existsb (fun w : watch * bytes => bool_decide (w.2 = path)) (watches x) then
        stepped path (drop_watches (fun w => bool_decide (w.2 = path)) (watches x)) (asked x) x (OnErased h path z)
      else (x, [])
  | ESession st =>
      let '(ok, z, calls) := Process_session st z in
      (mkWorld z (asked x) (if ok : bool then watches x else []) (failed x) (broken x || negb ok), calls)
  end.

(** Events, each with the handle that its step sees. *)
Fixpoint run_events (l : list (handle * event)) (x : world) : world :=
  match l with [] => x | (h, e) :: l => run_events l (exec h e x).1 end.

(** ** What is kept *)

Definition in_set (r : request) (z : ZooKeeperTracker) : gset bytes :=
  match r with AsyncExists => _exists z | AsyncGet => _data z | AsyncGetChildren => _children z end.

(** Somebody follows the data of the path, missing or not. *)
Definition wants_data (z : ZooKeeperTracker) (p : bytes) : Prop :=
  exists t, t ∈ range p (_tracks z) /\ data t = true /\ cancel_on_missing t = false.

(** News of the path's data will come: a request or a watch is there.  Or else
    the callbacks were told of an error, or the session was lost. *)
Definition followed (x : world) (p : bytes) : Prop :=
  broken x = true \/ p ∈ failed x \/ (AsyncGet, p) ∈ asked x \/ (AsyncExists, p) ∈ asked x \/
  (WData, p) ∈ watches x \/ (WExists, p) ∈ watches x.

Definition Inv (x : world) : Prop :=
  (forall r p, p ∈ in_set r (zkt x) -> (r, p) ∈ asked x) /\ (forall p, wants_data (zkt x) p -> followed x p).

Lemma Get_children_spec h path z err z' reqs : Get_children h path z = (err, z', reqs) ->
  _tracks z' = _tracks z /\ (forall r, r <> AsyncGetChildren -> in_set r z' = in_set r z) /\
  (forall p, p ∈ _children z' -> p ∈ _children z \/ p = path /\ AsyncGetChildren ∈ reqs) /\
  (reqs = [] \/ reqs = [AsyncGetChildren]).
Proof.
  unfold Get_children. case_bool_decide; [intros [= <- <- <-]; split_and!; auto|].
  destruct (async _ _ _ =? ZOK); intros [= <- <- <-]; split_and!; auto.
  - by intros [].
  - intros p. cbn. rewrite elem_of_union, elem_of_singleton. intros [->|]; [right; split; [done|by left]|by left].
Qed.

Lemma Get_spec h path d c e z err z' reqs : Get h path d c e z = (err, z', reqs) ->
  _tracks z' = _tracks z /\
  (forall r p, p ∈ in_set r z' -> p ∈ in_set r z \/ p = path /\ r ∈ reqs) /\
  (err = ZOK -> (e = true -> path ∈ _exists z \/ AsyncExists ∈ reqs) /\
                (e = false -> d = true -> path ∈ _data z \/ AsyncGet ∈ reqs)).
Proof.
  unfold Get. cbv zeta. destruct (_zk z); cbn [negb]; [|by intros [= <- <- <-]; split_and!; [done|left|]].
  destruct (state h =? ZOO_CONNECTED_STATE); cbn [negb]; [|by intros [= <- <- <-]; split_and!; [done|left|]].
  destruct e.
  { case_bool_decide as Hin; [intros [= <- <- <-]; split_and!; [done|by left|by split; auto]|].
    destruct (Z.eqb_spec (async h AsyncExists path) ZOK) as [Hok|Hok]; intros [= <- <- <-]; [|split_and!; [done|by left|done]].
    split_and!; [done| |].
    - intros [] p; cbn; rewrite ?elem_of_union, ?elem_of_singleton; [|auto..].
      intros [->|]; [right; split; [done|by left]|by left].
    - intros _. split; [|done]. intros _. right. by left. }
  destruct d.
  { case_bool_decide as Hin; [intros [= <- <- <-]; split_and!; [done|by left|by split; auto]|].
    destruct (Z.eqb_spec (async h AsyncGet path) ZOK) as [Hok|Hok]; [|by intros [= <- <- <-]; split_and!; [done|left|]].
    assert (forall r p, p ∈ in_set r (set_data ({[path]} ∪ _data z) z) -> p ∈ in_set r z \/ p = path /\ r = AsyncGet) as Hset.
    { intros [] p; cbn; rewrite ?elem_of_union, ?elem_of_singleton; [auto| |auto]. intros [->|]; auto. }
    destruct c.
    - destruct (Get_children h path _) as [[err1 z1] reqs1] eqn:Ec. intros [= <- <- <-].
      apply Get_children_spec in Ec as (Et & Eo & Ech & _). split; [done|]. split; [|split; [done|intros _ _; right; by left]].
      intros r p. destruct (decide (r = AsyncGetChildren)) as [->|Hne].
      + intros [H|[-> H]]%Ech; [by left|right; split; [done|by right]].
      + rewrite Eo by done. intros [H|[-> ->]]%Hset; [by left|right; split; [done|by left]].
    - intros [= <- <- <-]. split; [done|]. split; [|split; [done|intros _ _; right; by left]].
      intros r p [H|[-> ->]]%Hset; [by left|right; split; [done|by left]]. }
  destruct c; [|by intros [= <- <- <-]; split_and!; [done|left|]].
  intros Ec. apply Get_children_spec in Ec as (Et & Eo & Ech & _). split_and!; [done| |done].
  intros r p. destruct (decide (r = AsyncGetChildren)) as [->|Hne]; [apply Ech|]. rewrite Eo by done. auto.
Qed.

Lemma ProcessNolock_spec h path d c e z err z' reqs : ProcessNolock h path d c e z = (err, z', reqs) ->
  _tracks z' = _tracks z /\
  (forall r p, p ∈ in_set r z' -> p ∈ in_set r z \/ p = path /\ r ∈ reqs) /\
  (err = ZOK -> wants_data z path -> d = true ->
     if e then path ∈ _exists z \/ AsyncExists ∈ reqs else path ∈ _data z \/ AsyncGet ∈ reqs).
Proof.
  unfold ProcessNolock. intros H.
  assert (wants_data z path -> existsb data (filter (fun t => e && cancel_on_missing t = false) (range path (_tracks z))) = true) as Hw.
  { intros (t & Hin & Hd & Hc). apply existsb_exists. exists t. split; [|done].
    apply list_elem_of_In, list_elem_of_filter. by rewrite Hc, andb_false_r. }
  destruct (existsb data _) eqn:Ed; cbn [andb negb] in H.
  - destruct d; cbn [andb negb] in H.
    + apply Get_spec in H as (E & Hs & Hg). split_and!; auto. intros Herr _ _. destruct (Hg Herr) as [H1 H2]. destruct e; auto.
    + destruct (existsb children _ && c); cbn [negb] in H.
      * apply Get_spec in H as (E & Hs & Hg). by split_and!.
      * injection H as <- <- <-. split_and!; auto. by intros.
  - destruct (existsb children _ && c); cbn [negb] in H.
    + apply Get_spec in H as (E & Hs & Hg). split_and!; auto. intros _ Hwd. by specialize (Hw Hwd).
    + injection H as <- <- <-. split_and!; auto. intros _ Hwd. by specialize (Hw Hwd).
Qed.

(** An error is reported to somebody if the path is tracked. *)
Lemma callback_set_nil l : callback_set l = [] -> l = [].
Proof.
  unfold callback_set. destruct l as [|c l]; [done|]. cbn [callbacks].
  destruct (find c (callbacks l)) eqn:Ef.
  - apply find_in in Ef. intros E. apply map_eq_nil in E. rewrite E in Ef. by apply elem_of_nil in Ef.
  - intros E. apply map_eq_nil in E. pose proof (insert_permutation c tt (callbacks l)) as Hp. rewrite E in Hp.
    by apply Permutation_nil in Hp.
Qed.

Lemma NotifyError_reports tracks path err t : t ∈ range path tracks -> is_error (NotifyError tracks path err) = true.
Proof.
  intros Ht. unfold NotifyError. destruct (callback_set (map cb (range path tracks))) as [|c l] eqn:E; [|done].
  apply callback_set_nil, map_eq_nil in E. rewrite E in Ht. by apply elem_of_nil in Ht.
Qed.

(** A step on [path]: what holds of the other paths stays. *)
Lemma stepped_inv x path w a z' reqs calls : Inv x ->
  (forall r p, p ∈ in_set r z' -> (r, p) ∈ asked x /\ (p <> path \/ (r, path) ∈ a) \/ p = path /\ r ∈ reqs) ->
  (forall r p, p <> path -> (r, p) ∈ asked x -> (r, p) ∈ a) ->
  (forall k p, p <> path -> (k, p) ∈ watches x -> (k, p) ∈ w) ->
  (forall p, p <> path -> wants_data z' p -> wants_data (zkt x) p) ->
  (wants_data z' path -> is_error calls = true \/ asks_data reqs = true \/
     broken x = true \/ path ∈ failed x \/ (AsyncGet, path) ∈ a \/ (AsyncExists, path) ∈ a \/
     (WData, path) ∈ w \/ (WExists, path) ∈ w) ->
  Inv (stepped path w a x (z', reqs, calls)).1.
Proof.
  intros [H1 H2] Hset Hask Hwatch Hwant Hpath. split; cbn [zkt asked stepped fst].
  - intros r p Hp. apply elem_of_app. destruct (Hset r p Hp) as [[Ha [Hne|Hin]]|[-> Hr]].
    + right. by apply Hask.
    + destruct (decide (p = path)) as [->|Hne]; [by right|right; by apply Hask].
    + left. apply list_elem_of_fmap. by exists r.
  - intros p Hp. unfold followed. cbn [broken failed asked watches]. destruct (decide (p = path)) as [->|Hne].
    + destruct (Hpath Hp) as [->|[Ha|Hrest]]; [right; left; by left| |].
      * destruct (is_error calls); [right; left; by left|]. apply existsb_exists in Ha as (r & Hr & Hk).
        apply bool_decide_eq_true_1 in Hk. apply list_elem_of_In in Hr.
        assert ((r, path) ∈ map (fun r => (r, path)) reqs ++ a) as Hin.
        { apply elem_of_app. left. apply list_elem_of_fmap. by exists r. }
        destruct Hk as [->| ->]; auto.
      * destruct (is_error calls); [right; left; by left|].
        destruct (asks_data reqs) eqn:Ea.
        -- apply existsb_exists in Ea as (r & Hr & Hk). apply bool_decide_eq_true_1 in Hk. apply list_elem_of_In in Hr.
           assert ((r, path) ∈ map (fun r => (r, path)) reqs ++ a) as Hin.
           { apply elem_of_app. left. apply list_elem_of_fmap. by exists r. }
           destruct Hk as [->| ->]; auto.
        -- rewrite !elem_of_app. tauto.
    + destruct (H2 p (Hwant p Hne Hp)) as [Hb|[Hf|[Ha|[Ha|[Hw|Hw]]]]]; rewrite ?elem_of_app; auto.
      * right. left. destruct (is_error calls); [by right|]. destruct (asks_data reqs); [|done].
        by apply list_elem_of_filter.
      * right. right. left. right. by apply Hask.
      * do 3 right. left. right. by apply Hask.
      * do 4 right. left. by apply Hwatch.
      * do 5 right. by apply Hwatch.
Qed.

(** ** Steps *)

Lemma wants_same z z' p : _tracks z' = _tracks z -> wants_data z' p -> wants_data z p.
Proof. unfold wants_data. by intros ->. Qed.

Lemma range_permutation p l l' : l ≡ₚ l' -> range p l ≡ₚ range p l'.
Proof. intros H. unfold range. by rewrite H. Qed.

Lemma range_insert_ne p path t l : p <> path -> range p (insert path t l) ≡ₚ range p l.
Proof.
  intros Hne. rewrite (range_permutation _ _ _ (insert_permutation path t l)). unfold range.
  rewrite filter_cons, decide_False by (cbn; congruence). done.
Qed.

Lemma wants_insert_ne z path t p : p <> path -> wants_data (set_tracks (insert path t (_tracks z)) z) p -> wants_data z p.
Proof. intros Hne (u & Hin & Hu). exists u. split; [|done]. cbn [set_tracks _tracks] in Hin. by rewrite range_insert_ne in Hin. Qed.

Lemma wants_cancel path c z p : wants_data (CancelNolock path c z) p -> wants_data z p.
Proof.
  intros (t & Hin & Ht). exists t. split; [|done]. unfold range in *. cbn in Hin.
  apply list_elem_of_fmap in Hin as (e & -> & He). apply list_elem_of_fmap. exists e. split; [done|].
  apply list_elem_of_filter in He as [Hp [_ Hin]%list_elem_of_filter]. by apply list_elem_of_filter.
Qed.

Lemma wants_cancel_missing path z p : wants_data (cancel_missing path z) p -> wants_data z p.
Proof.
  unfold cancel_missing. generalize (range path (_tracks z)) as l. intros l. revert z.
  induction l as [|t l IH]; intros z H; [done|]. cbn in H. apply IH in H. destruct (cancel_on_missing t); [|done].
  by eapply wants_cancel.
Qed.

Lemma wants_reported z p err : wants_data z p -> is_error (NotifyError (_tracks z) p err) = true.
Proof. intros (t & Hin & _). by eapply NotifyError_reports. Qed.

Lemma remove1_ne {A} `{EqDecision A} (x y : A) l : y <> x -> y ∈ l -> y ∈ remove1 x l.
Proof.
  intros Hne. induction l as [|a l IH]; [done|]. intros [->|Hin]%elem_of_cons; cbn.
  - rewrite decide_False by done. by left.
  - destruct (decide (a = x)); [done|]. right. by apply IH.
Qed.

Lemma drop_watches_in P k l : k ∈ l -> P k = false -> k ∈ drop_watches P l.
Proof. intros H1 H2. unfold drop_watches. by apply list_elem_of_filter. Qed.

(** The answer of ProcessNolock, for the data: a request, or an error. *)
Lemma ProcessNolock_path h path c e z err z' reqs : ProcessNolock h path true c e z = (err, z', reqs) ->
  err = ZOK -> wants_data z' path ->
  asks_data reqs = true \/ path ∈ (if e then _exists z else _data z).
Proof.
  intros (Et & _ & H)%ProcessNolock_spec Herr Hw. specialize (H Herr (wants_same _ _ _ Et Hw) eq_refl).
  destruct e, H as [H|H]; auto; left; apply existsb_exists; eexists; (split; [by apply list_elem_of_In|]);
    apply bool_decide_eq_true_2; auto.
Qed.

Lemma Process_inv h path d c e w x : Inv x ->
  (forall k p, p <> path -> (k, p) ∈ watches x -> (k, p) ∈ w) ->
  (d = false -> (forall k, k <> WChild -> (k, path) ∈ watches x -> (k, path) ∈ w)) ->
  Inv (stepped path w (asked x) x (Process h path d c e (zkt x))).1.
Proof.
  intros HI Hw Hd. unfold Process. destruct (ProcessNolock h path d c e (zkt x)) as [[ret z'] reqs] eqn:EP.
  pose proof (ProcessNolock_spec _ _ _ _ _ _ _ _ _ EP) as (Et & Hs & _). pose proof HI as [H1 H2].
  apply stepped_inv; [done| |done|done| |].
  - intros r p [Hp|Hp]%Hs; [|by right]. left. specialize (H1 r p Hp). split; [done|].
    destruct (decide (p = path)) as [->|]; auto.
  - intros p _. by apply wants_same.
  - intros Hwant. destruct (Z.eqb_spec ret ZOK) as [Er|Er]; [|left; by apply wants_reported].
    destruct d.
    + destruct (ProcessNolock_path _ _ _ _ _ _ _ _ EP Er Hwant) as [Ha|Ha]; [by right; left|].
      destruct e; [apply (H1 AsyncExists) in Ha|apply (H1 AsyncGet) in Ha]; tauto.
    + specialize (Hd eq_refl).
      destruct (H2 path (wants_same _ _ _ Et Hwant)) as [Hb|[Hf|[Ha|[Ha|[Hk|Hk]]]]]; try tauto;
        apply Hd in Hk; try done; tauto.
Qed.

Lemma removed_set r path z x : (forall r p, p ∈ in_set r z -> (r, p) ∈ asked x) ->
  forall z0, (forall r', in_set r' z0 = if decide (r' = r) then in_set r z ∖ {[path]} else in_set r' z) ->
  forall r' p, p ∈ in_set r' z0 -> (r', p) ∈ asked x /\ (p <> path \/ (r', path) ∈ remove1 (r, path) (asked x)).
Proof.
  intros H1 z0 Hz r' p Hp. rewrite Hz in Hp. destruct (decide (r' = r)) as [->|Hne].
  - apply elem_of_difference in Hp as [Hp Hn]. split; [by apply H1|]. left. intros ->. by apply Hn, elem_of_singleton.
  - specialize (H1 r' p Hp). split; [done|]. destruct (decide (p = path)) as [->|]; [|by left]. right.
    apply remove1_ne; [congruence|done].
Qed.

(** The step behind an answer, which was taken from its set: a set of requests
    may have been asked for, or an error reported. *)
Lemma answer_inv r path w x z0 z' reqs calls : Inv x ->
  (forall r', in_set r' z0 = if decide (r' = r) then in_set r (zkt x) ∖ {[path]} else in_set r' (zkt x)) ->
  (forall r' p, p ∈ in_set r' z' -> p ∈ in_set r' z0 \/ p = path /\ r' ∈ reqs) ->
  (forall k, k ∈ watches x -> k ∈ w) ->
  (forall p, wants_data z' p -> wants_data (zkt x) p) ->
  (wants_data z' path -> is_error calls = true \/ asks_data reqs = true \/
     path ∈ _exists z0 /\ r <> AsyncExists \/ path ∈ _data z0 /\ r <> AsyncGet \/
     (WData, path) ∈ w \/ (WExists, path) ∈ w \/ r = AsyncGetChildren) ->
  Inv (stepped path w (remove1 (r, path) (asked x)) x (z', reqs, calls)).1.
Proof.
  intros HI Hz Hs Hw Hwant Hpath. pose proof HI as [H1 H2]. apply stepped_inv; [done| | | | |].
  - intros r' p [Hp|Hp]%Hs; [|by right]. left. by eapply removed_set.
  - intros r' p Hne Hin. apply remove1_ne; [congruence|done].
  - intros k p _ Hin. by apply Hw.
  - intros p _. apply Hwant.
  - intros Hp. assert (forall r', r' <> r -> (r', path) ∈ asked x -> (r', path) ∈ remove1 (r, path) (asked x)) as Hr.
    { intros r' Hne. apply remove1_ne. congruence. }
    destruct (Hpath Hp) as [He|[Ha|[[He Hne]|[[He Hne]|[Hk|[Hk|Hk]]]]]]; [tauto|tauto| | |tauto|tauto|].
    + specialize (Hz AsyncExists). rewrite decide_False in Hz by done. cbn in Hz. rewrite Hz in He.
      specialize (Hr AsyncExists ltac:(congruence) (H1 AsyncExists path He)). tauto.
    + specialize (Hz AsyncGet). rewrite decide_False in Hz by done. cbn in Hz. rewrite Hz in He.
      specialize (Hr AsyncGet ltac:(congruence) (H1 AsyncGet path He)). tauto.
    + subst r. destruct (H2 path (Hwant path Hp)) as [Hb|[Hf|[Ha|[Ha|[Hk|Hk]]]]]; [tauto|tauto| | | |].
      * specialize (Hr AsyncGet ltac:(done) Ha). tauto.
      * specialize (Hr AsyncExists ltac:(done) Ha). tauto.
      * apply Hw in Hk. tauto.
      * apply Hw in Hk. tauto.
Qed.

Lemma incl_app_r {A} (l k : list A) : forall x, x ∈ k -> x ∈ l ++ k.
Proof. intros x H. apply elem_of_app. by right. Qed.

Lemma Inv_answer_get h rc path value x : Inv x ->
  Inv (stepped path (leaves AsyncGet rc path ++ watches x) (remove1 (AsyncGet, path) (asked x)) x (OnGet h rc path value (zkt x))).1.
Proof.
  intros HI. unfold OnGet. set (z0 := set_data _ _).
  assert (forall r', in_set r' z0 = if decide (r' = AsyncGet) then in_set AsyncGet (zkt x) ∖ {[path]} else in_set r' (zkt x)) as Hz
    by (intros []; done).
  destruct (Z.eqb_spec rc ZNONODE) as [->|Hn].
  - unfold missing. destruct (ProcessNolock _ _ _ _ _ _) as [[ret z'] reqs] eqn:EP.
    pose proof (ProcessNolock_spec _ _ _ _ _ _ _ _ _ EP) as (Et & Hs & _).
    apply (answer_inv AsyncGet path _ x z0); [done|done|done|by apply incl_app_r|intros p; by apply (wants_same (zkt x))|].
    intros Hw. destruct (Z.eqb_spec ret ZOK) as [Er|Er]; [|left; by apply wants_reported].
    destruct (ProcessNolock_path _ _ _ _ _ _ _ _ EP Er Hw) as [Ha|Ha]; [tauto|]. right. right. left. by split.
  - destruct (Z.eqb_spec rc ZOK) as [->|Hk]; cbn [negb].
    + apply (answer_inv AsyncGet path _ x z0); [done|done|by left|by apply incl_app_r|intros p; by apply (wants_same (zkt x))|].
      intros _. do 4 right. left. cbn. by left.
    + apply (answer_inv AsyncGet path _ x z0); [done|done|by left|by apply incl_app_r|intros p; by apply (wants_same (zkt x))|].
      intros Hw. left. by apply wants_reported.
Qed.

Lemma Inv_answer_children h rc path l x : Inv x ->
  Inv (stepped path (leaves AsyncGetChildren rc path ++ watches x) (remove1 (AsyncGetChildren, path) (asked x)) x
    (OnGetChildren h rc path l (zkt x))).1.
Proof.
  intros HI. unfold OnGetChildren. set (z0 := set_children _ _).
  assert (forall r', in_set r' z0 =
    if decide (r' = AsyncGetChildren) then in_set AsyncGetChildren (zkt x) ∖ {[path]} else in_set r' (zkt x)) as Hz
    by (intros []; done).
  destruct (Z.eqb_spec rc ZNONODE) as [->|Hn]; [|destruct (Z.eqb_spec rc ZOK) as [->|Hk]; cbn [negb]].
  - unfold missing. destruct (ProcessNolock _ _ _ _ _ _) as [[ret z'] reqs] eqn:EP.
    pose proof (ProcessNolock_spec _ _ _ _ _ _ _ _ _ EP) as (Et & Hs & _).
    apply (answer_inv AsyncGetChildren path _ x z0); [done|done|done|by apply incl_app_r|intros p; by apply (wants_same (zkt x))|tauto].
  - apply (answer_inv AsyncGetChildren path _ x z0); [done|done|by left|by apply incl_app_r|intros p; by apply (wants_same (zkt x))|tauto].
  - apply (answer_inv AsyncGetChildren path _ x z0); [done|done|by left|by apply incl_app_r|intros p; by apply (wants_same (zkt x))|tauto].
Qed.

Lemma cancel_missing_sets path z r : in_set r (cancel_missing path z) = in_set r z.
Proof.
  unfold cancel_missing. generalize (range path (_tracks z)) as l. intros l. revert z.
  induction l as [|t l IH]; intros z; [done|]. cbn. rewrite IH. by destruct (cancel_on_missing t), r.
Qed.

Lemma Inv_answer_exists h rc path x : Inv x ->
  Inv (stepped path (leaves AsyncExists rc path ++ watches x) (remove1 (AsyncExists, path) (asked x)) x (OnExists h rc path (zkt x))).1.
Proof.
  intros HI. unfold OnExists. set (z0 := set_exists _ _).
  assert (forall r', in_set r' z0 = if decide (r' = AsyncExists) then in_set AsyncExists (zkt x) ∖ {[path]} else in_set r' (zkt x)) as Hz
    by (intros []; done).
  destruct (Z.eqb_spec rc ZOK) as [->|Hk]; cbn [andb].
  - destruct (ProcessNolock _ _ _ _ _ _) as [[ret z'] reqs] eqn:EP.
    pose proof (ProcessNolock_spec _ _ _ _ _ _ _ _ _ EP) as (Et & Hs & _).
    assert (forall p, wants_data z' p -> wants_data (zkt x) p) as Hwant by (intros p; by apply (wants_same (zkt x))).
    destruct (ret =? ZOK); [|destruct (ret =? ZNONODE); cbn [negb]];
      (apply (answer_inv AsyncExists path _ x z0); [done|done| |by apply incl_app_r| |intros _; do 4 right; left; by left]).
    + done.
    + done.
    + intros r' p. rewrite cancel_missing_sets. apply Hs.
    + intros p H%wants_cancel_missing. by apply Hwant.
    + done.
    + done.
  - destruct (Z.eqb_spec rc ZNONODE) as [->|Hn]; cbn [negb].
    + apply (answer_inv AsyncExists path _ x z0); [done|done| |by apply incl_app_r| |intros _; do 5 right; left; by left].
      * intros r' p. rewrite cancel_missing_sets. by left.
      * intros p H%wants_cancel_missing. by apply (wants_same (zkt x)) in H.
    + apply (answer_inv AsyncExists path _ x z0); [done|done|by left|by apply incl_app_r|intros p; by apply (wants_same (zkt x))|].
      intros Hw. left. by apply wants_reported.
Qed.

(** Nothing happens to the requests and watches. *)
Lemma Inv_quiet z' x : Inv x -> (forall r p, p ∈ in_set r z' -> p ∈ in_set r (zkt x)) ->
  (forall p, wants_data z' p -> wants_data (zkt x) p) -> Inv (with_zkt z' x).
Proof. intros [H1 H2] Hs Hw. split; [intros r p Hp; by apply H1, Hs|intros p Hp; by apply H2, Hw]. Qed.

Lemma Inv_track h path d r n m c x : Inv x ->
  Inv (let '(ok, z, reqs, calls) := DoTrack h (Some path) d r n m c (zkt x) in
       stepped path (watches x) (asked x) x (z, reqs, calls)).1.
Proof.
  intros HI. unfold DoTrack. pose proof HI as [H1 H2].
  assert (forall e, Inv (stepped path (watches x) (asked x) x (zkt x, [], [])).1 /\ e = tt) as Hsame.
  { intros []. split; [|done]. apply stepped_inv; [done| |done|done|done|].
    - intros r' p Hp. left. specialize (H1 r' p Hp). split; [done|]. destruct (decide (p = path)) as [->|]; auto.
    - intros Hp. destruct (H2 path Hp) as [?|[?|[?|[?|[?|?]]]]]; tauto. }
  destruct c as [c|]; [|apply (Hsame tt)]. destruct (negb (bool_decide _)); [apply (Hsame tt)|].
  destruct (negb d && negb r); [apply (Hsame tt)|]. destruct (negb (_zk (zkt x))); [apply (Hsame tt)|].
  destruct (covered _ _ _ _ _ _) as [d' r']. destruct (d' && r'); [apply (Hsame tt)|].
  destruct (ProcessNolock _ _ _ _ _ _) as [[ret z'] reqs] eqn:EP.
  pose proof (ProcessNolock_spec _ _ _ _ _ _ _ _ _ EP) as (Et & Hs & _). clear Hsame.
  assert (forall z1, (forall r, in_set r z1 = in_set r z') -> forall r0 p, p ∈ in_set r0 z1 ->
    (r0, p) ∈ asked x /\ (p <> path \/ (r0, path) ∈ asked x) \/ p = path /\ r0 ∈ reqs) as Hset.
  { intros z1 Hz1 r0 p. rewrite Hz1. intros [Hp|Hp]%Hs; [|by right]. left. specialize (H1 r0 p Hp). split; [done|].
    destruct (decide (p = path)) as [->|]; auto. }
  destruct (Z.eqb_spec ret ZOK) as [Er|Er].
  - apply stepped_inv; [done|by apply Hset|done|done| |].
    + intros p Hne Hw. eapply (wants_insert_ne _ path _ p Hne). by apply (wants_same _ _ _ Et).
    + intros Hw. destruct (ProcessNolock_path _ _ _ _ _ _ _ _ EP Er Hw) as [Ha|Ha]; [tauto|].
      apply (H1 AsyncGet) in Ha. tauto.
  - apply stepped_inv; [done|apply Hset; by intros []|done|done| |].
    + intros p Hne Hw%wants_cancel. eapply (wants_insert_ne _ path _ p Hne). by apply (wants_same _ _ _ Et).
    + intros Hw. left. by apply wants_reported.
Qed.

Lemma tracker_exec_inv h e x : Inv x -> Inv (exec h e x).1.
Proof.
  intros HI. destruct e as [| | |path d r n m c|path c|rc path|rc path v|rc path l|path|path|path|path|st]; cbn [exec].
  - apply Inv_quiet; [done| |]; unfold Initialize; by destruct (_zk (zkt x) || _).
  - apply Inv_quiet; [done| |]; unfold Shutdown; destruct (_zk (zkt x)); try done.
    + intros [] p; cbn; set_solver.
    + intros p (t & Hin & _). by apply elem_of_nil in Hin.
  - apply Inv_quiet; [done|by intros []|done].
  - destruct path as [path|]; [|done]. by apply Inv_track.
  - apply Inv_quiet; [done| |]; unfold Cancel; destruct path as [path|]; try done; destruct (negb _); try done.
    intros p. apply wants_cancel.
  - destruct (bool_decide _); [by apply Inv_answer_exists|done].
  - destruct (bool_decide _); [by apply Inv_answer_get|done].
  - destruct (bool_decide _); [by apply Inv_answer_children|done].
  - destruct (bool_decide _); [|done]. apply Process_inv; [done| |done].
    intros k p Hne Hin. apply drop_watches_in; [done|]. apply bool_decide_eq_false_2. congruence.
  - destruct (bool_decide _); [|done]. apply Process_inv; [done| |done].
    intros k p Hne Hin. apply drop_watches_in; [done|]. apply bool_decide_eq_false_2. congruence.
  - destruct (existsb _ _); [|done]. apply Process_inv; [done| |done].
    intros k p Hne Hin. apply drop_watches_in; [done|]. by apply bool_decide_eq_false_2.
  - destruct (bool_decide _); [|done]. apply Process_inv; [done| |intros _].
    + intros k p Hne Hin. apply drop_watches_in; [done|]. apply bool_decide_eq_false_2. congruence.
    + intros k Hne Hin. apply drop_watches_in; [done|]. apply bool_decide_eq_false_2. congruence.
  - unfold Process_session. destruct HI as [H1 H2]. destruct (_ || _ || _).
    + split; [done|]. intros p Hp. cbn in Hp. specialize (H2 p Hp). unfold followed in *. cbn. by rewrite orb_false_r.
    + destruct (_error_has_broadcasted _); (split; [intros r p Hp; apply H1; by destruct r|]); intros p Hp; left; cbn; apply orb_true_r.
Qed.

Lemma tracker_run_inv l x : Inv x -> Inv (run_events l x).
Proof. revert x. induction l as [|[h e] l IH]; intros x HI; [done|]. cbn. by apply IH, tracker_exec_inv. Qed.

Lemma tracker_start_inv : Inv start.
Proof.
  split.
  - intros [] p; cbn; set_solver.
  - intros p (t & Hin & _). by apply elem_of_nil in Hin.
Qed.

(** C30: whatever happens, in any order, as long as somebody follows the data of
    a path without giving up when the node is missing, news of it will come:
    a request for the node is on its way or a watch is set, unless the
    callbacks of the path were told of an error or the session was lost.  A
    path that is marked as asked for has its request on the way. *)
Theorem tracker_follows_data (l : list (handle * event)) (path : bytes) (t : Tracker) :
  let x := run_events l start in
  (t ∈ range path (_tracks (zkt x)) -> data t = true -> cancel_on_missing t = false ->
     broken x = true \/ path ∈ failed x \/ (AsyncGet, path) ∈ asked x \/ (AsyncExists, path) ∈ asked x \/
     (WData, path) ∈ watches x \/ (WExists, path) ∈ watches x) /\
  (forall r, path ∈ in_set r (zkt x) -> (r, path) ∈ asked x).
Proof.
  intros x. destruct (tracker_run_inv l start tracker_start_inv) as [H1 H2]. split.
  - intros Ht Hd Hc. apply (H2 path). by exists t.
  - intros r. apply H1.
Qed.

Lemma covered_self c t l d r : t ∈ l -> cb t = c -> covered c (data t) (children t) l d r = (true, true).
Proof.
  intros Hin Hc. revert d r. induction l as [|u l IH]; intros d r; [by apply elem_of_nil in Hin|]. cbn [covered].
  apply elem_of_cons in Hin as [<-|Hin].
  - rewrite Hc, Z.eqb_refl. rewrite (orb_comm (negb (data t))), (orb_comm (negb (children t))).
    destruct (data t), (children t), d, r; done.
  - destruct (c =? cb u); [|by apply IH].
    destruct (data t), (children t), (data u), (children u), d, r; cbn; done || by apply IH.
Qed.

(** Trackers that give up are left out when the node is missing. *)
Lemma missing_all_cancelled h path z : Forall (fun t => cancel_on_missing t = true) (range path (_tracks z)) ->
  ProcessNolock h path true true true z = (ZOK, z, []).
Proof.
  intros H. unfold ProcessNolock.
  assert (filter (fun t => true && cancel_on_missing t = false) (range path (_tracks z)) = []) as ->; [|done].
  induction H as [|t l Ht _ IH]; [done|]. rewrite filter_cons, decide_False; [done|]. cbn. by rewrite Ht.
Qed.

(** Two ways to wait for ever.  Track of the children of a path whose data
    is being asked for returns true and asks for nothing; so does
    TrackExisting of a path that it has tracked before for the same callback,
    after the node was missing: the tracker was not cancelled. *)
Theorem tracker_asks_for_nothing (h : handle) (path : bytes) (z : ZooKeeperTracker) :
  hd NUL path = "/"%char -> _zk z = true -> state h = ZOO_CONNECTED_STATE ->
  (forall c u n, path ∈ _data z -> u ∈ range path (_tracks z) -> data u = true ->
     Forall (fun t => cb t <> c) (range path (_tracks z)) ->
     Track h (Some path) false true n (Some c) z =
       (true, set_tracks (insert path (mkTracker c false true false n) (_tracks z)) z, [], [])) /\
  (forall t value, t ∈ range path (_tracks z) -> (data t || children t = true) ->
     Forall (fun u => cancel_on_missing u = true) (range path (_tracks z)) ->
     let '(z', reqs, calls) := OnGet h ZNONODE path value z in
     _tracks z' = _tracks z /\ reqs = [] /\
     TrackExisting h (Some path) (data t) (children t) (Some (cb t)) z' = (true, z', [], [])).
Proof.
  intros Hpath Hzk Hst. split.
  - intros c u n Hd Hu Hdu Hc. unfold Track, DoTrack. rewrite bool_decide_eq_true_2 by done. cbn [negb andb].
    rewrite Hzk. cbn [negb].
    assert (covered c false true (range path (_tracks z)) false false = (false, false)) as ->.
    { clear -Hc. induction Hc as [|t l Ht _ IH]; [done|]. cbn [covered]. by rewrite (proj2 (Z.eqb_neq _ _)) by congruence. }
    cbn [andb]. set (z1 := set_tracks _ z).
    assert (u ∈ range path (_tracks z1)) as Hu1.
    { unfold z1. cbn [set_tracks _tracks]. rewrite (range_permutation _ _ _ (insert_permutation _ _ _)). unfold range in *.
      rewrite filter_cons, decide_True by done. by right. }
    assert (existsb data (filter (fun t => false && cancel_on_missing t = false) (range path (_tracks z1))) = true) as Hn.
    { apply existsb_exists. exists u. split; [|done]. by apply list_elem_of_In, list_elem_of_filter. }
    unfold ProcessNolock. rewrite Hn. cbn [andb negb]. unfold Get.
    change (_zk z1) with (_zk z). change (_data z1) with (_data z). rewrite Hzk, Hst. by rewrite bool_decide_eq_true_2.
  - intros t value Ht Hdt Hc. unfold OnGet. rewrite Z.eqb_refl. unfold missing.
    rewrite missing_all_cancelled by done. cbv beta iota zeta. split; [done|]. split; [done|].
    unfold TrackExisting, DoTrack. rewrite bool_decide_eq_true_2 by done. cbn [negb].
    assert (negb (data t) && negb (children t) = false) as -> by (by destruct (data t), (children t)).
    cbn [_zk set_data]. rewrite Hzk. cbn [negb]. by rewrite (covered_self (cb t) t).
Qed.

(** ** Concrete runs *)

Definition demo_handle : handle := mkHandle ZOO_CONNECTED_STATE (fun _ _ => ZOK).
Definition demo_path : bytes := B "/a".

(** A node is tracked, read, changed, erased and found missing. *)
Definition demo_events : list (handle * event) :=
  map (pair demo_handle)
    [EInitialize; ETrack (Some demo_path) true true true false (Some 7); EGet ZOK demo_path (B "x");
     EChanged demo_path; EGet ZOK demo_path (B "y"); EErased demo_path; EExists ZNONODE demo_path].

Lemma tracker_follows_data_witness :
  exists t, t ∈ range demo_path (_tracks (zkt (run_events demo_events start))) /\
    watches (run_events demo_events start) = [(WExists, demo_path)] /\
    (broken (run_events demo_events start) = true \/ demo_path ∈ failed (run_events demo_events start) \/
     (AsyncGet, demo_path) ∈ asked (run_events demo_events start) \/
     (AsyncExists, demo_path) ∈ asked (run_events demo_events start) \/
     (WData, demo_path) ∈ watches (run_events demo_events start) \/
     (WExists, demo_path) ∈ watches (run_events demo_events start)).
Proof.
  assert (mkTracker 7 true true false true ∈ range demo_path (_tracks (zkt (run_events demo_events start)))) as Hin.
  { vm_compute. left. }
  exists (mkTracker 7 true true false true). split; [exact Hin|]. split; [vm_compute; reflexivity|].
  refine (proj1 (tracker_follows_data demo_events demo_path (mkTracker 7 true true false true)) Hin _ _); reflexivity.
Defined.

(** The state after a Track of the data, with the request on its way. *)
Definition demo_asked : ZooKeeperTracker :=
  zkt (run_events (map (pair demo_handle) [EInitialize; ETrack (Some demo_path) true false true true (Some 7)]) start).

Lemma tracker_asks_for_nothing_witness :
  Track demo_handle (Some demo_path) false true true (Some 8) demo_asked =
    (true, set_tracks (insert demo_path (mkTracker 8 false true false true) (_tracks demo_asked)) demo_asked, [], []) /\
  TrackExisting demo_handle (Some demo_path) true false (Some 7) (OnGet demo_handle ZNONODE demo_path [] demo_asked).1.1 =
    (true, (OnGet demo_handle ZNONODE demo_path [] demo_asked).1.1, [], []).
Proof.
  assert (mkTracker 7 true false true true ∈ range demo_path (_tracks demo_asked)) as Hin by (vm_compute; left).
  destruct (tracker_asks_for_nothing demo_handle demo_path demo_asked) as [H1 H2]; [reflexivity..|]. split.
  - apply (H1 8 (mkTracker 7 true false true true) true).
    + by vm_compute.
    + exact Hin.
    + reflexivity.
    + vm_compute. constructor; [discriminate|constructor].
  - specialize (H2 (mkTracker 7 true false true true) [] Hin eq_refl).
    destruct (OnGet demo_handle ZNONODE demo_path [] demo_asked) as [[z' reqs] calls]. apply H2.
    vm_compute. constructor; [reflexivity|constructor].
Defined.
