(* ===== verification/Council.v ===== *)
(** * Elections: zookeeper/council.cpp

    Every candidate creates a numbered node below the election's node; the
    first [_size] of them are the council.  A candidate that is not elected
    tracks its [_size] predecessors.  The handlers run with the mutex held:
    each is a program on the council and on the list of what it did, which an
    assertion can end.  What ZooKeeper returns during a step is an [env]. *)

From Stdlib Require Import ZifyBool.
From S2P Require Import Prelude Digits Libc StdMap Utility ExceptionMonad ZooKeeper.

Record Council : Type := mkCouncil {
  _zk : bool;
  _actual_id : Z;
  _election_path : bytes;
  _node_name : bytes;
  _name : bytes;
  _cb : bool;
  _id : Z;
  _size : Z
}.

Definition Council_new (name : bytes) : Council := mkCouncil false (-1) [] [] name false (-1) (-1).

(** What a handler does to the outside. *)
Inductive act : Type :=
| Erase (path : bytes)
| Create (path : bytes)
| TrackExisting (path : bytes)
| Cancel (path : bytes)
| ClearErrorState
| WakeAll
| OnFired_cb (recoverable : bool)
| OnElected_cb (id : Z).

Record env : Type := mkEnv {
  erase : bytes -> Z;
  create : bytes -> Z * bytes;
  get_children : bytes -> Z * list bytes;
  track_existing : bytes -> bool;
  hostname : option bytes
}.

Abbreviation M := (XT (Council * list act) exn).

Definition get {A} (f : Council -> A) : M A := gets (fun s => f s.1).
Definition put (f : Council -> Council) : M unit := modify (fun s => (f s.1, s.2)).
Definition does (a : act) : M unit := modify (fun s => (s.1, s.2 ++ [a])).
Definition assert_ (b : bool) : M unit := if b then ret tt else throw assertion_failed.

(** Through [_zk], which is null before Initialize and after Shutdown. *)
Definition deref : M unit := let* zk := get _zk in if (zk : bool) then ret tt else throw undefined_behaviour.

Definition set_actual_id (n : Z) : M unit := put (fun c =>
  mkCouncil (_zk c) n (_election_path c) (_node_name c) (_name c) (_cb c) (_id c) (_size c)).
Definition set_node_name (b : bytes) : M unit := put (fun c =>
  mkCouncil (_zk c) (_actual_id c) (_election_path c) b (_name c) (_cb c) (_id c) (_size c)).
Definition set_id (n : Z) : M unit := put (fun c =>
  mkCouncil (_zk c) (_actual_id c) (_election_path c) (_node_name c) (_name c) (_cb c) n (_size c)).
Definition set_size (n : Z) : M unit := put (fun c =>
  mkCouncil (_zk c) (_actual_id c) (_election_path c) (_node_name c) (_name c) (_cb c) (_id c) n).
Definition set_zk (zk : bool) (path : bytes) (cb : bool) : M unit := put (fun c =>
  mkCouncil zk (_actual_id c) path (_node_name c) (_name c) cb (_id c) (_size c)).

(** The path of a candidate's node: its number with ten digits. *)
Definition node_path (election_path name : bytes) (id : Z) : bytes :=
  election_path ++ B "/" ++ name ++ B "_" ++ pad0 10 (dec id).

(** IsElected; WaitUntilAttended when it looks at the council: [None], it waits. *)
Definition IsElected (c : Council) : Z := if negb (_zk c) || (_id c <? -1) then -1 else if 0 <=? _id c then 0 else 1.

Definition WaitUntilAttended (c : Council) : option bool :=
  if negb (_zk c) then Some false else if _id c <? 0 then (if _id c <? -1 then Some false else None) else Some true.

Section Handlers.
Context (e : env).

(** ** Leaving *)

Definition ResetState (recoverable : bool) : M unit :=
  if recoverable then set_id (-1) else set_id (-2) ;;; set_size (-1) ;;; set_actual_id (-1).

Definition DoLostClean (recoverable : bool) : M unit :=
  let* id := get _id in
  let notify := (0 <=? id) || negb recoverable in
  ResetState recoverable ;;;
  does WakeAll ;;;
  let* cb := get _cb in
  if notify && cb then does (OnFired_cb recoverable) else ret tt.

Definition DoQuitClean (recoverable : bool) : M unit :=
  let* election_path := get _election_path in
  assert_ (negb (bool_decide (election_path = []))) ;;;
  let* actual := get _actual_id in
  let* recoverable :=
    (if 0 <=? actual then
       let* name := get _node_name in
       let path := node_path election_path name actual in
       deref ;;;
       does (Erase path) ;;;
       set_actual_id (-1) ;;;
       ret (if erase e path =? ZOK then recoverable else false)
     else ret recoverable) in
  DoLostClean recoverable.

Definition OnLost : M unit := DoLostClean true ;;; set_actual_id (-1) ;;; set_size (-1).
Definition OnQuit : M unit := DoQuitClean true.
Definition OnFired (recoverable : bool) : M unit := DoQuitClean recoverable.
Definition OnShrinked (recoverable : bool) : M unit := DoLostClean recoverable.

Definition OnError (error : Z) : M unit :=
  (if error =? ZSESSIONEXPIRED then OnLost else OnFired false) ;;;
  does ClearErrorState.

(** ** Attending *)

(** Whether there is a name. *)
Definition UpdateName : M bool :=
  let* name := get _name in
  match name with
  | _ :: _ => set_node_name name ;;; ret true
  | [] => match hostname e with Some h => set_node_name h ;;; ret true | None => ret false end
  end.

Definition CreateNodeAsNeeded : M bool :=
  let* actual_id := get _actual_id in
  if 0 <=? actual_id then ret true
  else
    let* ok := UpdateName in
    if negb ok then OnFired false ;;; ret false
    else
      let* election_path := get _election_path in
      let* name := get _node_name in
      let path := election_path ++ B "/" ++ name ++ B "_" in
      deref ;;;
      does (Create path) ;;;
      let '(error, actual) := create e path in
      if negb (error =? ZOK) then set_size (-1) ;;; ret false
      else
        let offset := zlen election_path + 1 + zlen name + 1 in
        if negb (zlen actual =? offset + 10) then does (Erase (c_str actual)) ;;; ret false
        else
          let id := atoi32 (Some (c_str (drop (Z.to_nat offset) actual))) false in
          set_actual_id id ;;;
          if id <? 0 then does (Erase (c_str actual)) ;;; ret false else ret true.

(** find_last_of("_") *)
Fixpoint find_last_underscore (s : bytes) (i : nat) (r : option nat) : option nat :=
  match s with
  | [] => r
  | c :: s => find_last_underscore s (S i) (if bool_decide (c = "_"%char) then Some i else r)
  end.

(** A child's number and name, if it is a candidate. *)
Definition candidate (s : bytes) : option (Z * bytes) :=
  match find_last_underscore s 0 None with
  | None | Some O => None
  | Some pos =>
      if negb (Nat.eqb (pos + 11) (length s)) then None
      else
        let i := atoi32 (Some (c_str (drop (S pos) s))) false in
        if 0 <=? i then Some (i, take pos s) else None
  end.

Fixpoint candidates (l : list bytes) (m : list (Z * bytes)) : list (Z * bytes) :=
  match l with
  | [] => m
  | s :: l =>
      candidates l
        match candidate s with
        | Some (i, name) => match find i m with Some _ => m | None => insert i name m end
        | None => m
        end
  end.

Definition GetCandidates : M (option (list (Z * bytes))) :=
  let* election_path := get _election_path in
  deref ;;;
  let '(error, children) := get_children e election_path in
  if negb (error =? ZOK) then set_size (-1) ;;; ret None else ret (Some (candidates children [])).

(** The position of [id] among the candidates, from 1. *)
Fixpoint position (id : Z) (m : list (Z * bytes)) (pos : Z) : Z :=
  match m with [] => pos | (i, _) :: m => if i <=? id then position id m (pos + 1) else pos end.

(** The candidates before [id], the last one first: what --p visits. *)
Definition before (id : Z) (m : list (Z * bytes)) : list (Z * bytes) := reverse (filter (fun c => c.1 < id) m).

(** The loop that tracks [n] predecessors; decrementing past the first is
    undefined. *)
Fixpoint track_loop (n : nat) (l : list (Z * bytes)) : M bool :=
  match n with
  | O => ret true
  | S n =>
      match l with
      | [] => throw undefined_behaviour
      | (i, name) :: l =>
          let* election_path := get _election_path in
          let path := node_path election_path name i in
          does (TrackExisting path) ;;;
          if track_existing e path then track_loop n l else ret false
      end
  end.

Definition Attend_at (m : list (Z * bytes)) : M unit :=
  let* actual_id := get _actual_id in
  match find actual_id m with
  | None => OnFired false
  | Some _ =>
      let pos := position actual_id m 0 in
      let* size := get _size in
      if pos <=? size then
        let* id := get _id in
        if 0 <=? id then ret tt
        else
          set_id actual_id ;;;
          does WakeAll ;;;
          let* cb := get _cb in
          if (cb : bool) then does (OnElected_cb actual_id) else ret tt
      else
        assert_ (negb (bool_decide (first m = Some actual_id))) ;;;
        let* recoverable := track_loop (Z.to_nat size) (before actual_id m) in
        OnShrinked recoverable
  end.

Definition Attend : M unit :=
  let* ok := CreateNodeAsNeeded in
  if negb ok then OnFired false
  else
    let* actual_id := get _actual_id in
    assert_ (0 <=? actual_id) ;;;
    let* m := GetCandidates in
    match m with None => ret tt | Some m => Attend_at m end.

(** ** What ZooKeeper calls back, and the public methods *)

Definition OnData (path : bytes) (data : option bytes) : M unit :=
  let* election_path := get _election_path in
  if negb (bool_decide (take (length election_path) path = election_path)) then ret tt
  else if bool_decide (path = election_path) then
    match data with
    | None => OnFired true
    | Some data =>
        let size := atoi32 (Some (c_str data)) false in
        if size <=? 0 then set_size (-1) ;;; OnShrinked true else set_size size ;;; Attend
    end
  else
    match data with
    | Some _ => ret tt
    | None =>
        let* id := get _id in
        if 0 <=? id then ret tt else does (Cancel path) ;;; Attend
    end.

(** [initialize], [track]: what the tracker returns. *)
Definition Initialize (zk : bool) (election_path : bytes) (cb initialize track : bool) : M bool :=
  let* zk0 := get _zk in
  if zk0 || negb zk || (zlen election_path <? 2) || negb (bool_decide (hd NUL election_path = "/"%char))
     || bool_decide (List.last election_path NUL = "/"%char) then ret false
  else if negb initialize then ret false
  else if negb track then ret false
  else
    set_zk true election_path cb ;;;
    ResetState false ;;;
    set_id (-1) ;;;
    ret true.

Definition Shutdown : M bool :=
  let* zk := get _zk in
  if negb zk then ret true else OnQuit ;;; set_zk false [] false ;;; ret true.

End Handlers.

(** ** Positions *)

Section Positions.
Implicit Types (m : list (Z * bytes)).

Lemma filter_none {A} (P : A -> Prop) `{forall x, Decision (P x)} (l : list A) : (forall x, x ∈ l -> ~ P x) -> filter P l = [].
Proof.
  induction l as [|a l IH]; intros H0; [done|]. rewrite filter_cons, decide_False by (apply H0; by left).
  apply IH. intros x Hx. apply H0. by right.
Qed.

(** The candidates behind the first one have greater numbers. *)
Lemma sorted_greater i v m c : sorted ((i, v) :: m) -> c ∈ m -> i < c.1.
Proof.
  intros [_ Ha]%sorted_cons_inv Hin. destruct c as [k w]. rewrite Forall_forall in Ha.
  specialize (Ha k (in_keys _ _ _ Hin)). cbn in Ha. cbn. lia.
Qed.

Lemma position_acc id m pos : position id m pos = pos + position id m 0.
Proof.
  revert pos. induction m as [|[i v] m IH]; intros pos; cbn; [lia|]. destruct (i <=? id); [|lia].
  rewrite (IH (pos + 1)), (IH (0 + 1)). lia.
Qed.

Lemma position_nonneg id m : 0 <= position id m 0.
Proof.
  induction m as [|[i v] m IH]; cbn; [done|]. destruct (i <=? id); [|done]. rewrite position_acc. lia.
Qed.

(** Of a sorted map: the number of candidates up to [id]. *)
Lemma position_count id m : sorted m -> position id m 0 = zlen (filter (fun c => c.1 <= id) m).
Proof.
  induction m as [|[i v] m IH]; intros Hs; [done|]. pose proof (sorted_cons_inv _ _ _ Hs) as [Hs' _].
  cbn [position]. rewrite filter_cons. cbn [fst]. destruct (Z.leb_spec i id) as [Hle|Hgt].
  - rewrite decide_True by done. rewrite position_acc, zlen_cons, IH by done. lia.
  - rewrite decide_False by lia. rewrite filter_none; [done|]. intros c Hin. pose proof (sorted_greater _ _ _ _ Hs Hin). lia.
Qed.

(** The n-th candidate has position n + 1. *)
Lemma position_lookup n m k v : sorted m -> m !! n = Some (k, v) -> position k m 0 = Z.of_nat n + 1.
Proof.
  revert n. induction m as [|[i w] m IH]; intros n Hs Hn; [done|]. pose proof (sorted_cons_inv _ _ _ Hs) as [Hs' _].
  destruct n as [|n]; cbn in Hn |- *.
  - injection Hn as -> ->. rewrite Z.leb_refl, position_acc, position_count by done.
    rewrite filter_none; [done|]. intros c Hin. pose proof (sorted_greater _ _ _ _ Hs Hin). lia.
  - pose proof (sorted_greater _ _ _ _ Hs (list_elem_of_lookup_2 _ _ _ Hn)) as Hik. cbn in Hik.
    rewrite (proj2 (Z.leb_le _ _)) by lia. rewrite position_acc, (IH n) by done. lia.
Qed.

(** Among the candidates up to a number, those at a position up to [size] are
    the first ones. *)
Lemma positions_up_to size m : sorted m -> filter (fun c => position c.1 m 0 <= size) m = take (Z.to_nat size) m.
Proof.
  intros Hs. assert (forall l pre, m = pre ++ l ->
    filter (fun c => position c.1 m 0 <= size) l = take (Z.to_nat size - length pre) l) as H.
  { induction l as [|[k v] l IH]; intros pre E; [by rewrite take_nil|]. rewrite filter_cons. cbn [fst].
    rewrite (position_lookup (length pre) m k v Hs) by (rewrite E; apply list_lookup_middle; done).
    specialize (IH (pre ++ [(k, v)])). rewrite length_app in IH. cbn [length] in IH.
    destruct (decide (Z.of_nat (length pre) + 1 <= size)) as [Hle|Hgt].
    - replace (Z.to_nat size - length pre)%nat with (S (Z.to_nat size - (length pre + 1))) by lia. cbn. f_equal.
      apply IH. by rewrite <- app_assoc.
    - rewrite IH by by rewrite <- app_assoc. replace (Z.to_nat size - length pre)%nat with O by lia. cbn.
      by replace (Z.to_nat size - (length pre + 1))%nat with O by lia. }
  rewrite (H m [] eq_refl). cbn. by rewrite Nat.sub_0_r.
Qed.

(** The predecessors of a candidate: all but itself up to its position. *)
Lemma before_length id v m : sorted m -> find id m = Some v -> zlen (before id m) = position id m 0 - 1.
Proof.
  intros Hs Hf. unfold before. rewrite position_count by done. unfold zlen. rewrite length_reverse.
  induction m as [|[i w] m IH]; [done|]. pose proof (sorted_cons_inv _ _ _ Hs) as [Hs' _]. rewrite !filter_cons. cbn [fst].
  cbn in Hf. destruct (decide (i = id)) as [->|Hne].
  - rewrite (decide_False (P := id < id)), (decide_True (P := id <= id)) by lia. cbn [length].
    rewrite !filter_none; [done| |]; intros c Hin; pose proof (sorted_greater _ _ _ _ Hs Hin); lia.
  - apply find_in in Hf as Hin. pose proof (sorted_greater _ _ _ _ Hs Hin) as Hlt. cbn in Hlt.
    rewrite (decide_True (P := i < id)), (decide_True (P := i <= id)) by lia. cbn [length]. rewrite !Nat2Z.inj_succ.
    specialize (IH Hs' Hf). lia.
Qed.

Lemma before_lt id m c : c ∈ before id m -> c.1 < id /\ c ∈ m.
Proof. unfold before. rewrite elem_of_reverse. by intros H%list_elem_of_filter. Qed.

End Positions.

(** ** What is kept *)

(** What the callback was told: the number it was elected with, if any; [None]
    when it was told of an election while elected. *)
Definition tell (r : option (option Z)) (a : act) : option (option Z) :=
  match a, r with
  | OnElected_cb i, Some None => Some (Some i)
  | OnElected_cb i, _ => None
  | OnFired_cb _, Some _ => Some None
  | _, _ => r
  end.

Definition told (l : list act) : option (option Z) := foldl tell (Some None) l.

Definition number (id : Z) : option Z := if 0 <=? id then Some id else None.

(** The callback knows the number; a council that was not initialised has
    none. *)
Definition loose (s : Council * list act) : Prop :=
  -2 <= _id s.1 /\ -1 <= _actual_id s.1 /\
  (if _zk s.1 then _cb s.1 = true else _actual_id s.1 = -1 /\ _id s.1 < 0) /\
  told s.2 = Some (number (_id s.1)).

(** An elected candidate has the number of its node. *)
Definition Inv (s : Council * list act) : Prop := loose s /\ (0 <= _id s.1 -> _id s.1 = _actual_id s.1).

Lemma told_app l a : told (l ++ [a]) = tell (told l) a.
Proof. unfold told. by rewrite foldl_app. Qed.

Definition keeps {A} (m : M A) : Prop := forall s, Inv s -> ends m s (fun _ s' => Inv s').

Lemma council_keeps_bind {A C} (m : M A) (k : A -> M C) : keeps m -> (forall a, keeps (k a)) -> keeps (bind m k).
Proof. intros Hm Hk s Hs. apply ends_bind. eapply ends_mono; [by apply Hm|]. intros [a|e] s' H; [by apply Hk|done]. Qed.

Lemma council_keeps_ret {A} (a : A) : keeps (ret a).
Proof. by intros s. Qed.

Lemma keeps_throw {A} e : keeps (A := A) (throw e).
Proof. by intros s. Qed.

Lemma keeps_get {A} (f : Council -> A) : keeps (get f).
Proof. by intros s. Qed.

(** What is not told to the callback. *)
Lemma keeps_does a : (forall r, tell r a = r) -> keeps (does a).
Proof. intros Ha s [Hs Hid]. split; [|done]. unfold loose in *. cbn. by rewrite told_app, Ha. Qed.

Lemma keeps_assert b : keeps (assert_ b).
Proof. destruct b; by intros s. Qed.

Lemma keeps_size n : keeps (set_size n).
Proof. by intros s. Qed.

Lemma keeps_name b : keeps (set_node_name b).
Proof. by intros s. Qed.

Lemma keeps_deref : keeps deref.
Proof. intros s Hs. unfold deref. apply ends_bind, ends_gets. by destruct (_zk s.1). Qed.

Lemma council_keeps_if {A} (b : bool) (m n : M A) : keeps m -> keeps n -> keeps (if b then m else n).
Proof. by destruct b. Qed.

Ltac keeps := repeat first
  [ solve [auto] | apply council_keeps_bind; [|intros ?] | apply council_keeps_ret | apply keeps_throw | apply keeps_get
  | apply keeps_does; by intros [] | apply keeps_assert | apply keeps_size | apply keeps_name | apply keeps_deref
  | apply council_keeps_if ].

(** Leaving ends without a number, and the callback is told. *)
Lemma DoLostClean_ends r s : loose s ->
  ends (DoLostClean r) s (fun x s' => Inv s' /\ _id s'.1 < 0 /\ x = Ok tt /\
    (_actual_id s'.1 = _actual_id s.1 \/ _actual_id s'.1 = -1)).
Proof.
  intros (H1 & H2 & H3 & H4). unfold DoLostClean. apply ends_bind, ends_gets, ends_bind. unfold ResetState, Inv, loose, number in *.
  destruct r; [apply ends_modify|apply ends_bind, ends_modify, ends_bind, ends_modify, ends_modify];
    (apply ends_bind, ends_modify, ends_bind, ends_gets; cbn [fst snd _cb];
     destruct (_zk s.1), (_cb s.1), (Z.leb_spec 0 (_id s.1)); cbn [orb negb andb]; try done; try lia;
     first [apply ends_modify|apply ends_ret]; cbn; rewrite ?told_app, ?H4; cbn; repeat split; try done; try lia; auto).
Qed.

Lemma keeps_DoLostClean r : keeps (DoLostClean r).
Proof. intros s [Hs _]. eapply ends_mono; [by apply DoLostClean_ends|]. by intros x s' []. Qed.

Section Keeps.
Context (e : env).

(** Leaving for good: there is no node any more. *)
Lemma DoQuitClean_ends r s : Inv s ->
  ends (DoQuitClean e r) s (fun x s' => Inv s' /\ (x = Ok tt -> _id s'.1 < 0 /\ _actual_id s'.1 = -1)).
Proof.
  assert (forall r s', loose s' -> _actual_id s'.1 = -1 ->
    ends (DoLostClean r) s' (fun x s' => Inv s' /\ (x = Ok tt -> _id s'.1 < 0 /\ _actual_id s'.1 = -1))) as Hl.
  { intros r' s' Hs' Ha. eapply ends_mono; [by apply (DoLostClean_ends r')|].
    intros x s'' (HI & Hid & _ & Ha'). split; [done|]. intros _. lia. }
  intros Hs. pose proof Hs as [Hlo _]. pose proof Hlo as (_ & H2 & H3 & H4). unfold DoQuitClean.
  apply ends_bind, ends_gets, ends_bind. unfold assert_. destruct (negb _); [apply ends_ret|by apply ends_throw].
  apply ends_bind, ends_gets, ends_bind. destruct (Z.leb_spec 0 (_actual_id s.1)).
  - apply ends_bind, ends_gets, ends_bind. unfold deref. apply ends_bind, ends_gets. destruct (_zk s.1) eqn:Hz; [|by apply ends_throw].
    apply ends_ret, ends_bind, ends_modify, ends_bind, ends_modify, ends_ret. apply Hl; [|done].
    destruct Hlo as (L1 & _). unfold loose. cbn. rewrite Hz in *. rewrite told_app, H4. repeat split; done.
  - apply ends_ret. apply Hl; [done|lia].
Qed.

Lemma keeps_DoQuitClean r : keeps (DoQuitClean e r).
Proof. intros s Hs. eapply ends_mono; [by apply DoQuitClean_ends|]. by intros x s' []. Qed.

Lemma keeps_OnLost : keeps OnLost.
Proof.
  intros s Hs. unfold OnLost. apply ends_bind. eapply ends_mono; [apply DoLostClean_ends, Hs|].
  intros [[]|x] s' ([(L1 & L2 & L3 & L4) HI] & Hid & _); [|by repeat split]. apply ends_bind, ends_modify, ends_modify.
  unfold Inv, loose. cbn. repeat split; try done; try lia. destruct (_zk s'.1); [done|]. by destruct L3.
Qed.

Lemma keeps_CreateNode : keeps (CreateNodeAsNeeded e).
Proof.
  intros s Hs. unfold CreateNodeAsNeeded. apply ends_bind, ends_gets.
  destruct (Z.leb_spec 0 (_actual_id s.1)) as [|Ha]; [done|]. apply ends_bind.
  assert (ends (UpdateName e) s (fun _ s' => Inv s' /\ _actual_id s'.1 < 0)) as Hn.
  { unfold UpdateName. apply ends_bind, ends_gets. destruct (_name s.1); [destruct (hostname e)|]; done. }
  eapply ends_mono; [exact Hn|]. intros [ok|x] s1 [HI1 Ha1]; [|done].
  destruct ok; cbn [negb]; [|apply council_keeps_bind; [apply keeps_DoQuitClean|intros ?; apply council_keeps_ret|done]].
  apply ends_bind, ends_gets, ends_bind, ends_gets, ends_bind. unfold deref. apply ends_bind, ends_gets.
  destruct (_zk s1.1) eqn:Hz; [|done]. apply ends_ret, ends_bind, ends_modify.
  destruct HI1 as [(L1 & L2 & L3 & L4) HI]. rewrite Hz in L3.
  assert (Inv (s1.1, s1.2 ++ [Create (_election_path s1.1 ++ B "/" ++ _node_name s1.1 ++ B "_")])) as HI1.
  { unfold Inv, loose. cbn. rewrite Hz, told_app, L4. repeat split; try done; lia. }
  destruct (create e _) as [error actual]. destruct (negb (error =? ZOK)); [apply council_keeps_bind; keeps; done|].
  destruct (negb (zlen actual =? _)); [apply council_keeps_bind; keeps; done|]. apply ends_bind, ends_modify.
  set (id := atoi32 _ _). assert (-1 <= id) as Hid.
  { unfold id, atoi32. repeat case_match; lia. }
  clearbody id. destruct (id <? 0); [apply ends_bind, ends_modify|]; apply ends_ret; unfold Inv, loose; cbn;
    rewrite Hz, ?told_app, L4; repeat split; try done; lia.
Qed.

Lemma keeps_track_loop n l : keeps (track_loop e n l).
Proof. revert l. induction n as [|n IH]; intros [|[i name] l]; cbn [track_loop]; keeps. Qed.

Lemma Attend_at_keeps m s : Inv s -> 0 <= _actual_id s.1 -> ends (Attend_at e m) s (fun _ s' => Inv s').
Proof.
  intros Hs Ha. unfold Attend_at. apply ends_bind, ends_gets. destruct (find _ m) as [v|]; [|by apply keeps_DoQuitClean].
  apply ends_bind, ends_gets. destruct (_ <=? _size s.1).
  - apply ends_bind, ends_gets. destruct (Z.leb_spec 0 (_id s.1)) as [|Hid]; [done|].
    apply ends_bind, ends_modify, ends_bind, ends_modify, ends_bind, ends_gets. destruct Hs as [(L1 & L2 & L3 & L4) HI].
    cbn [fst snd _cb]. destruct (_zk s.1) eqn:Hz; [|lia]. rewrite L3. apply ends_modify. unfold Inv, loose, number in *. cbn.
    rewrite ?Hz, !told_app, L4. rewrite (proj2 (Z.leb_gt _ _)), (proj2 (Z.leb_le 0 (_actual_id s.1))) by lia.
    repeat split; try done; lia.
  - assert (keeps (assert_ (negb (bool_decide (first m = Some (_actual_id s.1)))) ;;;
      let* r := track_loop e (Z.to_nat (_size s.1)) (before (_actual_id s.1) m) in OnShrinked r)) as H; [|by apply H].
    pose proof (keeps_track_loop (Z.to_nat (_size s.1)) (before (_actual_id s.1) m)). unfold OnShrinked.
    pose proof keeps_DoLostClean. keeps.
Qed.

Lemma keeps_Attend : keeps (Attend e).
Proof.
  unfold Attend. apply council_keeps_bind; [apply keeps_CreateNode|intros ok]. apply council_keeps_if; [apply keeps_DoQuitClean|].
  intros s Hs. apply ends_bind, ends_gets, ends_bind. unfold assert_. destruct (Z.leb_spec 0 (_actual_id s.1)); [|done].
  apply ends_ret, ends_bind. unfold GetCandidates, deref. apply ends_bind, ends_gets, ends_bind, ends_bind, ends_gets.
  destruct (_zk s.1); [|done]. apply ends_ret. destruct (get_children e _) as [error l].
  destruct (negb _); [apply ends_bind, ends_modify, ends_ret; by apply (council_keeps_ret tt (_, _)), (keeps_size (-1))|].
  apply ends_ret. by apply Attend_at_keeps.
Qed.

End Keeps.

(** ** Runs *)

(** What happens to a council, with what ZooKeeper returns meanwhile. *)
Inductive event : Type :=
| EInitialize (zk : bool) (path : bytes) (cb initialize track : bool)
| EData (path : bytes) (data : option bytes)
| EError (error : Z)
| EShutdown.

Definition handle_event (e : env) (ev : event) : M unit :=
  match ev with
  | EInitialize zk path cb i t => Initialize zk path cb i t ;;; ret tt
  | EData path data => OnData e path data
  | EError error => OnError e error
  | EShutdown => Shutdown e ;;; ret tt
  end.

(** Until an assertion or a null pointer ends the program. *)
Fixpoint run_events (l : list (env * event)) (s : Council * list act) : result exn (Council * list act) :=
  match l with
  | [] => Ok s
  | (e, ev) :: l => match handle_event e ev s with (Ok _, s) => run_events l s | (Err x, _) => Err x end
  end.

(** The callback is never NULL in what follows. *)
Definition with_callback (ev : event) : Prop := match ev with EInitialize _ _ cb _ _ => cb = true | _ => True end.

Lemma keeps_event e ev : with_callback ev -> keeps (handle_event e ev).
Proof.
  intros Hcb. destruct ev as [zk path cb i t|path data|error|]; cbn [handle_event].
  - apply council_keeps_bind; [|intros ?; apply council_keeps_ret]. intros s Hs. unfold Initialize. apply ends_bind, ends_gets.
    destruct (_zk s.1) eqn:Hz; [done|]. cbn [orb]. destruct (_ || _); [done|]. destruct (negb i); [done|]. destruct (negb t); [done|].
    cbn in Hcb. subst cb. apply ends_bind, ends_modify, ends_bind. unfold ResetState.
    apply ends_bind, ends_modify, ends_bind, ends_modify, ends_modify, ends_bind, ends_modify, ends_ret.
    destruct Hs as [(L1 & L2 & L3 & L4) HI]. rewrite Hz in L3. unfold Inv, loose, number in *. cbn.
    rewrite (proj2 (Z.leb_gt _ _)) in L4 by lia. repeat split; try done; lia.
  - unfold OnData. apply council_keeps_bind; [apply keeps_get|intros p]. apply council_keeps_if; [apply council_keeps_ret|]. apply council_keeps_if.
    + destruct data as [data|]; [|apply keeps_DoQuitClean]. cbv zeta. unfold OnShrinked.
      pose proof keeps_DoLostClean. pose proof (keeps_Attend e). keeps.
    + destruct data; [apply council_keeps_ret|]. pose proof (keeps_Attend e). keeps.
  - unfold OnError, OnFired. pose proof keeps_OnLost. pose proof (keeps_DoQuitClean e). keeps.
  - apply council_keeps_bind; [|intros ?; apply council_keeps_ret]. intros s Hs. unfold Shutdown, OnQuit. apply ends_bind, ends_gets.
    destruct (negb _); [done|]. apply ends_bind. eapply ends_mono; [by apply DoQuitClean_ends|].
    intros [[]|x] s' [HI Hq]; [|done]. apply ends_bind, ends_modify, ends_ret. destruct (Hq eq_refl) as [Hid Ha].
    destruct HI as [(L1 & L2 & L3 & L4) HI]. unfold Inv, loose. cbn. repeat split; try done; lia.
Qed.

Lemma keeps_run l s s' : Forall (fun x => with_callback x.2) l -> Inv s -> run_events l s = Ok s' -> Inv s'.
Proof.
  intros Hl. revert s. induction Hl as [|[e ev] l Hev Hl IH]; intros s Hs; cbn; [by intros [= ->]|].
  pose proof (keeps_event e ev Hev s Hs) as H. unfold ends in H. destruct (handle_event e ev s) as [[a|x] s1]; [|done].
  by apply IH.
Qed.

(** ** Elections *)

(** The numbers of the candidates that would be elected. *)
Definition elected (size : Z) (m : list (Z * bytes)) : list Z :=
  map fst (filter (fun c => position c.1 m 0 <= size) m).

Definition with_id (n : Z) (c : Council) : Council :=
  mkCouncil (_zk c) (_actual_id c) (_election_path c) (_node_name c) (_name c) (_cb c) n (_size c).

(** The nodes that a candidate tracks: its last [size] predecessors. *)
Definition tracked (size id : Z) (m : list (Z * bytes)) : list (Z * bytes) := take (Z.to_nat size) (before id m).

Lemma track_loop_ok e n l s : (n <= length l)%nat -> (forall p, track_existing e p = true) ->
  track_loop e n l s = (Ok true, (s.1, s.2 ++ map (fun c => TrackExisting (node_path (_election_path s.1) c.2 c.1)) (take n l))).
Proof.
  intros Hn He. revert l s Hn. induction n as [|n IH]; intros [|[i name] l] s Hn; cbn in Hn; try lia.
  - unfold ret. cbn. by destruct s as [c a]; cbn; rewrite app_nil_r.
  - unfold ret. cbn. by destruct s as [c a]; cbn; rewrite app_nil_r.
  - cbn [track_loop]. unfold bind at 1, get, gets, bind, does, modify. rewrite He, IH by lia. cbn. by rewrite <- app_assoc.
Qed.

Lemma DoLostClean_recovers s : DoLostClean true s =
  (Ok tt, (with_id (-1) s.1, s.2 ++ [WakeAll] ++ (if (0 <=? _id s.1) && _cb s.1 then [OnFired_cb true] else []))).
Proof.
  unfold DoLostClean, bind, get, gets, ResetState, set_id, put, does, modify, ret. cbn [fst snd]. rewrite orb_false_r.
  unfold with_id. destruct s as [c a]. cbn -[app]. destruct (_ && _); cbn -[app]; by rewrite <- ?app_assoc, ?app_nil_r.
Qed.

Lemma first_head {V} (m : list (Z * V)) k v : m !! 0%nat = Some (k, v) -> first m = Some k.
Proof. destruct m as [|[a w] m]; [done|]. by intros [= -> ->]. Qed.

(** No candidate is there twice. *)
Lemma candidates_NoDup {V} (m : list (Z * V)) : sorted m -> NoDup m.
Proof.
  induction m as [|[i v] m IH]; intros Hs; constructor.
  - intros Hin. pose proof (sorted_notin _ _ _ Hs) as Hn. apply Hn. by eapply in_keys.
  - apply IH. by apply sorted_cons_inv in Hs as [].
Qed.

(** A candidate that is tracked or before is found from its position on. *)
Lemma not_first size id v m : sorted m -> find id m = Some v -> 0 < size < position id m 0 -> first m <> Some id.
Proof.
  intros Hs Hf Hp E. destruct m as [|[k w] m]; [done|]. cbn in E. injection E as ->.
  rewrite (position_lookup 0 ((id, w) :: m) id w Hs eq_refl) in Hp. lia.
Qed.

(** A candidate that is among the first is elected, unless it already is. *)
Lemma Attend_at_first m e c l v : find (_actual_id c) m = Some v -> position (_actual_id c) m 0 <= _size c ->
  Attend_at e m (c, l) =
    (Ok tt, if 0 <=? _id c then (c, l)
            else (with_id (_actual_id c) c, l ++ WakeAll :: (if _cb c then [OnElected_cb (_actual_id c)] else []))).
Proof.
  intros Hf Hp. unfold Attend_at, bind at 1, get at 1, gets at 1. cbn [fst snd]. rewrite Hf.
  unfold bind at 1, get at 1, gets at 1. cbn [fst snd]. rewrite (proj2 (Z.leb_le _ _)) by lia.
  unfold bind at 1, get at 1, gets at 1. cbn [fst snd]. destruct (0 <=? _id c); [done|].
  unfold bind, set_id, put, does, get, gets, modify, ret. cbn [fst snd _cb].
  unfold with_id. destruct (_cb c); cbn -[app]; by rewrite <- ?app_assoc.
Qed.

(** One that is not tracks its predecessors and has no number. *)
Lemma Attend_at_behind m e c l v : sorted m -> find (_actual_id c) m = Some v -> 0 < _size c < position (_actual_id c) m 0 ->
  (forall p, track_existing e p = true) ->
  Attend_at e m (c, l) =
    (Ok tt, (with_id (-1) c,
       l ++ map (fun t => TrackExisting (node_path (_election_path c) t.2 t.1)) (tracked (_size c) (_actual_id c) m)
         ++ WakeAll :: (if (0 <=? _id c) && _cb c then [OnFired_cb true] else []))).
Proof.
  intros Hs Hf Hp He. pose proof (before_length _ v m Hs Hf) as Hlen.
  assert (Z.to_nat (_size c) <= length (before (_actual_id c) m))%nat as Hn by (unfold zlen in Hlen; lia).
  unfold Attend_at, bind at 1, get at 1, gets at 1. cbn [fst snd]. rewrite Hf.
  unfold bind at 1, get at 1, gets at 1. cbn [fst snd]. rewrite (proj2 (Z.leb_gt _ _)) by lia.
  unfold bind at 1, assert_. rewrite bool_decide_eq_false_2 by (by apply (not_first (_size c) _ v)). cbn [negb].
  unfold ret at 1. cbn beta iota. unfold bind. rewrite track_loop_ok by done. unfold OnShrinked.
  rewrite DoLostClean_recovers. cbn [fst snd]. by rewrite <- !app_assoc.
Qed.

(** As long as these are candidates there are enough before it. *)
Lemma tracked_keep size a v m m' : sorted m' -> (a, v) ∈ m' -> sorted m -> size <= zlen (before a m) ->
  (forall t, t ∈ tracked size a m -> t ∈ m') -> size < position a m' 0.
Proof.
  intros Hs' Ha Hs Hlen Ht. rewrite position_count by done.
  assert (NoDup ((a, v) :: tracked size a m)) as Hnd.
  { constructor.
    - intros Hin. apply (elem_of_sublist _ (before a m)) in Hin; [|apply sublist_take].
      apply before_lt in Hin as [Hlt _]. cbn in Hlt. lia.
    - eapply sublist_NoDup; [|apply sublist_take]. unfold before. rewrite reverse_Permutation. apply NoDup_filter.
      by apply candidates_NoDup. }
  assert (size <= zlen (tracked size a m)) as El by (unfold tracked, zlen in *; rewrite length_take; lia).
  assert ((a, v) :: tracked size a m ⊆+ filter (fun c => c.1 <= a) m') as Hsub.
  { apply NoDup_submseteq; [done|]. intros t [->|Hin]%elem_of_cons; apply list_elem_of_filter; cbn; [split; [lia|done]|].
    split; [|by apply Ht]. apply (elem_of_sublist _ (before a m)) in Hin; [|apply sublist_take].
    apply before_lt in Hin as [Hlt _]. lia. }
  apply submseteq_length in Hsub. cbn [length] in Hsub. unfold zlen in *. lia.
Qed.

(** An election.  Of the candidates at most [_size] are elected: the
    first ones.  A candidate that attends takes its number if it is among
    these; if not, it has none afterwards, says so if it had one, and tracks
    its [_size] nearest predecessors: as long as these are still candidates it
    is not among the first, whoever else has gone or come behind it. *)
Theorem council_elects (m : list (Z * bytes)) (e : env) (c : Council) (l : list act) (v : bytes) :
  sorted m -> find (_actual_id c) m = Some v -> 0 < _size c -> (forall p, track_existing e p = true) ->
  let a := _actual_id c in
  elected (_size c) m = take (Z.to_nat (_size c)) (map fst m) /\
  (a ∈ elected (_size c) m <-> position a m 0 <= _size c) /\
  (position a m 0 <= _size c ->
     Attend_at e m (c, l) =
       (Ok tt, if 0 <=? _id c then (c, l) else (with_id a c, l ++ WakeAll :: (if _cb c then [OnElected_cb a] else [])))) /\
  (_size c < position a m 0 ->
     zlen (tracked (_size c) a m) = _size c /\
     Attend_at e m (c, l) =
       (Ok tt, (with_id (-1) c,
          l ++ map (fun t => TrackExisting (node_path (_election_path c) t.2 t.1)) (tracked (_size c) a m)
            ++ WakeAll :: (if (0 <=? _id c) && _cb c then [OnFired_cb true] else []))) /\
     forall m', sorted m' -> (a, v) ∈ m' -> (forall t, t ∈ tracked (_size c) a m -> t ∈ m') ->
       _size c < position a m' 0).
Proof.
  intros Hs Hf Hsize He a.
  assert (elected (_size c) m = take (Z.to_nat (_size c)) (map fst m)) as Eel.
  { unfold elected. rewrite positions_up_to by done. symmetry. apply firstn_map. }
  split; [done|]. split; [|split].
  - unfold elected. rewrite list_elem_of_fmap. split.
    + intros ([k w] & -> & Hin%list_elem_of_filter). apply Hin.
    + intros Hp. exists (a, v). split; [done|]. apply list_elem_of_filter. split; [done|]. by apply find_in.
  - intros Hp. by eapply Attend_at_first.
  - intros Hp. pose proof (before_length a v m Hs Hf) as Hlen.
    split; [unfold tracked, zlen in *; rewrite length_take; lia|]. split; [by eapply Attend_at_behind|].
    intros m' Hs' Ha Ht. eapply (tracked_keep _ _ _ m); eauto; lia.
Qed.

(** C31: what the callback knows.  Whatever happens to a council, in whatever
    order, and whatever ZooKeeper answers: the callback is never told of an
    election twice without having been fired in between; it has been told of
    an election, and not been fired since, exactly while the council has a
    number, which is the one it was told and the number of its own node; and
    IsElected says so. *)
Theorem council_informs (l : list (env * event)) (name : bytes) (c : Council) (a : list act) :
  Forall (fun x => with_callback x.2) l -> run_events l (Council_new name, []) = Ok (c, a) ->
  told a = Some (if 0 <=? _id c then Some (_id c) else None) /\
  (0 <= _id c -> _id c = _actual_id c) /\
  (IsElected c = 0 <-> 0 <= _id c) /\
  (WaitUntilAttended c = Some true <-> 0 <= _id c).
Proof.
  intros Hl Hr. pose proof (keeps_run l (Council_new name, []) (c, a) Hl) as H.
  destruct H as [(H1 & H2 & H3 & H4) HI]; [done|done|]. cbn [fst snd] in *. split; [done|]. split; [done|].
  unfold IsElected, WaitUntilAttended. destruct (_zk c); cbn [negb orb].
  - destruct (Z.ltb_spec (_id c) (-1)), (Z.leb_spec 0 (_id c)), (Z.ltb_spec (_id c) 0); try lia;
      split; split; intros ?; first [done|lia|congruence].
  - split; split; intros ?; first [done|lia|congruence].
Qed.

(** A first candidate that is the only one, then a second one that comes when
    the first one is a councilman. *)
Definition demo_env (id : Z) (ids : list Z) : env :=
  mkEnv (fun _ => ZOK) (fun path => (ZOK, path ++ pad0 10 (dec id)))
    (fun _ => (ZOK, map (fun i => B "me_" ++ pad0 10 (dec i)) ids)) (fun _ => true) None.

Definition demo_start (id : Z) (ids : list Z) : list (env * event) :=
  [(demo_env id ids, EInitialize true (B "/e") true true true); (demo_env id ids, EData (B "/e") (Some (B "1")))].

Lemma council_informs_witness :
  told [Create (B "/e/me_"); TrackExisting (B "/e/me_0000000004"); WakeAll; Cancel (B "/e/me_0000000004"); WakeAll; OnElected_cb 7]
    = Some (Some 7).
Proof.
  apply (council_informs
    (demo_start 7 [7; 4] ++ [(demo_env 7 [7], EData (B "/e/me_0000000004") None)]) (B "me")
    (mkCouncil true 7 (B "/e") (B "me") (B "me") true 7 1)).
  - repeat constructor.
  - vm_compute. reflexivity.
Defined.

Lemma council_elects_witness :
  1 < position 7 [(4, B "me"); (6, B "me"); (7, B "me")] 0 /\
  tracked 1 7 [(4, B "me"); (6, B "me"); (7, B "me")] = [(6, B "me")] /\
  1 < position 7 [(6, B "me"); (7, B "me"); (9, B "me")] 0.
Proof.
  split; [done|]. split; [done|].
  destruct (council_elects [(4, B "me"); (6, B "me"); (7, B "me")] (demo_env 7 []) (mkCouncil true 7 (B "/e") (B "me") (B "me") true (-1) 1)
    [] (B "me")) as (_ & _ & _ & H).
  - repeat constructor; cbn; lia.
  - done.
  - cbn. lia.
  - done.
  - destruct H as (_ & _ & H); [cbn; lia|]. apply H.
    + repeat constructor; cbn; lia.
    + set_solver.
    + intros t Ht%list_elem_of_In. destruct Ht as [<-|[]]. set_solver.
Defined.

(** A council without a size.  When the size was deleted, could not be read
    or is not a number, a candidate that looks at the others all the same (a
    node that it has tracked is gone) ends the program if it is the first of
    them; if it is not, it tracks nobody, and waits. *)
Theorem council_too_small (m : list (Z * bytes)) (e : env) (c : Council) (l : list act) (v : bytes) :
  sorted m -> find (_actual_id c) m = Some v -> _size c <= 0 ->
  Attend_at e m (c, l) =
    (if bool_decide (first m = Some (_actual_id c)) then (Err assertion_failed, (c, l))
     else (Ok tt, (with_id (-1) c, l ++ WakeAll :: (if (0 <=? _id c) && _cb c then [OnFired_cb true] else [])))).
Proof.
  intros Hs Hf Hz. assert (0 < position (_actual_id c) m 0) as Hp.
  { pose proof (before_length _ v m Hs Hf). unfold zlen in *. lia. }
  unfold Attend_at, bind at 1, get at 1, gets at 1. cbn [fst snd]. rewrite Hf.
  unfold bind at 1, get at 1, gets at 1. cbn [fst snd]. rewrite (proj2 (Z.leb_gt _ _)) by lia.
  unfold bind at 1, assert_. destruct (bool_decide _); cbn [negb]; [done|].
  unfold ret at 1. cbn beta iota. replace (Z.to_nat (_size c)) with O by lia.
  unfold bind, track_loop, ret at 1, OnShrinked. destruct (before (_actual_id c) m); by rewrite DoLostClean_recovers.
Qed.

(** The size becomes unreadable while the second candidate tracks the first
    one, which then leaves. *)
Lemma council_too_small_witness :
  run_events (demo_start 7 [7; 4] ++ [(demo_env 7 [7; 4], EData (B "/e") (Some (B "x")))]) (Council_new (B "me"), []) =
    Ok (mkCouncil true 7 (B "/e") (B "me") (B "me") true (-1) (-1),
        [Create (B "/e/me_"); TrackExisting (B "/e/me_0000000004"); WakeAll; WakeAll]) /\
  Attend_at (demo_env 7 [7]) [(7, B "me")] (mkCouncil true 7 (B "/e") (B "me") (B "me") true (-1) (-1), []) =
    (Err assertion_failed, (mkCouncil true 7 (B "/e") (B "me") (B "me") true (-1) (-1), [])).
Proof.
  split; [vm_compute; reflexivity|].
  rewrite (council_too_small [(7, B "me")] (demo_env 7 [7]) (mkCouncil true 7 (B "/e") (B "me") (B "me") true (-1) (-1)) [] (B "me"));
    [done|repeat constructor|done|done].
Defined.
