(* ===== verification/Naming.v ===== *)
(** * Names of servers: zookeeper/naming.cpp

    A server attends a path with a numbered node of its own; who watches the
    path knows the numbers and names of all.  The handlers run with the mutex
    held: programs on the object and on the list of what they did. *)

From S2P Require Import Prelude Digits Libc StdMap ExceptionMonad ZooKeeper Council.

Record Naming : Type := mkNaming {
  _zk : bool;
  _actual_path : bytes;
  _path : bytes;
  _naming : list (Z * bytes);
  _cb : bool
}.

Definition Naming_new : Naming := mkNaming false [] [] [] false.

(** What is done to the outside, with the result where there is one. *)
Inductive deed : Type :=
| Erased (path : bytes) (error : Z)
| Created (path : bytes) (error : Z) (actual : bytes)
| TrackerInitialize
| TrackerTrack (path : bytes)
| TrackerShutdown
| OnError_cb (path : bytes)
| OnChanged_cb (naming : list (Z * bytes)).

(** What ZooKeeper and the tracker answer during a step. *)
Record answers : Type := mkAnswers {
  erase_ : bytes -> Z;
  create_ : bytes -> Z * bytes;
  initialize_ : bool;
  track_ : bool
}.

Abbreviation NM := (XT (Naming * list deed) exn).

Definition of_ {A} (f : Naming -> A) : NM A := gets (fun s => f s.1).
Definition put_ (n : Naming) : NM unit := modify (fun s => (n, s.2)).
Definition done_ (d : deed) : NM unit := modify (fun s => (s.1, s.2 ++ [d])).

Definition set_actual_path (b : bytes) : NM unit :=
  let* n := of_ id in put_ (mkNaming (_zk n) b (_path n) (_naming n) (_cb n)).
Definition set_naming (m : list (Z * bytes)) : NM unit :=
  let* n := of_ id in put_ (mkNaming (_zk n) (_actual_path n) (_path n) m (_cb n)).

Section Handlers.
Context (a : answers).

(** Through [_zk], which may be null. *)
Definition RemoveNode : NM bool :=
  let* path := of_ _actual_path in
  if bool_decide (path = []) then ret true
  else
    let* zk := of_ _zk in
    if negb zk then throw undefined_behaviour
    else
      let error := erase_ a (c_str path) in
      done_ (Erased (c_str path) error) ;;;
      if negb (error =? ZOK) then ret false else set_actual_path [] ;;; ret true.

Definition CreateNode (naming_path identity : bytes) : NM bool :=
  let* actual := of_ _actual_path in
  if negb (bool_decide (actual = [])) then ret true
  else
    let path := c_str (naming_path ++ B "/" ++ identity ++ B "_") in
    let '(error, actual) := create_ a path in
    done_ (Created path error actual) ;;;
    if negb (error =? ZOK) then ret false else set_actual_path actual ;;; ret true.

Definition Get (naming : bool) (n : Naming) : option (list (Z * bytes)) := if naming then Some (_naming n) else None.

Definition Shutdown : NM bool :=
  let* zk := of_ _zk in
  if negb zk then ret true
  else
    done_ TrackerShutdown ;;;
    RemoveNode ;;;
    let* n := of_ id in
    put_ (mkNaming false [] [] (_naming n) false) ;;;
    ret true.

(** The callback takes a text, which cannot be made of the null pointer that the
    tracker passes when the session is lost. *)
Definition OnError (path : option bytes) : NM unit :=
  RemoveNode ;;;
  let* cb := of_ _cb in
  if (cb : bool) then match path with Some path => done_ (OnError_cb path) | None => throw undefined_behaviour end
  else ret tt.

Definition OnChildren (path : option bytes) (children : option (list bytes)) : NM unit :=
  match path with
  | None => ret tt
  | Some path =>
      if negb (bool_decide (hd NUL path = "/"%char)) then ret tt
      else
        let naming := match children with Some l => candidates l [] | None => [] end in
        set_naming naming ;;;
        let* cb := of_ _cb in
        if (cb : bool) then done_ (OnChanged_cb naming) else ret tt
  end.

Definition DoWatch (naming_path : bytes) (cb : bool) : NM bool :=
  done_ TrackerInitialize ;;;
  if negb (initialize_ a) then ret false
  else
    done_ (TrackerTrack naming_path) ;;;
    if negb (track_ a) then done_ TrackerShutdown ;;; ret false
    else
      let* n := of_ id in
      put_ (mkNaming true (_actual_path n) naming_path (_naming n) cb) ;;;
      ret true.

Definition bad_naming_path (zk : bool) (p : bytes) : bool :=
  negb zk || (zlen p <? 2) || negb (bool_decide (hd NUL p = "/"%char)) || bool_decide (List.last p NUL = "/"%char).

Definition Watch (zk : bool) (naming_path : bytes) (cb : bool) : NM bool :=
  if bad_naming_path zk naming_path then ret false
  else
    let* z := of_ _zk in
    if (z : bool) then ret false else DoWatch naming_path cb.

Definition Attend (zk : bool) (naming_path identity : bytes) (cb : bool) : NM bool :=
  if bad_naming_path zk naming_path || bool_decide (identity = []) then ret false
  else
    let* z := of_ _zk in
    if (z : bool) then ret false
    else
      let* ok := CreateNode naming_path identity in
      if negb ok then ret false else DoWatch naming_path cb.

End Handlers.

(** ** Runs *)

Inductive naming_event : Type :=
| NAttend (zk : bool) (naming_path identity : bytes) (cb : bool)
| NWatch (zk : bool) (naming_path : bytes) (cb : bool)
| NShutdown
| NError (path : option bytes)
| NChildren (path : option bytes) (children : option (list bytes)).

(** The tracker calls back between a successful Track and its Shutdown, that is
    while [_zk] is set. *)
Definition naming_step (a : answers) (e : naming_event) : NM unit :=
  let* zk := of_ _zk in
  match e with
  | NAttend z p i cb => Attend a z p i cb ;;; ret tt
  | NWatch z p cb => Watch a z p cb ;;; ret tt
  | NShutdown => Shutdown a ;;; ret tt
  | NError p => if (zk : bool) then OnError a p else ret tt
  | NChildren p l => if (zk : bool) then OnChildren p l else ret tt
  end.

Fixpoint naming_run (l : list (answers * naming_event)) (s : Naming * list deed) : result exn (Naming * list deed) :=
  match l with
  | [] => Ok s
  | (a, e) :: l => match naming_step a e s with (Ok _, s) => naming_run l s | (Err x, _) => Err x end
  end.

(** The nodes that were made and not removed. *)
Definition node_after (nodes : list bytes) (d : deed) : list bytes :=
  match d with
  | Created _ error actual => if error =? ZOK then nodes ++ [actual] else nodes
  | Erased path error => if error =? ZOK then filter (fun p => p <> path) nodes else nodes
  | _ => nodes
  end.

Definition nodes (l : list deed) : list bytes := foldl node_after [] l.

(** The paths of the nodes that ZooKeeper makes are texts, not empty. *)
Definition named (a : answers) : Prop := forall p, (create_ a p).1 = ZOK -> (create_ a p).2 <> [] /\ NUL ∉ (create_ a p).2.

Definition erases (a : answers) : Prop := forall p, erase_ a p = ZOK.

(** There is one node at most, and the object knows it. *)
Definition one_node (s : Naming * list deed) : Prop :=
  NUL ∉ _actual_path s.1 /\ nodes s.2 = if bool_decide (_actual_path s.1 = []) then [] else [_actual_path s.1].

Lemma nodes_app l d : nodes (l ++ [d]) = node_after (nodes l) d.
Proof. unfold nodes. by rewrite foldl_app. Qed.

Lemma c_str_text s : NUL ∉ s -> c_str s = s.
Proof.
  induction s as [|c s IH]; intros H; [done|]. apply not_elem_of_cons in H as [Hc Hs]. cbn.
  rewrite bool_decide_eq_false_2 by congruence. by rewrite IH.
Qed.

(** Other deeds leave the nodes alone. *)
Lemma one_node_deed n l d : one_node (n, l) -> (forall ns, node_after ns d = ns) -> one_node (n, l ++ [d]).
Proof. intros [H1 H2] Hd. split; [done|]. cbn in *. by rewrite nodes_app, Hd. Qed.

Definition keeps_node {A} (m : NM A) (s : Naming * list deed) : Prop :=
  ends m s (fun r s' => match r with Ok _ => one_node s' | Err _ => False end).

Lemma RemoveNode_ends a s : erases a -> one_node s -> _zk s.1 = true \/ _actual_path s.1 = [] ->
  ends (RemoveNode a) s (fun r s' => r = Ok true /\ one_node s' /\ _actual_path s'.1 = [] /\ _zk s'.1 = _zk s.1).
Proof.
  intros He Hs Hz. pose proof Hs as [Hn H]. unfold RemoveNode. apply ends_bind, ends_gets. case_bool_decide as Hp; [apply ends_ret; by split_and!|].
  apply ends_bind, ends_gets. destruct Hz as [Hz | ?]; [|done]. rewrite Hz. cbn [negb]. rewrite (He _). apply ends_bind, ends_modify.
  change (negb (ZOK =? ZOK)) with false. cbv iota. unfold set_actual_path. apply ends_bind, ends_bind, ends_gets, ends_modify, ends_ret.
  cbn. split; [done|]. split; [|done]. split; cbn; [apply not_elem_of_nil|]. rewrite nodes_app, H. cbn. rewrite c_str_text by done.
  rewrite decide_False by tauto. done.
Qed.

Lemma CreateNode_ends a p i s : named a -> one_node s ->
  ends (CreateNode a p i) s (fun r s' => (exists b, r = Ok b) /\ one_node s' /\ _zk s'.1 = _zk s.1).
Proof.
  intros Ha Hs. pose proof Hs as [Hn H]. unfold CreateNode. apply ends_bind, ends_gets. case_bool_decide as Hp; cbn [negb].
  2: { apply ends_ret. split; [by eexists|done]. }
  specialize (Ha (c_str (p ++ B "/" ++ i ++ B "_"))). destruct (create_ a _) as [error actual]. cbn in Ha.
  apply ends_bind, ends_modify.
  destruct (Z.eqb_spec error ZOK) as [->|Hne]; cbn [negb].
  - destruct (Ha eq_refl) as [H1 H2]. unfold set_actual_path. apply ends_bind, ends_bind, ends_gets, ends_modify, ends_ret.
    split; [by eexists|]. split; [|done]. split; cbn; [done|]. rewrite nodes_app, H. cbn. by rewrite bool_decide_eq_false_2.
  - apply ends_ret. split; [by eexists|]. split; [|done]. split; cbn; [done|]. rewrite nodes_app, H, Hp. cbn.
    by rewrite (proj2 (Z.eqb_neq _ _) Hne).
Qed.

Lemma DoWatch_keeps a p cb s : one_node s -> keeps_node (DoWatch a p cb) s.
Proof.
  intros Hs. unfold keeps_node, DoWatch. destruct s as [n l]. apply ends_bind, ends_modify.
  pose proof (one_node_deed n l TrackerInitialize Hs ltac:(done)) as H1.
  destruct (negb _); [by apply ends_ret|]. apply ends_bind, ends_modify.
  pose proof (one_node_deed n _ (TrackerTrack p) H1 ltac:(done)) as H2.
  destruct (negb _); [apply ends_bind, ends_modify, ends_ret; by apply one_node_deed|].
  by apply ends_bind, ends_gets, ends_bind, ends_modify, ends_ret.
Qed.

(** No error of the session. *)
Definition with_path (e : naming_event) : Prop := match e with NError None => False | _ => True end.

Lemma step_keeps a e s : named a -> erases a -> with_path e -> one_node s -> keeps_node (naming_step a e) s.
Proof.
  intros Ha He Hw Hs. unfold keeps_node, naming_step. apply ends_bind, ends_gets.
  assert (forall A (m : NM A), keeps_node m s -> keeps_node (m ;;; ret tt) s) as Hret.
  { intros A m. unfold keeps_node, ends, bind. destruct (m s) as [[x|x] s']; done. }
  destruct e as [z p i cb|z p cb| |p|p l].
  - apply Hret. unfold keeps_node, Attend. destruct (_ || _); [by apply ends_ret|]. apply ends_bind, ends_gets.
    destruct (_zk s.1); [by apply ends_ret|]. apply ends_bind. eapply ends_mono; [by apply CreateNode_ends|].
    intros r s' ([b ->] & H & _). destruct b; cbn [negb]; [by apply DoWatch_keeps|by apply ends_ret].
  - apply Hret. unfold keeps_node, Watch. destruct (bad_naming_path _ _); [by apply ends_ret|]. apply ends_bind, ends_gets.
    destruct (_zk s.1); [by apply ends_ret|]. by apply DoWatch_keeps.
  - apply Hret. unfold keeps_node, Shutdown. apply ends_bind, ends_gets. destruct (_zk s.1) eqn:Ez; [|by apply ends_ret]. cbn [negb].
    destruct s as [n l]. apply ends_bind, ends_modify, ends_bind.
    eapply ends_mono; [apply RemoveNode_ends; [done|by apply one_node_deed|by left]|].
    intros r [n' l'] (-> & [H1 H2] & H3 & _). apply ends_bind, ends_gets, ends_bind, ends_modify, ends_ret. cbn in *.
    rewrite H3 in H2. split; cbn; [apply not_elem_of_nil|done].
  - destruct (_zk s.1) eqn:Ez; [|by apply ends_ret]. unfold OnError. apply ends_bind.
    eapply ends_mono; [apply RemoveNode_ends; [done|done|by left]|]. intros r [n' l'] (-> & H & _).
    apply ends_bind, ends_gets. destruct (_cb _); [|by apply ends_ret]. destruct p as [p|]; [|done].
    apply ends_modify. by apply one_node_deed.
  - destruct (_zk s.1) eqn:Ez; [|by apply ends_ret]. unfold OnChildren. destruct p as [p|]; [|by apply ends_ret].
    destruct (negb _); [by apply ends_ret|]. destruct s as [n d]. unfold set_naming.
    apply ends_bind, ends_bind, ends_gets, ends_modify, ends_bind, ends_gets. destruct (_cb _); [apply ends_modify|by apply ends_ret].
    by apply (one_node_deed (mkNaming _ _ _ _ _) d).
Qed.

(** As long as nodes can be removed and no error comes without a path: whatever
    is called and happens, nothing goes through a null pointer, and the nodes
    that are left are the one that the object knows, if any. *)
Theorem naming_one_node (l : list (answers * naming_event)) : Forall (fun x => named x.1 /\ erases x.1 /\ with_path x.2) l ->
  exists n d, naming_run l (Naming_new, []) = Ok (n, d) /\
    nodes d = if bool_decide (_actual_path n = []) then [] else [_actual_path n].
Proof.
  intros Hl. assert (forall s, one_node s -> exists n d, naming_run l s = Ok (n, d) /\
    nodes d = if bool_decide (_actual_path n = []) then [] else [_actual_path n]) as H.
  { induction Hl as [|[a e] l (Ha & He & Hw) Hl IH]; intros s Hs; cbn [naming_run]; [destruct s as [n d]; exists n, d; split; [done|apply Hs]|].
    pose proof (step_keeps a e s Ha He Hw Hs) as H. unfold keeps_node, ends in H. destruct (naming_step a e s) as [[x|x] s']; [|done].
    by apply IH. }
  apply H. split; [apply not_elem_of_nil|done].
Qed.

(** A server that could not track its path is not registered, but its node is
    there: Shutdown leaves it, and the next Attend, of another path, takes it
    for its own. *)
Theorem naming_failed_Attend (a a' : answers) (p p' i i' actual : bytes) (cb cb' : bool) :
  bad_naming_path true p = false -> bad_naming_path true p' = false -> i <> [] -> i' <> [] -> actual <> [] ->
  create_ a (c_str (p ++ B "/" ++ i ++ B "_")) = (ZOK, actual) -> initialize_ a = true -> track_ a = false ->
  initialize_ a' = true -> track_ a' = true ->
  let s := (Attend a true p i cb (Naming_new, [])).2 in
  (Attend a true p i cb (Naming_new, [])).1 = Ok false /\ nodes s.2 = [actual] /\
  Shutdown a' s = (Ok true, s) /\
  (Attend a' true p' i' cb' s).1 = Ok true /\ nodes (Attend a' true p' i' cb' s).2.2 = [actual].
Proof.
  intros Hp Hp' Hi Hi' Hact Hc Hin Htr Hin' Htr'. cbv zeta. unfold Attend. rewrite Hp, Hp', !bool_decide_eq_false_2 by done. cbn [orb].
  unfold Shutdown, CreateNode, DoWatch. set (node := c_str (p ++ B "/" ++ i ++ B "_")) in *. clearbody node.
  unfold of_, put_, done_, set_actual_path, bind, gets, modify, ret. cbn. rewrite Hc. cbn.
  rewrite Hin, Htr. cbn. rewrite bool_decide_eq_false_2 by done. cbn. rewrite Hin', Htr'. by split_and!.
Qed.

(** The session's error reaches a Naming with a callback as a null path. *)
Theorem naming_session_error (a : answers) (n : Naming) (d : list deed) : _cb n = true -> _actual_path n = [] ->
  (OnError a None (n, d)).1 = Err undefined_behaviour.
Proof.
  intros Hcb Hp. unfold OnError, RemoveNode, of_, bind, gets, ret. cbn. rewrite bool_decide_eq_true_2 by done. cbn. by rewrite Hcb.
Qed.
