(* ===== verification/ObjectMap.v ===== *)
(** * Reference-counted objects by key: object_map.h

    [ObjectMap] keeps the objects it creates in [_map] with the number of
    callers that hold each; an object erased while it is held moves to
    [_drop] until its last holder releases it.  The pure virtual [Create] and
    [Destroy] are the interface [Objects] over the subclass's state.  A call
    holds the mutex for its whole length, so a call is one step; the wait of
    [EraseAll] is a state of its own.  The theorems: an object lives while it is held. *)

From S2P Require Import Prelude Utility StdMap.

(** ** What a subclass provides

    [live] lists the objects that [Create] returned and [Destroy] has not
    taken: [Create] returns a new object made for its key or fails, [Destroy]
    frees one. *)
Class Objects (K T W : Type) := {
  Create : K -> W -> W * option T;
  Destroy : T -> W -> W;
  live : W -> list T;
  made_for : K -> T -> Prop;
  Create_some k w w' x : Create k w = (w', Some x) ->
    (x ∉ live w) /\ (live w' ≡ₚ x :: live w) /\ made_for k x;
  Create_none k w w' : Create k w = (w', None) -> live w' ≡ₚ live w;
  Destroy_live x w : x ∈ live w -> live w ≡ₚ x :: live (Destroy x w)
}.

(** The mapped value [V]: the object and its reference count, a [size_t]. *)
Abbreviation V T := (T * Z)%type.

(** An [ObjectMap]'s fields; the iterator [_ptr] is the key it is at. *)
Record ObjectMap (K T : Type) : Type := mkObjectMap {
  _map : list (K * V T);
  _drop : list (K * V T);
  _ptr : option K
}.
Arguments mkObjectMap {K T}.
Arguments _map {K T}.
Arguments _drop {K T}.
Arguments _ptr {K T}.

Section ObjectMap.
Context {K T W : Type} {OK : Ordered K} {TD : EqDecision T} {OB : Objects K T W}.

Implicit Types (s : ObjectMap K T) (w : W) (key : K) (object : T).

Definition set_map s m : ObjectMap K T := mkObjectMap m (_drop s) (_ptr s).

Definition ObjectMap_new : ObjectMap K T := mkObjectMap [] [] None.

(** The objects that [for_each] visits, in order. *)
Definition for_each s : list (K * T) := map (fun e => (e.1, e.2.1)) (_map s).

Definition size s : nat := length (_map s) + length (_drop s).

Definition destroy_all (l : list (K * V T)) w : W :=
  fold_left (fun w e => Destroy e.2.1 w) l w.

Definition Clear s w : ObjectMap K T * W :=
  (mkObjectMap [] [] None, destroy_all (_map s) (destroy_all (_drop s) w)).

(** [++p->second.second] at the key [key]. *)
Definition increment key (v : V T) s : ObjectMap K T :=
  set_map s (assign key (v.1, u64 (v.2 + 1)) (_map s)).

Definition DoAdd key (init : Z) s w : ObjectMap K T * W * option T :=
  match find key (_map s) with
  | Some v => (increment key v s, w, Some v.1)
  | None =>
      match Create key w with
      | (w, None) => (s, w, None)
      | (w, Some object) =>
          (mkObjectMap (insert key (object, init) (_map s)) (_drop s) None, w, Some object)
      end
  end.

Definition Add key s w : ObjectMap K T * W * option T := DoAdd key 1 s w.

Definition DoErase key s w : ObjectMap K T * W :=
  match find key (_map s) with
  | None => (s, w)
  | Some (object, n) =>
      let '(drop, w) :=
        if n =? 0 then (_drop s, Destroy object w)
        else (insert key (object, n) (_drop s), w) in
      (mkObjectMap (erase key (_map s)) drop None, w)
  end.

Definition Erase key s w : ObjectMap K T * W := DoErase key s w.

(** The loop of [EraseAll] over [_map]. *)
Definition EraseAll_step (a : list (K * V T) * W) (e : K * V T) : list (K * V T) * W :=
  if e.2.2 =? 0 then (a.1, Destroy e.2.1 a.2) else (insert e.1 e.2 a.1, a.2).

(** [while (!_drop.empty())]: whether the caller waits on the condition. *)
Definition EraseAll_waits s : bool := bool_decide (_drop s <> []).

(** The last component: the call is left waiting. *)
Definition EraseAll (wait_until_empty : bool) s w : ObjectMap K T * W * bool :=
  let '(drop, w) := fold_left EraseAll_step (_map s) (_drop s, w) in
  let s := mkObjectMap [] drop None in
  (s, w, wait_until_empty && EraseAll_waits s).

(** The loop of [Release] over the equal range of [key] in [_drop]. *)
Fixpoint Release_drop key object (d : list (K * V T)) w : list (K * V T) * W * bool :=
  match d with
  | [] => ([], w, false)
  | (k, (x, n)) :: d =>
      if decide (k = key /\ x = object) then
        let n := u64 (n - 1) in
        if n =? 0 then (d, Destroy x w, true) else ((k, (x, n)) :: d, w, false)
      else
        let '(d, w, wake) := Release_drop key object d w in
        ((k, (x, n)) :: d, w, wake)
  end.

(** The last component: the waiters of the condition are woken. *)
Definition Release key object s w : ObjectMap K T * W * bool :=
  match find key (_map s) with
  | Some (x, n) =>
      if decide (x = object) then
        (set_map s (assign key (x, u64 (n - 1)) (_map s)), w, false)
      else
        let '(d, w, wake) := Release_drop key object (_drop s) w in
        (mkObjectMap (_map s) d (_ptr s), w, wake)
  | None =>
      let '(d, w, wake) := Release_drop key object (_drop s) w in
      (mkObjectMap (_map s) d (_ptr s), w, wake)
  end.

Definition Get key s : ObjectMap K T * option T :=
  match find key (_map s) with
  | None => (s, None)
  | Some v => (increment key v s, Some v.1)
  end.

(** [_ptr] after the two steps of [GetNext], when [_map] is not empty. *)
Definition GetNext_ptr s : option K :=
  let p := match _ptr s with Some k => after k (_map s) | None => None end in
  match p with Some k => Some k | None => first (_map s) end.

(** The key and the object. *)
Definition GetNext s : ObjectMap K T * option (K * T) :=
  match GetNext_ptr s with
  | None => (s, None)
  | Some k =>
      match find k (_map s) with
      | None => (s, None)
      | Some v =>
          (mkObjectMap (assign k (v.1, u64 (v.2 + 1)) (_map s)) (_drop s) (Some k),
           Some (k, v.1))
      end
  end.

(** [index] is the value of [ranged_rand(_map.size())]; [std::advance] to the
    end of the map or beyond leaves nothing to read. *)
Definition GetRandom_at (index : Z) s : result exn (ObjectMap K T * option (K * T)) :=
  if index <? 0 then Err undefined_behaviour
  else
    match nth_error (_map s) (Z.to_nat index) with
    | None => Err undefined_behaviour
    | Some (k, v) => Ok (increment k v s, Some (k, v.1))
    end.

(** [draws]: the values of the generator; [None]: they are used up. *)
Definition GetRandom (RAND_MAX : Z) (draws : list Z) s
  : option (result exn (ObjectMap K T * option (K * T))) :=
  match _map s with
  | [] => Some (Ok (s, None))
  | _ =>
      match ranged_rand RAND_MAX (zlen (_map s)) draws with
      | Some (index, _) => Some (GetRandom_at index s)
      | None => None
      end
  end.

Definition SetAll_add (a : ObjectMap K T * W) key : ObjectMap K T * W :=
  match find key (_map a.1) with
  | None => (DoAdd key 0 a.1 a.2).1
  | Some _ => a
  end.

Definition SetAll (keys : list K) s w : ObjectMap K T * W :=
  let '(s, w) := fold_left SetAll_add keys (s, w) in
  let gone := filter (fun k => k ∉ keys) (StdMap.keys (_map s)) in
  fold_left (fun a k => DoErase k a.1 a.2) gone (s, w).

End ObjectMap.

Section Facts.
Context {K T W : Type} {OK : Ordered K} {TD : EqDecision T} {OB : Objects K T W}.

Implicit Types (s : ObjectMap K T) (w : W) (key : K) (x : T) (refs : list (K * T)).
Implicit Types (E R : list (K * V T)).

(** ** The invariant on the entries of both maps *)

Definition objs E : list T := map (fun e => e.2.1) E.

(** The number of holders of [x] under [key]. *)
Definition holders key x refs : Z := zlen (filter (fun r => r = (key, x)) refs).

Definition counted E refs : Prop :=
  (forall k x n, (k, (x, n)) ∈ E -> n = holders k x refs) /\
  (forall k x, (k, x) ∈ refs -> exists n, (k, (x, n)) ∈ E).

Definition owned E w : Prop :=
  NoDup (objs E) /\ (live w ≡ₚ objs E) /\ Forall (fun e => made_for e.1 e.2.1) E.

Definition Inv s w refs : Prop :=
  sorted (_map s) /\ owned (_map s ++ _drop s) w /\ counted (_map s ++ _drop s) refs /\
  Forall (fun e => e.2.2 <> 0) (_drop s) /\
  match _ptr s with Some k => k ∈ StdMap.keys (_map s) | None => True end.

Lemma holders_cons key x k y refs :
  holders key x ((k, y) :: refs) =
  (if decide ((k, y) = (key, x)) then 1 else 0) + holders key x refs.
Proof.
  unfold holders. rewrite filter_cons. destruct (decide ((k, y) = (key, x))).
  - by rewrite zlen_cons.
  - lia.
Qed.

#[export] Instance holders_proper key x : Proper ((≡ₚ) ==> (=)) (holders key x).
Proof. intros a b H. unfold holders, zlen. by rewrite H. Qed.

#[export] Instance objs_proper : Proper ((≡ₚ) ==> (≡ₚ)) objs.
Proof. intros a b H. unfold objs. by rewrite H. Qed.

#[export] Instance counted_proper : Proper ((≡ₚ) ==> (≡ₚ) ==> iff) counted.
Proof.
  assert (forall E E' refs refs', E ≡ₚ E' -> refs ≡ₚ refs' ->
    counted E refs -> counted E' refs') as H.
  { intros E E' refs refs' HE HR [H1 H2]. split.
    - intros k x n Hin. rewrite <- HR. apply H1. by rewrite HE.
    - intros k x Hin. rewrite <- HR in Hin. destruct (H2 _ _ Hin) as [n Hn].
      exists n. by rewrite <- HE. }
  intros E E' HE refs refs' HR. split; apply H; by symmetry || done.
Qed.

#[export] Instance owned_proper : Proper ((≡ₚ) ==> (=) ==> iff) owned.
Proof. intros E E' HE w ? <-. unfold owned. by rewrite HE. Qed.

Lemma holders_nonneg key x refs : 0 <= holders key x refs.
Proof. apply zlen_nonneg. Qed.

Lemma holders_le key x refs : holders key x refs <= zlen refs.
Proof. unfold holders, zlen. apply inj_le. apply length_filter. Qed.

Lemma holders_zero key x refs : holders key x refs = 0 <-> (key, x) ∉ refs.
Proof.
  induction refs as [|[k y] refs IH]; [split; [intros _ H; inversion H|done]|].
  rewrite holders_cons, not_elem_of_cons, <- IH. pose proof (holders_nonneg key x refs).
  destruct (decide _); split; [lia|intros []; congruence|intros; split; [congruence|lia]|].
  intros []. lia.
Qed.

(** ** Steps on the entries *)

(** An object has one entry. *)
Lemma owned_unique E w k k' x n n' : owned E w ->
  (k, (x, n)) ∈ E -> (k', (x, n')) ∈ E -> k = k' /\ n = n'.
Proof.
  intros (Hd & _ & _) H1 H2. unfold objs in Hd.
  assert ((k, (x, n)) = (k', (x, n'))) as E'; [|by simplify_eq].
  apply list_elem_of_lookup in H1 as [i Hi]. apply list_elem_of_lookup in H2 as [j Hj].
  assert (i = j) as ->; [|congruence].
  eapply (NoDup_lookup _ i j x Hd).
  - change (map _ E) with ((fun e : K * V T => e.2.1) <$> E). by rewrite list_lookup_fmap, Hi.
  - change (map _ E) with ((fun e : K * V T => e.2.1) <$> E). by rewrite list_lookup_fmap, Hj.
Qed.

Lemma owned_notin k x n R w : owned ((k, (x, n)) :: R) w ->
  forall k' n', (k', (x, n')) ∉ R.
Proof.
  intros (Hd & _ & _) k' n' Hin. cbn in Hd. apply NoDup_cons in Hd as [Hn _]. apply Hn.
  unfold objs. apply (list_elem_of_fmap_2 (fun e : K * V T => e.2.1)) in Hin. done.
Qed.

Lemma owned_count k x n n' R w : owned ((k, (x, n)) :: R) w -> owned ((k, (x, n')) :: R) w.
Proof.
  intros (H1 & H2 & H3). split; [done|]. split; [done|]. by inversion H3; constructor.
Qed.

(** A call hands out one more reference. *)
Lemma counted_increment k x n R w refs :
  owned ((k, (x, n)) :: R) w -> counted ((k, (x, n)) :: R) refs ->
  zlen refs + 1 < 2 ^ 64 ->
  counted ((k, (x, u64 (n + 1))) :: R) ((k, x) :: refs).
Proof.
  intros Ho [H1 H2] Hl. pose proof (owned_notin _ _ _ _ _ Ho) as Hn.
  assert (n = holders k x refs) as En by (apply H1; left).
  pose proof (holders_le k x refs). pose proof (holders_nonneg k x refs).
  split.
  - intros k' x' n' Hin. rewrite holders_cons. apply elem_of_cons in Hin as [[= -> -> ->]|Hin].
    + rewrite decide_True by done. unfold u64. rewrite Z.mod_small by lia. lia.
    + rewrite decide_False by (intros [= <- <-]; by apply (Hn k n')).
      rewrite Z.add_0_l. apply H1. by right.
  - intros k' x' Hin. apply elem_of_cons in Hin as [[= -> ->]|Hin].
    + eexists. left.
    + destruct (H2 _ _ Hin) as [n' Hn']. apply elem_of_cons in Hn' as [[= -> -> ->]|Hn'].
      * eexists. left.
      * exists n'. by right.
Qed.

(** A call gives one back, and the entry stays. *)
Lemma counted_decrement k x n R w refs :
  owned ((k, (x, n)) :: R) w -> counted ((k, (x, n)) :: R) ((k, x) :: refs) ->
  zlen refs + 1 < 2 ^ 64 ->
  u64 (n - 1) = holders k x refs /\ counted ((k, (x, u64 (n - 1))) :: R) refs.
Proof.
  intros Ho [H1 H2] Hl. pose proof (owned_notin _ _ _ _ _ Ho) as Hn.
  assert (n = holders k x ((k, x) :: refs)) as En by (apply H1; left).
  rewrite holders_cons, decide_True in En by done.
  pose proof (holders_le k x refs). pose proof (holders_nonneg k x refs).
  assert (u64 (n - 1) = holders k x refs) as Eu.
  { unfold u64. rewrite Z.mod_small; lia. }
  split; [done|]. split.
  - intros k' x' n' Hin. apply elem_of_cons in Hin as [[= -> -> ->]|Hin]; [done|].
    specialize (H1 k' x' n' ltac:(by right)). rewrite holders_cons in H1.
    rewrite decide_False in H1 by (intros [= <- <-]; by apply (Hn k n')). lia.
  - intros k' x' Hin. destruct (H2 k' x') as [n' Hn']; [by right|].
    apply elem_of_cons in Hn' as [[= -> -> ->]|Hn'].
    + eexists. left.
    + exists n'. by right.
Qed.

(** An entry that nobody holds goes away with its object. *)
Lemma counted_remove k x R w refs :
  owned ((k, (x, 0)) :: R) w -> counted ((k, (x, 0)) :: R) refs ->
  owned R (Destroy x w) /\ counted R refs.
Proof.
  intros Ho [H1 H2]. pose proof (owned_notin _ _ _ _ _ Ho) as Hn.
  split.
  - destruct Ho as (Hd & Hl & Hm). cbn in Hd, Hl. split; [by apply NoDup_cons in Hd as []|].
    apply Forall_cons in Hm as [_ Hm]. split; [|done].
    assert (x ∈ live w) as Hin by (rewrite Hl; left).
    rewrite (Destroy_live x w Hin) in Hl. by apply Permutation_cons_inv in Hl.
  - split; [intros; apply H1; by right|].
    intros k' x' Hin. destruct (H2 _ _ Hin) as [n' Hn'].
    apply elem_of_cons in Hn' as [[= -> -> ->]|Hn']; [|by exists n'].
    exfalso. assert (0 = holders k x refs) as E0 by (apply H1; left).
    symmetry in E0. by apply holders_zero in E0.
Qed.

(** A new object, held [init] times. *)
Lemma counted_create k x R w w' refs (init : bool) :
  owned R w -> counted R refs -> Create k w = (w', Some x) ->
  owned ((k, (x, if init then 1 else 0)) :: R) w' /\
  counted ((k, (x, if init then 1 else 0)) :: R) (if init then (k, x) :: refs else refs).
Proof.
  intros (Hd & Hl & Hm) [H1 H2] HC. apply Create_some in HC as (Hx & Hw & Hf).
  rewrite Hl in Hx, Hw.
  assert (forall k' n', (k', (x, n')) ∉ R) as Hn.
  { intros k' n' Hin. apply Hx. unfold objs.
    apply (list_elem_of_fmap_2 (fun e : K * V T => e.2.1)) in Hin. done. }
  assert (holders k x refs = 0) as H0.
  { apply holders_zero. intros Hin. destruct (H2 _ _ Hin) as [n Hn']. by apply (Hn k n). }
  split; [split; [by constructor|split; [done|by constructor]]|]. split.
  - intros k' x' n' Hin. apply elem_of_cons in Hin as [[= -> -> ->]|Hin].
    + destruct init; [|done]. rewrite holders_cons, decide_True, H0; done.
    + rewrite (H1 _ _ _ Hin). destruct init; [|done].
      rewrite holders_cons, decide_False; [done|]. intros [= <- <-]. by apply (Hn k n').
  - intros k' x' Hin.
    assert ((k', x') = (k, x) /\ init = true \/ (k', x') ∈ refs) as [[[= -> ->] ->]|Hr].
    { destruct init; [|by right]. apply elem_of_cons in Hin as [?|?]; auto. }
    + eexists. left.
    + destruct (H2 _ _ Hr) as [n Hn']. exists n. by right.
Qed.

(** ** Every operation keeps the invariant *)

Lemma Inv_new w : live w = [] -> Inv ObjectMap_new w [].
Proof.
  intros H. split; [constructor|]. split; [split; [constructor|by split; [rewrite H|]]|].
  split; [split; [intros ??? Hin|intros ?? Hin]; inversion Hin|]. split; [constructor|done].
Qed.

Lemma increment_inv s w refs key x n ptr : Inv s w refs ->
  find key (_map s) = Some (x, n) -> zlen refs + 1 < 2 ^ 64 ->
  match ptr with Some k => k ∈ StdMap.keys (_map s) | None => True end ->
  Inv (mkObjectMap (assign key (x, u64 (n + 1)) (_map s)) (_drop s) ptr) w ((key, x) :: refs).
Proof.
  intros (Hs & Ho & Hc & Hd & Hp) Hf Hl Hptr.
  destruct (assign_permutation key (x, u64 (n + 1)) (x, n) (_map s) Hf) as (r & E1 & E2).
  rewrite E1 in Ho, Hc. cbn [app] in Ho, Hc.
  split; [by apply assign_sorted|]. cbn [_map _drop _ptr]. rewrite E2. cbn [app].
  split; [by apply (owned_count _ _ n)|].
  split; [by eapply counted_increment|].
  split; [done|]. by rewrite assign_keys.
Qed.

Lemma DoAdd_absent s w refs key (init : bool) s' w' r :
  Inv s w refs -> find key (_map s) = None ->
  DoAdd key (if init then 1 else 0) s w = (s', w', r) ->
  Inv s' w' (match r with Some x => if init then (key, x) :: refs else refs | None => refs end).
Proof.
  intros (Hs & Ho & Hc & Hd & Hp) Hf. unfold DoAdd. rewrite Hf.
  destruct (Create key w) as [w1 [x|]] eqn:HC; intros [= <- <- <-].
  - destruct (counted_create key x _ w w1 refs init Ho Hc HC) as [Ho' Hc'].
    split; [apply insert_sorted; [done|by apply find_none]|]. cbn [_map _drop _ptr].
    rewrite insert_permutation. done.
  - apply Create_none in HC. split; [done|]. split; [|done]. destruct Ho as (? & Hl & ?).
    split; [done|]. split; [by rewrite HC|done].
Qed.

Lemma Add_inv s w refs key s' w' r : Inv s w refs -> zlen refs + 1 < 2 ^ 64 ->
  Add key s w = (s', w', r) ->
  Inv s' w' (match r with Some x => (key, x) :: refs | None => refs end).
Proof.
  intros HI Hl E. destruct (find key (_map s)) as [[x n]|] eqn:Hf.
  - unfold Add, DoAdd in E. rewrite Hf in E. injection E as <- <- <-.
    apply increment_inv; [done|done|done|]. by destruct HI as (_ & _ & _ & _ & ?).
  - by apply (DoAdd_absent s w refs key true).
Qed.

Lemma DoErase_inv s w refs key s' w' : Inv s w refs ->
  DoErase key s w = (s', w') -> Inv s' w' refs.
Proof.
  intros (Hs & Ho & Hc & Hd & Hp). unfold DoErase.
  destruct (find key (_map s)) as [[x n]|] eqn:Hf; [|by intros [= <- <-]].
  pose proof (erase_permutation key (x, n) (_map s) Hf) as E1.
  rewrite E1 in Ho, Hc. cbn [app] in Ho, Hc.
  destruct (Z.eqb_spec n 0) as [->|Hn]; intros [= <- <-].
  - destruct (counted_remove key x _ w refs Ho Hc).
    split; [by apply erase_sorted|]. done.
  - split; [by apply erase_sorted|]. cbn [_map _drop _ptr].
    assert (erase key (_map s) ++ insert key (x, n) (_drop s) ≡ₚ
            (key, (x, n)) :: erase key (_map s) ++ _drop s) as E2.
    { rewrite insert_permutation. by rewrite Permutation_middle. }
    rewrite E2. split; [done|]. split; [done|]. split; [|done].
    rewrite insert_permutation. by constructor.
Qed.

Lemma EraseAll_fold refs m d w :
  owned (m ++ d) w -> counted (m ++ d) refs -> Forall (fun e => e.2.2 <> 0) d ->
  let '(d', w') := fold_left EraseAll_step m (d, w) in
  owned d' w' /\ counted d' refs /\ Forall (fun e => e.2.2 <> 0) d'.
Proof.
  revert d w. induction m as [|[k [x n]] m IH]; intros d w Ho Hc Hd; [done|].
  cbn [fold_left]. unfold EraseAll_step at 2. cbn [fst snd].
  destruct (Z.eqb_spec n 0) as [->|Hn].
  - cbn [app] in *. destruct (counted_remove k x _ w refs Ho Hc). by apply IH.
  - assert (m ++ insert k (x, n) d ≡ₚ (k, (x, n)) :: m ++ d) as E.
    { rewrite insert_permutation. by rewrite Permutation_middle. }
    apply IH; [by rewrite E|by rewrite E|]. rewrite insert_permutation. by constructor.
Qed.

Lemma EraseAll_inv b s w refs s' w' wait : Inv s w refs ->
  EraseAll b s w = (s', w', wait) ->
  Inv s' w' refs /\ _map s' = [] /\ (wait = true <-> b = true /\ _drop s' <> []).
Proof.
  intros (Hs & Ho & Hc & Hd & Hp). unfold EraseAll.
  pose proof (EraseAll_fold refs _ _ _ Ho Hc Hd) as H.
  destruct (fold_left _ _ _) as [d w1]. destruct H as (Ho' & Hc' & Hd').
  intros [= <- <- <-]. split; [|split; [done|]].
  - split; [constructor|]. done.
  - unfold EraseAll_waits. rewrite andb_true_iff, bool_decide_eq_true. done.
Qed.

(** [Release] in [_drop]: the entry of the object is found there. *)
Lemma Release_drop_spec key x n d w d' w' wake :
  (forall k n', (k, (x, n')) ∈ d -> k = key /\ n' = n) -> NoDup (objs d) ->
  (key, (x, n)) ∈ d -> Release_drop key x d w = (d', w', wake) ->
  exists r, d ≡ₚ (key, (x, n)) :: r /\
    (if u64 (n - 1) =? 0 then d' = r /\ w' = Destroy x w /\ wake = true
     else d' ≡ₚ (key, (x, u64 (n - 1))) :: r /\ w' = w /\ wake = false).
Proof.
  revert d' w' wake. induction d as [|[k [y m]] d IH]; intros d' w' wake Hu Hd Hin E;
    [inversion Hin|]. cbn [Release_drop] in E.
  destruct (decide (k = key /\ y = x)) as [[-> ->]|Hne].
  - assert (m = n) as -> by (apply (Hu key m); left).
    exists d. split; [done|]. destruct (u64 (n - 1) =? 0); injection E as <- <- <-; done.
  - apply elem_of_cons in Hin as [[= <- <- <-]|Hin]; [by destruct Hne|].
    destruct (Release_drop key x d w) as [[d1 w1] wake1] eqn:E1. injection E as <- <- <-.
    cbn in Hd. apply NoDup_cons in Hd as [_ Hd].
    destruct (IH d1 w1 wake1) as (r & Er & H); [intros k' n' Hk; apply Hu; by right|done|done|done|].
    exists ((k, (y, m)) :: r). split; [rewrite Er; apply Permutation_swap|].
    destruct (u64 (n - 1) =? 0).
    + by destruct H as (-> & -> & ->).
    + destruct H as (-> & -> & ->). split; [apply Permutation_swap|done].
Qed.

(** An entry of an object is found under its key in [_map], or is in [_drop]. *)
Lemma entry_cases s w key x n : sorted (_map s) -> owned (_map s ++ _drop s) w ->
  (key, (x, n)) ∈ _map s ++ _drop s ->
  find key (_map s) = Some (x, n) \/
  (key, (x, n)) ∈ _drop s /\ (forall m, find key (_map s) <> Some (x, m)).
Proof.
  intros Hs Ho Hin. apply elem_of_app in Hin as [Hin|Hin]; [left; by apply find_sorted|right].
  split; [done|]. intros m Hf. apply find_in in Hf. destruct Ho as (Hd & _).
  unfold objs in Hd. rewrite map_app in Hd. apply NoDup_app in Hd as (_ & Hd & _).
  apply (Hd x).
  - by apply (list_elem_of_fmap_2 (fun e : K * V T => e.2.1)) in Hf.
  - by apply (list_elem_of_fmap_2 (fun e : K * V T => e.2.1)) in Hin.
Qed.

Lemma Release_drop_inv s w refs key x s' w' wake n : Inv s w ((key, x) :: refs) ->
  zlen refs + 1 < 2 ^ 64 -> (key, (x, n)) ∈ _drop s ->
  (let '(d, w, wake) := Release_drop key x (_drop s) w in
   (mkObjectMap (_map s) d (_ptr s), w, wake)) = (s', w', wake) ->
  Inv s' w' refs /\ (wake = true <-> u64 (n - 1) = 0).
Proof.
  intros (Hs & Ho & Hc & Hd & Hp) Hl Hin.
  destruct (Release_drop key x (_drop s) w) as [[d w1] wk] eqn:E. intros [= <- <- <-].
  destruct (Release_drop_spec key x n (_drop s) w d w1 wk) as (r & Er & H); [| |done|done|].
  { intros k n' Hin'. eapply owned_unique; [exact Ho| |]; apply elem_of_app; by right. }
  { destruct Ho as (Hn & _). unfold objs in Hn. rewrite map_app in Hn.
    by apply NoDup_app in Hn as (_ & _ & ?). }
  assert (_map s ++ _drop s ≡ₚ (key, (x, n)) :: _map s ++ r) as E1
    by (rewrite Er; by rewrite Permutation_middle).
  rewrite E1 in Ho, Hc. rewrite Er in Hd. apply Forall_cons in Hd as [_ Hd].
  destruct (counted_decrement key x n _ w refs Ho Hc Hl) as [Hu Hc'].
  destruct (Z.eqb_spec (u64 (n - 1)) 0) as [E0|E0].
  - destruct H as (-> & -> & ->). split; [|done].
    rewrite E0 in Hc'. apply (owned_count _ _ _ 0) in Ho.
    destruct (counted_remove key x _ w refs Ho Hc').
    split; [done|]. done.
  - destruct H as (Ed & -> & ->). split; [|done].
    assert (_map s ++ d ≡ₚ (key, (x, u64 (n - 1))) :: _map s ++ r) as E2
      by (rewrite Ed; by rewrite Permutation_middle).
    split; [done|]. cbn [_map _drop _ptr]. rewrite E2.
    split; [by apply (owned_count _ _ n)|]. split; [done|].
    split; [|done]. rewrite Ed. by constructor.
Qed.

Lemma Release_inv s w refs key x s' w' wake : Inv s w ((key, x) :: refs) ->
  zlen refs + 1 < 2 ^ 64 -> Release key x s w = (s', w', wake) -> Inv s' w' refs.
Proof.
  intros HI Hl E. pose proof HI as (Hs & Ho & Hc & Hd & Hp).
  destruct Hc as [Hc1 Hc2]. destruct (Hc2 key x) as [n Hin]; [left|].
  unfold Release in E. destruct (entry_cases s w key x n Hs Ho Hin) as [Hf|[Hin' Hf]].
  - rewrite Hf, decide_True in E by done. injection E as <- <- <-.
    destruct (assign_permutation key (x, u64 (n - 1)) (x, n) (_map s) Hf) as (r & E1 & E2).
    assert (counted (_map s ++ _drop s) ((key, x) :: refs)) as Hc by by split.
    rewrite E1 in Ho, Hc. cbn [app] in Ho, Hc.
    destruct (counted_decrement key x n _ w refs Ho Hc Hl) as [_ Hc'].
    split; [by apply assign_sorted|]. cbn [_map _drop _ptr set_map]. rewrite E2. cbn [app].
    split; [by apply (owned_count _ _ n)|]. split; [done|]. split; [done|].
    by rewrite assign_keys.
  - destruct (find key (_map s)) as [[y m]|].
    + rewrite decide_False in E by (intros ->; by apply (Hf m)).
      by eapply Release_drop_inv in E as [? _].
    + by eapply Release_drop_inv in E as [? _].
Qed.

Lemma Get_inv s w refs key s' r : Inv s w refs -> zlen refs + 1 < 2 ^ 64 ->
  Get key s = (s', r) -> Inv s' w (match r with Some x => (key, x) :: refs | None => refs end).
Proof.
  intros HI Hl. unfold Get. destruct (find key (_map s)) as [[x n]|] eqn:Hf;
    intros [= <- <-]; [|done].
  apply increment_inv; [done|done|done|]. by destruct HI as (_ & _ & _ & _ & ?).
Qed.

Lemma GetNext_inv s w refs s' r : Inv s w refs -> zlen refs + 1 < 2 ^ 64 ->
  GetNext s = (s', r) -> Inv s' w (match r with Some e => e :: refs | None => refs end).
Proof.
  intros HI Hl. unfold GetNext. destruct (GetNext_ptr s) as [k|] eqn:Hp; [|by intros [= <- <-]].
  destruct (find k (_map s)) as [[x n]|] eqn:Hf; intros [= <- <-]; [|done].
  apply increment_inv; [done|done|done|].
  destruct (decide (k ∈ StdMap.keys (_map s))) as [|Hn]; [done|].
  apply find_none in Hn. congruence.
Qed.

Lemma GetRandom_inv RM draws s w refs s' r : Inv s w refs -> zlen refs + 1 < 2 ^ 64 ->
  GetRandom RM draws s = Some (Ok (s', r)) -> Inv s' w (match r with Some e => e :: refs | None => refs end).
Proof.
  intros HI Hl. unfold GetRandom, GetRandom_at. pose proof HI as (Hs & _ & _ & _ & Hp).
  destruct (_map s) as [|e0 l0] eqn:Em; [by intros [= <- <-]|]. rewrite <- Em in *.
  destruct (ranged_rand _ _ _) as [[i rest]|]; [|done]. destruct (i <? 0); [done|].
  destruct (nth_error (_map s) (Z.to_nat i)) as [[k [x n]]|] eqn:E; intros [= <- <-].
  apply increment_inv; [done| |done|done].
  apply find_sorted; [done|]. apply list_elem_of_In. by apply nth_error_In in E.
Qed.

(** [ranged_rand] includes its bound: GetRandom on [n] objects can choose the
    one behind the last. *)
Lemma GetRandom_overruns RM s : 0 < zlen (_map s) < RM ->
  exists r, 0 <= r <= RM /\ GetRandom RM [r] s = Some (Err undefined_behaviour).
Proof.
  intros H. exists (zlen (_map s)). split; [lia|]. unfold GetRandom.
  destruct (_map s) as [|e0 l0] eqn:Em; [unfold zlen in H; cbn in H; lia|]. rewrite <- Em in *.
  set (n := zlen (_map s)) in *.
  rewrite ranged_rand_bound by lia.
  unfold GetRandom_at. rewrite (proj2 (Z.ltb_ge n 0)) by lia.
  rewrite (proj2 (nth_error_None _ _)); [done|]. unfold n, zlen. lia.
Qed.

Lemma SetAll_inv ks s w refs s' w' : Inv s w refs -> SetAll ks s w = (s', w') -> Inv s' w' refs.
Proof.
  intros HI. unfold SetAll.
  assert (forall l a, Inv a.1 a.2 refs ->
    Inv (fold_left SetAll_add l a).1 (fold_left SetAll_add l a).2 refs) as H1.
  { intros l. induction l as [|k l IH]; intros a Ha; [done|]. cbn. apply IH.
    unfold SetAll_add. destruct (find k (_map a.1)) eqn:Hf; [done|].
    destruct (DoAdd k 0 a.1 a.2) as [[s1 w1] r] eqn:E.
    apply (DoAdd_absent a.1 a.2 refs k false) in E; [|done|done]. cbn. by destruct r. }
  assert (forall l a, Inv a.1 a.2 refs ->
    Inv (fold_left (fun a k => DoErase k a.1 a.2) l a).1
        (fold_left (fun a k => DoErase k a.1 a.2) l a).2 refs) as H2.
  { intros l. induction l as [|k l IH]; intros a Ha; [done|]. cbn. apply IH.
    destruct (DoErase k a.1 a.2) as [s1 w1] eqn:E. by eapply DoErase_inv. }
  specialize (H1 ks (s, w) HI). destruct (fold_left SetAll_add ks (s, w)) as [s1 w1].
  intros E. specialize (H2 (filter (fun k => k ∉ ks) (StdMap.keys (_map s1))) (s1, w1) H1).
  rewrite E in H2. done.
Qed.

Lemma destroy_all_spec E R w : owned (E ++ R) w -> owned R (destroy_all E w).
Proof.
  revert w. induction E as [|[k [x n]] E IH]; intros w Ho; [done|]. cbn. apply IH.
  destruct Ho as (Hd & Hl & Hm). cbn in Hd, Hl. split; [by apply NoDup_cons in Hd as []|].
  apply Forall_cons in Hm as [_ Hm]. split; [|done].
  assert (x ∈ live w) as Hin by (rewrite Hl; left).
  rewrite (Destroy_live x w Hin) in Hl. by apply Permutation_cons_inv in Hl.
Qed.

(** [Clear] destroys every object, even the ones in use. *)
Lemma Clear_inv s w refs s' w' : Inv s w refs -> Clear s w = (s', w') ->
  Inv s' w' [] /\ live w' = [].
Proof.
  intros (Hs & Ho & _) [= <- <-].
  assert (owned [] (destroy_all (_map s) (destroy_all (_drop s) w))) as (Hn & Hl & _).
  { apply destroy_all_spec. rewrite app_nil_r. apply destroy_all_spec.
    by rewrite Permutation_app_comm. }
  cbn in Hl. apply Permutation_nil_r in Hl. split; [|done].
  split; [constructor|]. split; [split; [constructor|by split; [rewrite Hl|]]|].
  split; [split; [intros ??? Hin|intros ?? Hin]; inversion Hin|]. split; [constructor|done].
Qed.

(** ** Programs that use a map *)

(** One call by some thread; the third component is what the callers hold.
    A caller releases only what it holds, and a caller cannot hold as many
    references as a [size_t] can count.  [Clear] voids every reference: the
    callers hold nothing behind it. *)
Definition config : Type := ObjectMap K T * W * list (K * T).

Inductive step : config -> config -> Prop :=
| step_add key s w refs s' w' r : zlen refs + 1 < 2 ^ 64 ->
    Add key s w = (s', w', r) ->
    step (s, w, refs) (s', w', match r with Some x => (key, x) :: refs | None => refs end)
| step_get key s w refs s' r : zlen refs + 1 < 2 ^ 64 ->
    Get key s = (s', r) ->
    step (s, w, refs) (s', w, match r with Some x => (key, x) :: refs | None => refs end)
| step_next s w refs s' r : zlen refs + 1 < 2 ^ 64 ->
    GetNext s = (s', r) ->
    step (s, w, refs) (s', w, match r with Some e => e :: refs | None => refs end)
| step_random RM draws s w refs s' r : zlen refs + 1 < 2 ^ 64 ->
    GetRandom RM draws s = Some (Ok (s', r)) ->
    step (s, w, refs) (s', w, match r with Some e => e :: refs | None => refs end)
| step_release key x s w refs refs' s' w' wake : refs ≡ₚ (key, x) :: refs' ->
    zlen refs' + 1 < 2 ^ 64 ->
    Release key x s w = (s', w', wake) -> step (s, w, refs) (s', w', refs')
| step_erase key s w refs s' w' : Erase key s w = (s', w') ->
    step (s, w, refs) (s', w', refs)
| step_erase_all b s w refs s' w' wait : EraseAll b s w = (s', w', wait) ->
    step (s, w, refs) (s', w', refs)
| step_set_all ks s w refs s' w' : SetAll ks s w = (s', w') ->
    step (s, w, refs) (s', w', refs)
| step_clear s w refs s' w' : Clear s w = (s', w') ->
    step (s, w, refs) (s', w', []).

Lemma Inv_perm s w refs refs' : refs ≡ₚ refs' -> Inv s w refs -> Inv s w refs'.
Proof. intros E (H1 & H2 & H3 & H4). rewrite E in H3. done. Qed.

Lemma step_inv c c' : step c c' ->
  Inv c.1.1 c.1.2 c.2 -> Inv c'.1.1 c'.1.2 c'.2.
Proof.
  intros H HI. destruct H; cbn [fst snd] in *.
  - by eapply Add_inv.
  - by eapply Get_inv.
  - by eapply GetNext_inv.
  - by eapply GetRandom_inv.
  - eapply Release_inv; [|done|done]. by eapply Inv_perm.
  - by eapply DoErase_inv.
  - by eapply EraseAll_inv.
  - by eapply SetAll_inv.
  - by eapply Clear_inv.
Qed.

Lemma reachable_inv s w refs w0 : live w0 = [] ->
  rtc step (ObjectMap_new, w0, []) (s, w, refs) -> Inv s w refs.
Proof.
  intros H0 H. assert (forall c c', rtc step c c' ->
    Inv c.1.1 c.1.2 c.2 -> Inv c'.1.1 c'.1.2 c'.2) as HI.
  { induction 1; eauto using step_inv. }
  exact (HI _ _ H (Inv_new w0 H0)).
Qed.

(** ** Draining *)

Definition release_all (refs : list (K * T)) (a : ObjectMap K T * W) : ObjectMap K T * W :=
  fold_left (fun a r => (Release r.1 r.2 a.1 a.2).1) refs a.

Lemma release_all_inv refs s w s' w' : Inv s w refs -> zlen refs < 2 ^ 64 ->
  release_all refs (s, w) = (s', w') -> Inv s' w' [].
Proof.
  revert s w. induction refs as [|[k x] refs IH]; intros s w HI Hl E.
  - by injection E as <- <-.
  - unfold release_all in E. cbn [fold_left fst snd] in E.
    rewrite zlen_cons in Hl.
    destruct (Release k x s w) as [[s1 w1] wk] eqn:ER. cbn [fst] in E.
    apply (IH s1 w1); [|lia|done]. eapply Release_inv; [done|lia|done].
Qed.

Lemma Release_map_nil key x s w : _map s = [] -> _map (Release key x s w).1.1 = [].
Proof.
  intros H. unfold Release. rewrite H. cbn [find].
  by destruct (Release_drop key x (_drop s) w) as [[d w1] wk].
Qed.

Lemma release_all_map_nil refs a : _map a.1 = [] -> _map (release_all refs a).1 = [].
Proof.
  revert a. induction refs as [|[k x] refs IH]; intros a H; [done|]. cbn. apply IH.
  destruct a as [s w]. pose proof (Release_map_nil k x s w H).
  cbn [fst snd]. by destruct (Release k x s w) as [[s1 w1] wk].
Qed.

(** Without holders nothing is left in [_drop]. *)
Lemma Inv_no_refs s w : Inv s w [] -> _drop s = [].
Proof.
  intros (_ & _ & [Hc _] & Hd & _). destruct (_drop s) as [|[k [x n]] d]; [done|].
  exfalso. apply Forall_cons in Hd as [Hn _]. apply Hn. cbn.
  apply (Hc k x). apply elem_of_app. right. left.
Qed.

(** ** Round robin *)

(** [n] calls of [GetNext]. *)
Fixpoint GetNextN (n : nat) s : ObjectMap K T * list (option (K * T)) :=
  match n with
  | O => (s, [])
  | S n => let '(s, r) := GetNext s in
           let '(s, rs) := GetNextN n s in (s, r :: rs)
  end.

(** The iterator has just passed the elements [l]. *)
Definition ptr_at s (l : list (K * T)) : Prop := _ptr s = fst <$> last l.

Lemma for_each_assign s k v ptr : find k (_map s) = Some v ->
  for_each (mkObjectMap (assign k (v.1, u64 (v.2 + 1)) (_map s)) (_drop s) ptr) = for_each s.
Proof.
  intros H. unfold for_each. cbn [_map]. induction (_map s) as [|[a w0] m IH]; [done|].
  cbn in *. case_decide; [by simplify_eq|]. cbn. f_equal. auto.
Qed.

Lemma for_each_keys s : StdMap.keys (_map s) = map fst (for_each s).
Proof. unfold StdMap.keys, for_each. by rewrite map_map. Qed.

(** The entry behind an element that [for_each] visits. *)
Lemma for_each_split s l1 k x l2 : for_each s = l1 ++ (k, x) :: l2 ->
  exists m1 n m2, _map s = m1 ++ (k, (x, n)) :: m2 /\ map (fun e => (e.1, e.2.1)) m2 = l2.
Proof.
  unfold for_each. intros E. apply map_eq_app in E as (m1 & m2' & -> & _ & E).
  apply map_eq_cons in E as ([k' [x' n]] & m2 & -> & [= -> ->] & E).
  by exists m1, n, m2.
Qed.

Lemma GetNext_at s l1 k x l2 : sorted (_map s) ->
  for_each s = l1 ++ (k, x) :: l2 -> GetNext_ptr s = Some k ->
  exists s', GetNext s = (s', Some (k, x)) /\ for_each s' = for_each s /\
             sorted (_map s') /\ _ptr s' = Some k.
Proof.
  intros Hs E EP. unfold GetNext. rewrite EP.
  destruct (for_each_split s l1 k x l2 E) as (m1 & n & m2 & Em & _).
  assert (find k (_map s) = Some (x, n)) as Hf.
  { apply find_sorted; [done|]. rewrite Em. apply elem_of_app. right. left. }
  rewrite Hf. eexists. split; [done|]. split; [by apply for_each_assign|].
  split; [by apply assign_sorted|done].
Qed.

(** The iterator steps past the last element it has returned. *)
Lemma after_last s l k x l2 : sorted (_map s) -> for_each s = (l ++ [(k, x)]) ++ l2 ->
  after k (_map s) = fst <$> head l2.
Proof.
  intros Hs E. rewrite <- app_assoc in E. cbn in E.
  destruct (for_each_split s l k x l2 E) as (m1 & n & m2 & Em & <-).
  rewrite Em in *. rewrite after_split by done. by destruct m2 as [|[]].
Qed.

Lemma first_for_each s : first (_map s) = fst <$> head (for_each s).
Proof. unfold for_each. by destruct (_map s) as [|[]]. Qed.

Lemma GetNext_forward s l1 k x l2 : sorted (_map s) ->
  for_each s = l1 ++ (k, x) :: l2 -> ptr_at s l1 ->
  exists s', GetNext s = (s', Some (k, x)) /\ for_each s' = for_each s /\
             sorted (_map s') /\ ptr_at s' (l1 ++ [(k, x)]).
Proof.
  intros Hs E Hp. unfold ptr_at. rewrite last_snoc. apply (GetNext_at s l1 k x l2 Hs E).
  unfold GetNext_ptr. rewrite Hp. destruct l1 as [|[k0 x0] l1 _] using rev_ind.
  - cbn. by rewrite first_for_each, E.
  - rewrite last_snoc. cbn. by rewrite (after_last s l1 k0 x0 _ Hs E).
Qed.

Lemma GetNext_wrap s k x l2 : sorted (_map s) ->
  for_each s = (k, x) :: l2 -> ptr_at s (for_each s) ->
  exists s', GetNext s = (s', Some (k, x)) /\ for_each s' = for_each s /\
             sorted (_map s') /\ ptr_at s' [(k, x)].
Proof.
  intros Hs E Hp. apply (GetNext_at s [] k x l2 Hs E). unfold GetNext_ptr. rewrite Hp.
  assert (first (_map s) = Some k) as EF by by rewrite first_for_each, E.
  destruct (for_each s) as [|[k0 x0] l _] eqn:El using rev_ind; [done|].
  rewrite last_snoc. cbn. rewrite (after_last s l k0 x0 [] Hs); [done|by rewrite app_nil_r].
Qed.

Lemma GetNextN_forward s l1 l2 l3 : sorted (_map s) ->
  for_each s = l1 ++ l2 ++ l3 -> ptr_at s l1 ->
  exists s', GetNextN (length l2) s = (s', map Some l2) /\ for_each s' = for_each s /\
             sorted (_map s') /\ ptr_at s' (l1 ++ l2).
Proof.
  revert s l1. induction l2 as [|[k x] l2 IH]; intros s l1 Hs E Hp.
  - exists s. rewrite app_nil_r. done.
  - destruct (GetNext_forward s l1 k x (l2 ++ l3) Hs E Hp) as (s1 & E1 & F1 & S1 & P1).
    destruct (IH s1 (l1 ++ [(k, x)])) as (s2 & E2 & F2 & S2 & P2); [done| |done|].
    { by rewrite F1, E, <- app_assoc. }
    exists s2. cbn [length GetNextN map]. rewrite E1, E2.
    rewrite <- app_assoc in P2. cbn [app] in P2. split; [done|]. by rewrite F2.
Qed.

Lemma GetNextN_app n m s : GetNextN (n + m) s =
  let '(s1, r1) := GetNextN n s in let '(s2, r2) := GetNextN m s1 in (s2, r1 ++ r2).
Proof.
  revert s. induction n as [|n IH]; intros s; cbn [GetNextN Nat.add].
  - by destruct (GetNextN m s).
  - destruct (GetNext s) as [s1 r]. rewrite IH.
    destruct (GetNextN n s1) as [s2 r1]. by destruct (GetNextN m s2).
Qed.

(** From anywhere, as many calls as there are objects go once around. *)
Lemma GetNextN_around s l1 l2 : sorted (_map s) -> for_each s = l1 ++ l2 -> ptr_at s l1 ->
  exists s', GetNextN (length (for_each s)) s = (s', map Some (l2 ++ l1)) /\
             for_each s' = for_each s.
Proof.
  intros Hs E Hp. rewrite E, length_app, Nat.add_comm, GetNextN_app.
  destruct (GetNextN_forward s l1 l2 [] Hs) as (s1 & -> & F1 & S1 & P1);
    [by rewrite app_nil_r|done|].
  destruct l1 as [|[k x] l1].
  - cbn [length GetNextN]. exists s1. rewrite !app_nil_r. split; [done|]. by rewrite F1, E.
  - cbn [length GetNextN].
    destruct (GetNext_wrap s1 k x (l1 ++ l2)) as (s2 & -> & F2 & S2 & P2);
      [done|by rewrite F1, E|rewrite F1, E; exact P1|].
    destruct (GetNextN_forward s2 [(k, x)] l1 l2) as (s3 & -> & F3 & _ & _);
      [done|by rewrite F2, F1, E|done|].
    exists s3. rewrite map_app. split; [done|]. by rewrite F3, F2, F1, E.
Qed.

(** ** Properties *)

(** C10: whatever calls the threads make (of GetRandom those that choose an
    object of the map: its range is one too wide), no reference that was handed
    out since the last [Clear] dangles: every object a caller holds is live, its
    count is the number of its holders, the live objects are exactly those of
    the two maps, each once, and an erased object stays only while somebody
    holds it.  [Clear] destroys every object, those in use too, and the
    references to them are void: callers use and release them no more. *)
Theorem object_map_references_safe s w refs w0 : live w0 = [] ->
  rtc step (ObjectMap_new, w0, []) (s, w, refs) ->
  (forall k x, (k, x) ∈ refs ->
     x ∈ live w /\ (k, (x, holders k x refs)) ∈ _map s ++ _drop s) /\
  (live w ≡ₚ objs (_map s ++ _drop s)) /\ NoDup (live w) /\ size s = length (live w) /\
  (forall k x n, (k, (x, n)) ∈ _drop s -> (k, x) ∈ refs).
Proof.
  intros H0 H. destruct (reachable_inv s w refs w0 H0 H) as (Hs & (Hd & Hl & _) & [H1 H2] & Hp & _).
  split; [|split; [done|split; [by rewrite Hl|split]]].
  - intros k x Hin. destruct (H2 k x Hin) as [n Hn]. rewrite <- (H1 k x n Hn).
    split; [|done]. rewrite Hl.
    by apply (list_elem_of_fmap_2 (fun e : K * V T => e.2.1)) in Hn.
  - rewrite Hl. unfold size, objs. by rewrite length_map, length_app.
  - intros k x n Hin. rewrite Forall_forall in Hp. pose proof (Hp _ Hin) as Hn. cbn in Hn.
    rewrite (H1 k x n) in Hn by (apply elem_of_app; by right).
    destruct (decide ((k, x) ∈ refs)); [done|]. exfalso. apply Hn. by apply holders_zero.
Qed.

(** [EraseAll] with waiting waits exactly when somebody holds an object,
    and once the holders have released what they hold, in any order, nothing
    is left: both maps are empty, every object is destroyed, and the wait is
    over. *)
Theorem object_map_EraseAll_drains s w refs w0 s1 w1 wait : live w0 = [] ->
  rtc step (ObjectMap_new, w0, []) (s, w, refs) -> zlen refs < 2 ^ 64 ->
  EraseAll true s w = (s1, w1, wait) ->
  (wait = true <-> refs <> []) /\
  (forall refs', refs' ≡ₚ refs ->
     let a := release_all refs' (s1, w1) in
     size a.1 = 0%nat /\ live a.2 = [] /\ EraseAll_waits a.1 = false).
Proof.
  intros H0 H Hr HE. pose proof (reachable_inv s w refs w0 H0 H) as HI.
  destruct (EraseAll_inv true s w refs s1 w1 wait HI HE) as (HI1 & Hm & Hw). split.
  - rewrite Hw. split.
    + intros [_ Hd] ->. by apply Inv_no_refs in HI1.
    + intros Hn. split; [done|]. destruct refs as [|[k x] refs]; [done|].
      destruct HI1 as (_ & _ & [_ H2] & _). rewrite Hm in H2.
      destruct (H2 k x) as [n Hn']; [left|]. intros E. rewrite E in Hn'. inversion Hn'.
  - intros refs' HP. cbn zeta. destruct (release_all refs' (s1, w1)) as [s2 w2] eqn:E.
    assert (Inv s2 w2 []) as HI2.
    { eapply release_all_inv; [eapply Inv_perm; [by symmetry|exact HI1]| |exact E].
      unfold zlen in *. by rewrite HP. }
    pose proof (release_all_map_nil refs' (s1, w1) Hm) as Hm2. rewrite E in Hm2. cbn in *.
    pose proof (Inv_no_refs s2 w2 HI2) as Hd2.
    destruct HI2 as (_ & (_ & Hl & _) & _). rewrite Hm2, Hd2 in Hl. cbn in Hl.
    apply Permutation_nil_r in Hl. unfold size, EraseAll_waits. rewrite Hm2, Hd2. done.
Qed.

(** [GetNext] is a round robin: in any reachable state, as many calls as
    there are objects return every object with its key exactly once, and the
    map holds the same objects after them. *)
Theorem object_map_GetNext_round_robin s w refs w0 : live w0 = [] ->
  rtc step (ObjectMap_new, w0, []) (s, w, refs) ->
  exists s' rs, GetNextN (length (for_each s)) s = (s', rs) /\
    (rs ≡ₚ map Some (for_each s)) /\ for_each s' = for_each s.
Proof.
  intros H0 H. destruct (reachable_inv s w refs w0 H0 H) as (Hs & _ & _ & _ & Hp).
  assert (exists l1 l2, for_each s = l1 ++ l2 /\ ptr_at s l1) as (l1 & l2 & E & Hat).
  { unfold ptr_at. destruct (_ptr s) as [k|]; [|by exists [], (for_each s)].
    rewrite for_each_keys in Hp. apply list_elem_of_fmap in Hp as ([k' x] & -> & Hp).
    apply list_elem_of_split in Hp as (l1 & l2 & E).
    exists (l1 ++ [(k', x)]), l2. rewrite last_snoc, <- app_assoc. done. }
  destruct (GetNextN_around s l1 l2 Hs E Hat) as (s' & E' & F).
  eexists s', _. split; [exact E'|]. split; [|done].
  rewrite E. by rewrite (Permutation_app_comm l2 l1).
Qed.

End Facts.

(** ** Witnesses *)

(** A subclass whose objects are numbers; it refuses negative keys. *)
Fixpoint remove_one (x : Z) (l : list Z) : list Z :=
  match l with
  | [] => []
  | y :: l => if decide (y = x) then l else y :: remove_one x l
  end.

Definition new_object (l : list Z) : Z := fold_right (fun x m => Z.max (x + 1) m) 0 l.

Lemma new_object_fresh l : Forall (fun x => x < new_object l) l.
Proof.
  induction l as [|y l IH]; [constructor|]. cbn [new_object fold_right].
  change (fold_right _ 0 l) with (new_object l). constructor; [lia|].
  eapply Forall_impl; [exact IH|]. intros x Hx. cbn in Hx. lia.
Qed.

#[local, refine] Instance number_objects : Objects Z Z (list Z) := {|
  Create k l := if k <? 0 then (l, None) else (new_object l :: l, Some (new_object l));
  Destroy := remove_one;
  live l := l;
  made_for _ _ := True
|}.
Proof.
  - intros k l l' x. destruct (k <? 0); [done|]. intros [= <- <-]. split; [|by split].
    intros Hin. pose proof (new_object_fresh l) as H. rewrite Forall_forall in H.
    specialize (H _ Hin). lia.
  - intros k l l'. destruct (k <? 0); [|done]. by intros [= <-].
  - intros x l Hin. induction l as [|y l IH]; [inversion Hin|]. cbn. case_decide as E.
    + by subst.
    + apply elem_of_cons in Hin as [->|Hin]; [done|]. rewrite (IH Hin) at 1.
      apply Permutation_swap.
Defined.

Definition om1 : ObjectMap Z Z := mkObjectMap [(7, (0, 1))] [] None.

Lemma om1_reachable : rtc step (ObjectMap_new, [], []) (om1, [0], [(7, 0)]).
Proof.
  eapply rtc_l; [|apply rtc_refl].
  exact (step_add 7 ObjectMap_new [] [] om1 [0] (Some 0) eq_refl eq_refl).
Defined.

Lemma object_map_references_safe_witness :
  live [0] ≡ₚ objs (_map om1 ++ _drop om1).
Proof.
  exact (proj1 (proj2 (object_map_references_safe om1 [0] [(7, 0)] [] eq_refl om1_reachable))).
Defined.

Lemma object_map_EraseAll_drains_witness :
  let a := release_all [(7, 0)] (mkObjectMap [] [(7, (0, 1))] None, [0]) in
  size a.1 = 0%nat /\ live a.2 = [] /\ EraseAll_waits a.1 = false.
Proof.
  exact (proj2 (object_map_EraseAll_drains om1 [0] [(7, 0)] [] _ _ true eq_refl om1_reachable
    eq_refl eq_refl) [(7, 0)] (Permutation_refl _)).
Defined.

Lemma object_map_GetNext_round_robin_witness :
  exists s' rs, GetNextN 1 om1 = (s', rs) /\ (rs ≡ₚ map Some (for_each om1)) /\
    for_each s' = for_each om1.
Proof.
  exact (object_map_GetNext_round_robin om1 [0] [(7, 0)] [] eq_refl om1_reachable).
Defined.
