(* ===== verification/ObjectPool.v ===== *)
(** * A pool of reusable objects: object_pool.h

    [ObjectPool] lends its objects to callers one at a time and destroys the
    ones idle for too long.  [Grab] lets go of the mutex while it creates an
    object, so it is two steps ([Grab_lookup], [Grab_push]) between which
    other threads can run.  [Create] and [Destroy] are the interface
    [Objects], with one key. *)

From S2P Require Import Prelude StdMap ObjectMap.

(** [object_t] *)
Record object_t (T : Type) : Type := mkObject {
  object : T;
  in_use : bool;
  timestamp : Z
}.
Arguments mkObject {T}.
Arguments object {T}.
Arguments in_use {T}.
Arguments timestamp {T}.

Section ObjectPool.
Context {T W : Type} {TD : EqDecision T} {OB : Objects unit T W}.

Implicit Types (p : list (object_t T)) (x : T) (w : W).

Definition size p : nat := length p.

(** The loop of [Grab] under the first lock. *)
Fixpoint Grab_lookup p : option (list (object_t T) * T) :=
  match p with
  | [] => None
  | o :: p =>
      if negb (in_use o) then Some (mkObject (object o) true (timestamp o) :: p, object o)
      else match Grab_lookup p with
           | Some (p, x) => Some (o :: p, x)
           | None => None
           end
  end.

(** [_pool.push_back(n)] under the second lock. *)
Definition Grab_push x p : list (object_t T) := p ++ [mkObject x true (-1)].

(** [Grab] of a single thread. *)
Definition Grab p w : list (object_t T) * W * option T :=
  match Grab_lookup p with
  | Some (p, x) => (p, w, Some x)
  | None =>
      match Create tt w with
      | (w, None) => (p, w, None)
      | (w, Some x) => (Grab_push x p, w, Some x)
      end
  end.

Fixpoint remove_first x p : list (object_t T) :=
  match p with
  | [] => []
  | o :: p => if decide (object o = x) then p else o :: remove_first x p
  end.

Definition Remove x p w : list (object_t T) * W := (remove_first x p, Destroy x w).

Definition Exchange x p w : list (object_t T) * W * option T :=
  let '(p, w) := Remove x p w in Grab p w.

Fixpoint Release (now : Z) x p : list (object_t T) :=
  match p with
  | [] => []
  | o :: p => if decide (object o = x) then mkObject (object o) false now :: p
              else o :: Release now x p
  end.

Definition gone (all : bool) (deadline : Z) (o : object_t T) : bool :=
  all || (negb (in_use o) && (timestamp o <? deadline)).

(** The loop of [Clear], then the deletions. *)
Definition Clear (all : bool) (now max_idle_time : Z) p w : list (object_t T) * W :=
  let deadline := now - max_idle_time in
  (filter (fun o => gone all deadline o = false) p,
   fold_left (fun w o => Destroy (object o) w)
     (filter (fun o => gone all deadline o = true) p) w).

Definition Shrink (now max_idle_time : Z) p w : list (object_t T) * W :=
  Clear false now max_idle_time p w.

(** ** Threads that share a pool

    [creating] holds the objects of calls of [Grab] between its two locks,
    [held] the objects lent to callers. *)
Record config : Type := mkConfig {
  pool : list (object_t T);
  creating : list T;
  held : list T;
  world : W
}.

Inductive step : config -> config -> Prop :=
| step_hit p c h w p' x : Grab_lookup p = Some (p', x) ->
    step (mkConfig p c h w) (mkConfig p' c (x :: h) w)
| step_create p c h w w' x : Grab_lookup p = None -> Create tt w = (w', Some x) ->
    step (mkConfig p c h w) (mkConfig p (x :: c) h w')
| step_create_fails p c h w w' : Grab_lookup p = None -> Create tt w = (w', None) ->
    step (mkConfig p c h w) (mkConfig p c h w')
| step_push p c c' h w x : c ≡ₚ x :: c' ->
    step (mkConfig p c h w) (mkConfig (Grab_push x p) c' (x :: h) w)
| step_release now p c h h' w x : h ≡ₚ x :: h' ->
    step (mkConfig p c h w) (mkConfig (Release now x p) c h' w)
| step_remove p c h h' w p' w' x : h ≡ₚ x :: h' -> Remove x p w = (p', w') ->
    step (mkConfig p c h w) (mkConfig p' c h' w')
| step_shrink now idle p c h w p' w' : Shrink now idle p w = (p', w') ->
    step (mkConfig p c h w) (mkConfig p' c h w').

(** ** The invariant *)

Definition objects p : list T := map object p.
Definition used p : list T := map object (filter (fun o => in_use o = true) p).

Definition Inv (a : config) : Prop :=
  NoDup (objects (pool a) ++ creating a) /\
  (live (K := unit) (world a) ≡ₚ objects (pool a) ++ creating a) /\
  (held a ≡ₚ used (pool a)).

Lemma used_cons o p : used (o :: p) = if in_use o then object o :: used p else used p.
Proof. unfold used. rewrite filter_cons. by destruct (in_use o). Qed.

Lemma used_app p q : used (p ++ q) = used p ++ used q.
Proof. unfold used. by rewrite filter_app, map_app. Qed.

Lemma used_in x p : x ∈ used p -> x ∈ objects p.
Proof.
  unfold used, objects. rewrite !list_elem_of_fmap. intros (o & -> & Ho).
  apply list_elem_of_filter in Ho as [_ Ho]. by exists o.
Qed.

Lemma Grab_lookup_spec p p' x : Grab_lookup p = Some (p', x) ->
  objects p' = objects p /\ (used p' ≡ₚ x :: used p) /\
  (NoDup (objects p) -> x ∉ used p).
Proof.
  revert p'. induction p as [|o p IH]; intros p' H; cbn in H; [done|].
  rewrite !used_cons. destruct (in_use o) eqn:E; cbn [negb] in H.
  - destruct (Grab_lookup p) as [[p1 y]|]; [|done]. injection H as <- <-.
    destruct (IH p1 eq_refl) as (H1 & H2 & H3). rewrite used_cons, E. cbn. split; [|split].
    + unfold objects in *. cbn. by rewrite H1.
    + rewrite H2. apply Permutation_swap.
    + intros [Hn Hd]%NoDup_cons. rewrite not_elem_of_cons. split; [|by apply H3].
      intros ->. apply Hn. change (map object p) with (objects p). rewrite <- H1.
      apply used_in. rewrite H2. left.
  - injection H as <- <-. rewrite used_cons. cbn. split; [done|]. split; [done|].
    intros [Hn Hd]%NoDup_cons Hin. by apply Hn, used_in.
Qed.

Lemma remove_first_spec x p : x ∈ used p -> NoDup (objects p) ->
  (objects p ≡ₚ x :: objects (remove_first x p)) /\
  (used p ≡ₚ x :: used (remove_first x p)).
Proof.
  induction p as [|o p IH]; intros Hin Hd; [inversion Hin|].
  rewrite used_cons in *. apply NoDup_cons in Hd as [Hn Hd]. cbn [remove_first].
  case_decide as E.
  - destruct (in_use o); [by subst|]. exfalso. apply Hn. subst. by apply used_in.
  - assert (x ∈ used p) as Hin'.
    { destruct (in_use o); [|done]. apply elem_of_cons in Hin as [->|?]; done. }
    destruct (IH Hin' Hd) as [H1 H2]. rewrite used_cons. unfold objects in *. cbn. split.
    + rewrite H1. apply Permutation_swap.
    + destruct (in_use o); [|done]. rewrite H2. apply Permutation_swap.
Qed.

Lemma Release_spec now x p : x ∈ used p -> NoDup (objects p) ->
  objects (Release now x p) = objects p /\ (used p ≡ₚ x :: used (Release now x p)).
Proof.
  induction p as [|o p IH]; intros Hin Hd; [inversion Hin|].
  rewrite used_cons in *. apply NoDup_cons in Hd as [Hn Hd]. cbn [Release].
  case_decide as E.
  - rewrite used_cons. cbn. split; [done|].
    destruct (in_use o); [by subst|]. exfalso. apply Hn. subst. by apply used_in.
  - assert (x ∈ used p) as Hin'.
    { destruct (in_use o); [|done]. apply elem_of_cons in Hin as [->|?]; done. }
    destruct (IH Hin' Hd) as [H1 H2]. rewrite used_cons. unfold objects in *. cbn. split.
    + by rewrite H1.
    + destruct (in_use o); [|done]. rewrite H2. apply Permutation_swap.
Qed.

Lemma destroy_fold (l : list (object_t T)) w k :
  NoDup (objects l ++ k) -> live (K := unit) w ≡ₚ objects l ++ k ->
  live (K := unit) (fold_left (fun w o => Destroy (K := unit) (object o) w) l w) ≡ₚ k.
Proof.
  revert w. induction l as [|o l IH]; intros w Hd Hl; [done|]. cbn in *.
  apply NoDup_cons in Hd as [Hn Hd]. apply IH; [done|].
  assert (object o ∈ live (K := unit) w) as Hin by (rewrite Hl; left).
  rewrite (Destroy_live _ _ Hin) in Hl. by apply Permutation_cons_inv in Hl.
Qed.

Lemma partition_gone b d p :
  p ≡ₚ filter (fun o => gone b d o = true) p ++ filter (fun o => gone b d o = false) p.
Proof.
  induction p as [|o p IH]; [done|]. rewrite !filter_cons. destruct (gone b d o).
  - rewrite decide_True, decide_False by done. cbn. by rewrite <- IH.
  - rewrite decide_False, decide_True by done. rewrite <- Permutation_middle. by rewrite <- IH.
Qed.

Lemma used_not_gone d p : used (filter (fun o => gone false d o = false) p) = used p.
Proof.
  induction p as [|o p IH]; [done|]. rewrite filter_cons, used_cons. unfold gone. cbn [orb].
  destruct (in_use o) eqn:E; cbn [negb andb].
  - rewrite decide_True by done. by rewrite used_cons, E, <- IH.
  - case_decide; [by rewrite used_cons, E|done].
Qed.

Lemma pool_step_inv a b : step a b -> Inv a -> Inv b.
Proof.
  intros Hs (Hd & Hl & Hh). destruct Hs as
    [p c h w p' x E|p c h w w' x EL E|p c h w w' EL E|p c c' h w x E|now p c h h' w x E
    |p c h h' w p' w' x E ER|now idle p c h w p' w' E]; cbn [pool creating held world] in *;
    unfold Inv; cbn [pool creating held world].
  - destruct (Grab_lookup_spec p p' x E) as (H1 & H2 & _). rewrite H1.
    split; [done|]. split; [done|]. by rewrite H2, Hh.
  - apply Create_some in E as (Hx & Hw & _). rewrite Hl in Hx, Hw.
    rewrite <- Permutation_middle. split; [by constructor|]. by split.
  - apply Create_none in E. by rewrite E.
  - rewrite E in Hd, Hl. unfold Grab_push, objects in *. rewrite map_app, <- app_assoc. cbn.
    split; [done|]. split; [done|]. rewrite used_app, Hh.
    change (used [mkObject x true (-1)]) with [x]. by rewrite Permutation_app_comm.
  - assert (x ∈ used p) as Hin by (rewrite <- Hh, E; left).
    pose proof Hd as Hd'. apply NoDup_app in Hd' as (Hd' & _ & _).
    destruct (Release_spec now x p Hin Hd') as [H1 H2]. rewrite H1.
    split; [done|]. split; [done|]. rewrite Hh, H2 in E. by apply Permutation_cons_inv in E as ->.
  - injection ER as <- <-.
    assert (x ∈ used p) as Hin by (rewrite <- Hh, E; left).
    pose proof Hd as Hd'. apply NoDup_app in Hd' as (Hd' & _ & _).
    destruct (remove_first_spec x p Hin Hd') as [H1 H2].
    rewrite H1 in Hd, Hl. cbn in Hd, Hl. apply NoDup_cons in Hd as [_ Hd].
    split; [done|]. split.
    + assert (x ∈ live (K := unit) w) as Hx by (rewrite Hl; left).
      rewrite (Destroy_live x w Hx) in Hl. by apply Permutation_cons_inv in Hl.
    + rewrite Hh, H2 in E. by apply Permutation_cons_inv in E as ->.
  - injection E as <- <-. set (d := now - idle).
    set (g := filter (fun o => gone false d o = true) p).
    set (k := filter (fun o => gone false d o = false) p).
    assert (objects p ≡ₚ objects g ++ objects k) as EP.
    { unfold objects. rewrite <- map_app. unfold g, k. by rewrite <- partition_gone. }
    rewrite EP, <- app_assoc in Hd, Hl. split; [by apply NoDup_app in Hd as (_ & _ & ?)|].
    split; [by apply destroy_fold|].
    rewrite Hh. rewrite <- (used_not_gone d p) at 1. reflexivity.
Qed.

(** C11: however threads interleave, the pool lends an object to one caller at
    a time: the objects callers hold are distinct, live and exactly the ones
    marked in use, an object that [Grab] finds is held by nobody, and no
    object leaks: the live ones are those of the pool and of unfinished
    calls. *)
Theorem object_pool_exclusive a w0 : live (K := unit) w0 = [] ->
  rtc step (mkConfig [] [] [] w0) a ->
  NoDup (held a) /\ (held a ≡ₚ used (pool a)) /\
  (live (K := unit) (world a) ≡ₚ objects (pool a) ++ creating a) /\
  (forall p x, Grab_lookup (pool a) = Some (p, x) -> x ∉ held a) /\
  (forall x, x ∈ held a -> x ∈ live (K := unit) (world a)).
Proof.
  intros H0 HR. assert (forall a b, rtc step a b -> Inv a -> Inv b) as HI.
  { induction 1; eauto using pool_step_inv. }
  destruct (HI _ _ HR) as (Hd & Hl & Hh).
  { split; [constructor|]. cbn. by rewrite H0. }
  pose proof Hd as Hd'. apply NoDup_app in Hd' as (Hd' & _ & _).
  split; [|split; [done|split; [done|split]]].
  - rewrite Hh. unfold used. eapply sublist_NoDup; [exact Hd'|].
    apply (fmap_sublist object). clear. induction (pool a) as [|o p IH]; [done|].
    rewrite filter_cons. case_decide; [by apply sublist_skip|by apply sublist_cons].
  - intros p x E. rewrite Hh. destruct (Grab_lookup_spec _ _ _ E) as (_ & _ & H). auto.
  - intros x Hx. rewrite Hl. apply elem_of_app. left. apply used_in. by rewrite <- Hh.
Qed.

End ObjectPool.

(** ** Witness *)

(** A subclass with a single object, number 0. *)
#[local, refine] Instance one_object : Objects unit Z bool := {|
  Create _ b := if b : bool then (b, None) else (true, Some 0);
  Destroy _ _ := false;
  live b := if b : bool then [0] else [];
  made_for _ _ := True
|}.
Proof.
  - intros k [] w' x; [done|]. intros [= <- <-]. split; [intros H; inversion H|done].
  - intros k [] w'; [|done]. by intros [= <-].
  - intros x []; [|intros H; inversion H]. by intros ->%list_elem_of_singleton.
Defined.

Lemma object_pool_exclusive_witness :
  [0] ≡ₚ used [mkObject 0 true (-1)] /\ live (K := unit) true = [0].
Proof.
  split; [|reflexivity].
  refine (proj1 (proj2 (object_pool_exclusive
    (mkConfig [mkObject 0 true (-1)] [] [0] true) false eq_refl _))).
  eapply rtc_l; [exact (step_create [] [] [] false true 0 eq_refl eq_refl)|].
  eapply rtc_l; [exact (step_push [] [0] [] [] true 0 (Permutation_refl _))|].
  apply rtc_refl.
Defined.
