(* ===== verification/TimeoutPool.v ===== *)
(** * Values with deadlines: timeout_pool.h

    [TimeoutPool] maps keys to values with a deadline.  The values are
    pointers; deleting one runs its destructor, which is the parameter
    [delete] on the state [W] that destructors can change.  The clock,
    [get_monotonic_timestamp()], is the argument [now]. *)

From S2P Require Import Prelude StdMap.

(** The fields of a pool; a mapped value is its deadline [_d] and value [_v]. *)
Record TimeoutPool (K V : Type) : Type := mkTimeoutPool {
  _default_timeout : Z;
  _auto_release : bool;
  _pool : list (K * (Z * V))
}.
Arguments mkTimeoutPool {K V}.
Arguments _default_timeout {K V}.
Arguments _auto_release {K V}.
Arguments _pool {K V}.

(** An [int64_t] sum. *)
Definition i64 (z : Z) : Z := signed 64 z.

Section TimeoutPool.
Context {K V W : Type} {OK : Ordered K} (delete : V -> W -> W).

Implicit Types (p : TimeoutPool K V) (k : K) (v : V) (w : W).

Definition with_pool p l : TimeoutPool K V :=
  mkTimeoutPool (_default_timeout p) (_auto_release p) l.

Definition deadline (timeout now : Z) p : Z :=
  i64 (now + (if 0 <? timeout then timeout else _default_timeout p)).

Definition Insert k v (timeout now : Z) p w : TimeoutPool K V * W :=
  match find k (_pool p) with
  | None => (with_pool p (insert k (deadline timeout now p, v) (_pool p)), w)
  | Some (_, old) =>
      (with_pool p (assign k (deadline timeout now p, v) (_pool p)),
       if _auto_release p then delete old w else w)
  end.

(** [None] is the null pointer. *)
Definition Erase k p : TimeoutPool K V * option V :=
  match find k (_pool p) with
  | None => (p, None)
  | Some (_, v) => (with_pool p (erase k (_pool p)), Some v)
  end.

Definition expired (now : Z) (e : K * (Z * V)) : bool := e.2.1 <=? now.

(** The first loop of [Check]: the keys to drop, and the deletions. *)
Definition Check_step (now : Z) (a : list K * W) (e : K * (Z * V)) (auto : bool) : list K * W :=
  if expired now e
  then (a.1 ++ [e.1], if auto then delete e.2.2 a.2 else a.2)
  else a.

Definition Check_ (now : Z) p w : TimeoutPool K V * W :=
  let '(drop, w) :=
    fold_left (fun a e => Check_step now a e (_auto_release p)) (_pool p) ([], w) in
  (with_pool p (fold_left (fun l k => erase k l) drop (_pool p)), w).

Definition Clear p w : TimeoutPool K V * W :=
  (with_pool p [],
   if _auto_release p then fold_left (fun w e => delete e.2.2 w) (_pool p) w else w).

(** ** What Check removes *)

Lemma erase_all_filter now l : sorted l ->
  fold_left (fun l k => erase k l) (map fst (filter (fun e => expired now e = true) l)) l =
  filter (fun e => expired now e = false) l.
Proof.
  assert (forall d (l1 l2 : list (K * (Z * V))), Forall (fun k => k ∉ keys l1) d ->
    fold_left (fun l k => erase k l) d (l1 ++ l2) =
    l1 ++ fold_left (fun l k => erase k l) d l2) as HA.
  { induction d as [|k d IH]; intros l1 l2 Hd; [done|]. cbn.
    apply Forall_cons in Hd as [Hk Hd]. rewrite <- IH by done. f_equal.
    clear -Hk. induction l1 as [|[a v] l1 IH]; [done|]. cbn in *.
    apply not_elem_of_cons in Hk as [Hk1 Hk2]. rewrite decide_False by done. by rewrite IH. }
  induction l as [|[k [d v]] l IH]; intros Hs; [done|].
  pose proof (sorted_notin _ _ _ Hs) as Hn. apply sorted_cons_inv in Hs as [Hs _].
  rewrite !filter_cons. destruct (expired now (k, (d, v))) eqn:E.
  - rewrite decide_True, (decide_False (P := true = false)) by done. cbn [map fst fold_left].
    cbn [erase]. rewrite decide_True by done. by apply IH.
  - rewrite decide_False, (decide_True (P := false = false)) by done.
    rewrite (HA _ [(k, (d, v))] l).
    + cbn. f_equal. by apply IH.
    + apply Forall_forall. intros k' Hk' Hin. cbn in Hin. apply list_elem_of_singleton in Hin as ->.
      apply Hn. apply list_elem_of_fmap in Hk' as (e & -> & He).
      apply list_elem_of_filter in He as [_ He]. unfold keys.
      by apply (list_elem_of_fmap_2 fst).
Qed.

Lemma Check_fold now auto l drop w :
  fold_left (fun a e => Check_step now a e auto) l (drop, w) =
  (drop ++ map fst (filter (fun e => expired now e = true) l),
   if auto then fold_left (fun w e => delete e.2.2 w) (filter (fun e => expired now e = true) l) w
   else w).
Proof.
  revert drop w. induction l as [|e l IH]; intros drop w; cbn [fold_left].
  - rewrite app_nil_r. by destruct auto.
  - rewrite filter_cons. unfold Check_step at 2. destruct (expired now e) eqn:E; cbn [fst snd].
    + rewrite IH, decide_True by done. cbn. rewrite <- app_assoc. by destruct auto.
    + rewrite IH, decide_False by done. done.
Qed.

Lemma Check_eq now p w : sorted (_pool p) ->
  Check_ now p w =
  (with_pool p (filter (fun e => expired now e = false) (_pool p)),
   if _auto_release p
   then fold_left (fun w e => delete e.2.2 w) (filter (fun e => expired now e = true) (_pool p)) w
   else w).
Proof.
  intros Hs. unfold Check_. rewrite Check_fold. cbn [app]. by rewrite erase_all_filter.
Qed.

Lemma filter_sorted (P : K * (Z * V) -> Prop) `{forall e, Decision (P e)} l :
  sorted l -> sorted (filter P l).
Proof.
  apply sublist_sorted. induction l as [|e l IH]; [done|]. rewrite filter_cons.
  case_decide; [by apply sublist_skip|by apply sublist_cons].
Qed.

Lemma Insert_sorted k v t now p w : sorted (_pool p) -> sorted (_pool (Insert k v t now p w).1).
Proof.
  intros H. unfold Insert. destruct (find k (_pool p)) as [[]|] eqn:E; cbn.
  - by apply assign_sorted.
  - apply insert_sorted; [done|]. by apply find_none.
Qed.

Lemma Erase_sorted k p : sorted (_pool p) -> sorted (_pool (Erase k p).1).
Proof.
  intros H. unfold Erase. destruct (find k (_pool p)) as [[]|]; cbn; [by apply erase_sorted|done].
Qed.

(** ** Properties *)

(** A value inserted under a key is the one [Erase] gives back until it is
    replaced or expires: [Insert] never loses or duplicates another key's
    value, and one that replaces a value deletes the old one exactly when the
    pool releases its values itself. *)
Theorem timeout_pool_Insert_Erase k v t now p w : sorted (_pool p) ->
  let '(p', w') := Insert k v t now p w in
  sorted (_pool p') /\ (Erase k p').2 = Some v /\
  (forall j, j <> k -> find j (_pool p') = find j (_pool p)) /\
  find k (_pool p') = Some (deadline t now p, v) /\
  w' = (match find k (_pool p) with
        | Some (_, old) => if _auto_release p then delete old w else w
        | None => w
        end).
Proof.
  intros Hs. pose proof (Insert_sorted k v t now p w Hs) as Hs'. revert Hs'.
  unfold Insert, Erase. destruct (find k (_pool p)) as [[d old]|] eqn:E; cbn; intros Hs'.
  - assert (find k (assign k (deadline t now p, v) (_pool p)) = Some (deadline t now p, v)) as F.
    { apply find_sorted; [done|].
      destruct (assign_permutation k (deadline t now p, v) _ _ E) as (r & _ & ->). left. }
    rewrite F. split; [done|]. split; [done|]. split; [|done].
    intros j Hj. clear -Hj. induction (_pool p) as [|[a x] l IH]; [done|]. cbn.
    case_decide; cbn; case_decide; congruence.
  - assert (k ∉ keys (_pool p)) as Hn by by apply find_none.
    rewrite find_insert by done. split; [done|]. split; [done|]. split; [|done].
    intros j Hj. by apply find_insert_ne.
Qed.

(** [Check] removes exactly the values whose deadline has passed, keeps
    every other one with its deadline, and deletes each removed value once, in
    the order of the keys, when the pool releases its values itself. *)
Theorem timeout_pool_Check_expires now p w : sorted (_pool p) ->
  let '(p', w') := Check_ now p w in
  let gone := filter (fun e => expired now e = true) (_pool p) in
  sorted (_pool p') /\ (_pool p ≡ₚ gone ++ _pool p') /\
  Forall (fun e => now < e.2.1) (_pool p') /\ Forall (fun e => e.2.1 <= now) gone /\
  w' = (if _auto_release p then fold_left (fun w e => delete e.2.2 w) gone w else w).
Proof.
  intros Hs. rewrite Check_eq by done. cbn [with_pool _pool].
  split; [by apply filter_sorted|]. split; [|split; [|split; [|done]]].
  - clear. induction (_pool p) as [|e l IH]; [done|]. rewrite !filter_cons.
    destruct (expired now e).
    + rewrite decide_True, decide_False by done. cbn. by rewrite <- IH.
    + rewrite decide_False, decide_True by done. rewrite <- Permutation_middle. by rewrite <- IH.
  - apply Forall_forall. intros e He. apply list_elem_of_filter in He as [He _].
    unfold expired in He. bprop. done.
  - apply Forall_forall. intros e He. apply list_elem_of_filter in He as [He _].
    unfold expired in He. bprop. done.
Qed.

End TimeoutPool.

(** ** Witnesses *)

Definition p1 : TimeoutPool Z Z := mkTimeoutPool 5 true [(1, (10, 100)); (2, (20, 200))].

Lemma p1_sorted : sorted (_pool p1).
Proof. repeat constructor. Defined.

Lemma timeout_pool_Insert_Erase_witness :
  sorted (_pool (Insert cons 2 300 0 7 p1 []).1) /\
  Insert cons 2 300 0 7 p1 [] = (mkTimeoutPool 5 true [(1, (10, 100)); (2, (12, 300))], [200]).
Proof.
  split; [|vm_compute; reflexivity].
  exact (proj1 (timeout_pool_Insert_Erase cons 2 300 0 7 p1 [] p1_sorted)).
Defined.

Lemma timeout_pool_Check_expires_witness :
  sorted (_pool (Check_ cons 10 p1 []).1) /\
  Check_ cons 10 p1 [] = (mkTimeoutPool 5 true [(2, (20, 200))], [100]).
Proof.
  split; [|vm_compute; reflexivity].
  exact (proj1 (timeout_pool_Check_expires cons 10 p1 [] p1_sorted)).
Defined.
