(* ===== verification/AsyncRouter.v ===== *)
(** * Multiplexed calls with timeouts: linkage/async_router.h, route_handler.h

    [AsyncRouter] picks a connection for each call with [ObjectMap]'s round
    robin, remembers the call in a [TimeoutPool] of [Track]s, and gives the
    task back on [Put] or deletes it on a timeout.  Its connections implement
    the interface [Objects] of [ObjectMap]; the [RouteHandler] of the
    application is an interface here.  The theorems: a connection stays while
    a call is pending on it, every task is pending, given back, deleted or
    leaked exactly once, and [Shutdown] never blocks. *)

From S2P Require Import Prelude StdMap ObjectMap TimeoutPool.

(** route_handler.h, over the application's state [H]; the timeout callback of
    the base class does nothing. *)
Class RouteHandler (K Tk S C H : Type) := {
  rh_Create : K -> H -> H * option C;
  rh_Destroy : C -> H -> H * bool;
  rh_OnTimeout : S -> option Tk -> H -> H
}.

Definition RouteHandler_OnTimeout {S Tk H : Type} (seq : S) (task : option Tk) (h : H) : H := h.

(** [context_t], with the address [new] gave it; [pendings] and [last_active]
    are never used. *)
Record context_t (K C : Type) : Type := mkContext {
  address : Z;
  key : K;
  channel : C
}.
Arguments mkContext {K C}.
Arguments address {K C}.
Arguments key {K C}.
Arguments channel {K C}.

(** [Track]; the router it points to is the one that holds it. *)
Record Track (K Tk S C : Type) : Type := mkTrack {
  _seq : S;
  _task : option Tk;
  _context : context_t K C
}.
Arguments mkTrack {K Tk S C}.
Arguments _seq {K Tk S C}.
Arguments _task {K Tk S C}.
Arguments _context {K Tk S C}.

(** What the connections live in: the heap of contexts and the application. *)
Record world (K C H : Type) : Type := mkWorld {
  contexts : list (context_t K C);
  handler : H
}.
Arguments mkWorld {K C H}.
Arguments contexts {K C H}.
Arguments handler {K C H}.

Section AsyncRouter.
Context {K Tk S C H : Type} {OK : Ordered K} {OS : Ordered S} {CD : EqDecision C}.
Context {RH : RouteHandler K Tk S C H}.

#[export] Instance context_eq_dec : EqDecision (context_t K C).
Proof. solve_decision. Defined.

(** The address of the next [new context_t]: not one in use. *)
Definition new_address (l : list (context_t K C)) : Z :=
  fold_right (fun c m => Z.max (address c + 1) m) 0 l.

Fixpoint free_context (c : context_t K C) (l : list (context_t K C)) : list (context_t K C) :=
  match l with
  | [] => []
  | d :: l => if decide (d = c) then l else d :: free_context c l
  end.

Definition CreateConnection (k : K) (w : world K C H) : world K C H * option (context_t K C) :=
  match rh_Create (Tk := Tk) (S := S) k (handler w) with
  | (h, None) => (mkWorld (contexts w) h, None)
  | (h, Some ch) =>
      let c := mkContext (new_address (contexts w)) k ch in
      (mkWorld (c :: contexts w) h, Some c)
  end.

Definition DestroyConnection (c : context_t K C) (w : world K C H) : world K C H :=
  mkWorld (free_context c (contexts w))
    (rh_Destroy (K := K) (Tk := Tk) (S := S) (channel c) (handler w)).1.

Lemma new_address_fresh l : Forall (fun c => address c < new_address l) l.
Proof.
  induction l as [|c l IH]; [constructor|]. cbn [new_address fold_right].
  change (fold_right _ 0 l) with (new_address l). constructor; [lia|].
  eapply Forall_impl; [exact IH|]. intros x Hx. cbn in Hx. lia.
Qed.

(** [AsyncRouter::Map] implements the interface of [ObjectMap]. *)
#[export, refine] Instance Map_objects : Objects K (context_t K C) (world K C H) := {|
  Create := CreateConnection;
  Destroy := DestroyConnection;
  live := contexts;
  made_for k c := key c = k
|}.
Proof.
  - intros k w w' x. unfold CreateConnection.
    destruct (rh_Create k (handler w)) as [h [ch|]]; [|done]. intros [= <- <-].
    split; [|done]. intros Hin. pose proof (new_address_fresh (contexts w)) as HF.
    rewrite Forall_forall in HF. specialize (HF _ Hin). cbn in HF. lia.
  - intros k w w'. unfold CreateConnection.
    destruct (rh_Create k (handler w)) as [h [ch|]]; [done|]. by intros [= <-].
  - intros c w Hin. cbn. induction (contexts w) as [|d l IH]; [inversion Hin|]. cbn.
    case_decide as E; [by subst|].
    apply elem_of_cons in Hin as [->|Hin]; [done|]. rewrite (IH Hin) at 1.
    apply Permutation_swap.
Defined.

(** ** The router *)

(** The fields that the destructor of a [Track] can reach, and the tasks that
    have been deleted. *)
Record core : Type := mkCore {
  _map : ObjectMap K (context_t K C);
  _clearing : bool;
  _world : world K C H;
  deleted : list Tk
}.

Record AsyncRouter : Type := mkRouter {
  _timeout : TimeoutPool S (Track K Tk S C);
  _core : core
}.

(** [delete task]: nothing for a null pointer. *)
Definition delete_task (t : option Tk) (l : list Tk) : list Tk :=
  match t with Some t => t :: l | None => l end.

Definition Release_context (c : context_t K C) (r : core) : core :=
  let '(m, w, _) := Release (key c) c (_map r) (_world r) in
  mkCore m (_clearing r) w (deleted r).

Definition OnTimeout (track : Track K Tk S C) (r : core) : core :=
  if _clearing r then r
  else
    let w := mkWorld (contexts (_world r))
               (rh_OnTimeout (K := K) (C := C) (_seq track) (_task track) (handler (_world r))) in
    let r := Release_context (_context track) (mkCore (_map r) (_clearing r) w (deleted r)) in
    mkCore (_map r) (_clearing r) (_world r) (delete_task (_task track) (deleted r)).

(** [delete track]: the destructor reports a timeout unless [Done()]. *)
Definition delete_track (done : bool) (track : Track K Tk S C) (r : core) : core :=
  if done then r else OnTimeout track r.

Definition AsyncRouter_new (default_timeout : Z) (h : H) : AsyncRouter :=
  mkRouter
    (mkTimeoutPool (if 0 <? default_timeout then default_timeout else 5000000000) true [])
    (mkCore ObjectMap_new false (mkWorld [] h) []).

(** [None]: returns false. *)
Definition Get (seq : S) (task : option Tk) (timeout now : Z) (r : AsyncRouter)
  : AsyncRouter * option C :=
  let '(m, c) := GetNext (_map (_core r)) in
  let core := mkCore m (_clearing (_core r)) (_world (_core r)) (deleted (_core r)) in
  match c with
  | None => (mkRouter (_timeout r) core, None)
  | Some (_, c) =>
      let '(pool, core) :=
        Insert (delete_track false) seq (mkTrack seq task c) timeout now (_timeout r) core in
      (mkRouter pool core, Some (channel c))
  end.

(** [task]: whether the pointer is not null.  The results are the one of the
    call and what is stored through the pointer, if anything is. *)
Definition Put (seq : S) (rc : Z) (task : bool) (r : AsyncRouter)
  : AsyncRouter * bool * option (option Tk) :=
  match TimeoutPool.Erase seq (_timeout r) with
  | (_, None) => (r, false, None)
  | (pool, Some track) =>
      let stored := if task then Some (_task track) else None in
      let core := Release_context (_context track) (_core r) in
      (mkRouter pool (delete_track true track core), true, stored)
  end.

Definition Clear (r : AsyncRouter) : AsyncRouter :=
  let c := _core r in
  let '(pool, c) := TimeoutPool.Clear (delete_track false) (_timeout r)
                      (mkCore (_map c) true (_world c) (deleted c)) in
  let '(m, w) := ObjectMap.Clear (_map c) (_world c) in
  mkRouter pool (mkCore m false w (deleted c)).

(** The last component: the caller is left waiting for the connections. *)
Definition Shutdown (r : AsyncRouter) : AsyncRouter * bool :=
  let '(pool, c) := TimeoutPool.Clear (delete_track false) (_timeout r) (_core r) in
  let '(m, w, wait) := EraseAll true (_map c) (_world c) in
  (mkRouter pool (mkCore m (_clearing c) w (deleted c)), wait).

Definition Cleanup (now : Z) (r : AsyncRouter) : AsyncRouter :=
  let '(pool, c) := Check_ (delete_track false) now (_timeout r) (_core r) in
  mkRouter pool c.

Definition Add (host : K) (r : AsyncRouter) : AsyncRouter :=
  let c := _core r in
  let '(m, w, x) := ObjectMap.Add host (_map c) (_world c) in
  let c := mkCore m (_clearing c) w (deleted c) in
  match x with
  | None => mkRouter (_timeout r) c
  | Some x =>
      let '(m, w, _) := Release host x m w in
      mkRouter (_timeout r) (mkCore m (_clearing c) w (deleted c))
  end.

Definition Del (host : K) (r : AsyncRouter) : AsyncRouter :=
  let c := _core r in
  let '(m, w) := ObjectMap.Erase host (_map c) (_world c) in
  mkRouter (_timeout r) (mkCore m (_clearing c) w (deleted c)).

Definition SetAll (hosts : list K) (r : AsyncRouter) : AsyncRouter :=
  let c := _core r in
  let '(m, w) := ObjectMap.SetAll hosts (_map c) (_world c) in
  mkRouter (_timeout r) (mkCore m (_clearing c) w (deleted c)).

End AsyncRouter.

Section Facts.
Context {K Tk S C H : Type} {OK : Ordered K} {OS : Ordered S} {CD : EqDecision C}.
Context {RH : RouteHandler K Tk S C H}.

Abbreviation core := (AsyncRouter.core (K := K) (Tk := Tk) (C := C) (H := H)).
Abbreviation router := (AsyncRouter.AsyncRouter (K := K) (Tk := Tk) (S := S) (C := C) (H := H)).
Abbreviation entry := (S * (Z * Track K Tk S C))%type.

Implicit Types (c : core) (r : router) (l : list entry).

Definition ref_of (e : entry) : K * context_t K C := (key (_context e.2.2), _context e.2.2).
Definition refs_of l : list (K * context_t K C) := map ref_of l.
Definition task_of (e : entry) : option Tk := _task e.2.2.
Definition tasks_of l : list Tk := omap task_of l.

(** The connections are held by exactly the pending calls [l]. *)
Definition core_inv c l : Prop :=
  Inv (AsyncRouter._map c) (_world c) (refs_of l) /\ _clearing c = false.

Definition router_inv r : Prop :=
  core_inv (_core r) (_pool (_timeout r)) /\ sorted (_pool (_timeout r)) /\
  _auto_release (_timeout r) = true.

#[export] Instance tasks_of_proper : Proper ((≡ₚ) ==> (≡ₚ)) tasks_of.
Proof. intros a b E. unfold tasks_of. by rewrite E. Qed.

#[export] Instance delete_task_proper (t : option Tk) : Proper ((≡ₚ) ==> (≡ₚ)) (delete_task t).
Proof. intros a b E. destruct t; cbn; by rewrite E. Qed.

Lemma tasks_of_cons e l : tasks_of (e :: l) = delete_task (task_of e) (tasks_of l).
Proof. done. Qed.

Lemma core_inv_perm c l l' : l ≡ₚ l' -> core_inv c l -> core_inv c l'.
Proof. intros E [HI HC]. split; [|done]. eapply Inv_perm; [|exact HI]. unfold refs_of. by rewrite E. Qed.

(** The application's state does not matter to the map. *)
Lemma Inv_handler (s : ObjectMap K (context_t K C)) (w : world K C H) h refs :
  Inv s w refs -> Inv s (mkWorld (contexts w) h) refs.
Proof. intros HI. exact HI. Qed.

Lemma Release_context_inv c e l : core_inv c (e :: l) -> zlen l + 1 < 2 ^ 64 ->
  core_inv (Release_context (_context e.2.2) c) l.
Proof.
  intros [HI HC] Hl. unfold Release_context.
  destruct (Release _ _ _ _) as [[m w] wk] eqn:E. split; [|done].
  eapply Release_inv; [exact HI| |exact E]. unfold refs_of, zlen in *. by rewrite length_map.
Qed.

Lemma Release_context_deleted x c : deleted (Release_context x c) = deleted c.
Proof. unfold Release_context. by destruct (Release _ _ _ _) as [[m w] wk]. Qed.

Lemma OnTimeout_inv c e l : core_inv c (e :: l) -> zlen l + 1 < 2 ^ 64 ->
  core_inv (OnTimeout e.2.2 c) l /\
  deleted (OnTimeout e.2.2 c) = delete_task (task_of e) (deleted c).
Proof.
  intros [HI HC] Hl. unfold OnTimeout. rewrite HC.
  set (w := mkWorld _ _).
  destruct (Release_context_inv (mkCore (AsyncRouter._map c) false w (deleted c)) e l) as [H1 H2];
    [by split|done|].
  split; [|by cbn; rewrite Release_context_deleted]. by split.
Qed.

Lemma fold_timeout l l' c : core_inv c (l ++ l') -> zlen (l ++ l') < 2 ^ 64 ->
  let c' := fold_left (fun c e => delete_track false e.2.2 c) l c in
  core_inv c' l' /\ deleted c' ≡ₚ tasks_of l ++ deleted c.
Proof.
  revert c. induction l as [|e l IH]; intros c HI Hl; [done|].
  cbn [app fold_left] in *. rewrite zlen_cons in Hl.
  destruct (OnTimeout_inv c e (l ++ l') HI ltac:(lia)) as [H1 H2].
  destruct (IH (OnTimeout e.2.2 c) H1 ltac:(lia)) as [H3 H4].
  split; [exact H3|]. etransitivity; [exact H4|]. rewrite H2.
  rewrite tasks_of_cons. destruct (task_of e); [|done].
  cbn. by rewrite Permutation_middle.
Qed.

(** A reference the map hands out is of a connection for its key. *)
Lemma Inv_made_for (s : ObjectMap K (context_t K C)) (w : world K C H) refs k x :
  Inv s w refs -> (k, x) ∈ refs -> key x = k.
Proof.
  intros (_ & (_ & _ & Hm) & [_ H2] & _) Hin. destruct (H2 k x Hin) as [n Hn].
  rewrite Forall_forall in Hm. exact (Hm _ Hn).
Qed.

(** ** Every operation keeps the invariant *)

Lemma new_inv d h : router_inv (AsyncRouter_new d h).
Proof.
  split; [|by split; [constructor|]]. split; [|done]. by apply (Inv_new (mkWorld [] h)).
Qed.

Lemma router_Get_inv seq task t now r r' ch : router_inv r ->
  zlen (_pool (_timeout r)) + 2 < 2 ^ 64 ->
  Get seq task t now r = (r', ch) ->
  router_inv r' /\
  match ch with
  | None => tasks_of (_pool (_timeout r')) = tasks_of (_pool (_timeout r)) /\
            deleted (_core r') = deleted (_core r)
  | Some _ =>
      tasks_of (_pool (_timeout r')) ++ deleted (_core r') ≡ₚ
      delete_task task (tasks_of (_pool (_timeout r)) ++ deleted (_core r)) /\
      exists d x, find seq (_pool (_timeout r')) = Some (d, mkTrack seq task x)
  end.
Proof.
  intros ([HI HC] & Hs & Ha) Hl. unfold Get.
  destruct (GetNext (AsyncRouter._map (_core r))) as [m [[k x]|]] eqn:EG.
  - apply (GetNext_inv _ _ _ _ _ HI) in EG;
      [|unfold refs_of, zlen in *; rewrite length_map; lia].
    assert (key x = k) as <- by (eapply Inv_made_for; [exact EG|left]).
    set (tr := mkTrack seq task x). set (c := mkCore m _ _ _).
    set (d := deadline t now (_timeout r)).
    assert (core_inv c ((seq, (d, tr)) :: _pool (_timeout r))) as HI' by by split.
    unfold Insert. destruct (find seq (_pool (_timeout r))) as [[d0 old]|] eqn:EF.
    + intros [= <- <-]. destruct (assign_permutation seq (d, tr) (d0, old) _ EF) as (rest & E1 & E2).
      rewrite Ha.
      assert (zlen (_pool (_timeout r)) = 1 + zlen rest) as EL.
      { unfold zlen. rewrite E1. cbn [length]. lia. }
      destruct (OnTimeout_inv c (seq, (d0, old)) ((seq, (d, tr)) :: rest)) as [H1 H2].
      { eapply core_inv_perm; [|exact HI']. rewrite E1. apply Permutation_swap. }
      { rewrite zlen_cons. lia. }
      split; [split; [|split; [by apply assign_sorted|done]]|].
      * eapply core_inv_perm; [|exact H1]. symmetry. exact E2.
      * split.
        -- cbn [_timeout _core _pool with_pool]. change (delete_track false old c) with (OnTimeout old c).
           change (assign _ _ _) with (assign seq (d, tr) (_pool (_timeout r))).
           cbn [snd fst] in H2. rewrite H2, E2, E1, !tasks_of_cons.
           change (task_of (seq, (d, tr))) with task.
           destruct task, (task_of (seq, (d0, old))); cbn [delete_task app];
             by rewrite <- ?Permutation_middle.
        -- exists d, x. cbn. apply find_sorted; [by apply assign_sorted|].
           eapply (proj2 (elem_of_Permutation_proper _ _ _ E2)). left.
    + intros [= <- <-].
      assert (seq ∉ keys (_pool (_timeout r))) as Hn by by apply find_none.
      split; [split; [|split; [by apply insert_sorted|done]]|].
      * eapply core_inv_perm; [|exact HI']. symmetry. apply insert_permutation.
      * split.
        -- cbn [_timeout _core _pool with_pool]. rewrite insert_permutation.
           rewrite tasks_of_cons. change (task_of (seq, (d, tr))) with task. by destruct task.
        -- exists d, x. cbn. by apply find_insert.
  - apply (GetNext_inv _ _ _ _ _ HI) in EG;
      [|unfold refs_of, zlen in *; rewrite length_map; lia].
    intros [= <- <-]. split; [|done]. split; [by split|done].
Qed.

(** The task of the pending call [seq]. *)
Definition pending_task seq r : option Tk :=
  match find seq (_pool (_timeout r)) with Some (_, tr) => _task tr | None => None end.

Lemma Put_inv seq rc b r r' found t : router_inv r -> zlen (_pool (_timeout r)) + 2 < 2 ^ 64 ->
  Put seq rc b r = (r', found, t) ->
  router_inv r' /\ deleted (_core r') = deleted (_core r) /\
  (tasks_of (_pool (_timeout r)) ≡ₚ delete_task (pending_task seq r) (tasks_of (_pool (_timeout r')))) /\
  t = (if found && b then Some (pending_task seq r) else None) /\
  (found = false -> r' = r /\ pending_task seq r = None).
Proof.
  intros (HI & Hs & Ha) Hl. unfold Put, TimeoutPool.Erase, pending_task.
  destruct (find seq (_pool (_timeout r))) as [[d tr]|] eqn:EF; intros [= <- <- <-]; [|done].
  pose proof (erase_permutation seq (d, tr) _ EF) as EP.
  assert (core_inv (Release_context (_context tr) (_core r)) (erase seq (_pool (_timeout r)))) as H1.
  { apply (Release_context_inv _ (seq, (d, tr))).
    - by eapply core_inv_perm.
    - unfold zlen in *. rewrite EP in Hl. cbn [length] in Hl. lia. }
  split; [split; [done|split; [by apply erase_sorted|done]]|].
  split; [apply Release_context_deleted|]. split; [|by destruct b].
  cbn. by rewrite EP at 1.
Qed.

Lemma core_inv_nil_drop c : core_inv c [] -> _drop (AsyncRouter._map c) = [].
Proof. intros [HI _]. by eapply Inv_no_refs. Qed.

Lemma Shutdown_spec r r' wait : router_inv r -> zlen (_pool (_timeout r)) + 2 < 2 ^ 64 ->
  Shutdown r = (r', wait) ->
  router_inv r' /\ wait = false /\ contexts (_world (_core r')) = [] /\
  _pool (_timeout r') = [] /\
  deleted (_core r') ≡ₚ tasks_of (_pool (_timeout r)) ++ deleted (_core r).
Proof.
  intros (HI & Hs & Ha) Hl. unfold Shutdown, TimeoutPool.Clear. rewrite Ha.
  destruct (fold_timeout (_pool (_timeout r)) [] (_core r)) as [H1 H2];
    [by rewrite app_nil_r|rewrite app_nil_r; lia|].
  set (c := fold_left _ _ _) in *. destruct H1 as [HI1 HC1].
  destruct (EraseAll true (AsyncRouter._map c) (_world c)) as [[m w] wt] eqn:EE.
  destruct (EraseAll_inv _ _ _ _ _ _ _ HI1 EE) as (HI2 & Hm & Hw).
  intros [= <- <-]. pose proof (Inv_no_refs _ _ HI2) as Hd.
  split; [split; [by split|split; [constructor|done]]|].
  split; [|split; [|split; [done|exact H2]]].
  - destruct wt; [|done]. by destruct (proj1 Hw eq_refl).
  - destruct HI2 as (_ & (_ & Hlv & _) & _). rewrite Hm, Hd in Hlv.
    by apply Permutation_nil_r in Hlv.
Qed.

Lemma router_Cleanup_inv now r : router_inv r -> zlen (_pool (_timeout r)) + 2 < 2 ^ 64 ->
  router_inv (Cleanup now r) /\
  tasks_of (_pool (_timeout (Cleanup now r))) ++ deleted (_core (Cleanup now r)) ≡ₚ
  tasks_of (_pool (_timeout r)) ++ deleted (_core r).
Proof.
  intros (HI & Hs & Ha) Hl. unfold Cleanup. rewrite Check_eq, Ha by done.
  set (gone := filter (fun e => expired now e = true) (_pool (_timeout r))).
  set (kept := filter (fun e => expired now e = false) (_pool (_timeout r))).
  assert (_pool (_timeout r) ≡ₚ gone ++ kept) as EP.
  { unfold gone, kept. clear. induction (_pool (_timeout r)) as [|e l IH]; [done|].
    rewrite !filter_cons. destruct (expired now e).
    - rewrite decide_True, decide_False by done. cbn. by rewrite <- IH.
    - rewrite decide_False, decide_True by done. rewrite <- Permutation_middle. by rewrite <- IH. }
  destruct (fold_timeout gone kept (_core r)) as [H1 H2].
  { by eapply core_inv_perm. }
  { unfold zlen in *. rewrite <- EP. lia. }
  split; [split; [done|split; [by apply filter_sorted|done]]|].
  cbn [_timeout _core with_pool _pool]. fold kept. rewrite H2, EP. unfold tasks_of.
  rewrite omap_app. rewrite app_assoc. apply Permutation_app_tail. apply Permutation_app_comm.
Qed.

Lemma Add_router_inv host r : router_inv r -> zlen (_pool (_timeout r)) + 2 < 2 ^ 64 ->
  router_inv (Add host r) /\ _timeout (Add host r) = _timeout r /\
  deleted (_core (Add host r)) = deleted (_core r).
Proof.
  intros ([HI HC] & Hs & Ha) Hl. unfold Add.
  assert (zlen (refs_of (_pool (_timeout r))) + 1 < 2 ^ 64) as Hl'
    by (unfold refs_of, zlen in *; rewrite length_map; lia).
  destruct (ObjectMap.Add host _ _) as [[m w] x] eqn:EA.
  apply (Add_inv _ _ _ _ _ _ _ HI Hl') in EA. destruct x as [x|]; [|split; [split; [by split|done]|done]].
  destruct (Release host x m w) as [[m1 w1] wk] eqn:ER.
  apply (Release_inv _ _ _ _ _ _ _ _ EA Hl') in ER. split; [split; [by split|done]|done].
Qed.

Lemma Del_inv host r : router_inv r ->
  router_inv (Del host r) /\ _timeout (Del host r) = _timeout r /\
  deleted (_core (Del host r)) = deleted (_core r).
Proof.
  intros ([HI HC] & Hs & Ha). unfold Del.
  destruct (ObjectMap.Erase host _ _) as [m w] eqn:EE.
  apply (DoErase_inv _ _ _ _ _ _ HI) in EE. split; [split; [by split|done]|done].
Qed.

Lemma SetAll_router_inv hosts r : router_inv r ->
  router_inv (SetAll hosts r) /\ _timeout (SetAll hosts r) = _timeout r /\
  deleted (_core (SetAll hosts r)) = deleted (_core r).
Proof.
  intros ([HI HC] & Hs & Ha). unfold SetAll.
  destruct (ObjectMap.SetAll hosts _ _) as [m w] eqn:EE.
  apply (SetAll_inv _ _ _ _ _ _ HI) in EE. split; [split; [by split|done]|done].
Qed.

(** ** Programs that use a router

    The ghost lists are the tasks that successful calls of [Get] took over, the
    ones that [Put] gave back, and the ones that leak: [Put] with a null
    pointer and [Clear] neither give back nor delete them. *)
Definition config : Type := router * list Tk * list Tk * list Tk.

Definition room r : Prop := zlen (_pool (_timeout r)) + 2 < 2 ^ 64.

Inductive step : config -> config -> Prop :=
| step_get seq task t now r r' ch given back lost : room r ->
    Get seq task t now r = (r', ch) ->
    step (r, given, back, lost)
      (r', match ch with Some _ => delete_task task given | None => given end, back, lost)
| step_put seq rc task r r' found t given back lost : room r ->
    Put seq rc task r = (r', found, t) ->
    step (r, given, back, lost)
      (r', given, match t with Some t => delete_task t back | None => back end,
       if task then lost else delete_task (pending_task seq r) lost)
| step_shutdown r r' wait given back lost : room r -> Shutdown r = (r', wait) ->
    step (r, given, back, lost) (r', given, back, lost)
| step_cleanup now r given back lost : room r ->
    step (r, given, back, lost) (Cleanup now r, given, back, lost)
| step_clear r given back lost :
    step (r, given, back, lost)
      (Clear r, given, back, tasks_of (_pool (_timeout r)) ++ lost)
| step_add_host host r given back lost : room r ->
    step (r, given, back, lost) (Add host r, given, back, lost)
| step_del_host host r given back lost :
    step (r, given, back, lost) (Del host r, given, back, lost)
| step_set_hosts hosts r given back lost :
    step (r, given, back, lost) (SetAll hosts r, given, back, lost).

Definition conserved (a : config) : Prop :=
  let '(r, given, back, lost) := a in
  router_inv r /\
  given ≡ₚ back ++ tasks_of (_pool (_timeout r)) ++ deleted (_core r) ++ lost.

Lemma delete_task_app t (l k : list Tk) : delete_task t l ++ k = delete_task t (l ++ k).
Proof. by destruct t. Qed.

Lemma app_delete_task t (l k : list Tk) : l ++ delete_task t k ≡ₚ delete_task t (l ++ k).
Proof. destruct t; cbn; [by rewrite Permutation_middle|done]. Qed.

(** [Clear] destroys the connections and forgets the calls; it deletes no task. *)
Lemma Clear_spec r : router_inv r ->
  router_inv (Clear r) /\ deleted (_core (Clear r)) = deleted (_core r) /\
  _pool (_timeout (Clear r)) = [] /\ contexts (_world (_core (Clear r))) = [].
Proof.
  intros ([HI _] & _ & Ha). unfold Clear, TimeoutPool.Clear. rewrite Ha. set (c := mkCore _ true _ _).
  assert (fold_left (fun c e => delete_track false e.2.2 c) (_pool (_timeout r)) c = c) as ->.
  { clear. induction (_pool (_timeout r)) as [|e l IH]; [done|]. exact IH. }
  destruct (ObjectMap.Clear (AsyncRouter._map c) (_world c)) as [m w] eqn:EC.
  destruct (Clear_inv _ _ _ _ _ HI EC) as [HI' Hl]. split; [|done].
  split; [by split|]. split; [constructor|done].
Qed.

Lemma step_conserved a b : step a b -> conserved a -> conserved b.
Proof.
  intros Hs HA. destruct Hs as
    [seq task t now r r' ch given back lost Hr E|seq rc task r r' found t given back lost Hr E
    |r r' wait given back lost Hr E|now r given back lost Hr|r given back lost
    |host r given back lost Hr|host r given back lost|hosts r given back lost];
    destruct HA as [HI HC].
  - apply router_Get_inv in E as [HI' E]; [|done|done]. split; [done|]. destruct ch.
    + destruct E as [E _]. rewrite (app_assoc (tasks_of _)), E, delete_task_app, app_delete_task.
      by rewrite <- app_assoc, HC.
    + destruct E as [-> ->]. done.
  - apply Put_inv in E as (HI' & Hd & E & Ht & Hn); [|done|done]. split; [done|]. rewrite Hd.
    rewrite HC, E. destruct found; [|destruct (Hn eq_refl) as [-> ->]; cbn in Ht; subst t; by destruct task].
    destruct (pending_task seq r) as [x|], task; cbn in Ht; subst t; cbn [delete_task app]; try done.
    + by rewrite <- Permutation_middle.
    + by rewrite <- !Permutation_middle.
  - apply Shutdown_spec in E as (HI' & _ & _ & Hp & Hd); [|done|done]. split; [done|].
    by rewrite Hp, Hd, HC, <- app_assoc.
  - destruct (router_Cleanup_inv now r HI Hr) as [HI' E]. split; [done|].
    by rewrite (app_assoc (tasks_of _)), E, <- app_assoc.
  - destruct (Clear_spec r HI) as (HI' & Hd & Hp & _). split; [done|]. rewrite Hd, Hp, HC. cbn.
    by rewrite (Permutation_app_comm (tasks_of _) (_ ++ _)), <- app_assoc, (Permutation_app_comm lost).
  - destruct (Add_router_inv host r HI Hr) as (HI' & E1 & E2). split; [done|]. by rewrite E1, E2.
  - destruct (Del_inv host r HI) as (HI' & E1 & E2). split; [done|]. by rewrite E1, E2.
  - destruct (SetAll_router_inv hosts r HI) as (HI' & E1 & E2). split; [done|]. by rewrite E1, E2.
Qed.

Lemma reachable_conserved d h a : rtc step (AsyncRouter_new d h, [], [], []) a -> conserved a.
Proof.
  intros H0. assert (forall x y, rtc step x y -> conserved x -> conserved y) as HR.
  { induction 1; eauto using step_conserved. }
  apply (HR _ _ H0). split; [apply new_inv|cbn; done].
Qed.

(** ** Properties *)

(** C12: in every reachable state of a router, whatever calls are made, the
    connection of a pending call is live, and every task it took over is,
    exactly once, given back by [Put], still pending, deleted after its
    timeout, or leaked: the tasks that leak are those that were pending at a
    [Clear] and those of the calls answered by a [Put] with a null pointer.  An
    answer to a pending call gives back its task, unless the pointer is null. *)
Theorem router_conserves_tasks d h r given back lost :
  rtc step (AsyncRouter_new d h, [], [], []) (r, given, back, lost) ->
  (forall e, e ∈ _pool (_timeout r) -> _context e.2.2 ∈ contexts (_world (_core r))) /\
  (given ≡ₚ back ++ tasks_of (_pool (_timeout r)) ++ deleted (_core r) ++ lost) /\
  (forall seq task t now r' ch rc b, room r -> Get seq task t now r = (r', Some ch) ->
     (Put seq rc b r').1.2 = true /\ (Put seq rc b r').2 = if b then Some task else None).
Proof.
  intros HR. destruct (reachable_conserved _ _ _ HR) as [HI HC]. split; [|split; [done|]].
  - intros e He. destruct HI as ([HI _] & _).
    destruct HI as (_ & (_ & Hl & _) & [_ H2] & _).
    destruct (H2 (key (_context e.2.2)) (_context e.2.2)) as [n Hn].
    { by apply (list_elem_of_fmap_2 ref_of) in He. }
    change (contexts (_world (_core r))) with (live (K := K) (_world (_core r))). rewrite Hl.
    by apply (list_elem_of_fmap_2 (fun e : K * V (context_t K C) => e.2.1)) in Hn.
  - intros seq task t now r' ch rc b Hr E. apply router_Get_inv in E as (_ & _ & d' & x & E); [|done|done].
    unfold Put, TimeoutPool.Erase. by rewrite E.
Qed.

(** [Shutdown] never blocks: after it times out the pending calls no
    connection is held, so it returns at once with every connection destroyed,
    no call pending, and every pending task deleted. *)
Theorem router_Shutdown_never_blocks d h r given back lost r' wait :
  rtc step (AsyncRouter_new d h, [], [], []) (r, given, back, lost) -> room r ->
  Shutdown r = (r', wait) ->
  wait = false /\ contexts (_world (_core r')) = [] /\ _pool (_timeout r') = [] /\
  (given ≡ₚ back ++ deleted (_core r') ++ lost).
Proof.
  intros HR Hr E. destruct (reachable_conserved _ _ _ HR) as [HI HC].
  destruct (Shutdown_spec r r' wait HI Hr E) as (_ & Hw & Hc & Hp & Hd).
  split; [done|]. split; [done|]. split; [done|]. by rewrite HC, Hd, <- app_assoc.
Qed.

(** [Clear], and so the destructor, destroys every connection but deletes
    none of the pending tasks, although the comment on [Get] promises that a
    task that times out is released. *)
Theorem router_Clear_leaks_tasks d h r given back lost :
  rtc step (AsyncRouter_new d h, [], [], []) (r, given, back, lost) ->
  deleted (_core (Clear r)) = deleted (_core r) /\ _pool (_timeout (Clear r)) = [] /\
  contexts (_world (_core (Clear r))) = [] /\
  (given ≡ₚ back ++ tasks_of (_pool (_timeout r)) ++ deleted (_core (Clear r)) ++ lost).
Proof.
  intros HR. destruct (reachable_conserved _ _ _ HR) as [HI HC].
  destruct (Clear_spec r HI) as (_ & Hd & Hp & Hc). by rewrite Hd.
Qed.

End Facts.

(** ** Witnesses *)

(** An application whose channels are ten times the key, and that logs the
    calls that time out. *)
#[local] Instance log_handler : RouteHandler Z Z Z Z (list Z) := {|
  rh_Create k h := (h, Some (10 * k));
  rh_Destroy c h := (h, true);
  rh_OnTimeout s t h := s :: h
|}.

Definition zrouter : Type :=
  AsyncRouter.AsyncRouter (K := Z) (Tk := Z) (S := Z) (C := Z) (H := list Z).
Definition r0 : zrouter := AsyncRouter_new 0 [].
Definition r1 : zrouter := Add 3 r0.
Definition r2 : zrouter := (Get 100 (Some 7) 0 0 r1).1.

Lemma r2_reachable : rtc step (r0, [], [], []) (r2, [7], [], []).
Proof.
  eapply rtc_l; [apply (step_add_host 3 r0); vm_compute; reflexivity|].
  eapply rtc_l; [|apply rtc_refl].
  apply (step_get 100 (Some 7) 0 0 r1 r2 (Some 30) [] [] []); vm_compute; reflexivity.
Defined.

(** Two more calls; one is answered, one with a null pointer. *)
Definition r3 : zrouter := (Get 200 (Some 8) 0 0 r2).1.
Definition r4 : zrouter := (Put 200 0 true r3).1.1.
Definition r5 : zrouter := (Put 100 0 false r4).1.1.

Lemma r5_reachable : rtc step (r0, [], [], []) (r5, [8; 7], [8], [7]).
Proof.
  etransitivity; [apply r2_reachable|].
  eapply rtc_l; [apply (step_get 200 (Some 8) 0 0 r2 r3 (Some 30)); vm_compute; reflexivity|].
  eapply rtc_l; [apply (step_put 200 0 true r3 r4 true (Some (Some 8))); vm_compute; reflexivity|].
  eapply rtc_l; [|apply rtc_refl].
  assert (delete_task (pending_task 100 r4) [] = [7]) as <- by (vm_compute; reflexivity).
  apply (step_put 100 0 false r4 r5 true None); vm_compute; reflexivity.
Defined.

Lemma router_conserves_tasks_witness :
  [8; 7] ≡ₚ [8] ++ tasks_of (_pool (_timeout r5)) ++ deleted (_core r5) ++ [7].
Proof. exact (proj1 (proj2 (router_conserves_tasks 0 [] r5 [8; 7] [8] [7] r5_reachable))). Defined.

Lemma router_Shutdown_never_blocks_witness :
  (Shutdown r2).2 = false /\ [7] ≡ₚ [] ++ deleted (_core (Shutdown r2).1) ++ [].
Proof.
  assert (room r2) as Hr by (vm_compute; reflexivity).
  destruct (router_Shutdown_never_blocks 0 [] r2 [7] [] [] (Shutdown r2).1 (Shutdown r2).2
    r2_reachable Hr (surjective_pairing _)) as (H1 & _ & _ & H4).
  exact (conj H1 H4).
Defined.

Lemma router_Clear_leaks_tasks_witness :
  deleted (_core (Clear r2)) = [] /\ tasks_of (_pool (_timeout r2)) = [7].
Proof.
  split; [|vm_compute; reflexivity].
  exact (proj1 (router_Clear_leaks_tasks 0 [] r2 [7] [] [] r2_reachable)).
Defined.
