(* ===== verification/StateMonad.v ===== *)
(** * Programs with a state and failing assertions

    [ST S A]: a program on a state of type [S] that returns an [A] or fails
    with an [exn].  [run m s Q]: [m] started in [s] returns (no assertion
    fails, nothing is undefined, no fuel runs out) and [Q] holds of what it
    returns; the rules [run_...] and the tactic [wp] compute it. *)

From S2P Require Import Prelude.

Section StateMonad.
Context {S : Type}.

Definition ST (A : Type) : Type := S -> result exn (A * S).
Definition ret {A : Type} (a : A) : ST A := fun s => Ok (a, s).
Definition bind {A C : Type} (m : ST A) (k : A -> ST C) : ST C :=
  fun s => let! (a, s) := m s in k a s.
Definition fail {A : Type} (e : exn) : ST A := fun _ => Err e.
Definition gets {A : Type} (f : S -> A) : ST A := fun s => Ok (f s, s).
Definition modify (f : S -> S) : ST unit := fun s => Ok (tt, f s).
Definition assert (b : bool) : ST unit := if b then ret tt else fail assertion_failed.

Definition run {A : Type} (m : ST A) (s : S) (Q : A -> S -> Prop) : Prop :=
  match m s with Ok (a, s') => Q a s' | Err _ => False end.

Lemma run_bind {A C} (m : ST A) (k : A -> ST C) s Q :
  run m s (fun a s => run (k a) s Q) -> run (bind m k) s Q.
Proof. unfold run, bind, rbind. by destruct (m s) as [[a s']|e]. Qed.

Lemma run_mono {A} (m : ST A) s (P Q : A -> S -> Prop) :
  run m s P -> (forall a s', P a s' -> Q a s') -> run m s Q.
Proof. unfold run. destruct (m s) as [[a s']|e]; auto. Qed.

Lemma run_and {A} (m : ST A) s (P Q : A -> S -> Prop) :
  run m s P -> run m s Q -> run m s (fun a s' => P a s' /\ Q a s').
Proof. unfold run. destruct (m s) as [[a s']|e]; auto. Qed.

Lemma run_forall {A X} (m : ST A) s (P : X -> A -> S -> Prop) :
  run m s (fun _ _ => True) -> (forall x, run m s (P x)) -> run m s (fun a s' => forall x, P x a s').
Proof. unfold run. destruct (m s) as [[a s']|e]; auto. Qed.

Lemma run_implies {A} (m : ST A) s (C : Prop) (P : A -> S -> Prop) :
  run m s (fun _ _ => True) -> (C -> run m s P) -> run m s (fun a s' => C -> P a s').
Proof. unfold run. destruct (m s) as [[a s']|e]; auto. Qed.

Lemma run_ret {A} (a : A) s (Q : A -> S -> Prop) : Q a s -> run (ret a) s Q.
Proof. done. Qed.

Lemma run_gets {A} (f : S -> A) s (Q : A -> S -> Prop) : Q (f s) s -> run (gets f) s Q.
Proof. done. Qed.

Lemma run_modify f s (Q : unit -> S -> Prop) : Q tt (f s) -> run (modify f) s Q.
Proof. done. Qed.

Lemma run_assert b s (Q : unit -> S -> Prop) : b = true -> Q tt s -> run (assert b) s Q.
Proof. by intros ->. Qed.

Lemma run_if {A} (b : bool) (m n : ST A) s Q :
  (b = true -> run m s Q) -> (b = false -> run n s Q) -> run (if b then m else n) s Q.
Proof. destruct b; auto. Qed.

Lemma run_ok {A} (m : ST A) s Q : run m s Q -> exists a s', m s = Ok (a, s') /\ Q a s'.
Proof. unfold run. destruct (m s) as [[a s']|e]; [eauto|done]. Qed.

Lemma bind_ext {A C} (m : ST A) (k k' : A -> ST C) s :
  (forall a s', m s = Ok (a, s') -> k a s' = k' a s') -> bind m k s = bind m k' s.
Proof. unfold bind, rbind. destruct (m s) as [[a s']|e]; auto. Qed.

Lemma bind_cong {A C} (m m' : ST A) (k : A -> ST C) s :
  m s = m' s -> bind m k s = bind m' k s.
Proof. unfold bind. by intros ->. Qed.

End StateMonad.
Arguments ST : clear implicits.

Notation "'let*' x ':=' m 'in' k" := (bind m (fun x => k))
  (at level 10, x pattern, m at level 100, k at level 200) : flinter_scope.
Notation "m ';;;' k" := (bind m (fun _ => k))
  (at level 100, k at level 200, right associativity) : flinter_scope.

(** One step of a program: the rule for its first instruction.  A file adds
    the rules of its own instructions by redefining [wp_more]. *)
Ltac wp_more := fail.
Ltac wp1 :=
  lazymatch goal with
  | |- run (bind _ _) _ _ => apply run_bind
  | |- run (ret _) _ _ => apply run_ret
  | |- run (gets _) _ _ => apply run_gets
  | |- run (modify _) _ _ => apply run_modify
  | |- run (assert _) _ _ => apply run_assert
  | |- _ => wp_more
  end.
Ltac wp := repeat (wp1; cbv beta).
