(* ===== verification/Cmdline.v ===== *)
(** * The command line: cmdline.c

    The module keeps the strings that it needs in a static buffer, finds out
    where the executable is, and moves the arguments and the environment away
    so that the memory behind argv[0] can hold another name of the process.

    Memory is a map of addresses: the static buffer is at 0, the heap above it,
    the arguments and the environment below. *)

From Stdlib Require Import ZifyBool.
From S2P Require Import Prelude CleanPath StateMonad.

Definition MAX_STATIC_BUFFER : Z := 65536.
Definition MAX_PREFIX_LENGTH : Z := 20.
Definition PATH_MAX : Z := 4096.
Definition NUL : ascii := "000"%char.

(** The variables of the file, with the memory; [g_prefix_length] is the length
    of [g_prefix], [brk] the end of the heap, [live] its blocks. *)
Record cmd : Type := mkCmd {
  mem : gmap Z ascii;
  g_memory_pointer : Z;
  brk : Z;
  live : gset Z;
  environ : list Z;
  g_max_length : Z;
  g_prefix : bytes;
  g_arg_name : option Z;
  g_module_arg : option Z;
  g_module_path : option Z;
  g_module_dirname : option Z;
  g_module_basename : option Z;
  g_saved_program_name : option Z
}.

Definition set_mem (m : gmap Z ascii) (s : cmd) : cmd :=
  mkCmd m (g_memory_pointer s) (brk s) (live s) (environ s) (g_max_length s) (g_prefix s) (g_arg_name s) (g_module_arg s) (g_module_path s)
    (g_module_dirname s) (g_module_basename s) (g_saved_program_name s).
Definition set_pointer (p : Z) (s : cmd) : cmd :=
  mkCmd (mem s) p (brk s) (live s) (environ s) (g_max_length s) (g_prefix s) (g_arg_name s) (g_module_arg s) (g_module_path s)
    (g_module_dirname s) (g_module_basename s) (g_saved_program_name s).
Definition set_heap (b : Z) (l : gset Z) (s : cmd) : cmd :=
  mkCmd (mem s) (g_memory_pointer s) b l (environ s) (g_max_length s) (g_prefix s) (g_arg_name s) (g_module_arg s) (g_module_path s)
    (g_module_dirname s) (g_module_basename s) (g_saved_program_name s).
Definition set_environ (e : list Z) (s : cmd) : cmd :=
  mkCmd (mem s) (g_memory_pointer s) (brk s) (live s) e (g_max_length s) (g_prefix s) (g_arg_name s) (g_module_arg s) (g_module_path s)
    (g_module_dirname s) (g_module_basename s) (g_saved_program_name s).
Definition set_title (arg : option Z) (max : Z) (prefix : bytes) (s : cmd) : cmd :=
  mkCmd (mem s) (g_memory_pointer s) (brk s) (live s) (environ s) max prefix arg (g_module_arg s) (g_module_path s)
    (g_module_dirname s) (g_module_basename s) (g_saved_program_name s).
Definition set_module_arg (p : option Z) (s : cmd) : cmd :=
  mkCmd (mem s) (g_memory_pointer s) (brk s) (live s) (environ s) (g_max_length s) (g_prefix s) (g_arg_name s) p (g_module_path s)
    (g_module_dirname s) (g_module_basename s) (g_saved_program_name s).
Definition set_module (path dir base : option Z) (s : cmd) : cmd :=
  mkCmd (mem s) (g_memory_pointer s) (brk s) (live s) (environ s) (g_max_length s) (g_prefix s) (g_arg_name s) (g_module_arg s) path
    dir base (g_saved_program_name s).
Definition set_saved (p : option Z) (s : cmd) : cmd :=
  mkCmd (mem s) (g_memory_pointer s) (brk s) (live s) (environ s) (g_max_length s) (g_prefix s) (g_arg_name s) (g_module_arg s) (g_module_path s)
    (g_module_dirname s) (g_module_basename s) p.

Abbreviation C := (ST cmd) (only parsing).

(** ** Strings in memory *)

Fixpoint poke (a : Z) (b : bytes) (m : gmap Z ascii) : gmap Z ascii :=
  match b with [] => m | c :: b => poke (a + 1) b (<[a := c]> m) end.

(** The string at [a]; none if it runs out of the memory that is mapped. *)
Fixpoint peek (fuel : nat) (a : Z) (m : gmap Z ascii) : option bytes :=
  match fuel with
  | O => None
  | S fuel =>
      match m !! a with
      | None => None
      | Some c => if bool_decide (c = NUL) then Some [] else cons c <$> peek fuel (a + 1) m
      end
  end.

Definition string_in (a : Z) (m : gmap Z ascii) : option bytes := peek (size m) a m.

Definition string_at (a : Z) : C bytes :=
  let* m := gets mem in match string_in a m with Some b => ret b | None => fail undefined_behaviour end.
Definition write (a : Z) (b : bytes) : C unit := modify (fun s => set_mem (poke a b (mem s)) s).

(** malloc does not fail here. *)
Definition cmdline_malloc (size : Z) : C Z :=
  let* p := gets g_memory_pointer in
  if MAX_STATIC_BUFFER - p <? size then
    let* b := gets brk in let* l := gets live in modify (set_heap (b + size) ({[b]} ∪ l)) ;;; ret b
  else modify (set_pointer (p + size)) ;;; ret p.

Definition cmdline_free (ptr : option Z) : C unit :=
  match ptr with
  | None => ret tt
  | Some a =>
      if (a <? 0) || (MAX_STATIC_BUFFER <=? a) then
        let* b := gets brk in let* l := gets live in
        if bool_decide (a ∈ l) then modify (set_heap b (l ∖ {[a]})) else fail undefined_behaviour
      else
        let* str := string_at a in
        let* p := gets g_memory_pointer in
        if a + (zlen str + 1) =? p then modify (set_pointer (p - (zlen str + 1))) else ret tt
  end.

(** cmdline_strdup of a string that is not in this memory, and of one that is. *)
Definition strdup (str : bytes) : C Z :=
  let* a := cmdline_malloc (zlen str + 1) in write a (str ++ [NUL]) ;;; ret a.
Definition cmdline_strdup (str : option Z) : C (option Z) :=
  match str with
  | None => ret None
  | Some a => let* b := string_at a in let* r := strdup b in ret (Some r)
  end.

(** ** Where the executable is *)

(** dirname(3) and basename(3): what they return. *)
Fixpoint trim_slashes (reversed : bytes) : bytes :=
  match reversed with c :: r => if bool_decide (c = "/"%char) then trim_slashes r else reversed | [] => [] end.
Fixpoint to_slash (reversed : bytes) : bytes * bytes :=
  match reversed with
  | [] => ([], [])
  | c :: r => if bool_decide (c = "/"%char) then ([], reversed) else let '(n, rest) := to_slash r in (c :: n, rest)
  end.
Definition dirname (path : bytes) : bytes :=
  match trim_slashes (rev path) with
  | [] => match path with [] => B "." | _ => B "/" end
  | r => match (to_slash r).2 with
         | [] => B "."
         | d => match trim_slashes d with [] => B "/" | d => rev d end
         end
  end.
Definition basename (path : bytes) : bytes :=
  match trim_slashes (rev path) with
  | [] => match path with [] => B "." | _ => B "/" end
  | r => rev (to_slash r).1
  end.

(** What the system answers: the link /proc/<pid>/exe, the beginning of
    /proc/self/stat, whether the directory of argv[0] opens and the link of its
    descriptor, and the working directory. *)
Record answers : Type := mkAnswers {
  exe : option bytes;
  stat : option bytes;
  opens : bool;
  fd_link : option bytes;
  cwd : option bytes
}.

Definition get_strings : C (option Z * option Z) :=
  let* d := gets g_module_dirname in let* b := gets g_module_basename in ret (d, b).

Definition set_dirname (d : option Z) : C unit :=
  modify (fun s => set_module (g_module_path s) d (g_module_basename s) s).
Definition set_basename (b : option Z) : C unit :=
  modify (fun s => set_module (g_module_path s) (g_module_dirname s) b s).

Definition cmdline_get_module_path_via_argv (argv : bytes) (overwrite : bool) : C unit :=
  (if overwrite then
     let* (d, b) := get_strings in
     cmdline_free b ;;; cmdline_free d ;;; cmdline_free b ;;; set_basename None ;;; set_dirname None
   else ret tt) ;;;
  let* d := gets g_module_dirname in
  (match d with
   | None => if zlen argv <? PATH_MAX then let* a := strdup (dirname argv) in set_dirname (Some a) else ret tt
   | Some _ => ret tt
   end) ;;;
  let* b := gets g_module_basename in
  match b with
  | None => if zlen argv <? PATH_MAX then let* a := strdup (basename argv) in set_basename (Some a) else ret tt
  | Some _ => ret tt
  end.

(** readlink into [PATH_MAX] bytes, and the terminator behind what it gives. *)
Definition readlink (link : option bytes) : C (option bytes) :=
  match link with
  | None | Some [] => ret None
  | Some l => if zlen l <? PATH_MAX then ret (Some l) else fail undefined_behaviour
  end.

Definition cmdline_get_module_path_via_exe (w : answers) : C Z :=
  let* (d, b) := get_strings in
  match d, b with
  | Some _, Some _ => ret 0
  | _, _ =>
      let* link := readlink (exe w) in
      match link with
      | None => ret (-1)
      | Some path => cmdline_get_module_path_via_argv path true ;;; ret 0
      end
  end.

Fixpoint index_of (c : ascii) (l : bytes) : option nat :=
  match l with [] => None | d :: l => if bool_decide (d = c) then Some O else S <$> index_of c l end.

(** The loop down from [i] to [start]: a ")" in the buffer. *)
Fixpoint close_paren (buffer : bytes) (start i : nat) : result exn (option nat) :=
  match i with
  | O => Ok None
  | S i' =>
      if (i <=? start)%nat then Ok None
      else
        match buffer !! i with
        | None => Err undefined_behaviour
        | Some c => if bool_decide (c = ")"%char) then Ok (Some i) else close_paren buffer start i'
        end
  end.

Definition cmdline_get_module_path_via_stat (argv : bytes) (w : answers) : C Z :=
  let* b := gets g_module_basename in
  match b, stat w with
  | Some _, _ => ret 0
  | None, None => ret (-1)
  | None, Some buffer =>
      match index_of "("%char buffer with
      | None => ret (-1)
      | Some k =>
          let start := (k + 1)%nat in
          let fin := (Nat.min (length buffer - start) 20 + start)%nat in
          match close_paren buffer start fin with
          | Err e => fail e
          | Ok None => ret (-1)
          | Ok (Some third) =>
              let second := take (third - start) (drop start buffer) in
              strdup argv ;;;
              let argv_name := basename argv in
              let* a := strdup (if bool_decide (take 15 argv_name = take 15 second) then argv_name else second) in
              set_basename (Some a) ;;; ret 0
          end
      end
  end.

(** [strdup], [dirname] in place, and [cmdline_free]: the string is shorter then,
    unless dirname returns "." from elsewhere. *)
Definition dirname_of_copy (argv : bytes) : C bytes :=
  let* ptr := strdup argv in
  let d := dirname argv in
  (if bool_decide (take (length d) argv = d) then write ptr (d ++ [NUL]) else ret tt) ;;;
  cmdline_free (Some ptr) ;;; ret d.

Definition cmdline_get_module_path_via_fd (argv : bytes) (w : answers) : C Z :=
  let* d := gets g_module_dirname in
  match d with
  | Some _ => ret 0
  | None =>
      dirname_of_copy argv ;;;
      if negb (opens w) then ret (-1)
      else
        let* link := readlink (fd_link w) in
        match link with
        | None => ret (-1)
        | Some path => let* a := strdup path in set_dirname (Some a) ;;; ret 0
        end
  end.

Definition cmdline_get_module_path_via_cwd (argv : bytes) (w : answers) : C Z :=
  let* d := gets g_module_dirname in
  match d, cwd w with
  | Some _, _ => ret 0
  | None, None => ret (-1)
  | None, Some cwd =>
      if bool_decide (head argv = Some "/"%char) then ret (-1)
      else
        let* d := dirname_of_copy argv in
        let joined := cwd ++ "/"%char :: d in
        if PATH_MAX <=? zlen joined then ret (-1)
        else
          match make_clean_path (Some joined) false true true with
          | Err e => fail e
          | Ok (inl _) => ret (-1)
          | Ok (inr pwd) => let* a := strdup pwd in set_dirname (Some a) ;;; ret 0
          end
  end.

Definition cmdline_get_module_path (argv : bytes) (w : answers) : C Z :=
  cmdline_get_module_path_via_stat argv w ;;;
  cmdline_get_module_path_via_fd argv w ;;;
  cmdline_get_module_path_via_cwd argv w ;;;
  cmdline_get_module_path_via_exe w ;;;
  cmdline_get_module_path_via_argv argv false ;;;
  let* (d, b) := get_strings in
  match d, b with
  | Some d, Some b =>
      let* dir := string_at d in let* base := string_at b in
      let path := dir ++ "/"%char :: base in
      if PATH_MAX <=? zlen path then ret (-1)
      else
        let* a := strdup path in
        modify (fun s => set_module (Some a) (g_module_dirname s) (g_module_basename s) s) ;;; ret 0
  | _, _ => ret (-1)
  end.

(** ** Setting up *)

Definition cmdline_reserve_prefix : C unit :=
  let* b := gets g_module_basename in
  match b with
  | None => fail assertion_failed
  | Some b =>
      let* name := string_at b in
      modify (fun s => set_title (g_arg_name s) (g_max_length s) (take (Z.to_nat (MAX_PREFIX_LENGTH - 2)) name ++ B ": ") s)
  end.

(** How many strings lie one behind the other, from the string at [prev]. *)
Fixpoint contiguous (prev : Z) (ptrs : list Z) : C nat :=
  match ptrs with
  | [] => ret O
  | p :: ptrs =>
      let* str := string_at prev in
      if p =? prev + zlen str + 1 then let* n := contiguous p ptrs in ret (S n) else ret O
  end.

Fixpoint strdup_each (ptrs : list Z) : C (list (option Z)) :=
  match ptrs with
  | [] => ret []
  | p :: ptrs => let* d := cmdline_strdup (Some p) in let* ds := strdup_each ptrs in ret (d :: ds)
  end.

(** The length of the area from [first] to the end of the string at [last]. *)
Definition span (first last : Z) : C Z := let* str := string_at last in ret (last - first + zlen str).

(** [argv]: its [argc] pointers.  The copy of it, or none. *)
Definition cmdline_setup (argv : list Z) (w : answers) : C (option (list (option Z))) :=
  let* arg := gets g_arg_name in
  match argv, arg with
  | [], _ | _, Some _ => ret None
  | first :: others, None =>
      let* name := string_at first in
      modify (fun s => set_title (Some first) (zlen name) (g_prefix s) s) ;;;
      let* a := strdup name in
      modify (set_module_arg (Some a)) ;;;
      let* r := cmdline_get_module_path name w in
      if negb (r =? 0) then ret None
      else
        cmdline_reserve_prefix ;;;
        let* more := contiguous first others in
        let argv_size := S more in
        let final := List.last argv first in
        let* env := gets environ in
        let* environ_size := if (argv_size =? length argv)%nat then contiguous final env else ret O in
        cmdline_malloc (8 * (Z.of_nat argv_size + 1)) ;;;
        let* argv_duplication := strdup_each (take argv_size argv) in
        if negb (argv_size =? length argv)%nat then fail undefined_behaviour
        else if (environ_size =? 0)%nat then
          let* max := span first final in
          modify (fun s => set_title (g_arg_name s) max (g_prefix s) s) ;;; ret (Some argv_duplication)
        else
          cmdline_malloc (8 * (Z.of_nat environ_size + 1)) ;;;
          let* max := span first (List.last (take environ_size env) first) in
          modify (fun s => set_title (g_arg_name s) max (g_prefix s) s) ;;;
          let* copies := strdup_each (take environ_size env) in
          modify (set_environ (omap id copies)) ;;; ret (Some argv_duplication)
  end.

(** ** The name of the process *)

(** A format that begins with "-" goes without the prefix. *)
Definition dashed (fmt : bytes) : option bytes :=
  match fmt with c :: f => if bool_decide (c = "-"%char) then Some f else None | [] => None end.

(** [vsnprintf]: what the format gives. *)
Definition cmdline_set_process_name (vsnprintf : bytes -> bytes) (fmt : option bytes) : C Z :=
  let* max_length := gets g_max_length in
  let* arg := gets g_arg_name in
  let* prefix := gets g_prefix in
  match arg with
  | None => ret (-1)
  | Some arg =>
      if max_length =? 0 then ret (-1)
      else
        let* (fmt, with_prefix) :=
          match fmt with
          | None => let* a := gets g_module_arg in
                    match a with None => fail undefined_behaviour | Some a => let* f := string_at a in ret (f, false) end
          | Some f => ret (match dashed f with Some f => (f, false) | None => (f, negb (zlen prefix =? 0)) end)
          end in
        let off := if with_prefix then Z.min (zlen prefix) max_length else 0 in
        write arg (take (Z.to_nat off) prefix) ;;;
        let max := max_length - off in
        let* saved := gets g_saved_program_name in
        cmdline_free saved ;;;
        let* copy := cmdline_strdup (Some arg) in
        modify (set_saved copy) ;;;
        let text := vsnprintf fmt in
        write (arg + off) (take (Z.to_nat max) text ++ [NUL]) ;;;
        let off := off + Z.min (zlen text) max in
        write (arg + off) (replicate (Z.to_nat (max_length - off)) NUL) ;;;
        ret 0
  end.

Definition cmdline_unset_process_name : C unit :=
  let* saved := gets g_saved_program_name in
  match saved with
  | None => ret tt
  | Some a =>
      let* arg := gets g_arg_name in
      let* max_length := gets g_max_length in
      let* str := string_at a in
      match arg with
      | None => fail undefined_behaviour
      | Some arg =>
          write arg str ;;;
          write (arg + zlen str) (replicate (Z.to_nat (max_length - zlen str)) NUL) ;;;
          cmdline_free (Some a) ;;;
          modify (set_saved None)
      end
  end.

(** ** Absolute paths *)

(** [dirname]: what [g_module_dirname] holds; malloc does not fail. *)
Definition absolute_path (dirname : option bytes) (path : option bytes) (force_relative : bool) : result exn (Z + bytes) :=
  match path, dirname with
  | None, _ => Ok (inl EINVAL)
  | Some _, None | Some _, Some [] => Ok (inl 1)
  | Some path, Some dir =>
      let! r := make_clean_path (Some path) false true true in
      match r with
      | inl e => Ok (inl e)
      | inr r =>
          let q := if bool_decide (head r = Some "/"%char) && negb force_relative then r else dir ++ "/"%char :: r in
          make_clean_path (Some q) false true true
      end
  end.

Definition cmdline_get_absolute_path (path : option bytes) (force_relative : bool) : C (Z + bytes) :=
  let* d := gets g_module_dirname in
  let* dir := match d with None => ret None | Some a => let* b := string_at a in ret (Some b) end in
  match absolute_path dir path force_relative with Ok r => ret r | Err e => fail e end.

(** A string of the module, for its callers. *)
Definition string_of (a : option Z) : C (option bytes) :=
  match a with None => ret None | Some a => let* b := string_at a in ret (Some b) end.
Definition cmdline_arg_name : C (option bytes) := let* a := gets g_module_arg in string_of a.
Definition cmdline_module_dirname : C (option bytes) := let* a := gets g_module_dirname in string_of a.
Definition cmdline_module_basename : C (option bytes) := let* a := gets g_module_basename in string_of a.
Definition cmdline_module_path : C (option bytes) := let* a := gets g_module_path in string_of a.

(** ** Memory *)

Lemma poke_lookup a b m x :
  poke a b m !! x = if decide (a <= x < a + zlen b) then b !! Z.to_nat (x - a) else m !! x.
Proof.
  revert a m. induction b as [|c b IH]; intros a m; cbn [poke].
  - rewrite decide_False; [done|]. unfold zlen. cbn. lia.
  - rewrite IH, zlen_cons. destruct (decide (x = a)) as [->|Hne].
    + rewrite decide_False by lia. rewrite decide_True by (pose proof (zlen_nonneg b); lia). rewrite Z.sub_diag.
      by rewrite lookup_insert_eq.
    + rewrite lookup_insert_ne by done. destruct (decide (a <= x < a + (1 + zlen b))).
      * rewrite decide_True by lia. replace (Z.to_nat (x - a)) with (S (Z.to_nat (x - (a + 1)))) by lia. done.
      * by rewrite decide_False by lia.
Qed.

(** The string [b] lies at [a]. *)
Definition lies (m : gmap Z ascii) (a : Z) (b : bytes) : Prop :=
  NUL ∉ b /\ (forall i c, b !! i = Some c -> m !! (a + Z.of_nat i) = Some c) /\ m !! (a + zlen b) = Some NUL.

Lemma peek_lies fuel m a b : lies m a b -> (length b < fuel)%nat -> peek fuel a m = Some b.
Proof.
  revert a b. induction fuel as [|fuel IH]; intros a b (Hn & Hb & He) Hf; [lia|]. destruct b as [|c b]; cbn [peek].
  - unfold zlen in He. cbn in He. rewrite Z.add_0_r in He. by rewrite He.
  - pose proof (Hb O c eq_refl) as E. rewrite Z.add_0_r in E. rewrite E. rewrite bool_decide_eq_false_2 by (intros ->; set_solver).
    rewrite (IH (a + 1) b); [done| |cbn in Hf; lia]. split; [set_solver|]. split.
    + intros i d Hi. rewrite <- (Hb (S i) d Hi). f_equal. lia.
    + rewrite <- He. f_equal. rewrite zlen_cons. lia.
Qed.

Lemma lies_size m a b : lies m a b -> (length b < size m)%nat.
Proof.
  intros (Hn & Hb & He). assert (list_to_set (seqZ a (zlen b + 1)) ⊆ dom m) as Hs.
  { intros x. rewrite elem_of_list_to_set, elem_of_seqZ, elem_of_dom. intros Hx. destruct (decide (x = a + zlen b)) as [->|]; [by eexists|].
    destruct (lookup_lt_is_Some_2 b (Z.to_nat (x - a))) as [c Hc]; [unfold zlen in *; lia|]. exists c. rewrite <- (Hb _ _ Hc). f_equal. lia. }
  apply subseteq_size in Hs. rewrite size_list_to_set in Hs by apply NoDup_seqZ. rewrite length_seqZ, size_dom in Hs. unfold zlen in Hs. lia.
Qed.

Lemma lies_string m a b : lies m a b -> string_in a m = Some b.
Proof. intros H. apply peek_lies; [done|by eapply lies_size]. Qed.

Lemma lies_poke m a b : NUL ∉ b -> lies (poke a (b ++ [NUL]) m) a b.
Proof.
  intros Hn. assert (zlen (b ++ [NUL]) = zlen b + 1) as Hl by (by rewrite zlen_app).
  pose proof (zlen_nonneg b). split; [done|]. split.
  - intros i c Hi. pose proof (lookup_lt_Some _ _ _ Hi). unfold zlen in *. rewrite poke_lookup, decide_True by (unfold zlen; lia).
    replace (Z.to_nat (a + Z.of_nat i - a)) with i by lia. by rewrite lookup_app_l by lia.
  - rewrite poke_lookup, decide_True by lia. replace (Z.to_nat (a + zlen b - a)) with (length b) by (unfold zlen; lia).
    by rewrite lookup_app_r, Nat.sub_diag by lia.
Qed.

(** What lies elsewhere stays. *)
Lemma lies_ext m m' a b : (forall x, a <= x <= a + zlen b -> m' !! x = m !! x) -> lies m a b -> lies m' a b.
Proof.
  intros H (Hn & Hb & He). pose proof (zlen_nonneg b). split; [done|]. split; [|rewrite H; [done|lia]].
  intros i c Hi. pose proof (lookup_lt_Some _ _ _ Hi). rewrite H; [by apply Hb|unfold zlen in *; lia].
Qed.

(** ** The static buffer *)

Definition arena (s : cmd) : Prop := 0 <= g_memory_pointer s <= MAX_STATIC_BUFFER /\ MAX_STATIC_BUFFER <= brk s.

(** Only the module's own memory has changed. *)
Definition kept (s s' : cmd) : Prop :=
  (forall x, x < 0 -> mem s' !! x = mem s !! x) /\ environ s' = environ s /\ g_max_length s' = g_max_length s /\ g_prefix s' = g_prefix s /\
  g_arg_name s' = g_arg_name s /\ g_module_arg s' = g_module_arg s /\ g_module_path s' = g_module_path s /\
  g_module_dirname s' = g_module_dirname s /\ g_module_basename s' = g_module_basename s /\
  g_saved_program_name s' = g_saved_program_name s.

Lemma run_string_at a b s (Q : bytes -> cmd -> Prop) : lies (mem s) a b -> Q b s -> run (string_at a) s Q.
Proof. intros H HQ. unfold string_at. wp. by rewrite (lies_string _ _ _ H). Qed.

(** The pointer is one that the module can free. *)
Definition freeable (p : option Z) (s : cmd) : Prop :=
  match p with
  | None => True
  | Some a => if (a <? 0) || (MAX_STATIC_BUFFER <=? a) then a ∈ live s
              else exists b, lies (mem s) a b /\ a + zlen b + 1 <= g_memory_pointer s
  end.

(** The block of [size] bytes is on the heap, or within the static buffer. *)
Definition block (a size : Z) (s : cmd) : Prop :=
  0 <= a /\ if MAX_STATIC_BUFFER <=? a then a ∈ live s else a + size <= g_memory_pointer s.

Lemma run_malloc size s (Q : Z -> cmd -> Prop) : arena s -> 0 < size ->
  (forall a s', block a size s' -> arena s' -> kept s s' -> mem s' = mem s -> Q a s') -> run (cmdline_malloc size) s Q.
Proof.
  intros [H1 H2] Hs HQ. unfold cmdline_malloc, MAX_STATIC_BUFFER in *. wp. apply run_if; intros Hb; wp; apply HQ; cbn; try done.
  all: unfold block, arena, MAX_STATIC_BUFFER in *; cbn; destruct (Z.leb_spec 65536 (brk s)); try lia.
  - set_solver by lia.
  - destruct (Z.leb_spec 65536 (g_memory_pointer s)); lia.
Qed.

Lemma block_freeable a b s : block a (zlen b + 1) s -> lies (mem s) a b -> freeable (Some a) s.
Proof.
  intros [H1 H2] Hl. cbn. replace (a <? 0) with false by lia. cbn. destruct (MAX_STATIC_BUFFER <=? a); [done|]. exists b. split; [done|lia].
Qed.

Lemma run_strdup b s (Q : Z -> cmd -> Prop) : arena s ->
  (forall a s', block a (zlen b + 1) s' -> arena s' -> kept s s' -> (NUL ∉ b -> lies (mem s') a b) -> Q a s') -> run (strdup b) s Q.
Proof.
  intros Ha HQ. unfold strdup. pose proof (zlen_nonneg b). wp. apply run_malloc; [done|lia|]. intros a s' Hp Ha' Hk Hm. unfold write. wp.
  apply HQ; [done|done| |by apply lies_poke].
  destruct Hk as (K & K'). split; [|done]. cbn. intros x Hx. destruct Hp. rewrite poke_lookup, decide_False by lia. by apply K.
Qed.

Lemma run_cmdline_strdup a b s (Q : option Z -> cmd -> Prop) : arena s -> lies (mem s) a b ->
  (forall p s', block p (zlen b + 1) s' -> arena s' -> kept s s' -> lies (mem s') p b -> Q (Some p) s') -> run (cmdline_strdup (Some a)) s Q.
Proof.
  intros Ha Hl HQ. unfold cmdline_strdup. wp. apply (run_string_at _ b); [done|]. wp. apply run_strdup; [done|].
  intros p s' Hp Ha' Hk H. wp. apply HQ; try done. apply H. by destruct Hl.
Qed.

Lemma run_free p s (Q : unit -> cmd -> Prop) : arena s -> freeable p s ->
  (forall s', arena s' -> kept s s' -> mem s' = mem s -> Q tt s') -> run (cmdline_free p) s Q.
Proof.
  intros Ha Hf HQ. unfold cmdline_free. destruct p as [a|]; [|wp; by apply HQ]. cbn in Hf. destruct ((a <? 0) || _) eqn:E.
  - wp. rewrite bool_decide_eq_true_2 by done. wp. by apply HQ.
  - destruct Hf as (b & Hl & Hb). wp. apply (run_string_at _ b); [done|]. wp. pose proof (zlen_nonneg b).
    apply run_if; intros; wp; apply HQ; try done. destruct Ha. split; cbn; lia.
Qed.

(** ** The name *)

(** The memory of the name: [g_max_length] characters and a terminator. *)
Definition area (a : Z) (s : cmd) : Prop :=
  g_arg_name s = Some a /\ 0 < g_max_length s /\ a + g_max_length s < 0 /\
  (forall x, a <= x < a + g_max_length s -> is_Some (mem s !! x)) /\ mem s !! (a + g_max_length s) = Some NUL.

(** A string lies at the beginning of such memory, and fits. *)
Lemma area_string (k : nat) a m : (forall x, a <= x < a + Z.of_nat k -> is_Some (m !! x)) -> m !! (a + Z.of_nat k) = Some NUL ->
  exists b, lies m a b /\ zlen b <= Z.of_nat k.
Proof.
  revert a. induction k as [|k IH]; intros a Hx He.
  - exists []. rewrite Z.add_0_r in He. split; [|done]. split; [set_solver|]. split; [done|]. unfold zlen. cbn. by rewrite Z.add_0_r.
  - destruct (Hx a) as [c Hc]; [lia|]. destruct (decide (c = NUL)) as [->|Hne].
    + exists []. split; [|unfold zlen; cbn; lia]. split; [set_solver|]. split; [done|]. unfold zlen. cbn. by rewrite Z.add_0_r.
    + destruct (IH (a + 1)) as (b & (Hn & Hb & Hz) & Hl); [intros x ?; apply Hx; lia|rewrite <- He; f_equal; lia|].
      exists (c :: b). rewrite zlen_cons. split; [|lia]. split; [set_solver|]. split; [|rewrite <- Hz, zlen_cons; f_equal; lia].
      intros [|i] d Hi; cbn in Hi; [injection Hi as <-; by rewrite Z.add_0_r|]. rewrite <- (Hb i d Hi). f_equal. lia.
Qed.

(** The characters before the NULs of the memory are a string. *)
Lemma lies_padded m a b n : NUL ∉ b -> (forall i c, b !! i = Some c -> m !! (a + Z.of_nat i) = Some c) ->
  (forall x, a + zlen b <= x <= a + n -> m !! x = Some NUL) -> zlen b <= n -> lies m a b.
Proof. intros Hn Hb Hz Hl. split; [done|]. split; [done|]. apply Hz. lia. Qed.

(** The format and whether the prefix goes before it. *)
Definition title_of (v : bytes -> bytes) (prefix fmt : bytes) (n : Z) : bytes :=
  take (Z.to_nat n) (match dashed fmt with Some f => v f | None => prefix ++ v fmt end).

(** The end of the writes of a name: [pre], then [text], then NULs. *)
Lemma written_title m a n pre text :
  zlen pre <= n -> NUL ∉ pre -> NUL ∉ text -> m !! (a + n) = Some NUL -> (forall i c, pre !! i = Some c -> m !! (a + Z.of_nat i) = Some c) ->
  let off := zlen pre in
  let off' := off + Z.min (zlen text) (n - off) in
  let m' := poke (a + off') (replicate (Z.to_nat (n - off')) NUL) (poke (a + off) (take (Z.to_nat (n - off)) text ++ [NUL]) m) in
  lies m' a (take (Z.to_nat n) (pre ++ text)) /\ (forall x, x < a \/ a + n < x -> m' !! x = m !! x) /\
  (forall x, a + off' <= x <= a + n -> m' !! x = Some NUL).
Proof.
  intros Hp Hn1 Hn2 He Hpre off off' m'. pose proof (zlen_nonneg pre). pose proof (zlen_nonneg text).
  assert (off = zlen pre) as Eo by done. assert (off' = off + Z.min (zlen text) (n - off)) as Eo' by done. clearbody off off'.
  assert (zlen (take (Z.to_nat (n - off)) text) = Z.min (zlen text) (n - off)) as Ht by (unfold zlen in *; rewrite length_take; lia).
  assert (forall x, m' !! x = if decide (a + off' <= x < a + n) then Some NUL
    else if decide (a + off <= x < a + off + Z.min (zlen text) (n - off) + 1) then (take (Z.to_nat (n - off)) text ++ [NUL]) !! Z.to_nat (x - (a + off))
    else m !! x) as Hm.
  { intros x. unfold m'. rewrite !poke_lookup. rewrite zlen_app, Ht.
    assert (zlen (replicate (Z.to_nat (n - off')) NUL) = n - off') as -> by (unfold zlen; rewrite length_replicate; lia).
    replace (zlen [NUL]) with 1 by done.
    destruct (decide (a + off' <= x < a + off' + (n - off'))).
    - rewrite decide_True by lia. apply lookup_replicate_2. lia.
    - rewrite (decide_False (P := a + off' <= x < a + n)) by lia. repeat destruct (decide _); try done; lia. }
  assert (forall x, a + off' <= x <= a + n -> m' !! x = Some NUL) as Hz.
  { intros x Hx. rewrite Hm. destruct (decide (a + off' <= x < a + n)); [done|]. destruct (decide _) as [Hd|Hd]; [|rewrite <- He; f_equal; lia].
    rewrite lookup_app_r by (unfold zlen in *; lia). replace (Z.to_nat (x - (a + off)) - _)%nat with O by (unfold zlen in *; lia). done. }
  assert (zlen (take (Z.to_nat n) (pre ++ text)) = off') as Hlen.
  { unfold zlen in *. rewrite length_take, length_app. lia. }
  split_and!; [|intros x Hx; rewrite Hm, !decide_False by lia; done|done].
  apply (lies_padded _ _ _ n); [|intros i c Hi|by rewrite Hlen|rewrite Hlen; lia].
  - intros (i & Hi & _)%elem_of_take. apply list_elem_of_lookup_2 in Hi. apply elem_of_app in Hi as [?|?]; done.
  - pose proof (lookup_lt_Some _ _ _ Hi) as Hlt. assert (Z.of_nat i < off') as Hlt' by (rewrite <- Hlen; unfold zlen; lia).
    apply lookup_take_Some in Hi as [Hi Hi']. rewrite Hm, decide_False by lia.
    destruct (decide (i < length pre)%nat) as [Hd|Hd].
    + rewrite decide_False by (unfold zlen in *; lia). rewrite lookup_app_l in Hi by done. by apply Hpre.
    + rewrite decide_True by (unfold zlen in *; lia). rewrite lookup_app_r in Hi by lia.
      replace (Z.to_nat (a + Z.of_nat i - (a + off))) with (i - length pre)%nat by (unfold zlen in *; lia).
      rewrite lookup_app_l by (unfold zlen in *; lia). by rewrite lookup_take_lt by (unfold zlen in *; lia).
Qed.

(** What a change of the name leaves as it was: all memory below the module's
    but the area, and the module's variables but the saved name. *)
Definition renamed (a : Z) (s s' : cmd) : Prop :=
  (forall x, x < 0 -> x < a \/ a + g_max_length s < x -> mem s' !! x = mem s !! x) /\
  g_max_length s' = g_max_length s /\ g_prefix s' = g_prefix s /\ g_arg_name s' = g_arg_name s /\ environ s' = environ s /\
  g_module_arg s' = g_module_arg s /\ g_module_path s' = g_module_path s /\
  g_module_dirname s' = g_module_dirname s /\ g_module_basename s' = g_module_basename s.

Lemma take_pre {A} (n : nat) (p t : list A) : take n (take (Nat.min (length p) n) p ++ t) = take n (p ++ t).
Proof.
  destruct (Nat.min_spec (length p) n) as [[H ->]|[H ->]]; [by rewrite firstn_all|].
  rewrite !take_app_le by (rewrite ?length_take; lia). by rewrite take_take, Nat.min_id.
Qed.

(** From the prefix on. *)
Lemma run_rename (a off : Z) (text pre : bytes) s :
  area a s -> arena s -> freeable (g_saved_program_name s) s -> NUL ∉ pre -> NUL ∉ text ->
  zlen pre = off -> off <= g_max_length s ->
  run (write a pre ;;;
       let* saved := gets g_saved_program_name in
       cmdline_free saved ;;;
       let* copy := cmdline_strdup (Some a) in
       modify (set_saved copy) ;;;
       write (a + off) (take (Z.to_nat (g_max_length s - off)) text ++ [NUL]) ;;;
       write (a + (off + Z.min (zlen text) (g_max_length s - off)))
         (replicate (Z.to_nat (g_max_length s - (off + Z.min (zlen text) (g_max_length s - off)))) NUL) ;;;
       ret 0) s
    (fun r s' => r = 0 /\ lies (mem s') a (take (Z.to_nat (g_max_length s)) (pre ++ text)) /\ renamed a s s' /\ arena s' /\
       exists p b, g_saved_program_name s' = Some p /\ block p (zlen b + 1) s' /\ lies (mem s') p b /\ lies (poke a pre (mem s)) a b /\ area a s').
Proof.
  intros (Ha & Hn & Hneg & Hcells & Hend) Har Hf Hn1 Hn2 Ho Hoff. pose proof (zlen_nonneg pre). pose proof (zlen_nonneg text).
  set (n := g_max_length s) in *. set (m1 := poke a pre (mem s)).
  assert (forall x, m1 !! x = if decide (a <= x < a + off) then pre !! Z.to_nat (x - a) else mem s !! x) as Hm1.
  { intros x. unfold m1. by rewrite poke_lookup, Ho. }
  assert (forall x, a <= x < a + n -> is_Some (m1 !! x)) as Hcells1.
  { intros x Hx. rewrite Hm1. case_decide; [apply lookup_lt_is_Some; unfold zlen in *; lia|by apply Hcells]. }
  assert (m1 !! (a + n) = Some NUL) as Hend1 by (rewrite Hm1, decide_False by lia; done).
  destruct (area_string (Z.to_nat n) a m1) as (b & Hb & _); [by rewrite Z2Nat.id by lia|by rewrite Z2Nat.id by lia|].
  unfold write. wp. apply run_free; [done| |].
  { unfold freeable in *. cbn. destruct (g_saved_program_name s) as [q|]; [|done]. destruct ((q <? 0) || _) eqn:Eq; [done|].
    destruct Hf as (c & Hc & Hcp). exists c. split; [|done]. eapply lies_ext; [|exact Hc]. intros x Hx. cbn.
    rewrite poke_lookup, decide_False by lia. done. }
  intros s1 Har1 Hk1 Em1. cbn in Em1. fold m1 in Em1. wp. apply (run_cmdline_strdup _ b); [done|by rewrite Em1|].
  intros p s2 Hp Har2 (K2 & K2') Hl2. wp. cbn [set_mem set_saved mem g_max_length g_saved_program_name].
  assert (forall x, x < 0 -> mem s2 !! x = m1 !! x) as Hm2 by (intros x Hx; by rewrite K2, Em1).
  destruct (written_title (mem s2) a n pre text) as (T1 & T2 & T3); [lia|done|done|by rewrite Hm2 by lia| |].
  { intros i c Hi. pose proof (lookup_lt_Some _ _ _ Hi). rewrite Hm2 by (unfold zlen in *; lia). rewrite Hm1, decide_True by (unfold zlen in *; lia).
    rewrite <- Hi. f_equal. lia. }
  cbv zeta in T1, T2, T3. rewrite Ho in T1, T2, T3. set (m' := poke _ _ (poke _ _ (mem s2))) in *.
  unfold kept in Hk1, K2'. cbn in Hk1, K2'. destruct Hk1 as (_ & Hk1). 
  assert (forall x, x < 0 -> x < a \/ a + n < x -> m' !! x = mem s !! x) as Hout.
  { intros x Hx Hxa. rewrite T2 by done. rewrite Hm2, Hm1, decide_False by lia. done. }
  split; [done|]. split; [exact T1|]. split; [|split; [done|]].
  - split; [exact Hout|]. cbn. intuition congruence.
  - exists p, b. split; [done|]. split; [done|]. split; [|split; [done|]].
    + eapply lies_ext; [|exact Hl2]. intros x Hx. destruct Hp. apply T2. lia.
    + split; [cbn; intuition congruence|]. assert (g_max_length (set_saved (Some p) s2) = n) as En by (cbn; unfold n; intuition congruence).
      cbn in En. cbn. rewrite En. split_and!; [done|done| |apply T3; lia].
      intros x Hx. destruct (decide (a + (off + Z.min (zlen text) (n - off)) <= x)); [eexists; apply T3; lia|].
      unfold m'. rewrite poke_lookup. case_decide; [apply lookup_lt_is_Some; rewrite length_replicate; lia|].
      rewrite poke_lookup. case_decide as Hd; [apply lookup_lt_is_Some; rewrite zlen_app in Hd; change (zlen [NUL]) with 1 in Hd; unfold zlen in *; rewrite length_app; cbn [length]; lia|].
      rewrite Hm2 by lia. by apply Hcells1.
Qed.

(** The name of the process: the area shows the formatted text, behind the
    prefix unless it begins with "-", as far as it fits, and ends in NULs; all
    memory outside of it but the module's own is untouched. *)
Theorem cmdline_sets_name v fmt a s :
  area a s -> arena s -> freeable (g_saved_program_name s) s -> NUL ∉ g_prefix s -> (forall f, NUL ∉ v f) ->
  run (cmdline_set_process_name v (Some fmt)) s
    (fun r s' => r = 0 /\ lies (mem s') a (title_of v (g_prefix s) fmt (g_max_length s)) /\ renamed a s s' /\ arena s').
Proof.
  intros Ha Har Hf Hn1 Hn2. pose proof Ha as (Ea & Hml & _). unfold cmdline_set_process_name. do 3 apply run_bind, run_gets. rewrite Ea.
  apply run_if; [lia|]. intros _. apply run_bind.
  unfold title_of. destruct (dashed fmt) as [f|]; apply run_ret; cbv beta iota zeta.
  - eapply run_mono; [apply (run_rename a 0 (v f) []); try done; [set_solver|lia]|]. cbn. intuition.
  - destruct (negb (zlen (g_prefix s) =? 0)) eqn:E.
    + pose proof (zlen_nonneg (g_prefix s)). set (n := g_max_length s) in *.
      assert (zlen (take (Z.to_nat (Z.min (zlen (g_prefix s)) n)) (g_prefix s)) = Z.min (zlen (g_prefix s)) n) as Hl
        by (unfold zlen in *; rewrite length_take; lia).
      eapply run_mono; [apply (run_rename a (Z.min (zlen (g_prefix s)) n) (v fmt) (take (Z.to_nat (Z.min (zlen (g_prefix s)) n)) (g_prefix s))); try done; [|fold n; lia]|].
      * intros Hin. apply elem_of_take in Hin as (i & Hi & _). by apply list_elem_of_lookup_2 in Hi.
      * cbv beta. intros r s' (H1 & H2 & H3 & H4 & _). split_and!; try done. fold n in H2.
        replace (Z.to_nat (Z.min (zlen (g_prefix s)) n)) with (Nat.min (length (g_prefix s)) (Z.to_nat n)) in H2 by (unfold zlen; lia).
        by rewrite take_pre in H2.
    + assert (g_prefix s = []) as Ep by (apply zlen_zero; lia). rewrite Ep.
      eapply run_mono; [apply (run_rename a 0 (v fmt) []); try done; [set_solver|lia]|]. cbn. intuition.
Qed.

Lemma lies_unique m a b c : lies m a b -> lies m a c -> b = c.
Proof. intros H1%lies_string H2%lies_string. congruence. Qed.

Lemma lies_restored m a n old : NUL ∉ old -> zlen old <= n -> m !! (a + n) = Some NUL ->
  let m' := poke (a + zlen old) (replicate (Z.to_nat (n - zlen old)) NUL) (poke a old m) in
  lies m' a old /\ forall x, x < a \/ a + n < x -> m' !! x = m !! x.
Proof.
  intros Hn Hl He m'. pose proof (zlen_nonneg old).
  assert (forall x, m' !! x = if decide (a + zlen old <= x < a + n) then Some NUL else if decide (a <= x < a + zlen old) then old !! Z.to_nat (x - a) else m !! x) as Hm.
  { intros x. unfold m'. rewrite !poke_lookup.
    assert (zlen (replicate (Z.to_nat (n - zlen old)) NUL) = n - zlen old) as -> by (unfold zlen in *; rewrite length_replicate; lia).
    destruct (decide (a + zlen old <= x < a + n)); [|by rewrite decide_False by lia].
    rewrite decide_True by lia. apply lookup_replicate_2. lia. }
  split; [|intros x Hx; by rewrite Hm, !decide_False by lia]. split; [done|]. split.
  - intros i c Hi. pose proof (lookup_lt_Some _ _ _ Hi). rewrite Hm, decide_False, decide_True by (unfold zlen in *; lia). rewrite <- Hi. f_equal. lia.
  - rewrite Hm. case_decide; [done|]. rewrite decide_False by lia. rewrite <- He. f_equal. lia.
Qed.

(** A name that is set without the prefix is taken back by
    cmdline_unset_process_name. *)
Theorem cmdline_unsets_name v f old a s :
  area a s -> arena s -> freeable (g_saved_program_name s) s -> (forall f, NUL ∉ v f) -> lies (mem s) a old ->
  run (cmdline_set_process_name v (Some ("-"%char :: f)) ;;; cmdline_unset_process_name) s
    (fun _ s' => lies (mem s') a old /\ g_saved_program_name s' = None /\
       forall x, x < 0 -> x < a \/ a + g_max_length s < x -> mem s' !! x = mem s !! x).
Proof.
  intros Ha Har Hf Hn Hold. pose proof Ha as (Ea & Hml & Hneg & Hcells & Hend). apply run_bind.
  unfold cmdline_set_process_name. do 3 apply run_bind, run_gets. rewrite Ea.
  apply run_if; [lia|]. intros _. apply run_bind, run_ret. cbv beta iota zeta.
  eapply run_mono; [apply (run_rename a 0 (v f) []); try done; [set_solver|lia]|].
  intros r s1 (_ & _ & (R1 & R2 & R3 & R4 & _) & Har1 & p & b & Ep & Hp & Hl & Hb & Ha1).
  rewrite (lies_unique _ _ _ _ Hb Hold) in *. clear b Hb. pose proof (zlen_nonneg old).
  destruct (area_string (Z.to_nat (g_max_length s)) a (mem s)) as (b & Hb & Hbl); [by rewrite Z2Nat.id by lia|by rewrite Z2Nat.id by lia|].
  rewrite (lies_unique _ _ _ _ Hb Hold) in *. clear b Hb.
  unfold cmdline_unset_process_name. wp. rewrite Ep. wp. apply (run_string_at _ old); [done|]. rewrite R4, Ea. unfold write. wp.
  pose proof (block_freeable _ _ _ Hp Hl) as Hf1.
  destruct Ha1 as (_ & _ & _ & _ & Hend1). rewrite R2 in *.
  destruct (lies_restored (mem s1) a (g_max_length s) old) as [T1 T2]; [by destruct Hold|lia|done|].
  apply run_free; [done| |].
  - cbn. cbn in Hf1. destruct (_ || _); [done|]. destruct Hf1 as (c & Hc & Hc'). exists c. split; [|done].
    eapply lies_ext; [|exact Hc]. intros x Hx. destruct Hp. rewrite T2 by lia. done.
  - intros s2 _ _ Em. wp. cbn in *. rewrite Em. split_and!; [done|done|]. intros x Hx Hxa. rewrite T2 by done. by apply R1.
Qed.

(** ** Paths from the directory of the executable *)

Definition visible (p : bytes) : Prop := Forall (fun n => hidden n = false) (names p).

Lemma names_plain p : visible p -> Forall plain (names p).
Proof. intros H. apply Forall_and. split; [apply names_ok|done]. Qed.

Lemma names_joined d p : names (d ++ "/"%char :: p) = names d ++ names p.
Proof.
  unfold names. generalize (@nil ascii) at 1 2 as acc. induction d as [|c d IH]; intros acc; cbn [app names_from].
  - rewrite is_slash_slash. by destruct acc.
  - destruct (is_slash c); [destruct acc; cbn; by rewrite IH|by apply IH].
Qed.

Lemma absolute_joined d p : d <> [] -> absolute (d ++ "/"%char :: p) = absolute d.
Proof. by destruct d. Qed.

Lemma enter_dot abs st : enter abs st ["."%char] = st.
Proof. done. Qed.

Lemma enter_proper abs st n : proper n -> enter abs st n = n :: st.
Proof. intros [H1 H2]. unfold enter. by rewrite !bool_decide_eq_false_2. Qed.

(** A stack of names read again, on top of another one. *)
Lemma resolve_onto abs st l : foldl (enter abs) st (rev (resolve false l)) = foldl (enter abs) st l.
Proof.
  induction l as [|n l IH] using rev_ind; [done|]. unfold resolve in *. rewrite !foldl_app, <- IH. cbn [foldl].
  pose proof (resolve_resolved false l) as Hr. unfold resolve in Hr. set (s := foldl (enter false) [] l) in *.
  destruct (decide (n = ["."%char])) as [->|H1]; [by rewrite !enter_dot|].
  destruct (decide (n = ["."; "."]%char)) as [->|H2].
  - destruct Hr as ([|top a] & k & -> & Ha & _).
    + assert (enter false ([] ++ replicate k ["."; "."]%char) ["."; "."]%char = ["."; "."]%char :: replicate k ["."; "."]%char) as -> by (by destruct k).
      cbn [rev app]. by rewrite foldl_app.
    + apply Forall_cons in Ha as [Ht Ha]. pose proof Ht as [_ Ht2]. cbn [app]. unfold enter at 2. rewrite bool_decide_eq_false_2, bool_decide_eq_true_2 by done.
      rewrite bool_decide_eq_false_2 by done. cbn [rev]. rewrite foldl_app. cbn [foldl]. rewrite (enter_proper _ _ top) by done.
      unfold enter at 2. rewrite bool_decide_eq_false_2, bool_decide_eq_true_2, bool_decide_eq_false_2 by done. done.
  - rewrite (enter_proper false) by (by split). cbn [rev]. by rewrite foldl_app.
Qed.

Lemma clean_unfold p : clean p = print (absolute p) (resolve (absolute p) (names p)).
Proof. done. Qed.

(** What a clean path holds. *)
Lemma clean_names p : visible p -> absolute (clean p) = absolute p /\
  forall abs st, foldl (enter abs) st (names (clean p)) = foldl (enter abs) st (rev (resolve (absolute p) (names p))).
Proof.
  intros Hv. pose proof (resolve_plain (absolute p) _ (names_plain p Hv)) as Hp. unfold clean.
  set (st := resolve (absolute p) (names p)) in *.
  assert (Forall is_name st) as Hn by (eapply Forall_impl; [exact Hp|]; by intros n [? _]).
  destruct (decide (st = [] /\ absolute p = false)) as [[E1 E2]|Hne]; [by rewrite E1, E2|].
  destruct (print_names (absolute p) st Hn) as [E1 E2]; [destruct st, (absolute p); auto; by destruct Hne|]. rewrite E2. split; [done|].
  intros. by rewrite E1.
Qed.

Lemma clean_visible p : visible p -> visible (clean p).
Proof.
  intros Hv. pose proof (resolve_plain (absolute p) _ (names_plain p Hv)) as Hp. unfold visible, clean.
  set (st := resolve (absolute p) (names p)) in *.
  assert (Forall is_name st) as Hn by (eapply Forall_impl; [exact Hp|]; by intros n [? _]).
  destruct (decide (st = [] /\ absolute p = false)) as [[E1 E2]|Hne]; [rewrite E1, E2; by repeat constructor|].
  destruct (print_names (absolute p) st Hn) as [E1 _]; [destruct st, (absolute p); auto; by destruct Hne|]. rewrite E1.
  apply Forall_rev. eapply Forall_impl; [exact Hp|]. by intros n [_ ?].
Qed.

Lemma clean_clean p : visible p -> clean (clean p) = clean p.
Proof.
  intros Hv. destruct (clean_names p Hv) as [E1 E2]. unfold clean at 1. rewrite E1. unfold resolve at 1. rewrite E2.
  change (foldl (enter (absolute p)) [] (rev (resolve (absolute p) (names p)))) with (resolve (absolute p) (rev (resolve (absolute p) (names p)))).
  by rewrite resolve_fixed by apply resolve_resolved.
Qed.

Lemma clean_head p : visible p -> bool_decide (head (clean p) = Some "/"%char) = absolute p.
Proof.
  intros Hv. pose proof (resolve_plain (absolute p) _ (names_plain p Hv)) as Hp. unfold clean. set (st := resolve _ _) in *. clearbody st.
  destruct (absolute p); [done|]. destruct st as [|n st]; [done|]. unfold print. apply bool_decide_eq_false_2. intros E.
  assert (Forall plain (rev (n :: st))) as Hr by (by apply Forall_rev). destruct (rev_not_nil n st) as (m & k & Em). rewrite Em in *.
  apply Forall_cons in Hr as [[[H1 H2] _] _]. destruct m as [|c m]; [done|]. apply Forall_cons in H2 as [H2 _].
  destruct k; cbn in E; injection E as ->; done.
Qed.

(** [cmdline_get_absolute_path] never overruns a buffer.  A relative path is
    cleaned from the directory of the executable on, as if the two were written
    one behind the other; an absolute one is only cleaned, unless it is forced:
    then it stays below that directory.  The result is a fixed point of
    cleaning, and it is absolute if that directory or the path is. *)
Theorem cmdline_absolute_path d p force : d <> [] -> visible d -> visible p ->
  exists r, absolute_path (Some d) (Some p) force = Ok (inr r) /\
    r = (if absolute p then if force then clean (d ++ "/"%char :: clean p) else clean p else clean (d ++ "/"%char :: p)) /\
    clean r = r /\ absolute r = (absolute d || (absolute p && negb force)).
Proof.
  intros Hd Hvd Hvp.
  assert (visible (d ++ "/"%char :: p)) as Hv1 by (unfold visible; rewrite names_joined; by apply Forall_app).
  assert (visible (d ++ "/"%char :: clean p)) as Hv2.
  { unfold visible. rewrite names_joined. apply Forall_app. split; [done|by apply clean_visible]. }
  unfold absolute_path. rewrite cleans by done. cbn [rbind trimmed]. rewrite clean_head by done.
  destruct d as [|c d]; [done|]. set (dir := c :: d) in *. destruct (clean_names p Hvp) as [Ea En].
  assert (absolute p = false -> clean (dir ++ "/"%char :: clean p) = clean (dir ++ "/"%char :: p)) as Hrel.
  { intros Hp. rewrite (clean_unfold (dir ++ "/"%char :: clean p)), (clean_unfold (dir ++ "/"%char :: p)), !absolute_joined, !names_joined by done.
    f_equal. unfold resolve. rewrite !foldl_app, En, Hp.
    apply resolve_onto. }
  destruct (absolute p) eqn:Ep; [destruct force|]; cbn [andb negb]; rewrite cleans by (done || by apply clean_visible); cbn [trimmed];
    (eexists; split; [done|]).
  - split; [done|]. rewrite clean_clean by done. split; [done|]. destruct (clean_names _ Hv2) as [-> _]. rewrite absolute_joined by done. by rewrite orb_false_r.
  - rewrite !clean_clean by (done || by apply clean_visible). rewrite Ea. by rewrite orb_true_r.
  - rewrite Hrel by done. rewrite clean_clean by done. split_and!; [done..|]. destruct (clean_names _ Hv1) as [-> _]. rewrite absolute_joined by done.
    by rewrite orb_false_r.
Qed.

Lemma cmdline_absolute_path_witness :
  absolute_path (Some (B "/some/where/bin")) (Some (B "../abc")) false = Ok (inr (B "/some/where/abc")) /\
  absolute_path (Some (B "/some/where/bin")) (Some (B "/abc")) true = Ok (inr (B "/some/where/bin/abc")) /\
  exists r, absolute_path (Some (B "/some/where/bin")) (Some (B "../abc")) false = Ok (inr r) /\ clean r = r.
Proof.
  split; [vm_compute; reflexivity|]. split; [vm_compute; reflexivity|].
  destruct (cmdline_absolute_path (B "/some/where/bin") (B "../abc") false) as (r & H1 & _ & H2 & _);
    [discriminate|vm_compute; repeat constructor|vm_compute; repeat constructor|]. exists r. split; [exact H1|exact H2].
Defined.

(** ** Examples

    A process with two arguments and a variable, whose strings lie one behind
    the other from -100 on. *)

Fixpoint lay (a : Z) (l : list bytes) (m : gmap Z ascii) : gmap Z ascii :=
  match l with [] => m | s :: l => lay (a + zlen s + 1) l (poke a (s ++ [NUL]) m) end.

Definition demo_start : cmd :=
  mkCmd (lay (-100) [B "./server"; B "-k"; B "start"; B "HOME=/"] ∅) 0 MAX_STATIC_BUFFER ∅ [-82] 0 [] None None None None None None.
Definition demo_answers : answers := mkAnswers None (Some (B "123 (server) S 1 2 3 4 5 6 7")) true (Some (B "/usr/bin")) (Some (B "/home")).

Definition state_of {A} (m : C A) (s : cmd) : cmd := match m s with Ok (_, s) => s | Err _ => s end.
Definition demo_set : cmd := state_of (cmdline_setup [-100; -91; -88] demo_answers) demo_start.

Example cmdline_setup_demo :
  run (cmdline_setup [-100; -91; -88] demo_answers) demo_start (fun r s => is_Some r /\ g_max_length s = 24 /\ g_prefix s = B "server: ") /\
  run cmdline_module_path demo_set (fun r _ => r = Some (B "/usr/bin/server")).
Proof. split; vm_compute; repeat split; by eexists. Qed.

(** Arguments that are not one behind the other: the terminator of the copy is
    written behind its end. *)
Theorem cmdline_setup_overruns :
  cmdline_setup [-100; -88] demo_answers demo_start = Err undefined_behaviour.
Proof. vm_compute. reflexivity. Qed.

(** The name is saved when the prefix is already over it: to set a name and to
    take it back does not give the old one. *)
Theorem cmdline_unset_keeps_prefix :
  run (cmdline_set_process_name (fun f => f) (Some (B "idle")) ;;; cmdline_unset_process_name) demo_set
    (fun _ s => string_in (-100) (mem demo_set) = Some (B "./server") /\ string_in (-100) (mem s) = Some (B "server: ")).
Proof. vm_compute. by split. Qed.

Lemma demo_area : area (-100) demo_set.
Proof.
  split; [vm_compute; reflexivity|]. split; [vm_compute; reflexivity|]. split; [vm_compute; reflexivity|]. split; [|vm_compute; reflexivity].
  intros x Hx. assert (-100 <= x < -76) as Hx' by (vm_compute in Hx; vm_compute; exact Hx). clear Hx.
  assert (forallb (fun y => match mem demo_set !! y with Some _ => true | None => false end) (seqZ (-100) 24) = true) as H by (vm_compute; reflexivity).
  rewrite forallb_forall in H. specialize (H x). rewrite <- list_elem_of_In, elem_of_seqZ in H. destruct (mem demo_set !! x); [by eexists|].
  specialize (H ltac:(lia)). done.
Qed.

Lemma cmdline_sets_name_witness :
  run (cmdline_set_process_name (fun _ => B "3 clients") (Some (B "%d clients"))) demo_set
    (fun r s' => r = 0 /\ string_in (-100) (mem s') = Some (B "server: 3 clients")) /\
  run (cmdline_set_process_name (fun _ => B "3 clients") (Some (B "%d clients"))) demo_set
    (fun r s' => r = 0 /\ lies (mem s') (-100) (title_of (fun _ => B "3 clients") (g_prefix demo_set) (B "%d clients") (g_max_length demo_set)) /\
       renamed (-100) demo_set s' /\ arena s').
Proof.
  split; [vm_compute; by split|].
  apply (cmdline_sets_name (fun _ => B "3 clients") (B "%d clients") (-100) demo_set demo_area).
  - split; vm_compute; [split; discriminate|discriminate].
  - vm_compute. exact I.
  - apply (bool_decide_eq_false_1 (NUL ∈ g_prefix demo_set)). vm_compute. reflexivity.
  - intros f. apply (bool_decide_eq_false_1 (NUL ∈ B "3 clients")). vm_compute. reflexivity.
Defined.
