(* ===== verification/Sockets.v ===== *)
(** * Sockets and their names: linkage/interface.h, linkage_peer.cpp

    What a caller asks of an [Interface] ([Socket], [Option]), the names of
    sockets, and [LinkagePeer], which keeps the name of one end of a
    connection.  A [const char *] is an option on the bytes in front of its
    terminator: [None] is NULL. *)

From S2P Require Import Prelude Digits Libc.

Definition AF_UNSPEC : Z := 0.
Definition AF_UNIX : Z := 1.
Definition AF_INET : Z := 2.
Definition AF_INET6 : Z := 10.
Definition SOCK_STREAM : Z := 1.
Definition SOCK_DGRAM : Z := 2.

Definition S_IRUSR : Z := 256.
Definition S_IWUSR : Z := 128.
Definition S_IRGRP : Z := 32.
Definition S_IWGRP : Z := 16.
Definition S_IROTH : Z := 4.
Definition S_IWOTH : Z := 2.

Definition kNormal : Z :=
  fold_left Z.lor [S_IWUSR; S_IRGRP; S_IWGRP; S_IROTH; S_IWOTH] S_IRUSR.
Definition kPriviledged : Z := Z.lor S_IRUSR S_IWUSR.

(** ** C strings *)

(** [p && *p] *)
Definition given (p : option bytes) : bool :=
  match p with
  | Some b => match c_str b with [] => false | _ => true end
  | None => false
  end.

Definition or_else (p : option bytes) (d : string) : bytes :=
  match p with
  | Some b => if given p then c_str b else B d
  | None => B d
  end.

(** ** Socket and Option *)

Record Socket : Type := mkSocket {
  domain : Z;
  type_ : Z;
  protocol : Z;
  socket_interface : option bytes;
  socket_hostname : option bytes;
  socket_bind_port : Z;
  socket_port : Z;
  unix_abstract : option bytes;
  unix_pathname : option bytes;
  unix_mode : Z
}.

Definition Socket_new : Socket :=
  mkSocket AF_UNSPEC SOCK_STREAM 0 None None 0 0 None None kNormal.

(** [s.domain = d; s.type = t;] *)
Definition of_kind (d t : Z) (s : Socket) : Socket :=
  mkSocket d t (protocol s) (socket_interface s) (socket_hostname s) (socket_bind_port s)
    (socket_port s) (unix_abstract s) (unix_pathname s) (unix_mode s).
(** [s.socket_interface = i; s.socket_bind_port = p;] *)
Definition bound_to (i : option bytes) (p : Z) (s : Socket) : Socket :=
  mkSocket (domain s) (type_ s) (protocol s) i (socket_hostname s) p
    (socket_port s) (unix_abstract s) (unix_pathname s) (unix_mode s).
(** [s.socket_hostname = h; s.socket_port = p;] *)
Definition towards (h : option bytes) (p : Z) (s : Socket) : Socket :=
  mkSocket (domain s) (type_ s) (protocol s) (socket_interface s) h (socket_bind_port s)
    p (unix_abstract s) (unix_pathname s) (unix_mode s).
(** [s.unix_abstract = a; s.unix_pathname = p; s.unix_mode = m;] *)
Definition named (a p : option bytes) (m : Z) (s : Socket) : Socket :=
  mkSocket (domain s) (type_ s) (protocol s) (socket_interface s) (socket_hostname s)
    (socket_bind_port s) (socket_port s) a p m.

Record Option : Type := mkOption {
  tcp_defer_accept : bool;
  tcp_nodelay : bool;
  tcp_cork : bool;
  udp_broadcast : bool;
  udp_multicast : bool;
  socket_close_on_exec : bool;
  socket_reuse_address : bool;
  socket_non_blocking : bool;
  socket_keepalive : bool
}.

(** The constructor leaves [tcp_cork] as it finds it in memory. *)
Definition Option_new (garbage : bool) : Option :=
  mkOption false false garbage false false false false false false.

(** [o.socket_close_on_exec = c; o.socket_reuse_address = r;
    o.socket_non_blocking = n;] *)
Definition wanting (c r n : bool) (o : Option) : Option :=
  mkOption (tcp_defer_accept o) (tcp_nodelay o) (tcp_cork o) (udp_broadcast o)
    (udp_multicast o) c r n (socket_keepalive o).

(** [std::oct] *)
Fixpoint oct_fuel (fuel : nat) (n : Z) : bytes :=
  match fuel with
  | O => [digit_chr (n mod 8)]
  | S f => if n <? 8 then [digit_chr n] else oct_fuel f (n / 8) ++ [digit_chr (n mod 8)]
  end.
Definition oct (n : Z) : bytes := oct_fuel (Z.to_nat (Z.log2 n)) n.

Definition port_of (d : Socket) : Z :=
  if socket_bind_port d =? 0 then socket_port d else socket_bind_port d.

Definition Socket_ToString (d : Socket) : bytes :=
  if domain d =? AF_UNIX then
    if given (unix_pathname d) then
      B "unix://" ++ or_else (unix_pathname d) "" ++ B "," ++ pad0 4 (oct (unix_mode d))
    else if given (unix_abstract d) then
      B "unix://[" ++ or_else (unix_abstract d) "" ++ B "]"
    else B "unix://<invalid>"
  else if (domain d =? AF_INET6) && (type_ d =? SOCK_STREAM) then
    B "tcp6://[" ++ or_else (socket_hostname d) "::" ++ B "]:" ++ dec (port_of d)
  else if (domain d =? AF_INET6) && (type_ d =? SOCK_DGRAM) then
    B "udp6://[" ++ or_else (socket_hostname d) "::" ++ B "]:" ++ dec (port_of d)
  else if (domain d =? AF_INET) && (type_ d =? SOCK_STREAM) then
    B "tcp4://" ++ or_else (socket_hostname d) "0.0.0.0" ++ B ":" ++ dec (port_of d)
  else if (domain d =? AF_INET) && (type_ d =? SOCK_DGRAM) then
    B "udp4://" ++ or_else (socket_hostname d) "0.0.0.0" ++ B ":" ++ dec (port_of d)
  else
    B "unknown://[" ++ dec_signed (domain d) ++ B "," ++ dec_signed (type_ d) ++ B ","
      ++ dec_signed (protocol d) ++ B "]".

(** Each tag is preceded by the delimiter, which is empty at first. *)
Definition tag (on : bool) (name : string) (a : bytes * bytes) : bytes * bytes :=
  if on then (a.1 ++ a.2 ++ B name, B ",") else a.

Definition Option_ToString (d : Option) : bytes :=
  (tag (socket_keepalive d) "Sk"
  (tag (socket_non_blocking d) "Sn"
  (tag (socket_reuse_address d) "Sr"
  (tag (socket_close_on_exec d) "Se"
  (tag (udp_multicast d) "Um"
  (tag (udp_broadcast d) "Ub"
  (tag (tcp_nodelay d) "Td"
  (tag (tcp_defer_accept d) "Ta" ([], []))))))))).1.

Example Socket_ToString_unix :
  Socket_ToString (of_kind AF_UNIX SOCK_STREAM (named None (Some (B "/tmp/s")) kPriviledged Socket_new))
  = B "unix:///tmp/s,0600".
Proof. reflexivity. Qed.

Example Socket_ToString_tcp6 :
  Socket_ToString (of_kind AF_INET6 SOCK_STREAM (bound_to None 8080 Socket_new)) = B "tcp6://[::]:8080".
Proof. reflexivity. Qed.

Example Option_ToString_all :
  Option_ToString (wanting true true true (Option_new false)) = B "Se,Sr,Sn".
Proof. reflexivity. Qed.

(** ** Names of sockets *)

(** [s_addr] is the address as the machine reads it, little end first; the 16
    bytes of an IPv6 address; the 108 bytes of a path.  Ports are in host
    order.  [sockaddr_other] is a name of any other family. *)
Inductive sockaddr : Type :=
| sockaddr_in (s_addr sin_port : Z)
| sockaddr_in6 (s6_addr : bytes) (sin6_port : Z)
| sockaddr_un (sun_path : bytes)
| sockaddr_other.

Definition sa_family (a : sockaddr) : Z :=
  match a with
  | sockaddr_in _ _ => AF_INET
  | sockaddr_in6 _ _ => AF_INET6
  | sockaddr_un _ => AF_UNIX
  | sockaddr_other => AF_UNSPEC
  end.

(** The domains whose names are read. *)
Definition known (d : Z) : Prop := d = AF_INET \/ d = AF_INET6 \/ d = AF_UNIX.

Definition sizeof_sun_path : Z := 108.

(** The functions of <arpa/inet.h>. *)
Class Inet := {
  inet_ntop4 : Z -> bytes;
  inet_ntop6 : bytes -> bytes;
  inet_aton : bytes -> option Z;
  inet_pton4 : bytes -> option Z;
  inet_pton6 : bytes -> option bytes
}.

(** ** LinkagePeer *)

Record LinkagePeer : Type := mkPeer {
  _ip : list Z;
  _ip_str : bytes;
  _port : Z;
  _fd : Z;
  _uid : Z;
  _gid : Z;
  _pid : Z
}.

Definition LinkagePeer_new : LinkagePeer := mkPeer [] [] 0 (-1) 0 0 0.

(** The four bytes of an address: [p >>= 8] after each. *)
Fixpoint ip_bytes (n : nat) (p : Z) : list Z :=
  match n with
  | O => []
  | S n => Z.land p 255 :: ip_bytes n (Z.shiftr p 8)
  end.

Section Set_.
Context {NET : Inet}.

Definition Set_in (a : sockaddr) (fd : Z) : result exn LinkagePeer :=
  match a with
  | sockaddr_in s_addr port => Ok (mkPeer (ip_bytes 4 s_addr) (inet_ntop4 s_addr) port fd 0 0 0)
  | _ => Err assertion_failed
  end.

Definition Set_in6 (a : sockaddr) (fd : Z) : result exn LinkagePeer :=
  match a with
  | sockaddr_in6 s6 port => Ok (mkPeer (map code (take 16 s6)) (inet_ntop6 s6) port fd 0 0 0)
  | _ => Err assertion_failed
  end.

(** [credentials] is what getsockopt(SO_PEERCRED) fills: user, group, process. *)
Definition Set_un (a : sockaddr) (fd : Z) (credentials : option (Z * Z * Z))
  : result exn (option LinkagePeer) :=
  match a with
  | sockaddr_un path =>
      match credentials with
      | None => Ok None
      | Some (uid, gid, pid) =>
          let str := match path with
                     | [] => B "unix://"
                     | c :: rest => if decide (c = NUL) then B "unix://" ++ c_str rest
                                    else B "file://" ++ c_str path
                     end in
          Ok (Some (mkPeer [] str 0 fd uid gid pid))
      end
  | _ => Err assertion_failed
  end.

End Set_.

Example ip_bytes_localhost : ip_bytes 4 16777343 = [127; 0; 0; 1].
Proof. reflexivity. Qed.
