(* ===== verification/Resolver.v ===== *)
(** * A cache of host names: linkage/resolver.cpp

    Threads that ask for a host share its entry: one of them asks the system,
    without the lock, the others wait.  The maps of both families are one,
    keyed by the family and the host in lower case.  A pointer to an entry is
    its key and the number of its allocation: an entry that Clear or Aging
    deleted is not found any more, and using it is undefined.  Each critical
    section is one step, and so is an answer of the system, which is stored
    without the lock. *)

From Stdlib Require Import ZifyBool.
From S2P Require Import Prelude Libc Utility.

Inductive Option : Type := kFirst | kRandom | kSequential.

Definition kRefreshTime : Z := 300000000000.
Definition kCacheExpire : Z := 3600000000000.
Definition kAgingInterval : Z := 300000000000.

Section Resolver.

(** Addresses, the C library's random numbers and its reading of literal
    addresses; the family is true for IPv6. *)
Context {A : Type} `{EqDecision A} (RAND_MAX : Z) (inet_pton : bool -> bytes -> option A).

Record Cache : Type := mkCache {
  _addr : list A;
  _resolved : Z;
  _current : Z;
  _resolving : bool
}.

Definition Cache_new : Cache := mkCache [] (-1) (-1) false.

(** ** The operations on an entry *)

(** The loop that looks for each new address in the set of the old ones, and
    erases it there: what is left of the set, or [None] if one is missing. *)
Fixpoint match_set (res s : list A) : option (list A) :=
  match res with
  | [] => Some s
  | a :: res => if decide (a ∈ s) then match_set res (filter (fun b => b <> a) s) else None
  end.

(** [res]: the addresses of the answer, none if it is null. *)
Definition Cache_Set (res : list A) (c : Cache) : Cache :=
  match res with
  | [] => mkCache [] (_resolved c) (-1) (_resolving c)
  | _ =>
      match match_set res (_addr c) with
      | Some [] => c
      | _ => mkCache res (_resolved c) (-1) (_resolving c)
      end
  end.

(** [draws]: what rand_r returns.  The address, if there is one. *)
Definition Pick (opt : Option) (draws : list Z) (c : Cache) : result exn (Cache * option A) :=
  match _addr c with
  | [] => Ok (c, None)
  | l =>
      let size := zlen l in
      let at_ current :=
        let c := mkCache (_addr c) (_resolved c) current (_resolving c) in
        if current <? 0 then Err undefined_behaviour
        else match l !! Z.to_nat current with
             | Some a => Ok (c, Some a)
             | None => Err undefined_behaviour
             end in
      match opt with
      | kFirst => at_ 0
      | kSequential => if size =? 1 then at_ 0 else at_ (Z.rem (_current c + 1) size)
      | kRandom =>
          if size =? 1 then at_ 0
          else match ranged_rand_r RAND_MAX size draws with
               | Some (current, _) => at_ current
               | None => Err out_of_fuel
               end
      end
  end.

(** ** The resolver *)

Definition key : Type := bool * bytes.
Definition pointer : Type := key * nat.

Record Resolver : Type := mkResolver {
  address : gmap key (nat * Cache);
  allocated : nat;
  _last_aging : Z
}.

Definition deref (p : pointer) (r : Resolver) : result exn Cache :=
  match address r !! p.1 with
  | Some (n, c) => if (n =? p.2)%nat then Ok c else Err undefined_behaviour
  | None => Err undefined_behaviour
  end.

Definition store (p : pointer) (c : Cache) (r : Resolver) : Resolver :=
  mkResolver (<[p.1 := (p.2, c)]> (address r)) (allocated r) (_last_aging r).

(** Deleting the entries that are not being resolved and for which [P] holds. *)
Definition delete_entries (P : Cache -> bool) (r : Resolver) : Resolver :=
  mkResolver (filter (fun e => negb (_resolving e.2.2) && P e.2.2 = false) (address r)) (allocated r) (_last_aging r).

Definition Clear (r : Resolver) : Resolver := delete_entries (fun _ => true) r.

Definition Aging (now : Z) (r : Resolver) : Resolver :=
  if now - _last_aging r <? kAgingInterval then r
  else
    delete_entries (fun c => _resolved c <? now - kCacheExpire)
      (mkResolver (address r) (allocated r) now).

(** address->find(shost), or a new entry. *)
Definition find_or_insert (k : key) (r : Resolver) : pointer * Resolver :=
  match address r !! k with
  | Some (n, _) => ((k, n), r)
  | None => ((k, allocated r), mkResolver (<[k := (allocated r, Cache_new)]> (address r)) (S (allocated r)) (_last_aging r))
  end.

(** ** The threads *)

(** Where a thread is: outside, in Wait or awake from it, in getaddrinfo, back
    from it before it takes the lock again, or out with what it returns. *)
Inductive tstate : Type :=
| Outside
| Asleep (p : pointer) (deadline : Z) (opt : Option)
| Awake (p : pointer) (deadline : Z) (opt : Option)
| Asking (p : pointer) (deadline : Z) (opt : Option)
| Answered (p : pointer) (deadline : Z) (opt : Option) (ret : bool)
| Returned (r : option A).

(** The loop of DoResolve from its condition on, and Pick behind it. *)
Definition loop (p : pointer) (deadline : Z) (opt : Option) (draws : list Z) (r : Resolver)
  : result exn (tstate * Resolver) :=
  let! c := deref p r in
  if (_resolved c <? 0) || (_resolved c <? deadline) then
    if _resolving c then Ok (Asleep p deadline opt, r)
    else Ok (Asking p deadline opt, store p (mkCache (_addr c) (_resolved c) (_current c) true) r)
  else
    let! (c, a) := Pick opt draws c in
    Ok (Returned a, store p c r).

(** DoResolve before it takes the lock, where the caller has room for the
    address: there is an answer already, or a key to look for. *)
Definition DoResolve_prepare (domain : bool) (hostname : option bytes) (port : Z) : option A + key :=
  match hostname with
  | None | Some [] => inl None
  | Some hostname =>
      if port =? 0 then inl None
      else match inet_pton domain hostname with
           | Some a => inl (Some a)
           | None => if 1024 <=? zlen hostname then inl None else inr (domain, map tolower hostname)
           end
  end.

(** DoResolve up to the loop; [now] was read before the lock was taken. *)
Definition DoResolve (k : key) (now : Z) (opt : Option) (draws : list Z) (r : Resolver) :=
  let '(p, r) := find_or_insert k (Aging now r) in
  loop p (now - kRefreshTime) opt draws r.

(** Behind Wait. *)
Definition DoResolve_awake (p : pointer) (deadline : Z) (opt : Option) (draws : list Z) (r : Resolver) :=
  let! c := deref p r in
  if _resolving c then Ok (Asleep p deadline opt, r) else loop p deadline opt draws r.

(** DoResolve_getaddrinfo: [ans] is [None] for the errors that make it return
    false; a host that does not exist has no addresses. *)
Definition DoResolve_getaddrinfo (p : pointer) (ans : option (list A)) (r : Resolver) : result exn (bool * Resolver) :=
  match ans with
  | None => Ok (false, r)
  | Some res => let! c := deref p r in Ok (true, store p (Cache_Set res c) r)
  end.

(** WakeAll *)
Definition wake (x : tstate) : tstate :=
  match x with Asleep p d o => Awake p d o | _ => x end.

(** Behind getaddrinfo, with the lock: up to the end of the loop's body. *)
Definition DoResolve_answered (p : pointer) (ret : bool) (now : Z) (r : Resolver) : result exn Resolver :=
  let! c := deref p r in
  Ok (store p (mkCache (_addr c) (if ret then now else _resolved c) (_current c) false) r).

Record world : Type := mkWorld { resolver : Resolver; threads : list tstate }.

Inductive event : Type :=
| ECall (t : nat) (domain : bool) (hostname : option bytes) (port : Z) (now : Z) (opt : Option) (draws : list Z)
| EWake (t : nat) (draws : list Z)
| EAnswer (t : nat) (ans : option (list A))
| ERelock (t : nat) (now : Z) (draws : list Z)
| ESpurious (t : nat)
| EClear.

Definition move (t : nat) (l : list tstate) (m : result exn (tstate * Resolver)) : result exn world :=
  let! (x, r) := m in Ok (mkWorld r (<[t := x]> l)).

Definition exec (e : event) (w : world) : result exn world :=
  let r := resolver w in
  let l := threads w in
  match e with
  | ECall t domain hostname port now opt draws =>
      match l !! t with
      | Some Outside =>
          match DoResolve_prepare domain hostname port with
          | inl a => Ok (mkWorld r (<[t := Returned a]> l))
          | inr k => move t l (DoResolve k now opt draws r)
          end
      | _ => Ok w
      end
  | EWake t draws =>
      match l !! t with Some (Awake p d o) => move t l (DoResolve_awake p d o draws r) | _ => Ok w end
  | EAnswer t ans =>
      match l !! t with
      | Some (Asking p d o) =>
          let! (ret, r) := DoResolve_getaddrinfo p ans r in
          Ok (mkWorld r (<[t := Answered p d o ret]> l))
      | _ => Ok w
      end
  | ERelock t now draws =>
      match l !! t with
      | Some (Answered p d o ret) =>
          let! r := DoResolve_answered p ret now r in
          move t (map wake l) (loop p d o draws r)
      | _ => Ok w
      end
  | ESpurious t =>
      match l !! t with Some (Asleep p d o) => Ok (mkWorld r (<[t := Awake p d o]> l)) | _ => Ok w end
  | EClear => Ok (mkWorld (Clear r) l)
  end.

Fixpoint run_events (l : list event) (w : world) : result exn world :=
  match l with
  | [] => Ok w
  | e :: l => let! w := exec e w in run_events l w
  end.

Definition start (now : Z) (n : nat) : world := mkWorld (mkResolver ∅ 0 now) (replicate n Outside).

(** What the thread of an event asked for. *)
Definition event_option (e : event) (w : world) : option Option :=
  match e with
  | ECall _ _ _ _ _ opt _ => Some opt
  | EWake t _ => match threads w !! t with Some (Awake _ _ o) => Some o | _ => None end
  | ERelock t _ _ => match threads w !! t with Some (Answered _ _ o _) => Some o | _ => None end
  | _ => None
  end.

(** [n] calls of Pick, one behind the other. *)
Fixpoint picks (n : nat) (opt : Option) (c : Cache) : result exn (Cache * list (option A)) :=
  match n with
  | O => Ok (c, [])
  | S n => let! (c, a) := Pick opt [] c in let! (c, l) := picks n opt c in Ok (c, a :: l)
  end.

(** ** Who holds an entry *)

Definition holder (x : tstate) : option pointer :=
  match x with Asking p _ _ | Answered p _ _ _ => Some p | _ => None end.

Definition sleeps_on (x : tstate) : option pointer :=
  match x with Asleep p _ _ => Some p | _ => None end.

Definition being_resolved (p : pointer) (r : Resolver) : Prop :=
  exists c, address r !! p.1 = Some (p.2, c) /\ _resolving c = true.

(** Apart from thread [t], if any: who holds an entry resolves it, alone, every
    entry that is being resolved is held, and whoever sleeps does so on one of
    those. *)
Definition InvX (t : option nat) (r : Resolver) (l : list tstate) : Prop :=
  (forall u x p, Some u <> t -> l !! u = Some x -> holder x = Some p \/ sleeps_on x = Some p -> being_resolved p r) /\
  (forall u v x y p, Some u <> t -> Some v <> t -> l !! u = Some x -> l !! v = Some y ->
     holder x = Some p -> holder y = Some p -> u = v) /\
  (forall k n c, address r !! k = Some (n, c) -> _resolving c = true ->
     exists u x, Some u <> t /\ l !! u = Some x /\ holder x = Some (k, n)) /\
  (forall k n c, address r !! k = Some (n, c) -> -1 <= _current c).

Abbreviation Inv := (InvX None).

Lemma deref_ok p r c : deref p r = Ok c <-> address r !! p.1 = Some (p.2, c).
Proof.
  unfold deref. destruct (address r !! p.1) as [[n c']|]; [|split; done].
  destruct (Nat.eqb_spec n p.2) as [->|Hne]; split; congruence.
Qed.

Lemma being_resolved_store p q c r : being_resolved q r -> (q.1 = p.1 -> q.2 = p.2 -> _resolving c = true) ->
  (forall c', address r !! p.1 = Some c' -> c'.1 = p.2) -> being_resolved q (store p c r).
Proof.
  intros (c' & H1 & H2) Hc Hp. unfold being_resolved, store. cbn [address].
  destruct (decide (q.1 = p.1)) as [E|Hne].
  - rewrite E, lookup_insert_eq. rewrite E in H1. pose proof (Hp _ H1) as E2. cbn in E2.
    exists c. split; [by rewrite E2|by apply Hc].
  - rewrite lookup_insert_ne by done. eauto.
Qed.

(** A thread that neither holds nor sleeps can be left out. *)
Lemma InvX_out t r l x : Inv r l -> l !! t = Some x -> holder x = None -> InvX (Some t) r l.
Proof.
  intros (H1 & H2 & H3 & H4) Ht Hx. split_and!; [by eauto|by eauto| |done].
  intros k n c Hk Hc. destruct (H3 k n c Hk Hc) as (u & y & _ & Hu & Hy). exists u, y. split_and!; try done.
  intros [= ->]. congruence.
Qed.

(** Coming back without an entry. *)
Lemma InvX_in t r l x : InvX (Some t) r l -> (t < length l)%nat -> holder x = None ->
  (forall p, sleeps_on x = Some p -> being_resolved p r) -> Inv r (<[t := x]> l).
Proof.
  intros (H1 & H2 & H3 & H4) Ht Hx Hs. split_and!; [| | |done].
  - intros u y p _ Hu Hy. destruct (decide (u = t)) as [->|Hne].
    + rewrite list_lookup_insert_eq in Hu by done. injection Hu as <-. destruct Hy as [Hy|Hy]; [congruence|by apply Hs].
    + rewrite list_lookup_insert_ne in Hu by done. eapply H1; [|exact Hu|exact Hy]. congruence.
  - intros u v y z p _ _ Hu Hv Hy Hz.
    destruct (decide (u = t)) as [->|Hne]; [rewrite list_lookup_insert_eq in Hu by done; congruence|].
    destruct (decide (v = t)) as [->|Hne']; [rewrite list_lookup_insert_eq in Hv by done; congruence|].
    rewrite list_lookup_insert_ne in Hu, Hv by done. eapply H2; [| |exact Hu|exact Hv|done|done]; congruence.
  - intros k n c Hk Hc. destruct (H3 k n c Hk Hc) as (u & y & Hne & Hu & Hy). exists u, y. split_and!; try done.
    rewrite list_lookup_insert_ne; [done|]. congruence.
Qed.

(** Coming back with an entry that nobody held. *)
Lemma InvX_take t r l x p c : InvX (Some t) r l -> (t < length l)%nat -> holder x = Some p -> sleeps_on x = None ->
  address r !! p.1 = Some (p.2, c) -> _resolving c = false ->
  Inv (store p (mkCache (_addr c) (_resolved c) (_current c) true) r) (<[t := x]> l).
Proof.
  intros (H1 & H2 & H3 & H4) Ht Hx Hs Hp Hc.
  assert (forall q, being_resolved q r -> q <> p) as Hneq.
  { intros q (c' & E1 & E2) ->. rewrite Hp in E1. congruence. }
  assert (forall u y q, u <> t -> l !! u = Some y -> holder y = Some q \/ sleeps_on y = Some q -> q <> p) as Hother.
  { intros u y q Hne Hu Hy. apply Hneq. eapply H1; [|exact Hu|exact Hy]. congruence. }
  split_and!.
  - intros u y q _ Hu Hy. destruct (decide (u = t)) as [->|Hne].
    + rewrite list_lookup_insert_eq in Hu by done. injection Hu as <-.
      assert (q = p) as -> by (destruct Hy; congruence). eexists. unfold store. cbn [address].
      rewrite lookup_insert_eq. done.
    + rewrite list_lookup_insert_ne in Hu by done.
      apply being_resolved_store; [eapply H1; [|exact Hu|exact Hy]; congruence|done|].
      intros c' E. rewrite Hp in E. by injection E as <-.
  - assert (forall u y, <[t := x]> l !! u = Some y -> u = t /\ y = x \/ u <> t /\ l !! u = Some y) as Hcase.
    { intros u y [[-> [<- _]]|[Hne Hu]]%list_lookup_insert_Some; auto. }
    intros u v y z q _ _ Hu Hv Hy Hz.
    destruct (Hcase u y Hu) as [[-> ->]|[Hne Hu']], (Hcase v z Hv) as [[-> ->]|[Hne' Hv']].
    + done.
    + exfalso. eapply (Hother v z q); eauto. congruence.
    + exfalso. eapply (Hother u y q); eauto. congruence.
    + eapply H2; [| |exact Hu'|exact Hv'|done|done]; congruence.
  - intros k n c' Hk Hc'. unfold store in Hk. cbn [address] in Hk. destruct (decide (k = p.1)) as [->|Hne].
    + rewrite lookup_insert_eq in Hk. injection Hk as <- <-. exists t, x. split; [done|].
      rewrite list_lookup_insert_eq by done. split; [done|]. by destruct p.
    + rewrite lookup_insert_ne in Hk by done. destruct (H3 k n c' Hk Hc') as (u & y & Hu0 & Hu & Hy).
      exists u, y. split; [done|]. rewrite list_lookup_insert_ne by congruence. done.
  - intros k n c' Hk. unfold store in Hk. cbn [address] in Hk. destruct (decide (k = p.1)) as [->|Hne].
    + rewrite lookup_insert_eq in Hk. injection Hk as <- <-. cbn. by eapply H4.
    + rewrite lookup_insert_ne in Hk by done. by eapply H4.
Qed.

(** Changing what an entry says, not whether it is being resolved. *)
Lemma InvX_store t r l p c c' : InvX t r l -> address r !! p.1 = Some (p.2, c) ->
  _resolving c' = _resolving c -> -1 <= _current c' -> InvX t (store p c' r) l.
Proof.
  intros (H1 & H2 & H3 & H4) Hp Hr Hc. split_and!; [|done| |].
  - intros u x q Hne Hu Hx. pose proof (H1 u x q Hne Hu Hx) as Hq. apply being_resolved_store; [done| |].
    + intros E1 E2. destruct Hq as (c0 & E3 & E4). rewrite E1, Hp in E3. rewrite Hr. congruence.
    + intros c0 E. rewrite Hp in E. by injection E as <-.
  - intros k n c0 Hk Hc0. unfold store in Hk. cbn [address] in Hk. destruct (decide (k = p.1)) as [->|Hne].
    + rewrite lookup_insert_eq in Hk. injection Hk as <- <-. apply (H3 _ _ c); [done|]. congruence.
    + rewrite lookup_insert_ne in Hk by done. by eapply H3.
  - intros k n c0 Hk. unfold store in Hk. cbn [address] in Hk. destruct (decide (k = p.1)) as [->|Hne].
    + rewrite lookup_insert_eq in Hk. by injection Hk as <- <-.
    + rewrite lookup_insert_ne in Hk by done. by eapply H4.
Qed.

(** Deleting entries that nobody resolves, and new ones. *)
Lemma InvX_delete t r l P la : InvX t r l ->
  InvX t (delete_entries P (mkResolver (address r) (allocated r) la)) l.
Proof.
  intros (H1 & H2 & H3 & H4). split_and!; [|done| |].
  - intros u x q Hne Hu Hx. destruct (H1 u x q Hne Hu Hx) as (c & E1 & E2). exists c. split; [|done].
    unfold delete_entries. cbn [address]. apply map_lookup_filter_Some. split; [done|]. cbn. by rewrite E2.
  - intros k n c [Hk _]%map_lookup_filter_Some Hc. by eapply H3.
  - intros k n c [Hk _]%map_lookup_filter_Some. by eapply H4.
Qed.

Lemma InvX_insert t r l k n : InvX t r l -> address r !! k = None ->
  InvX t (mkResolver (<[k := (n, Cache_new)]> (address r)) (S (allocated r)) (_last_aging r)) l.
Proof.
  intros (H1 & H2 & H3 & H4) Hk. split_and!; [|done| |]; cbn [address].
  - intros u x q Hne Hu Hx. destruct (H1 u x q Hne Hu Hx) as (c & E1 & E2). exists c. split; [|done]. cbn [address].
    rewrite lookup_insert_ne; [done|]. intros E. rewrite E in Hk. congruence.
  - intros k' m c Hk' Hc. destruct (decide (k' = k)) as [->|Hne].
    + rewrite lookup_insert_eq in Hk'. by injection Hk' as <- <-.
    + rewrite lookup_insert_ne in Hk' by done. by eapply H3.
  - intros k' m c Hk'. destruct (decide (k' = k)) as [->|Hne].
    + rewrite lookup_insert_eq in Hk'. injection Hk' as <- <-. cbn. lia.
    + rewrite lookup_insert_ne in Hk' by done. by eapply H4.
Qed.


(** Threads without an entry may move, and so may those that keep theirs. *)
Lemma InvX_keep r l t x y : Inv r l -> l !! t = Some x -> holder y = holder x -> sleeps_on y = None ->
  Inv r (<[t := y]> l).
Proof.
  intros (H1 & H2 & H3 & H4) Ht Hh Hs.
  assert (forall u z, <[t := y]> l !! u = Some z -> exists z', l !! u = Some z' /\ holder z' = holder z /\
    (sleeps_on z = None \/ z' = z)) as Hcase.
  { intros u z [[-> [<- _]]|[Hne Hu]]%list_lookup_insert_Some; [exists x|exists z]; auto. }
  split_and!; [| | |done].
  - intros u z p _ (z' & Hz' & E1 & E2)%Hcase Hp. eapply (H1 u z' p); [done|done|].
    destruct E2 as [E2| ->]; [|done]. left. destruct Hp; congruence.
  - intros u v z1 z2 p _ _ (z1' & Hz1 & E1 & _)%Hcase (z2' & Hz2 & E2 & _)%Hcase Hp1 Hp2.
    eapply (H2 u v z1' z2' p); congruence.
  - intros k n c Hk Hc. destruct (H3 k n c Hk Hc) as (u & z & _ & Hu & Hz). destruct (decide (u = t)) as [->|Hne].
    + exists t, y. split_and!; [done| |congruence]. apply list_lookup_insert_eq. by eapply lookup_lt_Some.
    + exists u, z. split_and!; try done. by rewrite list_lookup_insert_ne.
Qed.

(** Giving an entry back: whoever slept is awake, so nobody misses it. *)
Lemma InvX_release t r l x p c a b m : Inv r l -> l !! t = Some x -> holder x = Some p ->
  address r !! p.1 = Some (p.2, c) -> -1 <= m ->
  InvX (Some t) (store p (mkCache a b m false) r) (map wake l).
Proof.
  intros (H1 & H2 & H3 & H4) Ht Hx Hp Hm.
  assert (forall y, holder (wake y) = holder y) as Ew by (by intros []).
  assert (forall u y q, u <> t -> l !! u = Some y -> holder y = Some q -> q.1 <> p.1) as Hother.
  { intros u y q Hne Hu Hy E. destruct (H1 u y q (ltac:(done)) Hu (or_introl Hy)) as (c' & E1 & _).
    rewrite E, Hp in E1. assert (q = p) as -> by (destruct p, q; cbn in *; congruence). by apply Hne, (H2 u t y x p). }
  split_and!.
  - intros u y q Hne [z [-> Hu]]%list_lookup_fmap_Some Hy. rewrite Ew in Hy.
    assert (holder z = Some q) as Hz by (destruct Hy as [Hy|Hy]; [done|by destruct z]).
    destruct (H1 u z q (ltac:(done)) Hu (or_introl Hz)) as (c' & E1 & E2). exists c'. split; [|done].
    unfold store. cbn [address]. rewrite lookup_insert_ne; [done|]. apply not_eq_sym, (Hother u z q); congruence.
  - intros u v y z q _ _ [y' [-> Hu]]%list_lookup_fmap_Some [z' [-> Hv]]%list_lookup_fmap_Some Hy Hz.
    rewrite Ew in Hy, Hz. by apply (H2 u v y' z' q).
  - intros k n c' Hk Hc'. unfold store in Hk. cbn [address] in Hk. destruct (decide (k = p.1)) as [->|Hne].
    + rewrite lookup_insert_eq in Hk. by injection Hk as <- <-.
    + rewrite lookup_insert_ne in Hk by done. destruct (H3 k n c' Hk Hc') as (u & y & _ & Hu & Hy).
      exists u, (wake y). split_and!; [|by rewrite list_lookup_fmap, Hu|by rewrite Ew].
      intros [= ->]. rewrite Ht in Hu. injection Hu as <-. rewrite Hx in Hy. by injection Hy as ->.
  - intros k n c' Hk. unfold store in Hk. cbn [address] in Hk. destruct (decide (k = p.1)) as [->|Hne].
    + rewrite lookup_insert_eq in Hk. by injection Hk as <- <-.
    + rewrite lookup_insert_ne in Hk by done. by eapply H4.
Qed.

(** ** Steps *)

Lemma Pick_keeps opt draws c c' a : Pick opt draws c = Ok (c', a) ->
  _resolving c' = _resolving c /\ _addr c' = _addr c /\ (-1 <= _current c -> -1 <= _current c').
Proof.
  unfold Pick. intros H. repeat case_match; simplify_eq; cbn; split_and!; auto; lia.
Qed.

Lemma Cache_Set_keeps res c : _resolving (Cache_Set res c) = _resolving c /\
  (-1 <= _current c -> -1 <= _current (Cache_Set res c)).
Proof. unfold Cache_Set. repeat case_match; cbn; split; auto; lia. Qed.

Lemma loop_inv t p d o draws r l x r' : InvX (Some t) r l -> (t < length l)%nat ->
  loop p d o draws r = Ok (x, r') -> Inv r' (<[t := x]> l).
Proof.
  intros HI Ht H. unfold loop in H. destruct (deref p r) as [c|] eqn:Hc; [|done]. apply deref_ok in Hc. cbn in H.
  pose proof HI as (_ & _ & _ & H4). destruct (_ || _).
  - destruct (_resolving c) eqn:Hr; injection H as <- <-.
    + apply InvX_in; [done|done|done|]. intros q [= <-]. by exists c.
    + by eapply InvX_take.
  - destruct (Pick o draws c) as [[c' a]|] eqn:HP; [|done]. cbn in H. injection H as <- <-.
    apply Pick_keeps in HP as (E1 & _ & E2). apply InvX_in; [|done|done|done].
    eapply InvX_store; [done|done|done|]. by eapply E2, H4.
Qed.

Lemma InvX_Aging t now r l : InvX t r l -> InvX t (Aging now r) l.
Proof. intros H. unfold Aging. case_match; [done|]. by apply (InvX_delete _ r). Qed.

Lemma InvX_find t k r l p r' : InvX t r l -> find_or_insert k r = (p, r') -> InvX t r' l.
Proof.
  intros H E. unfold find_or_insert in E. destruct (address r !! k) as [[n c]|] eqn:Hk; injection E as <- <-; [done|].
  by apply InvX_insert.
Qed.

Lemma exec_inv e w w' : Inv (resolver w) (threads w) -> exec e w = Ok w' -> Inv (resolver w') (threads w').
Proof.
  intros HI H. destruct w as [r l]. unfold exec, move in H. cbn [resolver threads] in *.
  destruct e as [t dom host port now opt draws|t draws|t ans|t now draws|t|].
  - destruct (l !! t) as [[]|] eqn:Ht; try (by injection H as <-).
    destruct (DoResolve_prepare dom host port) as [a|k]; [injection H as <-; by eapply InvX_keep|].
    destruct (DoResolve k now opt draws r) as [[x r']|] eqn:HD; [|done]. injection H as <-. cbn.
    unfold DoResolve in HD. destruct (find_or_insert _ _) as [p r1] eqn:Hf. eapply loop_inv; [|by eapply lookup_lt_Some|done].
    eapply InvX_find; [|done]. by eapply InvX_Aging, InvX_out.
  - destruct (l !! t) as [[]|] eqn:Ht; try (by injection H as <-).
    destruct (DoResolve_awake _ _ _ _ _) as [[x r']|] eqn:HD; [|done]. injection H as <-. cbn.
    unfold DoResolve_awake in HD. destruct (deref p r) as [c|] eqn:Hc; [|done]. cbn in HD.
    assert (InvX (Some t) r l) as HX by (by eapply InvX_out). pose proof (lookup_lt_Some _ _ _ Ht) as Hlt.
    destruct (_resolving c) eqn:Hr; [|by eapply loop_inv]. injection HD as <- <-. apply deref_ok in Hc.
    apply InvX_in; [done|done|done|]. intros q [= <-]. by exists c.
  - destruct (l !! t) as [[]|] eqn:Ht; try (by injection H as <-).
    unfold DoResolve_getaddrinfo in H. destruct ans as [res|].
    + destruct (deref p r) as [c|] eqn:Hc; [|done]. apply deref_ok in Hc. cbn in H. injection H as <-. cbn.
      eapply InvX_keep; [|done|done|done]. eapply InvX_store; [done|done|apply Cache_Set_keeps|].
      apply Cache_Set_keeps. by eapply HI.
    + cbn in H. injection H as <-. by eapply InvX_keep.
  - destruct (l !! t) as [[]|] eqn:Ht; try (by injection H as <-).
    unfold DoResolve_answered in H. destruct (deref p r) as [c|] eqn:Hc; [|done]. apply deref_ok in Hc. cbn in H.
    destruct (loop _ _ _ _ _) as [[x r']|] eqn:HL; [|done]. injection H as <-. cbn.
    eapply loop_inv; [|rewrite length_map; by eapply lookup_lt_Some|done].
    eapply InvX_release; [done|done|done|done|]. by eapply HI.
  - destruct (l !! t) as [[]|] eqn:Ht; injection H as <-; try done. by eapply InvX_keep.
  - injection H as <-. by apply (InvX_delete None r l _ (_last_aging r)).
Qed.

Lemma start_inv now n : Inv (resolver (start now n)) (threads (start now n)).
Proof.
  split_and!; cbn.
  - intros u x p _ [-> _]%lookup_replicate. by intros [|].
  - intros u v x y p _ _ [-> _]%lookup_replicate. done.
  - intros k m c. by rewrite lookup_empty.
  - intros k m c. by rewrite lookup_empty.
Qed.

Lemma run_events_inv l w w' : Inv (resolver w) (threads w) -> run_events l w = Ok w' -> Inv (resolver w') (threads w').
Proof.
  revert w. induction l as [|e l IH]; intros w HI H; cbn in H; [by injection H as <-|].
  destruct (exec e w) as [w1|] eqn:He; [|done]. eapply IH; [|done]. by eapply exec_inv.
Qed.

(** ** Failures *)

Lemma Pick_fails opt draws c err : -1 <= _current c -> Pick opt draws c = Err err -> opt = kRandom.
Proof.
  intros Hc H. unfold Pick in H. destruct (_addr c) as [|a l] eqn:Ha; [done|].
  assert (forall i, 0 <= i < zlen (a :: l) -> exists b, (a :: l) !! Z.to_nat i = Some b) as Hin.
  { intros i Hi. apply lookup_lt_is_Some. unfold zlen in Hi. lia. }
  pose proof (zlen_nonneg l) as Hl. pose proof (zlen_cons a l) as El.
  destruct opt; [exfalso|done|exfalso].
  - cbn in H. done.
  - destruct (Z.eqb_spec (zlen (a :: l)) 1); [by cbn in H|].
    pose proof (Z.rem_bound_pos (_current c + 1) (zlen (a :: l)) ltac:(lia) ltac:(lia)) as Hb.
    destruct (Hin _ Hb) as [b Hb']. rewrite Hb' in H.
    destruct (Z.ltb_spec (Z.rem (_current c + 1) (zlen (a :: l))) 0); [lia|done].
Qed.

Lemma loop_fails p d o draws r c err : deref p r = Ok c -> -1 <= _current c -> loop p d o draws r = Err err -> o = kRandom.
Proof.
  intros Hc Hm H. unfold loop in H. rewrite Hc in H. cbn in H. destruct (_ || _); [by destruct (_resolving c)|].
  destruct (Pick o draws c) as [[c' a]|e] eqn:HP; [done|]. by eapply Pick_fails.
Qed.

Lemma find_or_insert_ok k r p r' t l : InvX t r l -> find_or_insert k r = (p, r') ->
  exists c, deref p r' = Ok c /\ -1 <= _current c.
Proof.
  intros (_ & _ & _ & H4) H. unfold find_or_insert in H.
  destruct (address r !! k) as [[n c]|] eqn:Hk; injection H as <- <-.
  - exists c. split; [by apply deref_ok|by eapply H4].
  - exists Cache_new. split; [|cbn; lia]. apply deref_ok. cbn. by rewrite lookup_insert_eq.
Qed.

(** A step fails for the lack of the entry behind Wait, or in kRandom. *)
Lemma exec_fails e w err : Inv (resolver w) (threads w) -> exec e w = Err err ->
  (exists t draws p d o, e = EWake t draws /\ threads w !! t = Some (Awake p d o) /\ deref p (resolver w) = Err err) \/
  event_option e w = Some kRandom.
Proof.
  intros HI H. destruct w as [r l]. unfold exec, move in H. unfold event_option. cbn [resolver threads] in *.
  pose proof HI as (H1 & _ & _ & H4).
  destruct e as [t dom host port now opt draws|t draws|t ans|t now draws|t|]; [| | | | |done].
  - destruct (l !! t) as [[]|] eqn:Ht; try done.
    destruct (DoResolve_prepare dom host port) as [a|k]; [done|].
    unfold DoResolve in H. destruct (find_or_insert _ _) as [p r1] eqn:Hf.
    destruct (loop _ _ _ _ _) as [[x r']|e] eqn:HL; [done|]. right. f_equal.
    eapply find_or_insert_ok in Hf as (c & Hc & Hm); [|by apply InvX_Aging]. by eapply loop_fails.
  - destruct (l !! t) as [[]|] eqn:Ht; try done. unfold DoResolve_awake in H.
    destruct (deref p r) as [c|e] eqn:Hc; cbn in H; [|left; injection H as <-; by eauto 10].
    destruct (_resolving c); [done|]. destruct (loop _ _ _ _ _) as [[x r']|e] eqn:HL; [done|]. right. f_equal.
    apply deref_ok in Hc as Hc'. eapply loop_fails; [done|by eapply H4|done].
  - destruct (l !! t) as [[]|] eqn:Ht; try done. unfold DoResolve_getaddrinfo in H. destruct ans; [|done].
    destruct (H1 t _ p ltac:(done) Ht ltac:(by left)) as (c & Hc & _). apply deref_ok in Hc. by rewrite Hc in H.
  - destruct (l !! t) as [[]|] eqn:Ht; try done. unfold DoResolve_answered in H.
    destruct (H1 t _ p ltac:(done) Ht ltac:(by left)) as (c & Hc & _). pose proof (H4 _ _ _ Hc) as Hm.
    apply deref_ok in Hc. rewrite Hc in H. cbn in H.
    destruct (loop _ _ _ _ _) as [[x r']|e] eqn:HL; [done|]. right. f_equal.
    eapply loop_fails in HL; [exact HL|apply deref_ok; apply lookup_insert_eq|exact Hm].
  - by destruct (l !! t) as [[]|].
Qed.

(** ** The answer of the system *)

(** The addresses are those of the answer; the turn of the old ones goes on
    only if the answer has all of them, once each, and no others. *)
Lemma match_set_some res s : match_set res s = Some [] <-> NoDup res /\ (forall a, a ∈ res <-> a ∈ s).
Proof.
  revert s. induction res as [|a res IH]; intros s; cbn.
  - split; [intros [= ->]; split; [constructor|done]|]. intros [_ H]. destruct s as [|b s]; [done|].
    exfalso. apply (not_elem_of_nil b), H. by left.
  - destruct (decide (a ∈ s)) as [Ha|Ha].
    + rewrite IH, NoDup_cons. split.
      * intros [Hd H]. split_and!; [|done|].
        -- intros [E _]%H%list_elem_of_filter. done.
        -- intros b. rewrite elem_of_cons, H, list_elem_of_filter. split; [intros [->|[_ ?]]; done|].
           destruct (decide (b = a)); auto.
      * intros [[Hna Hd] H]. split; [done|]. intros b. rewrite list_elem_of_filter, <- H, elem_of_cons.
        split; [|tauto]. intros Hb. split; [|by right]. congruence.
    + split; [done|]. intros [_ H]. exfalso. apply Ha, H. by left.
Qed.

Lemma Cache_Set_spec res c : (forall a, a ∈ _addr (Cache_Set res c) <-> a ∈ res) /\
  (_current (Cache_Set res c) = if bool_decide (res <> [] /\ match_set res (_addr c) = Some []) then _current c else -1).
Proof.
  unfold Cache_Set. destruct res as [|a res]; [done|].
  case_match eqn:E; [case_match|]; cbn [_addr _current]; subst.
  - apply match_set_some in E as E'. rewrite bool_decide_eq_true_2 by done. split; [|done].
    intros b. by rewrite (proj2 E' b).
  - by rewrite bool_decide_eq_false_2 by (intros [_ ?]; congruence).
  - by rewrite bool_decide_eq_false_2 by (intros [_ ?]; congruence).
Qed.

(** ** Picking *)

Lemma Pick_sequential_some c a l : _addr c = a :: l -> -1 <= _current c < zlen (_addr c) ->
  exists b, _addr c !! Z.to_nat ((_current c + 1) mod zlen (_addr c)) = Some b /\
    Pick kSequential [] c = Ok (mkCache (_addr c) (_resolved c) ((_current c + 1) mod zlen (_addr c)) (_resolving c), Some b).
Proof.
  intros Ha Hc. unfold Pick. rewrite Ha in *. pose proof (zlen_nonneg l) as Hl. pose proof (zlen_cons a l) as El.
  pose proof (Z.mod_pos_bound (_current c + 1) (zlen (a :: l)) ltac:(lia)) as Hb.
  destruct (lookup_lt_is_Some_2 (a :: l) (Z.to_nat ((_current c + 1) mod zlen (a :: l)))) as [b Eb]; [unfold zlen in *; lia|].
  exists b. split; [done|]. destruct (Z.eqb_spec (zlen (a :: l)) 1) as [E1|E1].
  - rewrite E1, Z.mod_1_r in Eb |- *. cbn in Eb |- *. by injection Eb as <-.
  - rewrite Z.rem_mod_nonneg by lia. rewrite Eb. by destruct (Z.ltb_spec ((_current c + 1) mod zlen (a :: l)) 0); [lia|].
Qed.

End Resolver.

Abbreviation Inv := (InvX None).

(** C25: the threads that resolve host names, in any order, wake-ups without
    reason and a Clear at any moment included: no entry is being asked for by
    two threads; whoever asks has its entry, which is marked, until it gives it
    back, and so has whoever sleeps on one; every marked entry is somebody's,
    who will wake the sleepers.  A step fails only where a thread behind its
    Wait finds that its entry was deleted, or where a random address is
    picked. *)
Theorem resolver_exclusive {A} `{EqDecision A} (RAND_MAX : Z) (inet_pton : bool -> bytes -> option A) (now : Z) (n : nat)
  (l : list (event (A := A))) (w : world) :
  run_events RAND_MAX inet_pton l (start now n) = Ok w ->
  (forall u v x y p, threads w !! u = Some x -> threads w !! v = Some y ->
     holder x = Some p -> holder y = Some p -> u = v) /\
  (forall u x p, threads w !! u = Some x -> holder x = Some p \/ sleeps_on x = Some p ->
     exists c, deref p (resolver w) = Ok c /\ _resolving c = true) /\
  (forall k m c, address (resolver w) !! k = Some (m, c) -> _resolving c = true ->
     exists u x, threads w !! u = Some x /\ holder x = Some (k, m)) /\
  (forall e err, exec RAND_MAX inet_pton e w = Err err ->
     (exists t draws p d o, e = EWake t draws /\ threads w !! t = Some (Awake p d o) /\
        deref p (resolver w) = Err err) \/
     event_option e w = Some kRandom).
Proof.
  intros H. pose proof (run_events_inv _ _ _ _ _ (start_inv now n) H) as HI. pose proof HI as (H1 & H2 & H3 & _).
  split_and!.
  - intros u v x y p Hu Hv. by apply (H2 u v x y p).
  - intros u x p Hu Hx. destruct (H1 u x p ltac:(done) Hu Hx) as (c & Hc & Hr). exists c. by rewrite deref_ok.
  - intros k m c Hk Hc. destruct (H3 k m c Hk Hc) as (u & x & _ & Hu). by exists u, x.
  - intros e err He. by eapply exec_fails.
Qed.

(** One after the other, the addresses of an entry are picked in turn,
    each one before the first comes again.  A random pick of an entry with
    more than one address can read past the last one: the random number goes
    up to their number. *)
Theorem resolver_Pick {A} (RAND_MAX : Z) (c : Cache (A := A)) (n : nat) :
  (_addr c <> [] -> -1 <= _current c < zlen (_addr c) ->
   exists c' l, picks RAND_MAX n kSequential c = Ok (c', l) /\ length l = n /\
     forall i, (i < n)%nat -> exists a, l !! i = Some (Some a) /\
       _addr c !! Z.to_nat ((_current c + 1 + Z.of_nat i) mod zlen (_addr c)) = Some a) /\
  (2 <= zlen (_addr c) <= RAND_MAX ->
   exists draws, Forall (fun r => 0 <= r <= RAND_MAX) draws /\ Pick RAND_MAX kRandom draws c = Err undefined_behaviour).
Proof.
  split.
  - intros Ha. revert c Ha. induction n as [|n IH]; intros c Ha Hc.
    { exists c, []. split_and!; [done|done|lia]. }
    destruct (_addr c) as [|a0 l0] eqn:Hl; [done|]. rewrite <- Hl in *.
    destruct (Pick_sequential_some RAND_MAX c a0 l0 Hl Hc) as (b & Hb & HP). cbn [picks]. rewrite HP. cbn [rbind].
    pose proof (Z.mod_pos_bound (_current c + 1) (zlen (_addr c))) as Hm.
    destruct (IH (mkCache (_addr c) (_resolved c) ((_current c + 1) mod zlen (_addr c)) (_resolving c)))
      as (c' & l & E & El & Hi); [done|cbn; specialize (Hm ltac:(rewrite Hl; pose proof (zlen_nonneg l0); rewrite zlen_cons; lia)); lia|]. rewrite E. cbn.
    exists c', (Some b :: l). split_and!; [done|cbn; lia|]. intros [|i] Hlt.
    + exists b. split; [done|]. by rewrite Z.add_0_r.
    + destruct (Hi i ltac:(lia)) as (a & Ea & Ea'). exists a. split; [done|]. rewrite <- Ea'. cbn [_addr _current]. do 2 f_equal.
      rewrite <- !Z.add_assoc, (Zplus_mod_idemp_l (_current c + 1)). f_equal. lia.
  - intros Hs. exists [zlen (_addr c)]. split; [constructor; [lia|constructor]|]. unfold Pick.
    destruct (_addr c) as [|a l] eqn:Ha; [change (zlen (@nil A)) with 0 in Hs; lia|]. rewrite <- Ha in *.
    destruct (Z.eqb_spec (zlen (_addr c)) 1); [lia|].
    unfold ranged_rand_r. rewrite ranged_rand_bound by lia.
    destruct (Z.ltb_spec (zlen (_addr c)) 0); [done|].
    by rewrite (proj2 (lookup_ge_None (_addr c) (Z.to_nat (zlen (_addr c)))) ltac:(unfold zlen; lia)).
Qed.

(** ** Concrete runs *)

Definition demo_host : key := (false, B "a").

(** No host is a literal address. *)
Definition demo_pton (domain : bool) (hostname : bytes) : option Z := None.

(** Two threads ask for the same host: one asks the system, the other sleeps,
    wakes up and gets the next address. *)
Definition demo_events : list (event (A := Z)) :=
  [ECall 0 false (Some (B "A")) 80 400 kSequential []; ECall 1 false (Some (B "a")) 80 401 kSequential []; ESpurious 1; EWake 1 [];
   EAnswer 0 (Some [7; 8]); ERelock 0 410 []].

Lemma resolver_exclusive_witness : exists w, run_events 32767 demo_pton demo_events (start 0 2) = Ok w /\
  threads w = [Returned (Some 7); Awake (demo_host, O) (401 - kRefreshTime) kSequential] /\
  (forall u v x y p, threads w !! u = Some x -> threads w !! v = Some y ->
     holder x = Some p -> holder y = Some p -> u = v).
Proof.
  eexists. split; [vm_compute; reflexivity|]. split; [reflexivity|].
  refine (proj1 (resolver_exclusive 32767 demo_pton 0 2 demo_events _ _)). vm_compute. reflexivity.
Defined.

Lemma resolver_Pick_witness : exists c' l, picks 32767 5 kSequential (mkCache [7; 8; 9] 0 (-1) false) = Ok (c', l) /\
  l = [Some 7; Some 8; Some 9; Some 7; Some 8] /\ length l = 5%nat.
Proof.
  destruct (resolver_Pick 32767 (mkCache [7; 8; 9] 0 (-1) false) 5) as [H _].
  destruct (H ltac:(done) ltac:(vm_compute; split; congruence)) as (c' & l & E & El & _). exists c', l. split; [exact E|]. split; [|exact El].
  vm_compute in E. injection E as _ <-. reflexivity.
Defined.

(** Clear deletes an entry that nobody resolves, even if a thread is about to
    come back from its Wait for it. *)
Lemma Clear_under_waiter {A} `{EqDecision A} (RAND_MAX : Z) inet_pton (w : world (A := A)) t p d o c draws :
  threads w !! t = Some (Awake p d o) -> deref p (resolver w) = Ok c -> _resolving c = false ->
  run_events RAND_MAX inet_pton [EClear; EWake t draws] w = Err undefined_behaviour.
Proof.
  intros Ht Hp%deref_ok Hc. cbn. rewrite Ht. unfold DoResolve_awake, deref, Clear, delete_entries. cbn.
  rewrite map_lookup_filter_None_2; [done|]. right. intros x Hx. rewrite Hp in Hx. injection Hx as <-. cbn. by rewrite Hc.
Qed.

Example Clear_under_waiter_happens :
  run_events 32767 demo_pton (demo_events ++ [EClear; EWake 1 []]) (start 0 2) = Err undefined_behaviour.
Proof. vm_compute. reflexivity. Qed.
