(* ===== verification/FixedThreadPool.v ===== *)
(** * A pool of threads: thread/fixed_thread_pool.cpp, abstract_thread_pool.cpp, thread.cpp

    The pool is the state its mutex protects; each critical section is one
    step.  A thread and a [Runnable] are known by their addresses.  A thread
    that waits for the condition is a thread whose [RequestJob] returns
    [None].  The ghost logs name the jobs that were taken by a thread and the
    runnables that were deleted. *)

From S2P Require Import Prelude.

(** [internal::ThreadJob] *)
Record ThreadJob : Type := mkThreadJob { runnable : Z; auto_release : bool }.

Record FixedThreadPool : Type := mkPool {
  _initializing : bool;
  _threads : gset Z;
  _actives : gset Z;
  _pending_jobs : list ThreadJob;
  spawned : Z;              (** ghost: the address of the next thread *)
  started : list ThreadJob; (** ghost *)
  deleted : list Z          (** ghost *)
}.

Definition FixedThreadPool_new : FixedThreadPool := mkPool false ∅ ∅ [] 1 [] [].

Definition deletes (jobs : list ThreadJob) : list Z :=
  map runnable (List.filter auto_release jobs).

(** AbstractThreadPool::Purge, on the pending jobs. *)
Definition Purge (p : FixedThreadPool) : FixedThreadPool :=
  mkPool (_initializing p) (_threads p) (_actives p) [] (spawned p) (started p)
    (deleted p ++ deletes (_pending_jobs p)).

Fixpoint Spawn_loop (size : nat) (p : FixedThreadPool) : FixedThreadPool :=
  match size with
  | O => p
  | S n =>
      Spawn_loop n (mkPool (_initializing p) ({[ spawned p ]} ∪ _threads p) (_actives p)
                      (_pending_jobs p) (spawned p + 1) (started p) (deleted p))
  end.

Definition Spawn (size : Z) (p : FixedThreadPool) : result exn FixedThreadPool :=
  if decide (_threads p = ∅) then Ok (Spawn_loop (Z.to_nat size) p) else Err assertion_failed.

Definition Initialize (size : Z) (p : FixedThreadPool) : result exn (bool * FixedThreadPool) :=
  if size =? 0 then Ok (false, p)
  else if _initializing p || negb (bool_decide (_threads p = ∅)) then Ok (false, p)
  else let! p := Spawn size p in Ok (true, p).

(** Shutdown, up to the joins: [inl] is the early return, [inr] the threads to
    terminate and those to join. *)
Definition Shutdown_begin (wait_for_jobs_done : bool) (p : FixedThreadPool)
  : (bool + gset Z * gset Z) * FixedThreadPool :=
  if _initializing p then (inl false, p)
  else if bool_decide (_threads p = ∅) then (inl true, p)
  else
    let p := Purge p in
    let terminated := if wait_for_jobs_done then ∅ else _actives p in
    (inr (terminated, _threads p),
     mkPool true ∅ ∅ (_pending_jobs p) (spawned p) (started p) (deleted p)).

(** After the joins. *)
Definition Shutdown_end (p : FixedThreadPool) : FixedThreadPool :=
  mkPool false (_threads p) (_actives p) (_pending_jobs p) (spawned p) (started p) (deleted p).

(** [None]: nothing yet; [Some None]: the thread must leave. *)
Definition TryRequestJob (p : FixedThreadPool) : option (option ThreadJob) * FixedThreadPool :=
  if _initializing p then (Some None, p)
  else match _pending_jobs p with
       | [] => (None, p)
       | j :: q =>
           (Some (Some j), mkPool (_initializing p) (_threads p) (_actives p) q (spawned p)
                             (started p) (deleted p))
       end.

Definition RequestJob (thread : Z) (p : FixedThreadPool)
  : option (option ThreadJob) * FixedThreadPool :=
  let p := mkPool (_initializing p) (_threads p) (_actives p ∖ {[ thread ]}) (_pending_jobs p)
             (spawned p) (started p) (deleted p) in
  match TryRequestJob p with
  | (Some (Some j), p) =>
      (Some (Some j), mkPool (_initializing p) (_threads p) ({[ thread ]} ∪ _actives p)
                        (_pending_jobs p) (spawned p) (started p ++ [j]) (deleted p))
  | r => r
  end.

(** A null runnable is [None]. *)
Definition AppendJob (r : option Z) (auto_release : bool) (p : FixedThreadPool)
  : result exn (bool * FixedThreadPool) :=
  match r with
  | None => Err assertion_failed
  | Some r =>
      if _initializing p then Ok (false, p)
      else Ok (true, mkPool (_initializing p) (_threads p) (_actives p)
                       (_pending_jobs p ++ [mkThreadJob r auto_release])
                       (spawned p) (started p) (deleted p))
  end.

(** [kill] is what Thread::Kill returns for a thread. *)
Definition KillAll (kill : Z -> bool) (p : FixedThreadPool) : bool :=
  if _initializing p then false else forallb kill (elements (_actives p)).

(** One turn of the loop of Thread::ThreadDaemon, around the job itself. *)
Definition ThreadDaemon_done (j : ThreadJob) (p : FixedThreadPool) : FixedThreadPool :=
  mkPool (_initializing p) (_threads p) (_actives p) (_pending_jobs p) (spawned p) (started p)
    (if auto_release j then deleted p ++ [runnable j] else deleted p).

(** ** Facts *)

(** A pool without threads has no pending job, and it is not shutting down. *)
Definition pool_ok (p : FixedThreadPool) : Prop :=
  _initializing p = false /\ (_threads p = ∅ -> _pending_jobs p = []).

Definition pool_idle (p : FixedThreadPool) : Prop := pool_ok p /\ _threads p = ∅.

Lemma Spawn_loop_pool n : forall p, (forall t, t ∈ _threads p -> t < spawned p) ->
  let p' := Spawn_loop n p in
  _initializing p' = _initializing p /\ _pending_jobs p' = _pending_jobs p /\
  size (_threads p') = (size (_threads p) + n)%nat.
Proof.
  induction n as [|n IH]; intros p Hp; cbn [Spawn_loop]; [split_and!; [done|done|lia]|].
  destruct (IH (mkPool (_initializing p) ({[ spawned p ]} ∪ _threads p) (_actives p)
                  (_pending_jobs p) (spawned p + 1) (started p) (deleted p))) as (? & ? & E).
  - cbn. set_unfold. intros t [->|Ht%Hp]; lia.
  - cbn in *. split_and!; [done|done|]. rewrite E, size_union, size_singleton; [lia|].
    set_unfold. intros t -> Ht%Hp. lia.
Qed.

Lemma Initialize_pool n p : 0 < n -> pool_idle p -> exists p', Initialize n p = Ok (true, p') /\
  _initializing p' = false /\ size (_threads p') = Z.to_nat n /\ _pending_jobs p' = [].
Proof.
  intros Hn [[Hi Hp] Ht]. exists (Spawn_loop (Z.to_nat n) p). unfold Initialize, Spawn.
  rewrite (proj2 (Z.eqb_neq n 0)) by lia. rewrite Hi, bool_decide_true, decide_True by done.
  destruct (Spawn_loop_pool (Z.to_nat n) p) as (Ei & Ep & Es); [by rewrite Ht|].
  rewrite Ei, Ep, Es, Ht. auto.
Qed.

Lemma pool_ended p : pool_ok p -> pool_idle (Shutdown_end (Shutdown_begin true p).2).
Proof.
  intros [Hi Hp]. unfold Shutdown_begin, pool_idle, pool_ok. rewrite Hi. case_bool_decide as E; cbn; auto.
Qed.
