(* ===== verification/KeyedThreadPool.v ===== *)
(** * A pool of threads with a queue each: thread/keyed_thread_pool.cpp

    A job has a key, which chooses the thread that runs it.  The pool is the
    state its mutex protects, each critical section is one step, and a number
    names both a [Context] and the [Thread] made with it.  The theorem: jobs of
    one thread run one at a time, in the order they were appended, and none is
    lost. *)

From S2P Require Import Prelude FixedThreadPool.

(** [_pending_jobs]; the rest is ghost: every job that was appended, the one
    that the thread runs, those that it ran, those that were purged, and the
    runnables that were deleted. *)
Record Context : Type := mkContext {
  _pending_jobs : list ThreadJob;
  appended : list ThreadJob;
  executing : option ThreadJob;
  executed : list ThreadJob;
  purged : list ThreadJob;
  released : list Z
}.

Definition Context_new : Context := mkContext [] [] None [] [] [].

Record KeyedThreadPool : Type := mkPool {
  _initializing : bool;
  _threads : list Z;
  _actives : gset Z;
  contexts : gmap Z Context;   (** the contexts that are alive, or were *)
  freed : gset Z;              (** those that were deleted *)
  next : Z                     (** ghost: the next address *)
}.

Definition KeyedThreadPool_new : KeyedThreadPool := mkPool false [] ∅ ∅ ∅ 1.

Definition with_contexts (m : gmap Z Context) (p : KeyedThreadPool) : KeyedThreadPool :=
  mkPool (_initializing p) (_threads p) (_actives p) m (freed p) (next p).
Definition with_actives (a : gset Z) (p : KeyedThreadPool) : KeyedThreadPool :=
  mkPool (_initializing p) (_threads p) a (contexts p) (freed p) (next p).

(** The context at an address; using a deleted one is undefined. *)
Definition context_at (t : Z) (p : KeyedThreadPool) : result exn Context :=
  match contexts p !! t with
  | Some c => if decide (t ∈ freed p) then Err undefined_behaviour else Ok c
  | None => Err undefined_behaviour
  end.

(** ** Starting *)

Fixpoint Spawn_loop (size : nat) (p : KeyedThreadPool) : KeyedThreadPool :=
  match size with
  | O => p
  | S n =>
      Spawn_loop n (mkPool (_initializing p) (_threads p ++ [next p]) (_actives p)
                      (<[next p := Context_new]> (contexts p)) (freed p) (next p + 1))
  end.

Definition Spawn (size : Z) (p : KeyedThreadPool) : result exn KeyedThreadPool :=
  match _threads p with
  | [] => Ok (Spawn_loop (Z.to_nat size) p)
  | _ => Err assertion_failed
  end.

Definition Initialize (size : Z) (p : KeyedThreadPool) : result exn (bool * KeyedThreadPool) :=
  if size =? 0 then Ok (false, p)
  else if _initializing p || negb (bool_decide (_threads p = [])) then Ok (false, p)
  else let! p := Spawn size p in Ok (true, p).

(** ** Jobs *)

(** A null runnable is [None]; the remainder by an empty pool's size is
    undefined. *)
Definition AppendJobWithKey (key : Z) (r : option Z) (auto_release : bool) (p : KeyedThreadPool)
  : result exn (bool * KeyedThreadPool) :=
  match r with
  | None => Err assertion_failed
  | Some r =>
      if _initializing p then Ok (false, p)
      else
        let size := zlen (_threads p) in
        if size =? 0 then Err undefined_behaviour
        else
          match _threads p !! Z.to_nat (key mod size) with
          | None => Err undefined_behaviour
          | Some t =>
              let! c := context_at t p in
              let j := mkThreadJob r auto_release in
              let c := mkContext (_pending_jobs c ++ [j]) (appended c ++ [j]) (executing c)
                         (executed c) (purged c) (released c) in
              Ok (true, with_contexts (<[t := c]> (contexts p)) p)
          end
  end.

Definition AppendJob (r : option Z) (auto_release : bool) (p : KeyedThreadPool) :=
  AppendJobWithKey 0 r auto_release p.

(** [None]: nothing yet; [Some None]: the thread must leave. *)
Definition TryRequestJob (c : Context) (initializing : bool) : option (option ThreadJob) * Context :=
  if initializing then (Some None, c)
  else match _pending_jobs c with
       | [] => (None, c)
       | j :: q =>
           (Some (Some j), mkContext q (appended c) (Some j) (executed c) (purged c) (released c))
       end.

Definition RequestJob (thread : Z) (p : KeyedThreadPool)
  : result exn (option (option ThreadJob) * KeyedThreadPool) :=
  let p := with_actives (_actives p ∖ {[ thread ]}) p in
  let! c := context_at thread p in
  let (r, c) := TryRequestJob c (_initializing p) in
  let p := with_contexts (<[thread := c]> (contexts p)) p in
  match r with
  | Some (Some j) => Ok (r, with_actives ({[ thread ]} ∪ _actives p) p)
  | _ => Ok (r, p)
  end.

(** One turn of the loop of Thread::ThreadDaemon, after the job ran. *)
Definition ThreadDaemon_done (thread : Z) (p : KeyedThreadPool) : KeyedThreadPool :=
  match contexts p !! thread with
  | Some c =>
      match executing c with
      | Some j =>
          let c := mkContext (_pending_jobs c) (appended c) None (executed c ++ [j]) (purged c)
                     (released c ++ deletes [j]) in
          with_contexts (<[thread := c]> (contexts p)) p
      | None => p
      end
  | None => p
  end.

(** ** Stopping *)

Definition Purge (c : Context) : Context :=
  mkContext [] (appended c) (executing c) (executed c) (purged c ++ _pending_jobs c)
    (released c ++ deletes (_pending_jobs c)).

Fixpoint Purge_all (l : list Z) (p : KeyedThreadPool) : result exn KeyedThreadPool :=
  match l with
  | [] => Ok p
  | t :: l =>
      let! c := context_at t p in
      Purge_all l (with_contexts (<[t := Purge c]> (contexts p)) p)
  end.

(** Up to the joins: [inl] is the early return, [inr] the threads to terminate
    and those to join. *)
Definition Shutdown_begin (wait_for_jobs_done : bool) (p : KeyedThreadPool)
  : result exn ((bool + gset Z * list Z) * KeyedThreadPool) :=
  if _initializing p then Ok (inl false, p)
  else match _threads p with
  | [] => Ok (inl true, p)
  | l =>
      let! p := Purge_all l p in
      let terminated := if wait_for_jobs_done then ∅ else _actives p in
      Ok (inr (terminated, l), mkPool true [] ∅ (contexts p) (freed p) (next p))
  end.

(** Each thread is joined, then deleted with its context. *)
Definition Shutdown_end (joined : list Z) (p : KeyedThreadPool) : KeyedThreadPool :=
  mkPool false (_threads p) (_actives p) (contexts p) (list_to_set joined ∪ freed p) (next p).

Definition KillAll (kill : Z -> bool) (p : KeyedThreadPool) : bool :=
  if _initializing p then false else forallb kill (elements (_actives p)).

(** ** A pool at work *)

(** The pool, what Shutdown waits for while it joins, and the threads that
    left. *)
Record world : Type := mkWorld {
  pool : KeyedThreadPool;
  joining : list Z;
  terminated : gset Z;
  left_ : gset Z
}.

Inductive event : Type :=
| EInitialize (size : Z)
| EAppend (key : Z) (r : Z) (auto : bool)
| ERequest (t : Z)
| EDone (t : Z)
| EShutdown (wait_for_jobs_done : bool)
| EJoined.

Definition exec (e : event) (w : world) : result exn world :=
  let p := pool w in
  match e with
  | EInitialize size =>
      let! (_, p) := Initialize size p in Ok (mkWorld p (joining w) (terminated w) (left_ w))
  | EAppend key r auto =>
      let! (_, p) := AppendJobWithKey key (Some r) auto p in
      Ok (mkWorld p (joining w) (terminated w) (left_ w))
  | ERequest t =>
      let! (r, p) := RequestJob t p in
      Ok (mkWorld p (joining w) (terminated w)
            (match r with Some None => {[ t ]} ∪ left_ w | _ => left_ w end))
  | EDone t => Ok (mkWorld (ThreadDaemon_done t p) (joining w) (terminated w) (left_ w))
  | EShutdown wait =>
      let! (r, p) := Shutdown_begin wait p in
      Ok (match r with
          | inl _ => mkWorld p (joining w) (terminated w) (left_ w)
          | inr (k, l) => mkWorld p l k (left_ w)
          end)
  | EJoined => Ok (mkWorld (Shutdown_end (joining w) p) [] ∅ (left_ w))
  end.

(** When an event can happen: a thread asks for a job when it runs none and did
    not leave; a join ends when its thread left or was terminated. *)
Definition enabled (e : event) (w : world) : Prop :=
  match e with
  | EInitialize size => 0 <= size
  | EAppend key _ _ => 0 <= key /\ (_threads (pool w) <> [] \/ _initializing (pool w) = true)
  | ERequest t =>
      match contexts (pool w) !! t with
      | Some c => executing c = None /\ (t ∉ left_ w) /\ (t ∉ freed (pool w))
      | None => False
      end
  | EDone t =>
      match contexts (pool w) !! t with Some c => is_Some (executing c) | None => False end
  | EShutdown _ => True
  | EJoined => _initializing (pool w) = true /\
      Forall (fun t => t ∈ left_ w \/ t ∈ terminated w) (joining w)
  end.

Fixpoint run_events (l : list event) (w : world) : result exn world :=
  match l with
  | [] => Ok w
  | e :: l => let! w := exec e w in run_events l w
  end.

Fixpoint legal (l : list event) (w : world) : Prop :=
  match l with
  | [] => True
  | e :: l => enabled e w /\ match exec e w with Ok w => legal l w | Err _ => True end
  end.

#[export] Instance enabled_dec e w : Decision (enabled e w).
Proof. destruct e; cbn; try case_match; apply _. Defined.

Fixpoint legal_check (l : list event) (w : world) : bool :=
  match l with
  | [] => true
  | e :: l =>
      bool_decide (enabled e w) && match exec e w with Ok w => legal_check l w | Err _ => true end
  end.

Lemma pool_legal_check_ok l w : legal_check l w = true -> legal l w.
Proof.
  revert w. induction l as [|e l IH]; intros w; cbn [legal_check legal]; [done|].
  intros [H1%bool_decide_eq_true H2]%andb_true_iff. split; [done|].
  destruct (exec e w); [auto|done].
Qed.

Definition fresh_world : world := mkWorld KeyedThreadPool_new [] ∅ ∅.

(** ** The invariant *)

(** The life of the jobs of one thread, in their order. *)
Definition serial (c : Context) : Prop :=
  appended c = executed c ++ option_list (executing c) ++ _pending_jobs c ++ purged c /\
  released c ≡ₚ deletes (executed c ++ purged c).

Definition Inv (w : world) : Prop :=
  let p := pool w in
  (forall t c, contexts p !! t = Some c -> serial c /\ t < next p) /\
  (forall t, t ∈ _threads p -> exists c, contexts p !! t = Some c /\ purged c = [] /\ (t ∉ freed p)) /\
  (forall t c, contexts p !! t = Some c -> t ∉ _threads p -> _pending_jobs c = []) /\
  NoDup (_threads p) /\
  (forall t, t ∈ freed p -> t < next p).

Lemma Keyed_Inv_fresh : Inv fresh_world.
Proof.
  split_and!; cbn.
  - intros t c. by rewrite lookup_empty.
  - by intros t ?%not_elem_of_nil.
  - intros t c. by rewrite lookup_empty.
  - constructor.
  - by intros t ?%not_elem_of_empty.
Qed.

Lemma context_at_ok t p c : contexts p !! t = Some c -> (t ∉ freed p) -> context_at t p = Ok c.
Proof. intros H1 H2. unfold context_at. rewrite H1. by rewrite decide_False. Qed.

(** Changing the context of a thread in a way that keeps it serial. *)
Lemma Inv_update t c c' w p' j k l :
  Inv w -> contexts (pool w) !! t = Some c ->
  contexts p' = <[t := c']> (contexts (pool w)) -> _threads p' = _threads (pool w) ->
  freed p' = freed (pool w) -> next p' = next (pool w) ->
  serial c' -> purged c' = purged c -> (t ∉ _threads (pool w) -> _pending_jobs c' = []) ->
  Inv (mkWorld p' j k l).
Proof.
  intros (I1 & I2 & I3 & I4 & I5) Hc Ec Et Ef En Hs Hp Hq. unfold Inv. cbn [pool].
  rewrite Ec, Et, Ef, En. split_and!; try done.
  - intros t' c0 [[<- <-]|[? H]]%lookup_insert_Some; [split; [done|by apply (I1 t c)]|by apply I1].
  - intros t' Ht'. destruct (I2 t' Ht') as (c0 & E0 & P0 & F0).
    destruct (decide (t = t')) as [->|Hne].
    + rewrite Hc in E0. injection E0 as ->. exists c'. rewrite lookup_insert_eq. split_and!; congruence.
    + exists c0. by rewrite lookup_insert_ne.
  - intros t' c0 [[<- <-]|[? H]]%lookup_insert_Some; [done|by apply I3].
Qed.

Lemma Inv_AppendJob key r auto w : Inv w -> enabled (EAppend key r auto) w ->
  exists b p, AppendJobWithKey key (Some r) auto (pool w) = Ok (b, p) /\
    forall j k l, Inv (mkWorld p j k l).
Proof.
  intros HI [Hk Ht]. pose proof HI as (I1 & I2 & I3 & I4 & I5).
  unfold AppendJobWithKey. destruct (_initializing (pool w)); [by eauto|].
  destruct Ht as [Ht|]; [|done].
  assert (0 < zlen (_threads (pool w))) as Hl.
  { destruct (_threads (pool w)); [done|]. rewrite zlen_cons. pose proof (zlen_nonneg l). lia. }
  rewrite (proj2 (Z.eqb_neq _ _)) by lia.
  destruct (_threads (pool w) !! _) as [t|] eqn:E.
  - apply list_elem_of_lookup_2 in E as E'. destruct (I2 t E') as (c & Ec & Pc & Fc).
    rewrite (context_at_ok _ _ _ Ec Fc). cbn [rbind]. do 2 eexists. split; [done|].
    intros j k l. destruct (I1 t c Ec) as [[S1 S2] _].
    eapply Inv_update; [done|exact Ec|done..| |done|done].
    split; cbn; [|done]. rewrite S1, Pc, !app_nil_r. by rewrite !(assoc (++)).
  - apply lookup_ge_None in E. pose proof (Z.mod_pos_bound key _ Hl). unfold zlen in *. lia.
Qed.

Lemma Inv_Request t w : Inv w -> enabled (ERequest t) w ->
  exists r p, RequestJob t (pool w) = Ok (r, p) /\ (_initializing (pool w) = true -> r = Some None) /\
    forall j k l, Inv (mkWorld p j k l).
Proof.
  intros HI He. cbn [enabled] in He. destruct (contexts (pool w) !! t) as [c|] eqn:Ec; [|done].
  destruct He as (Xc & Lc & Fc). pose proof HI as (I1 & I2 & I3 & I4 & I5).
  destruct (I1 t c Ec) as [[S1 S2] _].
  unfold RequestJob. rewrite (context_at_ok t _ c) by done. cbn [rbind].
  unfold TryRequestJob, with_actives, with_contexts. cbn [_initializing contexts].
  destruct (_initializing (pool w)) eqn:Ei.
  - do 2 eexists. split_and!; [done|done|]. intros j k l.
    eapply Inv_update; [done|exact Ec|done..|exact (proj1 (I1 t c Ec))|done|exact (I3 t c Ec)].
  - destruct (_pending_jobs c) as [|j0 q] eqn:Eq; do 2 eexists; (split_and!; [done|done|]);
      intros j k l.
    + eapply Inv_update; [done|exact Ec|done..|exact (proj1 (I1 t c Ec))|done|done].
    + eapply Inv_update; [done|exact Ec|done..| |done|].
      * split; cbn; [|done]. rewrite S1, Xc. done.
      * intros Ht. pose proof (I3 t c Ec Ht). congruence.
Qed.

Lemma jobs_deletes_app a b : deletes (a ++ b) = deletes a ++ deletes b.
Proof. unfold deletes. by rewrite List.filter_app, map_app. Qed.

Lemma Inv_Done t w : Inv w -> enabled (EDone t) w -> forall j k l,
  Inv (mkWorld (ThreadDaemon_done t (pool w)) j k l).
Proof.
  intros HI He j k l. cbn [enabled] in He. destruct (contexts (pool w) !! t) as [c|] eqn:Ec; [|done].
  destruct He as [x Ex]. pose proof HI as (I1 & _ & I3 & _ & _).
  destruct (I1 t c Ec) as [[S1 S2] _].
  unfold ThreadDaemon_done. rewrite Ec, Ex.
  eapply Inv_update; [done|exact Ec|done..| |done|exact (I3 t c Ec)].
  split; cbn [appended executed executing _pending_jobs purged released].
  - rewrite S1, Ex. cbn. by rewrite <- (assoc (++)).
  - rewrite S2, !jobs_deletes_app. solve_Permutation.
Qed.

(** Purging the queues of threads; the others keep theirs. *)
Lemma Purge_all_ok l p : NoDup l -> (forall t, t ∈ l -> exists c, contexts p !! t = Some c /\ (t ∉ freed p)) ->
  exists p', Purge_all l p = Ok p' /\ _threads p' = _threads p /\ freed p' = freed p /\
    next p' = next p /\ _actives p' = _actives p /\ forall t,
    contexts p' !! t = if decide (t ∈ l) then Purge <$> contexts p !! t else contexts p !! t.
Proof.
  revert p. induction l as [|t l IH]; intros p Hn Hl; cbn [Purge_all].
  - exists p. by split_and!.
  - apply NoDup_cons in Hn as [Ht Hn]. destruct (Hl t) as (c & Ec & Fc); [left|].
    rewrite (context_at_ok _ _ _ Ec Fc). cbn [rbind].
    destruct (IH (with_contexts (<[t := Purge c]> (contexts p)) p) Hn) as (p' & E & ? & ? & ? & ? & H).
    + intros t' Ht'. cbn. rewrite lookup_insert_ne by (intros ->; done). apply Hl. by right.
    + exists p'. split_and!; try done. intros t'. rewrite H. cbn [contexts with_contexts].
      destruct (decide (t' = t)) as [->|Hne].
      * rewrite decide_False, decide_True, lookup_insert_eq, Ec; [done|left|done].
      * rewrite lookup_insert_ne by done. destruct (decide (t' ∈ l)).
        -- by rewrite decide_True by by right.
        -- rewrite decide_False; [done|]. by intros [?|?]%elem_of_cons.
Qed.

Lemma serial_Purge c : serial c -> purged c = [] -> serial (Purge c).
Proof.
  intros [S1 S2] Hp. split; cbn -[deletes].
  - rewrite S1, Hp. cbn. by rewrite app_nil_r.
  - rewrite S2, Hp, !jobs_deletes_app. solve_Permutation.
Qed.

Lemma Inv_Shutdown wait w : Inv w ->
  exists r p, Shutdown_begin wait (pool w) = Ok (r, p) /\ forall j k l, Inv (mkWorld p j k l).
Proof.
  intros HI. pose proof HI as (I1 & I2 & I3 & I4 & I5). unfold Shutdown_begin.
  destruct (_initializing (pool w)); [eauto|]. destruct (_threads (pool w)) as [|t0 l0] eqn:El; [eauto|].
  rewrite <- El in *.
  destruct (Purge_all_ok (_threads (pool w)) (pool w)) as (p & E & E1 & E2 & E3 & E4 & H); [done| |].
  { intros t Ht. destruct (I2 t Ht) as (c & ? & _ & ?). eauto. }
  rewrite E. cbn [rbind]. do 2 eexists. split; [done|]. intros j k l. unfold Inv. cbn [pool].
  cbn [contexts _threads freed next]. rewrite E2, E3. split_and!; try done.
  - intros t c. rewrite H. case_decide as Ht; [|by apply I1].
    destruct (I2 t Ht) as (c0 & Ec & Pc & _). rewrite Ec. intros [= <-].
    split; [|by apply (I1 t c0)]. apply serial_Purge; [by apply (I1 t c0)|done].
  - by intros t ?%not_elem_of_nil.
  - intros t c. rewrite H. case_decide as Ht; [|by intros ? _; eapply I3].
    destruct (contexts (pool w) !! t); [|done]. by intros [= <-].
  - constructor.
Qed.

Lemma Spawn_loop_ok n p : (forall t, t ∈ _threads p -> t < next p) -> NoDup (_threads p) ->
  exists l, _threads (Spawn_loop n p) = _threads p ++ l /\ NoDup (_threads p ++ l) /\
    freed (Spawn_loop n p) = freed p /\ next p <= next (Spawn_loop n p) /\
    (forall t, t ∈ l -> next p <= t < next (Spawn_loop n p)) /\
    (forall t, contexts (Spawn_loop n p) !! t = if decide (t ∈ l) then Some Context_new else contexts p !! t).
Proof.
  revert p. induction n as [|n IH]; intros p Hb Hn; cbn [Spawn_loop].
  - exists []. rewrite app_nil_r. split_and!; try done. by intros t ?%not_elem_of_nil.
  - set (p1 := mkPool _ _ _ _ _ _). destruct (IH p1) as (l & E1 & E2 & E3 & E4 & E5 & E6).
    + cbn. intros t [Ht%Hb| ->%list_elem_of_singleton]%elem_of_app; lia.
    + cbn. apply NoDup_app. split_and!; [done| |apply NoDup_singleton].
      intros t Ht%Hb ->%list_elem_of_singleton. lia.
    + cbn in *. exists (next p :: l). rewrite <- (assoc (++)) in E1, E2.
      split_and!; [done|done|done|lia| |].
      * intros t [ ->|Ht%E5]%elem_of_cons; lia.
      * intros t. rewrite E6. destruct (decide (t = next p)) as [->|Hne].
        -- rewrite (decide_True (P := next p ∈ next p :: l)) by left.
           case_decide; [done|]. apply lookup_insert_eq.
        -- rewrite lookup_insert_ne by done. case_decide.
           ++ by rewrite decide_True by by right.
           ++ rewrite decide_False; [done|]. by intros [?|?]%elem_of_cons.
Qed.

Lemma Inv_Initialize size w : Inv w ->
  exists b p, Initialize size (pool w) = Ok (b, p) /\ forall j k l, Inv (mkWorld p j k l).
Proof.
  intros HI. pose proof HI as (I1 & I2 & I3 & I4 & I5). unfold Initialize.
  destruct (size =? 0); [eauto|]. destruct (_ || _) eqn:E; [eauto|].
  apply orb_false_iff in E as [_ E%negb_false_iff%bool_decide_eq_true]. unfold Spawn. rewrite E.
  cbn [rbind]. do 2 eexists. split; [done|]. intros j k l.
  destruct (Spawn_loop_ok (Z.to_nat size) (pool w)) as (ts & E1 & E2 & E3 & E4 & E5 & E6).
  { intros t Ht. destruct (I2 t Ht) as (c & ? & _). by eapply I1. }
  { done. }
  rewrite E in E1, E2, I2, I3. cbn in E1, E2. unfold Inv. cbn [pool]. rewrite E1, E3. split_and!; try done.
  - intros t c. rewrite E6. case_decide as Ht.
    + intros [= <-]. apply E5 in Ht. split; [done|lia].
    + intros Hc. destruct (I1 t c Hc). split; [done|lia].
  - intros t Ht. exists Context_new. rewrite E6, decide_True by done. split_and!; try done.
    intros Hf%I5. apply E5 in Ht. lia.
  - intros t c. rewrite E6. intros Hc Ht. rewrite decide_False in Hc by done. apply (I3 t); [done|].
    apply not_elem_of_nil.
  - intros t Ht%I5. lia.
Qed.

(** ** Runs *)

Definition Whole (w : world) : Prop :=
  Inv w /\ (_initializing (pool w) = true -> _threads (pool w) = []) /\
  (forall t, t ∈ joining w -> t < next (pool w)).

Lemma Append_frame key r auto p b p' : AppendJobWithKey key (Some r) auto p = Ok (b, p') ->
  _initializing p' = _initializing p /\ _threads p' = _threads p /\ next p' = next p.
Proof.
  unfold AppendJobWithKey, rbind. intros H. repeat case_match; simplify_eq; done.
Qed.

Lemma Request_frame t p r p' : RequestJob t p = Ok (r, p') ->
  _initializing p' = _initializing p /\ _threads p' = _threads p /\ next p' = next p.
Proof. unfold RequestJob, rbind. intros H. repeat case_match; simplify_eq; done. Qed.

Lemma Done_frame t p :
  _initializing (ThreadDaemon_done t p) = _initializing p /\
  _threads (ThreadDaemon_done t p) = _threads p /\ next (ThreadDaemon_done t p) = next p.
Proof. unfold ThreadDaemon_done. repeat case_match; done. Qed.

Lemma Whole_Shutdown wait w : Whole w -> exists w', exec (EShutdown wait) w = Ok w' /\ Whole w'.
Proof.
  intros (HI & Hi & Hj). cbn [exec]. pose proof HI as (I1 & I2 & I3 & I4 & I5).
  destruct (Inv_Shutdown wait w HI) as (r & p & E & HI'). rewrite E. cbn [rbind].
  eexists. split; [done|]. revert E. unfold Shutdown_begin.
  destruct (_initializing (pool w)) eqn:Ei; [intros [= <- <-]; split_and!; [apply HI'|intros _; by apply Hi|exact Hj]|].
  destruct (_threads (pool w)) as [|t0 l0] eqn:El; [intros [= <- <-]; split_and!; [apply HI'|by cbn; rewrite Ei|done]|].
  rewrite <- El in *.
  destruct (Purge_all_ok (_threads (pool w)) (pool w)) as (p1 & E & E1 & E2 & E3 & E4 & _); [done| |].
  { intros t Ht. destruct (I2 t Ht) as (c & ? & _ & ?). eauto. }
  rewrite E. cbn [rbind]. intros [= <- <-]. split_and!; [apply HI'|done|]. cbn. rewrite E3.
  intros t Ht. destruct (I2 t Ht) as (c & Ec & _). by apply (I1 t c).
Qed.

Lemma Whole_Joined w : Whole w -> _initializing (pool w) = true ->
  Whole (mkWorld (Shutdown_end (joining w) (pool w)) [] ∅ (left_ w)).
Proof.
  intros ((I1 & I2 & I3 & I4 & I5) & Hi & Hj) Ei. specialize (Hi Ei).
  unfold Whole, Inv. cbn. rewrite Hi in *. split_and!; try done.
  - by intros t ?%not_elem_of_nil.
  - intros t [Ht%elem_of_list_to_set|Ht]%elem_of_union; auto.
  - by intros t ?%not_elem_of_nil.
Qed.

Lemma Whole_step e w : Whole w -> enabled e w -> exists w', exec e w = Ok w' /\ Whole w'.
Proof.
  intros HW He. pose proof HW as (HI & Hi & Hj).
  destruct e; [..|by apply Whole_Shutdown|destruct He as [Ei _]; eauto using Whole_Joined]; cbn [exec].
  - destruct (Inv_Initialize size w HI) as (b & p & E & HI'). rewrite E. cbn [rbind].
    eexists. split; [done|]. revert E. unfold Initialize.
    destruct (size =? 0); [by intros [= <- <-]|]. destruct (_ || _) eqn:Eo; [by intros [= <- <-]|].
    apply orb_false_iff in Eo as [Ei Et%negb_false_iff%bool_decide_eq_true]. unfold Spawn. rewrite Et.
    cbn [rbind]. intros [= <- <-].
    destruct (Spawn_loop_ok (Z.to_nat size) (pool w)) as (l & E1 & E2 & E3 & E4 & E5 & E6).
    { rewrite Et. by intros t ?%not_elem_of_nil. }
    { rewrite Et. constructor. }
    assert (_initializing (Spawn_loop (Z.to_nat size) (pool w)) = false) as Es.
    { rewrite <- Ei. generalize (Z.to_nat size), (pool w). clear.
      induction n as [|n IH]; intros p; cbn [Spawn_loop]; [done|]. by rewrite IH. }
    split_and!; [apply HI'|by cbn; rewrite Es|]. cbn [joining pool]. intros t Ht%Hj. lia.
  - destruct (Inv_AppendJob key r auto w HI He) as (b & p & E & HI'). rewrite E. cbn [rbind].
    eexists. split; [done|]. apply Append_frame in E as (E1 & E2 & E3).
    split_and!; [apply HI'|by cbn; rewrite E1, E2|by cbn; rewrite E3].
  - destruct (Inv_Request t w HI He) as (r & p & E & _ & HI'). rewrite E. cbn [rbind].
    eexists. split; [done|]. apply Request_frame in E as (E1 & E2 & E3).
    split_and!; [apply HI'|by cbn; rewrite E1, E2|by cbn; rewrite E3].
  - eexists. split; [done|]. destruct (Done_frame t (pool w)) as (E1 & E2 & E3).
    split_and!; [by apply Inv_Done|by cbn; rewrite E1, E2|by cbn; rewrite E3].
Qed.

Lemma Whole_run l w : Whole w -> legal l w -> exists w', run_events l w = Ok w' /\ Whole w'.
Proof.
  revert w. induction l as [|e l IH]; intros w HW; cbn [run_events legal]; [eauto|]. intros [He HL].
  destruct (Whole_step e w HW He) as (w' & E & HW'). rewrite E in HL |- *. cbn [rbind]. by apply IH.
Qed.

(** C16: the jobs of one key run one at a time and in order.  Whatever callers
    and threads do, nothing of the pool fails; the jobs that were given to a
    thread are, in their order, those it ran, the one it runs, those that wait
    and those that a shutdown purged, and the runnables deleted are those of
    the first and of the last that asked for it, once each.  A key always goes
    to the same thread, and once Shutdown began every thread that asks is told
    to leave. *)
Theorem keyed_pool_serial (l : list event) : legal l fresh_world ->
  exists w, run_events l fresh_world = Ok w /\
  (forall t c, contexts (pool w) !! t = Some c ->
     appended c = executed c ++ option_list (executing c) ++ _pending_jobs c ++ purged c /\
     released c ≡ₚ deletes (executed c ++ purged c)) /\
  (forall key r auto, 0 <= key -> _initializing (pool w) = false -> _threads (pool w) <> [] ->
     exists t c p, _threads (pool w) !! Z.to_nat (key mod zlen (_threads (pool w))) = Some t /\
       contexts (pool w) !! t = Some c /\
       AppendJobWithKey key (Some r) auto (pool w) = Ok (true, p) /\
       contexts p = <[t := mkContext (_pending_jobs c ++ [mkThreadJob r auto])
                             (appended c ++ [mkThreadJob r auto]) (executing c) (executed c)
                             (purged c) (released c)]> (contexts (pool w))) /\
  (_initializing (pool w) = true -> forall t, enabled (ERequest t) w ->
     exists p, RequestJob t (pool w) = Ok (Some None, p)).
Proof.
  intros HL. destruct (Whole_run l fresh_world) as (w & E & HI & Hi & Hj); [|done|].
  { split_and!; [apply Keyed_Inv_fresh|done|by intros t ?%not_elem_of_nil]. }
  exists w. split; [done|]. pose proof HI as (I1 & I2 & I3 & I4 & I5). split_and!.
  - intros t c Hc. by apply (I1 t c).
  - intros key r auto Hk Ei Ht.
    destruct (Inv_AppendJob key r auto w HI) as (b & p & EA & _); [by split; [|left]|].
    unfold AppendJobWithKey in *. rewrite Ei in *.
    destruct (zlen (_threads (pool w)) =? 0); [done|].
    destruct (_threads (pool w) !! _) as [t|] eqn:El; [|done].
    destruct (I2 t) as (c & Ec & _ & Fc); [by eapply list_elem_of_lookup_2|].
    rewrite (context_at_ok _ _ _ Ec Fc) in *. cbn [rbind] in *.
    exists t, c. eexists. by split_and!.
  - intros Ei t Ht. destruct (Inv_Request t w HI Ht) as (r & p & ER & HR & _).
    rewrite (HR Ei) in ER. by eexists.
Qed.

(** Two threads, three jobs of two keys, and a shutdown that purges one. *)
Definition demo_pool_events : list event :=
  [EInitialize 2; EAppend 4 100 true; EAppend 6 101 false; EAppend 5 102 true; ERequest 1; ERequest 2;
   EDone 1; EAppend 4 103 true; EShutdown true; ERequest 1; EDone 2; ERequest 2; EJoined].

Lemma keyed_pool_serial_witness : legal demo_pool_events fresh_world /\
  exists w, run_events demo_pool_events fresh_world = Ok w /\
  (forall t c, contexts (pool w) !! t = Some c ->
     appended c = executed c ++ option_list (executing c) ++ _pending_jobs c ++ purged c /\
     released c ≡ₚ deletes (executed c ++ purged c)) /\
  (forall key r auto, 0 <= key -> _initializing (pool w) = false -> _threads (pool w) <> [] ->
     exists t c p, _threads (pool w) !! Z.to_nat (key mod zlen (_threads (pool w))) = Some t /\
       contexts (pool w) !! t = Some c /\
       AppendJobWithKey key (Some r) auto (pool w) = Ok (true, p) /\
       contexts p = <[t := mkContext (_pending_jobs c ++ [mkThreadJob r auto])
                             (appended c ++ [mkThreadJob r auto]) (executing c) (executed c)
                             (purged c) (released c)]> (contexts (pool w))) /\
  (_initializing (pool w) = true -> forall t, enabled (ERequest t) w ->
     exists p, RequestJob t (pool w) = Ok (Some None, p)).
Proof.
  assert (legal demo_pool_events fresh_world) as HL.
  { apply pool_legal_check_ok. by vm_compute. }
  split; [exact HL|]. exact (keyed_pool_serial demo_pool_events HL).
Defined.

Example demo_pool_ends :
  match run_events demo_pool_events fresh_world with
  | Ok w => map (fun e => (executed e.2, purged e.2)) (map_to_list (contexts (pool w)))
            = [([mkThreadJob 102 true], []);
               ([mkThreadJob 100 true], [mkThreadJob 101 false; mkThreadJob 103 true])]
  | Err _ => False
  end.
Proof. vm_compute. reflexivity. Qed.
