(* ===== verification/GrowableThreadPool.v ===== *)
(** * A pool that grows and shrinks: thread/growable_thread_pool.cpp

    The pool creates threads when a job finds none idle, and destroys some when
    too many are.  The pool is the state its mutex protects; a thread is a
    number, the state of each thread says where it is in its calls of the pool,
    and a step is what a thread does between taking the mutex and letting go of
    it.  Which sleeper a WakeOne wakes is a choice of the scheduler. *)

From Stdlib Require Import ZifyBool.
From S2P Require Import Prelude FixedThreadPool.

Record GrowableThreadPool : Type := mkPool {
  _actives : gset nat;
  _exited : list nat;
  _threads : gset nat;
  _exits : Z;
  _size : Z;
  _initializing : bool;
  _pending_jobs : list ThreadJob
}.

Definition GrowableThreadPool_new : GrowableThreadPool := mkPool ∅ [] ∅ 0 0 false [].

(** Where a thread is: created, running a job, asleep on _job_available or
    awake from there, asleep on _thread_exited with so many threads left to
    reap or awake from there, or out. *)
Inductive tstate : Type :=
| Starting
| Running (j : ThreadJob)
| Asleep
| Woken
| ReapAsleep (n : Z)
| ReapWoken (n : Z)
| Gone.

(** [joined] are the threads that were reaped and [released] the runnables that
    were deleted (ghosts). *)
Record world : Type := mkWorld {
  pool : GrowableThreadPool;
  states : list tstate;
  joined : list nat;
  released : list Z
}.

Definition fresh_world : world := mkWorld GrowableThreadPool_new [] [] [].

(** ** Conditions *)

Definition on_job (x : tstate) : option tstate :=
  match x with Asleep => Some Woken | _ => None end.
Definition on_exit (x : tstate) : option tstate :=
  match x with ReapAsleep n => Some (ReapWoken n) | _ => None end.

Fixpoint wake_first (f : tstate -> option tstate) (l : list tstate) : list tstate :=
  match l with
  | [] => []
  | x :: l => match f x with Some y => y :: l | None => x :: wake_first f l end
  end.

(** Condition::WakeOne: the thread [ch] if it sleeps there, otherwise another
    one, if any. *)
Definition WakeOne (f : tstate -> option tstate) (ch : nat) (l : list tstate) : list tstate :=
  match l !! ch with
  | Some x => match f x with Some y => <[ch := y]> l | None => wake_first f l end
  | None => wake_first f l
  end.

Definition WakeAll (f : tstate -> option tstate) (l : list tstate) : list tstate :=
  map (fun x => match f x with Some y => y | None => x end) l.

Fixpoint WakeSome (n : nat) (f : tstate -> option tstate) (chs : nat -> nat) (l : list tstate) : list tstate :=
  match n with
  | O => l
  | S n => WakeSome n f chs (WakeOne f (chs n) l)
  end.

(** ** The critical sections *)

Definition Initialize (size : Z) (p : GrowableThreadPool) : bool * GrowableThreadPool :=
  if size =? 0 then (false, p)
  else if _initializing p || negb (bool_decide (_threads p = ∅)) then (false, p)
  else (true, mkPool (_actives p) (_exited p) (_threads p) (_exits p) size (_initializing p) (_pending_jobs p)).

Fixpoint Spawn (size : nat) (p : GrowableThreadPool) (l : list tstate) : GrowableThreadPool * list tstate :=
  match size with
  | O => (p, l)
  | S n =>
      Spawn n (mkPool (_actives p) (_exited p) ({[ length l ]} ∪ _threads p) (_exits p) (_size p)
                 (_initializing p) (_pending_jobs p)) (l ++ [Starting])
  end.

Definition nthreads (p : GrowableThreadPool) : Z := Z.of_nat (size (_threads p)).
Definition nactives (p : GrowableThreadPool) : Z := Z.of_nat (size (_actives p)).

(** A null runnable is [None]. *)
Definition AppendJob (r : option Z) (auto_release : bool) (ch : nat) (w : world) : result exn (bool * world) :=
  match r with
  | None => Err assertion_failed
  | Some r =>
      let p := pool w in
      if _initializing p then Ok (false, w)
      else
        let p := mkPool (_actives p) (_exited p) (_threads p) (_exits p) (_size p) (_initializing p)
                   (_pending_jobs p ++ [mkThreadJob r auto_release]) in
        let remains := u64 (nthreads p - nactives p - _exits p) in
        let '(p, l) := if remains <? zlen (_pending_jobs p) then Spawn (Z.to_nat (_size p)) p (states w)
                       else (p, states w) in
        Ok (true, mkWorld p (WakeOne on_job ch l) (joined w) (released w))
  end.

(** TryRequestJob, then the rest of RequestJob: thread [t] goes to sleep, gets a
    job, or leaves. *)
Definition TakeJob (t ch : nat) (w : world) : world :=
  let p := pool w in
  if negb (_exits p =? 0) then
    let exits := _exits p - 1 in
    let l := <[t := Gone]> (states w) in
    if _initializing p then
      mkWorld (mkPool (_actives p) (_exited p) (_threads p) exits (_size p) (_initializing p) (_pending_jobs p))
              l (joined w) (released w)
    else
      mkWorld (mkPool (_actives p) (_exited p ++ [t]) (_threads p ∖ {[ t ]}) exits (_size p)
                 (_initializing p) (_pending_jobs p))
              (WakeOne on_exit ch l) (joined w) (released w)
  else
    match _pending_jobs p with
    | [] => mkWorld p (<[t := Asleep]> (states w)) (joined w) (released w)
    | j :: q =>
        mkWorld (mkPool ({[ t ]} ∪ _actives p) (_exited p) (_threads p) (_exits p) (_size p)
                   (_initializing p) q)
                (<[t := Running j]> (states w)) (joined w) (released w)
    end.

(** How many threads MaybeShrink decides to destroy; 0: none. *)
Definition MaybeShrink_exits (p : GrowableThreadPool) : result exn Z :=
  if _initializing p then Ok 0
  else
    if _size p =? 0 then Err undefined_behaviour
    else
      let extra := _size p / 2 + _size p mod 2 in
      let threshold := u64 (_size p + extra) in
      let idles := u64 (nthreads p - nactives p - zlen (_pending_jobs p) - _exits p) in
      if idles <? threshold then Ok 0
      else
        let exits := idles / _size p * _size p in
        Ok (if idles mod _size p =? 0 then exits - _size p else exits).

(** The loop of MaybeShrink: reap what there is; [Some n]: [n] are left and
    there is nothing to reap. *)
Fixpoint Reap (n : Z) (exited : list nat) (joined : list nat) : option Z * list nat * list nat :=
  match exited with
  | [] => (Some n, [], joined)
  | t :: q =>
      let joined := joined ++ [t] in
      if n - 1 =? 0 then (None, q, joined) else Reap (n - 1) q joined
  end.

Definition with_exited (e : list nat) (p : GrowableThreadPool) : GrowableThreadPool :=
  mkPool (_actives p) e (_threads p) (_exits p) (_size p) (_initializing p) (_pending_jobs p).

(** From the loop on. *)
Definition ReapThenTake (t ch : nat) (n : Z) (w : world) : world :=
  let '(r, e, j) := Reap n (_exited (pool w)) (joined w) in
  let w := mkWorld (with_exited e (pool w)) (states w) j (released w) in
  match r with
  | Some n => mkWorld (pool w) (<[t := ReapAsleep n]> (states w)) (joined w) (released w)
  | None => TakeJob t ch w
  end.

(** RequestJob from its beginning. *)
Definition RequestJob (t ch : nat) (chs : nat -> nat) (w : world) : result exn world :=
  let p := pool w in
  let p := mkPool (_actives p ∖ {[ t ]}) (_exited p) (_threads p) (_exits p) (_size p)
             (_initializing p) (_pending_jobs p) in
  let! exits := MaybeShrink_exits p in
  if exits =? 0 then Ok (TakeJob t ch (mkWorld p (states w) (joined w) (released w)))
  else
    let p := mkPool (_actives p) (_exited p) (_threads p) (_exits p + exits) (_size p)
               (_initializing p) (_pending_jobs p) in
    let l := WakeSome (Z.to_nat (_size p)) on_job chs (<[t := ReapWoken exits]> (states w)) in
    Ok (ReapThenTake t ch exits (mkWorld p l (joined w) (released w))).

(** ThreadDaemon after a job ran. *)
Definition finish (j : ThreadJob) (w : world) : world :=
  mkWorld (pool w) (states w) (joined w) (released w ++ deletes [j]).

(** Shutdown up to the joins; a thread that is terminated stops at once. *)
Definition Shutdown_begin (wait_for_jobs_done : bool) (w : world) : option bool * world :=
  let p := pool w in
  if _initializing p then (Some false, w)
  else if bool_decide (_threads p = ∅) then (Some true, w)
  else
    let exits := nthreads p in
    let '(exits, l) :=
      if wait_for_jobs_done then (exits, states w)
      else (exits - nactives p,
            map (fun x => match x with Running _ => Gone | x => x end) (states w)) in
    (None, mkWorld (mkPool ∅ (_exited p) ∅ exits (_size p) true [])
             (WakeAll on_job l) (joined w) (released w ++ deletes (_pending_jobs p))).

(** After the joins. *)
Definition Shutdown_end (w : world) : world :=
  let p := pool w in
  mkWorld (mkPool (_actives p) (_exited p) (_threads p) (_exits p) (_size p) false (_pending_jobs p))
    (states w) (joined w) (released w).

Definition KillAll (kill : nat -> bool) (p : GrowableThreadPool) : bool :=
  if _initializing p then false else forallb kill (elements (_actives p)).

(** ** A pool at work *)

Inductive event : Type :=
| EInitialize (size : Z)
| EAppend (r : Z) (auto : bool) (ch : nat)
| EStep (t ch : nat) (chs : nat -> nat)   (** a thread that is awake goes on *)
| EDone (t ch : nat) (chs : nat -> nat)   (** a job ends *)
| ESpurious (t : nat)              (** a thread wakes up by itself *)
| EShutdown (wait_for_jobs_done : bool)
| EJoined.

Definition exec (e : event) (w : world) : result exn world :=
  match e with
  | EInitialize size => Ok (mkWorld (Initialize size (pool w)).2 (states w) (joined w) (released w))
  | EAppend r auto ch => let! (_, w) := AppendJob (Some r) auto ch w in Ok w
  | EStep t ch chs =>
      match states w !! t with
      | Some Starting => RequestJob t ch chs w
      | Some Woken => Ok (TakeJob t ch w)
      | Some (ReapWoken n) => Ok (ReapThenTake t ch n w)
      | _ => Ok w
      end
  | EDone t ch chs =>
      match states w !! t with
      | Some (Running j) => RequestJob t ch chs (finish j w)
      | _ => Ok w
      end
  | ESpurious t =>
      match states w !! t with
      | Some Asleep => Ok (mkWorld (pool w) (<[t := Woken]> (states w)) (joined w) (released w))
      | Some (ReapAsleep n) =>
          Ok (mkWorld (pool w) (<[t := ReapWoken n]> (states w)) (joined w) (released w))
      | _ => Ok w
      end
  | EShutdown wait => Ok (Shutdown_begin wait w).2
  | EJoined => Ok (Shutdown_end w)
  end.

Definition is_reaper (x : tstate) : bool :=
  match x with ReapAsleep _ | ReapWoken _ => true | _ => false end.
Definition is_gone (x : tstate) : bool := match x with Gone => true | _ => false end.

(** Jobs are appended to a pool that was initialized; Shutdown is not called
    while a thread reaps others (it would never end); the joins end when the
    threads are gone. *)
Definition enabled (e : event) (w : world) : bool :=
  match e with
  | EInitialize size => (0 <=? size) && (size <? 2 ^ 32)
  | EAppend _ _ _ => (0 <? _size (pool w)) && (zlen (_pending_jobs (pool w)) <? 2 ^ 62)
  | EShutdown _ => negb (existsb is_reaper (states w))
  | EJoined => _initializing (pool w) && forallb is_gone (states w)
  | _ => true
  end.

Fixpoint run_events (l : list event) (w : world) : result exn world :=
  match l with
  | [] => Ok w
  | e :: l => let! w := exec e w in run_events l w
  end.

Fixpoint legal (l : list event) (w : world) : bool :=
  match l with
  | [] => true
  | e :: l => enabled e w && match exec e w with Ok w => legal l w | Err _ => true end
  end.

(** ** Totals over the threads *)

Fixpoint total (f : tstate -> Z) (l : list tstate) : Z :=
  match l with [] => 0 | x :: l => f x + total f l end.

Definition f_live (x : tstate) : Z := match x with Gone => 0 | _ => 1 end.
Definition f_running (x : tstate) : Z := match x with Running _ => 1 | _ => 0 end.
Definition f_starting (x : tstate) : Z := match x with Starting => 1 | _ => 0 end.
Definition f_asleep (x : tstate) : Z := match x with Asleep => 1 | _ => 0 end.
Definition f_woken (x : tstate) : Z := match x with Woken => 1 | _ => 0 end.
Definition f_reap_asleep (x : tstate) : Z := match x with ReapAsleep _ => 1 | _ => 0 end.
Definition f_reap_woken (x : tstate) : Z := match x with ReapWoken _ => 1 | _ => 0 end.
Definition f_need (x : tstate) : Z :=
  match x with ReapAsleep n | ReapWoken n => n | _ => 0 end.

Lemma total_update f l t a b : l !! t = Some a -> total f (<[t := b]> l) = total f l - f a + f b.
Proof.
  revert t. induction l as [|x l IH]; intros [|t] H; try discriminate H.
  - injection H as ->. change (<[0%nat := b]> (a :: l)) with (b :: l). cbn [total]. lia.
  - change (<[S t := b]> (x :: l)) with (x :: <[t := b]> l). cbn [total]. rewrite (IH t H). lia.
Qed.

Lemma total_snoc f l x : total f (l ++ [x]) = total f l + f x.
Proof. induction l as [|y l IH]; cbn; [lia|]. rewrite IH. lia. Qed.

Lemma total_nonneg f l : (forall x, 0 <= f x) -> 0 <= total f l.
Proof. intros H. induction l as [|x l IH]; cbn; [lia|]. specialize (H x). lia. Qed.

Lemma total_pos f l : (forall x, 0 <= f x) -> 0 < total f l -> exists t x, l !! t = Some x /\ 0 < f x.
Proof.
  intros Hf. induction l as [|y l IH]; cbn; [lia|]. intros H. destruct (Z.lt_ge_cases 0 (f y)).
  - exists O. eauto.
  - destruct IH as (t & x & ? & ?); [lia|]. exists (S t). eauto.
Qed.

Lemma total_ge f l t x : (forall x, 0 <= f x) -> l !! t = Some x -> f x <= total f l.
Proof.
  intros Hf. revert t. induction l as [|y l IH]; intros [|t] H; try discriminate H; cbn.
  - injection H as ->. pose proof (total_nonneg f l Hf). lia.
  - specialize (IH t H). specialize (Hf y). lia.
Qed.

(** The threads of [l] that satisfy [P] are those of the set [s]. *)
Definition is_set (P : tstate -> bool) (s : gset nat) (l : list tstate) : Prop :=
  forall t, t ∈ s <-> exists x, l !! t = Some x /\ P x = true.

Lemma is_set_update P s l t a b : is_set P s l -> l !! t = Some a -> P a = P b -> is_set P s (<[t := b]> l).
Proof.
  intros H Ha E t'. rewrite (H t'). destruct (decide (t' = t)) as [->|Hne].
  - rewrite list_lookup_insert_eq by by eapply lookup_lt_Some. split.
    + intros (x & Hx & Px). exists b. simplify_eq. by rewrite <- E.
    + intros (x & [= <-] & Px). exists a. by rewrite E.
  - by rewrite list_lookup_insert_ne.
Qed.

Lemma is_set_remove P s l t a b : is_set P s l -> l !! t = Some a -> P b = false ->
  is_set P (s ∖ {[ t ]}) (<[t := b]> l).
Proof.
  intros H Ha E t'. rewrite elem_of_difference, elem_of_singleton, (H t').
  destruct (decide (t' = t)) as [->|Hne].
  - rewrite list_lookup_insert_eq by by eapply lookup_lt_Some. split; [naive_solver|].
    intros (x & [= <-] & Px). congruence.
  - rewrite list_lookup_insert_ne by done. naive_solver.
Qed.

Lemma is_set_add P s l t a b : is_set P s l -> l !! t = Some a -> P b = true ->
  is_set P ({[ t ]} ∪ s) (<[t := b]> l).
Proof.
  intros H Ha E t'. rewrite elem_of_union, elem_of_singleton, (H t').
  destruct (decide (t' = t)) as [->|Hne].
  - rewrite list_lookup_insert_eq by by eapply lookup_lt_Some. split; [eauto|by left].
  - rewrite list_lookup_insert_ne by done. naive_solver.
Qed.

Lemma lookup_snoc_cases (l : list tstate) t x y :
  (l ++ [x]) !! t = Some y <-> l !! t = Some y \/ (t = length l /\ x = y).
Proof.
  rewrite lookup_app_Some. split; intros [H|H]; auto; right.
  - destruct H as [Hl [Ht Hx]%list_lookup_singleton_Some]. split; [lia|done].
  - destruct H as [-> ->]. by rewrite Nat.sub_diag.
Qed.

Lemma is_set_snoc P s l x : is_set P s l -> P x = true -> is_set P ({[ length l ]} ∪ s) (l ++ [x]).
Proof.
  intros H E t. rewrite elem_of_union, elem_of_singleton, (H t). split.
  - intros [->|(y & Hy & Py)].
    + exists x. rewrite lookup_snoc_cases. auto.
    + exists y. rewrite lookup_snoc_cases. auto.
  - intros (y & [Hy|[-> ->]]%lookup_snoc_cases & Py); eauto.
Qed.

Lemma is_set_snoc_false P s l x : is_set P s l -> P x = false -> is_set P s (l ++ [x]).
Proof.
  intros H E t. rewrite (H t). split.
  - intros (y & Hy & Py). exists y. rewrite lookup_snoc_cases. auto.
  - intros (y & [Hy|[-> ->]]%lookup_snoc_cases & Py); [eauto|congruence].
Qed.

Lemma size_remove (s : gset nat) t : t ∈ s -> Z.of_nat (size (s ∖ {[ t ]})) = Z.of_nat (size s) - 1.
Proof.
  intros H. rewrite size_difference by set_solver. rewrite size_singleton.
  assert (size s <> 0%nat); [|lia]. intros E%size_empty_inv. set_solver.
Qed.

Lemma size_add (s : gset nat) t : (t ∉ s) -> Z.of_nat (size ({[ t ]} ∪ s)) = Z.of_nat (size s) + 1.
Proof. intros H. rewrite size_union, size_singleton by set_solver. lia. Qed.

(** ** The invariant *)

Definition is_live (x : tstate) : bool := negb (is_gone x).
Definition is_running (x : tstate) : bool := match x with Running _ => true | _ => false end.
Definition wf (x : tstate) : Prop :=
  match x with ReapAsleep n | ReapWoken n => 1 <= n | _ => True end.

Definition threshold (size : Z) : Z := size + (size / 2 + size mod 2).

(** The sets are those of the threads that are alive and that run a job. *)
Definition sets_ok (p : GrowableThreadPool) (l : list tstate) : Prop :=
  is_set is_live (_threads p) l /\ nthreads p = total f_live l /\
  is_set is_running (_actives p) l /\ nactives p = total f_running l.

(** Threads that neither run a job, nor are kept for a pending one, nor must
    leave. *)
Definition idles (p : GrowableThreadPool) (l : list tstate) : Z :=
  total f_live l - total f_running l - zlen (_pending_jobs p) - _exits p.

(** What the reapers wait for is what must leave or left; the pool is neither
    short of threads nor has too many; nobody sleeps over work that is not
    [d1], [d2] wake-ups away. *)
Definition numbers (d1 d2 : Z) (p : GrowableThreadPool) (l : list tstate) : Prop :=
  total f_need l = _exits p + zlen (_exited p) /\
  0 <= _exits p /\ 0 <= idles p l /\
  (0 < _size p -> idles p l < threshold (_size p)) /\
  (_size p = 0 -> total f_live l = 0) /\
  (0 < _exits p -> 1 <= idles p l + zlen (_pending_jobs p)) /\
  (0 < total f_asleep l ->
   _exits p + zlen (_pending_jobs p) <= total f_woken l + total f_starting l + d1) /\
  (0 < total f_reap_asleep l -> zlen (_exited p) <= total f_reap_woken l + d2).

Definition NInv (d1 d2 : Z) (p : GrowableThreadPool) (l : list tstate) : Prop :=
  _initializing p = false /\ 0 <= _size p < 2 ^ 32 /\ sets_ok p l /\ Forall wf l /\ numbers d1 d2 p l.

(** While Shutdown joins: everybody leaves. *)
Definition SInv (p : GrowableThreadPool) (l : list tstate) : Prop :=
  _initializing p = true /\ 0 <= _size p < 2 ^ 32 /\
  _threads p = ∅ /\ _actives p = ∅ /\ _pending_jobs p = [] /\ _exited p = [] /\
  _exits p = total f_live l /\ total f_asleep l = 0 /\ Forall (fun x => is_reaper x = false) l.

Definition Inv (w : world) : Prop :=
  NInv 0 0 (pool w) (states w) \/ SInv (pool w) (states w).

Create HintDb pool.

Ltac totals H :=
  rewrite ?(total_update _ _ _ _ _ H) in *;
  cbn [f_live f_running f_starting f_asleep f_woken f_reap_asleep f_reap_woken f_need] in *.

Lemma f_nonneg f : f = f_live \/ f = f_running \/ f = f_starting \/ f = f_asleep \/ f = f_woken \/
  f = f_reap_asleep \/ f = f_reap_woken -> forall l, 0 <= total f l.
Proof.
  intros H l. apply total_nonneg. intros x. decompose [or] H; subst f; destruct x; cbn; lia.
Qed.

Ltac nonneg l :=
  pose proof (f_nonneg f_live ltac:(auto) l);
  pose proof (f_nonneg f_running ltac:(auto) l);
  pose proof (f_nonneg f_starting ltac:(auto 8) l);
  pose proof (f_nonneg f_asleep ltac:(auto 8) l);
  pose proof (f_nonneg f_woken ltac:(auto 8) l);
  pose proof (f_nonneg f_reap_asleep ltac:(auto 8) l);
  pose proof (f_nonneg f_reap_woken ltac:(auto 8) l).

Lemma sets_update p l t a b : sets_ok p l -> l !! t = Some a ->
  is_live a = is_live b -> is_running a = is_running b -> f_live a = f_live b -> f_running a = f_running b ->
  sets_ok p (<[t := b]> l).
Proof.
  intros (H1 & H2 & H3 & H4) Ht E1 E2 E3 E4. split_and!.
  - by eapply is_set_update.
  - rewrite (total_update _ _ _ _ _ Ht). lia.
  - by eapply is_set_update.
  - rewrite (total_update _ _ _ _ _ Ht). lia.
Qed.

Lemma wf_update l t b : Forall wf l -> wf b -> Forall wf (<[t := b]> l).
Proof. intros H Hb. by apply Forall_insert. Qed.

(** The choice of the scheduler does not matter: a sleeper wakes up, if any. *)
Lemma wake_first_spec f l :
  (wake_first f l = l /\ forall t x, l !! t = Some x -> f x = None) \/
  (exists t x y, l !! t = Some x /\ f x = Some y /\ wake_first f l = <[t := y]> l).
Proof.
  induction l as [|x l IH]; cbn; [by left|]. destruct (f x) as [y|] eqn:E.
  - right. by exists O, x, y.
  - destruct IH as [[-> H]|(t & a & b & H1 & H2 & ->)].
    + left. split; [done|]. intros [|t] a; [by intros [= <-]|]. apply H.
    + right. by exists (S t), a, b.
Qed.

Lemma WakeOne_spec f ch l :
  (WakeOne f ch l = l /\ forall t x, l !! t = Some x -> f x = None) \/
  (exists t x y, l !! t = Some x /\ f x = Some y /\ WakeOne f ch l = <[t := y]> l).
Proof.
  unfold WakeOne. destruct (l !! ch) as [x|] eqn:E; [|apply wake_first_spec].
  destruct (f x) as [y|] eqn:Ef; [|apply wake_first_spec]. right. eauto 7.
Qed.

Lemma none_asleep l : (forall t x, l !! t = Some x -> on_job x = None) -> total f_asleep l = 0.
Proof.
  intros H. destruct (Z.lt_ge_cases 0 (total f_asleep l)) as [Hp|Hp].
  - apply total_pos in Hp as (t & x & Hx & Hp); [|intros []; cbn; lia]. apply H in Hx. by destruct x.
  - nonneg l. lia.
Qed.

Lemma none_reap_asleep l : (forall t x, l !! t = Some x -> on_exit x = None) -> total f_reap_asleep l = 0.
Proof.
  intros H. destruct (Z.lt_ge_cases 0 (total f_reap_asleep l)) as [Hp|Hp].
  - apply total_pos in Hp as (t & x & Hx & Hp); [|intros []; cbn; lia]. apply H in Hx. by destruct x.
  - nonneg l. lia.
Qed.

Ltac ninv := refine (conj _ (conj _ (conj _ (conj _ _)))); try first [assumption | reflexivity].

Lemma NInv_WakeOne_job d1 d2 ch p l : NInv (d1 + 1) d2 p l -> NInv d1 d2 p (WakeOne on_job ch l).
Proof.
  intros (H1 & H2 & H3 & H4 & H5).
  destruct (WakeOne_spec on_job ch l) as [[-> HN]|(t & x & y & Hx & Hy & ->)].
  - apply none_asleep in HN. ninv. unfold numbers in *. lia.
  - destruct x; simplify_eq/=. ninv; [by eapply sets_update|by apply wf_update|].
    unfold numbers, idles in *. totals Hx. lia.
Qed.

Lemma NInv_WakeOne_exit d1 d2 ch p l : NInv d1 (d2 + 1) p l -> NInv d1 d2 p (WakeOne on_exit ch l).
Proof.
  intros (H1 & H2 & H3 & H4 & H5).
  destruct (WakeOne_spec on_exit ch l) as [[-> HN]|(t & x & y & Hx & Hy & ->)].
  - apply none_reap_asleep in HN. ninv. unfold numbers in *. lia.
  - destruct x; simplify_eq/=. ninv; [by eapply sets_update| |].
    + apply wf_update; [done|]. by apply (proj1 (Forall_lookup _ _) H4 _ _ Hx).
    + unfold numbers, idles in *. totals Hx. lia.
Qed.

Lemma NInv_WakeSome n d1 d2 chs p l : 0 <= d1 -> NInv (d1 + Z.of_nat n) d2 p l ->
  NInv d1 d2 p (WakeSome n on_job chs l).
Proof.
  intros Hd. revert l. induction n as [|n IH]; intros l H; cbn [WakeSome].
  - by replace (d1 + Z.of_nat 0) with d1 in H by lia.
  - apply IH, NInv_WakeOne_job. by replace (d1 + Z.of_nat n + 1) with (d1 + Z.of_nat (S n)) by lia.
Qed.

(** ** Taking a job *)

Lemma TakeJob_at t ch p l j r x :
  TakeJob t ch (mkWorld p (<[t := x]> l) j r) = TakeJob t ch (mkWorld p l j r).
Proof.
  unfold TakeJob. cbn [pool states joined released].
  destruct (_pending_jobs p); by rewrite !list_insert_insert_eq.
Qed.

Definition wInv (w : world) : Prop := NInv 0 0 (pool w) (states w).

Lemma in_set P s l t x : is_set P s l -> l !! t = Some x -> (t ∈ s <-> P x = true).
Proof.
  intros H Hx. rewrite (H t), Hx. split; [by intros (y & [= <-] & Py)|eauto].
Qed.

Lemma NInv_TakeJob t ch p l j r : NInv 0 0 p l -> l !! t = Some Woken -> wInv (TakeJob t ch (mkWorld p l j r)).
Proof.
  intros (H1 & H2 & H3 & H4 & H5) Ht. pose proof H3 as (S1 & S2 & S3 & S4). unfold TakeJob. cbn [pool states joined released].
  pose proof (in_set _ _ _ _ _ S1 Ht) as It. pose proof (in_set _ _ _ _ _ S3 Ht) as Ir.
  assert (f_woken Woken <= total f_woken l) as Hw by (apply (total_ge _ _ t); [intros []; cbn; lia|done]).
  cbn [f_woken] in Hw. nonneg l.
  destruct (_exits p =? 0) eqn:Ee; cbn [negb].
  - destruct (_pending_jobs p) as [|job q] eqn:Eq.
    + ninv; cbn [pool states]; [by eapply sets_update|by apply wf_update|].
      unfold numbers, idles in *. rewrite Eq in *. totals Ht. change (zlen (@nil ThreadJob)) with 0 in *. lia.
    + ninv; cbn [pool states _threads _actives]; [|by apply wf_update|].
      * split_and!; [by eapply is_set_update| |by eapply is_set_add|];
          unfold nthreads, nactives in *; cbn [_threads _actives]; totals Ht; [lia|].
        rewrite size_add; [lia|]. rewrite Ir. done.
      * unfold numbers, idles in *. rewrite Eq in *. cbn. totals Ht. rewrite zlen_cons in *. lia.
  - rewrite H1. unfold wInv. cbn [pool states]. apply (NInv_WakeOne_exit 0 0).
    ninv; cbn [_threads _actives]; [|by apply wf_update|].
    + split_and!; [by eapply is_set_remove| |by eapply is_set_update|];
        unfold nthreads, nactives in *; cbn [_threads _actives]; totals Ht; [|lia].
      rewrite size_remove; [lia|]. by rewrite It.
    + unfold numbers, idles in *. cbn. totals Ht. rewrite zlen_app. change (zlen [t]) with 1. lia.
Qed.

Lemma Reap_spec n e j : 1 <= n ->
  Reap n e j = if n <=? zlen e then (None, drop (Z.to_nat n) e, j ++ take (Z.to_nat n) e)
               else (Some (n - zlen e), [], j ++ e).
Proof.
  revert n j. induction e as [|t e IH]; intros n j Hn; cbn [Reap].
  - change (zlen (@nil nat)) with 0. replace (n <=? 0) with false by lia. by rewrite app_nil_r, Z.sub_0_r.
  - rewrite zlen_cons. pose proof (zlen_nonneg e). destruct (n - 1 =? 0) eqn:E.
    + replace (n <=? 1 + zlen e) with true by lia. by replace (Z.to_nat n) with 1%nat by lia.
    + rewrite IH by lia. replace (n <=? 1 + zlen e) with (n - 1 <=? zlen e) by lia.
      replace (Z.to_nat n) with (S (Z.to_nat (n - 1))) by lia. cbn [drop take].
      rewrite <- !(assoc (++)). cbn [app]. case_match; [done|]. do 3 f_equal. lia.
Qed.

Lemma zlen_drop {A} n (l : list A) : zlen (drop n l) = Z.max 0 (zlen l - Z.of_nat n).
Proof. unfold zlen. rewrite length_drop. lia. Qed.

Lemma NInv_Reap t ch n p l j r : NInv 0 0 p l -> l !! t = Some (ReapWoken n) ->
  wInv (ReapThenTake t ch n (mkWorld p l j r)).
Proof.
  intros (H1 & H2 & H3 & H4 & H5) Ht.
  assert (1 <= n) as Hn by exact (proj1 (Forall_lookup _ _) H4 _ _ Ht).
  assert (f_reap_woken (ReapWoken n) <= total f_reap_woken l) as Hw
    by (apply (total_ge _ _ t); [intros []; cbn; lia|done]).
  cbn [f_reap_woken] in Hw.
  unfold ReapThenTake. cbn [pool states joined released]. rewrite Reap_spec by done.
  pose proof (zlen_nonneg (_exited p)). destruct (n <=? zlen (_exited p)) eqn:E.
  - rewrite <- (TakeJob_at _ _ _ _ _ _ Woken). apply NInv_TakeJob.
    + ninv; [by eapply sets_update|by apply wf_update|].
      unfold numbers, idles in *. cbn [with_exited _exited _exits _pending_jobs _size]. totals Ht.
      rewrite zlen_drop. lia.
    + apply list_lookup_insert_eq. by eapply lookup_lt_Some.
  - ninv; cbn [pool states]; [by eapply sets_update|apply wf_update; cbn; [done|lia]|].
    unfold numbers, idles in *. cbn [with_exited _exited _exits _pending_jobs _size]. totals Ht.
    rewrite zlen_nil. nonneg l. lia.
Qed.

(** ** Asking for a job *)

Lemma threshold_range s : 0 < s -> s < threshold s <= 2 * s.
Proof.
  intros H. unfold threshold. pose proof (Z.div_mod s 2 ltac:(lia)).
  pose proof (Z.mod_pos_bound s 2 ltac:(lia)). lia.
Qed.

(** At the threshold the pool shrinks by its batch, whatever the rounding. *)
Lemma shrink_by_size s : 0 < s ->
  (if threshold s mod s =? 0 then threshold s / s * s - s else threshold s / s * s) = s.
Proof.
  intros H. pose proof (threshold_range s H) as [H1 H2].
  destruct (decide (threshold s = 2 * s)) as [E|E].
  - rewrite E. rewrite Z.mod_mul, Z.div_mul by lia. cbn. lia.
  - assert (threshold s / s = 1) as D by (symmetry; apply (Z.div_unique _ _ _ (threshold s - s)); lia).
    assert (threshold s mod s = threshold s - s) as M by (symmetry; apply (Z.mod_unique _ _ 1); lia).
    rewrite D, M. replace (threshold s - s =? 0) with false by lia. lia.
Qed.

Lemma u64_small z : 0 <= z < 2 ^ 64 -> u64 z = z.
Proof. intros H. unfold u64. by rewrite Z.mod_small. Qed.

Lemma MaybeShrink_ok p l : sets_ok p l -> _initializing p = false -> 0 < _size p < 2 ^ 32 ->
  0 <= idles p l <= threshold (_size p) ->
  MaybeShrink_exits p = Ok (if idles p l =? threshold (_size p) then _size p else 0).
Proof.
  intros (_ & E1 & _ & E2) Hi Hs Hr. unfold MaybeShrink_exits. rewrite Hi, E1, E2.
  replace (_size p =? 0) with false by lia. pose proof (threshold_range (_size p) ltac:(lia)).
  fold (threshold (_size p)). fold (idles p l). rewrite !u64_small by lia.
  destruct (idles p l =? threshold (_size p)) eqn:E.
  - apply Z.eqb_eq in E as ->. rewrite Z.ltb_irrefl. f_equal. apply shrink_by_size. lia.
  - by replace (idles p l <? threshold (_size p)) with true by lia.
Qed.

Definition without_active (t : nat) (p : GrowableThreadPool) : GrowableThreadPool :=
  mkPool (_actives p ∖ {[ t ]}) (_exited p) (_threads p) (_exits p) (_size p)
    (_initializing p) (_pending_jobs p).

Lemma sets_without_active p l t a x : sets_ok p l -> l !! t = Some a -> is_live a = true ->
  is_live x = true -> is_running x = false -> sets_ok (without_active t p) (<[t := x]> l).
Proof.
  intros (S1 & S2 & S3 & S4) Ht La Lx Rx. pose proof (in_set _ _ _ _ _ S3 Ht) as Ir. split_and!.
  - eapply is_set_update; [exact S1|exact Ht|congruence].
  - rewrite (total_update _ _ _ _ _ Ht). unfold nthreads in *. cbn. destruct a, x; cbn in *; lia || done.
  - by eapply is_set_remove.
  - rewrite (total_update _ _ _ _ _ Ht). unfold nactives in *. cbn.
    destruct (is_running a) eqn:Ra.
    + rewrite size_remove by by apply Ir. destruct a, x; cbn in *; lia || done.
    + rewrite difference_disjoint_L.
      * destruct a, x; cbn in *; lia || done.
      * apply disjoint_singleton_r. by rewrite Ir.
Qed.

Lemma WakeOne_other f ch l t x : l !! t = Some x -> f x = None -> WakeOne f ch l !! t = Some x.
Proof.
  intros Ht Hx. destruct (WakeOne_spec f ch l) as [[-> _]|(t' & a & b & Ha & Hb & ->)]; [done|].
  rewrite list_lookup_insert_ne; [done|]. intros ->. congruence.
Qed.

Lemma WakeSome_other n f chs l t x : l !! t = Some x -> f x = None -> WakeSome n f chs l !! t = Some x.
Proof. revert l. induction n as [|n IH]; intros l Ht Hx; [done|]. apply IH; [by apply WakeOne_other|done]. Qed.

Lemma NInv_RequestJob t ch chs p l j r a : NInv 0 0 p l -> l !! t = Some a ->
  is_running a = true \/ a = Starting ->
  exists w', RequestJob t ch chs (mkWorld p l j r) = Ok w' /\ wInv w' /\
    (a = Starting -> w' = TakeJob t ch (mkWorld (without_active t p) l j r)).
Proof.
  intros (H1 & H2 & H3 & H4 & H5) Ht Ha. nonneg l.
  assert (f_live a <= total f_live l) as Hl by (apply (total_ge _ _ t); [intros []; cbn; lia|done]).
  assert (is_live a = true /\ f_live a = 1 /\ f_need a = 0 /\ f_asleep a = 0 /\ f_woken a = 0 /\
    f_reap_asleep a = 0 /\ f_reap_woken a = 0 /\ f_running a + f_starting a = 1) as (La & A1 & A2 & A3 & A4 & A5 & A6 & A7).
  { destruct Ha as [Ha| ->]; [destruct a; try discriminate Ha|]; done. }
  pose proof (sets_without_active p l t a Woken H3 Ht La eq_refl eq_refl) as SW.
  unfold RequestJob. cbn [pool states joined released]. fold (without_active t p).
  assert (idles (without_active t p) (<[t := Woken]> l) = idles p l + f_running a) as EI.
  { unfold idles. cbn. totals Ht. lia. }
  assert (0 < _size p) as Hs by (destruct H5; lia).
  assert (0 <= f_running a <= 1) as Hr by (destruct a; cbn; lia).
  rewrite (MaybeShrink_ok _ _ SW) by (cbn; rewrite ?EI; unfold numbers in H5; lia). cbn [rbind].
  change (_size (without_active t p)) with (_size p). rewrite EI.
  destruct (idles p l + f_running a =? threshold (_size p)) eqn:E.
  - replace (_size p =? 0) with false by lia. eexists. split; [done|]. split.
    + assert (<[t := ReapWoken (_size p)]> l !! t = Some (ReapWoken (_size p))) as Hl'.
      { apply list_lookup_insert_eq. by eapply lookup_lt_Some. }
      apply NInv_Reap; [|by apply WakeSome_other]. apply NInv_WakeSome; [done|].
      ninv; [|apply wf_update; cbn; [done|lia]|].
      * exact (sets_without_active p l t a (ReapWoken (_size p)) H3 Ht La eq_refl eq_refl).
      * pose proof (threshold_range (_size p) Hs). pose proof (zlen_nonneg (_pending_jobs p)). unfold numbers, idles in *. cbn. totals Ht. lia.
    + intros ->. cbn in *. unfold numbers in H5. lia.
  - cbn [Z.eqb]. eexists. split; [done|]. split; [|done].
    rewrite <- (TakeJob_at _ _ _ _ _ _ Woken). apply NInv_TakeJob.
    + ninv; [by apply wf_update|]. unfold numbers in *. rewrite EI. cbn. totals Ht. lia.
    + apply list_lookup_insert_eq. by eapply lookup_lt_Some.
Qed.

(** ** The other methods *)

Lemma Spawn_ok n p l : sets_ok p l ->
  let '(p', l') := Spawn n p l in
  sets_ok p' l' /\ l' = l ++ replicate n Starting /\ _exits p' = _exits p /\ _exited p' = _exited p /\
  _pending_jobs p' = _pending_jobs p /\ _size p' = _size p /\ _initializing p' = _initializing p.
Proof.
  revert p l. induction n as [|n IH]; intros p l H; cbn [Spawn]; [by rewrite app_nil_r; split_and!|].
  destruct H as (S1 & S2 & S3 & S4).
  set (p1 := mkPool _ _ _ _ _ _ _). specialize (IH p1 (l ++ [Starting])).
  destruct (Spawn n p1 (l ++ [Starting])) as [p' l'].
  destruct IH as (H & -> & H2); [|split; [exact H|]; split; [by rewrite <- (assoc (++))|exact H2]].
  split_and!; [by apply is_set_snoc| |by apply is_set_snoc_false|].
  - rewrite total_snoc. unfold nthreads in *. cbn [_threads p1]. rewrite size_add; [cbn; lia|].
    intros (x & Hx%lookup_lt_Some & _)%S1. lia.
  - rewrite total_snoc. unfold nactives in *. cbn. lia.
Qed.

Lemma total_starting f l n : total f (l ++ replicate n Starting) = total f l + Z.of_nat n * f Starting.
Proof.
  induction l as [|x l IH]; cbn [app total]; [|rewrite IH; lia].
  induction n as [|n IH]; cbn [replicate total]; lia.
Qed.

Lemma NInv_AppendJob r auto ch w : wInv w -> 0 < _size (pool w) -> zlen (_pending_jobs (pool w)) < 2 ^ 62 ->
  exists w', AppendJob (Some r) auto ch w = Ok (true, w') /\ wInv w'.
Proof.
  intros (H1 & H2 & H3 & H4 & H5) Hs Hq. unfold AppendJob. rewrite H1.
  pose proof (zlen_nonneg (_pending_jobs (pool w))).
  set (p1 := mkPool _ _ _ _ _ _ _). assert (sets_ok p1 (states w)) as S1 by exact H3.
  pose proof S1 as (_ & E1 & _ & E2). rewrite E1, E2. change (_exits p1) with (_exits (pool w)).
  pose proof (threshold_range (_size (pool w)) Hs).
  rewrite u64_small by (unfold numbers, idles in H5; lia).
  assert (zlen (_pending_jobs p1) = zlen (_pending_jobs (pool w)) + 1) as EP by (cbn; by rewrite zlen_app).
  rewrite EP. destruct (_ <? _) eqn:E.
  - pose proof (Spawn_ok (Z.to_nat (_size (pool w))) p1 (states w) S1) as HS.
    change (_size p1) with (_size (pool w)). destruct (Spawn _ p1 (states w)) as [p2 l2].
    destruct HS as (S2 & -> & X1 & X2 & X3 & X4 & X5). eexists. split; [done|].
    unfold wInv. cbn [pool states]. apply (NInv_WakeOne_job 0 0). split; [by rewrite X5|]. split; [by rewrite X4|]. split; [done|]. split.
    + apply Forall_app. split; [done|]. by apply Forall_replicate.
    + unfold numbers, idles in *. rewrite X1, X2, X3, X4, EP, !total_starting. cbn. nonneg (states w). lia.
  - eexists. split; [done|]. unfold wInv. cbn [pool states]. apply (NInv_WakeOne_job 0 0). ninv.
    unfold numbers, idles in *. rewrite EP. cbn. lia.
Qed.

Lemma NInv_Spurious t w x y : wInv w -> states w !! t = Some x -> on_job x = Some y \/ on_exit x = Some y ->
  NInv 0 0 (pool w) (<[t := y]> (states w)).
Proof.
  intros (H1 & H2 & H3 & H4 & H5) Ht Hy.
  assert (wf y) as Hw.
  { pose proof (proj1 (Forall_lookup _ _) H4 _ _ Ht). destruct x, Hy; by simplify_eq/=. }
  ninv; [|by apply wf_update|].
  - eapply sets_update; [done|exact Ht|..]; destruct x, Hy; by simplify_eq/=.
  - destruct x, Hy; simplify_eq/=; unfold numbers, idles in *; totals Ht; lia.
Qed.

Lemma total_map f g l : total f (map g l) = total (fun x => f (g x)) l.
Proof. induction l as [|x l IH]; cbn; [done|]. by rewrite IH. Qed.

Lemma total_ext f g l : (forall x, f x = g x) -> total f l = total g l.
Proof. intros H. induction l as [|x l IH]; cbn; [done|]. by rewrite IH, H. Qed.

Lemma total_sub f g l : total (fun x => f x - g x) l = total f l - total g l.
Proof. induction l as [|x l IH]; cbn; [done|]. lia. Qed.

Lemma total_zero f l : (forall x, x ∈ l -> f x = 0) -> total f l = 0.
Proof.
  induction l as [|x l IH]; intros H; cbn; [done|]. rewrite (H x), IH; [done| |by left].
  intros y Hy. apply H. by right.
Qed.

Lemma no_reaper_need l : existsb is_reaper l = false -> total f_need l = 0 /\ Forall (fun x => is_reaper x = false) l.
Proof.
  intros H. assert (forall x, x ∈ l -> is_reaper x = false) as Hx.
  { intros x Hx. destruct (is_reaper x) eqn:E; [|done].
    apply list_elem_of_In in Hx. assert (existsb is_reaper l = true); [|congruence].
    apply existsb_exists. eauto. }
  split; [|by apply Forall_forall]. apply total_zero. intros x Hin. specialize (Hx x Hin). by destruct x.
Qed.

Lemma Shutdown_Inv wait w : wInv w -> existsb is_reaper (states w) = false ->
  Inv (Shutdown_begin wait w).2.
Proof.
  intros HI Hr. pose proof HI as (H1 & H2 & (S1 & S2 & S3 & S4) & H4 & H5). unfold Shutdown_begin. rewrite H1.
  case_bool_decide as Et; [by left|]. right.
  destruct (no_reaper_need _ Hr) as [Hn HF]. unfold numbers in H5.
  pose proof (zlen_nonneg (_exited (pool w))).
  assert (_exited (pool w) = []) as Hx by (apply zlen_zero; lia).
  destruct wait; cbn [snd pool states]; unfold SInv, WakeAll; cbn [_initializing _size _threads _actives _pending_jobs _exited _exits];
    (split; [done|]; split; [done|]; split_and!; try done).
  all: rewrite ?S2, ?S4, ?map_map, ?total_map.
  - apply total_ext. by intros [].
  - apply total_zero. by intros [] _.
  - apply Forall_map. eapply Forall_impl; [exact HF|]. by intros [].
  - rewrite <- total_sub. apply total_ext. by intros [].
  - apply total_zero. by intros [] _.
  - apply Forall_map. eapply Forall_impl; [exact HF|]. by intros [].
Qed.

(** A thread leaves, or ends its job and leaves, while Shutdown joins. *)
Lemma SInv_TakeJob t ch p l j r x : SInv p l -> l !! t = Some x -> is_live x = true -> is_reaper x = false ->
  SInv (pool (TakeJob t ch (mkWorld p l j r))) (states (TakeJob t ch (mkWorld p l j r))).
Proof.
  intros (H1 & H2 & H3 & H4 & H5 & H6 & H7 & H8 & H9) Ht Lx Rx.
  assert (f_live x <= total f_live l) as Hl by (apply (total_ge _ _ t); [intros []; cbn; lia|done]).
  unfold TakeJob. cbn [pool states joined released]. rewrite H1, H5.
  replace (_exits p =? 0) with false by (destruct x; cbn in *; lia || done). cbn [negb pool states].
  unfold SInv. cbn. split; [done|]. split; [done|]. split_and!; try done.
  - totals Ht. destruct x; cbn in *; lia || done.
  - assert (f_asleep x <= total f_asleep l) as Ha by (apply (total_ge _ _ t); [intros []; cbn; lia|done]).
    totals Ht. destruct x; cbn in *; lia || done.
  - by apply Forall_insert.
Qed.

Lemma SInv_step e w : SInv (pool w) (states w) -> enabled e w = true ->
  exists w', exec e w = Ok w' /\ Inv w'.
Proof.
  intros HI He. pose proof HI as (H1 & H2 & H3 & H4 & H5 & H6 & H7 & H8 & H9). destruct w as [p l j r].
  cbn [pool states] in *.
  assert (forall t ch chs x j r, l !! t = Some x -> is_live x = true -> is_reaper x = false ->
    exists w', RequestJob t ch chs (mkWorld p l j r) = Ok w' /\ Inv w') as HR.
  { intros t ch chs x j0 r0 Ht Lx Rx. unfold RequestJob, MaybeShrink_exits. cbn [pool _initializing].
    rewrite H1. cbn [rbind Z.eqb]. eexists. split; [done|]. right.
    eapply SInv_TakeJob; [|exact Ht|done|done].
    unfold SInv. cbn. rewrite H4. split; [done|]. split; [done|]. split_and!; try done. set_solver. }
  destruct e; cbn [exec pool states joined released]; cbn [enabled pool] in He.
  - eexists. split; [done|]. right. unfold Initialize. rewrite H1. by destruct (size =? 0).
  - unfold AppendJob. cbn [pool]. rewrite H1. cbn [rbind]. eexists. split; [done|]. by right.
  - destruct (l !! t) as [[]|] eqn:Ht; try (eexists; split; [done|by right]); [by eapply HR|..].
    + eexists. split; [done|]. right. by eapply SInv_TakeJob.
    + apply (proj1 (Forall_lookup _ _) H9) in Ht. done.
  - destruct (l !! t) as [[]|] eqn:Ht; try (eexists; split; [done|by right]). by eapply HR.
  - destruct (l !! t) as [[]|] eqn:Ht; try (eexists; split; [done|by right]).
    + assert (f_asleep Asleep <= total f_asleep l) as Ha by (apply (total_ge _ _ t); [intros []; cbn; lia|done]).
      cbn in Ha. lia.
    + apply (proj1 (Forall_lookup _ _) H9) in Ht. done.
  - unfold Shutdown_begin. cbn [pool]. rewrite H1. eexists. split; [done|]. by right.
  - apply andb_true_iff in He as [_ Hg]. eexists. split; [done|]. left.
    assert (forall x, x ∈ l -> x = Gone) as HG.
    { intros x Hx%list_elem_of_In. rewrite forallb_forall in Hg. specialize (Hg x Hx). by destruct x. }
    assert (forall f, f Gone = 0 -> total f l = 0) as HZ.
    { intros f Hf. apply total_zero. intros x Hx. by rewrite (HG x Hx). }
    rewrite (HZ f_live) in H7 by done. unfold Shutdown_end. cbn.
    assert (forall P, P Gone = false -> is_set P ∅ l) as HS.
    { intros P HP t. split; [set_solver|]. intros (x & Hx%list_elem_of_lookup_2 & Px).
      rewrite (HG x Hx) in Px. congruence. }
    ninv; [rewrite H3, H4; split_and!| |].
    + by apply HS.
    + by rewrite HZ.
    + by apply HS.
    + by rewrite HZ.
    + apply Forall_forall. intros x Hx. by rewrite (HG x Hx).
    + unfold numbers, idles. cbn. rewrite H5, H6, H7, !HZ by done. cbn.
      change (zlen (@nil ThreadJob)) with 0. change (zlen (@nil nat)) with 0. pose proof (threshold_range (_size p)). lia.
Qed.

(** A step of a pool that is not shutting down. *)
Lemma NInv_Initialize size w : wInv w -> 0 <= size < 2 ^ 32 ->
  NInv 0 0 (Initialize size (pool w)).2 (states w).
Proof.
  intros HI Hs. pose proof HI as (H1 & H2 & (S1 & S2 & S3 & S4) & H4 & H5). unfold Initialize.
  destruct (size =? 0) eqn:E; [done|]. rewrite H1. case_bool_decide as Et; [|done].
  assert (total f_live (states w) = 0) as E0 by (rewrite <- S2; unfold nthreads; by rewrite Et).
  cbn [orb negb snd]. ninv; [done|]. unfold numbers, idles in *. cbn. nonneg (states w).
  pose proof (zlen_nonneg (_pending_jobs (pool w))). pose proof (threshold_range size). lia.
Qed.

Lemma NInv_step e w : wInv w -> enabled e w = true -> exists w', exec e w = Ok w' /\ Inv w'.
Proof.
  intros HI He. assert (_initializing (pool w) = false) as Hi by apply HI.
  assert (Inv w) as HW by by left. destruct w as [p l j r].
  destruct e; cbn [exec pool states joined released] in *; cbn [enabled pool states] in He.
  - eexists. split; [done|]. left. apply (NInv_Initialize size (mkWorld p l j r)); [done|lia].
  - destruct (NInv_AppendJob r0 auto ch _ HI) as (w' & -> & Hw); cbn [pool]; [lia..|].
    eexists. split; [done|]. by left.
  - destruct (l !! t) as [[]|] eqn:Ht; try (eexists; split; [done|exact HW]).
    + destruct (NInv_RequestJob t ch chs p l j r Starting) as (w' & -> & Hw & _); auto.
      eexists. split; [done|]. by left.
    + eexists. split; [done|]. left. by apply NInv_TakeJob.
    + eexists. split; [done|]. left. by apply NInv_Reap.
  - destruct (l !! t) as [[]|] eqn:Ht; try (eexists; split; [done|exact HW]). unfold finish.
    cbn [pool states joined released].
    edestruct (NInv_RequestJob t ch chs p l j (r ++ deletes [j0])) as (w' & -> & Hw & _);
      [exact HI|exact Ht|by left|]. eexists. split; [done|]. by left.
  - destruct (l !! t) as [[]|] eqn:Ht; try (eexists; split; [done|exact HW]);
      (eexists; split; [done|]; left); eapply (NInv_Spurious t (mkWorld p l j r)); eauto.
  - eexists. split; [done|]. apply Shutdown_Inv; [done|]. by apply negb_true_iff in He.
  - by rewrite Hi in He.
Qed.

Lemma Pool_Inv_step e w : Inv w -> enabled e w = true -> exists w', exec e w = Ok w' /\ Inv w'.
Proof. intros [H|H]; [by apply NInv_step|by apply SInv_step]. Qed.

Lemma Pool_Inv_run l w : Inv w -> legal l w = true -> exists w', run_events l w = Ok w' /\ Inv w'.
Proof.
  revert w. induction l as [|e l IH]; intros w HI HL; cbn [run_events legal] in *; [eauto|].
  apply andb_true_iff in HL as [He HL]. destruct (Pool_Inv_step e w HI He) as (w1 & E1 & HI1).
  rewrite E1 in *. cbn [rbind]. by apply IH.
Qed.

Lemma Pool_Inv_fresh : Inv fresh_world.
Proof.
  left. ninv; [done|split_and!| |by cbv -[Z.lt Z.le]; lia]; try done; intros t; cbn; set_solver.
Qed.

(** ** Progress *)

Definition f_awake (x : tstate) : Z :=
  match x with Starting | Woken | ReapWoken _ => 1 | _ => 0 end.

Definition awake (t : nat) (w : world) : bool :=
  match states w !! t with Some x => f_awake x =? 1 | None => false end.

(** The steps that are left before the pool is at rest, at most. *)
Definition effort (w : world) : Z := total f_awake (states w) + 2 * _exits (pool w).

Lemma effort_nonneg w : Inv w -> 0 <= effort w.
Proof.
  assert (0 <= total f_awake (states w)) by (apply total_nonneg; intros []; cbn; lia).
  nonneg (states w). unfold effort.
  intros [(_ & _ & _ & _ & HN)|(_ & _ & _ & _ & _ & _ & HE & _)]; [unfold numbers in HN|]; lia.
Qed.

Lemma WakeOne_awake ch l : total f_awake (WakeOne on_exit ch l) <= total f_awake l + 1.
Proof.
  destruct (WakeOne_spec on_exit ch l) as [[-> _]|(t & x & y & Hx & Hy & ->)]; [lia|].
  rewrite (total_update _ _ _ _ _ Hx). destruct x; simplify_eq/=. lia.
Qed.

Lemma TakeJob_effort t ch p l j r x : l !! t = Some x -> f_awake x = 1 ->
  effort (TakeJob t ch (mkWorld p l j r)) < effort (mkWorld p l j r).
Proof.
  intros Ht Hx. unfold TakeJob, effort. cbn [pool states joined released].
  pose proof (WakeOne_awake ch (<[t := Gone]> l)) as HW.
  rewrite (total_update _ _ _ _ _ Ht) in HW. cbn [f_awake] in HW.
  destruct (_exits p =? 0) eqn:E; cbn [negb].
  - destruct (_pending_jobs p); cbn [pool states _exits]; rewrite (total_update _ _ _ _ _ Ht); cbn [f_awake]; lia.
  - destruct (_initializing p); cbn [pool states _exits];
      [rewrite (total_update _ _ _ _ _ Ht); cbn [f_awake]|]; lia.
Qed.

Lemma Reap_effort t ch n p l j r : l !! t = Some (ReapWoken n) ->
  effort (ReapThenTake t ch n (mkWorld p l j r)) < effort (mkWorld p l j r).
Proof.
  intros Ht. unfold ReapThenTake. cbn [pool states joined released].
  destruct (Reap n (_exited p) j) as [[[m|] e] j'].
  - unfold effort. cbn [pool states with_exited _exits]. rewrite (total_update _ _ _ _ _ Ht). cbn [f_awake]. lia.
  - eapply Z.lt_le_trans; [by eapply TakeJob_effort|]. by unfold effort.
Qed.

Lemma step_effort t ch chs w : Inv w -> awake t w = true ->
  exists w', exec (EStep t ch chs) w = Ok w' /\ 0 <= effort w' < effort w.
Proof.
  intros HI Ha. destruct (Pool_Inv_step (EStep t ch chs) w HI eq_refl) as (w' & E & HI').
  exists w'. split; [done|]. split; [by apply effort_nonneg|].
  unfold awake in Ha. cbn [exec] in E. destruct w as [p l j r]. cbn [states] in *.
  destruct (l !! t) as [[]|] eqn:Ht; try discriminate Ha; simplify_eq/=.
  - assert (w' = TakeJob t ch (mkWorld (without_active t p) l j r)) as ->.
    { destruct HI as [HI|(Hi & _)].
      - destruct (NInv_RequestJob t ch chs p l j r Starting) as (w1 & E1 & _ & H1); auto.
        rewrite E in E1. injection E1 as ->. auto.
      - unfold RequestJob, MaybeShrink_exits in E. cbn [pool _initializing] in *. rewrite Hi in E.
        cbn [rbind Z.eqb] in E. injection E as <-. unfold without_active. by rewrite Hi. }
    eapply Z.lt_le_trans; [by eapply TakeJob_effort|]. by unfold effort.
  - by eapply TakeJob_effort.
  - by apply Reap_effort.
Qed.

Definition at_rest (w : world) : bool :=
  if _initializing (pool w)
  then forallb (fun x => is_running x || is_gone x) (states w)
  else (zlen (_pending_jobs (pool w)) =? 0) && (_exits (pool w) =? 0) &&
       (zlen (_exited (pool w)) =? 0) && negb (existsb is_reaper (states w)).

Lemma reapers_need l : Forall wf l -> total f_reap_asleep l <= total f_need l.
Proof.
  induction 1 as [|x l Hx Hl IH]; cbn; [lia|]. destruct x; cbn in *; lia.
Qed.

Lemma total_live l : total f_live l = total f_running l + total f_starting l + total f_asleep l +
  total f_woken l + total f_reap_asleep l + total f_reap_woken l.
Proof. induction l as [|x l IH]; cbn; [done|]. destruct x; cbn; lia. Qed.

Lemma reaper_total l : existsb is_reaper l = true -> 1 <= total f_reap_asleep l + total f_reap_woken l.
Proof.
  intros (x & Hin & Hx)%existsb_exists. apply list_elem_of_In, list_elem_of_lookup in Hin as [t Ht].
  nonneg l.
  destruct x; try discriminate Hx;
    [pose proof (total_ge f_reap_asleep l t _ ltac:(intros []; cbn; lia) Ht)
    |pose proof (total_ge f_reap_woken l t _ ltac:(intros []; cbn; lia) Ht)]; cbn in *; lia.
Qed.

Lemma rest w : Inv w -> (forall t, awake t w = false) -> at_rest w = true.
Proof.
  intros HI Ha.
  assert (forall x, x ∈ states w -> f_awake x = 0) as Hn.
  { intros x [t Ht]%list_elem_of_lookup. specialize (Ha t). unfold awake in Ha. rewrite Ht in Ha. by destruct x. }
  assert (total f_starting (states w) = 0 /\ total f_woken (states w) = 0 /\ total f_reap_woken (states w) = 0)
    as (Z1 & Z2 & Z3).
  { split_and!; apply total_zero; intros x Hx; specialize (Hn x Hx); by destruct x. }
  unfold at_rest. destruct HI as [(H1 & H2 & H3 & H4 & H5)|(H1 & H2 & _ & _ & _ & _ & _ & H8 & H9)]; rewrite H1.
  - pose proof (total_live (states w)). pose proof (reapers_need _ H4). nonneg (states w).
    pose proof (zlen_nonneg (_pending_jobs (pool w))). pose proof (zlen_nonneg (_exited (pool w))).
    assert (total f_reap_asleep (states w) = 0 /\ _exits (pool w) = 0 /\ zlen (_pending_jobs (pool w)) = 0)
      as (R1 & R2 & R3) by (unfold numbers, idles in H5; lia).
    destruct (existsb is_reaper (states w)) eqn:E; [apply reaper_total in E; lia|].
    apply no_reaper_need in E as [E _]. unfold numbers in H5. lia.
  - apply forallb_forall. intros x Hx%list_elem_of_In.
    pose proof (proj1 (Forall_forall _ _) H9 x Hx). specialize (Hn x Hx).
    destruct x; try done. apply list_elem_of_lookup in Hx as [t Ht].
    pose proof (total_ge f_asleep _ t _ ltac:(intros []; cbn; lia) Ht). cbn in *. lia.
Qed.


(** Two jobs end while a third runs: the pool of batches of one destroys one of
    its three threads; then it is shut down. *)
Definition demo : list event :=
  [EInitialize 1; EAppend 1 true 0%nat; EStep 0 0 id; EAppend 2 true 0%nat; EStep 1 0 id;
   EAppend 3 false 0%nat; EStep 2 0 id; EDone 0 0 id; EDone 1 0 id; EStep 0 1 id; EStep 1 0 id;
   EShutdown true; EStep 1 0 id; EDone 2 0 id; EJoined].


(** What [enabled] excludes: when Shutdown begins while a thread reaps others,
    those leave without telling it, and it sleeps for ever. *)
Example growable_pool_Shutdown_hangs :
  exists w, run_events
    [EInitialize 1; EAppend 1 true 0%nat; EStep 0 0 id; EAppend 2 true 0%nat; EStep 1 0 id;
     EAppend 3 false 0%nat; EStep 2 0 id; EDone 0 0 id; EDone 1 0 id; EShutdown true;
     EStep 0 1 id; EDone 2 0 id] fresh_world = Ok w /\
    states w = [Gone; ReapAsleep 1; Gone] /\ _initializing (pool w) = true.
Proof. eexists. split; [vm_compute; reflexivity|]. by split. Qed.
