(* ===== verification/ReadWriteLock.v ===== *)
(** * A lock for readers or one writer: thread/read_write_lock.cpp

    The implementation for systems without one of their own (WIN32): counters
    protected by a mutex, and two semaphores on which the threads wait that
    could not get the lock at once.  Each critical section is one step, and so
    is the end of a wait; the threads interleave in any order. *)

From Stdlib Require Import ZifyBool.
From S2P Require Import Prelude.

(** ReadWriteLock::Context; [_reader_wait] and [_writer_wait] are the counts of
    the semaphores. *)
Record Context : Type := mkContext {
  _access : Z;
  _reader_queue : Z;
  _writer_queue : Z;
  _reader_wait : Z;
  _writer_wait : Z
}.

Definition Context_new : Context := mkContext 0 0 0 0 0.

(** ** The critical sections *)

(** ReaderLock up to the mutex's release; true if the thread has to wait. *)
Definition ReaderLock (c : Context) : Context * bool :=
  let access_pending := (_access c <? 0) || (0 <? _writer_queue c) in
  if access_pending then
    (mkContext (_access c) (_reader_queue c + 1) (_writer_queue c) (_reader_wait c) (_writer_wait c), true)
  else
    (mkContext (_access c + 1) (_reader_queue c) (_writer_queue c) (_reader_wait c) (_writer_wait c), false).

Definition WriterLock (c : Context) : Context * bool :=
  let access_pending := negb (_access c =? 0) in
  if access_pending then
    (mkContext (_access c) (_reader_queue c) (_writer_queue c + 1) (_reader_wait c) (_writer_wait c), true)
  else
    (mkContext (_access c - 1) (_reader_queue c) (_writer_queue c) (_reader_wait c) (_writer_wait c), false).

Definition TryReaderLock (c : Context) : Context * bool :=
  if (0 <=? _access c) && (_writer_queue c =? 0) then
    (mkContext (_access c + 1) (_reader_queue c) (_writer_queue c) (_reader_wait c) (_writer_wait c), true)
  else (c, false).

Definition TryWriterLock (c : Context) : Context * bool :=
  if _access c =? 0 then
    (mkContext (_access c - 1) (_reader_queue c) (_writer_queue c) (_reader_wait c) (_writer_wait c), true)
  else (c, false).

Definition Unlock (c : Context) : Context :=
  let access := if 0 <? _access c then _access c - 1 else _access c + 1 in
  if access =? 0 then
    if 0 <? _writer_queue c then
      mkContext (access - 1) (_reader_queue c) (_writer_queue c - 1) (_reader_wait c) (_writer_wait c + 1)
    else if 0 <? _reader_queue c then
      mkContext (_reader_queue c) 0 (_writer_queue c) (_reader_wait c + _reader_queue c) (_writer_wait c)
    else
      mkContext access (_reader_queue c) (_writer_queue c) (_reader_wait c) (_writer_wait c)
  else
    mkContext access (_reader_queue c) (_writer_queue c) (_reader_wait c) (_writer_wait c).

(** The waits: a semaphore that is not null lets one thread pass. *)
Definition ReaderLock_wait (c : Context) : option Context :=
  if 0 <? _reader_wait c then
    Some (mkContext (_access c) (_reader_queue c) (_writer_queue c) (_reader_wait c - 1) (_writer_wait c))
  else None.

Definition WriterLock_wait (c : Context) : option Context :=
  if 0 <? _writer_wait c then
    Some (mkContext (_access c) (_reader_queue c) (_writer_queue c) (_reader_wait c) (_writer_wait c - 1))
  else None.

(** ** The threads *)

Inductive thread : Type :=
| Free
| WaitsToRead
| WaitsToWrite
| Reads
| Writes.

#[export] Instance thread_eq_dec : EqDecision thread.
Proof. solve_decision. Defined.

Record state : Type := mkState {
  lock : Context;
  threads : list thread
}.

Definition start (n : nat) : state := mkState Context_new (replicate n Free).

Inductive action : Type :=
| CallReaderLock
| CallWriterLock
| CallTryReaderLock
| CallTryWriterLock
| CallUnlock
| Wake.

(** Thread [t], in state [x], does [a]: where it gets, and the lock after that.
    [None]: it is not where it can do that, or it is blocked. *)
Definition act (a : action) (x : thread) (c : Context) : option (thread * Context) :=
  match a, x with
  | CallReaderLock, Free =>
      let (c, pending) := ReaderLock c in Some (if pending : bool then WaitsToRead else Reads, c)
  | CallWriterLock, Free =>
      let (c, pending) := WriterLock c in Some (if pending : bool then WaitsToWrite else Writes, c)
  | CallTryReaderLock, Free =>
      let (c, granted) := TryReaderLock c in Some (if granted : bool then Reads else Free, c)
  | CallTryWriterLock, Free =>
      let (c, granted) := TryWriterLock c in Some (if granted : bool then Writes else Free, c)
  | CallUnlock, Reads | CallUnlock, Writes => Some (Free, Unlock c)
  | Wake, WaitsToRead => c ← ReaderLock_wait c; Some (Reads, c)
  | Wake, WaitsToWrite => c ← WriterLock_wait c; Some (Writes, c)
  | _, _ => None
  end.

Definition do_step (t : nat) (a : action) (s : state) : option state :=
  x ← threads s !! t;
  '(x, c) ← act a x (lock s);
  Some (mkState c (<[t := x]> (threads s))).

(** A schedule: which thread does what.  A step that is not possible leaves the
    state as it is. *)
Definition run_schedule (l : list (nat * action)) (s : state) : state :=
  fold_left (fun s e => match do_step e.1 e.2 s with Some s' => s' | None => s end) l s.

(** ** Counting threads *)

Definition count (x : thread) (l : list thread) : Z :=
  Z.of_nat (length (filter (fun y => y = x) l)).

Definition one (x y : thread) : Z := if decide (y = x) then 1 else 0.

Lemma count_cons x y l : count x (y :: l) = one x y + count x l.
Proof.
  unfold count, one. rewrite filter_cons. destruct (decide (y = x)); [|done].
  cbn [length]. lia.
Qed.

Lemma count_nonneg x l : 0 <= count x l.
Proof. unfold count. lia. Qed.

Lemma count_update x l t a b : l !! t = Some a ->
  count x (<[t := b]> l) = count x l - one x a + one x b.
Proof.
  revert t. induction l as [|y l IH]; intros [|t] H; try discriminate H.
  - injection H as ->. change (<[0%nat := b]> (a :: l)) with (b :: l). rewrite !count_cons. lia.
  - change (<[S t := b]> (y :: l)) with (y :: <[t := b]> l). rewrite !count_cons, (IH t H). lia.
Qed.

Lemma count_pos x l t : l !! t = Some x -> 0 < count x l.
Proof.
  revert t. induction l as [|y l IH]; intros [|t] H; try discriminate H; rewrite count_cons.
  - injection H as ->. unfold one. rewrite decide_True by done. pose proof (count_nonneg x l). lia.
  - apply IH in H. unfold one. case_decide; lia.
Qed.

Lemma count_some x l : 0 < count x l -> exists t, l !! t = Some x.
Proof.
  induction l as [|y l IH]; [done|]. rewrite count_cons. unfold one. case_decide as E.
  - intros _. exists O. cbn. by rewrite E.
  - intros H. destruct IH as [t Ht]; [lia|]. by exists (S t).
Qed.

(** ** The invariant *)

(** [_access] is the number of readers that were let in, or -1 for a writer;
    the semaphores are the threads that were let in and did not wake up yet;
    nobody queues for a free lock, or to read when only readers are in. *)
Definition Inv (s : state) : Prop :=
  let c := lock s in
  let n x := count x (threads s) in
  0 <= _reader_queue c /\ 0 <= _writer_queue c /\ 0 <= _reader_wait c /\ 0 <= _writer_wait c /\
  n WaitsToRead = _reader_queue c + _reader_wait c /\
  n WaitsToWrite = _writer_queue c + _writer_wait c /\
  ((0 <= _access c /\ n Writes + _writer_wait c = 0 /\ _access c = n Reads + _reader_wait c) \/
   (_access c = -1 /\ n Writes + _writer_wait c = 1 /\ n Reads + _reader_wait c = 0)) /\
  (_access c = 0 -> _writer_queue c = 0) /\
  (0 < _reader_queue c -> _access c < 0 \/ 0 < _writer_queue c).

Lemma Lock_Inv_start n : Inv (start n).
Proof.
  assert (forall x, x <> Free -> count x (replicate n Free) = 0) as H.
  { intros x Hx. induction n as [|n IH]; [done|]. cbn [replicate]. rewrite count_cons, IH.
    unfold one. by rewrite decide_False. }
  unfold Inv, start. cbn. rewrite !H by done. lia.
Qed.

Lemma Lock_Inv_step t a s s' : Inv s -> do_step t a s = Some s' -> Inv s'.
Proof.
  intros HI H. unfold do_step in H. destruct (threads s !! t) as [x|] eqn:Hx; [|done]. cbn in H.
  destruct (act a x (lock s)) as [[y c]|] eqn:Ha; [|done]. injection H as <-.
  pose proof (count_pos _ _ _ Hx) as Hp.
  pose proof (count_nonneg Reads (threads s)) as HR. pose proof (count_nonneg Writes (threads s)) as HW.
  unfold Inv in *. cbn [lock threads]. rewrite !(count_update _ _ _ _ _ Hx).
  destruct (lock s) as [acc rq wq rw ww]; cbn [_access _reader_queue _writer_queue _reader_wait _writer_wait] in *.
  destruct a, x; try discriminate Ha; cbn in Ha;
    unfold ReaderLock, WriterLock, TryReaderLock, TryWriterLock, Unlock, ReaderLock_wait, WriterLock_wait in Ha;
    cbn [_access _reader_queue _writer_queue _reader_wait _writer_wait] in Ha;
    repeat match type of Ha with
    | context [if ?b then _ else _] => destruct b eqn:?
    | context [let (_, _) := ?b in _] => destruct b eqn:?
    end; try discriminate Ha; simplify_eq/=;
    unfold one; repeat (first [rewrite decide_True by done | rewrite decide_False by done]);
    lia.
Qed.

Lemma Lock_Inv_run l s : Inv s -> Inv (run_schedule l s).
Proof.
  revert s. induction l as [|[t a] l IH]; intros s HI; cbn; [done|]. apply IH.
  destruct (do_step t a s) eqn:E; [by eapply Lock_Inv_step|done].
Qed.

Lemma threads_step t a s s' : do_step t a s = Some s' -> length (threads s') = length (threads s).
Proof.
  unfold do_step. destruct (threads s !! t); [|done]. cbn.
  destruct (act a t0 (lock s)) as [[y c]|]; [|done]. intros [= <-]. apply length_insert.
Qed.

Lemma threads_run l s : length (threads (run_schedule l s)) = length (threads s).
Proof.
  revert s. induction l as [|[t a] l IH]; intros s; cbn; [done|]. rewrite IH.
  destruct (do_step t a s) eqn:E; [by eapply threads_step|done].
Qed.

Lemma count_total l :
  count Free l + count WaitsToRead l + count WaitsToWrite l + count Reads l + count Writes l
  = Z.of_nat (length l).
Proof.
  induction l as [|x l IH]; [done|]. rewrite !count_cons. cbn [length]. unfold one.
  destruct x; repeat (first [rewrite decide_True by done | rewrite decide_False by done]); lia.
Qed.

(** ** The properties *)

(** The states that threads can bring the lock to. *)
Definition reachable (n : nat) (s : state) : Prop := exists l, s = run_schedule l (start n).

Lemma reachable_Inv n s : reachable n s -> Inv s /\ length (threads s) = n.
Proof.
  intros [l ->]. split; [apply Lock_Inv_run, Lock_Inv_start|]. rewrite threads_run. apply length_replicate.
Qed.

Ltac counts s :=
  pose proof (count_total (threads s));
  pose proof (count_nonneg Free (threads s)); pose proof (count_nonneg WaitsToRead (threads s));
  pose proof (count_nonneg WaitsToWrite (threads s)); pose proof (count_nonneg Reads (threads s));
  pose proof (count_nonneg Writes (threads s)).

(** C15: the lock excludes.  Whatever [n] threads do with it and however they
    interleave, a writer is alone: at most one thread writes, and none reads
    then.  Writers come first: while one waits, a new reader waits too.  The
    counters stay within the number of threads, so they do not overflow for
    fewer than 2^31 of them. *)
Theorem read_write_lock_excludes (n : nat) s : reachable n s ->
  count Writes (threads s) <= 1 /\
  (0 < count Writes (threads s) -> count Reads (threads s) = 0) /\
  (0 < count WaitsToWrite (threads s) -> (ReaderLock (lock s)).2 = true) /\
  -1 <= _access (lock s) <= Z.of_nat n /\
  0 <= _reader_queue (lock s) <= Z.of_nat n /\ 0 <= _writer_queue (lock s) <= Z.of_nat n /\
  0 <= _reader_wait (lock s) <= Z.of_nat n /\ 0 <= _writer_wait (lock s) <= 1.
Proof.
  intros [HI Hn]%reachable_Inv. unfold Inv in HI. counts s. split_and!; try lia.
  intros Hw. unfold ReaderLock.
  assert ((_access (lock s) <? 0) || (0 <? _writer_queue (lock s)) = true) as -> by lia. done.
Qed.

(** A writer has the lock, two readers and a writer wait. *)
Definition demo_schedule : list (nat * action) :=
  [(0, CallReaderLock); (1, CallWriterLock); (2, CallReaderLock); (0, CallUnlock); (1, Wake);
   (3, CallReaderLock); (0, CallWriterLock)]%nat.
Definition demo_state : state := run_schedule demo_schedule (start 4).

Example demo_threads : threads demo_state = [WaitsToWrite; Writes; WaitsToRead; WaitsToRead].
Proof. reflexivity. Qed.

Lemma read_write_lock_excludes_witness :
  reachable 4 demo_state /\
  count Writes (threads demo_state) <= 1 /\
  (0 < count Writes (threads demo_state) -> count Reads (threads demo_state) = 0) /\
  (0 < count WaitsToWrite (threads demo_state) -> (ReaderLock (lock demo_state)).2 = true) /\
  -1 <= _access (lock demo_state) <= Z.of_nat 4 /\
  0 <= _reader_queue (lock demo_state) <= Z.of_nat 4 /\
  0 <= _writer_queue (lock demo_state) <= Z.of_nat 4 /\
  0 <= _reader_wait (lock demo_state) <= Z.of_nat 4 /\ 0 <= _writer_wait (lock demo_state) <= 1.
Proof.
  assert (reachable 4 demo_state) as H by (by exists demo_schedule).
  split; [exact H|]. exact (read_write_lock_excludes 4 demo_state H).
Defined.

(** ** Everybody gets the lock *)

(** The steps that end a wait or give the lock back; how many are left. *)
Definition gives_way (a : action) : bool :=
  match a with CallUnlock | Wake => true | _ => false end.

Definition work (s : state) : Z :=
  2 * (count WaitsToRead (threads s) + count WaitsToWrite (threads s))
  + count Reads (threads s) + count Writes (threads s).

Lemma work_step t a s s' : gives_way a = true -> do_step t a s = Some s' -> work s' = work s - 1.
Proof.
  intros Hg H. unfold do_step in H. destruct (threads s !! t) as [x|] eqn:Hx; [|done]. cbn in H.
  destruct (act a x (lock s)) as [[y c]|] eqn:Ha; [|done]. injection H as <-.
  unfold work. cbn [threads]. rewrite !(count_update _ _ _ _ _ Hx).
  destruct a, x; try discriminate Hg; try discriminate Ha; cbn in Ha;
    unfold ReaderLock_wait, WriterLock_wait in Ha; repeat case_match; simplify_eq/=;
    unfold one; repeat (first [rewrite decide_True by done | rewrite decide_False by done]); lia.
Qed.

(** While there is work, some thread can go on. *)
Lemma work_enabled s : Inv s -> 0 < work s ->
  exists t a s', gives_way a = true /\ do_step t a s = Some s'.
Proof.
  intros HI Hw. unfold Inv in HI. counts s. unfold work in Hw.
  assert (forall x a, 0 < count x (threads s) -> gives_way a = true ->
    (exists y c, act a x (lock s) = Some (y, c)) ->
    exists t a s', gives_way a = true /\ do_step t a s = Some s') as HS.
  { intros x a [t Ht]%count_some Ha (y & c & E). exists t, a. eexists. split; [done|].
    unfold do_step. rewrite Ht. cbn. rewrite E. done. }
  destruct (Z.lt_ge_cases 0 (count Reads (threads s))) as [|HR].
  { apply (HS Reads CallUnlock); cbn; eauto. }
  destruct (Z.lt_ge_cases 0 (count Writes (threads s))) as [|HW].
  { apply (HS Writes CallUnlock); cbn; eauto. }
  destruct (Z.lt_ge_cases 0 (_reader_wait (lock s))) as [Hr|Hr].
  { apply (HS WaitsToRead Wake); [lia|done|]. cbn. unfold ReaderLock_wait.
    apply Z.ltb_lt in Hr as ->. cbn. eauto. }
  destruct (Z.lt_ge_cases 0 (_writer_wait (lock s))) as [Hww|Hww]; [|lia].
  apply (HS WaitsToWrite Wake); [lia|done|]. cbn. unfold WriterLock_wait.
  apply Z.ltb_lt in Hww as ->. cbn. eauto.
Qed.

Lemma work_none s : Inv s -> work s = 0 -> lock s = Context_new /\ Forall (fun x => x = Free) (threads s).
Proof.
  intros HI Hw. unfold Inv in HI. counts s. unfold work in Hw. split.
  - destruct (lock s) as [acc rq wq rw ww]. cbn in HI. unfold Context_new. f_equal; lia.
  - apply Forall_lookup. intros t x Hx. apply count_pos in Hx. destruct x; [done|lia..].
Qed.

(** Nobody waits for ever.  From any reachable state, as long as somebody
    waits or holds the lock, a thread can wake up or give the lock back; each
    such step leaves one fewer to do; and when none is left all threads are
    free and the lock is as new. *)
Theorem read_write_lock_drains (n : nat) s : reachable n s ->
  exists l, length l = Z.to_nat (work s) /\ Forall (fun e => gives_way e.2 = true) l /\
    lock (run_schedule l s) = Context_new /\
    threads (run_schedule l s) = replicate n Free /\
    (0 < work s -> exists t a s', gives_way a = true /\ do_step t a s = Some s') /\
    (forall t a s', gives_way a = true -> do_step t a s = Some s' -> work s' = work s - 1).
Proof.
  intros [HI Hn]%reachable_Inv.
  assert (exists l, length l = Z.to_nat (work s) /\ Forall (fun e => gives_way e.2 = true) l /\
    lock (run_schedule l s) = Context_new /\ threads (run_schedule l s) = replicate n Free) as (l & H1 & H2 & H3 & H4).
  { remember (Z.to_nat (work s)) as m eqn:Em. revert s HI Hn Em.
    induction m as [|m IH]; intros s HI Hn Em.
    - exists []. destruct (work_none s HI) as [HL HF]; [unfold work in *; counts s; lia|].
      split_and!; [done|constructor|done|]. cbn. rewrite <- Hn. symmetry. apply replicate_as_Forall. split; [done|]. by eapply Forall_impl; [exact HF|].
    - destruct (work_enabled s HI) as (t & a & s' & Hg & Hs); [lia|].
      destruct (IH s') as (l & H1 & H2 & H3 & H4).
      + by eapply Lock_Inv_step.
      + by rewrite (threads_step _ _ _ _ Hs).
      + rewrite (work_step _ _ _ _ Hg Hs). lia.
      + exists ((t, a) :: l). cbn. rewrite Hs. split_and!; [by rewrite H1|by constructor|done..]. }
  exists l. split_and!; try done; [by apply work_enabled|]. intros t a s'. apply work_step.
Qed.

Lemma read_write_lock_drains_witness :
  reachable 4 demo_state /\
  exists l, length l = Z.to_nat (work demo_state) /\ Forall (fun e => gives_way e.2 = true) l /\
    lock (run_schedule l demo_state) = Context_new /\
    threads (run_schedule l demo_state) = replicate 4 Free /\
    (0 < work demo_state -> exists t a s', gives_way a = true /\ do_step t a demo_state = Some s') /\
    (forall t a s', gives_way a = true -> do_step t a demo_state = Some s' -> work s' = work demo_state - 1).
Proof.
  assert (reachable 4 demo_state) as H by (by exists demo_schedule).
  split; [exact H|]. exact (read_write_lock_drains 4 demo_state H).
Defined.
