(* ===== verification/LinkageWorker.v ===== *)
(** * The event loop of the connections: linkage/linkage_worker.cpp

    [LinkageWorker] keeps a client per linkage, with two watchers in the loop
    of libev, timers, and a queue of commands.  Its callbacks run application
    code that may call the worker again; they are programs [wprog] over its
    methods.  The loop is its set of active watchers and timers; which of them
    fires next is up to the kernel, so that the step of a loop is any one of
    the callbacks.  Addresses are never reused in the model: a callback on a
    client that was deleted is an error ([undefined_behaviour]). *)

From S2P Require Import Prelude StateMonad.

(** [struct client_t], with the address [new] gave it; the watchers are known
    to the loop by that address. *)
Record client_t : Type := mkClient {
  caddr : Z;
  clinkage : Z;
  cauto_release : bool;
  running_r : bool;
  running_w : bool;
  cfd : Z
}.

Definition with_running_r (b : bool) (c : client_t) : client_t :=
  mkClient (caddr c) (clinkage c) (cauto_release c) b (running_w c) (cfd c).
Definition with_running_w (b : bool) (c : client_t) : client_t :=
  mkClient (caddr c) (clinkage c) (cauto_release c) (running_r c) b (cfd c).

(** [struct timer_t]; times in nanoseconds. *)
Record timer_t : Type := mkTimer {
  trunnable : Z;
  tauto_release : bool;
  tafter : Z;
  trepeat : Z
}.

#[export] Instance client_eq_dec : EqDecision client_t.
Proof. solve_decision. Defined.

#[export] Instance timer_eq_dec : EqDecision timer_t.
Proof. solve_decision. Defined.

Inductive direction : Type := EV_READ | EV_WRITE.

#[export] Instance direction_eq_dec : EqDecision direction.
Proof. solve_decision. Defined.

#[export, refine] Instance direction_countable : Countable direction := {|
  encode d := match d with EV_READ => 1%positive | EV_WRITE => 2%positive end;
  decode p := if decide (p = 1%positive) then Some EV_READ else Some EV_WRITE
|}.
Proof. by intros []. Defined.

(** The worker.  [_loop] is the set of watchers that are started, [_ticking]
    that of the timers.  [new_] numbers the clients and timers created.
    [deleted] and [deleted_runnables] are ghost logs. *)
Record LinkageWorker : Type := mkWorker {
  _events : gmap Z client_t;
  _timers : gmap Z timer_t;
  _commands : list (option Z);
  _quit : bool;
  _loop : gset (Z * direction);
  _ticking : gset Z;
  new_ : Z;
  deleted : list Z;
  deleted_runnables : list Z
}.

Definition set_events v (w : LinkageWorker) : LinkageWorker :=
  mkWorker v (_timers w) (_commands w) (_quit w) (_loop w) (_ticking w) (new_ w) (deleted w) (deleted_runnables w).
Definition set_timers v (w : LinkageWorker) : LinkageWorker :=
  mkWorker (_events w) v (_commands w) (_quit w) (_loop w) (_ticking w) (new_ w) (deleted w) (deleted_runnables w).
Definition set_commands v (w : LinkageWorker) : LinkageWorker :=
  mkWorker (_events w) (_timers w) v (_quit w) (_loop w) (_ticking w) (new_ w) (deleted w) (deleted_runnables w).
Definition set_quit v (w : LinkageWorker) : LinkageWorker :=
  mkWorker (_events w) (_timers w) (_commands w) v (_loop w) (_ticking w) (new_ w) (deleted w) (deleted_runnables w).
Definition set_loop v (w : LinkageWorker) : LinkageWorker :=
  mkWorker (_events w) (_timers w) (_commands w) (_quit w) v (_ticking w) (new_ w) (deleted w) (deleted_runnables w).
Definition set_ticking v (w : LinkageWorker) : LinkageWorker :=
  mkWorker (_events w) (_timers w) (_commands w) (_quit w) (_loop w) v (new_ w) (deleted w) (deleted_runnables w).
Definition bump (w : LinkageWorker) : LinkageWorker :=
  mkWorker (_events w) (_timers w) (_commands w) (_quit w) (_loop w) (_ticking w) (new_ w + 1) (deleted w) (deleted_runnables w).
Definition delete_linkage (l : Z) (w : LinkageWorker) : LinkageWorker :=
  mkWorker (_events w) (_timers w) (_commands w) (_quit w) (_loop w) (_ticking w) (new_ w) (l :: deleted w) (deleted_runnables w).
Definition delete_runnable (r : Z) (w : LinkageWorker) : LinkageWorker :=
  mkWorker (_events w) (_timers w) (_commands w) (_quit w) (_loop w) (_ticking w) (new_ w) (deleted w) (r :: deleted_runnables w).

Definition LinkageWorker_new : LinkageWorker := mkWorker ∅ ∅ [] false ∅ ∅ 1 [] [].

(** ** The methods that run no callback *)

Definition ev_io_start (a : Z) (d : direction) (w : LinkageWorker) : LinkageWorker :=
  set_loop ({[ (a, d) ]} ∪ _loop w) w.
Definition ev_io_stop (a : Z) (d : direction) (w : LinkageWorker) : LinkageWorker :=
  set_loop (_loop w ∖ {[ (a, d) ]}) w.

(** [linkage]: a null pointer is [None]. *)
Definition Attach (linkage : option Z) (fd : Z) (read_now write_now auto_release : bool)
  (w : LinkageWorker) : LinkageWorker * bool :=
  match linkage with
  | None => (w, false)
  | Some l =>
      match _events w !! l with
      | Some _ => (w, true)
      | None =>
          let c := mkClient (new_ w) l auto_release read_now write_now fd in
          let w := bump w in
          let w := set_events (<[l := c]> (_events w)) w in
          let w := if read_now then ev_io_start (caddr c) EV_READ w else w in
          let w := if write_now then ev_io_start (caddr c) EV_WRITE w else w in
          (w, true)
      end
  end.

(** The first lines of [Detach] and [DoRelease]. *)
Definition stop_watchers (c : client_t) (w : LinkageWorker) : LinkageWorker :=
  let w := if running_r c then ev_io_stop (caddr c) EV_READ w else w in
  if running_w c then ev_io_stop (caddr c) EV_WRITE w else w.

Definition Detach (linkage : option Z) (w : LinkageWorker) : LinkageWorker * bool :=
  match linkage with
  | None => (w, false)
  | Some l =>
      match _events w !! l with
      | None => (w, true)
      | Some c =>
          let w := stop_watchers c w in
          (set_events (delete l (_events w)) w, true)
      end
  end.

Definition SetWannaRead (l : Z) (wanna : bool) (w : LinkageWorker) : LinkageWorker * bool :=
  match _events w !! l with
  | None => (w, false)
  | Some c =>
      if Bool.eqb wanna (running_r c) then (w, true)
      else
        let w := if wanna then ev_io_start (caddr c) EV_READ w else ev_io_stop (caddr c) EV_READ w in
        (set_events (<[l := with_running_r wanna c]> (_events w)) w, true)
  end.

Definition SetWannaWrite (l : Z) (wanna : bool) (w : LinkageWorker) : LinkageWorker * bool :=
  match _events w !! l with
  | None => (w, false)
  | Some c =>
      if Bool.eqb wanna (running_w c) then (w, true)
      else
        let w := if wanna then ev_io_start (caddr c) EV_WRITE w else ev_io_stop (caddr c) EV_WRITE w in
        (set_events (<[l := with_running_w wanna c]> (_events w)) w, true)
  end.

(** Its two halves do what [SetWannaRead] and [SetWannaWrite] do. *)
Definition SetWanna (l : Z) (wanna_read wanna_write : bool) (w : LinkageWorker) : LinkageWorker * bool :=
  match _events w !! l with
  | None => (w, false)
  | Some c =>
      let '(w, c) :=
        if negb (Bool.eqb wanna_read (running_r c)) then
          let c := with_running_r wanna_read c in
          let w := set_events (<[l := c]> (_events w)) w in
          (if wanna_read then ev_io_start (caddr c) EV_READ w else ev_io_stop (caddr c) EV_READ w, c)
        else (w, c) in
      let w :=
        if negb (Bool.eqb wanna_write (running_w c)) then
          let c := with_running_w wanna_write c in
          let w := set_events (<[l := c]> (_events w)) w in
          if wanna_write then ev_io_start (caddr c) EV_WRITE w else ev_io_stop (caddr c) EV_WRITE w
        else w in
      (w, true)
  end.

Definition RegisterTimer (after repeat : Z) (runnable : option Z) (auto_release : bool)
  (w : LinkageWorker) : LinkageWorker * bool :=
  match runnable with
  | None => (w, false)
  | Some r =>
      if (after <? 0) || (repeat <=? 0) then (w, false)
      else
        let t := new_ w in
        let w := bump w in
        let w := set_timers (<[t := mkTimer r auto_release after repeat]> (_timers w)) w in
        (set_ticking ({[ t ]} ∪ _ticking w) w, true)
  end.

(** The overload with one interval. *)
Definition RegisterTimer_interval (interval : Z) (runnable : option Z) (auto_release : bool)
  (w : LinkageWorker) : LinkageWorker * bool :=
  RegisterTimer interval interval runnable auto_release w.

Definition SendCommand (command : option Z) (w : LinkageWorker) : LinkageWorker * bool :=
  (set_commands (_commands w ++ [command]) w, true).

Definition Shutdown (w : LinkageWorker) : LinkageWorker * bool := SendCommand None w.

(** ** Callbacks *)

Inductive wprog (A : Type) : Type :=
| WRet (a : A)
| WAttach (linkage : option Z) (fd : Z) (r w auto_release : bool) (k : bool -> wprog A)
| WDetach (linkage : option Z) (k : bool -> wprog A)
| WSetWanna (l : Z) (r w : bool) (k : bool -> wprog A)
| WSetWannaRead (l : Z) (r : bool) (k : bool -> wprog A)
| WSetWannaWrite (l : Z) (w : bool) (k : bool -> wprog A)
| WRegisterTimer (after repeat : Z) (runnable : option Z) (auto_release : bool) (k : bool -> wprog A)
| WSendCommand (command : option Z) (k : bool -> wprog A).
Arguments WRet {A}.
Arguments WAttach {A}.
Arguments WDetach {A}.
Arguments WSetWanna {A}.
Arguments WSetWannaRead {A}.
Arguments WSetWannaWrite {A}.
Arguments WRegisterTimer {A}.
Arguments WSendCommand {A}.

(** The linkages and runnables, with a state of type [L]; the numbers are
    their addresses.  The [errno] of a callback is part of what it returns. *)
Class Clients (L : Type) := {
  cb_OnReadable : Z -> L -> wprog (L * (Z * Z));
  cb_OnWritable : Z -> L -> wprog (L * (Z * Z));
  cb_OnError : Z -> bool -> Z -> L -> wprog L;
  cb_OnDisconnected : Z -> L -> wprog L;
  cb_Cleanup : Z -> Z -> L -> wprog (L * bool);
  cb_Run : Z -> L -> wprog (L * bool);
  cb_OnInitialize : L -> wprog (L * bool);
  cb_OnShutdown : L -> wprog L
}.

Section LinkageWorker.
Context {L : Type} {CL : Clients L}.
(** The iteration order of an [unordered_map] or [unordered_set], which the
    standard does not say. *)
Context (iterate : forall A : Type, gmap Z A -> list (Z * A)).

Abbreviation M := (ST (LinkageWorker * L)).

Definition wget {A : Type} (f : LinkageWorker -> A) : M A := gets (fun s => f s.1).
Definition wset (f : LinkageWorker -> LinkageWorker) : M unit := modify (fun s => (f s.1, s.2)).
Definition method {A : Type} (f : LinkageWorker -> LinkageWorker * A) : M A :=
  fun s => let '(w, a) := f s.1 in Ok (a, (w, s.2)).

Fixpoint run_wprog {A : Type} (p : wprog A) : M A :=
  match p with
  | WRet a => ret a
  | WAttach l fd r w a k => let* x := method (Attach l fd r w a) in run_wprog (k x)
  | WDetach l k => let* x := method (Detach l) in run_wprog (k x)
  | WSetWanna l r w k => let* x := method (SetWanna l r w) in run_wprog (k x)
  | WSetWannaRead l r k => let* x := method (SetWannaRead l r) in run_wprog (k x)
  | WSetWannaWrite l w k => let* x := method (SetWannaWrite l w) in run_wprog (k x)
  | WRegisterTimer a r t o k => let* x := method (RegisterTimer a r t o) in run_wprog (k x)
  | WSendCommand c k => let* x := method (SendCommand c) in run_wprog (k x)
  end.

Definition callback {A : Type} (f : L -> wprog (L * A)) : M A :=
  let* l := gets snd in
  let* (l, a) := run_wprog (f l) in
  modify (fun s => (s.1, l)) ;;; ret a.

Definition callback_ (f : L -> wprog L) : M unit :=
  let* l := gets snd in
  let* l := run_wprog (f l) in
  modify (fun s => (s.1, l)).

(** [client->linkage]: the client must still be there. *)
Definition alive (c : client_t) : M unit :=
  let* e := wget (fun w => _events w !! clinkage c) in
  match e with
  | Some d => if decide (caddr d = caddr c) then ret tt else fail undefined_behaviour
  | None => fail undefined_behaviour
  end.

(** The fields of the client now. *)
Definition reload (c : client_t) : M client_t :=
  let* e := wget (fun w => _events w !! clinkage c) in
  match e with
  | Some d => if decide (caddr d = caddr c) then ret d else fail undefined_behaviour
  | None => fail undefined_behaviour
  end.

(** After the client has left the container. *)
Definition DoRelease_end (c : client_t) : M unit :=
  callback_ (cb_OnDisconnected (clinkage c)) ;;;
  (if cauto_release c then wset (delete_linkage (clinkage c)) else ret tt).

Definition DoRelease (client : client_t) (erase_container : bool) : M unit :=
  let* c := reload client in
  wset (stop_watchers c) ;;;
  (if erase_container then wset (fun w => set_events (delete (clinkage c) (_events w)) w)
   else ret tt) ;;;
  DoRelease_end c.

Definition OnError (client : client_t) (reading_or_writing : bool) (errnum : Z) : M unit :=
  alive client ;;;
  callback_ (cb_OnError (clinkage client) reading_or_writing errnum) ;;;
  DoRelease client true.

Definition OnDisconnected (client : client_t) : M unit := DoRelease client true.

Definition OnReadable (client : client_t) : M unit :=
  alive client ;;;
  let* (r, errno) := callback (cb_OnReadable (clinkage client)) in
  if r <? 0 then OnError client true errno
  else if r =? 0 then OnDisconnected client
  else ret tt.

Definition OnWritable (client : client_t) : M unit :=
  alive client ;;;
  let* (r, errno) := callback (cb_OnWritable (clinkage client)) in
  if r <? 0 then OnError client false errno
  else if r =? 0 then OnDisconnected client
  else ret tt.

(** [DoRelease] of a timer. *)
Definition DoRelease_timer (addr : Z) (t : timer_t) (erase_container : bool) : M unit :=
  wset (fun w => set_ticking (_ticking w ∖ {[ addr ]}) w) ;;;
  (if tauto_release t then wset (delete_runnable (trunnable t)) else ret tt) ;;;
  (if erase_container then wset (fun w => set_timers (delete addr (_timers w)) w) else ret tt).

Definition OnTimer_run (addr : Z) (t : timer_t) (run : M bool) : M unit :=
  let* ok := run in
  if (ok : bool) then ret tt else DoRelease_timer addr t true.

(** The clients to drop, in the order of the map; [Cleanup] is called while
    the map is iterated, so that it must not attach a linkage. *)
Fixpoint OnHealthCheck_drops (now : Z) (events : gmap Z client_t) (clients : list (Z * client_t))
  : M (list client_t) :=
  match clients with
  | [] => ret []
  | (_, c) :: clients =>
      alive c ;;;
      let* ok := callback (cb_Cleanup (clinkage c) now) in
      let* events' := wget _events in
      (if decide (dom events' ⊆ dom events) then ret tt else fail undefined_behaviour) ;;;
      let* drops := OnHealthCheck_drops now events clients in
      ret (if (ok : bool) then drops else c :: drops)
  end.

Fixpoint release_all (drops : list client_t) (erase_container : bool) : M unit :=
  match drops with
  | [] => ret tt
  | c :: drops => DoRelease c erase_container ;;; release_all drops erase_container
  end.

Definition OnHealthCheck (now : Z) : M bool :=
  let* events := wget _events in
  let* drops := OnHealthCheck_drops now events (iterate _ events) in
  release_all drops true ;;;
  ret true.

(** The address of the health timer's runnable, and of every other. *)
Definition HEALTH : Z := 0.

(** [HealthTimer::Run] or that of the application. *)
Definition Runnable_Run (now : Z) (r : Z) : M bool :=
  if decide (r = HEALTH) then OnHealthCheck now else callback (cb_Run r).

Definition OnTimer (now : Z) (addr : Z) (t : timer_t) : M unit :=
  OnTimer_run addr t (Runnable_Run now (trunnable t)).

(** The two loops of [OnCommand]; the first tells whether the second runs. *)
Fixpoint OnCommand_run (q : list (option Z)) : M bool :=
  match q with
  | [] => ret true
  | None :: _ => wset (set_quit true) ;;; ret false
  | Some c :: q =>
      let* ok := callback (cb_Run c) in
      if (ok : bool) then OnCommand_run q else ret true
  end.

Fixpoint OnCommand_delete (q : list (option Z)) : M unit :=
  match q with
  | [] => ret tt
  | None :: q => OnCommand_delete q
  | Some c :: q => wset (delete_runnable c) ;;; OnCommand_delete q
  end.

Definition OnCommand : M unit :=
  let* q := wget _commands in
  wset (set_commands []) ;;;
  let* finished := OnCommand_run q in
  if (finished : bool) then OnCommand_delete q else ret tt.

(** What [ev_run] calls: any watcher that is started, any timer, or the
    asynchronous watcher of the commands. *)
Inductive event : Type :=
| fire_io (client : Z) (d : direction)
| fire_timer (timer : Z) (now : Z)
| fire_async.

(** The client that the address in a watcher points to. *)
Definition client_at (a : Z) (w : LinkageWorker) : option client_t :=
  snd <$> list_find (fun c => caddr c = a) (map snd (map_to_list (_events w))).

Definition dispatch (e : event) : M unit :=
  match e with
  | fire_io a d =>
      let* active := wget _loop in
      if decide ((a, d) ∈ active) then
        let* c := wget (client_at a) in
        match c with
        | Some c => match d with EV_READ => OnReadable c | EV_WRITE => OnWritable c end
        | None => fail undefined_behaviour
        end
      else ret tt
  | fire_timer a now =>
      let* ticking := wget _ticking in
      if decide (a ∈ ticking) then
        let* t := wget (fun w => _timers w !! a) in
        match t with
        | Some t => OnTimer now a t
        | None => fail undefined_behaviour
        end
      else ret tt
  | fire_async => OnCommand
  end.

Fixpoint dispatch_all (pending : list event) : M unit :=
  match pending with
  | [] => ret tt
  | e :: pending => dispatch e ;;; dispatch_all pending
  end.

(** The loop of [Run], for what is pending in each iteration of [ev_run]; it
    leaves at the end of the iteration in which it is asked to quit.  Returns
    whether it left. *)
Fixpoint Run_loop (iterations : list (list event)) : M bool :=
  let* quit := wget _quit in
  if (quit : bool) then ret true
  else match iterations with
       | [] => ret false
       | pending :: iterations => dispatch_all pending ;;; Run_loop iterations
       end.

Fixpoint release_timers (timers : list (Z * timer_t)) : M unit :=
  match timers with
  | [] => ret tt
  | (a, t) :: timers => DoRelease_timer a t false ;;; release_timers timers
  end.

(** The last lines of [Run]. *)
Definition Run_end : M unit :=
  callback_ cb_OnShutdown ;;;
  let* events := wget _events in
  release_all (map snd (iterate _ events)) false ;;;
  let* timers := wget _timers in
  release_timers (iterate _ timers) ;;;
  wset (set_events ∅) ;;;
  wset (set_timers ∅).

(** [None]: still in the loop. *)
Definition Run (iterations : list (list event)) : M (option bool) :=
  let* ok := callback cb_OnInitialize in
  if negb ok then fail (runtime_error "Linkage: failed to initialize.")
  else
    let* ok := method (RegisterTimer_interval 1000000000 (Some HEALTH) true) in
    if negb ok then fail (runtime_error "Linkage: failed to register timers.")
    else
      let* finished := Run_loop iterations in
      if (finished : bool) then Run_end ;;; ret (Some true) else ret None.

End LinkageWorker.
