(* ===== verification/LinkageWorkerFacts.v ===== *)
(** * The watchers of the loop: LinkageWorker.v

    [winv]: the watchers that are started are those of the clients in the map
    that want them, each client has its own address, and the timers that tick
    are those in the set.  Every method and every callback keeps it; a worker
    therefore never serves a client that was deleted. *)

From S2P Require Import Prelude StateMonad LinkageWorker.

Implicit Types (w : LinkageWorker) (c : client_t).

(** Membership of a watcher in a loop. *)
Ltac loop_elem :=
  rewrite ?elem_of_union, ?elem_of_difference, ?elem_of_union, ?elem_of_singleton,
    ?elem_of_empty, ?pair_equal_spec;
  intuition congruence.

Definition running (d : direction) (c : client_t) : bool :=
  match d with EV_READ => running_r c | EV_WRITE => running_w c end.

Record winv (w : LinkageWorker) : Prop := mkWinv {
  winv_client : forall l c, _events w !! l = Some c -> clinkage c = l /\ caddr c < new_ w;
  winv_distinct : forall l l' c c', _events w !! l = Some c -> _events w !! l' = Some c' ->
    caddr c = caddr c' -> l = l';
  winv_loop : forall a d, (a, d) ∈ _loop w <->
    exists l c, _events w !! l = Some c /\ caddr c = a /\ running d c = true;
  winv_ticking : forall t, t ∈ _ticking w <-> is_Some (_timers w !! t);
  winv_timers : forall t, is_Some (_timers w !! t) -> t < new_ w
}.

Lemma winv_new : winv LinkageWorker_new.
Proof.
  constructor; cbn.
  - by intros l c ?%lookup_empty_Some.
  - by intros l l' c c' ?%lookup_empty_Some.
  - intros a d. split; [set_solver|]. by intros (l & c & ?%lookup_empty_Some & _).
  - intros t. rewrite lookup_empty. split; [set_solver|by intros [? ?]].
  - intros t [? ?%lookup_empty_Some]. done.
Qed.

(** What [winv] says of the watchers, as functions of the map and the loop. *)
Definition loop_ok (e : gmap Z client_t) (loop : gset (Z * direction)) : Prop :=
  forall a d, (a, d) ∈ loop <-> exists l c, e !! l = Some c /\ caddr c = a /\ running d c = true.

Definition distinct (e : gmap Z client_t) : Prop :=
  forall l l' c c', e !! l = Some c -> e !! l' = Some c' -> caddr c = caddr c' -> l = l'.

(** Changing the flags of one client, with its watcher. *)
Lemma loop_ok_insert e loop l c c' d b :
  loop_ok e loop -> distinct e -> e !! l = Some c ->
  caddr c' = caddr c -> running d c' = b -> (forall d', d' <> d -> running d' c' = running d' c) ->
  loop_ok (<[l := c']> e)
    (if b then {[ (caddr c, d) ]} ∪ loop else loop ∖ {[ (caddr c, d) ]}).
Proof.
  intros Hl Hd He Ha Hr Ho a d'. specialize (Hl a d').
  assert ((exists l0 c0, <[l := c']> e !! l0 = Some c0 /\ caddr c0 = a /\ running d' c0 = true) <->
    (a = caddr c /\ running d' c' = true \/
     a <> caddr c /\ exists l0 c0, e !! l0 = Some c0 /\ caddr c0 = a /\ running d' c0 = true)) as ->.
  { split.
    - intros (l0 & c0 & E & <- & Hrun). destruct (decide (l = l0)) as [<-|Hne].
      + rewrite lookup_insert_eq in E. injection E as <-. left. split; [done|done].
      + rewrite lookup_insert_ne in E by done. right. split; [|by exists l0, c0].
        intros Heq. by apply Hne, (Hd _ _ _ _ He E).
    - intros [[-> Hrun]|[Hne (l0 & c0 & E & Heq & Hrun)]].
      + exists l, c'. by rewrite lookup_insert_eq.
      + exists l0, c0. rewrite lookup_insert_ne; [done|]. intros <-. congruence. }
  assert (a = caddr c -> ((a, d') ∈ loop <-> running d' c = true)) as Hc.
  { intros ->. rewrite Hl. split; [|by intros; exists l, c].
    intros (l0 & c0 & E & Heq & Hrun). rewrite (Hd _ _ _ _ E He Heq) in E. congruence. }
  destruct (decide (a = caddr c)) as [Heq|Hne].
  - specialize (Hc Heq). subst a. destruct (decide (d' = d)) as [->|Hdd].
    + rewrite Hr. destruct b; loop_elem.
    + rewrite (Ho _ Hdd), <- Hc. destruct b; loop_elem.
  - rewrite <- Hl. destruct b; loop_elem.
Qed.

Lemma distinct_insert e l c c' : distinct e -> e !! l = Some c -> caddr c' = caddr c ->
  distinct (<[l := c']> e).
Proof.
  intros Hd He Ha l1 l2 c1 c2 E1 E2 Heq.
  apply lookup_insert_Some in E1 as [[<- <-]|[H1 E1]];
    apply lookup_insert_Some in E2 as [[<- <-]|[H2 E2]]; [done|..].
  - eapply (Hd _ _ c c2); congruence.
  - eapply (Hd _ _ c1 c); congruence.
  - by eapply (Hd _ _ c1 c2).
Qed.

Lemma winv_flag w l c c' d :
  winv w -> _events w !! l = Some c -> clinkage c' = clinkage c -> caddr c' = caddr c ->
  (forall d', d' <> d -> running d' c' = running d' c) ->
  winv (set_events (<[l := c']> (_events w))
         (if running d c' then ev_io_start (caddr c) d w else ev_io_stop (caddr c) d w)).
Proof.
  intros [H1 H2 H3 H4 H5] He Hl Ha Ho.
  assert (winv (set_events (<[l := c']> (_events w)) (set_loop
    (if running d c' then {[ (caddr c, d) ]} ∪ _loop w else _loop w ∖ {[ (caddr c, d) ]}) w))) as Hw.
  { constructor; cbn; auto.
    - intros l1 c1 E. destruct (decide (l = l1)) as [<-|Hne].
      + rewrite lookup_insert_eq in E. injection E as <-. rewrite Hl, Ha. by apply H1.
      + rewrite lookup_insert_ne in E by done. by apply H1.
    - by eapply distinct_insert.
    - intros a d'. by apply (loop_ok_insert _ _ l c c' d (running d c')). }
  by destruct (running d c').
Qed.

Lemma SetWannaRead_winv l b w : winv w -> winv (SetWannaRead l b w).1.
Proof.
  intros Hw. unfold SetWannaRead. destruct (_events w !! l) as [c|] eqn:E; [|done].
  destruct (Bool.eqb b (running_r c)); [done|]. cbn [fst].
  pose proof (winv_flag w l c (with_running_r b c) EV_READ Hw E eq_refl eq_refl) as Hf.
  cbn in Hf. destruct b; apply Hf; by intros [].
Qed.

Lemma SetWannaWrite_winv l b w : winv w -> winv (SetWannaWrite l b w).1.
Proof.
  intros Hw. unfold SetWannaWrite. destruct (_events w !! l) as [c|] eqn:E; [|done].
  destruct (Bool.eqb b (running_w c)); [done|]. cbn [fst].
  pose proof (winv_flag w l c (with_running_w b c) EV_WRITE Hw E eq_refl eq_refl) as Hf.
  cbn in Hf. destruct b; apply Hf; by intros [].
Qed.

(** [SetWanna] is its two halves one after the other. *)
Lemma SetWanna_halves l r x w :
  SetWanna l r x w = SetWannaWrite l x (SetWannaRead l r w).1.
Proof.
  unfold SetWanna, SetWannaRead, SetWannaWrite. destruct (_events w !! l) as [c|] eqn:E; [|cbn; by rewrite E].
  destruct c as [a ll ar rr rw f]. cbn.
  destruct (Bool.eqb r rr) eqn:Er; cbn; [rewrite E; cbn; destruct (Bool.eqb x rw); cbn; by destruct x|].
  destruct r; cbn; rewrite lookup_insert_eq; cbn; destruct (Bool.eqb x rw); cbn; by destruct x.
Qed.

Lemma SetWanna_winv l r x w : winv w -> winv (SetWanna l r x w).1.
Proof. intros. rewrite SetWanna_halves. by apply SetWannaWrite_winv, SetWannaRead_winv. Qed.

Lemma Attach_winv l fd r x a w : winv w -> winv (Attach l fd r x a w).1.
Proof.
  intros Hw. unfold Attach. destruct l as [l|]; [|done].
  destruct (_events w !! l) as [c0|] eqn:E; [done|]. destruct Hw as [H1 H2 H3 H4 H5].
  set (c := mkClient (new_ w) l a r x fd).
  assert (winv (set_events (<[l := c]> (_events w)) (set_loop
     ((if x then {[ (new_ w, EV_WRITE) ]} else ∅) ∪ ((if r then {[ (new_ w, EV_READ) ]} else ∅) ∪ _loop w))
     (bump w)))) as Hw.
  { constructor; cbn; auto.
    - intros l1 c1 E1. destruct (decide (l = l1)) as [<-|Hne].
      + rewrite lookup_insert_eq in E1. injection E1 as <-. cbn. split; [done|lia].
      + rewrite lookup_insert_ne in E1 by done. destruct (H1 _ _ E1). split; [done|lia].
    - intros l1 l2 c1 c2 E1 E2 Heq.
      apply lookup_insert_Some in E1 as [[<- <-]|[Hn1 E1]];
        apply lookup_insert_Some in E2 as [[<- <-]|[Hn2 E2]]; [done|..].
      + destruct (H1 _ _ E2). cbn in *. lia.
      + destruct (H1 _ _ E1). cbn in *. lia.
      + by eapply (H2 _ _ c1 c2).
    - intros a' d. destruct (decide (a' = new_ w)) as [->|Hne].
      + assert ((new_ w, d) ∉ _loop w) as Hno.
        { intros (l0 & c0 & E0 & Ha & _)%H3. destruct (H1 _ _ E0). lia. }
        transitivity (running d c = true).
        { destruct d; cbn; destruct r, x; loop_elem. }
        split; [intros Hr; exists l, c; by rewrite lookup_insert_eq|].
        intros (l0 & c0 & E0 & Ha & Hr). destruct (decide (l = l0)) as [<-|Hn].
        * rewrite lookup_insert_eq in E0. by injection E0 as <-.
        * rewrite lookup_insert_ne in E0 by done. destruct (H1 _ _ E0). lia.
      + transitivity ((a', d) ∈ _loop w); [destruct r, x; loop_elem|]. rewrite H3.
        split; intros (l0 & c0 & E0 & Ha & Hr); exists l0, c0.
        * rewrite lookup_insert_ne; [done|]. intros <-. congruence.
        * destruct (decide (l = l0)) as [<-|Hn].
          -- rewrite lookup_insert_eq in E0. injection E0 as <-. by cbn in Ha.
          -- by rewrite lookup_insert_ne in E0 by done.
    - intros t Ht. specialize (H5 _ Ht). lia. }
  subst c. destruct r, x; cbn in *; rewrite ?(left_id_L ∅ (∪)) in Hw; exact Hw.
Qed.

(** Removing a client, its watchers being stopped. *)
Lemma stop_watchers_loop c w :
  _loop (stop_watchers c w) =
    _loop w ∖ ((if running_r c then {[ (caddr c, EV_READ) ]} else ∅) ∪
               (if running_w c then {[ (caddr c, EV_WRITE) ]} else ∅)).
Proof. unfold stop_watchers. destruct (running_r c), (running_w c); cbn; apply set_eq; intros; loop_elem. Qed.

Lemma stop_watchers_rest c w : exists loop, stop_watchers c w = set_loop loop w.
Proof.
  unfold stop_watchers. destruct (running_r c), (running_w c); cbn; try by eexists.
  exists (_loop w). by destruct w.
Qed.

Lemma remove_winv l c w : winv w -> _events w !! l = Some c ->
  winv (set_events (delete l (_events w)) (stop_watchers c w)).
Proof.
  intros [H1 H2 H3 H4 H5] E. pose proof (stop_watchers_loop c w) as Hl.
  destruct (stop_watchers_rest c w) as [loop Hs]. rewrite Hs in *. cbn in Hl.
  constructor; cbn; auto.
  - intros l1 c1 E1. apply lookup_delete_Some in E1 as [_ E1]. by apply H1.
  - intros l1 l2 c1 c2 [_ E1]%lookup_delete_Some [_ E2]%lookup_delete_Some. by eapply H2.
  - intros a d. rewrite Hl. assert ((a, d) ∈ _loop w ∖ ((if running_r c then {[ (caddr c, EV_READ) ]} else ∅) ∪
               (if running_w c then {[ (caddr c, EV_WRITE) ]} else ∅)) <->
      (a, d) ∈ _loop w /\ ~ (a = caddr c /\ running d c = true)) as ->.
    { destruct d; cbn; destruct (running_r c), (running_w c); loop_elem. }
    rewrite H3. split.
    + intros [(l0 & c0 & E0 & Ha & Hr) Hno]. exists l0, c0. split; [|done].
      apply lookup_delete_Some. split; [|done]. intros <-. assert (c0 = c) as -> by congruence. by apply Hno.
    + intros (l0 & c0 & [Hne E0]%lookup_delete_Some & Ha & Hr). split; [by exists l0, c0|].
      intros [Ha' _]. apply Hne. eapply (H2 _ _ c c0); congruence.
Qed.

Lemma Detach_winv l w : winv w -> winv (Detach l w).1.
Proof.
  intros Hw. unfold Detach. destruct l as [l|]; [|done].
  destruct (_events w !! l) as [c|] eqn:E; [|done].
  pose proof (remove_winv l c w Hw E) as Hr. destruct (stop_watchers_rest c w) as [loop Hs].
  by rewrite Hs in *.
Qed.

Lemma RegisterTimer_winv a r t o w : winv w -> winv (RegisterTimer a r t o w).1.
Proof.
  intros Hw. unfold RegisterTimer. destruct t as [t|]; [|done].
  destruct ((a <? 0) || (r <=? 0)); [done|]. destruct Hw as [H1 H2 H3 H4 H5]. constructor; cbn; auto.
  - intros l c E. destruct (H1 _ _ E). split; [done|lia].
  - intros t0. rewrite elem_of_union, elem_of_singleton, H4. destruct (decide (new_ w = t0)) as [<-|Hne].
    + rewrite lookup_insert_eq. split; [done|auto].
    + rewrite lookup_insert_ne by done. split; [by intros [?|?]|auto].
  - intros t0 Ht. destruct (decide (new_ w = t0)) as [<-|Hne]; [lia|].
    rewrite lookup_insert_ne in Ht by done. specialize (H5 _ Ht). lia.
Qed.

Lemma SendCommand_winv q w : winv w -> winv (SendCommand q w).1.
Proof. by intros []. Qed.

(** ** Callbacks *)

(** The program detaches no linkage of [P]; it attaches none at all. *)
Fixpoint avoids {A} (P : Z -> Prop) (p : wprog A) : Prop :=
  match p with
  | WRet _ => True
  | WDetach l k => (forall l', l = Some l' -> ~ P l') /\ forall b, avoids P (k b)
  | WAttach _ _ _ _ _ k => forall b, avoids P (k b)
  | WSetWanna _ _ _ k => forall b, avoids P (k b)
  | WSetWannaRead _ _ k => forall b, avoids P (k b)
  | WSetWannaWrite _ _ k => forall b, avoids P (k b)
  | WRegisterTimer _ _ _ _ k => forall b, avoids P (k b)
  | WSendCommand _ k => forall b, avoids P (k b)
  end.

Fixpoint attaches_nothing {A} (p : wprog A) : Prop :=
  match p with
  | WRet _ => True
  | WDetach _ k => forall b, attaches_nothing (k b)
  | WAttach _ _ _ _ _ k => False
  | WSetWanna _ _ _ k => forall b, attaches_nothing (k b)
  | WSetWannaRead _ _ k => forall b, attaches_nothing (k b)
  | WSetWannaWrite _ _ k => forall b, attaches_nothing (k b)
  | WRegisterTimer _ _ _ _ k => forall b, attaches_nothing (k b)
  | WSendCommand _ k => forall b, attaches_nothing (k b)
  end.

(** The same client, but for what its watchers want. *)
Definition same_client (c c' : client_t) : Prop :=
  caddr c' = caddr c /\ clinkage c' = clinkage c /\ cauto_release c' = cauto_release c /\ cfd c' = cfd c.

(** The clients of [P] stay, and nothing is deleted. *)
Record keeps (P : Z -> Prop) (w w' : LinkageWorker) : Prop := mkKeeps {
  keeps_clients : forall l c, P l -> _events w !! l = Some c ->
    exists c', _events w' !! l = Some c' /\ same_client c c';
  keeps_deleted : deleted w' = deleted w;
  keeps_deleted_runnables : deleted_runnables w' = deleted_runnables w;
  keeps_quit : _quit w' = _quit w;
  keeps_timers : forall t, is_Some (_timers w !! t) -> _timers w' !! t = _timers w !! t
}.

Lemma same_client_refl c : same_client c c.
Proof. done. Qed.

Lemma keeps_refl P w : keeps P w w.
Proof. constructor; eauto using same_client_refl. Qed.

Lemma keeps_trans P w1 w2 w3 : keeps P w1 w2 -> keeps P w2 w3 -> keeps P w1 w3.
Proof.
  intros [A1 B1 C1 F1 D1] [A2 B2 C2 F2 D2]. constructor; try congruence.
  - intros l c HP E. destruct (A1 _ _ HP E) as (c1 & E1 & S1). destruct (A2 _ _ HP E1) as (c2 & E2 & S2).
    exists c2. split; [done|]. unfold same_client in *. intuition congruence.
  - intros t Ht. rewrite D2; [by apply D1|]. by rewrite D1.
Qed.

Lemma keeps_insert P w w' l c c' :
  _events w !! l = Some c -> same_client c c' -> _events w' = <[l := c']> (_events w) ->
  deleted w' = deleted w -> deleted_runnables w' = deleted_runnables w -> _quit w' = _quit w ->
  _timers w' = _timers w ->
  keeps P w w'.
Proof.
  intros E Hs He Hd Hr Hq Ht. constructor; try done; [|by rewrite Ht].
  intros l1 c1 _ E1. rewrite He. destruct (decide (l = l1)) as [<-|Hne].
  - rewrite lookup_insert_eq. assert (c1 = c) as -> by congruence. eauto.
  - rewrite lookup_insert_ne by done. eauto using same_client_refl.
Qed.

Lemma SetWannaRead_keeps P l b w : keeps P w (SetWannaRead l b w).1.
Proof.
  unfold SetWannaRead. destruct (_events w !! l) as [c|] eqn:E; [|apply keeps_refl].
  destruct (Bool.eqb b (running_r c)); [apply keeps_refl|].
  destruct b; [by apply (keeps_insert P w _ l c (with_running_r true c))|
               by apply (keeps_insert P w _ l c (with_running_r false c))].
Qed.

Lemma SetWannaWrite_keeps P l b w : keeps P w (SetWannaWrite l b w).1.
Proof.
  unfold SetWannaWrite. destruct (_events w !! l) as [c|] eqn:E; [|apply keeps_refl].
  destruct (Bool.eqb b (running_w c)); [apply keeps_refl|].
  destruct b; [by apply (keeps_insert P w _ l c (with_running_w true c))|
               by apply (keeps_insert P w _ l c (with_running_w false c))].
Qed.

Lemma SetWanna_keeps P l r x w : keeps P w (SetWanna l r x w).1.
Proof.
  rewrite SetWanna_halves. eapply keeps_trans; [apply SetWannaRead_keeps|apply SetWannaWrite_keeps].
Qed.

Lemma Attach_keeps P l fd r x a w : keeps P w (Attach l fd r x a w).1.
Proof.
  unfold Attach. destruct l as [l|]; [|apply keeps_refl].
  destruct (_events w !! l) as [c0|] eqn:E; [apply keeps_refl|].
  constructor; [|by destruct r, x..].
  intros l1 c1 _ E1. exists c1. split; [|done].
  destruct r, x; cbn; rewrite lookup_insert_ne; congruence.
Qed.

Lemma Detach_keeps P l w : (forall l', l = Some l' -> ~ P l') -> keeps P w (Detach l w).1.
Proof.
  intros Hl. unfold Detach. destruct l as [l|]; [|apply keeps_refl].
  destruct (_events w !! l) as [c0|] eqn:E; [|apply keeps_refl].
  destruct (stop_watchers_rest c0 w) as [loop ->]. constructor; cbn; try done.
  intros l1 c1 HP E1. exists c1. split; [|done]. rewrite lookup_delete_ne; [done|].
  intros <-. by apply (Hl l).
Qed.

Lemma RegisterTimer_keeps P a r t o w : winv w -> keeps P w (RegisterTimer a r t o w).1.
Proof.
  intros Hw. unfold RegisterTimer. destruct t as [t|]; [|apply keeps_refl].
  destruct ((a <? 0) || (r <=? 0)); [apply keeps_refl|]. constructor; cbn; try done.
  - intros l c _ E. eauto using same_client_refl.
  - intros t0 Ht. rewrite lookup_insert_ne; [done|]. intros <-. pose proof (winv_timers _ Hw _ Ht). lia.
Qed.

Lemma SetWannaRead_dom l b w : dom (_events (SetWannaRead l b w).1) = dom (_events w).
Proof.
  unfold SetWannaRead. destruct (_events w !! l) as [c|] eqn:E; [|done].
  destruct (Bool.eqb b (running_r c)); [done|].
  destruct b; cbn; apply dom_insert_lookup_L; by eexists.
Qed.

Lemma SetWannaWrite_dom l b w : dom (_events (SetWannaWrite l b w).1) = dom (_events w).
Proof.
  unfold SetWannaWrite. destruct (_events w !! l) as [c|] eqn:E; [|done].
  destruct (Bool.eqb b (running_w c)); [done|].
  destruct b; cbn; apply dom_insert_lookup_L; by eexists.
Qed.

Section Callbacks.
Context {L : Type} {CL : Clients L}.

Abbreviation M := (ST (LinkageWorker * L)).
Implicit Types (s : LinkageWorker * L).

Lemma run_method {A} (f : LinkageWorker -> LinkageWorker * A) s (Q : A -> _ -> Prop) :
  Q (f s.1).2 ((f s.1).1, s.2) -> run (method f) s Q.
Proof. unfold run, method. by destruct (f s.1) as [w a]. Qed.

Lemma run_wget {A} (f : LinkageWorker -> A) s (Q : A -> _ -> Prop) :
  Q (f s.1) s -> run (wget f) s Q.
Proof. done. Qed.

Lemma run_wset f s (Q : unit -> LinkageWorker * L -> Prop) :
  Q tt (f s.1, s.2) -> run (wset f) s Q.
Proof. done. Qed.

(** A program of worker calls keeps the invariant and the clients it does not
    detach; without [WAttach] no client appears. *)
Lemma run_run_wprog {A} P (p : wprog A) s :
  winv s.1 -> avoids P p ->
  run (run_wprog p) s (fun _ s' => winv s'.1 /\ keeps P s.1 s'.1 /\
    (attaches_nothing p -> dom (_events s'.1) ⊆ dom (_events s.1))).
Proof.
  assert (forall (f : LinkageWorker -> LinkageWorker * bool) (k : bool -> wprog A) s,
    (forall b s, winv s.1 -> avoids P (k b) -> run (run_wprog (k b)) s (fun _ s' =>
       winv s'.1 /\ keeps P s.1 s'.1 /\ (attaches_nothing (k b) -> dom (_events s'.1) ⊆ dom (_events s.1)))) ->
    (forall b, avoids P (k b)) -> winv (f s.1).1 -> keeps P s.1 (f s.1).1 ->
    run (let* x := method f in run_wprog (k x)) s (fun _ s' => winv s'.1 /\ keeps P s.1 s'.1 /\
      ((forall b, attaches_nothing (k b)) -> dom (_events (f s.1).1) ⊆ dom (_events s.1) ->
       dom (_events s'.1) ⊆ dom (_events s.1)))) as Hstep.
  { clear. intros f k s IH Ha Hw Hk. apply run_bind, run_method.
    eapply run_mono; [by apply IH|]. cbn [fst]. intros a s' (Hw' & Hk' & Hd).
    split; [done|]. split; [by eapply keeps_trans|]. intros Hn Hs. etrans; [by apply Hd|done]. }
  revert s. induction p; intros s Hw Ha; cbn [run_wprog avoids attaches_nothing] in *.
  - wp. split; [done|]. split; [apply keeps_refl|done].
  - eapply run_mono; [apply Hstep; auto using Attach_winv, Attach_keeps|]. cbn beta. tauto.
  - destruct Ha as [Hl Ha].
    eapply run_mono; [apply Hstep; auto using Detach_winv, Detach_keeps|]. cbn beta.
    intros a s' (? & ? & Hd). split; [done|]. split; [done|]. intros Hn. apply Hd; [done|].
    unfold Detach. destruct linkage as [l|]; [|done]. destruct (_events s.1 !! l) as [c|]; [|done].
    destruct (stop_watchers_rest c s.1) as [loop ->]. cbn. rewrite dom_delete_L. apply subseteq_difference_l. done.
  - eapply run_mono; [apply Hstep; auto using SetWanna_winv, SetWanna_keeps|]. cbn beta.
    intros a s' (? & ? & Hd). split; [done|]. split; [done|]. intros Hn. apply Hd; [done|].
    by rewrite SetWanna_halves, SetWannaWrite_dom, SetWannaRead_dom.
  - eapply run_mono; [apply Hstep; auto using SetWannaRead_winv, SetWannaRead_keeps|]. cbn beta.
    intros a s' (? & ? & Hd). split; [done|]. split; [done|]. intros Hn. apply Hd; [done|].
    by rewrite SetWannaRead_dom.
  - eapply run_mono; [apply Hstep; auto using SetWannaWrite_winv, SetWannaWrite_keeps|]. cbn beta.
    intros a s' (? & ? & Hd). split; [done|]. split; [done|]. intros Hn. apply Hd; [done|].
    by rewrite SetWannaWrite_dom.
  - eapply run_mono; [apply Hstep; auto using RegisterTimer_winv, RegisterTimer_keeps|]. cbn beta.
    intros a s' (? & ? & Hd). split; [done|]. split; [done|]. intros Hn. apply Hd; [done|].
    unfold RegisterTimer. destruct runnable; [|done]. by destruct (_ || _).
  - eapply run_mono; [apply Hstep; auto using SendCommand_winv|].
    + by constructor; eauto using same_client_refl.
    + cbn beta. intros a s' (? & ? & Hd). split; [done|]. split; [done|]. intros Hn. by apply Hd.
Qed.

Lemma run_callback {A} P (f : L -> wprog (L * A)) s :
  winv s.1 -> avoids P (f s.2) ->
  run (callback f) s (fun _ s' => winv s'.1 /\ keeps P s.1 s'.1 /\
    (attaches_nothing (f s.2) -> dom (_events s'.1) ⊆ dom (_events s.1))).
Proof.
  intros Hw Ha. unfold callback. wp. eapply run_mono; [by apply run_run_wprog|].
  intros [l a] s' ?. by wp.
Qed.

Lemma run_callback_ P (f : L -> wprog L) s :
  winv s.1 -> avoids P (f s.2) ->
  run (callback_ f) s (fun _ s' => winv s'.1 /\ keeps P s.1 s'.1).
Proof.
  intros Hw Ha. unfold callback_. wp. eapply run_mono; [by apply run_run_wprog|].
  intros l s' (? & ? & _). by wp.
Qed.

(** ** Serving the clients *)

Lemma avoids_none {A} (p : wprog A) : avoids (fun _ => False) p.
Proof. induction p; cbn; auto. Qed.

(** What the application must respect: the callbacks of a client do not detach
    it, those of a timeout check attach and detach nothing, and a client that
    is told it is disconnected detaches no other. *)
Class Polite : Prop := {
  polite_OnReadable : forall l x, avoids (eq l) (cb_OnReadable l x);
  polite_OnWritable : forall l x, avoids (eq l) (cb_OnWritable l x);
  polite_OnError : forall l b e x, avoids (eq l) (cb_OnError l b e x);
  polite_OnDisconnected : forall l x, avoids (fun _ => True) (cb_OnDisconnected l x);
  polite_Cleanup : forall l now x, avoids (fun _ => True) (cb_Cleanup l now x) /\
                                   attaches_nothing (cb_Cleanup l now x)
}.

Definition alive_in (w : LinkageWorker) (c : client_t) : Prop :=
  exists c', _events w !! clinkage c = Some c' /\ same_client c c'.

Lemma alive_keeps P w w' c : keeps P w w' -> P (clinkage c) -> alive_in w c -> alive_in w' c.
Proof.
  intros Hk HP (c1 & E & S). destruct (keeps_clients _ _ _ Hk _ _ HP E) as (c2 & E2 & S2).
  exists c2. split; [done|]. unfold same_client in *. intuition congruence.
Qed.

Lemma run_alive c s (Q : unit -> _ -> Prop) : alive_in s.1 c -> Q tt s -> run (alive c) s Q.
Proof.
  intros (c' & E & Ha & _) HQ. unfold alive. apply run_bind, run_wget. rewrite E, decide_True by done.
  by wp.
Qed.

Lemma run_reload c s (Q : client_t -> _ -> Prop) :
  alive_in s.1 c -> (forall c', _events s.1 !! clinkage c = Some c' -> same_client c c' -> Q c' s) ->
  run (reload c) s Q.
Proof.
  intros (c' & E & Hs) HQ. unfold reload. apply run_bind, run_wget.
  rewrite E, decide_True by apply Hs. wp. auto.
Qed.

Context {PO : Polite}.

(** A release: the client leaves the map, its linkage is deleted when it is to
    be, and nothing else changes. *)
Definition released (c : client_t) (w w' : LinkageWorker) : Prop :=
  (forall c', clinkage c' <> clinkage c -> alive_in w c' -> alive_in w' c') /\
  deleted w' = (if cauto_release c then clinkage c :: deleted w else deleted w) /\
  deleted_runnables w' = deleted_runnables w.

Lemma run_DoRelease c s :
  winv s.1 -> alive_in s.1 c ->
  run (DoRelease c true) s (fun _ s' => winv s'.1 /\ released c s.1 s'.1).
Proof.
  intros Hw Ha. unfold DoRelease. apply run_bind, run_reload; [done|]. intros c' E Hs.
  apply run_bind, run_wset. apply run_bind, run_wset. cbn [fst snd].
  assert (clinkage c' = clinkage c) as Hl by apply Hs.
  pose proof (remove_winv _ _ _ Hw E) as Hw1. rewrite Hl.
  destruct (stop_watchers_rest c' s.1) as [loop Hst]. rewrite Hst in *.
  change (_events (set_loop loop s.1)) with (_events s.1).
  set (w1 := set_events (delete (clinkage c) (_events s.1)) (set_loop loop s.1)) in *.
  assert (forall c0, clinkage c0 <> clinkage c -> alive_in s.1 c0 -> alive_in w1 c0) as Hothers.
  { intros c0 Hne (c1 & E1 & S1). exists c1. split; [|done]. cbn. by rewrite lookup_delete_ne. }
  unfold DoRelease_end. apply run_bind. eapply run_mono.
  { apply (run_callback_ (fun _ => True)); [done|apply polite_OnDisconnected]. }
  cbn [fst snd]. intros _ s2 [Hw2 Hk2]. rewrite Hl.
  assert (forall c0, clinkage c0 <> clinkage c -> alive_in s.1 c0 -> alive_in s2.1 c0) as Hothers2.
  { intros c0 Hne Hal. eapply (alive_keeps _ _ _ _ Hk2); [done|by apply Hothers]. }
  assert (cauto_release c' = cauto_release c) as -> by apply Hs.
  pose proof (keeps_deleted _ _ _ Hk2) as Hd. pose proof (keeps_deleted_runnables _ _ _ Hk2) as Hr.
  destruct (cauto_release c) eqn:Eauto.
  - apply run_wset. split; [by destruct Hw2|]. split; [|rewrite Eauto; cbn; by rewrite Hd].
    intros c0 Hne Hal. exact (Hothers2 c0 Hne Hal).
  - wp. split; [done|]. split; [done|]. by rewrite Eauto.
Qed.

Lemma run_serve_client (f : Z -> L -> wprog (L * (Z * Z))) b c s :
  (forall l x, avoids (eq l) (f l x)) ->
  winv s.1 -> alive_in s.1 c ->
  run (alive c ;;;
       let* (r, errno) := callback (f (clinkage c)) in
       if r <? 0 then OnError c b errno
       else if r =? 0 then OnDisconnected c
       else ret tt) s (fun _ s' => winv s'.1).
Proof.
  intros Hf Hw Ha. apply run_bind, run_alive; [done|]. apply run_bind.
  eapply run_mono; [by apply (run_callback (eq (clinkage c)))|]. intros [r e] s1 (Hw1 & Hk1 & _).
  assert (alive_in s1.1 c) as Ha1 by by eapply alive_keeps.
  cbn beta iota. apply run_if; intros Hr; [|apply run_if; intros Hr'; [|by wp]].
  - unfold OnError. apply run_bind, run_alive; [done|]. apply run_bind.
    eapply run_mono; [apply (run_callback_ (eq (clinkage c))); [done|apply polite_OnError]|].
    cbn beta. intros _ s2 [Hw2 Hk2].
    eapply run_mono; [apply run_DoRelease; [done|by eapply alive_keeps]|]. by intros _ s3 [? _].
  - eapply run_mono; [by apply run_DoRelease|]. by intros _ s3 [? _].
Qed.

(** The clients a check drops: the ones whose [Cleanup] said no. *)
Lemma run_OnHealthCheck_drops now e clients s :
  winv s.1 -> dom (_events s.1) ⊆ dom e ->
  Forall (fun p => clinkage p.2 = p.1 /\ alive_in s.1 p.2) clients ->
  run (OnHealthCheck_drops now e clients) s (fun drops s' =>
    winv s'.1 /\ keeps (fun _ => True) s.1 s'.1 /\ drops `sublist_of` map snd clients).
Proof.
  revert s. induction clients as [|[l c] clients IH]; intros s Hw Hd Hall; cbn [OnHealthCheck_drops].
  { wp. split; [done|]. split; [apply keeps_refl|done]. }
  inversion Hall as [|? ? [Hl Ha] Hall']; subst. cbn in Ha.
  apply run_bind, run_alive; [done|]. apply run_bind.
  destruct (polite_Cleanup (clinkage c) now s.2) as [Hav Hno].
  eapply run_mono; [by apply (run_callback (fun _ => True))|]. cbn beta.
  intros ok s1 (Hw1 & Hk1 & Hd1). specialize (Hd1 Hno). apply run_bind, run_wget.
  apply run_bind. rewrite decide_True by by etrans. wp.
  eapply run_mono; [apply IH; [done|by etrans|]|].
  - eapply Forall_impl; [exact Hall'|]. intros p [? ?]. split; [done|]. by eapply alive_keeps.
  - cbn beta. intros drops s2 (Hw2 & Hk2 & Hs). wp. split; [done|]. split; [by eapply keeps_trans|].
    cbn. destruct ok; [by apply sublist_cons|by apply sublist_skip].
Qed.

Lemma run_release_all drops s :
  winv s.1 -> NoDup (map clinkage drops) -> Forall (alive_in s.1) drops ->
  run (release_all drops true) s (fun _ s' => winv s'.1).
Proof.
  revert s. induction drops as [|c drops IH]; intros s Hw Hnd Hall; cbn [release_all]; [by wp|].
  inversion Hall as [|? ? Ha Hall']; subst. inversion Hnd as [|? ? Hni Hnd']; subst.
  apply run_bind. eapply run_mono; [by apply run_DoRelease|]. cbn beta.
  intros _ s1 [Hw1 [Ho _]]. apply IH; [done|done|].
  rewrite Forall_forall in Hall' |- *. intros c' Hin. apply Ho; [|by apply Hall'].
  intros Heq. apply Hni. rewrite <- Heq. by apply list_elem_of_fmap_2.
Qed.

Context (iterate : forall A : Type, gmap Z A -> list (Z * A)).
Context (iterate_perm : forall A (m : gmap Z A), iterate A m ≡ₚ map_to_list m).

(** What is iterated is what the map holds. *)
Lemma iterate_elem {A} (m : gmap Z A) l x : (l, x) ∈ iterate A m <-> m !! l = Some x.
Proof. by rewrite iterate_perm, elem_of_map_to_list. Qed.

Lemma iterate_NoDup {A} (m : gmap Z A) : NoDup (map fst (iterate A m)).
Proof. rewrite iterate_perm. apply NoDup_fst_map_to_list. Qed.

Lemma iterate_clients w : winv w ->
  Forall (fun p => clinkage p.2 = p.1 /\ alive_in w p.2) (iterate _ (_events w)) /\
  NoDup (map clinkage (map snd (iterate _ (_events w)))).
Proof.
  intros Hw. assert (Forall (fun p : Z * client_t => clinkage p.2 = p.1) (iterate _ (_events w))) as Hl.
  { apply Forall_forall. intros [l c] E%iterate_elem. by destruct (winv_client _ Hw _ _ E). }
  split.
  - rewrite Forall_forall in Hl |- *. intros [l c] Hin. split; [by apply Hl|].
    apply iterate_elem in Hin as E. specialize (Hl _ Hin). cbn in Hl. subst l. by exists c.
  - rewrite map_map. rewrite (map_ext_Forall _ fst); [apply iterate_NoDup|done].
Qed.

Lemma run_OnHealthCheck now s :
  winv s.1 -> run (OnHealthCheck iterate now) s (fun _ s' => winv s'.1).
Proof.
  intros Hw. unfold OnHealthCheck. destruct (iterate_clients _ Hw) as [Hall Hnd].
  apply run_bind, run_wget. apply run_bind. eapply run_mono; [by apply run_OnHealthCheck_drops|].
  cbn beta. intros drops s1 (Hw1 & Hk1 & Hsub). apply run_bind.
  eapply run_mono; [apply run_release_all; [done| |]|].
  - eapply sublist_NoDup; [exact Hnd|]. by apply (fmap_sublist clinkage).
  - apply Forall_forall. intros c Hin. eapply alive_keeps; [done|done|].
    eapply elem_of_sublist in Hin; [|done]. apply list_elem_of_fmap in Hin as ([l c'] & -> & Hin).
    rewrite Forall_forall in Hall. by apply (Hall _ Hin).
  - cbn beta. intros _ s2 Hw2. by wp.
Qed.

Lemma run_Runnable_Run now r s :
  winv s.1 -> run (Runnable_Run iterate now r) s (fun _ s' => winv s'.1).
Proof.
  intros Hw. unfold Runnable_Run. case_decide; [by apply run_OnHealthCheck|].
  eapply run_mono; [apply (run_callback (fun _ => False)); [done|apply avoids_none]|].
  by intros a s' [? _].
Qed.

Lemma stop_timer_winv a w : winv w ->
  winv (set_timers (delete a (_timers w)) (set_ticking (_ticking w ∖ {[ a ]}) w)).
Proof.
  intros [H1 H2 H3 H4 H5]. constructor; cbn; auto.
  - intros t. rewrite elem_of_difference, elem_of_singleton, H4, lookup_delete_is_Some.
    intuition congruence.
  - intros t [_ Ht]%lookup_delete_is_Some. auto.
Qed.

Lemma run_OnTimer now a t s :
  winv s.1 -> run (OnTimer iterate now a t) s (fun _ s' => winv s'.1).
Proof.
  intros Hw. unfold OnTimer, OnTimer_run. apply run_bind.
  eapply run_mono; [by apply run_Runnable_Run|]. cbn beta. intros ok s1 Hw1.
  apply run_if; intros _; [by wp|]. unfold DoRelease_timer.
  apply run_bind, run_wset. pose proof (stop_timer_winv a _ Hw1) as Hw2.
  apply run_bind, run_if; intros _; [apply run_wset|wp]; apply run_wset; cbn; by destruct Hw2.
Qed.

Lemma run_OnCommand_run q s :
  winv s.1 -> run (OnCommand_run q) s (fun _ s' => winv s'.1).
Proof.
  revert s. induction q as [|[c|] q IH]; intros s Hw; cbn [OnCommand_run]; [by wp| |].
  - apply run_bind. eapply run_mono; [apply (run_callback (fun _ => False)); [done|apply avoids_none]|].
    intros ok s1 [Hw1 _]. apply run_if; intros _; [by apply IH|by wp].
  - apply run_bind, run_wset. wp. by destruct Hw.
Qed.

Lemma run_OnCommand_delete q s :
  winv s.1 -> run (OnCommand_delete q) s (fun _ s' => winv s'.1).
Proof.
  revert s. induction q as [|[c|] q IH]; intros s Hw; cbn [OnCommand_delete]; [by wp| |by apply IH].
  apply run_bind, run_wset, IH. by destruct Hw.
Qed.

Lemma run_OnCommand s : winv s.1 -> run OnCommand s (fun _ s' => winv s'.1).
Proof.
  intros Hw. unfold OnCommand. apply run_bind, run_wget. apply run_bind, run_wset. apply run_bind.
  eapply run_mono; [apply run_OnCommand_run; by destruct Hw|]. cbn beta. intros b s1 Hw1.
  apply run_if; intros _; [by apply run_OnCommand_delete|by wp].
Qed.

(** The client a started watcher belongs to. *)
Lemma client_at_loop w a d : winv w -> (a, d) ∈ _loop w ->
  exists c, client_at a w = Some c /\ alive_in w c.
Proof.
  intros Hw (l & c & E & Ha & _)%(winv_loop _ Hw). unfold client_at.
  destruct (list_find (fun c => caddr c = a) (map snd (map_to_list (_events w)))) as [[i c']|] eqn:Ef.
  - apply list_find_Some in Ef as (Hi & Ha' & _). exists c'. split; [done|].
    apply list_elem_of_lookup_2, list_elem_of_fmap in Hi as ([l' c0] & -> & Hin).
    apply elem_of_map_to_list in Hin. exists c0. cbn. destruct (winv_client _ Hw _ _ Hin) as [-> _].
    split; [done|apply same_client_refl].
  - apply list_find_None in Ef. rewrite Forall_forall in Ef. destruct (Ef c); [|done].
    apply list_elem_of_fmap. exists (l, c). split; [done|]. by apply elem_of_map_to_list.
Qed.

Lemma run_dispatch e s : winv s.1 -> run (dispatch iterate e) s (fun _ s' => winv s'.1).
Proof.
  intros Hw. destruct e as [a d|t now|]; cbn [dispatch]; [| |by apply run_OnCommand].
  - apply run_bind, run_wget. case_decide as Hin; [|by wp].
    destruct (client_at_loop _ _ _ Hw Hin) as (c & Ec & Ha).
    apply run_bind, run_wget. rewrite Ec. destruct d.
    + apply (run_serve_client cb_OnReadable); [apply polite_OnReadable|done|done].
    + apply (run_serve_client cb_OnWritable); [apply polite_OnWritable|done|done].
  - apply run_bind, run_wget. case_decide as Hin; [|by wp].
    apply (winv_ticking _ Hw) in Hin as [tm Et]. apply run_bind, run_wget. rewrite Et.
    by apply run_OnTimer.
Qed.

Lemma run_dispatch_all es s : winv s.1 -> run (dispatch_all iterate es) s (fun _ s' => winv s'.1).
Proof.
  revert s. induction es as [|e es IH]; intros s Hw; cbn [dispatch_all]; [by wp|].
  apply run_bind. eapply run_mono; [by apply run_dispatch|]. auto.
Qed.

Lemma run_Run_loop its s : winv s.1 -> run (Run_loop iterate its) s (fun _ s' => winv s'.1).
Proof.
  revert s. induction its as [|es its IH]; intros s Hw; cbn [Run_loop];
    apply run_bind, run_wget; apply run_if; intros _; try by wp.
  apply run_bind. eapply run_mono; [by apply run_dispatch_all|]. auto.
Qed.

End Callbacks.
