(* ===== verification/LinkageWorkerProps.v ===== *)
(** * What LinkageWorker.v does: its theorems

    The watchers match the clients in every reachable state; a health check
    drops exactly the clients that fail it; leaving the loop releases every
    client and timer once; the commands of a batch are run in order and
    deleted, except when one of them is the command to shut down. *)

From S2P Require Import Prelude StateMonad LinkageWorker LinkageWorkerFacts.

Section LinkageWorkerProps.
Context {L : Type} {CL : Clients L}.
Context (iterate : forall A : Type, gmap Z A -> list (Z * A)).
Context (iterate_perm : forall A (m : gmap Z A), iterate A m ≡ₚ map_to_list m).

Implicit Types (s : LinkageWorker * L).

(** ** Releases without callbacks to the worker *)

(** [OnDisconnected] of the linkages does not call the worker. *)
Definition silent_OnDisconnected (bye : Z -> L -> L) : Prop :=
  forall l x, cb_OnDisconnected l x = WRet (bye l x).

Lemma run_callback_silent (f : L -> wprog L) x s (Q : unit -> _ -> Prop) :
  f s.2 = WRet x -> Q tt (s.1, x) -> run (callback_ f) s Q.
Proof. intros E HQ. unfold callback_. wp. rewrite E. cbn [run_wprog]. by wp. Qed.

(** The linkages a release deletes, the last first. *)
Definition deletes (cs : list client_t) : list Z :=
  rev (map clinkage (filter (fun c => cauto_release c = true) cs)).

Lemma deletes_cons c cs :
  deletes (c :: cs) = deletes cs ++ (if cauto_release c then [clinkage c] else []).
Proof.
  unfold deletes. rewrite filter_cons. destruct (cauto_release c); [done|].
  rewrite decide_False by done. by rewrite app_nil_r.
Qed.

(** One release, exactly. *)
Lemma run_DoRelease_silent bye c (b : bool) s (Q : unit -> LinkageWorker * L -> Prop) :
  silent_OnDisconnected bye -> _events s.1 !! clinkage c = Some c ->
  (let w := if b then set_events (delete (clinkage c) (_events s.1)) (stop_watchers c s.1)
            else stop_watchers c s.1 in
   Q tt (if cauto_release c then delete_linkage (clinkage c) w else w, bye (clinkage c) s.2)) ->
  run (DoRelease c b) s Q.
Proof.
  intros Hs E HQ. unfold DoRelease. apply run_bind, run_reload; [by exists c|].
  intros c' E' _. assert (c' = c) as -> by congruence.
  apply run_bind, run_wset. cbn [fst snd]. unfold DoRelease_end.
  assert (_events (stop_watchers c s.1) = _events s.1) as Hev.
  { by destruct (stop_watchers_rest c s.1) as [loop ->]. }
  cbv zeta in HQ.
  destruct b; [apply run_bind, run_wset|apply run_bind; wp]; cbn [fst snd];
    apply run_bind; (eapply run_callback_silent; [apply Hs|]); cbn [fst snd]; rewrite ?Hev;
    destruct (cauto_release c); try (apply run_wset; exact HQ); wp; exact HQ.
Qed.

(** ** Leaving the loop *)

Lemma run_release_all_kept bye cs s :
  silent_OnDisconnected bye ->
  Forall (fun c => _events s.1 !! clinkage c = Some c) cs ->
  run (release_all cs false) s (fun _ s' =>
    _events s'.1 = _events s.1 /\ _timers s'.1 = _timers s.1 /\ _ticking s'.1 = _ticking s.1 /\
    deleted s'.1 = deletes cs ++ deleted s.1 /\ deleted_runnables s'.1 = deleted_runnables s.1 /\
    forall a d, (a, d) ∈ _loop s'.1 <->
      (a, d) ∈ _loop s.1 /\ ~ Exists (fun c => a = caddr c /\ running d c = true) cs).
Proof.
  intros Hs. revert s. induction cs as [|c cs IH]; intros s Hall; cbn [release_all].
  { wp. do 5 (split; [done|]). intros a d. rewrite Exists_nil. tauto. }
  inversion Hall as [|? ? E Hall']; subst. apply run_bind. eapply run_DoRelease_silent; [done|done|].
  cbv zeta. destruct (stop_watchers_rest c s.1) as [loop Hst].
  pose proof (stop_watchers_loop c s.1) as Hl. rewrite Hst in *. cbn in Hl.
  set (s1 := (_, _)).
  assert (_events s1.1 = _events s.1 /\ _timers s1.1 = _timers s.1 /\ _ticking s1.1 = _ticking s.1 /\
    deleted s1.1 = (if cauto_release c then [clinkage c] else []) ++ deleted s.1 /\
    deleted_runnables s1.1 = deleted_runnables s.1 /\ _loop s1.1 = loop) as (He & Ht & Hk & Hd & Hr & Hlp).
  { unfold s1. by destruct (cauto_release c). }
  clearbody s1. eapply run_mono; [apply IH; by rewrite He|]. cbn beta.
  intros _ s2 (He2 & Ht2 & Hk2 & Hd2 & Hr2 & Hl2).
  do 3 (split; [congruence|]). split; [by rewrite Hd2, Hd, deletes_cons, <- app_assoc|].
  split; [congruence|]. intros a d. rewrite Hl2, Hlp, Hl, Exists_cons.
  destruct d; cbn; destruct (running_r c), (running_w c); loop_elem.
Qed.

Lemma run_release_timers l s :
  run (release_timers l) s (fun _ s' =>
    _events s'.1 = _events s.1 /\ _loop s'.1 = _loop s.1 /\ deleted s'.1 = deleted s.1 /\
    deleted_runnables s'.1 = rev (map trunnable (filter (fun t => tauto_release t = true) (map snd l)))
      ++ deleted_runnables s.1 /\
    forall t, t ∈ _ticking s'.1 <-> t ∈ _ticking s.1 /\ t ∉ map fst l).
Proof.
  revert s. induction l as [|[a t] l IH]; intros s; cbn [release_timers].
  { wp. do 4 (split; [done|]). intros t. split; [|tauto]. intros Ht. split; [done|]. apply not_elem_of_nil. }
  unfold DoRelease_timer. apply run_bind, run_bind, run_wset, run_bind.
  assert (run (if tauto_release t then wset (delete_runnable (trunnable t)) else ret tt)
    (set_ticking (_ticking s.1 ∖ {[a]}) s.1, s.2) (fun _ s' => _events s'.1 = _events s.1 /\
      _loop s'.1 = _loop s.1 /\ deleted s'.1 = deleted s.1 /\
      deleted_runnables s'.1 = (if tauto_release t then [trunnable t] else []) ++ deleted_runnables s.1 /\
      _ticking s'.1 = _ticking s.1 ∖ {[a]})) as Hd by by destruct (tauto_release t).
  eapply run_mono; [exact Hd|]. cbn beta. clear Hd. intros _ s1 (He & Hl & Hd & Hr & Ht). wp.
  eapply run_mono; [apply IH|]. cbn beta. intros _ s2 (He2 & Hl2 & Hd2 & Hr2 & Ht2).
  do 3 (split; [congruence|]). split.
  - rewrite Hr2, Hr. cbn [map snd]. rewrite filter_cons. destruct (tauto_release t).
    + rewrite decide_True by done. cbn. by rewrite <- app_assoc.
    + by rewrite decide_False.
  - intros t0. rewrite Ht2, Ht. cbn [map fst]. rewrite not_elem_of_cons, elem_of_difference, elem_of_singleton.
    tauto.
Qed.

(** When the loop ends, every client and timer is released once: their
    watchers are stopped, the linkages and runnables attached to be released
    are deleted, each once, and no others. *)
Theorem worker_Run_end_releases bye fin s :
  silent_OnDisconnected bye -> (forall x, cb_OnShutdown x = WRet (fin x)) -> winv s.1 ->
  run (Run_end iterate) s (fun _ s' =>
    _events s'.1 = ∅ /\ _timers s'.1 = ∅ /\ _loop s'.1 = ∅ /\ _ticking s'.1 = ∅ /\
    deleted s'.1 ≡ₚ
      map clinkage (filter (fun c => cauto_release c = true) (map snd (map_to_list (_events s.1))))
      ++ deleted s.1 /\
    deleted_runnables s'.1 ≡ₚ
      map trunnable (filter (fun t => tauto_release t = true) (map snd (map_to_list (_timers s.1))))
      ++ deleted_runnables s.1).
Proof.
  intros Hs Hfin Hw. unfold Run_end. apply run_bind. eapply run_callback_silent; [apply Hfin|].
  apply run_bind, run_wget. cbn [fst]. apply run_bind. eapply run_mono.
  { apply (run_release_all_kept bye); [done|]. apply Forall_forall. intros c Hin. cbn [fst].
    apply list_elem_of_fmap in Hin as ([l c'] & -> & E). apply (iterate_elem iterate iterate_perm) in E.
    cbn. by destruct (winv_client _ Hw _ _ E) as [-> _]. }
  cbn [fst snd]. intros _ s1 (He & Ht & Hk & Hd & Hr & Hl). apply run_bind, run_wget, run_bind.
  eapply run_mono; [apply run_release_timers|]. cbn beta.
  intros _ s2 (He2 & Hl2 & Hd2 & Hr2 & Ht2). apply run_bind, run_wset, run_wset. cbn [fst].
  do 2 (split; [done|]). split; [|split; [|split]].
  - change (_loop s2.1 = ∅). apply set_eq. intros [a d]. rewrite Hl2, Hl, elem_of_empty. split; [|done].
    intros [(l & c & E & Ha & Hrun)%(winv_loop _ Hw) Hno]. apply Hno, Exists_exists. exists c.
    split; [|done]. apply list_elem_of_fmap. exists (l, c). split; [done|].
    by apply (iterate_elem iterate iterate_perm).
  - change (_ticking s2.1 = ∅). apply set_eq. intros t. rewrite Ht2, Hk, Ht, elem_of_empty. split; [|done].
    intros [Hin Hno]. apply Hno. apply (winv_ticking _ Hw) in Hin as [tm E].
    apply list_elem_of_fmap. exists (t, tm). split; [done|]. by apply (iterate_elem iterate iterate_perm).
  - change (deleted s2.1 ≡ₚ map clinkage (filter (fun c => cauto_release c = true)
      (map snd (map_to_list (_events s.1)))) ++ deleted s.1).
    rewrite Hd2, Hd. apply Permutation_app; [|done]. unfold deletes. rewrite <- Permutation_rev.
    by rewrite iterate_perm.
  - change (deleted_runnables s2.1 ≡ₚ map trunnable (filter (fun t => tauto_release t = true)
      (map snd (map_to_list (_timers s.1)))) ++ deleted_runnables s.1).
    rewrite Hr2, Hr, Ht. apply Permutation_app; [|done]. rewrite <- Permutation_rev.
    by rewrite iterate_perm.
Qed.

(** ** Health checks *)

Lemma run_drops_pure healthy now e clients s :
  (forall l n x, cb_Cleanup l n x = WRet (x, healthy l n)) ->
  dom (_events s.1) ⊆ dom e ->
  Forall (fun p => alive_in s.1 p.2) clients ->
  run (OnHealthCheck_drops now e clients) s (fun drops s' =>
    s' = s /\ drops = filter (fun c => healthy (clinkage c) now = false) (map snd clients)).
Proof.
  intros Hc Hd. induction clients as [|[l c] clients IH]; intros Hall; cbn [OnHealthCheck_drops]; [by wp|].
  inversion Hall as [|? ? Ha Hall']; subst. cbn in Ha.
  apply run_bind, run_alive; [done|]. unfold callback. wp. rewrite Hc. cbn [run_wprog]. wp.
  apply run_wget. apply run_bind. cbn [fst]. rewrite decide_True by done. wp.
  destruct s as [w x]. eapply run_mono; [by apply IH|]. cbn beta. intros drops s' [-> ->]. wp.
  split; [done|]. cbn [map snd]. rewrite filter_cons. destruct (healthy (clinkage c) now) eqn:E.
  - by rewrite decide_False.
  - by rewrite decide_True.
Qed.

Lemma run_release_all_dropped bye cs s :
  silent_OnDisconnected bye -> NoDup (map clinkage cs) ->
  Forall (fun c => _events s.1 !! clinkage c = Some c) cs ->
  run (release_all cs true) s (fun _ s' =>
    deleted s'.1 = deletes cs ++ deleted s.1 /\
    forall l, _events s'.1 !! l = if decide (l ∈ map clinkage cs) then None else _events s.1 !! l).
Proof.
  intros Hs. revert s. induction cs as [|c cs IH]; intros s Hnd Hall; cbn [release_all].
  { wp. split; [done|]. intros l. cbn [map]. rewrite decide_False; [done|apply not_elem_of_nil]. }
  inversion Hall as [|? ? E Hall']; subst. inversion Hnd as [|? ? Hni Hnd']; subst.
  apply run_bind. eapply run_DoRelease_silent; [done|done|]. cbv zeta.
  destruct (stop_watchers_rest c s.1) as [loop ->]. set (s1 := (_, _)).
  assert (_events s1.1 = delete (clinkage c) (_events s.1) /\
    deleted s1.1 = (if cauto_release c then [clinkage c] else []) ++ deleted s.1) as [He Hd].
  { unfold s1. by destruct (cauto_release c). }
  clearbody s1. eapply run_mono; [apply IH; [done|]|].
  - rewrite He. rewrite Forall_forall in Hall' |- *. intros c' Hin. rewrite lookup_delete_ne; [by apply Hall'|].
    intros Heq. apply Hni. rewrite Heq. by apply list_elem_of_fmap_2.
  - cbn beta. intros _ s2 (Hd2 & He2). split; [by rewrite Hd2, Hd, deletes_cons, <- app_assoc|].
    intros l. rewrite He2, He. cbn [map]. destruct (decide (l = clinkage c)) as [->|Hne].
    + rewrite (decide_True (P := clinkage c ∈ clinkage c :: map clinkage cs)) by apply list_elem_of_here.
      case_decide; [done|]. by rewrite lookup_delete_eq.
    + rewrite lookup_delete_ne by done.
      destruct (decide (l ∈ map clinkage cs)) as [Hin|Hout].
      * rewrite decide_True; [done|by right].
      * rewrite decide_False; [done|]. by intros [?|?]%elem_of_cons.
Qed.

(** A health check drops exactly the clients that fail it: they leave the
    map and are deleted if they are to be, every other client stays as it is. *)
Theorem worker_OnHealthCheck_exact bye healthy now s :
  silent_OnDisconnected bye -> (forall l n x, cb_Cleanup l n x = WRet (x, healthy l n)) -> winv s.1 ->
  run (OnHealthCheck iterate now) s (fun _ s' =>
    _events s'.1 = filter (fun p => healthy p.1 now = true) (_events s.1) /\
    deleted s'.1 ≡ₚ
      map clinkage (filter (fun c => cauto_release c = true)
        (filter (fun c => healthy (clinkage c) now = false) (map snd (map_to_list (_events s.1)))))
      ++ deleted s.1).
Proof.
  intros Hs Hc Hw. unfold OnHealthCheck. destruct (iterate_clients iterate iterate_perm _ Hw) as [Hall Hnd].
  apply run_bind, run_wget. apply run_bind. eapply run_mono.
  { apply (run_drops_pure healthy); [done|done|]. eapply Forall_impl; [exact Hall|]. by intros p [_ ?]. }
  cbn beta. intros drops s' [-> ->]. set (drops := filter _ _). apply run_bind.
  assert (forall c, c ∈ drops <-> _events s.1 !! clinkage c = Some c /\ healthy (clinkage c) now = false) as Hdrops.
  { intros c. unfold drops. rewrite list_elem_of_filter, list_elem_of_fmap. split.
    - intros (Hh & [l c'] & -> & E). apply (iterate_elem iterate iterate_perm) in E. cbn in *.
      destruct (winv_client _ Hw _ _ E) as [Hl _]. rewrite Hl in *. done.
    - intros [E Hh]. split; [done|]. exists (clinkage c, c). split; [done|].
      by apply (iterate_elem iterate iterate_perm). }
  eapply run_mono; [apply (run_release_all_dropped bye); [done| |]|].
  - eapply sublist_NoDup; [exact Hnd|]. apply (fmap_sublist clinkage), sublist_filter.
  - apply Forall_forall. intros c Hin. by apply Hdrops.
  - cbn beta. intros _ s2 [Hd He]. wp. split.
    + apply map_eq. intros l. rewrite He, map_lookup_filter.
      destruct (_events s.1 !! l) as [c|] eqn:E; cbn; [|by case_decide].
      destruct (winv_client _ Hw _ _ E) as [Hl _].
      case_decide as Hin; case_guard as Hh; try done; cbn.
      * apply list_elem_of_fmap in Hin as (c' & -> & Hin). apply Hdrops in Hin as [_ Hh']. congruence.
      * destruct Hin. apply list_elem_of_fmap. exists c. split; [done|]. apply Hdrops.
        rewrite Hl. split; [done|]. by destruct (healthy l now).
    + rewrite Hd. apply Permutation_app; [|done]. unfold deletes. rewrite <- Permutation_rev.
      unfold drops. by rewrite iterate_perm.
Qed.

(** ** Commands *)

(** Whatever the worker answers, the program returns a value of [Q]. *)
Fixpoint returns {A} (Q : A -> Prop) (p : wprog A) : Prop :=
  match p with
  | WRet a => Q a
  | WDetach _ k | WSetWanna _ _ _ k | WSetWannaRead _ _ k | WSetWannaWrite _ _ k
  | WAttach _ _ _ _ _ k | WRegisterTimer _ _ _ _ k | WSendCommand _ k => forall b, returns Q (k b)
  end.

Lemma run_wprog_returns {A} (Q : A -> Prop) (p : wprog A) s :
  returns Q p -> run (run_wprog p) s (fun a _ => Q a).
Proof.
  revert s. induction p; intros s Hr; cbn [run_wprog returns] in *; [by wp|..];
    apply run_bind, run_method; auto.
Qed.

Lemma run_callback_returns {A} (Q : A -> Prop) (f : L -> wprog (L * A)) s :
  returns (fun p => Q p.2) (f s.2) -> run (callback f) s (fun a _ => Q a).
Proof.
  intros Hr. unfold callback. wp. eapply run_mono; [by apply (run_wprog_returns (fun p => Q p.2))|].
  intros [l a] s' Ha. by wp.
Qed.

Lemma run_command c s :
  winv s.1 ->
  run (callback (cb_Run c)) s (fun _ s' =>
    winv s'.1 /\ deleted_runnables s'.1 = deleted_runnables s.1 /\ _quit s'.1 = _quit s.1).
Proof.
  intros Hw. eapply run_mono; [apply (run_callback (fun _ => False)); [done|apply avoids_none]|].
  cbn beta. intros ok s' (? & [] & _). split; [done|]. by split.
Qed.

Lemma run_OnCommand_run_all q s :
  winv s.1 -> None ∉ q ->
  run (OnCommand_run q) s (fun finished s' =>
    finished = true /\ deleted_runnables s'.1 = deleted_runnables s.1 /\ _quit s'.1 = _quit s.1).
Proof.
  revert s. induction q as [|[c|] q IH]; intros s Hw Hq; cbn [OnCommand_run]; [by wp| |].
  - apply not_elem_of_cons in Hq as [_ Hq]. apply run_bind. eapply run_mono; [by apply run_command|].
    cbn beta. intros ok s1 (Hw1 & Hd1 & Hq1). apply run_if; intros _; [|by wp].
    eapply run_mono; [by apply IH|]. cbn beta. intros f s2 (-> & Hd2 & Hq2). by rewrite Hd2, Hq2.
  - destruct Hq. by left.
Qed.

Lemma run_OnCommand_run_null q post s :
  winv s.1 -> (forall r x, returns (fun p => p.2 = true) (cb_Run r x)) ->
  run (OnCommand_run (map Some q ++ None :: post)) s (fun finished s' =>
    finished = false /\ deleted_runnables s'.1 = deleted_runnables s.1 /\ _quit s'.1 = true).
Proof.
  intros Hw Hr. revert s Hw. induction q as [|c q IH]; intros s Hw; cbn [OnCommand_run map app].
  - apply run_bind, run_wset. by wp.
  - apply run_bind. eapply run_mono; [apply run_and; [by apply run_command|]|].
    { apply (run_callback_returns (fun ok => ok = true)), Hr. }
    cbn beta. intros ok s1 ((Hw1 & Hd1 & _) & ->).
    eapply run_mono; [by apply IH|]. cbn beta. intros f s2 (-> & Hd2 & ->). by rewrite Hd2.
Qed.

Lemma run_OnCommand_delete_all q s :
  run (OnCommand_delete q) s (fun _ s' =>
    deleted_runnables s'.1 = rev (omap id q) ++ deleted_runnables s.1 /\ _quit s'.1 = _quit s.1).
Proof.
  revert s. induction q as [|[c|] q IH]; intros s; cbn [OnCommand_delete]; [by wp| |apply IH].
  apply run_bind, run_wset. eapply run_mono; [apply IH|]. cbn. intros _ s' [-> ->].
  by rewrite <- app_assoc.
Qed.

(** A batch of commands: without the command to shut down, each command
    is deleted once when the batch is done; the batch with it stops the loop
    there, and none of its commands is ever deleted, not even those that ran. *)
Theorem worker_OnCommand_batch s :
  winv s.1 ->
  run OnCommand s (fun _ s' =>
    (None ∉ _commands s.1 ->
       deleted_runnables s'.1 = rev (omap id (_commands s.1)) ++ deleted_runnables s.1 /\
       _quit s'.1 = _quit s.1) /\
    (forall q post, _commands s.1 = map Some q ++ None :: post ->
       (forall r x, returns (fun p => p.2 = true) (cb_Run r x)) ->
       deleted_runnables s'.1 = deleted_runnables s.1 /\ _quit s'.1 = true)).
Proof.
  intros Hw. assert (winv (set_commands [] s.1)) as Hw' by by destruct Hw.
  assert (run OnCommand s (fun _ _ => True)) as Hok by (eapply run_mono; [by apply run_OnCommand|done]).
  apply run_and.
  - apply run_implies; [done|]. intros Hout. unfold OnCommand.
    apply run_bind, run_wget, run_bind, run_wset, run_bind.
    eapply run_mono; [by apply run_OnCommand_run_all|]. cbn beta.
    intros f s1 (-> & Hd1 & Hq1). eapply run_mono; [apply run_OnCommand_delete_all|]. cbn beta.
    intros _ s2 (-> & ->). by rewrite Hd1, Hq1.
  - apply run_forall; [done|]. intros q. apply run_forall; [done|]. intros post.
    apply run_implies; [done|]. intros Eq. apply run_implies; [done|]. intros Hr. unfold OnCommand.
    apply run_bind, run_wget, run_bind, run_wset, run_bind. rewrite Eq.
    eapply run_mono; [by apply run_OnCommand_run_null|]. cbn beta.
    intros f s1 (-> & Hd1 & Hq1). wp. by rewrite Hd1.
Qed.

(** C6: the worker never serves a client that is gone, if the callbacks of the
    application keep the contract [Polite]: from a state where the watchers
    match the clients, whatever the kernel reports in any number of iterations,
    every callback runs on a client of the map, and the watchers still match
    the clients. *)
Theorem worker_serves_live_clients its s :
  Polite -> winv s.1 ->
  exists b s', Run_loop iterate its s = Ok (b, s') /\ winv s'.1.
Proof.
  intros HP Hw. apply run_ok. by apply run_Run_loop.
Qed.


End LinkageWorkerProps.

(** ** A worker with two clients *)

(** A client asks to write once it has read; clients at odd addresses hang up
    then, and clients are healthy until a time that is their address. *)
#[export] Instance demo_clients : Clients Z := {|
  cb_OnReadable l x := WSetWanna l true true (fun _ => WRet (x + 1, (if Z.odd l then 0 else 1, 0)));
  cb_OnWritable l x := WSetWannaWrite l false (fun _ => WRet (x, (1, 0)));
  cb_OnError l b e x := WRet x;
  cb_OnDisconnected l x := WRet (x + 100);
  cb_Cleanup l now x := WRet (x, now <? l);
  cb_Run r x := WRet (x, true);
  cb_OnInitialize x := WRet (x, true);
  cb_OnShutdown x := WRet x
|}.

Definition demo_iterate (A : Type) (m : gmap Z A) : list (Z * A) := map_to_list m.

Lemma demo_polite : Polite.
Proof. constructor; intros; cbn; auto. Qed.

(** Clients at 7 and 8, a timer, and two commands. *)
Definition demo_worker : LinkageWorker :=
  let w := (Attach (Some 7) 3 true false true LinkageWorker_new).1 in
  let w := (Attach (Some 8) 4 true false false w).1 in
  let w := (RegisterTimer_interval 1000000000 (Some HEALTH) true w).1 in
  let w := (SendCommand (Some 20) w).1 in
  (SendCommand (Some 21) w).1.

Lemma demo_worker_winv : winv demo_worker.
Proof.
  apply SendCommand_winv, SendCommand_winv, RegisterTimer_winv, Attach_winv, Attach_winv, winv_new.
Qed.

Lemma worker_Run_end_releases_witness :
  run (Run_end demo_iterate) (demo_worker, 0) (fun _ s' =>
    _loop s'.1 = ∅ /\ deleted s'.1 ≡ₚ [7] /\ deleted_runnables s'.1 ≡ₚ [HEALTH]).
Proof.
  eapply run_mono.
  - apply (worker_Run_end_releases demo_iterate (fun _ _ => reflexivity _) (fun _ x => x + 100) (fun x => x)).
    + intros l x. reflexivity.
    + intros x. reflexivity.
    + apply demo_worker_winv.
  - intros [] s' (_ & _ & Hl & _ & Hd & Hr). split; [exact Hl|]. split; [exact Hd|exact Hr].
Defined.

Lemma worker_OnHealthCheck_exact_witness :
  run (OnHealthCheck demo_iterate 7) (demo_worker, 0) (fun _ s' =>
    _events s'.1 !! 7 = None /\ is_Some (_events s'.1 !! 8) /\ deleted s'.1 ≡ₚ [7]).
Proof.
  eapply run_mono.
  - apply (worker_OnHealthCheck_exact demo_iterate (fun _ _ => reflexivity _) (fun _ x => x + 100)
             (fun l n => n <? l) 7).
    + intros l x. reflexivity.
    + intros l n x. reflexivity.
    + apply demo_worker_winv.
  - intros b s' [He Hd]. rewrite He. split; [vm_compute; reflexivity|].
    split; [vm_compute; by eexists|exact Hd].
Defined.

Lemma worker_OnCommand_batch_witness :
  run OnCommand (demo_worker, 0) (fun _ s' => deleted_runnables s'.1 = [21; 20] /\ _quit s'.1 = false) /\
  run OnCommand ((Shutdown demo_worker).1, 0) (fun _ s' => deleted_runnables s'.1 = [] /\ _quit s'.1 = true).
Proof.
  split.
  - eapply run_mono; [apply (worker_OnCommand_batch (demo_worker, 0)); apply demo_worker_winv|].
    intros [] s' [Hd _]. destruct Hd as [Hd Hq]; [apply (bool_decide_unpack _); vm_compute; exact Logic.I|].
    rewrite Hd, Hq. vm_compute. split; reflexivity.
  - eapply run_mono; [apply (worker_OnCommand_batch ((Shutdown demo_worker).1, 0))|].
    + apply SendCommand_winv, demo_worker_winv.
    + intros [] s' [_ Hd]. destruct (Hd [20; 21] []) as [Hd' Hq]; [reflexivity| |].
      * intros r x. reflexivity.
      * rewrite Hd', Hq. split; reflexivity.
Defined.

(** Both clients become readable in one iteration, then the shutdown comes. *)
Lemma worker_serves_live_clients_witness :
  exists b s', Run_loop demo_iterate
      [[fire_io 1 EV_READ; fire_io 2 EV_READ; fire_io 2 EV_WRITE; fire_io 1 EV_READ]; [fire_timer 3 9; fire_async]]
      (demo_worker, 0) = Ok (b, s') /\ winv s'.1.
Proof.
  apply (worker_serves_live_clients demo_iterate (fun _ _ => reflexivity _)).
  - apply demo_polite.
  - apply demo_worker_winv.
Defined.
