(* ===== verification/AbstractIo.v ===== *)
(** * The I/O engine of a connection: linkage/abstract_io.h, file_descriptor_io.cpp

    [AbstractIo] is the interface that [Linkage] is written against, with
    what an engine promises its client.  [FileDescriptorIo] is the engine of
    plain sockets; it keeps the promises whatever the kernel does, as long as
    read and write respect their counts and do not fail with EINTR for ever. *)

From S2P Require Import Prelude.

Inductive Status : Type :=
| kStatusOk
| kStatusBug
| kStatusError
| kStatusJammed
| kStatusClosed
| kStatusWannaRead
| kStatusWannaWrite.

Inductive Action : Type :=
| kActionNone
| kActionRead
| kActionWrite
| kActionAccept
| kActionConnect
| kActionShutdown.

#[export] Instance Status_eq_dec : EqDecision Status.
Proof. solve_decision. Defined.

#[export] Instance Action_eq_dec : EqDecision Action.
Proof. solve_decision. Defined.

(** What [Initialize] stores through its pointers. *)
Record wishes : Type := mkWishes {
  action : Action;
  next_action : Action;
  wanna_read : bool;
  wanna_write : bool
}.

(** The engine, its state being of type [I].  [written] is the stream of
    bytes the peer will get, [internal] bounds the successive calls of [Read]
    that an internal buffer can ask for with [more]. *)
Class AbstractIo (I : Type) := {
  io_Initialize : I -> I * option wishes;
  io_Read : Z -> I -> I * Status * bytes * bool;
  io_Write : bytes -> I -> I * Status * Z;
  io_Shutdown : I -> I * Status;
  io_Connect : I -> I * Status;
  io_Accept : I -> I * Status;

  written : I -> bytes;
  internal : I -> nat;

  Initialize_wishes : forall i i' w, io_Initialize i = (i', Some w) ->
    (action w = kActionNone \/ next_action w = kActionNone) /\
    (action w = kActionNone \/ action w = kActionAccept \/ action w = kActionConnect) /\
    (next_action w <> kActionNone -> wanna_read w || wanna_write w = true);
  Initialize_written : forall i, written (io_Initialize i).1 = written i;
  Read_more : forall n i i' s b, io_Read n i = (i', s, b, true) ->
    (internal i' < internal i)%nat;
  Read_internal : forall n i, (internal (io_Read n i).1.1.1 <= internal i)%nat;
  Read_written : forall n i, written (io_Read n i).1.1.1 = written i;
  Write_ok : forall b i i' n, io_Write b i = (i', kStatusOk, n) ->
    0 <= n <= zlen b /\ written i' = written i ++ take (Z.to_nat n) b;
  Write_not_ok : forall b i i' s n, io_Write b i = (i', s, n) -> s <> kStatusOk ->
    written i' = written i;
  Write_internal : forall b i, (internal (io_Write b i).1.1 <= internal i)%nat;
  Shutdown_internal : forall i, (internal (io_Shutdown i).1 <= internal i)%nat;
  Shutdown_written : forall i, written (io_Shutdown i).1 = written i;
  Connect_internal : forall i, (internal (io_Connect i).1 <= internal i)%nat;
  Connect_written : forall i, written (io_Connect i).1 = written i;
  Accept_internal : forall i, (internal (io_Accept i).1 <= internal i)%nat;
  Accept_written : forall i, written (io_Accept i).1 = written i
}.

(** ** The kernel, as safeio.c and interface.cpp see it

    A call fails with an error number or returns its result.  [interrupts]
    bounds the calls that fail with EINTR one after another. *)

Definition EINTR : Z := 4.
Definition EAGAIN : Z := 11.
Definition EWOULDBLOCK : Z := EAGAIN.
Definition EINVAL : Z := 22.
Definition EPIPE : Z := 32.
Definition ENOTCONN : Z := 107.

Class Kernel (K : Type) := {
  sys_read : Z -> Z -> K -> K * (Z + bytes);
  sys_write : Z -> bytes -> K -> K * (Z + Z);
  sys_shutdown : Z -> K -> K * option Z;
  sys_so_error : Z -> K -> K * (Z + Z);

  sent_bytes : K -> bytes;
  interrupts : K -> nat;

  sys_read_interrupted : forall fd n k k', sys_read fd n k = (k', inl EINTR) ->
    (interrupts k' < interrupts k)%nat;
  sys_read_sent : forall fd n k, sent_bytes (sys_read fd n k).1 = sent_bytes k;
  sys_write_interrupted : forall fd b k k', sys_write fd b k = (k', inl EINTR) ->
    (interrupts k' < interrupts k)%nat;
  sys_write_sent : forall fd b k k' n, sys_write fd b k = (k', inr n) ->
    0 <= n <= zlen b /\ sent_bytes k' = sent_bytes k ++ take (Z.to_nat n) b;
  sys_write_failed : forall fd b k k' e, sys_write fd b k = (k', inl e) ->
    sent_bytes k' = sent_bytes k;
  sys_shutdown_sent : forall fd k, sent_bytes (sys_shutdown fd k).1 = sent_bytes k;
  sys_so_error_sent : forall fd k, sent_bytes (sys_so_error fd k).1 = sent_bytes k
}.

Section FileDescriptorIo.
Context {K : Type} {KK : Kernel K}.

(** The loops that restart a call after EINTR. *)
Fixpoint restart {A : Type} (fuel : nat) (call : K -> K * (Z + A)) (k : K) : K * (Z + A) :=
  match fuel with
  | O => call k
  | S fuel =>
      match call k with
      | (k, inl e) => if e =? EINTR then restart fuel call k else (k, inl e)
      | r => r
      end
  end.

Definition safe_read (fd n : Z) (k : K) : K * (Z + bytes) :=
  if fd <? 0 then (k, inl EINVAL) else restart (interrupts k) (sys_read fd n) k.

Definition safe_write (fd : Z) (b : bytes) (k : K) : K * (Z + Z) :=
  if fd <? 0 then (k, inl EINVAL) else restart (interrupts k) (sys_write fd b) k.

Definition safe_test_if_connected (fd : Z) (k : K) : K * Z :=
  match sys_so_error fd k with
  | (k, inl _) => (k, -1)
  | (k, inr error) => if error =? 0 then (k, 0) else (k, -1)
  end.

(** [Interface::Shutdown] *)
Definition Interface_Shutdown (socket : Z) (k : K) : K * bool :=
  if socket <? 0 then (k, true)
  else match sys_shutdown socket k with
       | (k, Some e) => (k, e =? ENOTCONN)
       | (k, None) => (k, true)
       end.

(** The engine with the kernel it talks to; [_i] is the descriptor of its
    interface. *)
Record FileDescriptorIo : Type := mkFdIo {
  _i : Z;
  _connecting : bool;
  kernel : K
}.

Definition with_kernel (k : K) (f : FileDescriptorIo) : FileDescriptorIo :=
  mkFdIo (_i f) (_connecting f) k.

Definition fd_Write (b : bytes) (f : FileDescriptorIo) : FileDescriptorIo * Status * Z :=
  let fd := _i f in
  if fd <? 0 then (f, kStatusBug, 0)
  else match safe_write fd b (kernel f) with
       | (k, inr ret) => (with_kernel k f, kStatusOk, ret)
       | (k, inl errno) =>
           let s := if (errno =? EAGAIN) || (errno =? EWOULDBLOCK) then kStatusJammed
                    else if errno =? EPIPE then kStatusClosed
                    else kStatusError in
           (with_kernel k f, s, 0)
       end.

Definition fd_Read (n : Z) (f : FileDescriptorIo) : FileDescriptorIo * Status * bytes * bool :=
  let fd := _i f in
  if fd <? 0 then (f, kStatusBug, [], false)
  else match safe_read fd n (kernel f) with
       | (k, inr []) => (with_kernel k f, kStatusClosed, [], false)
       | (k, inr b) => (with_kernel k f, kStatusOk, b, false)
       | (k, inl errno) =>
           let s := if (errno =? EAGAIN) || (errno =? EWOULDBLOCK) then kStatusJammed
                    else kStatusError in
           (with_kernel k f, s, [], false)
       end.

Definition fd_Shutdown (f : FileDescriptorIo) : FileDescriptorIo * Status :=
  let fd := _i f in
  if fd <? 0 then (f, kStatusOk)
  else match Interface_Shutdown fd (kernel f) with
       | (k, false) => (with_kernel k f, kStatusError)
       | (k, true) => (with_kernel k f, kStatusClosed)
       end.

Definition fd_Connect (f : FileDescriptorIo) : FileDescriptorIo * Status :=
  let fd := _i f in
  if fd <? 0 then (f, kStatusBug)
  else match safe_test_if_connected fd (kernel f) with
       | (k, ret) =>
           if negb (ret =? 0) then (with_kernel k f, kStatusError)
           else (mkFdIo fd false k, kStatusOk)
       end.

Definition fd_Accept (f : FileDescriptorIo) : FileDescriptorIo * Status := (f, kStatusOk).

Definition fd_Initialize (f : FileDescriptorIo) : FileDescriptorIo * option wishes :=
  if _connecting f then (f, Some (mkWishes kActionNone kActionConnect false true))
  else (f, Some (mkWishes kActionNone kActionNone false false)).

(** ** What the restarted calls do *)

(** A relation that every call keeps is kept by the loop. *)
Lemma restart_inv {A} (P : K -> Prop) (Q : K -> Z + A -> Prop) fuel call (k : K) :
  P k ->
  (forall k k' e, P k -> call k = (k', inl e) -> P k') ->
  (forall k k' r, P k -> call k = (k', r) -> Q k' r) ->
  Q (restart fuel call k).1 (restart fuel call k).2.
Proof.
  intros HP Hin HQ. revert k HP. induction fuel as [|n IH]; intros k HP; cbn.
  - destruct (call k) as [k' r] eqn:E. eauto.
  - destruct (call k) as [k' [e|r]] eqn:E; [|eauto].
    destruct (e =? EINTR); [apply IH|]; eauto.
Qed.

(** The fuel is enough: the loop never ends on EINTR. *)
Lemma restart_done {A} (call : K -> K * (Z + A)) fuel (k : K) :
  (forall k k', call k = (k', inl EINTR) -> (interrupts k' < interrupts k)%nat) ->
  (interrupts k <= fuel)%nat ->
  (restart fuel call k).2 <> inl EINTR.
Proof.
  intros Hd. revert k. induction fuel as [|n IH]; intros k Hk; cbn.
  - destruct (call k) as [k' r] eqn:E. cbn. intros Hr. rewrite Hr in E.
    specialize (Hd _ _ E). lia.
  - destruct (call k) as [k' [e|r]] eqn:E; [|done].
    destruct (e =? EINTR) eqn:Ee; cbn.
    + apply Z.eqb_eq in Ee as ->. apply IH. specialize (Hd _ _ E). lia.
    + intros [= He]. by rewrite He in Ee.
Qed.

Lemma safe_read_done fd n k : (safe_read fd n k).2 <> inl EINTR.
Proof.
  unfold safe_read. destruct (fd <? 0); [done|].
  apply restart_done; [|done]. intros. by eapply sys_read_interrupted.
Qed.

Lemma safe_write_done fd b k : (safe_write fd b k).2 <> inl EINTR.
Proof.
  unfold safe_write. destruct (fd <? 0); [done|].
  apply restart_done; [|done]. intros. by eapply sys_write_interrupted.
Qed.

Lemma safe_read_sent fd n k : sent_bytes (safe_read fd n k).1 = sent_bytes k.
Proof.
  unfold safe_read. destruct (fd <? 0); [done|].
  pattern (restart (interrupts k) (sys_read fd n) k).1.
  apply (restart_inv (fun k' => sent_bytes k' = sent_bytes k)
                     (fun k' _ => sent_bytes k' = sent_bytes k)); [done| |].
  all: intros k1 k2 ? H1 E; pose proof (sys_read_sent fd n k1) as H2;
    rewrite E in H2; cbn in H2; congruence.
Qed.

Lemma safe_write_sent fd b k k' r :
  safe_write fd b k = (k', r) ->
  match r with
  | inr n => 0 <= n <= zlen b /\ sent_bytes k' = sent_bytes k ++ take (Z.to_nat n) b
  | inl _ => sent_bytes k' = sent_bytes k
  end.
Proof.
  unfold safe_write. destruct (fd <? 0); [by intros [= <- <-]|]. intros E.
  pose proof (restart_inv (fun k' => sent_bytes k' = sent_bytes k)
    (fun k' r => match r with
     | inr n => 0 <= n <= zlen b /\ sent_bytes k' = sent_bytes k ++ take (Z.to_nat n) b
     | inl _ => sent_bytes k' = sent_bytes k end)
    (interrupts k) (sys_write fd b) k eq_refl) as HR.
  rewrite E in HR. cbn [fst snd] in HR. refine (HR _ _).
  - intros k1 k2 e H1 E1. apply sys_write_failed in E1. congruence.
  - intros k1 k2 [e|n] H1 E1.
    + apply sys_write_failed in E1. congruence.
    + apply sys_write_sent in E1 as [? ->]. by rewrite H1.
Qed.

#[export, refine] Instance FileDescriptorIo_io : AbstractIo FileDescriptorIo := {|
  io_Initialize := fd_Initialize;
  io_Read := fd_Read;
  io_Write := fd_Write;
  io_Shutdown := fd_Shutdown;
  io_Connect := fd_Connect;
  io_Accept := fd_Accept;
  written f := sent_bytes (kernel f);
  internal f := O
|}.
Proof.
  - unfold fd_Initialize. intros i i' w. destruct (_connecting i); intros [= <- <-]; cbn; auto.
  - unfold fd_Initialize. intros i. by destruct (_connecting i).
  - unfold fd_Read. intros n i i' s b. repeat bcase; by intros [= ].
  - done.
  - unfold fd_Read. intros n i. destruct (_i i <? 0); [done|].
    pose proof (safe_read_sent (_i i) n (kernel i)) as HR.
    destruct (safe_read (_i i) n (kernel i)) as [k [e|[|c b]]]; exact HR.
  - unfold fd_Write. intros b i i' n. destruct (_i i <? 0); [done|].
    destruct (safe_write (_i i) b (kernel i)) as [k [e|m]] eqn:E.
    + repeat bcase; by intros [= ].
    + intros [= <- <-]. exact (safe_write_sent _ _ _ _ _ E).
  - unfold fd_Write. intros b i i' s n. destruct (_i i <? 0); [by intros [= <- _ _]|].
    destruct (safe_write (_i i) b (kernel i)) as [k [e|m]] eqn:E.
    + intros [= <- _ _] _. exact (safe_write_sent _ _ _ _ _ E).
    + by intros [= _ <- _].
  - done.
  - done.
  - unfold fd_Shutdown, Interface_Shutdown. intros i. destruct (_i i <? 0); [done|].
    pose proof (sys_shutdown_sent (_i i) (kernel i)) as HS.
    destruct (sys_shutdown (_i i) (kernel i)) as [k [e|]]; [destruct (e =? ENOTCONN)|]; exact HS.
  - done.
  - unfold fd_Connect, safe_test_if_connected. intros i. destruct (_i i <? 0); [done|].
    pose proof (sys_so_error_sent (_i i) (kernel i)) as HS.
    destruct (sys_so_error (_i i) (kernel i)) as [k [e|m]]; [exact HS|].
    destruct (m =? 0); exact HS.
  - done.
  - done.
Defined.

End FileDescriptorIo.
