(* ===== verification/Directories.v ===== *)
(** * Making and removing directories: mkdirs.c, rmdirs.c

    [mkdirs] calls mkdir for each directory of a path; [rmdirs] removes a tree.
    What mkdir answers is an argument; what a tree allows is an attribute of its
    nodes. *)

From Stdlib Require Import ZifyBool.
From S2P Require Import Prelude AbstractIo.

Definition EEXIST : Z := 17.
Definition ENOENT : Z := 2.
Definition ENOSYS : Z := 38.

(** ** mkdirs *)

(** strtok_r(path, "/"): where the tokens begin, and their lengths. *)
Fixpoint tokens (at_ : nat) (len : nat) (path : bytes) : list (nat * nat) :=
  match path with
  | [] => if (len =? 0)%nat then [] else [(at_ - len, len)%nat]
  | c :: path =>
      if bool_decide (c = "/"%char) then (if (len =? 0)%nat then [] else [(at_ - len, len)%nat]) ++ tokens (S at_) 0 path
      else tokens (S at_) (S len) path
  end.

(** The string in a buffer: up to its first NUL. *)
Fixpoint c_string (buffer : bytes) : bytes :=
  match buffer with
  | [] => []
  | c :: buffer => if bool_decide (c = "000"%char) then [] else c :: c_string buffer
  end.

(** [copy[pos] = c], within the buffer. *)
Definition poke (pos : Z) (c : ascii) (copy : bytes) : option bytes :=
  if (0 <=? pos) && (pos <? zlen copy) then Some (<[Z.to_nat pos := c]> copy) else None.

Section mkdirs.
(** What mkdir answers: 0 or errno. *)
Context (mkdir : bytes -> Z).

(** The loop: [prev] is the last character of the last token.  The result:
    errno (0: none), and the directories that mkdir was called for. *)
Fixpoint mkdirs_loop (ts : list (nat * nat)) (pos : Z) (prev : option Z) (copy : bytes) : option (Z * list bytes) :=
  match ts with
  | [] => Some (0, [])
  | (next, len) :: ts =>
      match (if 0 <=? pos then poke pos "/"%char copy else Some copy) with
      | None => None
      | Some copy =>
          let pos := match prev with
                     | Some prev => pos + (Z.of_nat next - prev) - 1 + Z.of_nat len
                     | None => pos + Z.of_nat len + 1
                     end in
          match poke pos "000"%char copy with
          | None => None
          | Some copy =>
              let ret := mkdir (c_string copy) in
              if negb (ret =? 0) && negb (ret =? EEXIST) then Some (ret, [c_string copy])
              else
                match mkdirs_loop ts pos (Some (Z.of_nat (next + len) - 1)) copy with
                | None => None
                | Some (r, calls) => Some (r, c_string copy :: calls)
                end
          end
      end
  end.

(** [pathname]: [None] for NULL.  -1 and errno, or 0. *)
Definition mkdirs (pathname : option bytes) : option (Z * Z * list bytes) :=
  match pathname with
  | None | Some [] => Some (-1, EINVAL, [])
  | Some path =>
      let ts := tokens 0 0 path in
      let pos := match ts with (next, _) :: _ => Z.of_nat next - 1 | [] => -1 end in
      match mkdirs_loop ts pos None (path ++ ["000"%char]) with
      | None => None
      | Some (r, calls) => Some (if r =? 0 then 0 else -1, r, calls)
      end
  end.

(** ** The specification of mkdirs *)

(** The directories of a path, from the outermost. *)
Definition ancestors (path : bytes) : list bytes := map (fun t => take (t.1 + t.2) path) (tokens 0 0 path).

(** mkdir for each of them, up to the first that can neither be made nor is there. *)
Fixpoint make_each (dirs : list bytes) : Z * list bytes :=
  match dirs with
  | [] => (0, [])
  | d :: dirs =>
      if (mkdir d =? 0) || (mkdir d =? EEXIST) then let '(r, calls) := make_each dirs in (r, d :: calls)
      else (mkdir d, [d])
  end.

(** Tokens are apart, within the path, with a slash or an end of the path on
    either side. *)
Fixpoint separate (from : nat) (path : bytes) (ts : list (nat * nat)) : Prop :=
  match ts with
  | [] => True
  | (next, len) :: ts =>
      (from <= next /\ 0 < len /\ next + len <= length path)%nat /\
      (next = O \/ path !! (next - 1)%nat = Some "/"%char) /\
      ((next + len = length path)%nat \/ path !! (next + len)%nat = Some "/"%char) /\ separate (S (next + len)) path ts
  end.

Lemma separate_weaken m n path ts : (m <= n)%nat -> separate n path ts -> separate m path ts.
Proof. destruct ts as [|[]]; [done|]. cbn. intros ? ((? & ? & ?) & ?). split; [lia|done]. Qed.

Lemma tokens_separate pre len rest :
  (len <= length pre)%nat -> len = length pre \/ pre !! (length pre - len - 1)%nat = Some "/"%char ->
  separate (length pre - len) (pre ++ rest) (tokens (length pre) len rest).
Proof.
  revert pre len. induction rest as [|c rest IH]; intros pre len Hl Hb; cbn [tokens].
  - destruct (Nat.eqb_spec len 0); [done|]. cbn. rewrite app_nil_r. split_and!; try lia. destruct Hb; [left; lia|by right].
  - assert (pre ++ c :: rest = (pre ++ [c]) ++ rest) as E by (by rewrite <- app_assoc).
    assert (length (pre ++ [c]) = S (length pre)) as El by (rewrite length_app; cbn; lia).
    case_bool_decide as Hc.
    + assert (separate (S (length pre)) (pre ++ c :: rest) (tokens (S (length pre)) 0 rest)) as Hs.
      { specialize (IH (pre ++ [c]) O). rewrite El, Nat.sub_0_r in IH. rewrite E. apply IH; [lia|]. right.
        replace (S (length pre) - 1)%nat with (length pre) by lia. rewrite Hc. by rewrite list_lookup_middle. }
      destruct (Nat.eqb_spec len 0); cbn [app]; [eapply separate_weaken; [|exact Hs]; lia|].
      cbn [separate]. replace (length pre - len + len)%nat with (length pre) by lia. split_and!; [lia|lia|rewrite length_app; lia| | |done].
      * destruct Hb as [Hb|Hb]; [left; lia|right]. rewrite lookup_app_l; [done|]. by apply lookup_lt_Some in Hb.
      * right. rewrite Hc. by rewrite list_lookup_middle.
    + specialize (IH (pre ++ [c]) (S len)). rewrite El, <- E in IH. cbn [Nat.sub] in IH. apply IH; [lia|].
      destruct Hb as [Hb|Hb]; [left; lia|right]. rewrite lookup_app_l; [done|]. by apply lookup_lt_Some in Hb.
Qed.

Lemma c_string_take n (path tail : bytes) : "000"%char ∉ path -> (n <= length path)%nat ->
  c_string (take n path ++ "000"%char :: tail) = take n path.
Proof.
  revert n. induction path as [|c path IH]; intros [|n] Hp Hn; cbn in *; try done; try lia.
  rewrite bool_decide_eq_false_2 by set_solver. f_equal. apply IH; [set_solver|lia].
Qed.

(** The buffer with a NUL for the character [n]. *)
Definition cut (n : nat) (path : bytes) : bytes := <[n := "000"%char]> (path ++ ["000"%char]).

Lemma cut_string n path : "000"%char ∉ path -> (n <= length path)%nat -> c_string (cut n path) = take n path.
Proof.
  intros Hp Hn. unfold cut. rewrite insert_take_drop by (rewrite length_app; cbn; lia). rewrite take_app_le by done. by apply c_string_take.
Qed.

Lemma poke_inside n c copy : (n < length copy)%nat -> poke (Z.of_nat n) c copy = Some (<[n := c]> copy).
Proof. intros H. unfold poke, zlen. rewrite Nat2Z.id. by replace (_ && _) with true by lia. Qed.

(** Behind a token: the slash comes back, and the next token is cut. *)
Lemma loop_spec path ts : "000"%char ∉ path -> forall n, (n < length path)%nat ->
  path !! n = Some "/"%char -> separate (S n) path ts ->
  mkdirs_loop ts (Z.of_nat n) (Some (Z.of_nat n - 1)) (cut n path) = Some (make_each (map (fun t => take (t.1 + t.2) path) ts)).
Proof.
  intros Hp. induction ts as [|[next len] ts IH]; intros n Hn Hs Hsep; [done|]. cbn [mkdirs_loop map make_each fst snd].
  destruct Hsep as ((H1 & H2 & H3) & _ & H4 & H5). replace (0 <=? Z.of_nat n) with true by lia.
  assert (length (cut n path) = S (length path)) as Hl by (unfold cut; rewrite length_insert, length_app; cbn; lia).
  rewrite poke_inside by lia.
  assert (<[n := "/"%char]> (cut n path) = path ++ ["000"%char]) as ->.
  { unfold cut. rewrite list_insert_insert_eq. apply list_insert_id. by rewrite lookup_app_l. }
  replace (Z.of_nat n + (Z.of_nat next - (Z.of_nat n - 1)) - 1 + Z.of_nat len) with (Z.of_nat (next + len)) by lia.
  rewrite poke_inside by (rewrite length_app; cbn; lia). fold (cut (next + len) path). rewrite cut_string by done.
  destruct (Z.eqb_spec (mkdir (take (next + len) path)) 0) as [E|E], (Z.eqb_spec (mkdir (take (next + len) path)) EEXIST) as [E'|E']; cbn [negb andb orb]; try done.
  all: destruct H4 as [H4|H4]; [destruct ts as [|[n2 l2] ts]; [done|]; cbn in H5; lia|].
  all: rewrite (IH (next + len)%nat); [by destruct (make_each _)|by apply lookup_lt_Some in H4|done..].
Qed.

Lemma loop_behind path next len ts : "000"%char ∉ path ->
  (next + len = length path)%nat \/ path !! (next + len)%nat = Some "/"%char -> separate (S (next + len)) path ts ->
  mkdirs_loop ts (Z.of_nat (next + len)) (Some (Z.of_nat (next + len) - 1)) (cut (next + len) path) =
  Some (make_each (map (fun t => take (t.1 + t.2) path) ts)).
Proof.
  intros Hp [H4|H4] H5; [destruct ts as [|[n2 l2] ts]; [done|]; cbn in H5; lia|]. apply loop_spec; try done. by apply lookup_lt_Some in H4.
Qed.

(** [mkdirs] never leaves its buffer; it calls mkdir for the directories of
    the path from the outermost, until one can neither be made nor exists. *)
Theorem mkdirs_makes_ancestors path : "000"%char ∉ path -> path <> [] ->
  mkdirs (Some path) = (let '(r, calls) := make_each (ancestors path) in Some (if r =? 0 then 0 else -1, r, calls)).
Proof.
  intros Hp Hne. unfold mkdirs. destruct path as [|c path'] eqn:Ep; [done|]. rewrite <- Ep in *. clear c path' Ep.
  pose proof (tokens_separate [] O path ltac:(done) ltac:(by left)) as Hsep. cbn [length Nat.sub app] in Hsep.
  unfold ancestors. destruct (tokens 0 0 path) as [|[next len] ts]; [done|]. destruct Hsep as ((_ & H2 & H3) & Hb & H4 & H5).
  assert (mkdirs_loop ((next, len) :: ts) (Z.of_nat next - 1) None (path ++ ["000"%char]) =
    Some (make_each (map (fun t => take (t.1 + t.2) path) ((next, len) :: ts)))) as ->; [|by destruct (make_each _)].
  cbn [mkdirs_loop map make_each fst snd].
  assert ((if 0 <=? Z.of_nat next - 1 then poke (Z.of_nat next - 1) "/"%char (path ++ ["000"%char]) else Some (path ++ ["000"%char])) =
    Some (path ++ ["000"%char])) as ->.
  { destruct (Z.leb_spec 0 (Z.of_nat next - 1)); [|done]. replace (Z.of_nat next - 1) with (Z.of_nat (next - 1)) by lia.
    destruct Hb as [Hb|Hb]; [lia|]. rewrite poke_inside by (rewrite length_app; cbn; lia). f_equal. apply list_insert_id.
    rewrite lookup_app_l; [done|]. by apply lookup_lt_Some in Hb. }
  replace (Z.of_nat next - 1 + Z.of_nat len + 1) with (Z.of_nat (next + len)) by lia.
  rewrite poke_inside by (rewrite length_app; cbn; lia). fold (cut (next + len) path). rewrite cut_string by done.
  destruct (Z.eqb_spec (mkdir (take (next + len) path)) 0) as [E|E], (Z.eqb_spec (mkdir (take (next + len) path)) EEXIST) as [E'|E']; cbn [negb andb orb]; try done.
  all: rewrite (loop_behind path next len ts) by done; by destruct (make_each _).
Qed.
End mkdirs.

(** ** rmdirs *)

(** What a directory entry allows: whether getdents tells its type, whether it
    can be looked at (fstatat), opened, and unlinked. *)
Record attributes : Type := mkAttributes {
  typed : bool;
  statable : bool;
  openable : bool;
  removable : bool
}.

(** A directory holds the batches in which getdents lists it, and the error that
    comes behind them, if any; symbolic links are files. *)
Inductive node : Type :=
| File (a : attributes)
| Dir (a : attributes) (batches : list (list (bytes * node))) (fault : option Z).

Definition attrs (n : node) : attributes := match n with File a | Dir a _ _ => a end.
Definition is_dir (n : node) : bool := match n with File _ => false | Dir _ _ _ => true end.
Definition is_dot (name : bytes) : bool := bool_decide (name = B ".") || bool_decide (name = B "..").

(** The system lets go of a directory that holds only "." and "..". *)
Definition bare (n : node) : bool :=
  match n with File _ => true | Dir _ batches _ => forallb (forallb (fun e => is_dot e.1)) batches end.

Section entries.
(** The call for a directory that is met. *)
Context (descend : node -> Z * node).

(** A batch of rmdirs_with_getdents: what is left of it. *)
Fixpoint getdents_batch (es : list (bytes * node)) : list (bytes * node) :=
  match es with
  | [] => []
  | (name, c) :: es =>
      if is_dot name then (name, c) :: getdents_batch es
      else if negb (typed (attrs c)) && negb (statable (attrs c)) then (name, c) :: es
      else if negb (is_dir c) then if removable (attrs c) then getdents_batch es else (name, c) :: es
      else
        let '(ret, c') := descend c in
        if negb (ret =? 0) || negb (removable (attrs c) && bare c') then (name, c') :: es else getdents_batch es
  end.

(** The entries of rmdirs_with_readdir: 0, or -1 from where it broke. *)
Fixpoint readdir_entries (es : list (bytes * node)) : Z * list (bytes * node) :=
  match es with
  | [] => (0, [])
  | (name, c) :: es =>
      if is_dot name then let '(ret, rest) := readdir_entries es in (ret, (name, c) :: rest)
      else if negb (statable (attrs c)) then (-1, (name, c) :: es)
      else if negb (is_dir c) then if removable (attrs c) then readdir_entries es else (-1, (name, c) :: es)
      else
        let '(ret, c') := descend c in
        if negb (ret =? 0) || negb (removable (attrs c) && bare c') then (-1, (name, c') :: es) else readdir_entries es
  end.

Fixpoint readdir_batches (bs : list (list (bytes * node))) : Z * list (list (bytes * node)) :=
  match bs with
  | [] => (0, [])
  | es :: bs =>
      let '(ret, rest) := readdir_entries es in
      if ret =? 0 then let '(ret, rests) := readdir_batches bs in (ret, rest :: rests) else (ret, rest :: bs)
  end.
End entries.

(** rmdirs_with_getdents on a descriptor: its result, and what is left.  A
    [break] of the inner loop leaves only the batch. *)
Fixpoint rmdirs_with_getdents (n : node) : Z * node :=
  match n with
  | File a => (-1, n)
  | Dir a batches fault =>
      if negb (openable a) then (-1, n)
      else
        (match fault with None => 0 | Some e => if e =? ENOSYS then 1 else -1 end,
         Dir a (map (getdents_batch rmdirs_with_getdents) batches) fault)
  end.

(** rmdirs_with_readdir: a [break] leaves the loop. *)
Fixpoint rmdirs_with_readdir (n : node) : Z * node :=
  match n with
  | File a => (-1, n)
  | Dir a batches fault =>
      if negb (openable a) then (-1, n)
      else let '(ret, rest) := readdir_batches rmdirs_with_readdir batches in (ret, Dir a rest fault)
  end.

(** rmdirs_internal: the file of that name, if any, and whether getdents has
    been given up; the result, what is left, and the new flag. *)
Definition rmdirs_internal (leave_dir_along disabled : bool) (n : option node) : Z * option node * bool :=
  match n with
  | None => (0, None, disabled)
  | Some n =>
      if negb (statable (attrs n)) then (-1, Some n, disabled)
      else if negb (is_dir n) then
        if leave_dir_along then (0, Some n, disabled)
        else if removable (attrs n) then (0, None, disabled) else (-1, Some n, disabled)
      else
        let last n disabled :=
          if leave_dir_along then (0, Some n, disabled)
          else if removable (attrs n) && bare n then (0, None, disabled) else (-1, Some n, disabled) in
        let by_readdir n disabled :=
          let '(ret, n) := rmdirs_with_readdir n in
          if negb (ret =? 0) then (-1, Some n, disabled) else last n disabled in
        if disabled then by_readdir n disabled
        else
          let '(ret, n) := rmdirs_with_getdents n in
          if ret <? 0 then (-1, Some n, disabled)
          else if 0 <? ret then by_readdir n true
          else last n disabled
  end.

Definition rmdirs (disabled : bool) (n : option node) := rmdirs_internal false disabled n.
Definition rmdirs_inside (disabled : bool) (n : option node) := rmdirs_internal true disabled n.

(** A tree in which nothing is refused. *)
Fixpoint free (n : node) : bool :=
  match n with
  | File a => statable a && removable a
  | Dir a batches fault =>
      statable a && openable a && removable a && match fault with None => true | _ => false end &&
      forallb (forallb (fun e => is_dot e.1 || free e.2)) batches
  end.

(** Induction over the entries of the directories. *)
Lemma node_ind' (P : node -> Prop) :
  (forall a, P (File a)) ->
  (forall a batches fault, Forall (Forall (fun e => P e.2)) batches -> P (Dir a batches fault)) ->
  forall n, P n.
Proof.
  intros Hf Hd. fix IH 1. intros [a|a batches fault]; [apply Hf|apply Hd].
  induction batches as [|es batches IHb]; constructor; [|exact IHb].
  induction es as [|[name c] es IHe]; constructor; [apply IH|exact IHe].
Qed.

Lemma free_attrs n : free n = true -> statable (attrs n) = true /\ removable (attrs n) = true.
Proof. destruct n; cbn; intros; repeat match goal with H : _ && _ = true |- _ => apply andb_prop in H as [? ?] end; done. Qed.

(** Both ways empty such a directory; rmdirs_with_readdir does when it says so. *)
Lemma batch_empties (descend : node -> Z * node) es :
  Forall (fun e => free e.2 = true -> is_dir e.2 = true -> (descend e.2).1 = 0 /\ bare (descend e.2).2 = true) es ->
  forallb (fun e => is_dot e.1 || free e.2) es = true ->
  forallb (fun e => is_dot e.1) (getdents_batch descend es) = true /\ (readdir_entries descend es).1 = 0.
Proof.
  induction 1 as [|[name c] es Hc _ IH]; [done|]. cbn. intros [Hc' He]%andb_prop. specialize (IH He). destruct IH as [IH1 IH2].
  destruct (is_dot name) eqn:Ed; cbn [forallb fst]; [rewrite Ed; by destruct (readdir_entries _ es)|].
  destruct (free_attrs c Hc') as [-> Hr]. rewrite andb_false_r, Hr. cbn [negb]. destruct (is_dir c) eqn:Edir; cbn [negb]; [|done].
  destruct (Hc Hc' Edir) as (E1 & E2). cbn in E1, E2. destruct (descend c) as [ret c']. cbn in E1, E2. subst ret. by rewrite E2.
Qed.

Lemma entries_bare descend es rest : readdir_entries descend es = (0, rest) -> forallb (fun e => is_dot e.1) rest = true.
Proof.
  revert rest. induction es as [|[name c] es IH]; intros rest; cbn; [by intros [= <-]|]. destruct (is_dot name) eqn:Ed.
  - destruct (readdir_entries descend es) as [r rest']. intros [= -> <-]. cbn. rewrite Ed. by apply IH.
  - destruct (negb (statable _)); [done|]. destruct (negb (is_dir c)); [destruct (removable _); [by apply IH|done]|].
    destruct (descend c) as [r c']. destruct (_ || _); [done|]. by apply IH.
Qed.

Lemma batches_bare descend bs rest : readdir_batches descend bs = (0, rest) -> forallb (forallb (fun e => is_dot e.1)) rest = true.
Proof.
  revert rest. induction bs as [|es bs IH]; intros rest; cbn; [by intros [= <-]|].
  destruct (readdir_entries descend es) as [r rest'] eqn:E. destruct (Z.eqb_spec r 0) as [->|]; [|by intros [= -> <-]].
  destruct (readdir_batches descend bs) as [r2 rests]. intros [= -> <-]. cbn. rewrite (entries_bare _ _ _ E). by apply IH.
Qed.

Lemma readdir_bare n n' : rmdirs_with_readdir n = (0, n') -> bare n' = true.
Proof.
  destruct n as [a|a batches fault]; cbn; [done|]. destruct (negb (openable a)); [done|].
  destruct (readdir_batches _ batches) as [r rest] eqn:E. intros [= -> <-]. by eapply batches_bare.
Qed.

Lemma batches_succeed descend bs : Forall (fun es => (readdir_entries descend es).1 = 0) bs -> (readdir_batches descend bs).1 = 0.
Proof.
  induction 1 as [|es bs E _ IH]; [done|]. cbn. destruct (readdir_entries descend es) as [r rest]. cbn in E. subst r.
  by destruct (readdir_batches descend bs).
Qed.

Lemma free_batches a batches fault : free (Dir a batches fault) = true ->
  openable a = true /\ fault = None /\ Forall (fun es => forallb (fun e => is_dot e.1 || free e.2) es = true) batches.
Proof.
  cbn. intros H. repeat match goal with H : _ && _ = true |- _ => apply andb_prop in H as [H ?] end.
  split_and!; [done|by destruct fault|]. apply Forall_forall. intros es Hin. rewrite list_elem_of_In in Hin.
  by match goal with H : forallb (forallb _) batches = true |- _ => apply (proj1 (forallb_forall _ _) H) end.
Qed.

Lemma getdents_empties n : free n = true -> is_dir n = true ->
  (rmdirs_with_getdents n).1 = 0 /\ bare (rmdirs_with_getdents n).2 = true.
Proof.
  induction n as [a|a batches fault IH] using node_ind'; [done|]. intros (Ho & -> & Hb)%free_batches _.
  cbn [rmdirs_with_getdents]. rewrite Ho. cbn. split; [done|]. apply forallb_forall. intros b [es [<- Hin]]%in_map_iff.
  rewrite <- list_elem_of_In in Hin. rewrite Forall_forall in IH, Hb. by apply batch_empties; [apply IH|apply Hb].
Qed.

Lemma readdir_empties n : free n = true -> is_dir n = true ->
  (rmdirs_with_readdir n).1 = 0 /\ bare (rmdirs_with_readdir n).2 = true.
Proof.
  intros Hf Hd. assert ((rmdirs_with_readdir n).1 = 0) as H0.
  { revert Hf Hd. induction n as [a|a batches fault IH] using node_ind'; [done|]. intros (Ho & -> & Hb)%free_batches _.
    cbn [rmdirs_with_readdir]. rewrite Ho. cbn. pose proof (batches_succeed rmdirs_with_readdir batches) as H.
    destruct (readdir_batches _ batches) as [r rest]. apply H. rewrite Forall_forall in *. intros es Hin.
    apply batch_empties; [|by apply Hb]. eapply Forall_impl; [by apply IH|]. intros [name c] Hc Hc1 Hc2. cbn in *.
    specialize (Hc Hc1 Hc2). split; [done|]. apply (readdir_bare c). by destruct (rmdirs_with_readdir c) as [? ?]; cbn in Hc; subst. }
  split; [done|]. apply (readdir_bare n). by destruct (rmdirs_with_readdir n) as [? ?]; cbn in H0; subst.
Qed.

(** A tree in which nothing is refused is gone, or is an empty directory,
    whichever way it is read; a result of 0 means that the file is gone, and
    where readdir is used that the directory is empty. *)
Theorem rmdirs_removes disabled n :
  (free n = true ->
    rmdirs disabled (Some n) = (0, None, disabled) /\
    exists n', rmdirs_inside disabled (Some n) = (0, Some n', disabled) /\ bare n' = true /\ is_dir n' = is_dir n) /\
  (forall n' d, rmdirs disabled (Some n) = (0, n', d) -> n' = None) /\
  (forall n' d, rmdirs_inside true (Some n) = (0, Some n', d) -> bare n' = true).
Proof.
  assert (attrs (rmdirs_with_getdents n).2 = attrs n /\ is_dir (rmdirs_with_getdents n).2 = is_dir n) as [Ha Hd].
  { destruct n as [a|a bs f]; [done|]. cbn. by destruct (negb (openable a)). }
  assert (attrs (rmdirs_with_readdir n).2 = attrs n /\ is_dir (rmdirs_with_readdir n).2 = is_dir n) as [Ha' Hd'].
  { destruct n as [a|a bs f]; [done|]. cbn. destruct (negb (openable a)); [done|]. by destruct (readdir_batches _ bs). }
  split_and!.
  - intros Hf. destruct (free_attrs n Hf) as [Hs Hr]. pose proof (getdents_empties n Hf) as Hg. pose proof (readdir_empties n Hf) as Hrd.
    unfold rmdirs, rmdirs_inside, rmdirs_internal. rewrite Hs. cbn [negb].
    destruct (is_dir n) eqn:Edir; cbn [negb]; [|rewrite Hr; split; [done|]; exists n; by destruct n].
    destruct (Hg eq_refl) as [G1 G2], (Hrd eq_refl) as [R1 R2].
    destruct (rmdirs_with_getdents n) as [r1 n1], (rmdirs_with_readdir n) as [r2 n2]. cbn in *. subst r1 r2.
    destruct disabled; cbn; rewrite ?Ha, ?Ha', Hr, ?G2, ?R2; cbn; by eauto.
  - intros n' d. unfold rmdirs, rmdirs_internal. repeat case_match; intros; simplify_eq; done.
  - intros n' d. unfold rmdirs_inside, rmdirs_internal. destruct (negb (statable _)); [done|].
    destruct n as [a|a bs f]; cbn [is_dir negb]; [by intros [= <- _]|].
    destruct (rmdirs_with_readdir (Dir a bs f)) as [r n2] eqn:E. destruct (Z.eqb_spec r 0) as [->|]; [|done].
    cbn. intros [= <- _]. by eapply readdir_bare.
Qed.

(** ** Examples *)

Definition plain : attributes := mkAttributes true true true true.
Definition stuck : attributes := mkAttributes true true true false.

(** A directory with a tree and a file, read in two batches. *)
Definition demo_tree : node :=
  Dir plain [[(B ".", Dir plain [] None); (B "..", Dir plain [] None); (B "a", Dir plain [[(B "b", File plain)]] None)]; [(B "c", File plain)]] None.

Lemma rmdirs_removes_witness : rmdirs false (Some demo_tree) = (0, None, false).
Proof. apply (rmdirs_removes false demo_tree). reflexivity. Defined.

(** A file that cannot be unlinked: [rmdirs_inside] says that it emptied the
    directory, because a [break] leaves only the batch of entries, and does not
    even try the others of that batch. *)
Theorem rmdirs_inside_forgets :
  let n := Dir plain [[(B "a", File stuck); (B "b", File plain)]] None in
  rmdirs_inside false (Some n) = (0, Some n, false).
Proof. reflexivity. Qed.

Lemma mkdirs_makes_ancestors_witness :
  ancestors (B "//usr//local/x/") = [B "//usr"; B "//usr//local"; B "//usr//local/x"] /\
  mkdirs (fun d => if bool_decide (d = B "//usr") then EEXIST else 0) (Some (B "//usr//local/x/")) = Some (0, 0, ancestors (B "//usr//local/x/")).
Proof.
  split; [vm_compute; reflexivity|].
  rewrite (mkdirs_makes_ancestors (fun d => if bool_decide (d = B "//usr") then EEXIST else 0) (B "//usr//local/x/")); [vm_compute; reflexivity| |discriminate].
  apply (bool_decide_eq_false_1 ("000"%char ∈ B "//usr//local/x/")). vm_compute. reflexivity.
Defined.

(** mkdir -p would fail: a file in the place of a directory goes unnoticed. *)
Theorem mkdirs_accepts_files path : "000"%char ∉ path -> path <> [] ->
  exists calls, mkdirs (fun _ => EEXIST) (Some path) = Some (0, 0, calls).
Proof.
  intros Hp Hne. rewrite mkdirs_makes_ancestors by done. generalize (ancestors path). intros dirs.
  assert ((make_each (fun _ => EEXIST) dirs).1 = 0) as H.
  { induction dirs as [|d dirs IH]; [done|]. cbn. by destruct (make_each _ dirs). }
  destruct (make_each _ dirs) as [r calls]. cbn in H. subst r. by eexists.
Qed.
