(* ===== verification/Logger.v ===== *)
(** * The logger: logger.cpp

    A line is put together in a buffer of fixed size, [memcpy] by [memcpy]: out
    of its bounds is undefined behaviour.  The file that lines go to is shared by
    the threads: [Write] is up to three critical sections of a lock, with
    others between them.  The answers of the system are arguments. *)

From Stdlib Require Import ZifyBool.
From S2P Require Import Prelude Digits Libc Directories.

Definition kMaximumLineLength : Z := 2048.
Definition kMaximumFileLength : Z := 256.
Definition PID_LENGTH : Z := 6.
Definition buffer_size : Z := 48 + kMaximumLineLength + kMaximumFileLength + 20.

Definition kLevelFatal : Z := 0.
Definition kLevelError : Z := 1.
Definition kLevelWarn : Z := 2.
Definition kLevelInfo : Z := 3.
Definition kLevelTrace : Z := 4.
Definition kLevelDebug : Z := 5.
Definition kLevelVerbose : Z := 6.

(** ** A line *)

Definition memcpy (pos : Z) (data buffer : bytes) : result exn bytes :=
  if (0 <=? pos) && (pos + zlen data <=? zlen buffer)
  then Ok (take (Z.to_nat pos) buffer ++ data ++ drop (Z.to_nat (pos + zlen data)) buffer)
  else Err undefined_behaviour.

(** The names and the colors of both switches. *)
Definition level_name (level : Z) : bytes :=
  if level =? kLevelFatal then B "FATAL "
  else if level =? kLevelError then B "ERROR "
  else if level =? kLevelWarn then B "WARN  "
  else if level =? kLevelInfo then B "INFO  "
  else if level =? kLevelTrace then B "TRACE "
  else if level =? kLevelDebug then B "DEBUG "
  else if level =? kLevelVerbose then B "MINOR "
  else B "OTHER ".

Definition escape (sequence : bytes) : bytes := chr 27 :: sequence.

Definition level_color (level : Z) : option bytes :=
  if level =? kLevelFatal then Some (escape (B "[1;37;41m"))
  else if level =? kLevelError then Some (escape (B "[1;31m"))
  else if level =? kLevelWarn then Some (escape (B "[1;33m"))
  else if level =? kLevelTrace then Some (escape (B "[0;36m"))
  else if level =? kLevelDebug then Some (escape (B "[0;32m"))
  else if level =? kLevelVerbose then Some (escape (B "[0;34m"))
  else None.

(** The buffer, [next] and [color] behind the switch. *)
Definition mark (g_colorful : bool) (level : Z) (buffer : bytes) : result exn (bytes * Z * bool) :=
  let! buffer := memcpy 0 (level_name level) buffer in
  match (if g_colorful then level_color level else None) with
  | Some sequence =>
      let! buffer := memcpy (29 + PID_LENGTH) sequence buffer in
      Ok (buffer, 29 + PID_LENGTH + zlen sequence, true)
  | None => Ok (buffer, 29 + PID_LENGTH, false)
  end.

(** What gettimeofday and localtime_r tell. *)
Record moment : Type := mkMoment {
  tv_sec : Z;
  tv_usec : Z;
  tm_mon : Z;
  tm_mday : Z;
  tm_hour : Z;
  tm_min : Z;
  tm_sec : Z
}.

(** Left padding with blanks. *)
Definition pad (w : nat) (l : bytes) : bytes := replicate (w - length l) " "%char ++ l.

(** "%02d-%02d %02d:%02d:%02d.%06ld %6ld" *)
Definition stamp (m : moment) (tid : Z) : bytes :=
  pad0 2 (dec (tm_mon m + 1)) ++ B "-" ++ pad0 2 (dec (tm_mday m)) ++ B " " ++ pad0 2 (dec (tm_hour m)) ++ B ":" ++
  pad0 2 (dec (tm_min m)) ++ B ":" ++ pad0 2 (dec (tm_sec m)) ++ B "." ++ pad0 6 (dec (tv_usec m)) ++ B " " ++
  pad 6 (dec_signed tid).

(** The text: vsnprintf writes what fits and a NUL, and returns the length it
    would have ([None]: negative). *)
Definition put_text (text : bytes) (next : Z) (buffer : bytes) : result exn (bytes * Z) :=
  let! buffer := memcpy next (take (Z.to_nat kMaximumLineLength) text ++ [NUL]) buffer in
  if kMaximumLineLength <? zlen text then
    let! buffer := memcpy (next + kMaximumLineLength - 3) (B "...") buffer in
    Ok (buffer, next + kMaximumLineLength)
  else Ok (buffer, next + zlen text).

Definition put_filename (file : bytes) (line next : Z) (buffer : bytes) : result exn (bytes * Z) :=
  let! buffer := memcpy next (B " [") buffer in
  let next := next + 2 in
  let ret := zlen file in
  let '(file, ret) :=
    if kMaximumFileLength <? ret then (drop (Z.to_nat (ret - kMaximumFileLength)) file, kMaximumFileLength) else (file, ret) in
  let! buffer := memcpy next (take (Z.to_nat ret) file) buffer in
  let next := next + ret in
  let! buffer := memcpy next (B ":") buffer in
  let next := next + 1 in
  let! buffer := memcpy next (dec_signed line ++ [NUL]) buffer in
  let next := next + zlen (dec_signed line) in
  let! buffer := memcpy next (B "]") buffer in
  Ok (buffer, next + 1).

(** VLog between the filter and Write: the line, or nothing where it returns
    false.  [buffer] is what lies on the stack. *)
Definition compose (g_with_filename g_colorful : bool) (level : Z) (file : bytes) (line : Z) (text : option bytes)
    (m : moment) (tid : Z) (buffer : bytes) : result exn (option bytes) :=
  let! (buffer, next, color) := mark g_colorful level buffer in
  let! buffer := memcpy 6 (stamp m tid ++ [NUL]) buffer in
  if negb (zlen (stamp m tid) =? 22 + PID_LENGTH) then Ok None
  else
    let! buffer := memcpy (28 + PID_LENGTH) (B " ") buffer in
    match text with
    | None => Ok None
    | Some text =>
        let! (buffer, next) := put_text text next buffer in
        let! (buffer, next) := if g_with_filename then put_filename file line next buffer else Ok (buffer, next) in
        let! (buffer, next) :=
          if color then let! buffer := memcpy next (escape (B "[0m")) buffer in Ok (buffer, next + 4)
          else Ok (buffer, next) in
        let! buffer := memcpy next [chr 10] buffer in
        Ok (Some (take (Z.to_nat (next + 1)) buffer))
    end.

(** ** The specification of a line *)

Definition clip_text (text : bytes) : bytes :=
  if kMaximumLineLength <? zlen text then take (Z.to_nat (kMaximumLineLength - 3)) text ++ B "..." else text.

Definition clip_file (file : bytes) : bytes := drop (Z.to_nat (zlen file - kMaximumFileLength)) file.

Definition composed (g_with_filename g_colorful : bool) (level : Z) (file : bytes) (line : Z) (text : bytes) (m : moment) (tid : Z) : bytes :=
  let color := if g_colorful then level_color level else None in
  level_name level ++ stamp m tid ++ B " " ++ default [] color ++ clip_text text ++
  (if g_with_filename then B " [" ++ clip_file file ++ B ":" ++ dec_signed line ++ B "]" else []) ++
  (match color with Some _ => escape (B "[0m") | None => [] end) ++ [chr 10].

Lemma memcpy_at pos data a b c :
  zlen a = pos -> zlen b = zlen data -> memcpy pos data (a ++ b ++ c) = Ok (a ++ data ++ c).
Proof.
  intros Ha Hb. unfold memcpy. rewrite !zlen_app. pose proof (zlen_nonneg a). pose proof (zlen_nonneg c).
  replace ((0 <=? pos) && _) with true by lia. unfold zlen in *.
  rewrite take_app_length' by lia. rewrite (app_assoc a b c), drop_app_length' by (rewrite length_app; lia). done.
Qed.

(** Writing on behind [pre]. *)
Lemma memcpy_next pos data pre rest :
  zlen pre = pos -> zlen data <= zlen rest ->
  exists rest', memcpy pos data (pre ++ rest) = Ok ((pre ++ data) ++ rest') /\ zlen rest' = zlen rest - zlen data.
Proof.
  intros Hp Hd. exists (drop (length data) rest). split.
  - rewrite <- (take_drop (length data) rest) at 1. rewrite (memcpy_at pos data pre); [by rewrite <- app_assoc|done|].
    unfold zlen in *. rewrite length_take. lia.
  - unfold zlen in *. rewrite length_drop. lia.
Qed.

(** A string that sprintf writes, with a NUL behind it. *)
Lemma memcpy_next_nul pos data pre rest :
  zlen pre = pos -> zlen data < zlen rest ->
  exists rest', memcpy pos (data ++ [NUL]) (pre ++ rest) = Ok ((pre ++ data) ++ rest') /\ zlen rest' = zlen rest - zlen data.
Proof.
  intros Hp Hd. destruct (memcpy_next pos (data ++ [NUL]) pre rest) as (r & E & Hr); [done|rewrite zlen_app; change (zlen [NUL]) with 1; lia|].
  exists (NUL :: r). rewrite E. rewrite zlen_app in Hr. change (zlen [NUL]) with 1 in Hr. rewrite zlen_cons. split; [|lia].
  by rewrite <- !app_assoc.
Qed.

Lemma put_text_spec text next pre rest :
  zlen pre = next -> kMaximumLineLength < zlen rest ->
  exists rest', put_text text next (pre ++ rest) = Ok ((pre ++ clip_text text) ++ rest', next + zlen (clip_text text)) /\
    zlen rest' = zlen rest - zlen (clip_text text) /\ zlen (clip_text text) <= kMaximumLineLength.
Proof.
  intros Hp Hr. unfold put_text, clip_text. set (K := kMaximumLineLength) in *. assert (3 < K) by (unfold K, kMaximumLineLength; lia).
  pose proof (zlen_nonneg text).
  assert (zlen (take (Z.to_nat K) text) = Z.min K (zlen text)) as Hl by (unfold zlen; rewrite length_take; lia).
  destruct (memcpy_next_nul next (take (Z.to_nat K) text) pre rest) as (r & -> & Hr'); [done|lia|]. cbn [rbind].
  destruct (Z.ltb_spec K (zlen text)).
  - assert (take (Z.to_nat K) text = take (Z.to_nat (K - 3)) text ++ take 3 (drop (Z.to_nat (K - 3)) text)) as E.
    { replace (Z.to_nat K) with (Z.to_nat (K - 3) + 3)%nat by lia. by rewrite take_take_drop. }
    rewrite E. rewrite <- !app_assoc, (app_assoc pre).
    assert (zlen (take (Z.to_nat (K - 3)) text) = K - 3) as Ht by (unfold zlen in *; rewrite length_take; lia).
    rewrite memcpy_at; [|rewrite zlen_app; lia|change (zlen (B "...")) with 3; unfold zlen in *; rewrite length_take, length_drop; lia]. cbn [rbind].
    exists r. rewrite zlen_app, Ht. change (zlen (B "...")) with 3. split; [|lia]. by rewrite <- !app_assoc, Z.sub_add.
  - assert (take (Z.to_nat K) text = text) as E by (apply take_ge; unfold zlen in *; lia). rewrite E in *. exists r. split; [done|lia].
Qed.

Lemma zlen_dec n : 0 <= n -> 1 <= zlen (dec n) /\ forall k, 0 < k -> n < 10 ^ k -> zlen (dec n) <= k.
Proof.
  intros Hn. split; [pose proof (dec_not_nil n Hn) as H; unfold zlen; destruct (dec n); [done|cbn; lia]|].
  intros k Hk Hlt. destruct (Z.eq_dec n 0) as [->|]; [change (zlen (dec 0)) with 1; lia|].
  pose proof (dec_length_pos n ltac:(lia)) as [H1 _]. pose proof (zlen_nonneg (dec n)).
  destruct (Z.le_gt_cases (zlen (dec n)) k); [done|]. pose proof (Z.pow_le_mono_r 10 k (zlen (dec n) - 1) ltac:(lia) ltac:(lia)). lia.
Qed.

Lemma zlen_dec_signed_int n : INT_MIN <= n <= INT_MAX -> 1 <= zlen (dec_signed n) <= 11.
Proof.
  unfold INT_MIN, INT_MAX. intros H. unfold dec_signed. destruct (Z.ltb_spec n 0).
  - rewrite zlen_cons. pose proof (zlen_dec (- n) ltac:(lia)) as [? Hk]. specialize (Hk 10 ltac:(lia) ltac:(lia)). lia.
  - pose proof (zlen_dec n ltac:(lia)) as [? Hk]. specialize (Hk 10 ltac:(lia) ltac:(lia)). lia.
Qed.

Lemma zlen_clip_file file : zlen (clip_file file) = Z.min (zlen file) kMaximumFileLength.
Proof. unfold clip_file, zlen, kMaximumFileLength. rewrite length_drop. lia. Qed.

Lemma put_filename_spec file line next pre rest :
  zlen pre = next -> INT_MIN <= line <= INT_MAX -> kMaximumFileLength + 16 <= zlen rest ->
  let out := B " [" ++ clip_file file ++ B ":" ++ dec_signed line ++ B "]" in
  exists rest', put_filename file line next (pre ++ rest) = Ok ((pre ++ out) ++ rest', next + zlen out) /\
    zlen rest' = zlen rest - zlen out /\ zlen out <= kMaximumFileLength + 15.
Proof.
  intros Hp Hl Hr out. unfold put_filename. pose proof (zlen_dec_signed_int line Hl) as Hd. pose proof (zlen_clip_file file) as Hf.
  pose proof (zlen_nonneg file). set (K := kMaximumFileLength) in *. assert (0 < K) by (unfold K, kMaximumFileLength; lia).
  assert ((let '(file, ret) := if K <? zlen file then (drop (Z.to_nat (zlen file - K)) file, K) else (file, zlen file) in
    (take (Z.to_nat ret) file, ret)) = (clip_file file, zlen (clip_file file))) as E.
  { unfold clip_file in *. fold K in Hf |- *. destruct (Z.ltb_spec K (zlen file)); f_equal; try lia.
    - rewrite take_ge; [done|]. unfold zlen in *. lia.
    - replace (Z.to_nat (zlen file - K)) with 0%nat by lia. rewrite drop_0, take_ge; [done|]. unfold zlen. lia. }
  destruct (memcpy_next next (B " [") pre rest) as (r1 & -> & Hr1); [done|change (zlen (B " [")) with 2; lia|]. change (zlen (B " [")) with 2 in *. cbn [rbind].
  destruct (if K <? zlen file then _ else _) as [file' ret]. injection E as E1 E2. rewrite E1, E2.
  destruct (memcpy_next (next + 2) (clip_file file) (pre ++ B " [") r1) as (r2 & -> & Hr2);
    [rewrite zlen_app; change (zlen (B " [")) with 2; lia|lia|]. cbn [rbind].
  destruct (memcpy_next (next + 2 + zlen (clip_file file)) (B ":") ((pre ++ B " [") ++ clip_file file) r2) as (r3 & -> & Hr3);
    [rewrite !zlen_app; change (zlen (B " [")) with 2; lia|change (zlen (B ":")) with 1; lia|]. change (zlen (B ":")) with 1 in *. cbn [rbind].
  match goal with |- context [memcpy ?n (dec_signed line ++ _) (?p ++ r3)] => destruct (memcpy_next_nul n (dec_signed line) p r3) as (r4 & -> & Hr4) end;
    [rewrite !zlen_app; change (zlen (B " [")) with 2; change (zlen (B ":")) with 1; lia|lia|]. cbn [rbind].
  match goal with |- context [memcpy ?n (B "]") (?p ++ r4)] => destruct (memcpy_next n (B "]") p r4) as (r5 & -> & Hr5) end;
    [rewrite !zlen_app; change (zlen (B " [")) with 2; change (zlen (B ":")) with 1; lia|change (zlen (B "]")) with 1; lia|].
  change (zlen (B "]")) with 1 in *. cbn [rbind].
  assert (zlen out = 4 + zlen (clip_file file) + zlen (dec_signed line)) as Ho.
  { unfold out. rewrite !zlen_app. change (zlen (B " [")) with 2. change (zlen (B ":")) with 1. change (zlen (B "]")) with 1. lia. }
  exists r5. split_and!; [|lia|lia]. f_equal. f_equal; [unfold out; by rewrite <- !app_assoc|lia].
Qed.

(** What localtime_r and gettimeofday may say. *)
Definition valid (m : moment) : Prop :=
  0 <= tm_mon m <= 11 /\ 1 <= tm_mday m <= 31 /\ 0 <= tm_hour m <= 23 /\ 0 <= tm_min m <= 59 /\ 0 <= tm_sec m <= 60 /\
  0 <= tv_usec m <= 999999.

Lemma zlen_pad0 w n : 0 <= n < 10 ^ Z.of_nat w -> (0 < w)%nat -> zlen (pad0 w (dec n)) = Z.of_nat w.
Proof.
  intros Hn Hw. pose proof (zlen_dec n ltac:(lia)) as [_ H]. specialize (H (Z.of_nat w) ltac:(lia) ltac:(lia)).
  unfold zlen in *. rewrite pad0_length. lia.
Qed.

Lemma zlen_stamp m tid : valid m -> zlen (stamp m tid) = 22 + Z.max 6 (zlen (dec_signed tid)).
Proof.
  intros (? & ? & ? & ? & ? & ?). unfold stamp. rewrite !zlen_app, !zlen_pad0 by (cbn; lia).
  change (zlen (B "-")) with 1. change (zlen (B " ")) with 1. change (zlen (B ":")) with 1. change (zlen (B ".")) with 1.
  unfold pad. rewrite zlen_app. unfold zlen. rewrite length_replicate. lia.
Qed.

Lemma zlen_level_name level : zlen (level_name level) = 6.
Proof. unfold level_name. by repeat match goal with |- context [if ?b then _ else _] => destruct b end. Qed.

Lemma zlen_level_color level sequence : level_color level = Some sequence -> 7 <= zlen sequence <= 10.
Proof.
  unfold level_color. repeat match goal with |- context [if ?b then _ else _] => destruct b end; intros H; inversion H; vm_compute; split; discriminate.
Qed.

Lemma memcpy_length pos data buffer b : memcpy pos data buffer = Ok b -> zlen b = zlen buffer.
Proof.
  unfold memcpy. destruct (_ && _) eqn:E; [|done]. intros [= <-]. rewrite !zlen_app. unfold zlen in *. rewrite length_take, length_drop. lia.
Qed.

Lemma memcpy_ok pos data buffer : 0 <= pos -> pos + zlen data <= zlen buffer -> exists b, memcpy pos data buffer = Ok b.
Proof. intros Hp Hd. unfold memcpy. replace (_ && _) with true by lia. by eexists. Qed.

Lemma mark_length (g_colorful : bool) level buffer b next color : mark g_colorful level buffer = Ok (b, next, color) -> zlen b = zlen buffer.
Proof.
  unfold mark. destruct (memcpy 0 _ buffer) as [b0|] eqn:E; [|done]. apply memcpy_length in E. cbn [rbind].
  destruct (if g_colorful then _ else _) as [sequence|]; [|by intros [= <- <- <-]].
  destruct (memcpy _ sequence b0) as [b1|] eqn:E1; [|done]. apply memcpy_length in E1. intros [= <- <- <-]. congruence.
Qed.

Lemma zlen_dec_signed_long n : LLONG_MIN <= n <= LLONG_MAX -> zlen (dec_signed n) <= 20.
Proof.
  unfold LLONG_MIN, LLONG_MAX. intros H. unfold dec_signed. destruct (Z.ltb_spec n 0).
  - rewrite zlen_cons. pose proof (zlen_dec (- n) ltac:(lia)) as [? Hk]. specialize (Hk 19 ltac:(lia) ltac:(lia)). lia.
  - pose proof (zlen_dec n ltac:(lia)) as [? Hk]. specialize (Hk 19 ltac:(lia) ltac:(lia)). lia.
Qed.

(** The marks, the stamp and the blank: what is in front of the text. *)
Lemma mark_spec (g_colorful : bool) level buffer st :
  zlen buffer = buffer_size -> zlen st = 28 ->
  let color := if g_colorful then level_color level else None in
  let head := level_name level ++ st ++ B " " ++ default [] color in
  exists b next rest,
    mark g_colorful level buffer = Ok (b, next, bool_decide (is_Some color)) /\
    rbind (memcpy 6 (st ++ [NUL]) b) (memcpy (28 + PID_LENGTH) (B " ")) = Ok (head ++ rest) /\
    zlen head = next /\ zlen rest = buffer_size - next /\ next <= 45.
Proof.
  intros Hb Hst color head. unfold mark. fold color. pose proof (zlen_level_name level) as Hn.
  unfold buffer_size, kMaximumLineLength, kMaximumFileLength, PID_LENGTH in *.
  assert (7 <= zlen (default [] color) <= 10 \/ color = None) as Hc.
  { unfold color. destruct g_colorful; [|by right]. destruct (level_color level) eqn:E; [left; by apply zlen_level_color in E|by right]. }
  assert (exists a m c rest, buffer = a ++ m ++ c ++ rest /\ zlen a = 6 /\ zlen m = 29 /\ zlen c = zlen (default [] color)) as (a & m & c & rest & -> & Ha & Hm & Hlc).
  { exists (take 6 buffer), (take 29 (drop 6 buffer)), (take (length (default [] color)) (drop 29 (drop 6 buffer))), (drop (length (default [] color)) (drop 29 (drop 6 buffer))).
    split; [by rewrite !take_drop|]. unfold zlen in *. rewrite !length_take, !length_drop. destruct Hc as [Hc| ->]; cbn [default length] in *; lia. }
  rewrite !zlen_app in Hb.
  change (memcpy 0 (level_name level) (a ++ m ++ c ++ rest)) with (memcpy 0 (level_name level) ([] ++ a ++ m ++ c ++ rest)).
  rewrite memcpy_at by (try done; lia). cbn [app rbind].
  assert (forall c', zlen c' = zlen c -> rbind (memcpy 6 (st ++ [NUL]) (level_name level ++ m ++ c' ++ rest)) (memcpy 34 (B " ")) =
    Ok (level_name level ++ st ++ B " " ++ c' ++ rest)) as Hst'.
  { intros c' _. rewrite memcpy_at; [|done|rewrite zlen_app, Hst; done]. cbn [rbind]. rewrite <- !app_assoc.
    rewrite (app_assoc (level_name level) st). rewrite memcpy_at; [|rewrite zlen_app; lia|done]. by rewrite <- !app_assoc. }
  assert (zlen head = 35 + zlen (default [] color)) as Hh.
  { unfold head. rewrite !zlen_app, Hn, Hst. change (zlen (B " ")) with 1. lia. }
  destruct color as [sequence|]; cbn [default] in *; unfold id in *.
  - replace (level_name level ++ m ++ c ++ rest) with ((level_name level ++ m) ++ c ++ rest) by (by rewrite <- app_assoc).
    rewrite memcpy_at; [|rewrite zlen_app; lia|lia]. cbn [rbind]. rewrite <- app_assoc.
    eexists _, _, rest. split; [reflexivity|]. split.
    + change (28 + 6) with 34. rewrite Hst' by lia. unfold head. by rewrite <- !app_assoc.
    + destruct Hc as [Hc|]; [|done]. split_and!; lia.
  - exists (level_name level ++ m ++ c ++ rest), (29 + 6), rest. split; [reflexivity|].
    assert (c = []) as -> by (destruct c; [done|]; unfold zlen in Hlc; cbn in Hlc; lia).
    change (28 + 6) with 34. rewrite Hst' by done. change (zlen (@nil ascii)) with 0 in *. split_and!; [unfold head; by rewrite <- !app_assoc|lia..].
Qed.

Lemma log_line_compose (g_with_filename g_colorful : bool) level file line text m tid buffer :
  zlen buffer = buffer_size -> valid m -> INT_MIN <= line <= INT_MAX -> LLONG_MIN <= tid <= LLONG_MAX ->
  compose g_with_filename g_colorful level file line text m tid buffer =
    Ok (match text with
        | Some text =>
            if zlen (dec_signed tid) <=? 6 then Some (composed g_with_filename g_colorful level file line text m tid) else None
        | None => None
        end).
Proof.
  intros Hb Hm Hl Ht. unfold compose. pose proof (zlen_stamp m tid Hm) as Hst.
  destruct (Z.leb_spec (zlen (dec_signed tid)) 6) as [Hs|Hs].
  - rewrite Z.max_l in Hst by lia. destruct (mark_spec g_colorful level buffer (stamp m tid) Hb Hst) as (b & next & rest & -> & E & Hh & Hr & Hn).
    cbn [rbind]. rewrite Hst. change (28 =? 22 + PID_LENGTH) with true. cbn [negb].
    destruct (memcpy 6 (stamp m tid ++ [NUL]) b) as [b'|]; [|done]. cbn [rbind] in E |- *. rewrite E. cbn [rbind].
    destruct text as [text|]; [|done]. unfold buffer_size, kMaximumLineLength, kMaximumFileLength in *.
    destruct (put_text_spec text next _ rest Hh) as (r1 & -> & Hr1 & Ht1); [unfold kMaximumLineLength; lia|]. unfold kMaximumLineLength in Ht1. cbn [rbind].
    assert (exists r2, (if g_with_filename then put_filename file line (next + zlen (clip_text text)) (((level_name level ++ stamp m tid ++ B " " ++ default [] (if g_colorful then level_color level else None)) ++ clip_text text) ++ r1)
        else Ok (((level_name level ++ stamp m tid ++ B " " ++ default [] (if g_colorful then level_color level else None)) ++ clip_text text) ++ r1, next + zlen (clip_text text))) =
      Ok ((((level_name level ++ stamp m tid ++ B " " ++ default [] (if g_colorful then level_color level else None)) ++ clip_text text) ++
        (if g_with_filename then B " [" ++ clip_file file ++ B ":" ++ dec_signed line ++ B "]" else [])) ++ r2,
        next + zlen (clip_text text) + zlen (if g_with_filename then B " [" ++ clip_file file ++ B ":" ++ dec_signed line ++ B "]" else [])) /\
      5 <= zlen r2) as (r2 & -> & Hr2).
    { destruct g_with_filename.
      - match goal with |- context [put_filename file line ?n (?p ++ r1)] => destruct (put_filename_spec file line n p r1) as (r2 & -> & Hr2 & Ho) end;
          [rewrite (zlen_app _ (clip_text text)); lia|done|unfold kMaximumFileLength; lia|]. unfold kMaximumFileLength in Ho. exists r2. split; [done|lia].
      - exists r1. rewrite app_nil_r. change (zlen (@nil ascii)) with 0. rewrite Z.add_0_r. split; [done|lia]. }
    cbn [rbind].
    set (place := if g_with_filename then _ else _). set (color := if g_colorful then level_color level else None) in *.
    set (pre := (_ ++ clip_text text) ++ place). assert (zlen pre = next + zlen (clip_text text) + zlen place) as Hp by (unfold pre; rewrite (zlen_app _ place), (zlen_app _ (clip_text text)); lia).
    revert Hp. generalize (next + zlen (clip_text text) + zlen place). intros n Hp.
    assert (forall sfx r n', zlen (pre ++ sfx) = n' -> 1 <= zlen r ->
      (let! buffer := memcpy n' [chr 10] ((pre ++ sfx) ++ r) in Ok (Some (take (Z.to_nat (n' + 1)) buffer))) = Ok (Some (pre ++ sfx ++ [chr 10]))) as Hend.
    { intros sfx r n' Hn' Hr'. destruct (memcpy_next n' [chr 10] (pre ++ sfx) r Hn' Hr') as (r' & -> & _). cbn [rbind].
      rewrite take_app_length'; [by rewrite <- app_assoc|]. rewrite <- Hn'. unfold zlen. rewrite (length_app _ [chr 10]). cbn [length]. lia. }
    assert (forall sfx, composed g_with_filename g_colorful level file line text m tid = pre ++ sfx ++ [chr 10] <->
      (match color with Some _ => escape (B "[0m") | None => [] end) ++ [chr 10] = sfx ++ [chr 10]) as Hsp.
    { intros sfx. unfold composed, pre. fold color place. rewrite <- !app_assoc. split; [|by intros ->].
      intros H. repeat apply app_inv_head in H. exact H. }
    destruct color as [sequence|] eqn:Ec.
    + rewrite bool_decide_eq_true_2 by (by eexists).
      destruct (memcpy_next n (escape (B "[0m")) pre r2 Hp) as (r3 & -> & Hr3); [change (zlen (escape (B "[0m"))) with 4; lia|].
      change (zlen (escape (B "[0m"))) with 4 in Hr3. cbn [rbind]. rewrite Hend; [|rewrite zlen_app, Hp; done|lia].
      f_equal. f_equal. symmetry. by apply Hsp.
    + rewrite bool_decide_eq_false_2 by (by intros [? ?]). cbn [rbind]. rewrite <- (app_nil_r pre) at 1. rewrite Hend; [|by rewrite app_nil_r|lia].
      f_equal. f_equal. symmetry. by apply Hsp.
  - rewrite Z.max_r in Hst by lia.
    destruct (mark_spec g_colorful level buffer (replicate 28 NUL) Hb eq_refl) as (b & next & rest & Em & _). rewrite Em.
    cbn [rbind]. destruct (memcpy_ok 6 (stamp m tid ++ [NUL]) b) as (b' & ->); [done| |].
    + rewrite (mark_length _ _ _ _ _ _ Em). rewrite Hb, zlen_app, Hst. change (zlen [NUL]) with 1. pose proof (zlen_dec_signed_long tid Ht).
      unfold buffer_size, kMaximumLineLength, kMaximumFileLength. lia.
    + cbn [rbind]. rewrite Hst. replace (negb _) with true by (unfold PID_LENGTH; lia). by destruct text.
Qed.

(** C37: A line of the logger is level, time, thread, text, and the place with
    color around as told, the text cut to 2048 and the name of the file to its
    last 256 characters; however long they are, no byte is written outside the
    buffer; the line is lost (not written wrong) if the number of the thread has
    more than six digits or the text cannot be formatted. *)
Theorem log_line_exact (g_with_filename g_colorful : bool) level file line text m tid buffer :
  zlen buffer = buffer_size -> valid m -> INT_MIN <= line <= INT_MAX -> LLONG_MIN <= tid <= LLONG_MAX ->
  compose g_with_filename g_colorful level file line text m tid buffer =
    Ok (match text with
        | Some text =>
            if zlen (dec_signed tid) <=? 6 then Some (composed g_with_filename g_colorful level file line text m tid) else None
        | None => None
        end).
Proof. apply log_line_compose. Qed.

Definition demo_moment : moment := mkMoment 1400000000 123 4 13 16 53 20.
Definition demo_stack : bytes := replicate (Z.to_nat buffer_size) NUL.

Lemma log_line_exact_witness :
  compose true true kLevelError (B "a.cpp") 42 (Some (B "no way")) demo_moment 4711 demo_stack =
    Ok (Some (B "ERROR 05-13 16:53:20.000123   4711 " ++ escape (B "[1;31m") ++ B "no way [a.cpp:42]" ++ escape (B "[0m") ++ [chr 10])).
Proof.
  rewrite (log_line_exact true true kLevelError (B "a.cpp") 42 (Some (B "no way")) demo_moment 4711 demo_stack);
    [vm_compute; reflexivity|vm_compute; reflexivity|vm_compute; repeat split; discriminate|unfold INT_MIN, INT_MAX; lia|unfold LLONG_MIN, LLONG_MAX; lia].
Defined.

(** Threads with a number of seven digits, which Linux has, do not log. *)
Theorem log_line_loses_wide_threads (g_with_filename g_colorful : bool) level file line text m tid buffer :
  zlen buffer = buffer_size -> valid m -> INT_MIN <= line <= INT_MAX -> 1000000 <= tid <= INT_MAX ->
  compose g_with_filename g_colorful level file line text m tid buffer = Ok None.
Proof.
  intros Hb Hm Hl Ht. rewrite log_line_compose; [|done..|unfold LLONG_MIN, LLONG_MAX, INT_MAX in *; lia].
  destruct text; [|done]. unfold dec_signed. replace (tid <? 0) with false by lia.
  pose proof (dec_length_pos tid ltac:(lia)) as [_ H]. destruct (Z.leb_spec (zlen (dec tid)) 6) as [Hle|]; [|done].
  pose proof (Z.pow_le_mono_r 10 (zlen (dec tid)) 6 ltac:(lia) Hle). lia.
Qed.

(** ** The file *)

Record logger : Type := mkLogger {
  g_filter : Z;
  g_with_filename : bool;
  g_colorful : bool;
  g_filename : bytes;
  g_fstat : Z * Z;
  g_stated : Z;
  g_fd : Z
}.

(** Before main, in a build for debugging. *)
Definition initial : logger := mkLogger kLevelDebug true true [] (0, 0) 0 (-1).

Definition set_file (fstat : Z * Z) (stated fd : Z) (g : logger) : logger :=
  mkLogger (g_filter g) (g_with_filename g) (g_colorful g) (g_filename g) fstat stated fd.
Definition set_filename (filename : bytes) (g : logger) : logger :=
  mkLogger (g_filter g) (g_with_filename g) (g_colorful g) filename (g_fstat g) (g_stated g) (g_fd g).
Definition SetFilter (filter_level : Z) (g : logger) : logger :=
  mkLogger filter_level (g_with_filename g) (g_colorful g) (g_filename g) (g_fstat g) (g_stated g) (g_fd g).
Definition SetColorful (colorful : bool) (g : logger) : logger :=
  mkLogger (g_filter g) (g_with_filename g) colorful (g_filename g) (g_fstat g) (g_stated g) (g_fd g).
Definition SetWithFilename (with_filename : bool) (g : logger) : logger :=
  mkLogger (g_filter g) with_filename (g_colorful g) (g_filename g) (g_fstat g) (g_stated g) (g_fd g).
Definition IsFiltered (level : Z) (g : logger) : bool := g_filter g <? level.

(** What is done to the system. *)
Inductive deed : Type :=
| Makes (directories : list bytes)
| Opens (file : bytes) (fd : Z)
| Closes (fd : Z)
| Writes (fd : Z) (data : bytes).

(** The answers to DoProcessAttach: cmdline_get_absolute_path (NULL: [None]),
    mkdir by directory, open, set_close_on_exec, the device and the inode, the
    clock. *)
Record answers : Type := mkAnswers {
  a_absolute : option bytes;
  a_mkdir : bytes -> Z;
  a_open : Z;
  a_cloexec : Z;
  a_fstat : Z * Z;
  a_time : Z
}.

(** What is in front of the last slash, if there is one. *)
Fixpoint before_last_slash (s : bytes) : option bytes :=
  match s with
  | [] => None
  | c :: s =>
      match before_last_slash s with
      | Some path => Some (c :: path)
      | None => if bool_decide (c = "/"%char) then Some [] else None
      end
  end.

Definition safe_close (fd : Z) : list deed := if fd <? 0 then [] else [Closes fd].

Definition DoProcessDetach (g : logger) : list deed * logger :=
  (safe_close (g_fd g), set_file (g_fstat g) (g_stated g) (-1) g).

Definition DoProcessAttach (filename : bytes) (a : answers) (g : logger) : list deed * logger * bool :=
  let file := default filename (a_absolute a) in
  let '(made, ds) :=
    match before_last_slash file with
    | None => (true, [])
    | Some path =>
        match mkdirs (a_mkdir a) (Some (c_str path)) with
        | Some (ret, _, dirs) => (ret =? 0, [Makes dirs])
        | None => (false, [])
        end
    end in
  if negb made then (ds, g, false)
  else
    let fd := a_open a in
    if fd <? 0 then (ds, g, false)
    else
      let ds := ds ++ [Opens file fd] in
      if negb (a_cloexec a =? 0) then (ds ++ safe_close fd, g, false)
      else
        let ds := ds ++ (if 0 <=? g_fd g then safe_close (g_fd g) else []) in
        (ds, set_file (a_fstat a) (a_time a) fd g, true).

(** Write, up to the release of the lock for readers: whether the file is to be
    opened again, and g_stated then.  [st]: what stat says of the file. *)
Definition Write_check (now : Z) (st : option (Z * Z)) (g : logger) : logger * bool * Z :=
  if bool_decide (g_filename g = []) then (g, false, g_stated g)
  else if g_fd g <? 0 then (g, true, g_stated g)
  else if (now <? g_stated g) || (5 <? now - g_stated g) then
    let g := set_file (g_fstat g) now (g_fd g) g in
    (g, negb (bool_decide (st = Some (g_fstat g))), g_stated g)
  else (g, false, g_stated g).

(** With the lock for writers; [false]: Write returns it. *)
Definition Write_reopen (stated : Z) (a : answers) (g : logger) : list deed * logger * bool :=
  if stated =? g_stated g then
    let '(ds, g) := DoProcessDetach g in
    let '(ds', g, ok) := DoProcessAttach (g_filename g) a g in
    (ds ++ ds', g, ok)
  else ([], g, true).

(** [sret]: what safe_write returns. *)
Definition Write_out (buffer : bytes) (sret : Z) (g : logger) : list deed * bool :=
  let fd := if g_fd g <? 0 then 2 else g_fd g in
  ([Writes fd buffer], u64 sret =? zlen buffer).

(** All of Write, when nobody else comes between. *)
Definition Write (now : Z) (buffer : bytes) (st : option (Z * Z)) (a : answers) (sret : Z) (g : logger) : list deed * logger * bool :=
  let '(g, reopen, stated) := Write_check now st g in
  let '(ds, g, ok) := if reopen then Write_reopen stated a g else ([], g, true) in
  if negb ok then (ds, g, false)
  else let '(ds', ret) := Write_out buffer sret g in (ds ++ ds', g, ret).

Definition VLog (level : Z) (file : bytes) (line : Z) (text : option bytes) (m : moment) (tid : Z) (stack : bytes)
    (st : option (Z * Z)) (a : answers) (sret : Z) (g : logger) : result exn (list deed * logger * bool) :=
  if IsFiltered level g then Ok ([], g, true)
  else
    let! r := compose (g_with_filename g) (g_colorful g) level file line text m tid stack in
    match r with
    | None => Ok ([], g, false)
    | Some buffer => Ok (Write (tv_sec m) buffer st a sret g)
    end.

Definition Log := VLog.

(** The methods that LOGGER makes. *)
Definition Fatal := VLog kLevelFatal.
Definition Error := VLog kLevelError.
Definition Warn := VLog kLevelWarn.
Definition Info := VLog kLevelInfo.
Definition Trace := VLog kLevelTrace.
Definition Debug := VLog kLevelDebug.
Definition Warning := VLog kLevelWarn.
Definition Verbose := VLog kLevelVerbose.

(** The end of a [Logger] that has collected its text in a stream. *)
Definition Logger_destroy (level : Z) (file : bytes) (line : Z) (collected : bytes) :=
  Log level file line (Some (c_str collected)).

Definition ThreadAttach : bool := true.

Definition ProcessAttach (filename : bytes) (filter_level : Z) (a : answers) (g : logger) : list deed * logger * bool :=
  let g := SetFilter filter_level g in
  let '(ds, g) := DoProcessDetach (set_filename [] g) in
  if bool_decide (filename = []) then (ds, g, true)
  else
    let '(ds', g, ok) := DoProcessAttach filename a g in
    (ds ++ ds', if ok then set_filename filename g else g, ok).

Definition ProcessDetach (g : logger) : list deed * logger := DoProcessDetach (set_filename [] g).

(** ** Threads *)

(** Where a thread is in Write, between the critical sections. *)
Inductive place : Type :=
| Reopening (stated : Z) (line : bytes)
| Relocking (line : bytes).

(** One critical section: of thread [i] in Write, or of a thread that attaches
    or detaches the file. *)
Inductive event : Type :=
| Checks (i : nat) (now : Z) (line : bytes) (st : option (Z * Z)) (sret : Z)
| Reopens (i : nat) (a : answers)
| Relocks (i : nat) (sret : Z)
| Attaches (filename : bytes) (filter_level : Z) (a : answers)
| Detaches.

Abbreviation places := (gmap nat place) (only parsing).

(** Nothing for an event that is not possible: a thread is at one place, and
    the system gives no descriptor that is in use, standard error included. *)
Definition step (e : event) (c : logger * places) : option (list deed * (logger * places)) :=
  let '(g, ps) := c in
  let fresh a (fd : Z) := negb (a_open a =? 2) && ((a_open a <? 0) || negb (a_open a =? fd)) in
  match e with
  | Checks i now line st sret =>
      match ps !! i with
      | Some _ => None
      | None =>
          match Write_check now st g with
          | (g, true, stated) => Some ([], (g, <[i := Reopening stated line]> ps))
          | (g, false, _) => Some ((Write_out line sret g).1, (g, ps))
          end
      end
  | Reopens i a =>
      match ps !! i with
      | Some (Reopening stated line) =>
          if negb (fresh a (if stated =? g_stated g then -1 else g_fd g)) then None
          else
            match Write_reopen stated a g with
            | (ds, g, true) => Some (ds, (g, <[i := Relocking line]> ps))
            | (ds, g, false) => Some (ds, (g, delete i ps))
            end
      | _ => None
      end
  | Relocks i sret =>
      match ps !! i with
      | Some (Relocking line) => Some ((Write_out line sret g).1, (g, delete i ps))
      | _ => None
      end
  | Attaches filename filter_level a =>
      if negb (fresh a (-1)) then None
      else let '(ds, g, _) := ProcessAttach filename filter_level a g in Some (ds, (g, ps))
  | Detaches => let '(ds, g) := ProcessDetach g in Some (ds, (g, ps))
  end.

Fixpoint steps (es : list event) (c : logger * places) : option (list deed * (logger * places)) :=
  match es with
  | [] => Some ([], c)
  | e :: es =>
      match step e c with
      | None => None
      | Some (ds, c) => match steps es c with Some (ds', c) => Some (ds ++ ds', c) | None => None end
      end
  end.

(** The descriptors that are open behind some deeds; nothing if one of them was
    closed, or written to, while it was not. *)
Fixpoint opened (ds : list deed) (fds : gset Z) : option (gset Z) :=
  match ds with
  | [] => Some fds
  | Makes _ :: ds => opened ds fds
  | Opens _ fd :: ds => if bool_decide (fd ∈ fds) then None else opened ds ({[fd]} ∪ fds)
  | Closes fd :: ds => if bool_decide (fd ∈ fds) then opened ds (fds ∖ {[fd]}) else None
  | Writes fd _ :: ds => if bool_decide (fd ∈ fds) || (fd =? 2) then opened ds fds else None
  end.

Definition mine (g : logger) : gset Z := if g_fd g <? 0 then ∅ else {[g_fd g]}.

Lemma opened_app ds ds' fds : opened (ds ++ ds') fds = match opened ds fds with Some fds => opened ds' fds | None => None end.
Proof. revert fds. induction ds as [|[] ds IH]; intros fds; cbn; try done; repeat case_bool_decide; cbn; try done; by destruct (fd =? 2). Qed.

Lemma detach_opened g : opened (DoProcessDetach g).1 (mine g) = Some ∅ /\ mine (DoProcessDetach g).2 = ∅.
Proof.
  unfold DoProcessDetach, mine, safe_close. cbn. split; [|done]. destruct (g_fd g <? 0); [done|]. cbn.
  rewrite bool_decide_eq_true_2 by set_solver. f_equal. set_solver.
Qed.

Lemma attach_opened filename a g : a_open a < 0 \/ a_open a <> g_fd g ->
  opened (DoProcessAttach filename a g).1.1 (mine g) = Some (mine (DoProcessAttach filename a g).1.2).
Proof.
  intros Hf. unfold DoProcessAttach.
  assert (forall x : bool * list deed, (exists d, x.2 = [Makes d]) \/ x.2 = [] -> forall r, opened (x.2 ++ r) (mine g) = opened r (mine g)) as Hx.
  { intros [b ds] [(d & E)|E] r; cbn in E; subst; done. }
  match goal with |- context [let '(made, ds) := ?x in _] => specialize (Hx x); destruct x as [made ds] eqn:E end. cbn [snd] in Hx.
  assert (forall r, opened (ds ++ r) (mine g) = opened r (mine g)) as Hds.
  { apply Hx. destruct (before_last_slash _); [|injection E as <- <-; by right].
    destruct (mkdirs _ _) as [[[? ?] ?]|]; injection E as <- <-; [left; by eexists|by right]. }
  clear E Hx. assert (opened ds (mine g) = Some (mine g)) as Hd0 by (rewrite <- (app_nil_r ds), Hds; done).
  destruct made; cbn [negb fst snd]; [|done]. destruct (Z.ltb_spec (a_open a) 0); [done|].
  assert (a_open a ∉ mine g) as Hn.
  { unfold mine. destruct (Z.ltb_spec (g_fd g) 0); [apply not_elem_of_empty|rewrite elem_of_singleton; lia]. }
  destruct (negb (a_cloexec a =? 0)); cbn [fst snd]; rewrite <- !app_assoc, Hds; cbn [opened app].
  - rewrite bool_decide_eq_false_2 by done. unfold safe_close. replace (a_open a <? 0) with false by lia. cbn [opened].
    rewrite bool_decide_eq_true_2 by set_solver. f_equal. set_solver.
  - rewrite bool_decide_eq_false_2 by done. unfold safe_close, mine in *. cbn [set_file g_fd].
    replace (a_open a <? 0) with false by lia. destruct (Z.leb_spec 0 (g_fd g)).
    + replace (g_fd g <? 0) with false in * by lia. cbn [opened]. rewrite bool_decide_eq_true_2 by set_solver. f_equal. set_solver.
    + replace (g_fd g <? 0) with true by lia. cbn [opened]. f_equal. set_solver.
Qed.

Lemma attach_filename filename a g : g_filename (DoProcessAttach filename a g).1.2 = g_filename g.
Proof.
  unfold DoProcessAttach. match goal with |- context [let '(made, ds) := ?x in _] => destruct x as [[] ds] end; cbn [negb]; [|done].
  destruct (a_open a <? 0); [done|]. by destruct (negb (a_cloexec a =? 0)).
Qed.

Lemma check_mine now st g g' b t : Write_check now st g = (g', b, t) -> mine g' = mine g.
Proof. unfold Write_check. repeat case_bool_decide; repeat match goal with |- context [if ?b then _ else _] => destruct b end; by intros [= <- <- <-]. Qed.

Lemma out_opened line sret g : opened (Write_out line sret g).1 (mine g) = Some (mine g).
Proof.
  unfold Write_out, mine. cbn. destruct (g_fd g <? 0); cbn; [done|]. by rewrite bool_decide_eq_true_2 by set_solver.
Qed.

Lemma detach_attach_opened filename a g : opened ((DoProcessDetach g).1 ++ (DoProcessAttach filename a (DoProcessDetach g).2).1.1) (mine g) =
  Some (mine (DoProcessAttach filename a (DoProcessDetach g).2).1.2).
Proof.
  destruct (detach_opened g) as [H1 H2]. rewrite opened_app, H1, <- H2. apply attach_opened. cbn. lia.
Qed.

Lemma step_opened e g ps ds g' ps' : step e (g, ps) = Some (ds, (g', ps')) -> opened ds (mine g) = Some (mine g').
Proof.
  unfold step. destruct e as [i now line st sret|i a|i sret|filename filter_level a|].
  - destruct (ps !! i); [done|]. destruct (Write_check now st g) as [[g0 b] t] eqn:E. apply check_mine in E.
    destruct b; intros [= <- <- <-]; [by rewrite E|]. rewrite <- E. exact (out_opened line sret g0).
  - destruct (ps !! i) as [[stated line|]|]; [|done|done]. destruct (negb _) eqn:Ef; [done|]. unfold Write_reopen.
    destruct (stated =? g_stated g).
    + pose proof (detach_attach_opened (g_filename (DoProcessDetach g).2) a g) as H. destruct (DoProcessDetach g) as [ds0 g0]. cbn [fst snd] in H.
      destruct (DoProcessAttach _ a g0) as [[ds1 g1] []]; by intros [= <- <- <-].
    + by intros [= <- <- <-].
  - destruct (ps !! i) as [[|line]|]; [done| |done]. intros [= <- <- <-]. exact (out_opened line sret g).
  - destruct (negb _); [done|]. unfold ProcessAttach.
    pose proof (detach_attach_opened filename a (set_filename [] (SetFilter filter_level g))) as H.
    pose proof (detach_opened (set_filename [] (SetFilter filter_level g))) as [H1 H2].
    destruct (DoProcessDetach _) as [ds0 g0]. cbn [fst snd] in H, H1, H2. change (mine (set_filename [] (SetFilter filter_level g))) with (mine g) in *.
    case_bool_decide; [intros [= <- <- <-]; by rewrite H1, H2|].
    destruct (DoProcessAttach _ a g0) as [[ds1 g1] []]; cbn [fst snd] in H; by intros [= <- <- <-].
  - unfold ProcessDetach. pose proof (detach_opened (set_filename [] g)) as [H1 H2]. destruct (DoProcessDetach _) as [ds0 g0]. cbn [fst snd] in H1, H2.
    change (mine (set_filename [] g)) with (mine g) in *. intros [= <- <- <-]. by rewrite H1, H2.
Qed.

(** C38: However threads log, attach and detach: the logger has at most the one
    descriptor open that it remembers, closes each once, and never writes to one
    that is closed. *)
Theorem logger_one_descriptor es ds g ps :
  steps es (initial, ∅) = Some (ds, (g, ps)) -> opened ds ∅ = Some (mine g).
Proof.
  assert (forall c ds c', steps es c = Some (ds, c') -> opened ds (mine c.1) = Some (mine c'.1)) as H.
  { clear. induction es as [|e es IH]; intros [g ps] ds c'; cbn [steps]; [by intros [= <- <-]|].
    destruct (step e (g, ps)) as [[ds1 [g1 ps1]]|] eqn:E; [|done]. apply step_opened in E.
    destruct (steps es (g1, ps1)) as [[ds2 c2]|] eqn:E2; [|done]. intros [= <- <-]. rewrite opened_app. cbn [fst]. rewrite E. exact (IH _ _ _ E2). }
  intros E. exact (H (initial, ∅) ds (g, ps) E).
Qed.

Lemma attach_ok filename a g : (DoProcessAttach filename a g).2 = true ->
  exists ds, DoProcessAttach filename a g = (ds, set_file (a_fstat a) (a_time a) (a_open a) g, true) /\ 0 <= a_open a.
Proof.
  unfold DoProcessAttach. match goal with |- context [let '(made, ds) := ?x in _] => destruct x as [[] ds] end; cbn [negb]; [|done].
  destruct (Z.ltb_spec (a_open a) 0); [done|]. destruct (negb (a_cloexec a =? 0)); [done|]. intros _. by eexists.
Qed.

(** A file that was moved away: with more than five seconds since the last look
    the line goes to the new file. *)
Theorem Write_follows_rotation now buffer st a sret g :
  g_filename g <> [] -> 0 <= g_fd g -> 5 < now - g_stated g -> st <> Some (g_fstat g) ->
  (DoProcessAttach (g_filename g) a (set_file (g_fstat g) now (-1) g)).2 = true ->
  exists ds g' ret, Write now buffer st a sret g = (ds ++ [Writes (a_open a) buffer], g', ret) /\
    g_fd g' = a_open a /\ g_fstat g' = a_fstat a /\ g_filename g' = g_filename g.
Proof.
  intros Hn Hfd Hnow Hst Ha. unfold Write, Write_check. rewrite bool_decide_eq_false_2 by done.
  replace (g_fd g <? 0) with false by lia. replace (_ || _) with true by lia. cbn [set_file g_fstat g_filename g_stated g_fd].
  rewrite bool_decide_eq_false_2 by done. cbn [negb]. unfold Write_reopen.
  change (mkLogger _ _ _ _ _ now _) with (set_file (g_fstat g) now (g_fd g) g).
  change (g_stated (set_file (g_fstat g) now (g_fd g) g)) with now. rewrite Z.eqb_refl.
  change (DoProcessDetach (set_file (g_fstat g) now (g_fd g) g)) with (safe_close (g_fd g), set_file (g_fstat g) now (-1) g).
  cbv beta iota. change (g_filename (set_file (g_fstat g) now (-1) g)) with (g_filename g).
  destruct (attach_ok _ _ _ Ha) as (ds & E & Ho). rewrite E. cbn [negb].
  unfold Write_out. cbn [set_file g_fd]. replace (a_open a <? 0) with false by lia. by eexists _, _, _.
Qed.

(** A file in the root directory: mkdirs of nothing fails, and so does the
    logger. *)
Theorem attach_in_root_fails name a g :
  "/"%char ∉ name -> a_absolute a = Some ("/"%char :: name) -> (DoProcessAttach ("/"%char :: name) a g).2 = false.
Proof.
  intros Hn Ha. unfold DoProcessAttach. rewrite Ha.
  assert (before_last_slash name = None) as E.
  { clear Ha. induction name as [|c name IH]; [done|]. cbn [before_last_slash]. rewrite IH by set_solver. rewrite bool_decide_eq_false_2; [done|]. set_solver. }
  cbn [default]. unfold id. change (before_last_slash ("/"%char :: name)) with
    (match before_last_slash name with Some path => Some ("/"%char :: path) | None => Some [] end). by rewrite E.
Qed.

Definition demo_answers (fd : Z) : answers := mkAnswers (Some (B "/var/log/a.log")) (fun _ => 0) fd 0 (8, fd) 100.

Lemma logger_one_descriptor_witness : exists ds g ps,
  steps [Attaches (B "a.log") 4 (demo_answers 5); Checks 0 110 (B "one") None 3; Checks 1 110 (B "two") None 3;
         Reopens 0 (demo_answers 6); Relocks 0 3] (initial, ∅) = Some (ds, (g, ps)) /\
  g_fd g = 6 /\ opened ds ∅ = Some (mine g).
Proof.
  eexists _, _, _. split; [vm_compute; reflexivity|]. split; [reflexivity|].
  eapply (logger_one_descriptor [Attaches (B "a.log") 4 (demo_answers 5); Checks 0 110 (B "one") None 3; Checks 1 110 (B "two") None 3;
         Reopens 0 (demo_answers 6); Relocks 0 3]). vm_compute. reflexivity.
Defined.
