(* ===== verification/SslIo.v ===== *)
(** * The I/O engine of SSL: linkage/ssl_io.cpp, ssl_peer.h

    [SslIo] reads and writes through OpenSSL, which is an interface here: what
    its functions return, and the plaintext that goes through.  It keeps the
    promises of [AbstractIo], so that what is proved of a [Linkage] holds with
    SSL too. *)

From S2P Require Import Prelude AbstractIo.

(** ** OpenSSL

    [S] is the state of one connection.  A call returns as documented: bytes
    were taken or stored when its result is positive.  [SSL_errno] is errno
    after the last call.  [tunnelled] is the plaintext that the peer will get,
    [unread] counts the plaintext that is still to come. *)

Definition SSL_ERROR_SSL : Z := 1.
Definition SSL_ERROR_WANT_READ : Z := 2.
Definition SSL_ERROR_WANT_WRITE : Z := 3.
Definition SSL_ERROR_WANT_X509_LOOKUP : Z := 4.
Definition SSL_ERROR_SYSCALL : Z := 5.
Definition SSL_ERROR_ZERO_RETURN : Z := 6.

(** The certificate of the peer: what X509_NAME_oneline makes of its names, and
    the serial number in hexadecimal, each of which can fail. *)
Record X509 : Type := mkX509 {
  x509_subject : option bytes;
  x509_issuer : option bytes;
  x509_serial : option bytes
}.

Class OpenSSL (S : Type) := {
  SSL_read : Z -> S -> S * Z * bytes;
  SSL_write : bytes -> S -> S * Z;
  SSL_connect : S -> S * Z;
  SSL_accept : S -> S * Z;
  SSL_shutdown : S -> S * Z;
  SSL_get_error : S -> Z -> Z;
  SSL_errno : S -> Z;
  SSL_pending : S -> Z;
  SSL_get_version : S -> bytes;
  SSL_get_cipher_name : S -> bytes;
  SSL_get_peer_certificate : S -> option X509;

  tunnelled : S -> bytes;
  unread : S -> nat;

  SSL_read_tunnelled : forall n s, tunnelled (SSL_read n s).1.1 = tunnelled s;
  SSL_read_unread : forall n s s' ret b, SSL_read n s = (s', ret, b) ->
    if 0 <? ret then zlen b = ret /\ (unread s' + length b <= unread s)%nat else (unread s' <= unread s)%nat;
  SSL_write_tunnelled : forall b s s' ret, SSL_write b s = (s', ret) ->
    if 0 <? ret then ret <= zlen b /\ tunnelled s' = tunnelled s ++ take (Z.to_nat ret) b else tunnelled s' = tunnelled s;
  SSL_write_unread : forall b s, (unread (SSL_write b s).1 <= unread s)%nat;
  SSL_connect_stream : forall s, tunnelled (SSL_connect s).1 = tunnelled s /\ (unread (SSL_connect s).1 <= unread s)%nat;
  SSL_accept_stream : forall s, tunnelled (SSL_accept s).1 = tunnelled s /\ (unread (SSL_accept s).1 <= unread s)%nat;
  SSL_shutdown_stream : forall s, tunnelled (SSL_shutdown s).1 = tunnelled s /\ (unread (SSL_shutdown s).1 <= unread s)%nat
}.

(** ** The engine *)

(** ssl_peer.h *)
Record SslPeer : Type := mkSslPeer {
  _serial_number : bytes;
  _subject_name : bytes;
  _issuer_name : bytes;
  _version : bytes;
  _cipher : bytes;
  _certificate : bool
}.

Section SslIo.
Context {S K : Type} {O : OpenSSL S} {KK : Kernel K}.

(** [_fd] is the descriptor of the interface [_i]; [kernel_] serves its other
    calls. *)
Record SslIo : Type := mkSslIo {
  _ssl : S;
  _client_mode : bool;
  _fd : Z;
  _ssl_connecting : bool;
  _peer : option SslPeer;
  kernel_ : K
}.

Definition with_ssl (s : S) (i : SslIo) : SslIo :=
  mkSslIo s (_client_mode i) (_fd i) (_ssl_connecting i) (_peer i) (kernel_ i).
Definition with_kernel_ (k : K) (i : SslIo) : SslIo :=
  mkSslIo (_ssl i) (_client_mode i) (_fd i) (_ssl_connecting i) (_peer i) k.
Definition connected_ (i : SslIo) : SslIo :=
  mkSslIo (_ssl i) (_client_mode i) (_fd i) false (_peer i) (kernel_ i).
Definition with_peer (p : SslPeer) (i : SslIo) : SslIo :=
  mkSslIo (_ssl i) (_client_mode i) (_fd i) (_ssl_connecting i) (Some p) (kernel_ i).

(** The status of a call that returned [ret], and errno behind it. *)
Definition HandleError (i : SslIo) (ret : Z) : Status * Z :=
  let errno := SSL_errno (_ssl i) in
  let r := SSL_get_error (_ssl i) ret in
  if r =? SSL_ERROR_WANT_READ then (kStatusWannaRead, errno)
  else if r =? SSL_ERROR_WANT_WRITE then (kStatusWannaWrite, errno)
  else if r =? SSL_ERROR_ZERO_RETURN then (kStatusClosed, errno)
  else if r =? SSL_ERROR_SYSCALL then if errno =? 0 then (kStatusClosed, errno) else (kStatusError, errno)
  else if r =? SSL_ERROR_WANT_X509_LOOKUP then (kStatusError, 13)
  else if r =? SSL_ERROR_SSL then (kStatusError, 1)
  else (kStatusError, 74).

Definition ssl_Write (b : bytes) (i : SslIo) : SslIo * Status * Z :=
  if INT_MAX <? zlen b then (i, kStatusBug, 0)
  else
    let '(s, ret) := SSL_write b (_ssl i) in
    let i := with_ssl s i in
    if 0 <? ret then (i, kStatusOk, ret) else (i, (HandleError i ret).1, 0).

Definition ssl_Read (n : Z) (i : SslIo) : SslIo * Status * bytes * bool :=
  if INT_MAX <? n then (i, kStatusBug, [], false)
  else
    let '(s, ret, b) := SSL_read n (_ssl i) in
    let i := with_ssl s i in
    if 0 <? ret then (i, kStatusOk, b, negb (SSL_pending s =? 0)) else (i, (HandleError i ret).1, [], false).

Definition OnHandshaked (i : SslIo) : option SslIo :=
  let version := SSL_get_version (_ssl i) in
  let cipher := SSL_get_cipher_name (_ssl i) in
  match SSL_get_peer_certificate (_ssl i) with
  | None => Some (with_peer (mkSslPeer [] [] [] version cipher false) i)
  | Some x =>
      match x509_subject x, x509_issuer x, x509_serial x with
      | Some subject, Some issuer, Some serial => Some (with_peer (mkSslPeer serial subject issuer version cipher true) i)
      | _, _, _ => None
      end
  end.

Definition handshaked (i : SslIo) : SslIo * Status :=
  match OnHandshaked i with Some i => (i, kStatusOk) | None => (i, kStatusError) end.

(** The test of the socket that Connect and Accept begin with. *)
Definition test_connected (i : SslIo) : SslIo * bool :=
  if _ssl_connecting i then
    let '(k, r) := safe_test_if_connected (_fd i) (kernel_ i) in
    if negb (r =? 0) then (with_kernel_ k i, false) else (connected_ (with_kernel_ k i), true)
  else (connected_ i, true).

Definition ssl_Connect (i : SslIo) : SslIo * Status :=
  let '(i, ok) := test_connected i in
  if negb ok then (i, kStatusError)
  else
    let '(s, ret) := SSL_connect (_ssl i) in
    let i := with_ssl s i in
    if ret =? 1 then handshaked i
    else if ret =? 0 then (i, kStatusClosed)
    else (i, (HandleError i ret).1).

Definition ssl_Accept (i : SslIo) : SslIo * Status :=
  let '(i, ok) := test_connected i in
  if negb ok then (i, kStatusError)
  else
    let '(s, ret) := SSL_accept (_ssl i) in
    let i := with_ssl s i in
    if ret =? 1 then handshaked i else (i, (HandleError i ret).1).

Definition ssl_Shutdown (i : SslIo) : SslIo * Status :=
  let '(s, ret) := SSL_shutdown (_ssl i) in
  let '(s, ret) := if ret =? 0 then SSL_shutdown s else (s, ret) in
  let i := with_ssl s i in
  if ret =? 1 then
    let '(k, ok) := Interface_Shutdown (_fd i) (kernel_ i) in
    (with_kernel_ k i, if ok : bool then kStatusClosed else kStatusError)
  else (i, (HandleError i ret).1).

Definition ssl_Initialize (i : SslIo) : SslIo * option wishes :=
  let a := if _client_mode i then kActionConnect else kActionAccept in
  if _ssl_connecting i then (i, Some (mkWishes kActionNone a false true))
  else (i, Some (mkWishes a kActionNone false false)).

(** ** The promises *)

(** A failed call is never reported as done, nor as jammed: the engine says
    what it waits for. *)
Lemma HandleError_status i ret : (HandleError i ret).1 <> kStatusOk /\ (HandleError i ret).1 <> kStatusJammed /\
  (HandleError i ret).1 <> kStatusBug.
Proof. unfold HandleError. cbv zeta. repeat (case_match; try done). Qed.

Lemma handshaked_ssl i : _ssl (handshaked i).1 = _ssl i.
Proof. unfold handshaked, OnHandshaked. cbv zeta. repeat case_match; simplify_eq; done. Qed.

Lemma test_connected_ssl i : _ssl (test_connected i).1 = _ssl i.
Proof. unfold test_connected. repeat case_match; done. Qed.

(** Neither handshake nor shutdown touches the stream. *)
Definition same_stream (i i' : SslIo) : Prop :=
  tunnelled (_ssl i') = tunnelled (_ssl i) /\ (unread (_ssl i') <= unread (_ssl i))%nat.

Lemma ssl_Connect_stream i : same_stream i (ssl_Connect i).1.
Proof.
  unfold ssl_Connect, same_stream. pose proof (test_connected_ssl i) as E. destruct (test_connected i) as [i1 ok]. cbn in E.
  rewrite <- E. destruct (negb ok); [done|]. pose proof (SSL_connect_stream (_ssl i1)) as H.
  destruct (SSL_connect (_ssl i1)) as [s ret]. destruct (ret =? 1); [|by destruct (ret =? 0)]. by rewrite handshaked_ssl.
Qed.

Lemma ssl_Accept_stream i : same_stream i (ssl_Accept i).1.
Proof.
  unfold ssl_Accept, same_stream. pose proof (test_connected_ssl i) as E. destruct (test_connected i) as [i1 ok]. cbn in E.
  rewrite <- E. destruct (negb ok); [done|]. pose proof (SSL_accept_stream (_ssl i1)) as H.
  destruct (SSL_accept (_ssl i1)) as [s ret]. destruct (ret =? 1); [|done]. by rewrite handshaked_ssl.
Qed.

Lemma ssl_Shutdown_stream i : same_stream i (ssl_Shutdown i).1.
Proof.
  unfold ssl_Shutdown, same_stream. pose proof (SSL_shutdown_stream (_ssl i)) as H1. destruct (SSL_shutdown (_ssl i)) as [s1 r1].
  cbn [fst] in H1. pose proof (SSL_shutdown_stream s1) as H2.
  destruct (if r1 =? 0 then SSL_shutdown s1 else (s1, r1)) as [s2 r2] eqn:E.
  assert (tunnelled s2 = tunnelled (_ssl i) /\ (unread s2 <= unread (_ssl i))%nat) as H3.
  { destruct (r1 =? 0); [|by injection E as <- <-]. rewrite E in H2. cbn in H2. destruct H1, H2. split; [congruence|lia]. }
  destruct (r2 =? 1); [|done].
  by destruct (Interface_Shutdown _ _).
Qed.

#[export, refine] Instance SslIo_io : AbstractIo SslIo := {|
  io_Initialize := ssl_Initialize;
  io_Read := ssl_Read;
  io_Write := ssl_Write;
  io_Shutdown := ssl_Shutdown;
  io_Connect := ssl_Connect;
  io_Accept := ssl_Accept;
  written i := tunnelled (_ssl i);
  internal i := unread (_ssl i)
|}.
Proof.
  - unfold ssl_Initialize. intros i i' w. destruct (_ssl_connecting i), (_client_mode i); intros [= <- <-]; cbn; auto.
  - unfold ssl_Initialize. intros i. by destruct (_ssl_connecting i).
  - unfold ssl_Read. intros n i i' s b. destruct (INT_MAX <? n); [done|].
    destruct (SSL_read n (_ssl i)) as [[s1 ret] b1] eqn:E. apply SSL_read_unread in E.
    destruct (Z.ltb_spec 0 ret); [|done]. intros [= <- _ <- _]. cbn. unfold zlen in E. lia.
  - unfold ssl_Read. intros n i. destruct (INT_MAX <? n); [done|].
    destruct (SSL_read n (_ssl i)) as [[s1 ret] b1] eqn:E. apply SSL_read_unread in E.
    destruct (0 <? ret); cbn; lia.
  - unfold ssl_Read. intros n i. destruct (INT_MAX <? n); [done|]. pose proof (SSL_read_tunnelled n (_ssl i)) as H.
    destruct (SSL_read n (_ssl i)) as [[s1 ret] b1]. by destruct (0 <? ret).
  - unfold ssl_Write. intros b i i' n. destruct (INT_MAX <? zlen b); [done|].
    destruct (SSL_write b (_ssl i)) as [s ret] eqn:E. apply SSL_write_tunnelled in E. destruct (Z.ltb_spec 0 ret).
    + intros [= <- <-]. cbn. split; [lia|tauto].
    + intros [= _ H' _]. by destruct (HandleError_status (with_ssl s i) ret) as [H1 _].
  - unfold ssl_Write. intros b i i' s n. destruct (INT_MAX <? zlen b); [by intros [= <- _ _]|].
    destruct (SSL_write b (_ssl i)) as [s1 ret] eqn:E. apply SSL_write_tunnelled in E. destruct (0 <? ret).
    + by intros [= _ <- _].
    + by intros [= <- _ _].
  - unfold ssl_Write. intros b i. destruct (INT_MAX <? zlen b); [done|]. pose proof (SSL_write_unread b (_ssl i)) as H.
    destruct (SSL_write b (_ssl i)) as [s ret]. by destruct (0 <? ret).
  - apply ssl_Shutdown_stream.
  - apply ssl_Shutdown_stream.
  - apply ssl_Connect_stream.
  - apply ssl_Connect_stream.
  - apply ssl_Accept_stream.
  - apply ssl_Accept_stream.
Defined.

(** A certificate that cannot be printed ends the handshake with an error; the
    peer is known exactly when the handshake succeeded. *)
Theorem ssl_handshake_peer (i : SslIo) : _peer i = None ->
  (is_Some (_peer (ssl_Accept i).1) <-> (ssl_Accept i).2 = kStatusOk) /\
  (is_Some (_peer (ssl_Connect i).1) <-> (ssl_Connect i).2 = kStatusOk).
Proof.
  intros Hp. assert (_peer (test_connected i).1 = None) as Ht by (unfold test_connected; repeat case_match; done).
  assert (forall j, _peer j = None -> (is_Some (_peer (handshaked j).1) <-> (handshaked j).2 = kStatusOk)) as Hh.
  { intros j Hj. unfold handshaked, OnHandshaked. cbv zeta. repeat case_match; simplify_eq; cbn; rewrite ?Hj; split; try done;
      by intros [? ?]. }
  assert (forall j ret, _peer j = None -> (is_Some (_peer j) <-> (HandleError j ret).1 = kStatusOk)) as He.
  { intros j ret Hj. rewrite Hj. split; [by intros [? ?]|]. intros E. by destruct (HandleError_status j ret) as [H1 _]. }
  unfold ssl_Accept, ssl_Connect. destruct (test_connected i) as [j ok]. cbn in Ht. destruct (negb ok).
  - cbn. rewrite Ht. split; split; try done; by intros [? ?].
  - split.
    + destruct (SSL_accept (_ssl j)) as [s ret]. destruct (ret =? 1); [by apply Hh|by apply He].
    + destruct (SSL_connect (_ssl j)) as [s ret]. destruct (ret =? 1); [by apply Hh|]. destruct (ret =? 0); [|by apply He].
      cbn. rewrite Ht. split; try done.
Qed.

End SslIo.
