(* ===== verification/SslContext.v ===== *)
(** * The settings of SSL: linkage/ssl_context.cpp

    What an [SslContext] asks of OpenSSL, with its answers as arguments, and what
    it makes of the tickets.  The branch for OpenSSL 1.1.0 and later is modelled.
    [deed]s are the objects of OpenSSL and of C that are made and freed. *)

From Stdlib Require Import ZifyBool.
From S2P Require Import Prelude Libc.

(** ** What OpenSSL keeps *)

Inductive option_t : Type :=
| SSL_OP_NO_TICKET
| SSL_OP_NO_COMPRESSION
| SSL_OP_SINGLE_DH_USE
| SSL_OP_SINGLE_ECDH_USE
| SSL_OP_CIPHER_SERVER_PREFERENCE.

#[export] Instance option_t_eq_dec : EqDecision option_t.
Proof. solve_decision. Defined.

Inductive cache_mode_t : Type := SSL_SESS_CACHE_OFF | SSL_SESS_CACHE_SERVER.
Inductive version_t : Type := TLS1_VERSION | TLS1_2_VERSION | ANY_VERSION.
Inductive verify_t : Type := SSL_VERIFY_PEER | SSL_VERIFY_CLIENT_ONCE | SSL_VERIFY_FAIL_IF_NO_PEER_CERT.

Definition SSL_MAX_SSL_SESSION_ID_LENGTH : Z := 32.

(** key_t: the arrays hold [bits] / 8 bytes that are read. *)
Record key_t : Type := mkKey {
  bits : Z;
  name : bytes;
  hmac : bytes;
  ekey : bytes
}.

(** An SSL_CTX; [options] and [verify] are masks, as lists of what is set;
    [keys] is the vector behind the index for extra data. *)
Record ssl_ctx : Type := mkCtx {
  ciphers : bytes;
  options : list option_t;
  cache_mode : cache_mode_t;
  min_version : version_t;
  moving_write_buffer : bool;
  password_callback : bool;
  userdata : option bytes;
  verify : list verify_t;
  session_id_context : bytes;
  timeout : Z;
  keys : option (list key_t);
  ticket_callback : bool;
  trusted : list bytes;
  client_CAs : list bytes
}.

(** SSL_CTX_new: the defaults. *)
Definition SSL_CTX_new : ssl_ctx :=
  mkCtx [] [] SSL_SESS_CACHE_SERVER ANY_VERSION false false None [] [] 300 None false [] [].

Definition set_options (f : list option_t -> list option_t) (c : ssl_ctx) : ssl_ctx :=
  mkCtx (ciphers c) (f (options c)) (cache_mode c) (min_version c) (moving_write_buffer c) (password_callback c) (userdata c) (verify c)
    (session_id_context c) (timeout c) (keys c) (ticket_callback c) (trusted c) (client_CAs c).
Definition set_cache_mode (m : cache_mode_t) (c : ssl_ctx) : ssl_ctx :=
  mkCtx (ciphers c) (options c) m (min_version c) (moving_write_buffer c) (password_callback c) (userdata c) (verify c)
    (session_id_context c) (timeout c) (keys c) (ticket_callback c) (trusted c) (client_CAs c).
Definition set_userdata (u : option bytes) (c : ssl_ctx) : ssl_ctx :=
  mkCtx (ciphers c) (options c) (cache_mode c) (min_version c) (moving_write_buffer c) (password_callback c) u (verify c)
    (session_id_context c) (timeout c) (keys c) (ticket_callback c) (trusted c) (client_CAs c).
Definition set_verify (v : list verify_t) (c : ssl_ctx) : ssl_ctx :=
  mkCtx (ciphers c) (options c) (cache_mode c) (min_version c) (moving_write_buffer c) (password_callback c) (userdata c) v
    (session_id_context c) (timeout c) (keys c) (ticket_callback c) (trusted c) (client_CAs c).
Definition set_session_id_context (s : bytes) (c : ssl_ctx) : ssl_ctx :=
  mkCtx (ciphers c) (options c) (cache_mode c) (min_version c) (moving_write_buffer c) (password_callback c) (userdata c) (verify c)
    s (timeout c) (keys c) (ticket_callback c) (trusted c) (client_CAs c).
Definition set_timeout (t : Z) (c : ssl_ctx) : ssl_ctx :=
  mkCtx (ciphers c) (options c) (cache_mode c) (min_version c) (moving_write_buffer c) (password_callback c) (userdata c) (verify c)
    (session_id_context c) t (keys c) (ticket_callback c) (trusted c) (client_CAs c).
Definition set_keys (k : option (list key_t)) (cb : bool) (c : ssl_ctx) : ssl_ctx :=
  mkCtx (ciphers c) (options c) (cache_mode c) (min_version c) (moving_write_buffer c) (password_callback c) (userdata c) (verify c)
    (session_id_context c) (timeout c) k cb (trusted c) (client_CAs c).
Definition set_trusted (t cas : list bytes) (c : ssl_ctx) : ssl_ctx :=
  mkCtx (ciphers c) (options c) (cache_mode c) (min_version c) (moving_write_buffer c) (password_callback c) (userdata c) (verify c)
    (session_id_context c) (timeout c) (keys c) (ticket_callback c) t cas.

Definition SSL_CTX_set_options (o : option_t) : ssl_ctx -> ssl_ctx := set_options (cons o).
Definition SSL_CTX_clear_options (o : option_t) : ssl_ctx -> ssl_ctx := set_options (filter (fun x => x <> o)).

(** What is made and freed. *)
Inductive object : Type := DH | EC_KEY | SSL_CTX | X509 | BIO | FILE | Keys.
Inductive deed : Type :=
| Makes (o : object)
| Frees (o : object).

#[export] Instance object_eq_dec : EqDecision object.
Proof. solve_decision. Defined.

(** ** An SslContext *)

Record SslContext : Type := mkSslContext {
  _context : option ssl_ctx;
  _enhanced_security : bool
}.

Definition kDefaultDHParam : list Z := [
  0x30; 0x82; 0x01; 0x08; 0x02; 0x82; 0x01; 0x01; 0x00; 0xd8; 0x7f; 0x7c;
  0xe6; 0xbd; 0x7a; 0xd0; 0x30; 0x84; 0xda; 0x77; 0x5b; 0x44; 0xb2; 0xa0;
  0xde; 0x01; 0x26; 0x9f; 0xb7; 0xc9; 0xf3; 0xbf; 0x33; 0x5b; 0x36; 0x47;
  0x66; 0xc1; 0xcc; 0x4c; 0x53; 0x4b; 0x20; 0xc2; 0x57; 0xbc; 0x5b; 0x7e;
  0x10; 0x56; 0x77; 0xf3; 0xff; 0x6a; 0x19; 0x0d; 0x36; 0xe0; 0x12; 0xe7;
  0x77; 0x5e; 0x6a; 0xfe; 0x7b; 0x0a; 0x9f; 0x80; 0x7f; 0xe3; 0xc0; 0xc8;
  0xee; 0x08; 0x5d; 0x5a; 0xc9; 0x61; 0xfc; 0x1c; 0x08; 0x81; 0xdf; 0x4d;
  0x10; 0xa1; 0x8c; 0x7d; 0x21; 0xed; 0x48; 0x83; 0xa0; 0x25; 0x07; 0x66;
  0x24; 0x07; 0x17; 0x6f; 0x62; 0xab; 0x98; 0x67; 0x27; 0xd8; 0xb9; 0x54;
  0x2e; 0x1e; 0x6b; 0xa7; 0x44; 0x31; 0xae; 0x8d; 0x5c; 0xed; 0x0b; 0xcc;
  0xf2; 0x6b; 0x2f; 0xa2; 0xf4; 0x07; 0x38; 0x3f; 0x37; 0x37; 0xab; 0x2e;
  0x06; 0xcb; 0x6b; 0x79; 0xff; 0xf2; 0x98; 0xf2; 0x80; 0xe3; 0x31; 0xa7;
  0x5d; 0x82; 0xd1; 0xf9; 0xa8; 0x1a; 0x05; 0x02; 0x34; 0x3d; 0x59; 0xb6;
  0x28; 0x53; 0xa4; 0xb9; 0xef; 0xd8; 0xca; 0xa3; 0xe8; 0x22; 0xbd; 0x6d;
  0xa9; 0x28; 0x35; 0x4e; 0x1c; 0x25; 0xd2; 0x4a; 0xad; 0xab; 0x85; 0x5b;
  0x44; 0xa9; 0xdc; 0x4c; 0x74; 0xce; 0xea; 0xa9; 0xfd; 0xdd; 0x35; 0x29;
  0xc3; 0x83; 0xc1; 0x0d; 0x3a; 0x05; 0x44; 0x7f; 0x0f; 0x44; 0x69; 0x81;
  0x67; 0x82; 0x3e; 0x64; 0xf9; 0x16; 0x45; 0xce; 0x8b; 0x0c; 0x61; 0x3e;
  0x35; 0x8b; 0x06; 0xe3; 0x80; 0x17; 0x27; 0x1c; 0x82; 0xa6; 0xc2; 0x9f;
  0x26; 0x42; 0x51; 0xb3; 0x7e; 0xbf; 0xa2; 0xf6; 0xbf; 0x6e; 0xb3; 0xb3;
  0xb7; 0xce; 0x48; 0x0c; 0x43; 0x2d; 0x2e; 0x16; 0xcf; 0x0b; 0xbe; 0x05;
  0xda; 0xe9; 0x39; 0xfd; 0x73; 0x74; 0x38; 0x8d; 0x48; 0x07; 0x06; 0xfb;
  0x53; 0x02; 0x01; 0x02].

Definition cipher_list (enhanced : bool) : bytes :=
  if enhanced then
    B "ECDH+AESGCM:DH+AESGCM:" ++ B "ECDH+AES:DH+AES:" ++ B "!AES256:!SHA:!MD5:!DSS:!aNULL:!eNULL"
  else
    B "ECDH+AESGCM:DH+AESGCM:" ++ B "ECDH+AES:DH+AES:" ++ B "ECDH+3DES:DH+3DES:" ++
    B "kRSA+AESGCM:kRSA+AES:kRSA+3DES:" ++ B "!AES256:!MD5:!DSS:!aNULL:!eNULL".

(** What d2i_DHparams (of the bytes above), EC_KEY_new_by_curve_name,
    SSL_CTX_new, SSL_CTX_set_tmp_ecdh, SSL_CTX_set_tmp_dh,
    SSL_CTX_set_cipher_list and SSL_CTX_set_min_proto_version say: success? *)
Record init_answers : Type := mkInit {
  i_dh : bool;
  i_ecdh : bool;
  i_ctx : bool;
  i_tmp_ecdh : bool;
  i_tmp_dh : bool;
  i_ciphers : bool;
  i_version : bool
}.

Definition Initialize (a : init_answers) (s : SslContext) : list deed * SslContext * bool :=
  match _context s with
  | Some _ => ([], s, true)
  | None =>
      let enhanced := _enhanced_security s in
      if negb (i_dh a) then ([], s, false)
      else
        let ds := [Makes DH] in
        if negb (i_ecdh a) then (ds ++ [Frees DH], s, false)
        else
          let ds := ds ++ [Makes EC_KEY] in
          if negb (i_ctx a) then (ds ++ [Frees EC_KEY; Frees DH], s, false)
          else
            let ds := ds ++ [Makes SSL_CTX] in
            if negb (i_tmp_ecdh a) || negb (i_tmp_dh a) then (ds ++ [Frees SSL_CTX; Frees EC_KEY; Frees DH], s, false)
            else
              let ds := ds ++ [Frees EC_KEY; Frees DH] in
              if negb (i_ciphers a) then (ds ++ [Frees SSL_CTX], s, false)
              else if negb (i_version a) then (ds ++ [Frees SSL_CTX], s, false)
              else
                let options := [SSL_OP_CIPHER_SERVER_PREFERENCE; SSL_OP_SINGLE_ECDH_USE; SSL_OP_SINGLE_DH_USE;
                                SSL_OP_NO_COMPRESSION; SSL_OP_NO_TICKET] in
                let d := SSL_CTX_new in
                (ds, mkSslContext (Some (mkCtx (cipher_list enhanced) options SSL_SESS_CACHE_OFF
                   (if enhanced then TLS1_2_VERSION else TLS1_VERSION) true true None (verify d) (session_id_context d)
                   (timeout d) (keys d) (ticket_callback d) (trusted d) (client_CAs d))) enhanced, true)
  end.

(** The constructor does not look whether Initialize succeeds. *)
Definition SslContext_new (enhanced_security : bool) (a : init_answers) : list deed * SslContext :=
  (Initialize a (mkSslContext None enhanced_security)).1.

(** The vector is read through the index: there is none without one. *)
Definition destroy (s : SslContext) : list deed :=
  match _context s with
  | None => []
  | Some c => match keys c with Some _ => [Frees Keys; Frees SSL_CTX] | None => [Frees SSL_CTX] end
  end.

(** How the methods begin: [bad] arguments, then Initialize; [x] is what the
    method changes besides. *)
Definition with_context_and {X} (bad : bool) (a : init_answers) (x : X) (s : SslContext)
    (k : ssl_ctx -> list deed * X * ssl_ctx * bool) : list deed * (X * SslContext) * bool :=
  if bad then ([], (x, s), false)
  else
    let '(ds, s, ok) := Initialize a s in
    match _context s with
    | Some c =>
        if negb ok then (ds, (x, s), false)
        else let '(ds', x, c, ret) := k c in (ds ++ ds', (x, mkSslContext (Some c) (_enhanced_security s)), ret)
    | None => (ds, (x, s), false)
    end.

Definition with_context (bad : bool) (a : init_answers) (s : SslContext)
    (k : ssl_ctx -> list deed * ssl_ctx * bool) : list deed * SslContext * bool :=
  let '(ds, (_, s), ret) := with_context_and bad a tt s (fun c => let '(ds, c, ret) := k c in (ds, tt, c, ret)) in (ds, s, ret).

Definition empty (s : bytes) : bool := bool_decide (s = []).

(** [ok]: what OpenSSL says. *)
Definition LoadCertificateChain (filename : bytes) (a : init_answers) (ok : bool) s :=
  with_context (empty filename) a s (fun c => ([], c, ok)).

Definition LoadDHParam (filename : bytes) (a : init_answers) (file dh ok : bool) s :=
  with_context (empty filename) a s (fun c =>
    if negb file then ([], c, false)
    else if negb dh then ([Makes FILE; Frees FILE], c, false)
    else ([Makes FILE; Makes DH; Frees FILE; Frees DH], c, ok)).

Definition LoadCertificate (filename : bytes) (a : init_answers) (ok : bool) s :=
  with_context (empty filename) a s (fun c => ([], c, ok)).

(** PasswordCallback: the buffer behind it, and what it returns. *)
Definition PasswordCallback (size : Z) (userdata : option bytes) : option bytes * Z :=
  match userdata with
  | None => (None, -1)
  | Some s =>
      let ret := zlen (c_str s) in
      if size <=? ret then (Some (take (Z.to_nat (size - 1)) (c_str s) ++ [NUL]), -1) else (Some (c_str s ++ [NUL]), ret)
  end.

(** [use]: SSL_CTX_use_PrivateKey_file, which may ask the callback, by what the
    context holds while it runs. *)
Definition LoadPrivateKey (filename passphrase : bytes) (a : init_answers) (use : option bytes -> bool) s :=
  with_context (empty filename) a s (fun c =>
    let c := set_userdata (Some passphrase) c in
    let ret := use (userdata c) in
    ([], set_userdata None c, ret)).

Definition VerifyPrivateKey (a : init_answers) (ok : bool) s := with_context false a s (fun c => ([], c, ok)).

Definition SetVerifyPeer (verify required : bool) (a : init_answers) s :=
  with_context false a s (fun c =>
    let mode := if verify then [SSL_VERIFY_CLIENT_ONCE; SSL_VERIFY_PEER] else [] in
    let mode := if required then SSL_VERIFY_FAIL_IF_NO_PEER_CERT :: mode else mode in
    ([], set_verify mode c, true)).

(** [x509]: the certificate that was read. *)
Definition AddTrustedCACertificate (filename : bytes) (a : init_answers) (bio : bool) (x509 : option bytes) (store added client : bool) s :=
  with_context (empty filename) a s (fun c =>
    if negb bio then ([], c, false)
    else
      let ds := [Makes BIO] in
      match x509 with
      | None => (ds ++ [Frees BIO], c, false)
      | Some x509 =>
          let ds := ds ++ [Makes X509; Frees BIO] in
          if negb store then (ds ++ [Frees X509], c, false)
          else if negb added then (ds ++ [Frees X509], c, false)
          else
            let c := set_trusted (x509 :: trusted c) (client_CAs c) c in
            if negb client then (ds ++ [Frees X509], c, false)
            else (ds ++ [Frees X509], set_trusted (trusted c) (x509 :: client_CAs c) c, true)
      end).

Definition SetSessionIdContext (context : bytes) (a : init_answers) (ok : bool) s :=
  with_context (empty context || (SSL_MAX_SSL_SESSION_ID_LENGTH <? zlen context)) a s (fun c =>
    let c := set_cache_mode SSL_SESS_CACHE_SERVER c in
    if negb ok then ([], c, false) else ([], set_session_id_context context c, true)).

Definition SetSessionTimeout (seconds : Z) (a : init_answers) s :=
  with_context (seconds =? 0) a s (fun c => ([], set_timeout seconds c, true)).

Definition SetAllowTlsTicket (allow : bool) (a : init_answers) s :=
  with_context false a s (fun c =>
    ([], (if allow then SSL_CTX_clear_options else SSL_CTX_set_options) SSL_OP_NO_TICKET c, true)).

(** ** Tickets *)

(** A file: whether fopen and both fseek succeed, what ftell says, and what
    fread reads. *)
Record file_answers : Type := mkFile {
  f_open : bool;
  f_end : bool;
  f_tell : Z;
  f_begin : bool;
  f_read : bytes
}.

(** LoadFile: the size, or -1, and what is in the buffer. *)
Definition LoadFile (length : Z) (f : file_answers) : list deed * Z * bytes :=
  if negb (f_open f) then ([], -1, [])
  else
    let ds := [Makes FILE; Frees FILE] in
    let size := f_tell f in
    if negb (f_end f) then (ds, -1, [])
    else if (size <? 0) || (length <? size) then (ds, -1, [])
    else if negb (f_begin f) then (ds, -1, [])
    else
      let read := take (Z.to_nat size) (f_read f) in
      if negb (zlen read =? size) then (ds, -1, read) else (ds, size, read).

(** [index]: _tls_ticket_key_index, [new_index]: SSL_CTX_get_ex_new_index;
    [extra], [callback]: SSL_CTX_set_ex_data and
    SSL_CTX_set_tlsext_ticket_key_cb succeed. *)
Definition LoadTlsTicketKey (filename : bytes) (a : init_answers) (f : file_answers) (new_index : Z) (extra callback : bool)
    (index : Z) (s : SslContext) : list deed * (Z * SslContext) * bool :=
  with_context_and (empty filename) a index s (fun c =>
    let '(ds, ret, buffer) := LoadFile 128 f in
    if negb (ret =? 48) && negb (ret =? 80) then (ds, index, c, false)
    else
      let index := if index <? 0 then new_index else index in
      if index <? 0 then (ds, index, c, false)
      else
        let '(ds, c, ok) :=
          match keys c with
          | Some _ => (ds, c, true)
          | None =>
              let ds := ds ++ [Makes Keys] in
              if negb extra then (ds ++ [Frees Keys], c, false)
              else if negb callback then (ds, set_keys (Some []) (ticket_callback c) c, false)
              else (ds, set_keys (Some []) true c, true)
          end in
        if negb ok then (ds, index, c, false)
        else
          let key :=
            if ret =? 48 then mkKey 128 (take 16 buffer) (take 16 (drop 16 buffer)) (take 16 (drop 32 buffer))
            else mkKey 256 (take 16 buffer) (take 32 (drop 16 buffer)) (take 32 (drop 48 buffer)) in
          (ds, index, set_keys (Some (default [] (keys c) ++ [key])) (ticket_callback c) c, true)).

(** What the callback has OpenSSL do: the name of the key goes to the ticket or
    comes from it, the other two are given to the cipher and the digest. *)
Record ticket : Type := mkTicket {
  key_name : bytes;
  cipher_key : bytes;
  hmac_key : bytes
}.

(** [size] bytes of both keys are read. *)
Definition key_size (k : key_t) : nat := if bits k =? 128 then 16 else 32.

Fixpoint find_key (key_name : bytes) (renew : bool) (keys : list key_t) : option (key_t * bool) :=
  match keys with
  | [] => None
  | p :: keys => if bool_decide (take 16 key_name = name p) then Some (p, renew) else find_key key_name true keys
  end.

(** [ok]: the calls of OpenSSL, in turn, return 1. *)
Definition TlsTicketKeyCallback (keys : option (list key_t)) (enc : bool) (name_in : bytes) (ok : bool * bool * bool) : Z * option ticket :=
  match keys with
  | None | Some [] => (-1, None)
  | Some ((key :: _) as keys) =>
      if enc then
        let '(rand, encrypt, hm) := ok in
        if negb rand || negb encrypt || negb hm then (-1, None)
        else (1, Some (mkTicket (name key) (take (key_size key) (ekey key)) (take (key_size key) (hmac key))))
      else
        match find_key name_in false keys with
        | None => (0, None)
        | Some (key, renew) =>
            let '(hm, decrypt, _) := ok in
            if negb hm || negb decrypt then (-1, None)
            else (if renew then 2 else 1, Some (mkTicket (name key) (take (key_size key) (ekey key)) (take (key_size key) (hmac key))))
        end
  end.

(** ** A context at work *)

Inductive call : Type :=
| Loads_chain (filename : bytes) (a : init_answers) (ok : bool)
| Loads_dh (filename : bytes) (a : init_answers) (file dh ok : bool)
| Loads_certificate (filename : bytes) (a : init_answers) (ok : bool)
| Loads_key (filename passphrase : bytes) (a : init_answers) (use : option bytes -> bool)
| Verifies_key (a : init_answers) (ok : bool)
| Sets_verify (verify required : bool) (a : init_answers)
| Trusts (filename : bytes) (a : init_answers) (bio : bool) (x509 : option bytes) (store added client : bool)
| Sets_session (context : bytes) (a : init_answers) (ok : bool)
| Sets_timeout (seconds : Z) (a : init_answers)
| Allows (allow : bool) (a : init_answers)
| Loads_ticket_key (filename : bytes) (a : init_answers) (f : file_answers) (new_index : Z) (extra callback : bool).

Definition beside {X} (x : X) (r : list deed * SslContext * bool) : list deed * (X * SslContext) * bool :=
  let '(ds, s, ret) := r in (ds, (x, s), ret).

Definition step (e : call) (index : Z) (s : SslContext) : list deed * (Z * SslContext) * bool :=
  match e with
  | Loads_chain filename a ok => beside index (LoadCertificateChain filename a ok s)
  | Loads_dh filename a file dh ok => beside index (LoadDHParam filename a file dh ok s)
  | Loads_certificate filename a ok => beside index (LoadCertificate filename a ok s)
  | Loads_key filename passphrase a use => beside index (LoadPrivateKey filename passphrase a use s)
  | Verifies_key a ok => beside index (VerifyPrivateKey a ok s)
  | Sets_verify verify required a => beside index (SetVerifyPeer verify required a s)
  | Trusts filename a bio x509 store added client => beside index (AddTrustedCACertificate filename a bio x509 store added client s)
  | Sets_session context a ok => beside index (SetSessionIdContext context a ok s)
  | Sets_timeout seconds a => beside index (SetSessionTimeout seconds a s)
  | Allows allow a => beside index (SetAllowTlsTicket allow a s)
  | Loads_ticket_key filename a f new_index extra callback => LoadTlsTicketKey filename a f new_index extra callback index s
  end.

Fixpoint steps (es : list call) (index : Z) (s : SslContext) : list deed * (Z * SslContext) :=
  match es with
  | [] => ([], (index, s))
  | e :: es =>
      let '(ds, (index, s), _) := step e index s in
      let '(ds', r) := steps es index s in (ds ++ ds', r)
  end.

(** What is there behind some deeds; nothing if something is made twice, or
    freed when it is not there. *)
Fixpoint live (ds : list deed) (os : list object) : option (list object) :=
  match ds with
  | [] => Some os
  | Makes o :: ds => if bool_decide (o ∈ os) then None else live ds (o :: os)
  | Frees o :: ds => if bool_decide (o ∈ os) then live ds (filter (fun x => x <> o) os) else None
  end.

Definition owned (s : SslContext) : list object :=
  match _context s with
  | None => []
  | Some c => match keys c with Some _ => [Keys; SSL_CTX] | None => [SSL_CTX] end
  end.

(** The settings that no method takes back. *)
Definition hard (enhanced : bool) (c : ssl_ctx) : Prop :=
  ciphers c = cipher_list enhanced /\ min_version c = (if enhanced then TLS1_2_VERSION else TLS1_VERSION) /\
  SSL_OP_NO_COMPRESSION ∈ options c /\ SSL_OP_SINGLE_DH_USE ∈ options c /\ SSL_OP_SINGLE_ECDH_USE ∈ options c /\
  SSL_OP_CIPHER_SERVER_PREFERENCE ∈ options c /\ moving_write_buffer c = true /\ password_callback c = true /\ userdata c = None.

Definition key_ok (k : key_t) : Prop :=
  length (name k) = 16%nat /\ length (hmac k) = key_size k /\ length (ekey k) = key_size k /\ (bits k = 128 \/ bits k = 256).

Record good (s : SslContext) (c : ssl_ctx) : Prop := {
  good_hard : hard (_enhanced_security s) c;
  good_keys : Forall key_ok (default [] (keys c))
}.

Definition Good (s : SslContext) : Prop := forall c, _context s = Some c -> good s c.

Lemma live_app ds ds' os : live (ds ++ ds') os = match live ds os with Some os => live ds' os | None => None end.
Proof. revert os. induction ds as [|[o|o] ds IH]; intros os; cbn [live app]; [done|..]; by case_bool_decide. Qed.

Lemma Initialize_ok a s : Good s ->
  let '(ds, s', ok) := Initialize a s in
  live ds (owned s) = Some (owned s') /\ Good s' /\ _enhanced_security s' = _enhanced_security s /\
  (ok = true <-> is_Some (_context s')) /\ (is_Some (_context s) -> s' = s).
Proof.
  intros Hg. unfold Initialize. destruct (_context s) as [c|] eqn:E; [split_and!; by eauto|].
  assert (owned s = []) as Ho by (unfold owned; by rewrite E).
  repeat match goal with |- context [if negb ?b then _ else _] => destruct b; cbn [negb] | |- context [if negb ?b || _ then _ else _] => destruct b; cbn [negb orb] end;
    rewrite ?Ho, ?E; split_and!; try done; try (by rewrite E; split; [|intros [? ?]]); try (by intros [? ?]); try (by rewrite ?Ho).
  intros c [= <-]. split; [|by constructor]. unfold hard. cbn. split_and!; try done; set_solver.
Qed.

(** A method that keeps the settings of its context keeps everything. *)
Lemma with_context_ok {X} bad a (x : X) s k : Good s ->
  (forall c, good s c ->
    let '(ds, _, c', _) := k c in
    live ds (owned (mkSslContext (Some c) (_enhanced_security s))) = Some (owned (mkSslContext (Some c') (_enhanced_security s))) /\ good s c') ->
  let '(ds, (_, s'), _) := with_context_and bad a x s k in
  live ds (owned s) = Some (owned s') /\ Good s' /\ _enhanced_security s' = _enhanced_security s.
Proof.
  intros Hg Hk. unfold with_context_and. destruct bad; [done|]. pose proof (Initialize_ok a s Hg) as H.
  destruct (Initialize a s) as [[ds s'] ok]. destruct H as (Hl & Hg' & He & Hok & _). destruct (_context s') as [c|] eqn:E; [|done].
  destruct ok; cbn [negb]; [|done]. pose proof (Hg' c E) as Hc.
  assert (good s c) as Hc' by (destruct Hc as [H1 H2]; rewrite He in H1; by constructor). specialize (Hk c Hc').
  destruct (k c) as [[[ds' x'] c'] ret]. destruct Hk as [Hl' [H1 H2]]. split_and!; [|intros c2 [= <-]; constructor; [by rewrite He|done]|done].
  rewrite live_app, Hl. replace (owned s') with (owned (mkSslContext (Some c) (_enhanced_security s))); [by rewrite He|]. unfold owned. by rewrite E.
Qed.

Lemma with_context_ok1 bad a s k index : Good s ->
  (forall c, good s c -> let '(ds, c', _) := k c in live ds [] = Some [] /\ (forall l, l = [SSL_CTX] \/ l = [Keys; SSL_CTX] -> live ds l = Some l) /\ keys c' = keys c /\ good s c') ->
  let '(ds, (_, s'), _) := beside (X := Z) index (with_context bad a s k) in
  live ds (owned s) = Some (owned s') /\ Good s' /\ _enhanced_security s' = _enhanced_security s.
Proof.
  intros Hg Hk. unfold with_context.
  pose proof (with_context_ok bad a tt s (fun c => let '(ds, c, ret) := k c in (ds, tt, c, ret)) Hg) as H.
  destruct (with_context_and _ _ _ _ _) as [[ds [? s']] ret]. cbn [beside]. apply H.
  intros c Hc. specialize (Hk c Hc). destruct (k c) as [[ds' c'] ret']. destruct Hk as (_ & H1 & H2 & H3). split; [|done].
  unfold owned. cbn [_context]. rewrite H2. destruct (keys c); apply H1; [by right|by left].
Qed.

(** What a setter may do: the settings and the keys are as before. *)
Ltac settle Hc := let H1 := fresh in let H2 := fresh in destruct Hc as [H1 H2];
  split_and!; [reflexivity|intros ? [->| ->]; reflexivity|reflexivity|constructor; [unfold hard in *; cbn in *; set_solver|exact H2]].

Lemma filter_absent (o : object) (l : list object) : o ∉ l -> filter (fun x => x <> o) l = l.
Proof. induction l as [|x l IH]; intros H; [done|]. rewrite filter_cons_True by set_solver. f_equal. apply IH. set_solver. Qed.

Lemma LoadFile_ok f : let '(ds, ret, buffer) := LoadFile 128 f in
  (forall l, FILE ∉ l -> live ds l = Some l) /\ (0 <= ret -> zlen buffer = ret).
Proof.
  unfold LoadFile. destruct (f_open f); cbn [negb]; [|split; [done|lia]].
  assert (forall l, FILE ∉ l -> live [Makes FILE; Frees FILE] l = Some l) as Hl.
  { intros l Hn. cbn [live]. rewrite bool_decide_eq_false_2, bool_decide_eq_true_2 by set_solver. f_equal.
    cbn [filter list_filter]. rewrite decide_False by (by intros []). by apply filter_absent. }
  repeat match goal with |- context [if ?b then _ else _] => destruct b eqn:? end; (split; [exact Hl|lia]).
Qed.

Lemma step_ok e index s : Good s ->
  let '(ds, (_, s'), _) := step e index s in
  live ds (owned s) = Some (owned s') /\ Good s' /\ _enhanced_security s' = _enhanced_security s.
Proof.
  intros Hg. destruct e as [filename a ok|filename a file dh ok|filename a ok|filename pass a use|a ok|verify required a|filename a bio x509 store added client
    |context a ok|seconds a|allow a|filename a f new_index extra callback]; cbn [step].
  1-10: apply (with_context_ok1 _ a s _ index Hg); intros c Hc.
  - settle Hc.
  - destruct file; cbn [negb]; [|settle Hc]. destruct dh; cbn [negb]; settle Hc.
  - settle Hc.
  - settle Hc.
  - settle Hc.
  - settle Hc.
  - destruct bio; cbn [negb]; [|settle Hc]. destruct x509; [|settle Hc]. destruct store; cbn [negb]; [|settle Hc].
    destruct added; cbn [negb]; [|settle Hc]. destruct client; cbn [negb]; settle Hc.
  - destruct ok; cbn [negb]; settle Hc.
  - settle Hc.
  - destruct allow; [|settle Hc]. destruct Hc as [(? & ? & ? & ? & ? & ? & ? & ? & ?) H2].
    split_and!; [reflexivity|intros ? [->| ->]; reflexivity|reflexivity|constructor; [|exact H2]].
    unfold hard. cbn. rewrite !list_elem_of_filter. by split_and!.
  - unfold LoadTlsTicketKey. apply with_context_ok; [done|]. intros c Hc. pose proof (LoadFile_ok f) as Hf.
    destruct (LoadFile 128 f) as [[ds ret] buffer]. destruct Hf as [Hl Hb].
    assert (forall r, live (ds ++ r) (owned (mkSslContext (Some c) (_enhanced_security s))) = live r (owned (mkSslContext (Some c) (_enhanced_security s)))) as Hd.
    { intros r. rewrite live_app, Hl; [done|]. unfold owned. cbn [_context]. destruct (keys c); set_solver. }
    assert (live ds (owned (mkSslContext (Some c) (_enhanced_security s))) = Some (owned (mkSslContext (Some c) (_enhanced_security s)))) as Hd0
      by (rewrite <- (app_nil_r ds), Hd; done).
    destruct (negb (ret =? 48) && negb (ret =? 80)) eqn:Er; [done|]. destruct ((if index <? 0 then new_index else index) <? 0); [done|].
    set (key := if ret =? 48 then _ else _).
    assert (key_ok key) as Hk.
    { unfold key, key_ok, key_size. unfold zlen in Hb. destruct (Z.eqb_spec ret 48); cbn;
        rewrite ?length_take, ?length_drop; split_and!; lia. }
    destruct Hc as [H1 H2]. destruct (keys c) as [ks|] eqn:Ek; cbn [negb].
    + split; [rewrite Hd0; unfold owned; cbn; by rewrite Ek|]. constructor; [exact H1|]. cbn. rewrite Ek. cbn in H2. apply Forall_app. split; [exact H2|]. by apply Forall_singleton.
    + assert (owned (mkSslContext (Some c) (_enhanced_security s)) = [SSL_CTX]) as Eo by (unfold owned; cbn; by rewrite Ek). rewrite Eo in *.
      destruct extra; cbn [negb]; [|by rewrite <- app_assoc, Hd; rewrite Eo; split; [|constructor; rewrite ?Ek]].
      destruct callback; cbn [negb]; (split; [by rewrite Hd|]); (constructor; [exact H1|]); cbn; [by apply Forall_singleton|by constructor].
Qed.

Lemma steps_ok es index s : Good s ->
  let '(ds, (_, s')) := steps es index s in
  live ds (owned s) = Some (owned s') /\ Good s' /\ _enhanced_security s' = _enhanced_security s.
Proof.
  revert index s. induction es as [|e es IH]; intros index s Hg; cbn [steps]; [done|].
  pose proof (step_ok e index s Hg) as H. destruct (step e index s) as [[ds [index' s']] ret]. destruct H as (H1 & H2 & H3).
  specialize (IH index' s' H2). destruct (steps es index' s') as [ds' [index2 s2]]. destruct IH as (H4 & H5 & H6).
  split_and!; [by rewrite live_app, H1|done|congruence].
Qed.

Lemma Good_new enhanced : Good (mkSslContext None enhanced).
Proof. by intros c. Qed.

(** C39: Whatever OpenSSL and the files answer, from the constructor through any
    calls: each object is freed once, and all are gone behind the destructor;
    a context that exists has its protocol, its ciphers, ephemeral keys, no
    compression and no pointer to a passphrase, and the keys for tickets are
    well formed. *)
Theorem ssl_context_hardened enhanced a es index :
  let '(ds0, s0) := SslContext_new enhanced a in
  let '(ds, (_, s)) := steps es index s0 in
  live (ds0 ++ ds) [] = Some (owned s) /\ live (ds0 ++ ds ++ destroy s) [] = Some [] /\
  forall c, _context s = Some c -> hard enhanced c /\ Forall key_ok (default [] (keys c)).
Proof.
  unfold SslContext_new. pose proof (Initialize_ok a _ (Good_new enhanced)) as H. destruct (Initialize a _) as [[ds0 s0] ok]. cbn [fst].
  destruct H as (H1 & H2 & H3 & _). pose proof (steps_ok es index s0 H2) as H. destruct (steps es index s0) as [ds [index' s]].
  destruct H as (H4 & H5 & H6). change (owned (mkSslContext None enhanced)) with (@nil object) in H1.
  assert (live (ds0 ++ ds) [] = Some (owned s)) as E by (by rewrite live_app, H1). split; [done|]. split.
  - rewrite app_assoc, live_app, E. unfold destroy, owned. destruct (_context s) as [c|]; [|done]. by destruct (keys c).
  - intros c Hc. destruct (H5 c Hc) as [H7 H8]. rewrite H6, H3 in H7. done.
Qed.

(** No resumption unless it is asked for: tickets are off until
    SetAllowTlsTicket(true), the cache until SetSessionIdContext. *)
Definition asks (e : call) : Prop := match e with Allows true _ | Sets_session _ _ _ => True | _ => False end.

Definition private (s : SslContext) : Prop :=
  forall c, _context s = Some c -> SSL_OP_NO_TICKET ∈ options c /\ cache_mode c = SSL_SESS_CACHE_OFF.

Lemma private_Initialize a s : private s -> private (Initialize a s).1.2.
Proof.
  intros Hp. unfold Initialize. destruct (_context s) as [c0|] eqn:E; [done|].
  repeat match goal with |- context [if negb ?b then _ else _] => destruct b; cbn [negb] | |- context [if negb ?b || _ then _ else _] => destruct b; cbn [negb orb] end;
    try exact Hp. intros c [= <-]. cbn. split; [set_solver|done].
Qed.

Definition keeps_private (c c' : ssl_ctx) : Prop :=
  (SSL_OP_NO_TICKET ∈ options c -> SSL_OP_NO_TICKET ∈ options c') /\ (cache_mode c = SSL_SESS_CACHE_OFF -> cache_mode c' = SSL_SESS_CACHE_OFF).

Lemma private_and {X} bad a (x : X) s k : private s -> (forall c, keeps_private c (k c).1.2) -> private (with_context_and bad a x s k).1.2.2.
Proof.
  intros Hp Hk. unfold with_context_and. destruct bad; [done|]. pose proof (private_Initialize a s Hp) as Hi.
  destruct (Initialize a s) as [[ds s'] ok]. cbn [fst snd] in Hi. destruct (_context s') as [c|] eqn:E; [|done]. destruct ok; cbn [negb]; [|done].
  specialize (Hk c). destruct (k c) as [[[ds' x'] c'] ret]. cbn. intros c2 [= <-]. destruct (Hi c E) as [H1 H2], Hk as [H3 H4]. by split; [apply H3|apply H4].
Qed.

Lemma private_with bad a s k (index : Z) : private s -> (forall c, keeps_private c (k c).1.2) ->
  private (beside index (with_context bad a s k)).1.2.2.
Proof.
  intros Hp Hk. unfold with_context.
  pose proof (private_and bad a tt s (fun c => let '(ds, c, ret) := k c in (ds, tt, c, ret)) Hp) as H.
  destruct (with_context_and _ _ _ _ _) as [[ds [? s']] ret]. apply H. intros c. specialize (Hk c). by destruct (k c) as [[? ?] ?].
Qed.

Lemma private_call e index s : ~ asks e -> private s -> private (step e index s).1.2.2.
Proof.
  intros He Hp. destruct e as [filename a ok|filename a file dh ok|filename a ok|filename pass a use|a ok|verify required a|filename a bio x509 store added client
    |context a ok|seconds a|allow a|filename a f new_index extra callback]; cbn [step asks] in *; try done;
    [apply private_with..|apply private_and]; try done; intros c.
  - by destruct file, dh.
  - by destruct bio, x509, store, added, client.
  - destruct allow; [done|]. unfold keeps_private. cbn. split; [set_solver|done].
  - destruct (LoadFile 128 f) as [[ds ret] buffer]. destruct (negb (ret =? 48) && negb (ret =? 80)); [done|].
    cbv zeta. destruct ((if index <? 0 then new_index else index) <? 0); [done|]. destruct (keys c), extra, callback; split; intros Hx; exact Hx.
Qed.

Theorem ssl_no_resumption enhanced a es index :
  Forall (fun e => ~ asks e) es -> private (steps es index (SslContext_new enhanced a).2).2.2.
Proof.
  intros Hes. assert (private (SslContext_new enhanced a).2) as Hs by (apply private_Initialize; by intros c).
  revert index Hs. generalize (SslContext_new enhanced a).2. induction Hes as [|e es He Hes IH]; intros s index Hs; cbn [steps]; [done|].
  pose proof (private_call e index s He Hs) as H. destruct (step e index s) as [[ds [index' s']] ret]. cbn [fst snd] in H.
  specialize (IH s' index' H). by destruct (steps es index' s') as [ds' r].
Qed.

(** ** Tickets *)

Definition decrypts (keys : list key_t) (key_name : bytes) (v : Z) (t : ticket) : Prop :=
  TlsTicketKeyCallback (Some keys) false key_name (true, true, true) = (v, Some t).

Lemma find_key_spec n renew ks : length n = 16%nat ->
  match find_key n renew ks with
  | Some (k, r) => exists ks1 ks2, ks = ks1 ++ k :: ks2 /\ name k = n /\ n ∉ map name ks1 /\ r = renew || negb (bool_decide (ks1 = []))
  | None => n ∉ map name ks
  end.
Proof.
  intros Hn. revert renew. induction ks as [|p ks IH]; intros renew; cbn [find_key map]; [apply not_elem_of_nil|].
  rewrite take_ge by lia. case_bool_decide as E.
  - exists [], ks. split_and!; [done|done|apply not_elem_of_nil|]. by rewrite bool_decide_eq_true_2, orb_false_r by done.
  - specialize (IH true). destruct (find_key n true ks) as [[k r]|].
    + destruct IH as (ks1 & ks2 & -> & H1 & H2 & ->). exists (p :: ks1), ks2. split_and!; [done|done|cbn; set_solver|].
      rewrite (bool_decide_eq_false_2 (p :: ks1 = [])) by done. by rewrite orb_true_r.
    + set_solver.
Qed.

(** C40: A ticket that one context makes with its first key is read by another
    that holds the key under that name, with the same keys for cipher and
    digest, each of the size that was loaded: accepted where the key is the
    first one, accepted and renewed where it is a later one, and not known where
    no key has that name. *)
Theorem ssl_tickets k ks ks' :
  Forall key_ok (k :: ks) -> Forall key_ok ks' ->
  exists t, TlsTicketKeyCallback (Some (k :: ks)) true [] (true, true, true) = (1, Some t) /\
    key_name t = name k /\ cipher_key t = ekey k /\ hmac_key t = hmac k /\
    (forall ks1 ks2, ks' = ks1 ++ k :: ks2 -> name k ∉ map name ks1 ->
       decrypts ks' (key_name t) (if bool_decide (ks1 = []) then 1 else 2) t) /\
    (name k ∉ map name ks' -> ks' <> [] -> TlsTicketKeyCallback (Some ks') false (key_name t) (true, true, true) = (0, None)).
Proof.
  intros Hk Hk'. apply Forall_cons in Hk as [(Hn & Hh & He & Hb) _].
  exists (mkTicket (name k) (ekey k) (hmac k)). unfold TlsTicketKeyCallback at 1. cbn [negb orb key_name cipher_key hmac_key].
  split; [rewrite !take_ge by lia; done|]. split_and!; [done..| |].
  - intros ks1 ks2 -> Hks1. unfold decrypts, TlsTicketKeyCallback. pose proof (find_key_spec (name k) false (ks1 ++ k :: ks2) Hn) as Hf.
    destruct (ks1 ++ k :: ks2) as [|p l] eqn:E; [by destruct ks1|]. rewrite <- E in *.
    destruct (find_key (name k) false (ks1 ++ k :: ks2)) as [[k' r]|].
    + destruct Hf as (l1 & l2 & El & Hn' & Hl1 & ->).
      assert (ks1 = l1 /\ k = k') as [-> ->].
      { clear E p l Hk'. revert l1 El Hl1. induction ks1 as [|x ks1 IH]; intros [|y l1] El Hl1; cbn in *.
        - by injection El.
        - injection El as -> El. set_solver.
        - injection El as -> El. set_solver.
        - injection El as -> El. destruct (IH ltac:(set_solver) l1 El ltac:(set_solver)) as [-> ->]. done. }
      cbn [orb negb]. rewrite !take_ge by lia. by destruct (bool_decide (l1 = [])).
    + rewrite map_app in Hf. set_solver.
  - intros Hks Hne. unfold TlsTicketKeyCallback. destruct ks' as [|p l]; [done|].
    pose proof (find_key_spec (name k) false (p :: l) Hn) as Hf. destruct (find_key (name k) false (p :: l)) as [[k' r]|]; [|done].
    destruct Hf as (l1 & l2 & El & Hn' & _). exfalso. apply Hks. rewrite El, map_app, <- Hn'. apply elem_of_app. right. left.
Qed.

Definition demo_key (c : ascii) : key_t := mkKey 128 (repeat c 16) (repeat c 16) (repeat c 16).

Lemma ssl_tickets_witness : exists t,
  TlsTicketKeyCallback (Some [demo_key "a"]) true [] (true, true, true) = (1, Some t) /\ decrypts [demo_key "b"; demo_key "a"] (key_name t) 2 t.
Proof.
  destruct (ssl_tickets (demo_key "a") [] [demo_key "b"; demo_key "a"]) as (t & H1 & _ & _ & _ & H2 & _);
    [repeat constructor..|]. exists t. split; [exact H1|]. apply (H2 [demo_key "b"] []); [reflexivity|].
  cbn. intros H. apply list_elem_of_singleton in H. discriminate.
Defined.

(** When the callback for tickets cannot be set, the first LoadTlsTicketKey
    fails, but the vector stays: a second one finds it and succeeds, without a
    callback. *)
Theorem LoadTlsTicketKey_forgets_callback filename a f index c enhanced :
  filename <> [] -> 0 <= index -> keys c = None -> ticket_callback c = false ->
  (LoadFile 128 f).1.2 = 80 ->
  let '(_, (_, s), ok1) := LoadTlsTicketKey filename a f index true false index (mkSslContext (Some c) enhanced) in
  let '(_, (_, s), ok2) := LoadTlsTicketKey filename a f index true true index s in
  ok1 = false /\ ok2 = true /\ exists c', _context s = Some c' /\ is_Some (keys c') /\ ticket_callback c' = false.
Proof.
  intros Hf Hi Hk Hc Hl. unfold LoadTlsTicketKey, with_context_and, empty. rewrite bool_decide_eq_false_2 by done. cbn [Initialize _context negb].
  destruct (LoadFile 128 f) as [[ds ret] buffer]. cbn in Hl. subst ret. cbn [Z.eqb negb andb].
  rewrite Hk. do 2 (cbn; destruct (Z.ltb_spec index 0); [lia|]). cbn. split_and!; [done..|].
  eexists. split; [reflexivity|]. cbn. split; [by eexists|done].
Qed.

(** A certificate that OpenSSL does not take as the name of a client CA is
    trusted, although the call fails. *)
Theorem AddTrustedCACertificate_fails_trusted filename a x509 c enhanced :
  filename <> [] ->
  exists ds c', AddTrustedCACertificate filename a true (Some x509) true true false (mkSslContext (Some c) enhanced) =
    (ds, mkSslContext (Some c') enhanced, false) /\ x509 ∈ trusted c'.
Proof.
  intros Hf. unfold AddTrustedCACertificate, with_context, with_context_and, empty. rewrite bool_decide_eq_false_2 by done. cbn.
  eexists _, _. split; [reflexivity|]. cbn. left.
Qed.

(** The passphrase is given whole (up to a NUL), or not at all. *)
Theorem PasswordCallback_spec size s :
  0 < size ->
  PasswordCallback size (Some s) =
    if zlen (c_str s) <? size then (Some (c_str s ++ [NUL]), zlen (c_str s)) else (Some (take (Z.to_nat (size - 1)) (c_str s) ++ [NUL]), -1).
Proof. intros Hs. unfold PasswordCallback. destruct (Z.leb_spec size (zlen (c_str s))), (Z.ltb_spec (zlen (c_str s)) size); (done || lia). Qed.

(** The length that the encoding of kDefaultDHParam says, and that of the
    number in it: 2048 bits behind a zero byte. *)
Lemma kDefaultDHParam_length :
  zlen kDefaultDHParam = 4 + (0x01 * 256 + 0x08) /\ take 9 kDefaultDHParam = [0x30; 0x82; 0x01; 0x08; 0x02; 0x82; 0x01; 0x01; 0x00] /\
  drop (8 + 257) kDefaultDHParam = [0x02; 0x01; 0x02].
Proof. vm_compute. split_and!; reflexivity. Qed.
