(* ===== verification/SafeIo.v ===== *)
(** * System calls that are restarted or waited for: safeio.c, utility.c

    The kernel, as the code that creates and configures sockets sees it:
    interface [Descriptors], whose laws say which calls open and close
    descriptors.  Over it, safe_close, safe_accept, safe_connect,
    safe_wait_until_connected and the functions of utility.c that set options.
    A call that fails returns -1 and sets [errno]. *)

From S2P Require Import Prelude StateMonad AbstractIo Sockets.

Definition EBADF : Z := 9.
Definition ESOCKTNOSUPPORT : Z := 94.
Definition ETIMEDOUT : Z := 110.
Definition EINPROGRESS : Z := 115.

Definition SOL_SOCKET : Z := 1.
Definition IPPROTO_IP : Z := 0.
Definition IPPROTO_TCP : Z := 6.
Definition SO_REUSEADDR : Z := 2.
Definition SO_BROADCAST : Z := 6.
Definition SO_KEEPALIVE : Z := 9.
Definition TCP_NODELAY : Z := 1.
Definition TCP_DEFER_ACCEPT : Z := 9.
Definition IP_ADD_MEMBERSHIP : Z := 35.
Definition O_NONBLOCK : Z := 2048.
Definition FD_CLOEXEC : Z := 1.

(** The calls that neither open nor close a descriptor. *)
Inductive syscall : Type :=
| Setsockopt (fd level name : Z) (value : list Z)
| GetFl (fd : Z)
| SetFl (fd options : Z)
| GetFd (fd : Z)
| SetFd (fd options : Z)
| BindTo (fd : Z) (name : sockaddr) (len : Z)
| ListenOn (fd backlog : Z)
| ConnectTo (fd : Z) (name : sockaddr) (len : Z)
| Chmod (path : bytes) (mode : Z)
| Unlink (path : bytes)
| Poll (fd timeout : Z).

(** A call fails with an error number or returns its result.  [open] are the
    descriptors of the process, each with the domain of its socket; the names
    of a socket are of its domain.  A close that EINTR interrupts may have
    closed the descriptor or not. *)
Class Descriptors (K : Type) {KK : Kernel K} := {
  sys : syscall -> K -> K * (Z + Z);
  sys_socket : Z -> Z -> Z -> K -> K * (Z + Z);
  sys_accept : Z -> K -> K * (Z + Z);
  sys_close : Z -> K -> K * (Z + unit);
  sys_getpeername : Z -> K -> K * (Z + sockaddr);
  sys_getsockname : Z -> K -> K * (Z + sockaddr);
  sys_peercred : Z -> K -> K * (Z + (Z * Z * Z));
  sys_clock : K -> K * Z;

  open : K -> gmap Z Z;

  sys_open : forall c k, open (sys c k).1 = open k;
  sys_result : forall c k k' v, sys c k = (k', inr v) -> 0 <= v;
  sys_poll_interrupted : forall fd t k k', sys (Poll fd t) k = (k', inl EINTR) ->
    (interrupts k' < interrupts k)%nat;
  sys_connect_interrupted : forall fd a n k k', sys (ConnectTo fd a n) k = (k', inl EINTR) ->
    (interrupts k' < interrupts k)%nat;
  sys_socket_ok : forall d t p k k' fd, sys_socket d t p k = (k', inr fd) ->
    0 <= fd /\ open k !! fd = None /\ open k' = <[fd := d]> (open k);
  sys_socket_failed : forall d t p k k' e, sys_socket d t p k = (k', inl e) -> open k' = open k;
  sys_accept_ok : forall s k k' fd, sys_accept s k = (k', inr fd) ->
    exists d, open k !! s = Some d /\
    0 <= fd /\ open k !! fd = None /\ open k' = <[fd := d]> (open k);
  sys_accept_failed : forall s k k' e, sys_accept s k = (k', inl e) -> open k' = open k;
  sys_accept_interrupted : forall s k k', sys_accept s k = (k', inl EINTR) ->
    (interrupts k' < interrupts k)%nat;
  sys_close_closes : forall fd k k' r, sys_close fd k = (k', r) ->
    open k' = delete fd (open k) \/ (r = inl EINTR /\ open k' = open k);
  sys_close_interrupted : forall fd k k', sys_close fd k = (k', inl EINTR) ->
    (interrupts k' < interrupts k)%nat;
  sys_getpeername_open : forall fd k, open (sys_getpeername fd k).1 = open k;
  sys_getpeername_family : forall fd k k' a d, sys_getpeername fd k = (k', inr a) ->
    open k !! fd = Some d -> known d -> sa_family a = d;
  sys_getsockname_open : forall fd k, open (sys_getsockname fd k).1 = open k;
  sys_getsockname_family : forall fd k k' a d, sys_getsockname fd k = (k', inr a) ->
    open k !! fd = Some d -> known d -> sa_family a = d;
  sys_peercred_open : forall fd k, open (sys_peercred fd k).1 = open k;
  sys_clock_open : forall k, open (sys_clock k).1 = open k;
  sys_clock_interrupts : forall k, (interrupts (sys_clock k).1 <= interrupts k)%nat;
  sys_shutdown_open : forall fd k, open (sys_shutdown fd k).1 = open k;
  sys_so_error_open : forall fd k, open (sys_so_error fd k).1 = open k
}.

Section SafeIo.
Context {K : Type} {KK : Kernel K} {DD : Descriptors K}.

(** The kernel and the [errno] of the calling thread. *)
Record os : Type := mkOs {
  kern : K;
  errno : Z
}.

Definition set_errno (e : Z) : ST os unit := modify (fun s => mkOs (kern s) e).

(** A call: [None] when it fails, with [errno] set. *)
Definition posix {A : Type} (call : K -> K * (Z + A)) : ST os (option A) :=
  fun s => match call (kern s) with
           | (k, inl e) => Ok (None, mkOs k e)
           | (k, inr a) => Ok (Some a, mkOs k (errno s))
           end.

(** The same for the calls that return an [int]. *)
Definition posix_int (call : K -> K * (Z + Z)) : ST os Z :=
  let* r := posix call in
  ret (match r with Some v => v | None => -1 end).

(** ** safeio.c *)

Definition safe_close (fd : Z) : ST os Z :=
  if fd <? 0 then set_errno EINVAL ;;; ret (-1)
  else
    let* r := posix (fun k => restart (interrupts k) (sys_close fd) k) in
    ret (match r with Some _ => 0 | None => -1 end).

Definition safe_accept (sockfd : Z) : ST os Z :=
  if sockfd <? 0 then set_errno EINVAL ;;; ret (-1)
  else posix_int (fun k => restart (interrupts k) (sys_accept sockfd) k).

Definition safe_connect (sockfd : Z) (addr : sockaddr) (addrlen : Z) : ST os Z :=
  if (sockfd <? 0) || (addrlen <=? 0) then set_errno EINVAL ;;; ret (-1)
  else posix_int (fun k => restart (interrupts k) (sys (ConnectTo sockfd addr addrlen)) k).

(** safe_test_if_connected, with its [errno]. *)
Definition test_if_connected (sockfd : Z) : ST os Z :=
  let* r := posix (sys_so_error sockfd) in
  match r with
  | None => ret (-1)
  | Some error => if error =? 0 then ret 0 else set_errno error ;;; ret (-1)
  end.

Definition get_monotonic_timestamp : ST os Z :=
  fun s => let (k, t) := sys_clock (kern s) in Ok (t, mkOs k (errno s)).

Definition safe_calculate_timeout (start milliseconds : Z) : ST os Z :=
  assert (0 <=? start) ;;;
  assert (0 <=? milliseconds) ;;;
  let* now := get_monotonic_timestamp in
  if now <? 0 then ret 0
  else
    let timeout := signed 32 (Z.quot (now - start) 1000000) in
    if (timeout <? 0) || (milliseconds <? timeout) then ret 0
    else ret (milliseconds - timeout).

(** Each turn but the last follows a poll that EINTR interrupted. *)
Fixpoint wait_loop (fuel : nat) (sockfd start milliseconds timeout : Z) : ST os Z :=
  let* r := posix_int (sys (Poll sockfd timeout)) in
  if r <? 0 then
    let* e := gets errno in
    if negb (e =? EINTR) then ret (-1)
    else
      match fuel with
      | O => fail out_of_fuel
      | S fuel =>
          let* timeout := safe_calculate_timeout start milliseconds in
          wait_loop fuel sockfd start milliseconds timeout
      end
  else if r =? 0 then set_errno ETIMEDOUT ;;; ret (-1)
  else
    let* r := test_if_connected sockfd in
    if negb (r =? 0) then ret (-1) else ret 0.

Definition safe_wait_until_connected (sockfd milliseconds : Z) : ST os Z :=
  let* start := get_monotonic_timestamp in
  if start <? 0 then ret (-1)
  else
    let* k := gets kern in
    wait_loop (interrupts k) sockfd start milliseconds milliseconds.

(** ** utility.c *)

Definition set_non_blocking_mode (fd : Z) : ST os Z :=
  let* options := posix_int (sys (GetFl fd)) in
  if options <? 0 then ret (-1)
  else if Z.land options O_NONBLOCK =? O_NONBLOCK then ret 0
  else
    let* r := posix_int (sys (SetFl fd (Z.lor options O_NONBLOCK))) in
    if negb (r =? 0) then ret (-1) else ret 0.

Definition set_close_on_exec (fd : Z) : ST os Z :=
  let* r := posix_int (sys (GetFd fd)) in
  if r <? 0 then ret r
  else if Z.land r FD_CLOEXEC =? FD_CLOEXEC then ret 0
  else posix_int (sys (SetFd fd (Z.lor r FD_CLOEXEC))).

Definition set_socket_reuse_address (sockfd : Z) : ST os Z :=
  posix_int (sys (Setsockopt sockfd SOL_SOCKET SO_REUSEADDR [1])).
Definition set_socket_keepalive (sockfd : Z) : ST os Z :=
  posix_int (sys (Setsockopt sockfd SOL_SOCKET SO_KEEPALIVE [1])).
Definition set_socket_broadcast (sockfd : Z) : ST os Z :=
  posix_int (sys (Setsockopt sockfd SOL_SOCKET SO_BROADCAST [1])).
Definition set_tcp_nodelay (sockfd : Z) : ST os Z :=
  posix_int (sys (Setsockopt sockfd IPPROTO_TCP TCP_NODELAY [1])).
Definition set_tcp_defer_accept (sockfd : Z) : ST os Z :=
  posix_int (sys (Setsockopt sockfd IPPROTO_TCP TCP_DEFER_ACCEPT [1])).

Lemma run_posix {A} (call : K -> K * (Z + A)) s Q :
  (forall k e, call (kern s) = (k, inl e) -> Q None (mkOs k e)) ->
  (forall k a, call (kern s) = (k, inr a) -> Q (Some a) (mkOs k (errno s))) ->
  run (posix call) s Q.
Proof. unfold run, posix. destruct (call (kern s)) as [k [e|a]]; auto. Qed.

Lemma run_posix_int (call : K -> K * (Z + Z)) s Q :
  (forall k e, call (kern s) = (k, inl e) -> Q (-1) (mkOs k e)) ->
  (forall k v, call (kern s) = (k, inr v) -> Q v (mkOs k (errno s))) ->
  run (posix_int call) s Q.
Proof. intros H1 H2. apply run_bind, run_posix; [exact H1|exact H2]. Qed.

Lemma run_clock s Q :
  (forall k t, sys_clock (kern s) = (k, t) -> Q t (mkOs k (errno s))) ->
  run get_monotonic_timestamp s Q.
Proof. unfold run, get_monotonic_timestamp. destruct (sys_clock (kern s)) as [k t]; auto. Qed.

(** ** What they do to the descriptors *)

(** [keeps m]: [m] returns, and opens and closes nothing. *)
Definition keeps {A : Type} (m : ST os A) : Prop :=
  forall s, run m s (fun _ s' => open (kern s') = open (kern s)).

Lemma keeps_ret {A} (a : A) : keeps (ret a).
Proof. by intros s. Qed.

Lemma keeps_bind {A C} (m : ST os A) (f : A -> ST os C) :
  keeps m -> (forall a, keeps (f a)) -> keeps (bind m f).
Proof.
  intros Hm Hf s. apply run_bind. eapply run_mono; [apply Hm|]. intros a s' H1.
  eapply run_mono; [apply Hf|]. intros c s'' H2. by rewrite H2, H1.
Qed.

Lemma keeps_if {A} (b : bool) (m n : ST os A) : keeps m -> keeps n -> keeps (if b then m else n).
Proof. by destruct b. Qed.

Lemma keeps_errno e : keeps (set_errno e).
Proof. by intros s. Qed.

Lemma keeps_posix {A} (call : K -> K * (Z + A)) :
  (forall k, open (call k).1 = open k) -> keeps (posix call).
Proof.
  intros H s. unfold run, posix. specialize (H (kern s)).
  by destruct (call (kern s)) as [k [e|a]].
Qed.

Lemma keeps_sys c : keeps (posix_int (sys c)).
Proof. apply keeps_bind; [apply keeps_posix, sys_open|]. intros. apply keeps_ret. Qed.

Lemma keeps_clock : keeps get_monotonic_timestamp.
Proof.
  intros s. unfold run, get_monotonic_timestamp. pose proof (sys_clock_open (kern s)) as H.
  by destruct (sys_clock (kern s)).
Qed.

Lemma keeps_test fd : keeps (test_if_connected fd).
Proof.
  apply keeps_bind; [apply keeps_posix, sys_so_error_open|]. intros [e|]; [|apply keeps_ret].
  apply keeps_if; [apply keeps_ret|]. apply keeps_bind; [apply keeps_errno|intros; apply keeps_ret].
Qed.

Lemma run_timeout start ms s : 0 <= start -> 0 <= ms ->
  run (safe_calculate_timeout start ms) s (fun _ s' => open (kern s') = open (kern s) /\
    (interrupts (kern s') <= interrupts (kern s))%nat).
Proof.
  intros H1%Z.leb_le H2%Z.leb_le. unfold safe_calculate_timeout. rewrite H1, H2. wp; [done..|].
  apply run_clock. intros k t E.
  pose proof (sys_clock_interrupts (kern s)) as HI. pose proof (sys_clock_open (kern s)) as HO.
  rewrite E in HI, HO. by repeat (apply run_if; intros _).
Qed.

(** The fuel of the loop is enough: the wait ends when EINTR does. *)
Lemma run_wait_loop fuel fd start ms timeout s :
  0 <= start -> 0 <= ms -> (interrupts (kern s) <= fuel)%nat ->
  run (wait_loop fuel fd start ms timeout) s (fun _ s' => open (kern s') = open (kern s)).
Proof.
  intros H1 H2. revert timeout s. induction fuel as [|fuel IH]; intros timeout s Hf; cbn [wait_loop].
  all: pose proof (sys_open (Poll fd timeout) (kern s)) as HO.
  all: pose proof (sys_poll_interrupted fd timeout (kern s)) as HI.
  all: apply run_bind, run_posix_int; intros k v E; rewrite E in HO, HI; cbn [fst] in HO.
  all: apply run_if; intros Hv; [wp; apply run_if; [done|]; intros He|].
  all: try (exfalso; apply sys_result in E; apply Z.ltb_lt in Hv; lia).
  all: try (apply run_if; intros _; [done|]; apply run_bind).
  all: try (eapply run_mono; [apply (keeps_test fd)|]; intros r s' HT; cbn [kern] in HT).
  all: try (apply run_if; intros _; apply run_ret; congruence).
  all: cbn [errno kern] in *; try done.
  - apply negb_false_iff, Z.eqb_eq in He as ->. specialize (HI _ eq_refl). lia.
  - apply negb_false_iff, Z.eqb_eq in He as ->. specialize (HI _ eq_refl).
    apply run_bind. eapply run_mono; [by apply run_timeout|]. cbn [kern]. intros t s' [HO' HI'].
    eapply run_mono; [apply IH; lia|]. cbn beta. intros. congruence.
Qed.

Lemma keeps_wait fd ms : 0 <= ms -> keeps (safe_wait_until_connected fd ms).
Proof.
  intros H s. apply run_bind, run_clock. intros k t E. pose proof (sys_clock_open (kern s)) as HO.
  rewrite E in HO. cbn [fst] in HO. apply run_if; intros Ht; [done|]. apply run_bind, run_gets.
  eapply run_mono; [apply run_wait_loop; cbn; [|done..]|].
  - apply Z.ltb_ge in Ht. lia.
  - cbn. intros. congruence.
Qed.

Lemma keeps_non_blocking fd : keeps (set_non_blocking_mode fd).
Proof.
  apply keeps_bind; [apply keeps_sys|]. intros v.
  repeat (apply keeps_if; [apply keeps_ret|]). apply keeps_bind; [apply keeps_sys|]. intros r.
  apply keeps_if; apply keeps_ret.
Qed.

Lemma keeps_close_on_exec fd : keeps (set_close_on_exec fd).
Proof.
  apply keeps_bind; [apply keeps_sys|]. intros v.
  repeat (apply keeps_if; [apply keeps_ret|]). apply keeps_sys.
Qed.

Lemma keeps_connect fd a n : keeps (safe_connect fd a n).
Proof.
  apply keeps_if; [apply keeps_bind; [apply keeps_errno|intros; apply keeps_ret]|].
  apply keeps_bind; [|intros; apply keeps_ret]. apply keeps_posix. intros k.
  apply (restart_inv (fun k' => open k' = open k) (fun k' _ => open k' = open k)); [done|..].
  all: intros k1 k2 ? H1 E; pose proof (sys_open (ConnectTo fd a n) k1) as H2; rewrite E in H2;
    cbn in H2; congruence.
Qed.

(** ** Opening and closing *)

(** The restarted close always closes. *)
Lemma restart_close fuel fd k : (interrupts k <= fuel)%nat ->
  open (restart fuel (sys_close fd) k).1 = delete fd (open k).
Proof.
  revert k. induction fuel as [|fuel IH]; intros k Hf; cbn [restart].
  all: destruct (sys_close fd k) as [k' r] eqn:E; cbn [fst].
  all: pose proof (sys_close_closes _ _ _ _ E) as HC; pose proof (sys_close_interrupted fd k k') as HI.
  - destruct HC as [|[-> _]]; [done|]. specialize (HI E). lia.
  - destruct r as [e|]; cbn [fst]; [|destruct HC as [|[? _]]; done].
    destruct (e =? EINTR) eqn:Ee; cbn [fst].
    + apply Z.eqb_eq in Ee as ->. specialize (HI E). rewrite IH by lia.
      destruct HC as [->|[_ ->]]; [apply delete_delete_eq|done].
    + destruct HC as [|[[= ->] _]]; [done|]. by rewrite Z.eqb_refl in Ee.
Qed.

Lemma run_safe_close fd s : 0 <= fd ->
  run (safe_close fd) s (fun _ s' => open (kern s') = delete fd (open (kern s))).
Proof.
  intros H. unfold safe_close. replace (fd <? 0) with false by (symmetry; by apply Z.ltb_ge).
  pose proof (restart_close _ fd (kern s) (le_n _)) as HC.
  apply run_bind, run_posix; intros k e E; rewrite E in HC; by apply run_ret.
Qed.

Lemma run_safe_accept fd s :
  run (safe_accept fd) s (fun r s' =>
    (r < 0 /\ open (kern s') = open (kern s)) \/
    (0 <= r /\ open (kern s) !! r = None /\
     exists d, open (kern s) !! fd = Some d /\ open (kern s') = <[r := d]> (open (kern s)))).
Proof.
  unfold safe_accept. apply run_if; intros _; [wp; apply run_modify, run_ret; left; split; [lia|done]|].
  pose proof (restart_inv (fun k' => open k' = open (kern s))
    (fun k' r => match r with
     | inl _ => open k' = open (kern s)
     | inr r => 0 <= r /\ open (kern s) !! r = None /\
         exists d, open (kern s) !! fd = Some d /\ open k' = <[r := d]> (open (kern s))
     end) (interrupts (kern s)) (sys_accept fd) (kern s) eq_refl) as HR.
  destruct (restart _ _ _) as [k r] eqn:ER in HR.
  assert (match r with
     | inl _ => open k = open (kern s)
     | inr r => 0 <= r /\ open (kern s) !! r = None /\
         exists d, open (kern s) !! fd = Some d /\ open k = <[r := d]> (open (kern s))
     end) as HQ.
  { apply HR; clear.
    - intros k k' e H E. apply sys_accept_failed in E. congruence.
    - intros k k' [e|r] H E; [apply sys_accept_failed in E; congruence|].
      apply sys_accept_ok in E as (d & Hd & H0 & Hn & Ho). rewrite H in Hd, Hn, Ho. eauto 6. }
  apply run_posix_int; intros k' v E; rewrite ER in E; simplify_eq; [left; split; [lia|done]|].
  by right.
Qed.


End SafeIo.
Arguments os : clear implicits.
