(* ===== verification/PidFile.v ===== *)
(** * Files that hold the process of a daemon: pidfile.c

    A PID file is locked by the daemon it names.  First what each function
    returns for what the system answers; then several processes on one file
    name, a system call at a time, to see what the lock is worth. *)

From Stdlib Require Import ZifyBool.
From S2P Require Import Prelude AbstractIo SafeIo.

Definition EACCES : Z := 13.

(** ** The functions *)

Inductive effect : Type :=
| Opens (fd : Z)
| Unlinks
| Closes (fd : Z).

(** The holder that F_GETLK reports: none, or a process. *)
Definition pidfile_check (filename : option bytes) (open : option Z) (getlk : option (option Z)) : Z * list effect :=
  match filename with
  | None | Some [] => (-1, [])
  | Some _ =>
      match open with
      | None => (-1, [])
      | Some fd =>
          match getlk with
          | None => (-1, [Opens fd; Closes fd])
          | Some None => (0, [Opens fd; Closes fd])
          | Some (Some pid) => (pid, [Opens fd; Closes fd])
          end
      end
  end.

(** "%10d" of a process number: its length, and that of the newline. *)
Definition PIDFILE_LENGTH : Z := 11.
Definition printed_length (pid : Z) : Z := if (-999999999 <=? pid) && (pid <=? 9999999999) then 11 else 12.

(** [cloexec], [seek], [truncate]: whether the calls succeed; [setlk]: 0 or
    errno; [written]: what safe_timed_write_all returns. *)
Definition pidfile_open (filename : option bytes) (pid : Z) (open : option Z) (cloexec : bool) (setlk : Z) (seek : bool) (written : Z)
    (truncate : bool) : Z * list effect :=
  match filename with
  | None | Some [] => (-1, [])
  | Some _ =>
      if negb (printed_length pid =? PIDFILE_LENGTH) then (-1, [])
      else
        match open with
        | None => (-1, [])
        | Some fd =>
            if negb cloexec then (-1, [Opens fd; Closes fd])
            else if negb (setlk =? 0) then
              (if (setlk =? EACCES) || (setlk =? EAGAIN) then -2 else -1, [Opens fd; Closes fd])
            else if negb seek then (-1, [Opens fd; Unlinks; Closes fd])
            else if negb (written =? PIDFILE_LENGTH) then (-1, [Opens fd; Unlinks; Closes fd])
            else if negb truncate then (-1, [Opens fd; Closes fd])
            else (fd, [Opens fd])
        end
  end.

(** The device and the inode of the descriptor, and of the name. *)
Definition pidfile_validate (fd : Z) (filename : option bytes) (fst sst : option (Z * Z)) : Z :=
  match filename with
  | None | Some [] => -1
  | Some _ =>
      if fd <? 0 then -1
      else match fst, sst with Some f, Some s => if bool_decide (f = s) then 0 else -1 | _, _ => -1 end
  end.

(** [unlinked], [closed]: 0 or -1. *)
Definition pidfile_close (fd : Z) (filename : option bytes) (fst sst : option (Z * Z)) (unlinked closed : Z) : Z * list effect :=
  match filename with
  | None | Some [] => (-1, [])
  | Some _ =>
      if fd <? 0 then (-1, [])
      else if pidfile_validate fd filename fst sst =? 0 then (Z.lor unlinked closed, [Unlinks; Closes fd])
      else (Z.lor (-1) closed, [Closes fd])
  end.

(** A descriptor that is opened is closed or returned. *)
Lemma pidfile_open_keeps filename pid fd cloexec setlk seek written truncate :
  0 <= fd ->
  let '(r, es) := pidfile_open filename pid (Some fd) cloexec setlk seek written truncate in
  if 0 <=? r then r = fd /\ es = [Opens fd] else es = [] \/ head es = Some (Opens fd) /\ List.last es Unlinks = Closes fd.
Proof.
  intros Hf. unfold pidfile_open. repeat case_match; simplify_eq; cbn; try lia; auto.
  all: destruct (_ || _); cbn in *; try lia; auto.
Qed.

(** ** Processes *)

(** Where a process is: before pidfile_open; with the inode open; with its lock;
    running with the file written; about to unlink, or to close; in
    daemon_do_control_status, about to unlink a file that it found unlocked. *)
Inductive pc : Type :=
| Idle
| Opened (i : Z)
| Locked (i : Z)
| Holding (i : Z)
| Unlinking (i : Z)
| Closing (i : Z)
| Stale.

(** The inode that has the name, the owners of the locks, the next inode. *)
Record system : Type := mkSystem {
  name : option Z;
  locks : gmap Z Z;
  next : Z;
  at_ : gmap Z pc
}.

Definition where_ (p : Z) (s : system) : pc := default Idle (at_ s !! p).

(** What a process does next: the call succeeds, or not. *)
Inductive event : Type :=
| Goes (p : Z)
| Fails (p : Z)
| Truncates_not (p : Z)
| Dies (p : Z)
| Looks (p : Z).

(** close(2) drops the locks of the process on the file. *)
Definition unlock (p i : Z) (l : gmap Z Z) : gmap Z Z := if bool_decide (l !! i = Some p) then delete i l else l.

Definition unlock_all (p : Z) (l : gmap Z Z) : gmap Z Z := filter (fun x => x.2 <> p) l.

Definition to (p : Z) (c : pc) (s : system) : system := mkSystem (name s) (locks s) (next s) (<[p := c]> (at_ s)).
Definition with_name (n : option Z) (s : system) : system := mkSystem n (locks s) (next s) (at_ s).
Definition with_locks (l : gmap Z Z) (s : system) : system := mkSystem (name s) l (next s) (at_ s).

Definition step (e : event) (s : system) : option system :=
  match e with
  | Goes p =>
      match where_ p s with
      | Idle =>
          Some (match name s with
                | Some i => to p (Opened i) s
                | None => to p (Opened (next s)) (mkSystem (Some (next s)) (locks s) (next s + 1) (at_ s))
                end)
      | Opened i => match locks s !! i with
                    | None => Some (to p (Locked i) (with_locks (<[i := p]> (locks s)) s))
                    | Some _ => Some (to p (Closing i) s)
                    end
      | Locked i => Some (to p (Holding i) s)
      | Holding i => Some (to p (if bool_decide (name s = Some i) then Unlinking i else Closing i) s)
      | Unlinking i => Some (to p (Closing i) (with_name None s))
      | Closing i => Some (to p Idle (with_locks (unlock p i (locks s)) s))
      | Stale => Some (to p Idle (with_name None s))
      end
  | Fails p =>
      match where_ p s with
      | Opened i => Some (to p (Closing i) s)
      | Locked i => Some (to p (Unlinking i) s)
      | _ => None
      end
  | Truncates_not p => match where_ p s with Locked i => Some (to p (Closing i) s) | _ => None end
  | Dies p => Some (to p Idle (with_locks (unlock_all p (locks s)) s))
  | Looks p =>
      match where_ p s, name s with
      | Idle, Some i => match locks s !! i with None => Some (to p Stale s) | Some _ => None end
      | _, _ => None
      end
  end.

Fixpoint steps (es : list event) (s : system) : option system :=
  match es with [] => Some s | e :: es => match step e s with Some s => steps es s | None => None end end.

Definition start : system := mkSystem None ∅ 0 ∅.

(** [p] has the lock of [i], and runs or is about to. *)
Definition holds (p i : Z) (s : system) : Prop :=
  where_ p s = Locked i \/ where_ p s = Holding i \/ where_ p s = Unlinking i.

Definition owners (s : system) : Prop := forall p i, holds p i s -> locks s !! i = Some p.

Lemma where_to p q c s : where_ q (to p c s) = if decide (q = p) then c else where_ q s.
Proof. unfold where_, to. cbn. destruct (decide (q = p)) as [->|]; [by rewrite lookup_insert_eq|by rewrite lookup_insert_ne]. Qed.

Lemma owners_to p c s s' :
  (forall q, where_ q s' = where_ q s) ->
  (forall q i, q <> p -> locks s !! i = Some q -> locks s' !! i = Some q) ->
  (forall i, c = Locked i \/ c = Holding i \/ c = Unlinking i -> locks s' !! i = Some p) ->
  owners s -> owners (to p c s').
Proof.
  intros Hw Hl Hc Ho q i. unfold holds. rewrite where_to. destruct (decide (q = p)) as [->|Hne]; [apply Hc|].
  rewrite Hw. intros H. by apply Hl, Ho.
Qed.

Lemma unlock_other p i l q j : q <> p -> l !! j = Some q -> unlock p i l !! j = Some q.
Proof. intros Hne Hj. unfold unlock. case_bool_decide as H; [|done]. rewrite lookup_delete_ne; [done|]. intros <-. congruence. Qed.

Lemma step_owners e s s' : owners s -> step e s = Some s' -> owners s'.
Proof.
  intros Ho. pose proof Ho as Ho'. unfold owners, holds in Ho'. destruct e as [p|p|p|p|p]; cbn.
  - specialize (Ho' p). destruct (where_ p s) as [|i|i|i|i|i|] eqn:Ew.
    + intros [= <-]. destruct (name s); apply (owners_to p _ s); try done; by intros ? [|[]].
    + destruct (locks s !! i) as [q|] eqn:El; intros [= <-]; apply (owners_to p _ s); try done; [by intros ? [|[]]| |].
      * intros q j Hne Hj. cbn. rewrite lookup_insert_ne; [done|]. intros <-. congruence.
      * intros j [[= ->]|[]]; [|done..]. cbn. by rewrite lookup_insert_eq.
    + intros [= <-]. apply (owners_to p _ s); try done. intros j [|[[= ->]|]]; [done| |done]. apply Ho'. by left.
    + intros [= <-]. apply (owners_to p _ s); try done. case_bool_decide; intros j [|[|[= ->]]]; try done. apply Ho'. by right; left.
    + intros [= <-]. apply (owners_to p _ s); try done. by intros ? [|[]].
    + intros [= <-]. apply (owners_to p _ s); try done; [|by intros ? [|[]]]. intros q j. cbn. apply unlock_other.
    + intros [= <-]. apply (owners_to p _ s); try done. by intros ? [|[]].
  - specialize (Ho' p). destruct (where_ p s) as [|i|i|i|i|i|] eqn:Ew; try done; intros [= <-]; apply (owners_to p _ s); try done.
    + by intros ? [|[]].
    + intros j [|[|[= ->]]]; [done..|]. apply Ho'. by left.
  - destruct (where_ p s) as [|i|i|i|i|i|]; try done; intros [= <-]. apply (owners_to p _ s); try done. by intros ? [|[]].
  - intros [= <-]. apply (owners_to p _ s); try done; [|by intros ? [|[]]].
    intros q j Hne Hj. cbn. unfold unlock_all. by apply map_lookup_filter_Some.
  - destruct (where_ p s); try done. destruct (name s) as [i|]; [|done]. destruct (locks s !! i); [done|].
    intros [= <-]. apply (owners_to p _ s); try done. by intros ? [|[]].
Qed.

Lemma steps_owners es s s' : owners s -> steps es s = Some s' -> owners s'.
Proof.
  revert s. induction es as [|e es IH]; intros s Ho; cbn; [by intros [= <-]|].
  destruct (step e s) as [s1|] eqn:E; [|done]. apply IH. by eapply step_owners.
Qed.

(** C34: however any number of processes open, lock, write, close, unlink and die:
    a file is held by one of them at a time, so that of those that hold a file
    and find it valid there is one. *)
Theorem pidfile_one_valid_holder es s p q i j :
  steps es start = Some s -> holds p i s -> holds q j s -> name s = Some i -> name s = Some j -> p = q.
Proof.
  intros E Hp Hq Hi Hj. assert (owners s) as Ho.
  { eapply steps_owners; [|exact E]. intros x y [H|[H|H]]; by cbn in H. }
  apply Ho in Hp, Hq. congruence.
Qed.

Lemma pidfile_one_valid_holder_witness :
  exists s, steps [Goes 1; Goes 2; Goes 1; Goes 2; Goes 1] start = Some s /\ holds 1 0 s /\ name s = Some 0 /\
  forall q, holds q 0 s -> 1 = q.
Proof.
  eexists. split; [vm_compute; reflexivity|]. split; [right; left; reflexivity|]. split; [reflexivity|].
  intros q Hq. eapply (pidfile_one_valid_holder [Goes 1; Goes 2; Goes 1; Goes 2; Goes 1] _ 1 q 0 0);
    [vm_compute; reflexivity|right; left; reflexivity|exact Hq|reflexivity|reflexivity].
Defined.

(** But the lock of a file is no lock of its name: a process that opens the file
    before its owner unlinks it gets the lock behind it, of a file without a
    name, while a third makes and locks a new one.  Both run. *)
Theorem pidfile_two_instances :
  exists es s, steps es start = Some s /\ where_ 2 s = Holding 0 /\ where_ 3 s = Holding 1.
Proof.
  exists [Goes 1; Goes 1; Goes 1; Goes 2; Goes 1; Goes 1; Goes 1; Goes 2; Goes 2; Goes 3; Goes 3; Goes 3].
  eexists. split; [vm_compute; reflexivity|]. by split.
Qed.

(** daemon_do_control_status unlinks a file that it has seen unlocked, although a
    daemon may have locked it since: the daemon runs, and no name leads to it. *)
Theorem pidfile_status_unlinks_locked :
  exists es s, steps es start = Some s /\ where_ 2 s = Holding 0 /\ name s = None.
Proof.
  exists [Goes 1; Dies 1; Looks 3; Goes 2; Goes 2; Goes 2; Goes 3]. eexists. split; [vm_compute; reflexivity|]. by split.
Qed.
