(* ===== verification/Daemon.v ===== *)
(** * Daemons: daemon.c

    [daemon_spawn] makes a daemon of the process, in another one; [daemon_main]
    is the main program of one: it parses the arguments, and starts, stops or
    looks for the daemon.  What the system answers is an argument; the file that
    names the daemon is that of PidFile.v. *)

From Stdlib Require Import ZifyBool.
From S2P Require Import Prelude Utility CleanPath AbstractIo Cmdline PidFile.

Definition EXIT_SUCCESS : Z := 0.
Definition EXIT_FAILURE : Z := 1.

(** ** Descriptors *)

(** The entries of /proc/self/fd into an array of [size]: what is kept, and the
    entries that are left. *)
Fixpoint read_fds (dir_fd start size : Z) (entries : list bytes) (fds : list Z) : list Z * list bytes :=
  match entries with
  | [] => (fds, [])
  | name :: entries =>
      let fd := atoi32 (Some name) false in
      let fds := if negb (fd =? dir_fd) && (start <=? fd) then fds ++ [fd] else fds in
      if zlen fds <? size then read_fds dir_fd start size entries fds else (fds, entries)
  end.

(** The outer loop, with the answers of realloc: [None] if there is no memory. *)
Fixpoint read_all_fds (fuel : nat) (dir_fd start size : Z) (entries : list bytes) (fds : list Z) (realloc : list bool) : option (list Z) :=
  match fuel with
  | O => None
  | S fuel =>
      match realloc with
      | false :: _ => None
      | _ =>
          let '(fds, entries) := read_fds dir_fd start size entries fds in
          let size := 2 * size in
          if zlen fds =? size then read_all_fds fuel dir_fd start size entries fds (List.tl realloc) else Some fds
      end
  end.

(** [opendir]: the descriptor of the directory and its entries; [rlimit]: the
    limit of descriptors, if there is one that can be read.  The result, and
    the descriptors that safe_close is called for. *)
Definition daemon_close_files (start : Z) (opendir : option (Z * list bytes)) (rlimit : option Z) (realloc : list bool) : Z * list Z :=
  let start := if start <? 0 then 0 else start in
  match opendir with
  | None =>
      let max := match rlimit with Some cur => if (0 <? cur) && (cur <=? 4096) then cur else 4096 | None => 4096 end in
      (0, seqZ start (max - start))
  | Some (dir_fd, entries) =>
      match read_all_fds (S (length entries)) dir_fd start 128 entries [] realloc with
      | None => (-1, [])
      | Some fds => (0, fds)
      end
  end.

Definition wanted (dir_fd start : Z) (entries : list bytes) : list Z :=
  filter (fun fd => fd <> dir_fd /\ start <= fd) (map (fun name => atoi32 (Some name) false) entries).

Lemma read_fds_spec dir_fd start size entries fds : zlen fds < size ->
  (read_fds dir_fd start size entries fds).1 = take (Z.to_nat size) (fds ++ wanted dir_fd start entries) /\
  zlen (read_fds dir_fd start size entries fds).1 <= size.
Proof.
  unfold wanted. revert fds. induction entries as [|name entries IH]; intros fds Hf; cbn [read_fds map].
  - rewrite app_nil_r, take_ge by (unfold zlen in *; lia). split; [done|cbn; lia].
  - set (fd := atoi32 (Some name) false). rewrite filter_cons. destruct (negb (fd =? dir_fd) && (start <=? fd)) eqn:E.
    + rewrite decide_True by lia. set (rest := filter _ (map _ entries)) in *.
      assert (fds ++ fd :: rest = (fds ++ [fd]) ++ rest) as -> by (by rewrite <- app_assoc). destruct (Z.ltb_spec (zlen (fds ++ [fd])) size); [by apply IH|].
      rewrite zlen_app in *. change (zlen [fd]) with 1 in *. cbn [fst]. split; [|rewrite zlen_app; change (zlen [fd]) with 1; lia].
      rewrite take_app_length' by (rewrite length_app; unfold zlen in *; cbn; lia). done.
    + rewrite decide_False by lia. destruct (Z.ltb_spec (zlen fds) size); [by apply IH|lia].
Qed.

(** The array is doubled before it is compared with what was read: the loop
    never goes on, and no more than 128 descriptors are closed. *)
Theorem daemon_close_files_first_128 start dir_fd entries rlimit realloc :
  0 <= start -> head realloc <> Some false ->
  daemon_close_files start (Some (dir_fd, entries)) rlimit realloc = (0, take 128 (wanted dir_fd start entries)).
Proof.
  intros Hs Hr. unfold daemon_close_files. destruct (Z.ltb_spec start 0); [lia|]. cbn [read_all_fds].
  destruct (read_fds_spec dir_fd start 128 entries []) as [H1 H2]; [done|]. cbn [app] in H1.
  destruct (read_fds dir_fd start 128 entries []) as [fds rest]. cbn [fst] in *. subst fds.
  replace (zlen _ =? 2 * 128) with false by lia. by destruct realloc as [|[]].
Qed.

(** A table of descriptors: what each of them is. *)
Inductive file : Type :=
| NullRead
| NullWrite
| Other (n : Z).

Abbreviation table := (gmap Z file) (only parsing).

(** open gives the lowest descriptor that is free. *)
Fixpoint lowest (fuel : nat) (from : Z) (t : table) : Z :=
  match fuel with O => from | S fuel => match t !! from with None => from | Some _ => lowest fuel (from + 1) t end end.
Definition open_ (f : file) (t : table) : Z * table := let fd := lowest (size t) 0 t in (fd, <[fd := f]> t).
Definition dup2 (from to : Z) (t : table) : table := match t !! from with Some f => <[to := f]> t | None => t end.

(** [null]: whether /dev/null is what it should be; the others: whether the
    calls succeed. *)
Definition daemon_nullify_streams (null in_opens in_dups out_opens out_dups err_dups : bool) (t : table) : Z * table :=
  if negb null || negb in_opens then (-1, t)
  else
    let '(fd, t) := open_ NullRead t in
    if negb (fd =? 0) && negb in_dups then (-1, t)
    else
      let t := if fd =? 0 then t else delete fd (dup2 fd 0 t) in
      if negb out_opens then (-1, t)
      else
        let '(fd, t) := open_ NullWrite t in
        if negb (fd =? 1) && negb out_dups then (-1, t)
        else
          let t := if fd =? 1 then t else dup2 fd 1 t in
          if negb (fd =? 2) && negb err_dups then (-1, t)
          else
            let t := if fd =? 2 then t else dup2 fd 2 t in
            (0, if negb (fd =? 1) && negb (fd =? 2) then delete fd t else t).

Lemma lowest_spec fuel from (t : table) :
  from <= lowest fuel from t /\ forall x, from <= x < lowest fuel from t -> is_Some (t !! x).
Proof.
  revert from. induction fuel as [|fuel IH]; intros from; cbn; [split; [done|lia]|].
  destruct (t !! from) eqn:E; [|split; [done|lia]]. destruct (IH (from + 1)) as [H1 H2]. split; [lia|].
  intros x Hx. destruct (decide (x = from)) as [->|]; [by eexists|]. apply H2. lia.
Qed.

Lemma lowest_fuel fuel from (t : table) : lowest fuel from t < from + Z.of_nat fuel -> t !! lowest fuel from t = None.
Proof.
  revert from. induction fuel as [|fuel IH]; intros from; cbn; [lia|]. destruct (t !! from) eqn:E; [|done]. intros H. apply IH. lia.
Qed.

Lemma lowest_free (t : table) : t !! lowest (size t) 0 t = None.
Proof.
  set (n := lowest (size t) 0 t). destruct (lowest_spec (size t) 0 t) as [H1 H2]. fold n in H1, H2.
  destruct (decide (n < Z.of_nat (size t))) as [|Hn]; [by apply lowest_fuel|].
  destruct (t !! n) as [f|] eqn:E; [exfalso|done].
  assert (list_to_set (seqZ 0 (n + 1)) ⊆ dom t) as Hs.
  { intros x. rewrite elem_of_list_to_set, elem_of_seqZ, elem_of_dom. intros Hx. destruct (decide (x = n)) as [->|]; [by eexists|]. apply H2. lia. }
  apply subseteq_size in Hs. rewrite size_list_to_set in Hs by apply NoDup_seqZ. rewrite length_seqZ, size_dom in Hs. lia.
Qed.

(** Whatever descriptors are open or closed before, afterwards the standard
    streams are /dev/null, the first for reading and the other two for writing,
    and the other descriptors are as they were. *)
Theorem daemon_nullifies (t : table) :
  exists t', daemon_nullify_streams true true true true true true t = (0, t') /\
    t' !! 0 = Some NullRead /\ t' !! 1 = Some NullWrite /\ t' !! 2 = Some NullWrite /\
    forall x, 2 < x -> t' !! x = t !! x.
Proof.
  unfold daemon_nullify_streams, open_, dup2. cbn [negb orb andb]. rewrite !andb_false_r.
  pose proof (lowest_free t) as F1. destruct (lowest_spec (size t) 0 t) as [L1 _]. set (a := lowest (size t) 0 t) in *. clearbody a.
  set (t1 := if a =? 0 then _ else _).
  assert (t1 !! 0 = Some NullRead /\ forall x, 2 < x -> t1 !! x = t !! x) as [Z1 O1].
  { unfold t1. destruct (Z.eqb_spec a 0) as [->|Ha]; [split; [by rewrite lookup_insert_eq|intros x Hx; by rewrite lookup_insert_ne by lia]|].
    rewrite lookup_insert_eq. split; [rewrite lookup_delete_ne by done; by rewrite lookup_insert_eq|].
    intros x Hx. destruct (decide (x = a)) as [->|]; [by rewrite lookup_delete_eq|]. by rewrite lookup_delete_ne, !lookup_insert_ne by (done || lia). }
  clearbody t1. pose proof (lowest_free t1) as F2. destruct (lowest_spec (size t1) 0 t1) as [L2 _]. set (b := lowest (size t1) 0 t1) in *. clearbody b.
  assert (b <> 0) as Hb by (intros ->; congruence).
  destruct (Z.eqb_spec b 1) as [->|H1]; [|destruct (Z.eqb_spec b 2) as [->|H2]]; cbn [negb andb]; eexists; (split; [reflexivity|]).
  - change (1 =? 2) with false. rewrite lookup_insert_eq. cbv iota.
    rewrite (lookup_insert_ne _ 2 0), (lookup_insert_ne _ 1 0), (lookup_insert_ne _ 2 1), !lookup_insert_eq by done.
    split_and!; try done. intros x Hx. rewrite !lookup_insert_ne by lia. by apply O1.
  - rewrite lookup_insert_eq. cbv iota. rewrite (lookup_insert_ne _ 1 0), (lookup_insert_ne _ 2 0), (lookup_insert_ne _ 1 2), !lookup_insert_eq by done.
    split_and!; try done. intros x Hx. rewrite !lookup_insert_ne by lia. by apply O1.
  - rewrite lookup_insert_eq. cbv iota. rewrite (lookup_insert_ne _ 1 b), lookup_insert_eq by done. cbv iota.
    rewrite !lookup_delete_ne by done. rewrite (lookup_insert_ne _ 2 0), (lookup_insert_ne _ 1 0), (lookup_insert_ne _ b 0), (lookup_insert_ne _ 2 1), !lookup_insert_eq by done.
    split_and!; try done. intros x Hx. destruct (decide (x = b)) as [->|]; [rewrite lookup_delete_eq; by rewrite <- O1, F2 by lia|].
    rewrite lookup_delete_ne, !lookup_insert_ne by (done || lia). by apply O1.
Qed.

(** ** Spawning *)

Definition DAEMON_FAST_RETURN : Z := 1.
Definition DAEMON_NO_CD_TO_ROOT : Z := 2.
Definition DAEMON_ATTACHED_SESSION : Z := 4.
Definition DAEMON_FLAGS_MASK : Z := 7.
Definition TEST (f s : Z) : bool := Z.land f s =? s.

(** What the temporary process gets: setsid, the second fork, the descriptors
    closed and nullified, chdir. *)
Record temporary : Type := mkTemporary {
  setsid : bool;
  fork2 : bool;
  nullified : bool;
  chdir : bool
}.

Definition daemon_close_files_and_nullify_streams (closed nullify : Z) : Z :=
  if negb (closed =? 0) then -1 else if negb (nullify =? 0) then -1 else 0.

(** How the temporary process ends ([None]: it goes on as the daemon), and
    whether there is a daemon. *)
Definition daemon_daemonize (detach_session cd_to_root : bool) (t : temporary) : option Z * bool :=
  let runs := nullified t && (negb cd_to_root || chdir t) in
  if detach_session then
    if negb (setsid t) || negb (fork2 t) then (Some EXIT_FAILURE, false) else (Some EXIT_SUCCESS, runs)
  else if runs then (None, true) else (Some EXIT_FAILURE, false).

(** [caller]: what the calling process gets; [daemon]: whether a process returns
    0; [sigchld]: the disposition of SIGCHLD in the calling process. *)
Record spawned : Type := mkSpawned {
  caller : Z;
  daemon : bool;
  sigchld : Z
}.

(** [fork]: the first fork; [waited]: waitpid; [killed]: the temporary process
    was killed by a signal.  SIG_DFL is 0. *)
Definition daemon_spawn (fd_to_start_closing flags : Z) (fork waited killed : bool) (t : temporary) (handler : Z) : spawned :=
  if negb (Z.lor flags DAEMON_FLAGS_MASK =? DAEMON_FLAGS_MASK) || (fd_to_start_closing <? 0) then mkSpawned (-1) false handler
  else
    let fast_return := TEST flags DAEMON_FAST_RETURN || TEST flags DAEMON_ATTACHED_SESSION in
    let '(saved, disposition) := if fast_return then (0, handler) else (handler, 0) in
    if negb fork then mkSpawned (-1) false (if fast_return then disposition else saved)
    else
      let '(ended, runs) := daemon_daemonize (negb (TEST flags DAEMON_ATTACHED_SESSION)) (negb (TEST flags DAEMON_NO_CD_TO_ROOT)) t in
      if fast_return then mkSpawned 1 runs disposition
      else if negb waited then mkSpawned (-1) runs saved
      else if killed || negb (default EXIT_FAILURE ended =? EXIT_SUCCESS) then mkSpawned (-1) runs saved
      else mkSpawned 1 runs saved.

(** The calling process keeps its disposition of SIGCHLD.  If it waits, it gets 1
    exactly when the daemon process was made, and when that had nothing to
    complain of there is a daemon. *)
Theorem daemon_spawn_returns fd flags fork waited killed t handler :
  let s := daemon_spawn fd flags fork waited killed t handler in
  sigchld s = handler /\ (caller s = 1 \/ caller s = -1) /\
  (0 <= flags < 8 -> 0 <= fd -> TEST flags DAEMON_FAST_RETURN = false -> TEST flags DAEMON_ATTACHED_SESSION = false ->
   (caller s = 1 <-> fork = true /\ waited = true /\ killed = false /\ setsid t = true /\ fork2 t = true) /\
   (caller s = 1 -> nullified t = true -> chdir t = true -> daemon s = true)).
Proof.
  cbv zeta. unfold daemon_spawn. destruct (negb _ || _) eqn:E0.
  - split; [done|]. split; [by right|]. intros Hf Hfd. exfalso.
    assert (Z.lor flags DAEMON_FLAGS_MASK = DAEMON_FLAGS_MASK) as H; [|rewrite H in E0; unfold DAEMON_FLAGS_MASK in E0; lia].
    assert (flags = 0 \/ flags = 1 \/ flags = 2 \/ flags = 3 \/ flags = 4 \/ flags = 5 \/ flags = 6 \/ flags = 7) as H by lia.
    destruct H as [->|[->|[->|[->|[->|[->|[->| ->]]]]]]]; reflexivity.
  - unfold daemon_daemonize.
    destruct (TEST flags DAEMON_FAST_RETURN), (TEST flags DAEMON_ATTACHED_SESSION), fork, (setsid t), (fork2 t), (nullified t),
      (TEST flags DAEMON_NO_CD_TO_ROOT), (chdir t), waited, killed; cbn; (split; [done|]; split; [by auto|]); intros; try done.
    all: split; [split; intros; try done; naive_solver|done].
Qed.

(** "Daemon started" is said before the daemon has closed its descriptors and
    left its directory: it may be gone at once. *)
Theorem daemon_spawn_too_early :
  daemon_spawn 0 0 true true false (mkTemporary true true false true) 5 = mkSpawned 1 false 5.
Proof. reflexivity. Qed.

(** ** Starting and stopping *)

Section Control.
(** [g_module_dirname] of cmdline.c. *)
Context (dirname : option bytes).

Definition path_of (relative : bytes) : option bytes :=
  match absolute_path dirname (Some relative) false with Ok (inr p) => Some p | _ => None end.

Definition daemon_prepare_directory (mkdirs : bytes -> Z) (relative : bytes) : Z :=
  match path_of relative with
  | None | Some [] => -1
  | Some dir => if negb (mkdirs dir =? 0) then -1 else 0
  end.

Definition daemon_prepare_directories (mkdirs : bytes -> Z) : Z :=
  if forallb (fun d => daemon_prepare_directory mkdirs d =? 0) [B "../log"; B "../run"; B "../tmp"] then 0 else -1.

Definition daemon_get_pidfile (name : bytes) : option bytes :=
  let relative := B "../run/" ++ name ++ B ".pid" in
  if PATH_MAX <=? zlen relative then None else path_of relative.

(** From what pidfile_check returns, and errno; the second result: the file is
    unlinked. *)
Definition daemon_do_control_status (check errno : Z) : Z * bool :=
  if 0 <? check then (check, false)
  else if check =? 0 then (0, true)
  else if errno =? 2 then (0, false)
  else (-1, false).

Definition daemon_control_status (name : bytes) (check errno : Z) : Z :=
  match daemon_get_pidfile name with
  | None => -1
  | Some _ => if (daemon_do_control_status check errno).1 <=? 0 then -1 else 0
  end.

(** The loop behind daemon_spawn, over what pidfile_check returns every 100 ms. *)
Fixpoint watch (i count : Z) (checks : list Z) : option Z :=
  match checks with
  | [] => None
  | pid :: checks =>
      let count := if 0 <=? pid then count + 1 else 0 in
      if 5 <=? count then Some 1 else if i =? 50 then Some (-1) else watch (i + 1) count checks
  end.

Definition daemon_control_daemonize (spawn : Z) (checks : list Z) : option Z :=
  if spawn <? 0 then Some (-1) else if spawn =? 0 then Some 0 else watch 0 0 checks.

(** The loop around pidfile_open: three tries. *)
Fixpoint open_pidfile (i : Z) (opens : list Z) : option Z :=
  match opens with
  | [] => None
  | fd :: opens => if (0 <=? fd) || (fd =? -2) || (i =? 2) then Some fd else open_pidfile (i + 1) opens
  end.

(** [daemonized]: what daemon_control_daemonize returns in this process;
    [babysitter]: whether there is one, and what babysitter_spawn returns here;
    [callback]: what the program returns.  The result, the status, and whether
    the program was run. *)
Definition daemon_control_start (name : bytes) (mkdirs : bytes -> Z) (console : bool) (daemonized : Z) (babysitter : option Z)
    (opens : list Z) (callback : Z) : option (Z * Z * bool) :=
  if negb (daemon_prepare_directories mkdirs =? 0) then Some (-1, EXIT_FAILURE, false)
  else
    match daemon_get_pidfile name with
    | None => Some (-1, EXIT_FAILURE, false)
    | Some _ =>
        let work :=
          match open_pidfile 0 opens with
          | None => None
          | Some fd =>
              if 0 <=? fd then Some (2, callback, true)
              else Some (2, if (fd =? -2) && negb console then EXIT_SUCCESS else EXIT_FAILURE, false)
          end in
        if console then work
        else if daemonized <? 0 then Some (-1, EXIT_FAILURE, false)
        else if 0 <? daemonized then Some (1, EXIT_SUCCESS, false)
        else
          match babysitter with
          | Some r => if negb (r =? 0) then Some (2, EXIT_FAILURE, false) else work
          | None => work
          end
    end.

(** The loop of daemon_control_stop: [n] tries are left. *)
Fixpoint wait_stopped (n : nat) (checks : list Z) : option Z :=
  match n with
  | O => Some (-1)
  | S n => match checks with [] => None | c :: checks => if c <=? 0 then Some 0 else wait_stopped n checks end
  end.

(** [check], [errno]: the first pidfile_check; [killed]: what kill returns. *)
Definition daemon_control_stop (name : bytes) (mkdirs : bytes -> Z) (wait : bool) (check errno killed : Z) (checks : list Z) : option Z :=
  if negb (daemon_prepare_directories mkdirs =? 0) then Some (-1)
  else
    match daemon_get_pidfile name with
    | None => Some (-1)
    | Some _ =>
        let pid := (daemon_do_control_status check errno).1 in
        if pid <? 0 then Some (-1)
        else if pid =? 0 then Some 0
        else if negb (killed =? 0) then Some (-1)
        else if negb wait then Some 0
        else wait_stopped (Z.to_nat 3000) checks
    end.
End Control.

(** ** The main program *)

(** What getopt_long returns, with its argument. *)
Fixpoint parse_loop (opts : list (ascii * bytes)) (control : option bytes) (console : bool) : Z * option bytes * bool :=
  match opts with
  | [] => if eqb console (match control with Some _ => true | None => false end) then (-1, control, console) else (0, control, console)
  | (c, optarg) :: opts =>
      if bool_decide (c = "v"%char) || bool_decide (c = "l"%char) || bool_decide (c = "h"%char) then (1, control, console)
      else if bool_decide (c = "k"%char) then parse_loop opts (Some optarg) console
      else if bool_decide (c = "c"%char) then parse_loop opts control true
      else (-1, control, console)
  end.

Definition daemon_parse_arguments (opts : list (ascii * bytes)) : Z * option bytes * bool := parse_loop opts None false.

(** The arguments for the program: its name, and what getopt has left. *)
Definition new_arguments (argv : list bytes) (optind : nat) : list bytes := take 1 argv ++ drop optind argv.

(** The parts of the program as functions of what they are called with. *)
Record controls : Type := mkControls {
  do_start : bool -> Z * Z;
  do_stop : bytes -> Z;
  do_status : Z
}.

(** The exit status, the last message ("OK" or "FAIL", with the control, which
    is NULL on the console), and whether the process ends by _exit. *)
Definition daemon_main (callback setup : bool) (opts : list (ascii * bytes)) (c : controls) : Z * option (bool * option bytes) * bool :=
  if negb callback || negb setup then (EXIT_FAILURE, None, false)
  else
    let '(ret, control, console) := daemon_parse_arguments opts in
    if ret <? 0 then (EXIT_FAILURE, None, false)
    else if 0 <? ret then (EXIT_SUCCESS, None, false)
    else
      let finish ret status :=
        if ret =? 2 then (status, None, false)
        else
          let ok := (ret =? 0) || (ret =? 1) && (status =? EXIT_SUCCESS) in
          (if ok then EXIT_SUCCESS else EXIT_FAILURE, Some (ok, control), ret =? 1) in
      match control with
      | None => let '(ret, status) := do_start c console in finish ret status
      | Some w =>
          if bool_decide (w = B "start") then let '(ret, status) := do_start c console in finish ret status
          else if bool_decide (w = B "stop") || bool_decide (w = B "reload") then finish (do_stop c w) EXIT_FAILURE
          else if bool_decide (w = B "status") then finish (do_status c) EXIT_FAILURE
          else (EXIT_FAILURE, None, false)
      end.

(** The program runs exactly where it should: in the process that holds the PID
    file, which is not the one that reports, and its status is the program's. *)
Theorem daemon_program_runs dirname name mkdirs console daemonized babysitter opens callback ret status ran :
  daemon_control_start dirname name mkdirs console daemonized babysitter opens callback = Some (ret, status, ran) ->
  (ran = true <-> daemon_prepare_directories dirname mkdirs = 0 /\ is_Some (daemon_get_pidfile dirname name) /\
     (console = true \/ daemonized = 0 /\ default 0 babysitter = 0) /\
     exists fd, open_pidfile 0 opens = Some fd /\ 0 <= fd) /\
  (ran = true -> ret = 2 /\ status = callback).
Proof.
  unfold daemon_control_start.
  destruct (Z.eqb_spec (daemon_prepare_directories dirname mkdirs) 0) as [Hp|Hp]; cbn [negb].
  2: { intros [= <- <- <-]. split; [split; [done|intros [? _]; done]|done]. }
  destruct (daemon_get_pidfile dirname name) as [f|].
  2: { intros [= <- <- <-]. split; [split; [done|intros (_ & [? ?] & _); done]|done]. }
  assert (match open_pidfile 0 opens with
    | None => None
    | Some fd => if 0 <=? fd then Some (2, callback, true)
                 else Some (2, if (fd =? -2) && negb console then EXIT_SUCCESS else EXIT_FAILURE, false)
    end = Some (ret, status, ran) ->
    (ran = true <-> exists fd, open_pidfile 0 opens = Some fd /\ 0 <= fd) /\ (ran = true -> ret = 2 /\ status = callback)) as Hw.
  { destruct (open_pidfile 0 opens) as [fd|]; [|done]. destruct (Z.leb_spec 0 fd); intros [= <- <- <-];
      (split; [split; [intros; try done; by exists fd|intros (x & [= <-] & ?); try done; lia]|done]). }
  destruct console.
  { intros E. destruct (Hw E) as [H1 H2]. split; [|done]. rewrite H1.
    split; [intros H; split; [done|]; split; [by eexists|]; split; [by left|done]|tauto]. }
  destruct (Z.ltb_spec daemonized 0) as [Hd|Hd].
  { intros [= <- <- <-]. split; [split; [done|]|done]. intros (_ & _ & [?|[? _]] & _); [done|lia]. }
  destruct (Z.ltb_spec 0 daemonized) as [Hd'|Hd'].
  { intros [= <- <- <-]. split; [split; [done|]|done]. intros (_ & _ & [?|[? _]] & _); [done|lia]. }
  destruct babysitter as [r|]; [destruct (Z.eqb_spec r 0) as [->|Hr]|]; cbn [negb].
  2: { intros [= <- <- <-]. split; [split; [done|]|done]. intros (_ & _ & [?|[_ ?]] & _); done. }
  all: intros E; destruct (Hw E) as [H1 H2]; split; [|done]; rewrite H1;
    (split; [intros H; split; [done|]; split; [by eexists|]; split; [right; split; [lia|done]|done]|tauto]).
Qed.

(** "start" is a success when the PID file could be looked at five times in a
    row, even if nobody has locked it: the daemon may have died. *)
Theorem daemon_start_sees_stale_file : daemon_control_daemonize 1 [0; 0; 0; 0; 0] = Some 1.
Proof. reflexivity. Qed.

(** On the console a failure to start prints the control, which is NULL. *)
Theorem daemon_console_prints_null stop st :
  daemon_main true true [("c"%char, [])] (mkControls (fun _ => (-1, EXIT_FAILURE)) stop st) = (EXIT_FAILURE, Some (false, None), false).
Proof. reflexivity. Qed.
