(* ===== verification/Processes.v ===== *)
(** * Signals, sleeping and the environment: signals.c, msleep.c, envvars.c

    What a process knows of signals is its mask and what it does with each of
    them.  [msleep_signal] sleeps with pselect, whose answers are an argument.
    [envvars_filter] compacts the array [environ] in place. *)

From Stdlib Require Import ZifyBool.
From S2P Require Import Prelude AbstractIo SafeIo.

(** ** Signals *)

Definition NSIG : Z := 65.
Definition SIGKILL : Z := 9.
Definition SIGCHLD : Z := 17.
Definition SIGSTOP : Z := 19.

Inductive disposition : Type :=
| SIG_DFL
| SIG_IGN
| Handler (handler : Z).

Record signals : Type := mkSignals {
  mask : gset Z;
  actions : gmap Z disposition
}.

(** The arguments of a variadic function: up to the 0. *)
Fixpoint up_to_zero (args : list Z) : list Z :=
  match args with
  | [] => []
  | sig :: args => if sig =? 0 then [] else sig :: up_to_zero args
  end.

(** sigaddset and sigdelset know these numbers. *)
Definition known (sig : Z) : bool := (0 <? sig) && (sig <? NSIG).

(** The loops that make a set of the arguments, from an empty or a full one. *)
Fixpoint add_all (args : list Z) (set : gset Z) : option (gset Z) :=
  match args with
  | [] => Some set
  | sig :: args => if known sig then add_all args ({[sig]} ∪ set) else None
  end.

Fixpoint del_all (args : list Z) (set : gset Z) : option (gset Z) :=
  match args with
  | [] => Some set
  | sig :: args => if known sig then del_all args (set ∖ {[sig]}) else None
  end.

Definition every_signal : list Z := seqZ 1 (NSIG - 1).
Definition full : gset Z := list_to_set every_signal.

Inductive how : Type :=
| SIG_BLOCK
| SIG_UNBLOCK.

(** sigprocmask: SIGKILL and SIGSTOP are never blocked. *)
Definition sigprocmask (h : how) (set : gset Z) (s : signals) : signals :=
  match h with
  | SIG_BLOCK => mkSignals ((mask s ∪ set) ∖ {[SIGKILL; SIGSTOP]}) (actions s)
  | SIG_UNBLOCK => mkSignals (mask s ∖ set) (actions s)
  end.

Definition signals_do_mask_some (h : how) (args : list Z) (s : signals) : signals * Z :=
  match add_all (up_to_zero args) ∅ with
  | None => (s, -1)
  | Some set => (sigprocmask h set s, 0)
  end.

Definition signals_do_mask_except (h : how) (args : list Z) (s : signals) : signals * Z :=
  match del_all (up_to_zero args) full with
  | None => (s, -1)
  | Some set => (sigprocmask h set s, 0)
  end.

Section Signals.
(** What sigaction answers: 0 or errno. *)
Context (sigaction : Z -> Z).

Definition signals_set_handler (sig : Z) (handler : disposition) (s : signals) : signals * Z * Z :=
  if sigaction sig =? 0 then (mkSignals (mask s) (<[sig := handler]> (actions s)), 0, 0) else (s, -1, sigaction sig).

(** The loops that set the handler of each signal of a list, those that are in
    [set] apart. *)
Fixpoint set_each (handler : disposition) (set : gset Z) (sigs : list Z) (s : signals) : signals * Z :=
  match sigs with
  | [] => (s, 0)
  | sig :: sigs =>
      if bool_decide (sig ∈ set) then set_each handler set sigs s
      else
        let '(s, ret, errno) := signals_set_handler sig handler s in
        if negb (ret =? 0) && negb (errno =? EINVAL) then (s, -1) else set_each handler set sigs s
  end.

Definition signals_do_set_some (handler : disposition) (args : list Z) (s : signals) : signals * Z :=
  set_each handler ∅ (up_to_zero args) s.

Definition signals_do_set_except (handler : disposition) (args : list Z) (s : signals) : signals * Z :=
  match add_all (up_to_zero args) ∅ with
  | None => (s, -1)
  | Some set => set_each handler set every_signal s
  end.

Definition signals_ignore_all := signals_do_set_except SIG_IGN [0].
Definition signals_default_all := signals_do_set_except SIG_DFL [0].
Definition signals_unblock_all := signals_do_mask_except SIG_UNBLOCK [0].
Definition signals_block_all := signals_do_mask_except SIG_BLOCK [0].
Definition signals_block_some := signals_do_mask_some SIG_BLOCK.
Definition signals_unblock_some := signals_do_mask_some SIG_UNBLOCK.
Definition signals_ignore_some := signals_do_set_some SIG_IGN.
Definition signals_default_some := signals_do_set_some SIG_DFL.
Definition signals_block_all_except := signals_do_mask_except SIG_BLOCK.
Definition signals_unblock_all_except := signals_do_mask_except SIG_UNBLOCK.
Definition signals_ignore_all_except := signals_do_set_except SIG_IGN.
Definition signals_default_all_except := signals_do_set_except SIG_DFL.
Definition signals_block (sig : Z) := signals_block_some [sig; 0].
Definition signals_unblock (sig : Z) := signals_unblock_some [sig; 0].
Definition signals_ignore (sig : Z) := signals_set_handler sig SIG_IGN.
Definition signals_default (sig : Z) := signals_set_handler sig SIG_DFL.

Lemma add_all_spec args set : forallb known args = true -> add_all args set = Some (list_to_set args ∪ set).
Proof.
  revert set. induction args as [|sig args IH]; intros set H; cbn in *; [f_equal; set_solver|].
  apply andb_prop in H as [-> H]. rewrite IH by done. f_equal. set_solver.
Qed.

Lemma del_all_spec args set : forallb known args = true -> del_all args set = Some (set ∖ list_to_set args).
Proof.
  revert set. induction args as [|sig args IH]; intros set H; cbn in *; [f_equal; set_solver|].
  apply andb_prop in H as [-> H]. rewrite IH by done. f_equal. set_solver.
Qed.

Lemma full_known sig : sig ∈ full <-> known sig = true.
Proof. unfold full, every_signal, known. rewrite elem_of_list_to_set, elem_of_seqZ. unfold NSIG. lia. Qed.

(** Every signal is blocked that can be, but for those named that were not. *)
Theorem signals_block_all_except_mask args s : forallb known (up_to_zero args) = true ->
  (signals_block_all_except args s).2 = 0 /\
  forall sig, sig ∈ mask (signals_block_all_except args s).1 <->
    (sig ∈ mask s \/ known sig = true /\ sig ∉ up_to_zero args) /\ sig <> SIGKILL /\ sig <> SIGSTOP.
Proof.
  intros H. unfold signals_block_all_except, signals_do_mask_except. rewrite del_all_spec by done. split; [done|]. cbn.
  intros sig. pose proof (full_known sig). set_solver.
Qed.

(** Handlers are set for the signals of the list, those that sigaction does not
    take and those excepted apart. *)
Lemma set_each_spec handler set sigs s :
  (forall sig, sig ∈ sigs -> sigaction sig = 0 \/ sigaction sig = EINVAL) ->
  (set_each handler set sigs s).2 = 0 /\ mask (set_each handler set sigs s).1 = mask s /\
  forall sig, actions (set_each handler set sigs s).1 !! sig =
    if bool_decide (sig ∈ sigs /\ sig ∉ set) && (sigaction sig =? 0) then Some handler else actions s !! sig.
Proof.
  revert s. induction sigs as [|x sigs IH]; intros s Hs; cbn [set_each].
  { split_and!; [done..|]. intros sig. rewrite bool_decide_eq_false_2 by set_solver. done. }
  assert (forall s', mask s' = mask s -> (forall sig, sig <> x -> actions s' !! sig = actions s !! sig) ->
    actions s' !! x = (if bool_decide (x ∉ set) && (sigaction x =? 0) then Some handler else actions s !! x) ->
    (set_each handler set sigs s').2 = 0 /\ mask (set_each handler set sigs s').1 = mask s /\
    forall sig, actions (set_each handler set sigs s').1 !! sig =
    if bool_decide (sig ∈ x :: sigs /\ sig ∉ set) && (sigaction sig =? 0) then Some handler else actions s !! sig) as Hgo.
  { intros s' Hm Ho Hx. destruct (IH s') as (H1 & H2 & H3); [set_solver|]. split_and!; [done|congruence|].
    intros sig. rewrite H3. destruct (decide (sig = x)) as [->|Hne].
    - rewrite Hx. repeat case_bool_decide; destruct (_ =? 0); cbn; try done; set_solver.
    - rewrite Ho by done. repeat case_bool_decide; try done; set_solver. }
  destruct (bool_decide_reflect (x ∈ set)) as [Hx|Hx].
  - apply Hgo; [done..|]. by rewrite bool_decide_eq_false_2 by set_solver.
  - unfold signals_set_handler. destruct (Z.eqb_spec (sigaction x) 0) as [E|E].
    + cbn. apply Hgo; [done| |].
      * intros sig Hne. cbn. by rewrite lookup_insert_ne.
      * cbn. by rewrite lookup_insert_eq, bool_decide_eq_true_2 by done.
    + destruct (Hs x) as [?|E']; [set_solver|done|]. rewrite E'. cbn. apply Hgo; [done..|]. by rewrite andb_false_r.
Qed.

Theorem signals_default_all_actions s :
  (forall sig, known sig = true -> sigaction sig = 0 \/ sigaction sig = EINVAL) ->
  (signals_default_all s).2 = 0 /\ mask (signals_default_all s).1 = mask s /\
  forall sig, actions (signals_default_all s).1 !! sig =
    if known sig && (sigaction sig =? 0) then Some SIG_DFL else actions s !! sig.
Proof.
  intros H. unfold signals_default_all, signals_do_set_except. cbn [up_to_zero add_all]. change (0 =? 0) with true. cbn [add_all].
  assert (forall sig, sig ∈ every_signal <-> known sig = true) as He.
  { intros sig. unfold every_signal, known. rewrite elem_of_seqZ. unfold NSIG. lia. }
  destruct (set_each_spec SIG_DFL ∅ every_signal s) as (H1 & H2 & H3); [by intros sig Hk; apply H, He|].
  split_and!; [done..|]. intros sig. rewrite H3. f_equal. destruct (known sig) eqn:E.
  - rewrite bool_decide_eq_true_2; [done|]. split; [by apply He|apply not_elem_of_empty].
  - rewrite bool_decide_eq_false_2; [done|]. rewrite He. intros [? _]. congruence.
Qed.

End Signals.

(** ** Sleeping *)

(** What pselect returns (errno, or a number) and the clock behind it. *)
Definition nap : Type := (Z + Z) * Z.

Section Sleeping.
Context (deadline : Z) (alertable : bool).

(** The loop of msleep_signal: the timeouts that pselect gets, and how the loop
    is left: with a result, or with the nanoseconds that are missing. *)
Fixpoint msleep_loop (naps : list nap) (diff : Z) : option (list Z * (Z + Z)) :=
  match naps with
  | [] => None
  | (ret, now) :: naps =>
      let go_on :=
        let diff' := deadline - now in
        if diff' <=? 0 then Some ([diff], inl 0)
        else if alertable then Some ([diff], inr diff')
        else match msleep_loop naps diff' with Some (w, r) => Some (diff :: w, r) | None => None end in
      match ret with
      | inr n => if n =? 0 then Some ([diff], inl 0) else go_on
      | inl e => if negb (e =? EINTR) then Some ([diff], inl (-1)) else go_on
      end
  end.

End Sleeping.

(** [yielded]: what sched_yield returns; [start]: the first clock. *)
Definition msleep_signal (milliseconds : Z) (alertable : bool) (yielded start : Z) (naps : list nap) : option (list Z * Z) :=
  if milliseconds <=? 0 then Some ([], if negb (yielded =? 0) then -1 else 0)
  else
    let diff := milliseconds * 1000000 in
    match msleep_loop (start + diff) alertable naps diff with
    | None => None
    | Some (w, inl r) => Some (w, r)
    | Some (w, inr diff) =>
        let milliseconds := Z.quot diff 1000000 in
        Some (w, signed 32 (if negb (Z.rem diff 1000000 =? 0) then milliseconds + 1 else milliseconds))
    end.

Definition msleep_ex (milliseconds : Z) (alertable : bool) := msleep_signal milliseconds alertable.
Definition msleep (milliseconds : Z) := msleep_signal milliseconds false.

(** pselect keeps the time, and the clock does not run backwards. *)
Fixpoint timely (before diff : Z) (deadline : Z) (naps : list nap) : Prop :=
  match naps with
  | [] => True
  | (ret, now) :: naps =>
      before <= now /\ (ret = inr 0 -> before + diff <= now) /\ timely now (deadline - now) deadline naps
  end.

(** The clock behind the last nap that was taken. *)
Definition woken (start : Z) (naps : list nap) (w : list Z) : Z := List.last (map snd (take (length w) naps)) start.

Lemma msleep_loop_spec start deadline alertable naps diff w r :
  start + diff = deadline -> 0 < diff -> timely start diff deadline naps ->
  msleep_loop deadline alertable naps diff = Some (w, r) ->
  start <= woken start naps w /\
  match r with
  | inl r => r = -1 \/ (r = 0 /\ deadline <= woken start naps w)
  | inr d => alertable = true /\ d = deadline - woken start naps w /\ 0 < d
  end.
Proof.
  intros <-. revert start diff w. induction naps as [|[ret now] naps IH]; intros start diff w Hd Ht; cbn [msleep_loop]; [done|].
  destruct Ht as (H1 & H2 & H3).
  assert (forall w0, woken start ((ret, now) :: naps) (w0 :: []) = now) as Hone by (intros; unfold woken; by destruct naps).
  assert ((if start + diff - now <=? 0 then Some ([diff], inl 0)
    else if alertable then Some ([diff], inr (start + diff - now))
    else match msleep_loop (start + diff) alertable naps (start + diff - now) with Some (w, r) => Some (diff :: w, r) | None => None end) = Some (w, r) ->
    start <= woken start ((ret, now) :: naps) w /\
    match r with
    | inl r => r = -1 \/ (r = 0 /\ start + diff <= woken start ((ret, now) :: naps) w)
    | inr d => alertable = true /\ d = start + diff - woken start ((ret, now) :: naps) w /\ 0 < d
    end) as Hgo.
  { destruct (Z.leb_spec (start + diff - now) 0); [intros [= <- <-]; rewrite Hone; split; [done|right; split; [done|lia]]|].
    destruct alertable; [intros [= <- <-]; rewrite Hone; split_and!; [done|done|done|lia]|].
    destruct (msleep_loop _ _ _ _) as [[w' r']|] eqn:E; [|done]. intros [= <- <-].
    replace (start + diff) with (now + (start + diff - now)) in E, H3 by lia.
    assert (woken start ((ret, now) :: naps) (diff :: w') = woken now naps w') as ->.
    { unfold woken. cbn [length take map snd]. generalize (map snd (take (length w') naps)). clear -diff. intros l. revert start now.
      induction l as [|x l IH]; intros start now; [done|]. change (List.last (now :: x :: l) start) with (List.last (x :: l) start).
      by rewrite !IH. }
    specialize (IH now (start + diff - now) w').
    replace (now + (start + diff - now)) with (start + diff) in * by lia. destruct IH as [Ha Hb]; [lia|done|done|]. split; [lia|done]. }
  destruct ret as [e|n].
  - destruct (negb _); [intros [= <- <-]; rewrite Hone; split; [done|by left]|exact Hgo].
  - destruct (Z.eqb_spec n 0) as [->|]; [|exact Hgo]. intros [= <- <-]. rewrite Hone. split; [done|]. right. split; [done|by apply H2].
Qed.

(** No sooner than it was told: [msleep_signal] returns 0 when the time is over;
    if it is alertable it may be woken before, and returns what is missing, in
    milliseconds, rounded up; else there was an error. *)
Theorem msleep_no_sooner milliseconds alertable yielded start naps w r :
  0 < milliseconds <= INT_MAX -> timely start (milliseconds * 1000000) (start + milliseconds * 1000000) naps ->
  msleep_signal milliseconds alertable yielded start naps = Some (w, r) ->
  let missing := start + milliseconds * 1000000 - woken start naps w in
  r = -1 \/ (r = 0 /\ missing <= 0) \/
  (alertable = true /\ 0 < r <= milliseconds /\ (r - 1) * 1000000 < missing <= r * 1000000).
Proof.
  intros Hm Ht. unfold msleep_signal, INT_MAX in *. destruct (Z.leb_spec milliseconds 0); [lia|].
  destruct (msleep_loop _ _ _ _) as [[w' r']|] eqn:E; [|done].
  pose proof E as [H1 H2]%(msleep_loop_spec start); [|lia|lia|done]. destruct r' as [r'|d].
  - intros [= <- <-]. cbv zeta. destruct H2 as [->|[-> ?]]; [by left|right; left; split; [done|lia]].
  - intros [= <- <-]. cbv zeta. destruct H2 as (-> & -> & Hd). right. right. split; [done|].
    set (m := start + milliseconds * 1000000 - woken start naps w') in *.
    pose proof (Z.quot_rem m 1000000 ltac:(lia)) as Eq. pose proof (Z.rem_bound_pos m 1000000 ltac:(lia) ltac:(lia)).
    assert (0 <= Z.quot m 1000000) by (apply Z.quot_pos; lia).
    set (q := Z.quot m 1000000) in *. set (x := Z.rem m 1000000) in *.
    unfold signed. destruct (Z.eqb_spec x 0); cbn [negb]; change (2 ^ (32 - 1)) with 2147483648; rewrite Z.mod_small by (change (2 ^ 32) with 4294967296; lia);
      cbv zeta; match goal with |- context [if ?a <? ?b then _ else _] => destruct (Z.ltb_spec a b) end; lia.
Qed.

(** ** The environment *)

(** [environ]: pointers to strings, up to the first NULL. *)
Abbreviation environment := (list (option bytes)) (only parsing).

(** The loop: [p] runs through the array, kept entries go to [q]. *)
Fixpoint compact (fuel : nat) (keep : bytes -> bool) (environ : environment) (p q : nat) : option environment :=
  match fuel with
  | O => None
  | S fuel =>
      match environ !! p with
      | None => None
      | Some None => Some (<[q := None]> environ)
      | Some (Some v) =>
          if keep v then compact fuel keep (<[q := Some v]> environ) (S p) (S q) else compact fuel keep environ (S p) q
      end
  end.

Definition begins_with (prefix v : bytes) : bool := bool_decide (take (length prefix) v = prefix).

Definition envvars_filter (prefix : bytes) (environ : environment) : option environment :=
  compact (length environ) (begins_with prefix) environ 0 0.
Definition envvars_filter_out (prefix : bytes) (environ : environment) : option environment :=
  compact (length environ) (fun v => negb (begins_with prefix v)) environ 0 0.
Definition envvars_filter_exact (prefix : bytes) (environ : environment) : option environment :=
  compact (length environ) (fun v => bool_decide (prefix = v)) environ 0 0.

(** The variables that a reader of the array finds. *)
Fixpoint variables (environ : environment) : list bytes :=
  match environ with Some v :: environ => v :: variables environ | _ => [] end.

Lemma variables_app l rest : variables (map Some l ++ None :: rest) = l.
Proof. induction l as [|v l IH]; cbn; [done|by rewrite IH]. Qed.

Lemma compact_spec keep kept junk rest tail fuel :
  (length rest < fuel)%nat ->
  exists junk', compact fuel keep (map Some kept ++ junk ++ map Some rest ++ None :: tail)
    (length kept + length junk) (length kept) =
  Some (map Some (kept ++ List.filter keep rest) ++ None :: junk').
Proof.
  revert kept junk fuel. induction rest as [|v rest IH]; intros kept junk [|fuel] Hf; cbn [length] in Hf; try lia; cbn [compact].
  - exists (drop 1 (junk ++ None :: tail)). rewrite lookup_app_r by (rewrite length_map; lia). rewrite length_map.
    replace (length kept + length junk - length kept)%nat with (length junk) by lia. cbn [map app]. rewrite list_lookup_middle by done. f_equal.
    cbn [List.filter map app]. rewrite app_nil_r.
    replace (length kept) with (length (map Some kept) + 0)%nat by (rewrite length_map; lia). rewrite insert_app_r. f_equal.
    by destruct junk.
  - rewrite lookup_app_r by (rewrite length_map; lia). rewrite length_map.
    replace (length kept + length junk - length kept)%nat with (length junk) by lia. cbn [map app].
    rewrite list_lookup_middle by done. cbn [List.filter]. destruct (keep v).
    + assert (exists junk', length junk' = length junk /\
        <[length kept := Some v]> (map Some kept ++ junk ++ Some v :: map Some rest ++ None :: tail) =
        map Some (kept ++ [v]) ++ junk' ++ map Some rest ++ None :: tail) as (junk' & Hj & E).
      { replace (length kept) with (length (map (@Some bytes) kept) + 0)%nat by (rewrite length_map; lia). rewrite insert_app_r.
        rewrite map_app. cbn [map app].
        destruct junk as [|j junk]; [exists []; split; [done|by rewrite <- app_assoc]|]. exists (junk ++ [Some v]).
        split; [rewrite length_app; cbn; lia|]. cbn [app]. by rewrite <- !app_assoc. }
      rewrite E. destruct (IH (kept ++ [v]) junk' fuel ltac:(lia)) as (j2 & E2). exists j2.
      rewrite length_app, Hj in E2. cbn [length] in E2. rewrite <- app_assoc in E2. cbn [app] in E2.
      replace (S (length kept + length junk)) with (length kept + 1 + length junk)%nat by lia.
      by replace (S (length kept)) with (length kept + 1)%nat by lia.
    + destruct (IH kept (junk ++ [Some v]) fuel ltac:(lia)) as (j2 & E2). exists j2.
      rewrite length_app in E2. cbn [length] in E2. rewrite <- app_assoc in E2. cbn [app] in E2.
      by replace (S (length kept + length junk)) with (length kept + (length junk + 1))%nat by lia.
Qed.

Lemma compact_filter keep vars tail :
  exists junk, compact (length (map Some vars ++ None :: tail)) keep (map Some vars ++ None :: tail) 0 0 =
    Some (map Some (List.filter keep vars) ++ None :: junk).
Proof. apply (compact_spec keep [] [] vars tail). rewrite length_app, length_map. cbn. lia. Qed.

(** The filters leave exactly the variables that they should, in order. *)
Theorem envvars_filters prefix vars tail :
  let environ := map Some vars ++ None :: tail in
  (variables <$> envvars_filter prefix environ = Some (List.filter (begins_with prefix) vars)) /\
  (variables <$> envvars_filter_out prefix environ = Some (List.filter (fun v => negb (begins_with prefix v)) vars)) /\
  (variables <$> envvars_filter_exact prefix environ = Some (List.filter (fun v => bool_decide (prefix = v)) vars)).
Proof.
  intros environ. unfold envvars_filter, envvars_filter_out, envvars_filter_exact.
  split_and!; [destruct (compact_filter (begins_with prefix) vars tail) as (j & E)
              |destruct (compact_filter (fun v => negb (begins_with prefix v)) vars tail) as (j & E)
              |destruct (compact_filter (fun v => bool_decide (prefix = v)) vars tail) as (j & E)];
    unfold environ; rewrite E; cbn; by rewrite variables_app.
Qed.

(** envvars.h promises to keep the variable of that name; the code compares the
    name with "name=value", so that it removes them all. *)
Theorem envvars_filter_exact_removes_all key vars tail :
  "="%char ∉ key -> Forall (fun v => "="%char ∈ v) vars ->
  variables <$> envvars_filter_exact key (map Some vars ++ None :: tail) = Some [].
Proof.
  intros Hk Hv. unfold envvars_filter_exact. destruct (compact_filter (fun v => bool_decide (key = v)) vars tail) as (j & E). rewrite E.
  cbn. rewrite variables_app. f_equal. clear E. induction Hv as [|v vars Hv _ IH]; [done|]. cbn.
  rewrite bool_decide_eq_false_2; [done|]. by intros <-.
Qed.
