(* ===== verification/Programs.v ===== *)
(** * Other programs under a time limit: system.c

    A call forks, and the same code runs on in the parent and in the child: the
    answer of fork is an argument, and so is whatever else the system answers,
    one record per turn of a loop.  A function gives what it asked of the
    system, in order, and how it ended. *)

From Stdlib Require Import ZifyBool.
From S2P Require Import Prelude AbstractIo SafeIo Processes.

Definition ESRCH : Z := 3.
Definition ENOMEM : Z := 12.
Definition EACCES : Z := 13.
Definition SIGCONT : Z := 18.
Definition WNOHANG : Z := 1.
Definition EXIT_SUCCESS : Z := 0.
Definition EXIT_FAILURE : Z := 1.

(** What is asked of the system. *)
Inductive request : Type :=
| System (string : option bytes)
| Fork
| Setpgid
| Execve (argv : list bytes)
| Waitpid (pid options : Z)
| Killpg (pid sig : Z)
| Msleep (milliseconds : Z)
| Default (sig : Z)
| Malloc
| Free
| Open (fd : Z)
| Cloexec (fd : Z)
| Dup2 (from to : Z)
| Write (fd : Z) (data : bytes)
| Read (fd : Z)
| Close (fd : Z).

#[export] Instance request_eq_dec : EqDecision request.
Proof. solve_decision. Defined.

(** A function returns, a process exits, or becomes the shell. *)
Inductive ending : Type :=
| Returned (value errno : Z)
| Exited (code : Z)
| Became.

Definition sh (string : bytes) : list bytes := [B "sh"; B "-c"; string].

(** safe_close: nothing but an error for a negative descriptor. *)
Definition close (fd : Z) : list request := if fd <? 0 then [] else [Close fd].

(** An error of the system is [inl errno].  get_monotonic_timestamp fails only
    if clock_gettime does. *)
Definition get_deadline (timeout : Z) (now : Z + Z) : Z + Z :=
  match now with inl e => inl e | inr now => inr (now + timeout * 1000000) end.

(** What one turn sees: waitpid (errno, or the child, 0 if there is none yet,
    with its status; with child 0 the status is what the variable held), the
    clock, and both answers of killpg (0 or errno). *)
Record watch : Type := mkWatch {
  reaped : Z + Z * Z;
  now : Z + Z;
  kill : Z;
  cont : Z
}.

(** One turn of the loop, up to its end or to the return. *)
Definition wait_turn (pid options deadline : Z) (r : watch) : list request * option (Z * Z) :=
  let w := [Waitpid pid (Z.lor options WNOHANG)] in
  match reaped r with
  | inl e => (w, Some (-1, e))
  | inr (child, ret) =>
      if child =? pid then (w, Some (ret, 0))
      else if negb (child =? 0) then (w, Some (-1, EACCES))
      else
        match now r with
        | inl e => (w, Some (-1, e))
        | inr now =>
            if now <? deadline then (w ++ [Msleep 100], None)
            else
              let w := w ++ [Killpg pid SIGKILL] in
              if negb (kill r =? 0) then
                if kill r =? ESRCH then (w ++ [Msleep 10], None) else (w, Some (-1, kill r))
              else
                let w := w ++ [Killpg pid SIGCONT] in
                if negb (cont r =? 0) then
                  if cont r =? ESRCH then (w ++ [Msleep 10], None) else (w, Some (-1, cont r))
                else (w ++ [Msleep 10], None)
        end
  end.

(** The value and errno; nothing while the turns given are not enough. *)
Fixpoint wait_for_child_or_kill (rs : list watch) (pid options deadline : Z) : option (list request * (Z * Z)) :=
  match rs with
  | [] => None
  | r :: rs =>
      match wait_turn pid options deadline r with
      | (w, Some ret) => Some (w, ret)
      | (w, None) =>
          match wait_for_child_or_kill rs pid options deadline with
          | Some (ws, ret) => Some (w ++ ws, ret)
          | None => None
          end
      end
  end.

Definition returned (x : option (list request * (Z * Z))) : option (list request * ending) :=
  match x with Some (w, (ret, e)) => Some (w, Returned ret e) | None => None end.

Definition before (w : list request) (x : option (list request * ending)) : option (list request * ending) :=
  match x with Some (ws, e) => Some (w ++ ws, e) | None => None end.

(** execve returns only if it fails. *)
Definition exec (string : bytes) (execve : bool) : list request * ending :=
  ([Execve (sh string)], if execve then Became else Exited 127).

(** [system]: value and errno of system(3); [setpgid], [execve]: they succeed. *)
Definition system_timed (string : option bytes) (timeout : Z) (system : Z * Z) (start fork : Z + Z)
    (setpgid execve : bool) (rs : list watch) : option (list request * ending) :=
  if timeout <? 0 then Some ([System string], Returned system.1 system.2)
  else
    match string with
    | None => Some ([], Returned 1 0)
    | Some string =>
        match get_deadline timeout start with
        | inl e => Some ([], Returned (-1) e)
        | inr deadline =>
            match fork with
            | inl e => Some ([Fork], Returned (-1) e)
            | inr pid =>
                if pid =? 0 then
                  if negb setpgid then Some ([Fork; Setpgid], Exited 127)
                  else Some ([Fork; Setpgid] ++ (exec string execve).1, (exec string execve).2)
                else before [Fork] (returned (wait_for_child_or_kill rs pid 0 deadline))
            end
        end
    end.

(** ** Without killing *)

(** The bytes of an int in memory, and back. *)
Definition int_bytes (z : Z) : bytes := map chr [z; z / 2 ^ 8; z / 2 ^ 16; z / 2 ^ 24].
Definition int_of (b : bytes) : Z :=
  signed 32 (foldr (fun c z => code c + 256 * z) 0 b).

(** [written]: what safe_write returned. *)
Definition system_timed_report (fd ret written : Z) : list request * ending :=
  (Write fd (int_bytes ret) :: close fd, Exited (if negb (written =? 4) then EXIT_FAILURE else EXIT_SUCCESS)).

(** The loop of the process in between. *)
Definition nokill_turn (fd pid deadline written : Z) (r : watch) : list request * option ending :=
  let w := [Waitpid pid WNOHANG] in
  let report ret := let '(ws, e) := system_timed_report fd ret written in (w ++ ws, Some e) in
  match reaped r with
  | inl e => report (- e)
  | inr (child, ret) =>
      if child =? pid then report ret
      else if negb (child =? 0) then report (- EACCES)
      else
        match now r with
        | inl _ => report (- EACCES)
        | inr now => if now <? deadline then (w ++ [Msleep 100], None) else report (- ETIMEDOUT)
        end
  end.

Fixpoint nokill_turns (rs : list watch) (fd pid deadline written : Z) : option (list request * ending) :=
  match rs with
  | [] => None
  | r :: rs =>
      match nokill_turn fd pid deadline written r with
      | (w, Some e) => Some (w, e)
      | (w, None) => before w (nokill_turns rs fd pid deadline written)
      end
  end.

(** The process in between, and its child ([fork] 0). *)
Definition nokill_between (string : bytes) (fd : Z * Z) (deadline : Z) (fork : Z + Z) (execve : bool) (written : Z)
    (rs : list watch) : option (list request * ending) :=
  before (Default SIGCHLD :: close fd.1 ++ [Fork])
    match fork with
    | inl e => Some (system_timed_report fd.2 (- e) written)
    | inr pid =>
        if pid =? 0 then Some (exec string execve) else nokill_turns rs fd.2 pid deadline written
    end.

(** The calling process: waitpid (errno, or the status of its child, whose
    process id is [pid]), then safe_read (errno, or the bytes read). *)
Definition nokill_parent (fd : Z * Z) (pid : Z) (waited : Z + Z) (read : Z + bytes) : list request * ending :=
  let w := close fd.2 ++ [Waitpid pid 0] in
  match waited with
  | inl e => (w ++ close fd.1, Returned (-1) e)
  | inr status =>
      if negb (status =? EXIT_SUCCESS) then (w ++ close fd.1, Returned (-1) EACCES)
      else
        let w := w ++ [Read fd.1] in
        match read with
        | inl e => (w ++ close fd.1, Returned (-1) e)
        | inr b =>
            if negb (zlen b =? 4) then (w ++ close fd.1, Returned (-1) EACCES)
            else
              let ret := int_of b in
              (w ++ close fd.1, if ret <? 0 then Returned (-1) (- ret) else Returned ret 0)
        end
  end.

(** What the system answers to [system_timed_nokill]; the fields behind
    [fork] are for the calling process, those behind [fork2] for the one in
    between and its child. *)
Record nokill_answers : Type := mkNokill {
  n_system : Z * Z;
  n_start : Z + Z;
  n_pipe : Z + Z * Z;
  n_getfd : Z + Z;
  n_setfd : Z;
  n_fork : Z + Z;
  n_waited : Z + Z;
  n_read : Z + bytes;
  n_fork2 : Z + Z;
  n_execve : bool;
  n_written : Z;
  n_watches : list watch
}.

Definition system_timed_nokill (string : option bytes) (timeout : Z) (a : nokill_answers) : option (list request * ending) :=
  if timeout <? 0 then Some ([System string], Returned (n_system a).1 (n_system a).2)
  else
    match string with
    | None => Some ([], Returned 1 0)
    | Some string =>
        match get_deadline timeout (n_start a) with
        | inl e => Some ([], Returned (-1) e)
        | inr deadline =>
            match n_pipe a with
            | inl e => Some ([], Returned (-1) e)
            | inr fd =>
                let w := [Open fd.1; Open fd.2] in
                let failed w e := Some (w ++ close fd.1 ++ close fd.2, Returned (-1) e) in
                match n_getfd a with
                | inl e => failed w e
                | inr _ =>
                    let w := w ++ [Cloexec fd.2] in
                    if negb (n_setfd a =? 0) then failed w (n_setfd a)
                    else
                      let w := w ++ [Fork] in
                      match n_fork a with
                      | inl e => failed w e
                      | inr pid =>
                          before w
                            (if negb (pid =? 0) then Some (nokill_parent fd pid (n_waited a) (n_read a))
                             else nokill_between string fd deadline (n_fork2 a) (n_execve a) (n_written a) (n_watches a))
                      end
                end
            end
        end
    end.

(** ** A program at the other end of a socket *)

Record popen_t : Type := mkPopen {
  sockfd : Z;
  ppid : Z
}.

(** The handle is what *handle is set to; [memory]: malloc succeeds. *)
Definition popen_timed (string : option bytes) (handle memory : bool) (sv : Z + Z * Z) (fork : Z + Z)
    (setpgid execve : bool) : list request * ending * option popen_t :=
  match string with
  | None | Some [] => ([], Returned (-1) EINVAL, None)
  | Some string =>
      if negb handle then ([], Returned (-1) EINVAL, None)
      else if negb memory then ([], Returned (-1) ENOMEM, None)
      else
        match sv with
        | inl e => ([Malloc; Free], Returned (-1) e, None)
        | inr sv =>
            let w := [Malloc; Open sv.1; Open sv.2; Fork] in
            match fork with
            | inl e => (w ++ close sv.2 ++ close sv.1 ++ [Free], Returned (-1) e, None)
            | inr pid =>
                if negb (pid =? 0) then (w ++ close sv.2, Returned sv.1 0, Some (mkPopen sv.1 pid))
                else
                  let w := w ++ [Setpgid] in
                  if negb setpgid then (w, Exited 127, None)
                  else
                    (w ++ close sv.1 ++ [Dup2 sv.2 0; Dup2 sv.2 1; Dup2 sv.2 2] ++
                       (if 2 <? sv.2 then close sv.2 else []) ++ (exec string execve).1,
                     (exec string execve).2, None)
            end
        end
  end.

(** [waited]: waitpid, for a call without a limit. *)
Definition pclose_timed (handle : option popen_t) (timeout : Z) (start : Z + Z) (waited : Z + Z * Z) (rs : list watch)
    : option (list request * ending) :=
  match handle with
  | None => Some ([], Returned (-1) EINVAL)
  | Some h =>
      let w := close (sockfd h) ++ [Free] in
      let pid := ppid h in
      if pid <=? 1 then Some (w, Returned (-1) EINVAL)
      else if timeout <? 0 then
        let w := w ++ [Waitpid pid 0] in
        match waited with
        | inl e => Some (w, Returned (-1) e)
        | inr (child, _) => if negb (child =? pid) then Some (w, Returned (-1) 0) else Some (w, Returned 0 0)
        end
      else
        match get_deadline timeout start with
        | inl e => Some (w, Returned (-1) e)
        | inr deadline => before w (returned (wait_for_child_or_kill rs pid 0 deadline))
        end
  end.

(** What goes to *status comes third, if the caller gave a place for it. *)
Definition waitpid_timed (pid : Z) (status : bool) (options timeout : Z) (start : Z + Z) (waited : Z + Z * Z)
    (rs : list watch) : option (list request * ending * option Z) :=
  if timeout <? 0 then
    match waited with
    | inl e => Some ([Waitpid pid options], Returned (-1) e, None)
    | inr (child, st) =>
        Some ([Waitpid pid options], Returned child 0, if status && negb (child =? 0) then Some st else None)
    end
  else
    match get_deadline timeout start with
    | inl e => Some ([], Returned (-1) e, None)
    | inr deadline =>
        match wait_for_child_or_kill rs pid options deadline with
        | None => None
        | Some (w, (ret, e)) =>
            if ret <? 0 then Some (w, Returned (-1) e, None)
            else Some (w, Returned pid 0, if status then Some ret else None)
        end
    end.

(** ** The child is waited for, then killed *)

(** What a turn does, in one sight: it ends with an answer of waitpid or an
    error; it sleeps before the deadline; behind it, it kills. *)
Lemma wait_turn_cases pid options deadline r w o :
  wait_turn pid options deadline r = (w, o) ->
  (forall p sig, Killpg p sig ∈ w ->
     p = pid /\ (sig = SIGKILL \/ sig = SIGCONT) /\
     (exists st, reaped r = inr (0, st)) /\ exists t, now r = inr t /\ deadline <= t) /\
  match o with
  | Some (ret, e) => (exists st, reaped r = inr (pid, st) /\ (ret, e) = (st, 0)) \/ ret = -1
  | None => exists st, reaped r = inr (0, st) /\ exists t, now r = inr t /\
      (deadline <= t -> Killpg pid SIGKILL ∈ w)
  end.
Proof.
  unfold wait_turn. cbv zeta. destruct (reaped r) as [e|[child st]].
  { intros [= <- <-]. split; [intros p sig H; set_solver|by right]. }
  destruct (Z.eqb_spec child pid) as [->|].
  { intros [= <- <-]. split; [intros p sig H; set_solver|left; by exists st]. }
  destruct (Z.eqb_spec child 0) as [->|]; cbn [negb].
  2: { intros [= <- <-]. split; [intros p sig H; set_solver|by right]. }
  destruct (now r) as [e|t].
  { intros [= <- <-]. split; [intros p sig H; set_solver|by right]. }
  destruct (Z.ltb_spec t deadline).
  { intros [= <- <-]. split; [intros p sig H'; set_solver|]. exists st. split; [done|]. exists t. split; [done|lia]. }
  repeat match goal with |- context [if ?b then _ else _] => destruct b end; intros [= <- <-];
    (split; [intros p sig Hin; repeat rewrite elem_of_app in Hin; split_and!; set_solver|]); try (by right);
    exists st; (split; [done|]); exists t; (split; [done|]); intros _; set_solver.
Qed.

(** Only [pid] is killed, only when a turn found it neither over nor in time;
    the value is the status that waitpid gave for [pid], or -1. *)
Lemma wait_sound rs pid options deadline w ret e :
  wait_for_child_or_kill rs pid options deadline = Some (w, (ret, e)) ->
  (forall p sig, Killpg p sig ∈ w -> p = pid /\ (sig = SIGKILL \/ sig = SIGCONT) /\
     exists r t, r ∈ rs /\ now r = inr t /\ deadline <= t) /\
  ((exists r, r ∈ rs /\ reaped r = inr (pid, ret) /\ e = 0) \/ ret = -1).
Proof.
  revert w. induction rs as [|r rs IH]; intros w; cbn [wait_for_child_or_kill]; [done|].
  destruct (wait_turn pid options deadline r) as [w0 o] eqn:E. apply wait_turn_cases in E as [Hk Ho].
  assert (forall p sig, Killpg p sig ∈ w0 -> p = pid /\ (sig = SIGKILL \/ sig = SIGCONT) /\
     exists r' t, r' ∈ r :: rs /\ now r' = inr t /\ deadline <= t) as Hk0.
  { intros p sig (? & ? & _ & t & ? & ?)%Hk. split_and!; [done..|]. exists r, t. split_and!; [left|done..]. }
  destruct o as [[ret0 e0]|].
  - intros [= <- <- <-]. split; [done|]. destruct Ho as [(st & Hr & [= -> ->])| ->]; [|by right].
    left. exists r. split_and!; [left|done..].
  - destruct (wait_for_child_or_kill _ _ _ _) as [[ws [ret' e']]|]; [|done]. intros [= <- <- <-].
    destruct (IH ws eq_refl) as [IH1 IH2]. split.
    + intros p sig [H|H]%elem_of_app; [by apply Hk0|]. destruct (IH1 _ _ H) as (? & ? & r' & t & ? & ? & ?).
      split_and!; [done..|]. exists r', t. split_and!; [by right|done..].
    + destruct IH2 as [(r' & ? & ? & ?)| ->]; [|by right]. left. exists r'. split_and!; [by right|done..].
Qed.

(** The clock goes on at least as long as the turns sleep. *)
Fixpoint paced (deadline t : Z) (rs : list watch) : Prop :=
  match rs with
  | [] => True
  | r :: rs => exists t', now r = inr t' /\ t <= t' /\
      paced deadline (if t' <? deadline then t' + 100000000 else t' + 10000000) rs
  end.

(** Whoever is killed is no longer "not over yet" at the next look. *)
Fixpoint mortal (deadline : Z) (rs : list watch) : Prop :=
  match rs with
  | [] => True
  | r :: rest =>
      match rest with
      | [] => True
      | r' :: _ => forall t, now r = inr t -> deadline <= t -> kill r = 0 -> cont r = 0 -> forall st, reaped r' <> inr (0, st)
      end /\ mortal deadline rest
  end.

Definition killable (r : watch) : Prop := kill r = 0 /\ cont r = 0.

(** With [left] the number of naps of 100 ms that fit before the deadline, two
    more turns are enough. *)
Lemma wait_ends rs pid options deadline t (naps : nat) :
  paced deadline t rs -> mortal deadline rs -> Forall killable rs ->
  deadline - t <= Z.of_nat naps * 100000000 -> (naps + 2 <= length rs)%nat ->
  exists w ret, wait_for_child_or_kill rs pid options deadline = Some (w, ret).
Proof.
  revert t naps. induction rs as [|r rs IH]; intros t naps Hp Hm Hk Hd Hl; cbn [length] in Hl; [lia|].
  cbn [wait_for_child_or_kill]. destruct (wait_turn pid options deadline r) as [w o] eqn:E.
  destruct o as [ret|]; [by eexists _, _|].
  destruct (wait_turn_cases _ _ _ _ _ _ E) as [_ (st & Hr & t' & Ht & _)].
  destruct Hp as (t'' & Ht' & Hle & Hp). rewrite Ht in Ht'. injection Ht' as <-. apply Forall_cons in Hk as [[Hk1 Hk2] Hk'].
  pose proof (proj2 Hm) as Hm'.
  destruct (Z.ltb_spec t' deadline) as [Hlt|Hge].
  - destruct naps as [|naps]; [lia|].
    destruct (IH (t' + 100000000) naps) as (w' & ret & ->); [done..|lia|lia|]. by eexists _, _.
  - destruct rs as [|r' rs']; [cbn [length] in Hl; lia|].
    destruct (wait_turn pid options deadline r') as [w' o'] eqn:E'. cbn [wait_for_child_or_kill]. rewrite E'.
    destruct o' as [ret|]; [by eexists _, _|].
    destruct (wait_turn_cases _ _ _ _ _ _ E') as [_ (st' & Hr' & _)]. by destruct (proj1 Hm t' Ht Hge Hk1 Hk2 st').
Qed.

(** C35: A program started by [system_timed] is not killed before its time is
    over, nobody else is killed, and a result that is not negative is the status
    with which it ended; the call comes back no later than two looks behind the
    last nap of 100 milliseconds before the deadline, if time passes and SIGKILL
    kills. *)
Theorem system_timed_ends string timeout system start pid setpgid execve rs :
  0 <= timeout -> 0 < pid ->
  (forall w ret e, system_timed (Some string) timeout system (inr start) (inr pid) setpgid execve rs = Some (w, Returned ret e) ->
     (forall p sig, Killpg p sig ∈ w -> p = pid /\
        exists r t, r ∈ rs /\ now r = inr t /\ start + timeout * 1000000 <= t) /\
     (0 <= ret -> exists r, r ∈ rs /\ reaped r = inr (pid, ret))) /\
  (paced (start + timeout * 1000000) start rs -> mortal (start + timeout * 1000000) rs -> Forall killable rs ->
   timeout <= 100 * (zlen rs - 2) ->
   exists w ret e, system_timed (Some string) timeout system (inr start) (inr pid) setpgid execve rs = Some (w, Returned ret e)).
Proof.
  intros Ht Hpid. unfold system_timed, get_deadline.
  replace (timeout <? 0) with false by lia. replace (pid =? 0) with false by lia. split.
  - intros w ret e. destruct (wait_for_child_or_kill _ _ _ _) as [[w' [ret' e']]|] eqn:E; [|done]. intros [= <- <- <-].
    apply wait_sound in E as [H1 H2]. split.
    + intros p sig [H|H]%elem_of_cons; [done|]. by destruct (H1 _ _ H) as (? & _ & ?).
    + intros Hr. destruct H2 as [(r & ? & ? & _)| ->]; [by exists r|lia].
  - intros Hp Hm Hk Hl. unfold zlen in Hl.
    destruct (wait_ends rs pid 0 _ start (length rs - 2) Hp Hm Hk) as (w & [ret e] & ->); [lia|lia|]. by eexists _, _, _.
Qed.

(** A program that sleeps through its two hundred milliseconds. *)
Definition demo_watch (child status t : Z) : watch := mkWatch (inr (child, status)) (inr t) 0 0.
Definition demo_watches : list watch :=
  [demo_watch 0 0 1000; demo_watch 0 0 100001000; demo_watch 0 0 200001000; demo_watch 77 9 210001000].

Lemma system_timed_ends_witness :
  system_timed (Some (B "sleep 9")) 200 (0, 0) (inr 1000) (inr 77) true true demo_watches =
    Some ([Fork; Waitpid 77 1; Msleep 100; Waitpid 77 1; Msleep 100; Waitpid 77 1; Killpg 77 9; Killpg 77 18; Msleep 10;
           Waitpid 77 1], Returned 9 0) /\
  exists w ret e, system_timed (Some (B "sleep 9")) 200 (0, 0) (inr 1000) (inr 77) true true demo_watches = Some (w, Returned ret e).
Proof.
  split; [vm_compute; reflexivity|].
  apply (proj2 (system_timed_ends (B "sleep 9") 200 (0, 0) 1000 77 true true demo_watches ltac:(lia) ltac:(lia))).
  - cbn. repeat (eexists; split; [reflexivity|split; [vm_compute; discriminate|]]). exact I.
  - cbn. repeat split; intros t [= <-]; intros; try lia; discriminate.
  - repeat constructor.
  - vm_compute. discriminate.
Defined.

(** ** The program that is left alone *)

Lemma int_bytes_of z : INT_MIN <= z <= INT_MAX -> int_of (int_bytes z) = z.
Proof.
  intros H. unfold int_of, int_bytes, INT_MIN, INT_MAX in *. cbn [map foldr]. rewrite !code_chr.
  assert (z mod 256 + 256 * ((z / 2 ^ 8) mod 256 + 256 * ((z / 2 ^ 16) mod 256 + 256 * ((z / 2 ^ 24) mod 256 + 256 * 0))) = z mod 2 ^ 32) as ->.
  { change (2 ^ 8) with 256. change (2 ^ 16) with (256 * 256). change (2 ^ 24) with (256 * (256 * 256)).
    change (2 ^ 32) with (256 * (256 * (256 * 256))). rewrite <- !Z.div_div by lia.
    rewrite !(Z.rem_mul_r z), !(Z.rem_mul_r (z / 256)), !(Z.rem_mul_r (z / 256 / 256)) by lia. lia. }
  unfold signed. cbv zeta. rewrite Z.mod_mod by done. change (2 ^ (32 - 1)) with 2147483648. change (2 ^ 32) with 4294967296.
  destruct (Z.ltb_spec (z mod 4294967296) 2147483648); Z.div_mod_to_equations; lia.
Qed.

(** The same call in the process in between, and in the caller when that one has
    exited with [code] and [data] came through the pipe. *)
Definition as_between (a : nokill_answers) : nokill_answers :=
  mkNokill (n_system a) (n_start a) (n_pipe a) (n_getfd a) (n_setfd a) (inr 0) (n_waited a) (n_read a) (n_fork2 a)
    (n_execve a) (n_written a) (n_watches a).
Definition as_caller (code : Z) (data : bytes) (a : nokill_answers) : nokill_answers :=
  mkNokill (n_system a) (n_start a) (n_pipe a) (n_getfd a) (n_setfd a) (n_fork a) (inr (code * 256)) (inr data) (n_fork2 a)
    (n_execve a) (n_written a) (n_watches a).

Definition sent (fd : Z) (w : list request) : bytes :=
  concat (omap (fun q => match q with Write fd' data => if fd' =? fd then Some data else None | _ => None end) w).

(** What the process in between does, and what the caller gets. *)
Definition nokill_run (string : option bytes) (timeout : Z) (a : nokill_answers) (wfd : Z) : option (list request * ending) :=
  match system_timed_nokill string timeout (as_between a) with
  | Some (w, Exited code) =>
      match system_timed_nokill string timeout (as_caller code (sent wfd w) a) with
      | Some (_, e) => Some (w, e)
      | None => None
      end
  | _ => None
  end.

Lemma sent_app fd w1 w2 : sent fd (w1 ++ w2) = sent fd w1 ++ sent fd w2.
Proof. unfold sent. by rewrite omap_app, concat_app. Qed.

Lemma sent_close fd fd' : sent fd (close fd') = [].
Proof. unfold close. by destruct (_ <? _). Qed.

(** What a turn reports, if it does. *)
Definition reported (child deadline : Z) (rs : list watch) (v : Z) : Prop :=
  (exists r, r ∈ rs /\ reaped r = inr (child, v)) \/
  (v = - ETIMEDOUT /\ exists r t, r ∈ rs /\ now r = inr t /\ deadline <= t).

(** The system answers: the child is there, its status is one of a process, and
    the clock works. *)
Definition plain (child : Z) (r : watch) : Prop :=
  (exists c st, reaped r = inr (c, st) /\ (c = 0 \/ c = child) /\ 0 <= st <= 65535) /\ exists t, now r = inr t.

Lemma nokill_turn_cases fd child deadline r w o :
  0 <= fd -> plain child r -> nokill_turn fd child deadline 4 r = (w, o) ->
  (forall p sig, Killpg p sig ∉ w) /\
  match o with
  | Some e => e = Exited EXIT_SUCCESS /\ exists v, reported child deadline [r] v /\ - ETIMEDOUT <= v <= 65535 /\ sent fd w = int_bytes v
  | None => sent fd w = [] /\ exists t, now r = inr t /\ t < deadline
  end.
Proof.
  intros Hfd [(c & st & Hr & Hc & Hst) (t & Ht)]. unfold nokill_turn. cbv zeta. rewrite Hr, Ht. unfold system_timed_report, ETIMEDOUT.
  change (4 =? 4) with true. cbn [negb].
  assert (forall ret, (forall p sig, Killpg p sig ∉ [Waitpid child WNOHANG] ++ Write fd (int_bytes ret) :: close fd) /\
    sent fd ([Waitpid child WNOHANG] ++ Write fd (int_bytes ret) :: close fd) = int_bytes ret) as Hw.
  { intros ret. unfold close. replace (fd <? 0) with false by lia. split; [intros p sig H; set_solver|].
    unfold sent. cbn [app omap list_omap]. rewrite Z.eqb_refl. cbn [concat]. by rewrite app_nil_r. }
  destruct (Z.eqb_spec c child) as [->|].
  { intros [= <- <-]. destruct (Hw st) as [? Hs]. split; [done|]. split; [done|]. exists st. split_and!; [|lia..|done].
    left. exists r. split; [left|done]. }
  destruct Hc as [->|]; [|done]. cbn [negb Z.eqb]. destruct (Z.ltb_spec t deadline).
  { intros [= <- <-]. split; [intros p sig H'; set_solver|]. split; [done|]. by exists t. }
  intros [= <- <-]. destruct (Hw (-110)) as [? Hs]. split; [done|]. split; [done|]. exists (-110). split_and!; [|lia..|done].
  right. split; [done|]. exists r, t. split_and!; [left|done..].
Qed.

Lemma nokill_turns_cases rs fd child deadline w e :
  0 <= fd -> Forall (plain child) rs -> nokill_turns rs fd child deadline 4 = Some (w, e) ->
  (forall p sig, Killpg p sig ∉ w) /\
  e = Exited EXIT_SUCCESS /\ exists v, reported child deadline rs v /\ - ETIMEDOUT <= v <= 65535 /\ sent fd w = int_bytes v.
Proof.
  intros Hfd Hp. revert w. induction Hp as [|r rs Hr Hp IH]; intros w; cbn [nokill_turns]; [done|].
  destruct (nokill_turn fd child deadline 4 r) as [w0 o] eqn:E.
  destruct (nokill_turn_cases _ _ _ _ _ _ Hfd Hr E) as [Hk Ho]. destruct o as [e0|].
  - intros [= <- <-]. split; [done|]. destruct Ho as (-> & v & Hv & Hb & Hs). split; [done|]. exists v. split_and!; [|lia..|done].
    destruct Hv as [(r' & ?%list_elem_of_singleton & ?)|(? & r' & t & ?%list_elem_of_singleton & ?)]; subst.
    + left. exists r. split; [left|done].
    + right. split; [done|]. exists r, t. split; [left|done].
  - destruct (nokill_turns rs fd child deadline 4) as [[ws e']|]; [|done]. cbn [before]. intros [= <- <-].
    destruct (IH ws eq_refl) as (IH1 & -> & v & Hv & Hb & Hs). destruct Ho as [Hn _]. split_and!; [|done|].
    + intros p sig [H|H]%elem_of_app; [by destruct (Hk p sig)|by destruct (IH1 p sig)].
    + exists v. split_and!; [|lia..|by rewrite sent_app, Hn]. destruct Hv as [(r' & ? & ?)|(? & r' & t & ? & ?)].
      * left. exists r'. split; [by right|done].
      * right. split; [done|]. exists r', t. split; [by right|done].
Qed.

Lemma nokill_turns_end rs fd child deadline t (naps : nat) :
  paced deadline t rs -> 0 <= fd -> Forall (plain child) rs ->
  deadline - t <= Z.of_nat naps * 100000000 -> (naps < length rs)%nat ->
  exists w e, nokill_turns rs fd child deadline 4 = Some (w, e).
Proof.
  intros Hp Hfd Hc. revert t naps Hp. induction Hc as [|r rs Hr Hc IH]; intros t naps Hp Hd Hl; cbn [length] in Hl; [lia|].
  cbn [nokill_turns]. destruct (nokill_turn fd child deadline 4 r) as [w o] eqn:E.
  destruct (nokill_turn_cases _ _ _ _ _ _ Hfd Hr E) as [_ Ho]. destruct o as [e|]; [by eexists _, _|].
  destruct Ho as (_ & t' & Ht & Hlt). destruct Hp as (t'' & Ht' & Hle & Hp). rewrite Ht in Ht'. injection Ht' as <-.
  replace (t' <? deadline) with true in Hp by lia. destruct naps as [|naps]; [lia|].
  destruct (IH (t' + 100000000) naps) as (w' & e & ->); [done|lia|lia|]. by eexists _, _.
Qed.

(** C36: [system_timed_nokill]: through a process in between and a pipe the
    caller gets the status of the program if it has ended in time, and ETIMEDOUT
    only if a look found the time over; nobody is killed, and an answer comes
    within one look behind the last nap of 100 milliseconds before the
    deadline. *)
Theorem system_timed_nokill_result string timeout a start rfd wfd flags pid child :
  0 <= timeout -> n_start a = inr start -> n_pipe a = inr (rfd, wfd) -> 0 <= rfd -> 0 <= wfd ->
  n_getfd a = inr flags -> n_setfd a = 0 -> n_fork a = inr pid -> pid <> 0 -> n_fork2 a = inr child -> 0 < child ->
  n_written a = 4 -> Forall (plain child) (n_watches a) ->
  let deadline := start + timeout * 1000000 in
  (forall w e, nokill_run (Some string) timeout a wfd = Some (w, e) ->
     (forall p sig, Killpg p sig ∉ w) /\
     ((exists r st, r ∈ n_watches a /\ reaped r = inr (child, st) /\ e = Returned st 0) \/
      (e = Returned (-1) ETIMEDOUT /\ exists r t, r ∈ n_watches a /\ now r = inr t /\ deadline <= t))) /\
  (paced deadline start (n_watches a) -> timeout <= 100 * (zlen (n_watches a) - 1) ->
   exists w e, nokill_run (Some string) timeout a wfd = Some (w, e)).
Proof.
  intros Ht Hs Hp Hr Hw Hg Hset Hf Hpid Hf2 Hc Hwr Hpl deadline.
  unfold nokill_run, system_timed_nokill. replace (timeout <? 0) with false by lia.
  cbn [n_start n_pipe n_getfd n_setfd n_fork n_fork2 n_waited n_read n_written n_watches as_between as_caller].
  rewrite Hs, Hp, Hg, Hset, Hf, Hf2, Hwr. cbn [get_deadline negb Z.eqb fst snd]. fold deadline.
  unfold nokill_between. replace (child =? 0) with false by lia. replace (pid =? 0) with false by lia. cbn [negb].
  assert (forall fd w, sent fd ([Open rfd; Open wfd; Cloexec wfd; Fork] ++ (Default SIGCHLD :: close rfd ++ [Fork]) ++ w) = sent fd w) as Hsent.
  { intros fd w. rewrite !sent_app. rewrite app_comm_cons. change (Default SIGCHLD :: close rfd) with ([Default SIGCHLD] ++ close rfd). rewrite !sent_app, sent_close. done. }
  destruct (nokill_turns (n_watches a) wfd child deadline 4) as [[w0 e0]|] eqn:E; cbn [before app fst snd].
  - destruct (nokill_turns_cases _ _ _ _ _ _ Hw Hpl E) as (Hk & -> & v & Hv & Hb & Hs0).
    rewrite E. cbn [before app fst snd]. specialize (Hsent wfd w0). cbn [app] in Hsent. rewrite Hsent, Hs0. unfold nokill_parent. cbn [fst snd].
    change (EXIT_SUCCESS * 256 =? EXIT_SUCCESS) with true. cbn [negb]. change (zlen (int_bytes v)) with 4. change (4 =? 4) with true. cbn [negb].
    rewrite int_bytes_of by (unfold INT_MIN, INT_MAX, ETIMEDOUT in *; lia). cbn [before].
    split; [|by eexists _, _]. intros w e [= <- <-]. split.
    + intros p sig H. unfold close in H. destruct (rfd <? 0); specialize (Hk p sig); set_solver.
    + destruct Hv as [(r & Hr' & Hre)|(-> & r & t & Hr' & Hn & Hl)].
      * left. exists r, v. split_and!; [done..|]. destruct (Z.ltb_spec v 0); [|done].
        pose proof (proj1 (Forall_forall _ _) Hpl r Hr') as [(c & st & Hx & _ & ?) _]. rewrite Hre in Hx. injection Hx as <- <-. lia.
      * right. split; [done|]. by exists r, t.
  - rewrite E; cbn [before app]. split; [done|]. intros Hpa Hl. exfalso. unfold zlen in Hl.
    destruct (nokill_turns_end (n_watches a) wfd child deadline start (length (n_watches a) - 1) Hpa Hw Hpl) as (w & e & H); [lia|lia|].
    rewrite E in H. discriminate.
Qed.

Definition demo_nokill (rs : list watch) : nokill_answers :=
  mkNokill (0, 0) (inr 1000) (inr (5, 6)) (inr 0) 0 (inr 76) (inr 0) (inr []) (inr 77) true 4 rs.

Lemma system_timed_nokill_result_witness :
  option_map snd (nokill_run (Some (B "sleep 9")) 200 (demo_nokill demo_watches) 6) = Some (Returned (-1) ETIMEDOUT) /\
  option_map snd (nokill_run (Some (B "false")) 200 (demo_nokill [demo_watch 0 0 1000; demo_watch 77 256 100001000]) 6) = Some (Returned 256 0) /\
  exists w e, nokill_run (Some (B "sleep 9")) 200 (demo_nokill demo_watches) 6 = Some (w, e).
Proof.
  split; [vm_compute; reflexivity|]. split; [vm_compute; reflexivity|].
  apply (proj2 (system_timed_nokill_result (B "sleep 9") 200 (demo_nokill demo_watches) 1000 5 6 0 76 77
    ltac:(lia) eq_refl eq_refl ltac:(lia) ltac:(lia) eq_refl eq_refl eq_refl ltac:(lia) eq_refl ltac:(lia) eq_refl
    ltac:(repeat constructor; eexists; try eexists; (split; [reflexivity|split; [by (left + right)|lia]]) || reflexivity))).
  - repeat (eexists; split; [reflexivity|split; [vm_compute; discriminate|]]). exact I.
  - vm_compute. discriminate.
Defined.

(** ** Nothing is left behind *)

(** Openings less closings of a descriptor; allocations less frees. *)
Fixpoint held (fd : Z) (w : list request) : Z :=
  match w with
  | [] => 0
  | Open x :: w => (if x =? fd then 1 else 0) + held fd w
  | Close x :: w => (if x =? fd then -1 else 0) + held fd w
  | _ :: w => held fd w
  end.

Fixpoint memory (w : list request) : Z :=
  match w with
  | [] => 0
  | Malloc :: w => 1 + memory w
  | Free :: w => -1 + memory w
  | _ :: w => memory w
  end.

Lemma held_app fd w1 w2 : held fd (w1 ++ w2) = held fd w1 + held fd w2.
Proof. induction w1 as [|[] w1 IH]; cbn [app held]; rewrite ?IH; lia. Qed.

Lemma memory_app w1 w2 : memory (w1 ++ w2) = memory w1 + memory w2.
Proof. induction w1 as [|[] w1 IH]; cbn [app memory]; rewrite ?IH; lia. Qed.

Lemma held_close fd x : 0 <= x -> held fd (close x) = if x =? fd then -1 else 0.
Proof. intros H. unfold close. replace (x <? 0) with false by lia. cbn [held]. lia. Qed.

Lemma memory_close x : memory (close x) = 0.
Proof. unfold close. by destruct (_ <? _). Qed.

(** The counts of a list of requests that is written out. *)
Ltac count := cbn [fst snd sockfd ppid]; rewrite ?held_app, ?memory_app; cbn [held memory app]; rewrite ?held_app, ?memory_app, ?memory_close;
  repeat (rewrite held_close by lia); cbn [held memory]; rewrite ?held_app, ?memory_app, ?memory_close; repeat (rewrite held_close by lia);
  repeat match goal with |- context [?x =? ?y] => destruct (Z.eqb_spec x y) end; lia.

Definition quiet (w : list request) : Prop := (forall fd, held fd w = 0) /\ memory w = 0.

Lemma wait_quiet rs pid options deadline w ret :
  wait_for_child_or_kill rs pid options deadline = Some (w, ret) -> quiet w.
Proof.
  revert w. induction rs as [|r rs IH]; intros w; cbn [wait_for_child_or_kill]; [done|].
  assert (quiet (wait_turn pid options deadline r).1) as [H1 H2].
  { unfold wait_turn. destruct (reaped r) as [|[]]; [done|].
    repeat match goal with |- context [if ?b then _ else _] => destruct b | |- context [match now r with _ => _ end] => destruct (now r) end; done. }
  destruct (wait_turn pid options deadline r) as [w0 [o|]]; cbn [fst] in *; [by intros [= <- <-]|].
  destruct (wait_for_child_or_kill _ _ _ _) as [[ws ret']|]; [|done]. intros [= <- <-].
  destruct (IH ws eq_refl) as [H3 H4]. split; [intros fd|]; rewrite ?held_app, ?memory_app, ?H1, ?H3; lia.
Qed.

(** Whatever the system answers: the caller of [system_timed_nokill] has
    closed both ends of its pipe; [popen_timed] has closed and freed all that it
    took if it fails, and keeps the handle and its end of the socket if it does
    not; [pclose_timed] then gives up both, however it ends. *)
Theorem system_leaves_nothing string timeout a rfd wfd (handle mem setpgid execve : bool) s1 s2 fork :
  n_pipe a = inr (rfd, wfd) -> 0 <= rfd -> 0 <= wfd -> n_fork a <> inr 0 -> 0 <= s1 -> 0 <= s2 -> fork <> inr 0 ->
  (forall w e, system_timed_nokill string timeout a = Some (w, e) -> quiet w) /\
  (let '(w, e, h) := popen_timed string handle mem (inr (s1, s2)) fork setpgid execve in
   match h with
   | None => quiet w /\ exists errno, e = Returned (-1) errno
   | Some p => e = Returned s1 0 /\ sockfd p = s1 /\ (forall fd, held fd w = if s1 =? fd then 1 else 0) /\ memory w = 1 /\
       forall timeout start waited rs w' e', pclose_timed (Some p) timeout start waited rs = Some (w', e') -> quiet (w ++ w')
   end).
Proof.
  intros Hp Hr Hw Hf H1 H2 Hfk. split.
  - intros w e. unfold system_timed_nokill. destruct (timeout <? 0); [by intros [= <- <-]|].
    destruct string as [string|]; [|by intros [= <- <-]]. destruct (get_deadline _ _); [by intros [= <- <-]|].
    rewrite Hp. destruct (n_getfd a); [intros [= <- <-]; split; [intros fd|]; count|].
    destruct (negb (n_setfd a =? 0)); [intros [= <- <-]; split; [intros fd|]; count|].
    destruct (n_fork a) as [|pid]; [intros [= <- <-]; split; [intros fd|]; count|].
    destruct (Z.eqb_spec pid 0) as [->|]; [done|]. cbn [negb]. unfold nokill_parent. cbn [fst snd].
    repeat match goal with |- context [match ?x with inl _ => _ | inr _ => _ end] => destruct x | |- context [if negb ?b then _ else _] => destruct b; cbn [negb] end;
      intros [= <- <-]; (split; [intros fd|]; count).
  - unfold popen_timed. destruct string as [[|c string]|]; [by split; [|eexists]| |by split; [|eexists]].
    destruct handle; cbn [negb]; [|by split; [|eexists]]. destruct mem; cbn [negb]; [|by split; [|eexists]].
    destruct fork as [e|pid]; [split; [split; [intros fd|]; count|by eexists]|].
    destruct (Z.eqb_spec pid 0) as [->|]; [done|]. cbn [negb fst snd sockfd].
    split; [done|]. split; [done|]. split; [intros fd; count|]. split; [count|].
    intros timeout' start waited rs w' e'. unfold pclose_timed. cbn [sockfd ppid].
    assert (forall w0, quiet w0 -> quiet (([Malloc; Open s1; Open s2; Fork] ++ close s2) ++ (close s1 ++ [Free]) ++ w0)) as Hq.
    { intros w0 [Hh Hm]. split; [intros fd; specialize (Hh fd)|]; count. }
    assert (forall w0 x, quiet w0 -> Some ((close s1 ++ [Free]) ++ w0, x) = Some (w', e') -> quiet (([Malloc; Open s1; Open s2; Fork] ++ close s2) ++ w')) as Hq'.
    { intros w0 x Hw0 [= <- <-]. by apply Hq. }
    destruct (pid <=? 1); [intros [= <- <-]; rewrite <- (app_nil_r (close s1 ++ [Free])); by apply Hq|].
    destruct (timeout' <? 0).
    + destruct waited as [|[child ?]]; [by apply Hq'|]. destruct (child =? pid); by apply Hq'.
    + destruct (get_deadline _ _) as [|deadline]; [intros [= <- <-]; rewrite <- (app_nil_r (close s1 ++ [Free])); by apply Hq|].
      destruct (wait_for_child_or_kill _ _ _ _) as [[ws [? ?]]|] eqn:E; [|done]. apply wait_quiet in E. by apply Hq'.
Qed.

Lemma system_leaves_nothing_witness :
  popen_timed (Some (B "cat")) true true (inr (5, 6)) (inr 77) true true =
    ([Malloc; Open 5; Open 6; Fork; Close 6], Returned 5 0, Some (mkPopen 5 77)) /\
  (forall w e, system_timed_nokill (Some (B "cat")) 10 (demo_nokill []) = Some (w, e) -> quiet w).
Proof.
  split; [vm_compute; reflexivity|].
  exact (proj1 (system_leaves_nothing (Some (B "cat")) 10 (demo_nokill []) 5 6 true true true true 5 6 (inr 77)
    eq_refl ltac:(lia) ltac:(lia) ltac:(discriminate) ltac:(lia) ltac:(lia) ltac:(discriminate))).
Defined.

(** system.h says that the result is that of waitpid: without a limit
    [pclose_timed] gives 0 whatever the status is. *)
Lemma pclose_timed_loses_status h timeout start status rs :
  1 < ppid h -> timeout < 0 ->
  exists w, pclose_timed (Some h) timeout start (inr (ppid h, status)) rs = Some (w, Returned 0 0).
Proof.
  intros Hp Ht. unfold pclose_timed. replace (ppid h <=? 1) with false by lia. replace (timeout <? 0) with true by lia.
  rewrite Z.eqb_refl. by eexists.
Qed.

(** A wait for any child: one that has ended is reaped, and its status is lost. *)
Lemma waitpid_timed_any_fails status options timeout start child st t k c rs :
  0 <= timeout -> 0 < child ->
  waitpid_timed (-1) status options timeout (inr start) (inl 0) (mkWatch (inr (child, st)) t k c :: rs) =
    Some ([Waitpid (-1) (Z.lor options WNOHANG)], Returned (-1) EACCES, None).
Proof.
  intros Ht Hc. unfold waitpid_timed. replace (timeout <? 0) with false by lia. cbn [get_deadline wait_for_child_or_kill wait_turn reaped].
  replace (child =? -1) with false by lia. replace (child =? 0) with false by lia. done.
Qed.

(** A wait for the own process group: while no child has ended, 0 is what
    waitpid returns and what is waited for; the call succeeds with whatever was
    in the variable. *)
Lemma waitpid_timed_group_returns status options timeout start garbage t k c rs :
  0 <= timeout -> 0 <= garbage ->
  waitpid_timed 0 status options timeout (inr start) (inl 0) (mkWatch (inr (0, garbage)) t k c :: rs) =
    Some ([Waitpid 0 (Z.lor options WNOHANG)], Returned 0 0, if status then Some garbage else None).
Proof.
  intros Ht Hg. unfold waitpid_timed. replace (timeout <? 0) with false by lia. cbn [get_deadline wait_for_child_or_kill wait_turn reaped Z.eqb].
  by replace (garbage <? 0) with false by lia.
Qed.

(** WNOHANG is no different from 0: the call waits, and kills. *)
Lemma waitpid_timed_WNOHANG rs pid deadline :
  wait_for_child_or_kill rs pid WNOHANG deadline = wait_for_child_or_kill rs pid 0 deadline.
Proof. induction rs as [|r rs IH]; [done|]. cbn [wait_for_child_or_kill]. by rewrite IH. Qed.
