(* ===== verification/FastCgi.v ===== *)
(** * Modes and environments: fastcgi/dispatcher.cpp

    How the program decides between its three modes, the variables it sets when
    it is run by hand, and the environment of a FastCGI request, which
    ClearSilver reads and writes through the emulated functions; signals, and the
    pool of workers that SpawnFastCGI makes. *)

From stdpp Require Import strings.
From S2P Require Import Prelude Libc StdMap Tree Cgi CgiRequest Dispatcher FixedThreadPool Processes.

(** ** Modes *)

Inductive Mode : Type := kModeAutomatic | kModeExecutable | kModeFastCGI | kModeCGI.

Definition env : Type := gmap bytes bytes.

(** setenv(name, value, overwrite) *)
Definition setenv (name value : bytes) (overwrite : bool) (e : env) : env :=
  match e !! name with
  | Some _ => if overwrite then <[name := value]> e else e
  | None => <[name := value]> e
  end.

(** The variables that RunAsExecutable sets; [argument]: argv[optind], if it is
    there.  [None]: it returns EXIT_FAILURE. *)
Definition RunAsExecutable_env (argument : option bytes) (e : env) : option env :=
  match
    match argument with
    | Some path =>
        if negb (bool_decide (hd NUL path = "/"%char)) then None
        else Some (path, setenv (B "REQUEST_URI") path true e)
    | None =>
        let e := match e !! B "REQUEST_URI" with None => setenv (B "REQUEST_URI") (B "/") true e | Some _ => e end in
        match e !! B "REQUEST_URI" with Some path => Some (path, e) | None => None end
    end
  with
  | None => None
  | Some (path, e) =>
      let e :=
        match find_char "?" path with
        | Some i => setenv (B "QUERY_STRING") (drop (S i) path) true (setenv (B "SCRIPT_NAME") (take i path) true e)
        | None => e
        end in
      let e := setenv (B "HTTP_HOST") (B "localhost") false e in
      let e := setenv (B "REMOTE_ADDR") (B "127.0.0.1") false e in
      let e := setenv (B "REMOTE_PORT") (B "49152") false e in
      let e := setenv (B "REQUEST_METHOD") (B "GET") false e in
      let e := setenv (B "REQUEST_SCHEME") (B "http") false e in
      let e := setenv (B "SERVER_ADDR") (B "127.0.0.1") false e in
      let e := setenv (B "SERVER_PORT") (B "80") false e in
      let e := setenv (B "GATEWAY_INTERFACE") (B "CGI/1.1") true e in
      let e := setenv (B "SERVER_PROTOCOL") (B "HTTP/1.1") true e in
      Some (setenv (B "SERVER_SOFTWARE") (B "Apache") true e)
  end.

(** The mode in which Run runs; [is_cgi]: FCGX_IsCGI(), [gateway]: the variable
    GATEWAY_INTERFACE. *)
Definition Run_mode (_mode : Mode) (is_cgi : bool) (gateway : option bytes) : Mode :=
  match _mode with
  | kModeAutomatic =>
      if is_cgi then
        match gateway with
        | Some g => if bool_decide (g = B "CGI/1.1") then kModeCGI else kModeExecutable
        | None => kModeExecutable
        end
      else kModeFastCGI
  | kModeFastCGI => kModeFastCGI
  | kModeCGI => kModeCGI
  | kModeExecutable => kModeExecutable
  end.

(** ** The environment of a FastCGI request *)

(** request->envp: an array of strings "name=value" and a null pointer; a slot
    that was not written holds garbage. *)
Inductive slot : Type := Str (s : bytes) | Null | Garbage.

Definition deref_slot (envp : list slot) (i : nat) : result exn (option bytes) :=
  match envp !! i with
  | Some (Str s) => Ok (Some s)
  | Some Null => Ok None
  | _ => Err undefined_behaviour
  end.

(** [ok1], [ok2]: the copies of the name and of the value could be allocated.
    [Ok None]: -1; [Ok (Some None)]: a null key. *)
Definition EmulatedIterenv (ok1 ok2 : bool) (envp : list slot) (i : nat) : result exn (option (option (bytes * bytes))) :=
  let! s := deref_slot envp i in
  match s with
  | None => Ok (Some None)
  | Some s =>
      match find_char "=" s with
      | None => Ok (Some None)
      | Some k => if negb ok1 then Ok None else if negb ok2 then Ok None else Ok (Some (Some (take k s, drop (S k) s)))
      end
  end.

(** The loop of EmulatedPutenv from the slot [c] on: the slot whose name is
    that of [n], or the number of strings. *)
Fixpoint putenv_loop (fuel : nat) (envp : list slot) (n : bytes) (kl c : nat) : result exn (nat + nat) :=
  match fuel with
  | O => Err out_of_fuel
  | S f =>
      let! s := deref_slot envp c in
      match s with
      | None => Ok (inr c)
      | Some s => if bool_decide (take (S kl) s = take (S kl) n) then Ok (inl c) else putenv_loop f envp n kl (S c)
      end
  end.

(** What it returns, and the array afterwards; [key] and [value] are without
    their terminators. *)
Definition EmulatedPutenv (ok1 ok2 : bool) (key value : bytes) (envp : list slot) : result exn (Z * list slot) :=
  if negb ok1 then Ok (-1, envp)
  else
    let n := key ++ "="%char :: value in
    let! r := putenv_loop (S (length envp)) envp n (length key) 0 in
    match r with
    | inl p => Ok (0, <[p := Str n]> envp)
    | inr c => if negb ok2 then Ok (-1, envp) else Ok (0, take c envp ++ [Str n; Garbage])
    end.

(** Reading the variables one after the other, as TranslateEnvvars does. *)
Fixpoint read_env (fuel i : nat) (envp : list slot) : result exn (list (bytes * bytes)) :=
  match fuel with
  | O => Err out_of_fuel
  | S f =>
      let! e := EmulatedIterenv true true envp i in
      match e with
      | Some (Some kv) => let! l := read_env f (S i) envp in Ok (kv :: l)
      | _ => Ok []
      end
  end.

(** ** Theorems *)

Definition entry (kv : bytes * bytes) : bytes := kv.1 ++ "="%char :: kv.2.

(** The array as the FastCGI library makes it. *)
Definition envp_of (l : list (bytes * bytes)) : list slot := map (fun kv => Str (entry kv)) l ++ [Null].

Definition plain (k : bytes) : Prop := "="%char ∉ k.

Lemma find_char_app c k v : c ∉ k -> find_char c (k ++ c :: v) = Some (length k).
Proof.
  induction k as [|a k IH]; intros H; cbn; [by rewrite bool_decide_eq_true_2|].
  apply not_elem_of_cons in H as [Ha H]. rewrite bool_decide_eq_false_2 by congruence. by rewrite IH.
Qed.

(** Two entries agree up to the first '=' if their names do. *)
Lemma name_eq k kv : plain k -> plain kv.1 ->
  take (S (length k)) (entry kv) = take (S (length k)) (k ++ "="%char :: kv.2) <-> kv.1 = k.
Proof.
  intros Hk Hkv. assert (forall v : bytes, take (S (length k)) (k ++ "="%char :: v) = k ++ ["="%char]) as Et.
  { intros v. rewrite take_app_ge by lia. replace (S (length k) - length k)%nat with 1%nat by lia. done. }
  rewrite Et. split.
  - intros E. assert (find_char "=" (entry kv) = Some (length kv.1)) as E1 by (by apply find_char_app).
    assert (entry kv = k ++ "="%char :: drop (S (length k)) (entry kv)) as E2.
    { rewrite <- (take_drop (S (length k)) (entry kv)) at 1. rewrite E, <- app_assoc. done. }
    rewrite E2, find_char_app in E1 by done. injection E1 as E1. unfold entry in E.
    apply (f_equal (take (length k))) in E. rewrite take_take, take_app_length' in E by lia.
    rewrite take_app_length' in E by done. done.
  - intros <-. apply Et.
Qed.

Lemma deref_entry l i kv rest : l !! i = Some kv -> deref_slot (map (fun kv => Str (entry kv)) l ++ rest) i = Ok (Some (entry kv)).
Proof.
  intros H. unfold deref_slot. rewrite lookup_app_l.
  - rewrite list_lookup_fmap, H. done.
  - rewrite length_map. by eapply lookup_lt_Some.
Qed.

Lemma deref_end l rest s : deref_slot (map (fun kv => Str (entry kv)) l ++ s :: rest) (length l) =
  match s with Str s => Ok (Some s) | Null => Ok None | Garbage => Err undefined_behaviour end.
Proof. unfold deref_slot. rewrite lookup_app_r; rewrite length_map; [|lia]. rewrite Nat.sub_diag. by destruct s. Qed.

(** The loop finds the first variable of the name, or the end. *)
Lemma putenv_loop_spec l key value c fuel : Forall (fun kv => plain kv.1) l -> plain key ->
  (c <= length l)%nat -> (length l - c < fuel)%nat ->
  putenv_loop fuel (envp_of l) (entry (key, value)) (length key) c =
  Ok match list_find (fun kv => kv.1 = key) (drop c l) with Some (i, _) => inl (c + i)%nat | None => inr (length l) end.
Proof.
  intros Hl Hk. revert c. induction fuel as [|f IH]; intros c Hc Hf; [lia|]. cbn [putenv_loop].
  destruct (decide (c = length l)) as [->|Hne].
  - unfold envp_of. rewrite deref_end. cbn. by rewrite drop_all.
  - destruct (lookup_lt_is_Some_2 l c ltac:(lia)) as [kv Hkv]. unfold envp_of at 1. rewrite (deref_entry _ _ _ _ Hkv). cbn [rbind].
    rewrite (drop_S _ _ _ Hkv). cbn [list_find].
    assert (plain kv.1) as Hp by (exact (Forall_lookup_1 _ _ _ _ Hl Hkv)).
    pose proof (name_eq key kv Hk Hp) as Hname.
    destruct (decide (kv.1 = key)) as [E|E].
    + rewrite bool_decide_eq_true_2; [by rewrite Nat.add_0_r|]. rewrite (proj2 Hname E). unfold entry. cbn.
      rewrite !take_app_ge by lia. by replace (S (length key) - length key)%nat with 1%nat by lia.
    + rewrite bool_decide_eq_false_2.
      * rewrite IH by lia. destruct (list_find _ (drop (S c) l)) as [[i x]|]; [|done]. cbn. do 2 f_equal. lia.
      * intros E'. apply E, Hname. rewrite E'. unfold entry. cbn. rewrite !take_app_ge by lia.
        by replace (S (length key) - length key)%nat with 1%nat by lia.
Qed.

Lemma read_env_all l i fuel rest : Forall (fun kv => plain kv.1) l -> (i <= length l)%nat -> (length l - i < fuel)%nat ->
  read_env fuel i (map (fun kv => Str (entry kv)) l ++ Null :: rest) = Ok (drop i l).
Proof.
  intros Hl. revert i. induction fuel as [|f IH]; intros i Hi Hf; [lia|]. cbn [read_env]. unfold EmulatedIterenv.
  destruct (decide (i = length l)) as [->|Hne].
  - rewrite deref_end. cbn. by rewrite drop_all.
  - destruct (lookup_lt_is_Some_2 l i ltac:(lia)) as [[k v] Hkv]. rewrite (deref_entry _ _ _ _ Hkv). cbn [rbind].
    assert (plain k) as Hp by (exact (Forall_lookup_1 _ _ _ _ Hl Hkv)). unfold entry. cbn [fst snd].
    rewrite find_char_app by done. cbn [negb]. rewrite IH by lia. cbn. rewrite (drop_S _ _ _ Hkv). do 2 f_equal.
    f_equal; [by apply take_app_length'|]. rewrite drop_app_ge by lia. by replace (S (length k) - length k)%nat with 1%nat by lia.
Qed.

(** Without a null pointer at the end the reader goes on past it. *)
Lemma read_env_garbage l i fuel : Forall (fun kv => plain kv.1) l -> (i <= length l)%nat -> (length l - i < fuel)%nat ->
  read_env fuel i (map (fun kv => Str (entry kv)) l ++ [Garbage]) = Err undefined_behaviour.
Proof.
  intros Hl. revert i. induction fuel as [|f IH]; intros i Hi Hf; [lia|]. cbn [read_env]. unfold EmulatedIterenv.
  destruct (decide (i = length l)) as [->|Hne].
  - by rewrite deref_end.
  - destruct (lookup_lt_is_Some_2 l i ltac:(lia)) as [[k v] Hkv]. rewrite (deref_entry _ _ _ _ Hkv). cbn [rbind].
    assert (plain k) as Hp by (exact (Forall_lookup_1 _ _ _ _ Hl Hkv)). unfold entry. cbn [fst snd].
    rewrite find_char_app by done. cbn [negb]. rewrite IH by lia. done.
Qed.

(** EmulatedPutenv of a variable of the environment changes its value, of
    the first one if there are several, and nothing else; the reader then
    finds all variables.  Of a new variable it makes an array without the null
    pointer at its end: the next reader, and the next EmulatedPutenv of
    another new variable, go past the end of the array. *)
Theorem emulated_putenv (l : list (bytes * bytes)) (key value : bytes) :
  Forall (fun kv => plain kv.1) l -> plain key ->
  read_env (S (length l)) 0 (envp_of l) = Ok l /\
  match list_find (fun kv => kv.1 = key) l with
  | Some (i, _) =>
      EmulatedPutenv true true key value (envp_of l) = Ok (0, envp_of (<[i := (key, value)]> l))
  | None =>
      exists envp, EmulatedPutenv true true key value (envp_of l) = Ok (0, envp) /\
        read_env (S (S (length l))) 0 envp = Err undefined_behaviour
  end.
Proof.
  intros Hl Hk. split; [by apply (read_env_all l 0 _ []); [|lia|lia]|].
  unfold EmulatedPutenv. cbn [negb]. change (key ++ "="%char :: value) with (entry (key, value)).
  rewrite putenv_loop_spec; [|done|done|lia|unfold envp_of; rewrite length_app, length_map; cbn; lia]. cbn [rbind].
  rewrite drop_0. destruct (list_find _ l) as [[i x]|] eqn:Ef.
  - apply list_find_Some in Ef as (Hi & _ & _). cbn. do 2 f_equal. unfold envp_of.
    rewrite insert_app_l by (rewrite length_map; by eapply lookup_lt_Some). f_equal. symmetry. apply (list_fmap_insert (fun kv => Str (entry kv))).
  - eexists. split; [reflexivity|]. unfold envp_of. rewrite take_app_length' by by rewrite length_map.
    change [Str (entry (key, value)); Garbage] with (map (fun kv => Str (entry kv)) [(key, value)] ++ [Garbage]).
    rewrite app_assoc, <- map_app. apply read_env_garbage; [|lia|rewrite length_app; cbn; lia].
    apply Forall_app. split; [done|by constructor].
Qed.

Lemma emulated_putenv_witness :
  EmulatedPutenv true true (B "B") (B "3") (envp_of [(B "A", B "1"); (B "B", B "2")])
  = Ok (0, envp_of [(B "A", B "1"); (B "B", B "3")]) /\
  exists envp, EmulatedPutenv true true (B "C") (B "3") (envp_of [(B "A", B "1")]) = Ok (0, envp) /\
    read_env 3 0 envp = Err undefined_behaviour.
Proof.
  assert (forall c : ascii, c <> "="%char -> plain [c]) as Hp.
  { intros c Hc [E|E]%elem_of_cons; [by apply Hc|by inversion E]. }
  split.
  - refine (proj2 (emulated_putenv [(B "A", B "1"); (B "B", B "2")] (B "B") (B "3") _ _)); [|by apply Hp].
    constructor; [by apply Hp|constructor; [by apply Hp|constructor]].
  - refine (proj2 (emulated_putenv [(B "A", B "1")] (B "C") (B "3") _ _)); [|by apply Hp].
    constructor; [by apply Hp|constructor].
Defined.

(** ** The process *)

Definition EXIT_SUCCESS : Z := 0.
Definition EXIT_FAILURE : Z := 1.
Definition SIGHUP : Z := 1.
Definition SIGINT : Z := 2.
Definition SIGQUIT : Z := 3.
Definition SIGUSR1 : Z := 10.
Definition SIGPIPE : Z := 13.
Definition SIGTERM : Z := 15.

(** The number of the handler on_sigterm. *)
Definition ON_SIGTERM : Z := 1.
Definition terminating : list Z := [SIGHUP; SIGINT; SIGQUIT; SIGTERM; SIGUSR1].

Section Process.
Context {R : Type} (REQUEST_URI : R -> option bytes) (neos_strip : bytes -> bytes).
(** A request as it is found in the environment. *)
Context (of_env : env -> R).

(** The singleton, its flags, and the process around it; [emulated]: ClearSilver
    was told to use the emulated functions; [pending]: FCGX_ShutdownPending was
    called. *)
Record process : Type := mkProcess {
  dispatcher : @Dispatcher R;
  _listen_fd : Z;
  _mode : Mode;
  _sfc_pool : FixedThreadPool;
  _handle_signals_internally : bool;
  _run : bool;
  environ : env;
  dispositions : gmap Z disposition;
  emulated : bool;
  pending : bool
}.

Implicit Types (p : process).

Definition with_dispatcher (d : @Dispatcher R) p : process :=
  mkProcess d (_listen_fd p) (_mode p) (_sfc_pool p) (_handle_signals_internally p) (_run p) (environ p) (dispositions p) (emulated p) (pending p).
Definition with_mode (m : Mode) p : process :=
  mkProcess (dispatcher p) (_listen_fd p) m (_sfc_pool p) (_handle_signals_internally p) (_run p) (environ p) (dispositions p) (emulated p) (pending p).
Definition with_environ (e : env) (emu : bool) p : process :=
  mkProcess (dispatcher p) (_listen_fd p) (_mode p) (_sfc_pool p) (_handle_signals_internally p) (_run p) e (dispositions p) emu (pending p).
Definition with_pool (q : FixedThreadPool) p : process :=
  mkProcess (dispatcher p) (_listen_fd p) (_mode p) q (_handle_signals_internally p) (_run p) (environ p) (dispositions p) (emulated p) (pending p).
Definition with_signals (run : bool) (h : gmap Z disposition) (pend : bool) p : process :=
  mkProcess (dispatcher p) (_listen_fd p) (_mode p) (_sfc_pool p) (_handle_signals_internally p) run (environ p) h (emulated p) pend.

(** [g]: g_default_factory. *)
Definition Dispatcher_new (g : Z -> @factory R) : @Dispatcher R := mkDispatcher [] g PassthroughDispatcher (B "/") true.

Definition process_new (g : Z -> @factory R) (e : env) (h : gmap Z disposition) : process :=
  mkProcess (Dispatcher_new g) 0 kModeAutomatic FixedThreadPool_new true true e h false false.

Definition set_custom_dispatcher (custom : option (bytes -> bytes)) p : result exn process :=
  match custom with
  | None => Err (invalid_argument "invalid custom dispatcher specified")
  | Some f =>
      let d := dispatcher p in
      Ok (with_dispatcher (mkDispatcher (_factories d) (_default_factory d) f (_site_root d) (_single_handler_mode d)) p)
  end.

Definition set_listen_fd (fd : Z) p : process :=
  mkProcess (dispatcher p) (if fd <? 0 then 0 else fd) (_mode p) (_sfc_pool p) (_handle_signals_internally p) (_run p) (environ p)
    (dispositions p) (emulated p) (pending p).

Definition set_handle_signals_internally (b : bool) p : process :=
  mkProcess (dispatcher p) (_listen_fd p) (_mode p) (_sfc_pool p) b (_run p) (environ p) (dispositions p) (emulated p) (pending p).

Definition set_single_handler_mode (b : bool) p : process :=
  let d := dispatcher p in
  with_dispatcher (mkDispatcher (_factories d) (_default_factory d) (RequestUriToHandlerPath d) (_site_root d) b) p.

Definition set_forced_mode : Mode -> process -> process := with_mode.

Definition RegisterDefaultFactory (g : Z -> @factory R) (factory : option (Z -> @factory R)) p : process :=
  let d := dispatcher p in
  with_dispatcher (mkDispatcher (_factories d) (default g factory) (RequestUriToHandlerPath d) (_site_root d) (_single_handler_mode d)) p.

(** The exit status of a program that replies to one request. *)
Definition replied (x : result thrown bool) : result thrown Z :=
  match x with Ok true => Ok EXIT_SUCCESS | Ok false => Ok EXIT_FAILURE | Err e => Err e end.

Definition RunAsExecutable (argument : option bytes) (w : wire) p : result thrown Z * list wire * process :=
  let p := with_mode kModeExecutable p in
  match RunAsExecutable_env argument (environ p) with
  | None => (Ok EXIT_FAILURE, [], p)
  | Some e =>
      let p := with_environ e false p in
      let '(x, w) := DispatchRequest REQUEST_URI neos_strip (dispatcher p) (of_env e) w in (replied x, [w], p)
  end.

Definition RunAsCGI (w : wire) p : result thrown Z * list wire * process :=
  let p := with_environ (environ p) false (with_mode kModeCGI p) in
  let '(x, w) := DispatchRequest REQUEST_URI neos_strip (dispatcher p) (of_env (environ p)) w in (replied x, [w], p).

(** sigaction for each of the signals. *)
Definition set_all (d : disposition) (sigs : list Z) (h : gmap Z disposition) : gmap Z disposition :=
  fold_left (fun h sig => <[sig := d]> h) sigs h.

Definition on_sigterm p : process :=
  let p := with_signals false (dispositions p) true p in
  if negb (_handle_signals_internally p) then p
  else with_signals (_run p) (set_all SIG_DFL terminating (dispositions p)) (pending p) p.

Definition InitializeFastCGI p : process :=
  let p := with_mode kModeFastCGI p in
  let p :=
    if _handle_signals_internally p then
      with_signals (_run p) (<[SIGPIPE := SIG_IGN]> (set_all (Handler ON_SIGTERM) terminating (dispositions p))) (pending p) p
    else p in
  with_environ (environ p) true p.

(** The worker's loop reads [_run] at each turn: [accepts] says what it finds,
    and what FCGX_Accept_r returns. *)
Definition RunAsFastCGI (init : bool) (accepts : list (bool * (Z + R * wire))) p : result thrown Z * list wire * process :=
  let p := InitializeFastCGI p in
  let '(x, l) := Worker_Run REQUEST_URI neos_strip (dispatcher p) init accepts in (replied x, l, p).

(** Run; [argument]: argv[optind]. *)
Definition main (is_cgi : bool) (argument : option bytes) (w : wire) (init : bool) (accepts : list (bool * (Z + R * wire))) p
    : result thrown Z * list wire * process :=
  match Run_mode (_mode p) is_cgi (environ p !! B "GATEWAY_INTERFACE") with
  | kModeCGI => RunAsCGI w p
  | kModeFastCGI => RunAsFastCGI init accepts p
  | _ => RunAsExecutable argument w p
  end.

(** *** Workers in a pool *)

(** The loop that gives a worker to each thread; [worker]: the address of the
    next. *)
Fixpoint append_workers (n : nat) (worker : Z) (pool : FixedThreadPool) : result exn (bool * FixedThreadPool) :=
  match n with
  | O => Ok (true, pool)
  | S n =>
      let! (ok, pool) := AppendJob (Some worker) true pool in
      if negb ok then Ok (false, Shutdown_end (Shutdown_begin true pool).2) else append_workers n (worker + 1) pool
  end.

(** [fcgx]: FCGX_Init succeeds. *)
Definition SpawnFastCGI (threads : Z) (fcgx : bool) (worker : Z) p : result exn (bool * process) :=
  if threads =? 0 then Err assertion_failed
  else if negb fcgx then Ok (false, p)
  else
    let p := InitializeFastCGI p in
    let! (ok, pool) := Initialize threads (_sfc_pool p) in
    if negb ok then Ok (false, with_pool (Shutdown_end (Shutdown_begin true pool).2) p)
    else
      let! (ok, pool) := append_workers (Z.to_nat threads) worker pool in
      Ok (ok, with_pool pool p).

(** A signal arrives: nothing if it ends the process. *)
Definition deliver (sig : Z) p : option process :=
  match dispositions p !! sig with
  | Some (Handler h) => Some (if h =? ON_SIGTERM then on_sigterm p else p)
  | Some SIG_IGN => Some p
  | Some SIG_DFL | None => None
  end.

(** KillAll, where each thread takes its signal before the next is sent. *)
Fixpoint kill_each (threads : nat) (sig : Z) p : option process :=
  match threads with
  | O => Some p
  | S n => match deliver sig p with Some p => kill_each n sig p | None => None end
  end.

(** [actives1], [actives2]: how many threads run a job, now and 100 milliseconds
    later. *)
Definition Shutdown (actives1 actives2 : nat) p : option process :=
  match kill_each actives1 SIGUSR1 p with
  | None => None
  | Some p =>
      match kill_each actives2 SIGUSR1 p with
      | None => None
      | Some p => Some (with_pool (Shutdown_end (Shutdown_begin true (_sfc_pool p)).2) p)
      end
  end.

Lemma set_all_lookup d sigs h sig : set_all d sigs h !! sig = if bool_decide (sig ∈ sigs) then Some d else h !! sig.
Proof.
  unfold set_all. revert h. induction sigs as [|x sigs IH]; intros h; cbn [fold_left]; [by rewrite bool_decide_eq_false_2 by set_solver|].
  rewrite IH. destruct (decide (sig = x)) as [->|Hne].
  - rewrite (bool_decide_eq_true_2 (x ∈ x :: sigs)) by set_solver. rewrite lookup_insert_eq. by case_bool_decide.
  - rewrite lookup_insert_ne by done. repeat case_bool_decide; done || set_solver.
Qed.

(** The first signal to end the program lets the workers stop behind the request
    they are at, and the next one ends it at once. *)
Theorem fastcgi_signals p sig : _handle_signals_internally p = true -> sig ∈ terminating ->
  exists p', deliver sig (InitializeFastCGI p) = Some p' /\ _run p' = false /\ pending p' = true /\
    deliver SIGPIPE p' = Some p' /\ (forall sig', sig' ∈ terminating -> deliver sig' p' = None) /\
    forall accepts, Worker_loop REQUEST_URI neos_strip (dispatcher p') (map (fun a => (_run p', a)) accepts) = (Ok true, []).
Proof.
  intros Hi Hs. unfold InitializeFastCGI. cbn [with_mode _handle_signals_internally dispositions _run pending]. rewrite Hi.
  set (h := <[SIGPIPE := SIG_IGN]> (set_all (Handler ON_SIGTERM) terminating (dispositions p))).
  assert (forall s, s ∈ terminating -> SIGPIPE <> s) as Hne by (intros s H <-; unfold terminating in H; set_solver).
  assert (h !! sig = Some (Handler ON_SIGTERM)) as Hh.
  { unfold h. rewrite lookup_insert_ne by auto. by rewrite set_all_lookup, bool_decide_eq_true_2. }
  unfold deliver at 1. cbn [with_environ with_signals dispositions]. rewrite Hh. eexists. split; [reflexivity|].
  unfold on_sigterm. cbn [with_environ with_signals with_mode dispositions _handle_signals_internally _run pending]. rewrite Hi, Z.eqb_refl. cbn [negb].
  cbn [with_environ with_signals with_mode dispositions _run pending]. split_and!; [done|done| | |].
  - unfold deliver. cbn [with_signals dispositions]. rewrite set_all_lookup, bool_decide_eq_false_2; [|intros H; by destruct (Hne SIGPIPE)].
    unfold h. by rewrite lookup_insert_eq.
  - intros s H. unfold deliver. cbn [with_signals dispositions]. by rewrite set_all_lookup, bool_decide_eq_true_2.
  - intros [|a accepts]; done.
Qed.

(** Dispatcher::Shutdown sends SIGUSR1 to every active thread: the handler that
    the first one runs resets it, and the second one ends the process. *)
Theorem fastcgi_Shutdown_kills p n1 n2 : _handle_signals_internally p = true -> (2 <= n1 + n2)%nat ->
  Shutdown n1 n2 (InitializeFastCGI p) = None.
Proof.
  intros Hi Hn. destruct (fastcgi_signals p SIGUSR1 Hi) as (p' & H1 & _ & _ & _ & H2 & _); [unfold terminating; set_solver|].
  assert (forall n, (0 < n)%nat -> kill_each n SIGUSR1 p' = None) as H3.
  { intros [|n] H; [lia|]. cbn [kill_each]. by rewrite H2 by (unfold terminating; set_solver). }
  unfold Shutdown. destruct n1 as [|n1]; [cbn [kill_each]; destruct n2 as [|[|n2]]; [lia..|]; cbn [kill_each]; rewrite H1; by rewrite H2 by (unfold terminating; set_solver)|].
  cbn [kill_each]. rewrite H1. destruct n1 as [|n1]; [|by rewrite H3 by lia]. cbn [kill_each]. destruct n2 as [|n2]; [lia|]. by rewrite H3 by lia.
Qed.

Lemma append_workers_ok n worker pool : _initializing pool = false ->
  exists pool', append_workers n worker pool = Ok (true, pool') /\ _initializing pool' = false /\ _threads pool' = _threads pool /\
    _pending_jobs pool' = _pending_jobs pool ++ map (fun i => mkThreadJob i true) (seqZ worker (Z.of_nat n)) /\ deleted pool' = deleted pool.
Proof.
  revert worker pool. induction n as [|n IH]; intros worker pool Hi; cbn [append_workers].
  { exists pool. by rewrite app_nil_r. }
  unfold AppendJob. rewrite Hi. cbn [rbind negb].
  match goal with |- context [append_workers n _ ?q] => destruct (IH (worker + 1) q eq_refl) as (pool' & -> & H1 & H2 & H3 & H4) end.
  exists pool'. split_and!; [done..| |done]. rewrite H3. cbn [_pending_jobs]. rewrite <- app_assoc. f_equal.
  rewrite (seqZ_cons worker (Z.of_nat (S n))) by lia. cbn [map app]. f_equal. by replace (Z.pred (Z.of_nat (S n))) with (Z.of_nat n) by lia; rewrite Z.add_1_r.
Qed.

(** SpawnFastCGI gives each thread of the pool one worker; a worker that no
    thread has taken is deleted, once, by the shutdown of the pool. *)
Theorem fastcgi_workers threads worker p : 0 < threads -> pool_idle (_sfc_pool p) ->
  exists p', SpawnFastCGI threads true worker p = Ok (true, p') /\
    size (_threads (_sfc_pool p')) = Z.to_nat threads /\
    map runnable (_pending_jobs (_sfc_pool p')) = seqZ worker threads /\
    let ended := Shutdown_end (Shutdown_begin true (_sfc_pool p')).2 in
    pool_idle ended /\ deleted ended = deleted (_sfc_pool p') ++ seqZ worker threads.
Proof.
  intros Ht Hp. unfold SpawnFastCGI. replace (threads =? 0) with false by (symmetry; apply Z.eqb_neq; lia). cbn [negb].
  assert (_sfc_pool (InitializeFastCGI p) = _sfc_pool p) as -> by (unfold InitializeFastCGI; cbn [with_mode _handle_signals_internally]; by destruct (_handle_signals_internally p)).
  destruct (Initialize_pool threads (_sfc_pool p) Ht Hp) as (q & -> & Hi & Hs & Hj). cbn [rbind negb].
  destruct (append_workers_ok (Z.to_nat threads) worker q Hi) as (q' & -> & Hi' & Hth & Hj' & Hd). cbn [rbind].
  rewrite Hj in Hj'. cbn [app] in Hj'. rewrite Z2Nat.id in Hj' by lia. eexists. split; [reflexivity|]. cbn [with_pool _sfc_pool].
  rewrite Hth, Hs, Hj'. split_and!; [done|rewrite map_map; apply map_id| |].
  - apply pool_ended. split; [done|]. intros E. rewrite <- Hth, E, size_empty in Hs. lia.
  - unfold Shutdown_begin. rewrite Hi'. case_bool_decide as E; [rewrite <- Hth, E, size_empty in Hs; lia|]. cbn. rewrite Hj'. f_equal. unfold deletes.
    assert (forall l, List.filter auto_release (map (fun i => mkThreadJob i true) l) = map (fun i => mkThreadJob i true) l) as -> by (clear; induction l as [|x l IH]; cbn; [done|by rewrite IH]).
    rewrite map_map. apply map_id.
Qed.

End Process.

(** ** The streams of a FastCGI request *)

(** FCGX_GetStr reads what is there, up to [buf_len] bytes: what was read, what
    is left, and their number. *)
Definition EmulatedRead (buf_len : Z) (input : bytes) : bytes * bytes * Z :=
  let n := Z.to_nat buf_len in (take n input, drop n input, zlen (take n input)).

(** FCGX_PutStr: all the bytes, or EOF. *)
Definition EmulatedWrite (buf : bytes) (ok : bool) (output : bytes) : bytes * Z :=
  if ok then (output ++ buf, zlen buf) else (output, -1).

(** [formatted]: what FCGX_VFPrintF makes of its arguments. *)
Definition EmulatedWriteF (formatted : bytes) (ok : bool) (output : bytes) : bytes * Z := EmulatedWrite formatted ok output.

(** [FCGX_GetParam] finds the value; [memory]: strdup succeeds. *)
Definition EmulatedGetenv (FCGX_GetParam : bytes -> list slot -> option bytes) (memory : bool) (key : bytes) (envp : list slot) : option bytes :=
  match FCGX_GetParam key envp with
  | None => None
  | Some value => if memory then Some value else None
  end.
