(* ===== verification/Babysitter.v ===== *)
(** * The babysitter: babysitter.c

    [babysitter_spawn] forks a child and stays to watch it: it relays signals,
    kills a child that does not feed the watchdog in time, and starts a new one
    when it ends.  What the system answers is an argument: a [life] per child,
    with a [round] per turn of the loop that waits for it.  The result is how
    the function ends, in the child and in the parent, and the trace of what it
    did to other processes and to descriptors. *)

From Stdlib Require Import ZifyBool.
From S2P Require Import Prelude AbstractIo SafeIo Processes.

Definition ECHILD : Z := 10.

Record babysitter_configure_t : Type := mkConfigure {
  unconditional : bool;
  restart_times : Z;
  normal_delay : Z;
  coredump_delay : Z;
  watchdog_timer : Z;
  watchdog_signal : Z;
  spawn : option (Z -> Z);
  cleanup : bool
}.

(** The variables of the file: [g_sigtail] is the length of [g_signals]. *)
Record sitter : Type := mkSitter {
  g_child_exited : bool;
  g_signals : list Z
}.

Definition dump (s : sitter) : sitter := mkSitter (g_child_exited s) [].

Definition babysitter_signal_handler (signum : Z) (s : sitter) : sitter :=
  if signum =? SIGCHLD then mkSitter true (g_signals s)
  else if zlen (g_signals s) =? 16 then s
  else mkSitter (g_child_exited s) (g_signals s ++ [signum]).

(** What is done to the outside.  [Bark] is the kill of the watchdog, with the
    clock that it has read and the one of the last feed. *)
Inductive action : Type :=
| Open (fd : Z)
| Close (fd : Z)
| Fork (pid : Z)
| Relay (pid signum : Z)
| Bark (pid signum at_ since : Z)
| Spawn (status : Z)
| Sleep (milliseconds : Z)
| Cleanup.

(** ** Waiting for a child *)

(** An answer of waitpid(-1): errno, nothing yet, or a process that ended. *)
Inductive waited : Type :=
| WaitError (errno : Z)
| WaitNone
| WaitPid (pid status : Z).

(** -1, 0, or 1 and the status of the child. *)
Fixpoint babysitter_waitpid (pid : Z) (answers : list waited) : option (Z * Z) :=
  match answers with
  | [] => None
  | WaitError e :: answers =>
      if e =? EINTR then babysitter_waitpid pid answers else if e =? ECHILD then Some (0, 0) else Some (-1, 0)
  | WaitNone :: _ => Some (0, 0)
  | WaitPid p status :: answers => if negb (p =? pid) then babysitter_waitpid pid answers else Some (1, status)
  end.

(** safe_read(128) until the pipe is empty: 1 if there was something, 0 if not,
    -1 if it is closed. *)
Fixpoint babysitter_suck_fd (r : Z) (answers : list (Z + Z)) : option Z :=
  match answers with
  | [] => None
  | inl e :: _ => Some (if e =? EAGAIN then r else -1)
  | inr n :: answers => if n =? 0 then Some (-1) else babysitter_suck_fd 1 answers
  end.

Definition babysitter_check_watchdog (c : babysitter_configure_t) (last_feed now : Z) : bool :=
  if watchdog_timer c =? 0 then true else negb (watchdog_timer c <=? Z.quot (now - last_feed) 1000000).

(** Every queued signal is sent, whether or not an earlier one failed. *)
Definition babysitter_relay_signals (pid : Z) (kill : Z -> bool) (s : sitter) : sitter * Z * list action :=
  (mkSitter (g_child_exited s) [], if forallb kill (g_signals s) then 0 else -1, map (Relay pid) (g_signals s)).

Definition WIFEXITED (status : Z) : bool := Z.land status 127 =? 0.
Definition WIFSIGNALED (status : Z) : bool := negb (Z.land status 127 =? 0) && negb (Z.land status 127 =? 127).
Definition WCOREDUMP (status : Z) : bool := negb (Z.land status 128 =? 0).

(** A turn: what pselect returns ([None]: no error), the signals that arrive in
    it, the answers of waitpid, the clock of the watchdog, whether a signal can
    be sent, the answers of read, and the clock after a feed. *)
Record round : Type := mkRound {
  selected : option Z;
  arrived : list Z;
  waits : list waited;
  checked_at : Z;
  kill : Z -> bool;
  reads : list (Z + Z);
  fed_at : Z
}.

(** The variables of babysitter_wait. *)
Record post : Type := mkPost {
  sit : sitter;
  fd : Z;
  last_feed : Z
}.

(** How babysitter_wait ends: by return, with the status, or by _exit. *)
Inductive left_ : Type :=
| Returned (ret status : Z)
| Exited.

Definition exit_status (status : Z) : Z :=
  if WIFEXITED status then if status =? 0 then 0 else 1
  else if WIFSIGNALED status then if WCOREDUMP status then 2 else 1
  else -1.

(** The second half of a turn: the pipe. *)
Definition feed (r : round) (p : post) : option post :=
  if fd p <? 0 then Some p
  else
    match babysitter_suck_fd 0 (reads r) with
    | None => None
    | Some ret =>
        Some (if ret <? 0 then mkPost (sit p) (-1) (last_feed p)
              else if 0 <? ret then mkPost (sit p) (fd p) (fed_at r)
              else p)
    end.

Definition bark_signal (c : babysitter_configure_t) : Z :=
  if watchdog_signal c =? 0 then SIGKILL else watchdog_signal c.

(** A turn: [None] if the answers of the system are not enough. *)
Definition babysitter_turn (c : babysitter_configure_t) (pid : Z) (r : round) (p : post) : option (post * list action * option left_) :=
  let s := fold_left (fun s sig => babysitter_signal_handler sig s) (arrived r) (sit p) in
  let p := mkPost s (fd p) (last_feed p) in
  let failed := match selected r with Some e => negb (e =? EINTR) | None => false end in
  if failed then Some (p, [], Some (Returned (-1) 0))
  else
    let go_on p :=
      if negb (babysitter_check_watchdog c (last_feed p) (checked_at r)) then
        Some (mkPost (sit p) (-1) (last_feed p), [Bark pid (bark_signal c) (checked_at r) (last_feed p)], None)
      else
        let '(s, ret, acts) := babysitter_relay_signals pid (kill r) (sit p) in
        let p := mkPost s (fd p) (last_feed p) in
        if negb (ret =? 0) then Some (p, acts, Some (Returned (-1) 0))
        else match feed r p with None => None | Some p => Some (p, acts, None) end in
    if g_child_exited (sit p) then
      match babysitter_waitpid pid (waits r) with
      | None => None
      | Some (ret, status) =>
          let p := mkPost (mkSitter false (g_signals (sit p))) (fd p) (last_feed p) in
          if ret <? 0 then Some (p, [], Some Exited)
          else if 0 <? ret then Some (mkPost (dump (sit p)) (fd p) (last_feed p), [], Some (Returned (exit_status status) status))
          else go_on p
      end
    else go_on p.

Fixpoint babysitter_turns (c : babysitter_configure_t) (pid : Z) (rs : list round) (p : post) : post * list action * option left_ :=
  match rs with
  | [] => (p, [], None)
  | r :: rs =>
      match babysitter_turn c pid r p with
      | None => (p, [], None)
      | Some (p, acts, Some l) => (p, acts, Some l)
      | Some (p, acts, None) => let '(p, more, l) := babysitter_turns c pid rs p in (p, acts ++ more, l)
      end
  end.

(** [began]: the first clock.  No [left_]: it still waits. *)
Definition babysitter_wait (c : babysitter_configure_t) (pid fd began : Z) (rs : list round) (s : sitter)
  : sitter * list action * option left_ :=
  let '(p, acts, l) := babysitter_turns c pid rs (mkPost s fd began) in (sit p, acts, l).

(** ** Pipes *)

Definition close_ (fd : Z) : list action := if fd <? 0 then [] else [Close fd].

Definition babysitter_destroy_pipes (pipefd : Z * Z) : list action := close_ pipefd.1 ++ close_ pipefd.2.

(** What pipe and set_non_blocking_mode answer. *)
Inductive piped : Type :=
| PipeError
| PipeBlocking (r w : Z)
| Piped (r w : Z).

Definition babysitter_create_pipes (c : babysitter_configure_t) (answer : piped) : option (Z * Z) * list action :=
  if watchdog_timer c =? 0 then (Some (-1, -1), [])
  else
    match answer with
    | PipeError => (None, [])
    | PipeBlocking r w => (None, [Open r; Open w] ++ babysitter_destroy_pipes (r, w))
    | Piped r w => (Some (r, w), [Open r; Open w])
    end.

(** ** Spawning *)

(** What the system answers around a child: fork, in the child whether the
    signals could be reset, the first clock, the rounds, what babysitter_delay
    gets from msleep_signal, and the next pipes. *)
Record life : Type := mkLife {
  forked : option Z;
  reset : bool;
  began : Z;
  rounds : list round;
  slept : Z;
  repiped : piped
}.

(** How babysitter_spawn ends: in the child, by return to the caller or by
    _exit in the parent. *)
Inductive end_ : Type :=
| Child (g_watchdog_fd : Z)
| Failed
| Exit_ (code : Z).

Definition EXIT_SUCCESS : Z := 0.
Definition EXIT_FAILURE : Z := 1.

(** babysitter_delay: whether the sleep, if any, was good; [None] if not. *)
Definition babysitter_delay (milliseconds slept : Z) (s : sitter) : option sitter * list action :=
  if milliseconds <=? 0 then (Some s, [])
  else (if negb (slept =? 0) then None else Some (dump s), [Sleep milliseconds]).

(** Behind the loop. *)
Definition quit (c : babysitter_configure_t) : list action := if cleanup c then [Cleanup] else [].

(** The loop: [None] as the end while it still waits. *)
Fixpoint babysitter_lives (c : babysitter_configure_t) (ls : list life) (times : Z) (pipefd : Z * Z) (s : sitter)
  : list action * option end_ :=
  match ls with
  | [] => ([], None)
  | l :: ls =>
      match forked l with
      | None => (babysitter_destroy_pipes pipefd, Some Failed)
      | Some pid =>
          if pid =? 0 then
            if negb (reset l) then ([], Some (Exit_ EXIT_FAILURE)) else (close_ pipefd.1, Some (Child pipefd.2))
          else
            let '(s, waiting, ended) := babysitter_wait c pid pipefd.1 (began l) (rounds l) s in
            let acts := [Fork pid] ++ close_ pipefd.2 ++ waiting in
            match ended with
            | None => (acts, None)
            | Some Exited => (acts, Some (Exit_ EXIT_FAILURE))
            | Some (Returned ret status) =>
                let acts := acts ++ close_ pipefd.1 in
                if ret <? 0 then (acts, Some (Exit_ EXIT_FAILURE))
                else if (ret =? 0) && negb (unconditional c) then (acts ++ quit c, Some (Exit_ EXIT_SUCCESS))
                else
                  let delay := if ret =? 2 then coredump_delay c else normal_delay c in
                  let '(cancelled, spawned) := match spawn c with
                                               | Some f => (negb (f status =? 0), [Spawn status])
                                               | None => (false, [])
                                               end in
                  let acts := acts ++ spawned in
                  if cancelled then (acts ++ quit c, Some (Exit_ EXIT_SUCCESS))
                  else
                    let '(s', slept) := babysitter_delay delay (slept l) s in
                    let acts := acts ++ slept in
                    match s' with
                    | None => (acts, Some (Exit_ EXIT_FAILURE))
                    | Some s =>
                        let '(pipefd, made) := babysitter_create_pipes c (repiped l) in
                        let acts := acts ++ made in
                        match pipefd with
                        | None => (acts, Some (Exit_ EXIT_FAILURE))
                        | Some pipefd =>
                            let times := if restart_times c =? 0 then times else times + 1 in
                            if negb (restart_times c =? 0) && (restart_times c <? times) then (acts, Some (Exit_ EXIT_FAILURE))
                            else let '(more, e) := babysitter_lives c ls times pipefd (dump s) in (acts ++ more, e)
                        end
                    end
            end
      end
  end.

(** [blocked]: whether all signals could be blocked, [handled]: the error of
    signals_set_handler for each signal, 0 if none. *)
Definition babysitter_initialize (c : option babysitter_configure_t) (p : piped) (blocked : bool) (handled : Z -> Z)
  : option (Z * Z) * list action :=
  match c with
  | None => (None, [])
  | Some c =>
      let '(pipefd, made) := babysitter_create_pipes c p in
      match pipefd with
      | None => (None, made)
      | Some pipefd =>
          if negb blocked then (None, made ++ babysitter_destroy_pipes pipefd)
          else if negb (forallb (fun i => (handled i =? 0) || (handled i =? EINVAL)) every_signal)
          then (None, made ++ babysitter_destroy_pipes pipefd)
          else (Some pipefd, made)
      end
  end.

Definition babysitter_spawn (c : option babysitter_configure_t) (p : piped) (blocked : bool) (handled : Z -> Z) (ls : list life)
    (s : sitter) : list action * option end_ :=
  let '(pipefd, made) := babysitter_initialize c p blocked handled in
  match c, pipefd with
  | Some c, Some pipefd => let '(acts, e) := babysitter_lives c ls 0 pipefd s in (made ++ acts, e)
  | _, _ => (made, Some Failed)
  end.

(** [written]: whether safe_write of the byte succeeds. *)
Definition babysitter_feed (written : bool) (g_watchdog_fd : Z) : Z * list action :=
  if g_watchdog_fd <? 0 then (g_watchdog_fd, [])
  else if written then (g_watchdog_fd, []) else (-1, close_ g_watchdog_fd).

(** ** The watchdog *)

Lemma check_watchdog_false c last_feed now : babysitter_check_watchdog c last_feed now = false <->
  watchdog_timer c <> 0 /\ watchdog_timer c <= Z.quot (now - last_feed) 1000000.
Proof. unfold babysitter_check_watchdog. destruct (Z.eqb_spec (watchdog_timer c) 0); [by split; [|intros [? _]]|]. lia. Qed.

(** A bark is due: the signal of the configuration, to the child, when the
    timer has run out since the last feed, which is the first clock or one of
    those behind a feed. *)
Definition due (c : babysitter_configure_t) (pid : Z) (feeds : list Z) (a : action) : Prop :=
  match a with
  | Bark p sig at_ since =>
      p = pid /\ sig = bark_signal c /\ watchdog_timer c <> 0 /\ watchdog_timer c <= Z.quot (at_ - since) 1000000 /\ since ∈ feeds
  | Relay p _ => p = pid
  | _ => False
  end.

Lemma due_weaken c pid feeds feeds' a : feeds ⊆ feeds' -> due c pid feeds a -> due c pid feeds' a.
Proof. intros H. destruct a; cbn; try done. intros (? & ? & ? & ? & ?). split_and!; auto. Qed.

Lemma feed_fed r p p' : feed r p = Some p' -> sit p' = sit p /\ last_feed p' ∈ [last_feed p; fed_at r] /\ (fd p' = fd p \/ fd p' = -1).
Proof.
  unfold feed. destruct (fd p <? 0); [intros [= <-]|destruct (babysitter_suck_fd 0 (reads r)) as [ret|]; [|done]; intros [= <-];
    destruct (ret <? 0); [|destruct (0 <? ret)]]; cbn; (split_and!; [done|set_solver|auto]).
Qed.

Lemma turn_due c pid r p p' acts l : babysitter_turn c pid r p = Some (p', acts, l) ->
  Forall (due c pid [last_feed p]) acts /\ last_feed p' ∈ [last_feed p; fed_at r].
Proof.
  unfold babysitter_turn. set (s := fold_left _ _ _). destruct (match selected r with Some e => _ | None => false end);
    [intros [= <- <- <-]; split; [constructor|set_solver]|]. cbn [sit fd last_feed].
  assert (forall p0, last_feed p0 = last_feed p ->
    (if negb (babysitter_check_watchdog c (last_feed p0) (checked_at r)) then
       Some (mkPost (sit p0) (-1) (last_feed p0), [Bark pid (bark_signal c) (checked_at r) (last_feed p0)], None)
     else
       let '(s, ret, acts) := babysitter_relay_signals pid (kill r) (sit p0) in
       if negb (ret =? 0) then Some (mkPost s (fd p0) (last_feed p0), acts, Some (Returned (-1) 0))
       else match feed r (mkPost s (fd p0) (last_feed p0)) with None => None | Some p => Some (p, acts, None) end)
    = Some (p', acts, l) -> Forall (due c pid [last_feed p]) acts /\ last_feed p' ∈ [last_feed p; fed_at r]) as Hgo.
  { intros p0 E0. destruct (babysitter_check_watchdog _ _ _) eqn:Ec; cbn [negb].
    - cbn. assert (Forall (due c pid [last_feed p]) (map (Relay pid) (g_signals (sit p0)))) as Hr by (apply Forall_map, Forall_true; intros; reflexivity).
      destruct (forallb _ _); cbn.
      + destruct (feed r _) as [p1|] eqn:Ef; [|done]. intros [= <- <- <-]. apply feed_fed in Ef as (_ & H & _). cbn in H. rewrite E0 in H. by split.
      + intros [= <- <- <-]. cbn. rewrite E0. split; [done|set_solver].
    - apply check_watchdog_false in Ec as [H1 H2]. intros [= <- <- <-]. cbn. rewrite E0 in *. split; [|set_solver].
      repeat constructor; try done. }
  destruct (g_child_exited s); [|by apply (Hgo (mkPost s (fd p) (last_feed p)))].
  destruct (babysitter_waitpid pid (waits r)) as [[ret status]|]; [|done]. destruct (ret <? 0); [intros [= <- <- <-]; split; [constructor|set_solver]|].
  destruct (0 <? ret); [intros [= <- <- <-]; split; [constructor|set_solver]|].
  by apply (Hgo (mkPost (mkSitter false (g_signals s)) (fd p) (last_feed p))).
Qed.

Lemma turns_due c pid rs p p' acts l :
  babysitter_turns c pid rs p = (p', acts, l) -> Forall (due c pid (last_feed p :: map fed_at rs)) acts.
Proof.
  revert p p' acts l. induction rs as [|r rs IH]; intros p p' acts l; cbn [babysitter_turns map]; [intros [= <- <- <-]; constructor|].
  destruct (babysitter_turn c pid r p) as [[[p1 a1] l1]|] eqn:E1; [|intros [= <- <- <-]; constructor].
  apply turn_due in E1 as [H1 H2].
  assert (Forall (due c pid (last_feed p :: fed_at r :: map fed_at rs)) a1) as H1'.
  { eapply Forall_impl; [exact H1|]. intros a. apply due_weaken. set_solver. }
  destruct l1 as [l1|]; [by intros [= <- <- <-]|].
  destruct (babysitter_turns c pid rs p1) as [[p2 a2] l2] eqn:E2. intros [= <- <- <-]. apply Forall_app. split; [done|].
  eapply Forall_impl; [by eapply IH|]. intros a. apply due_weaken. set_solver.
Qed.

(** The watchdog is right: the parent touches nobody but its child; it
    sends the signal of the watchdog only when the timer has run out since the
    last feed; and a turn that finds the child late always sends it. *)
Theorem babysitter_watchdog c pid rs p p' acts l :
  babysitter_turns c pid rs p = (p', acts, l) ->
  Forall (due c pid (last_feed p :: map fed_at rs)) acts /\
  (forall r q acts', babysitter_turn c pid r p = Some (q, acts', None) -> watchdog_timer c <> 0 ->
     watchdog_timer c <= Z.quot (checked_at r - last_feed p) 1000000 ->
     acts' = [Bark pid (bark_signal c) (checked_at r) (last_feed p)]).
Proof.
  intros E. split; [by eapply turns_due|].
  intros r q acts' E1 Ht Hl. revert E1. unfold babysitter_turn. set (s := fold_left _ _ _).
  assert (babysitter_check_watchdog c (last_feed p) (checked_at r) = false) as Hc by (by apply check_watchdog_false).
  destruct (match selected r with Some e => _ | None => false end); [done|]. cbn [sit fd last_feed]. rewrite Hc. cbn [negb].
  destruct (g_child_exited s); [|by intros [= <- <-]].
  destruct (babysitter_waitpid pid (waits r)) as [[ret status]|]; [|done]. destruct (ret <? 0); [done|]. destruct (0 <? ret); [done|].
  by intros [= <- <-].
Qed.

(** ** Descriptors and restarts *)

(** The descriptors that are open behind a trace; none if it opens one that is
    open or closes one that is not. *)
Fixpoint ledger (acts : list action) (opened : gset Z) : option (gset Z) :=
  match acts with
  | [] => Some opened
  | Open fd :: acts => if bool_decide (fd ∈ opened) then None else ledger acts ({[fd]} ∪ opened)
  | Close fd :: acts => if bool_decide (fd ∈ opened) then ledger acts (opened ∖ {[fd]}) else None
  | _ :: acts => ledger acts opened
  end.

Definition neutral (a : action) : Prop := match a with Open _ | Close _ => False | _ => True end.



#[export] Instance is_fork_dec a : Decision (exists pid, a = Fork pid).
Proof. destruct a; (left; by eexists) || (right; by intros [? ?]). Defined.

Definition forks (acts : list action) : Z := zlen (filter (fun a => exists pid, a = Fork pid) acts).

Lemma forks_app a b : forks (a ++ b) = forks a + forks b.
Proof. unfold forks. by rewrite filter_app, zlen_app. Qed.

Lemma ledger_app a b opened : ledger (a ++ b) opened = ledger a opened ≫= ledger b.
Proof. revert opened. induction a as [|[] a IH]; intros opened; cbn; try done; case_bool_decide; done. Qed.

Lemma ledger_neutral acts opened : Forall neutral acts -> ledger acts opened = Some opened.
Proof. induction 1 as [|[] acts H _ IH]; by try destruct H. Qed.

(** pipe gives two new descriptors. *)
Definition fresh (p : piped) : Prop :=
  match p with PipeError => True | PipeBlocking r w | Piped r w => 0 <= r /\ 0 <= w /\ r <> w end.

Definition end_of (fd : Z) : gset Z := if fd <? 0 then ∅ else {[fd]}.
Definition ends (pipefd : Z * Z) : gset Z := end_of pipefd.1 ∪ end_of pipefd.2.
Definition sane (pipefd : Z * Z) : Prop := pipefd.1 <> pipefd.2 \/ pipefd.1 < 0 /\ pipefd.2 < 0.

Lemma ledger_close fd opened : end_of fd ⊆ opened -> ledger (close_ fd) opened = Some (opened ∖ end_of fd).
Proof.
  unfold close_, end_of. destruct (fd <? 0); cbn; [intros _; f_equal; set_solver|].
  intros H. by rewrite bool_decide_eq_true_2 by set_solver.
Qed.

Lemma end_of_disjoint r w : sane (r, w) -> end_of r ## end_of w.
Proof. unfold sane, end_of. cbn. destruct (Z.ltb_spec r 0), (Z.ltb_spec w 0); set_solver by lia. Qed.

Lemma ledger_destroy pipefd : sane pipefd -> ledger (babysitter_destroy_pipes pipefd) (ends pipefd) = Some ∅.
Proof.
  destruct pipefd as [r w]. intros H%end_of_disjoint. unfold babysitter_destroy_pipes, ends. cbn [fst snd].
  rewrite ledger_app, ledger_close by set_solver. cbn. rewrite ledger_close by set_solver. f_equal. set_solver.
Qed.

Lemma ledger_create c p : fresh p ->
  match babysitter_create_pipes c p with
  | (Some pipefd, acts) => sane pipefd /\ ledger acts ∅ = Some (ends pipefd)
  | (None, acts) => ledger acts ∅ = Some ∅
  end.
Proof.
  unfold babysitter_create_pipes. destruct (watchdog_timer c =? 0); [by split; [by right|]|].
  assert (forall r w, fresh (Piped r w) -> sane (r, w) /\ ledger [Open r; Open w] ∅ = Some (ends (r, w))) as H.
  { cbn. intros r w (Hr & Hw & Hne). split; [by left|]. rewrite !bool_decide_eq_false_2 by set_solver.
    unfold ends, end_of. cbn. destruct (Z.ltb_spec r 0), (Z.ltb_spec w 0); try lia. f_equal. set_solver. }
  destruct p as [|r w|r w]; intros Hf; [done| |by apply H].
  destruct (H r w Hf) as [H1 H2]. rewrite ledger_app, H2. by apply ledger_destroy.
Qed.

Lemma wait_neutral c pid fd began rs s s' acts l : babysitter_wait c pid fd began rs s = (s', acts, l) ->
  Forall neutral acts /\ forks acts = 0.
Proof.
  unfold babysitter_wait. destruct (babysitter_turns _ _ _ _) as [[p a] l'] eqn:E. intros [= <- <- <-]. apply turns_due in E.
  revert E. generalize (last_feed (mkPost s fd began) :: map fed_at rs) as feeds. intros feeds.
  induction 1 as [|x a H _ [H1 H2]]; [done|]. split; [constructor; [by destruct x|done]|].
  unfold forks in *. rewrite filter_cons_False; [done|]. intros [pid' ->]. by destruct H.
Qed.

Lemma delay_neutral ms slept s :
  Forall neutral (babysitter_delay ms slept s).2 /\ forks (babysitter_delay ms slept s).2 = 0.
Proof. unfold babysitter_delay. destruct (ms <=? 0); [by split|]. cbn. split; [repeat constructor|done]. Qed.

Lemma create_forks c p : forks (babysitter_create_pipes c p).2 = 0.
Proof.
  unfold babysitter_create_pipes, babysitter_destroy_pipes, close_. destruct (_ =? 0); [done|]. destruct p as [|r w|]; try done.
  cbn [fst snd]. by destruct (r <? 0), (w <? 0).
Qed.

Lemma close_forks fd : forks (close_ fd) = 0.
Proof. unfold close_. by destruct (fd <? 0). Qed.

(** waitpid fails for the child of this life. *)
Definition wait_fails (c : babysitter_configure_t) (l : life) : Prop :=
  exists pid fd s s' acts, babysitter_wait c pid fd (began l) (rounds l) s = (s', acts, Some Exited).

(** What is open in the end: nothing, but in the child its end of the pipe.  A
    parent that gives up leaves a pipe that it has just made for a child that
    is one too many, or the end it reads if waitpid fails; and a child that
    cannot reset its signals leaves what it has.  [times]: the restarts before
    [acts]. *)
Definition tidy (c : babysitter_configure_t) (ls : list life) (times : Z) (acts : list action) (e : option end_)
    (rest : gset Z) : Prop :=
  match e with
  | Some (Child w) => rest = end_of w
  | Some Failed => rest = ∅
  | Some (Exit_ code) =>
      rest = ∅ \/ code = EXIT_FAILURE /\ exists l, l ∈ ls /\
        ((restart_times c <> 0 /\ restart_times c < times + forks acts /\ exists r w, repiped l = Piped r w /\ rest = {[r; w]}) \/
         (wait_fails c l /\ exists r, rest = {[r]}) \/
         (forked l = Some 0 /\ reset l = false))
  | None => True
  end.

Lemma tidy_later c l ls times times' acts before e rest :
  tidy c ls times' acts e rest -> times' <= times + forks before -> tidy c (l :: ls) times (before ++ acts) e rest.
Proof.
  intros H Hle. destruct e as [[w| |code]|]; try done. destruct H as [H|(Hc & l' & Hl & H)]; [by left|right].
  split; [done|]. exists l'. split; [by right|]. rewrite forks_app.
  destruct H as [(H1 & H2 & H3)|H]; [left; split_and!; [done|lia|done]|by right].
Qed.

Lemma ends_piped c l pipefd acts : fresh (repiped l) -> babysitter_create_pipes c (repiped l) = (Some pipefd, acts) ->
  ends pipefd = ∅ \/ exists r w, repiped l = Piped r w /\ ends pipefd = {[r; w]}.
Proof.
  unfold babysitter_create_pipes. destruct (watchdog_timer c =? 0); [intros _ [= <- <-]; by left|].
  destruct (repiped l) as [|r w|r w]; try done. intros (Hr & Hw & _) [= <- <-]. right. exists r, w. split; [done|].
  unfold ends, end_of. cbn. by destruct (Z.ltb_spec r 0), (Z.ltb_spec w 0); try lia.
Qed.

Lemma end_of_one fd : end_of fd = ∅ \/ exists r, end_of fd = {[r]}.
Proof. unfold end_of. destruct (fd <? 0); [by left|right; by exists fd]. Qed.

#[local] Ltac leaves := eexists; split; [done|first [done | by left]].

Lemma lives_spec c ls : Forall (fun l => fresh (repiped l)) ls -> forall times pipefd s acts e,
  sane pipefd -> babysitter_lives c ls times pipefd s = (acts, e) ->
  (exists rest, ledger acts (ends pipefd) = Some rest /\ tidy c ls times acts e rest) /\
  (0 < restart_times c -> times <= restart_times c -> forks acts + times <= restart_times c + 1).
Proof.
  induction 1 as [|l ls Hf Hls IH]; intros times pipefd s acts e Hp; cbn [babysitter_lives].
  { intros [= <- <-]. split; [by eexists|]. change (forks []) with 0. lia. }
  destruct (forked l) as [pid|] eqn:Efk; cycle 1.
  { intros [= <- <-]. rewrite ledger_destroy by done. split; [by eexists|]. unfold babysitter_destroy_pipes. rewrite forks_app, !close_forks. lia. }
  pose proof (end_of_disjoint pipefd.1 pipefd.2) as Hd. rewrite <- surjective_pairing in Hd. specialize (Hd Hp).
  destruct (pid =? 0) eqn:Ezero; [apply Z.eqb_eq in Ezero|clear Ezero].
  { destruct (reset l) eqn:Er; cbn [negb]; intros [= <- <-]; cycle 1.
    { split; [|change (forks []) with 0; lia]. eexists. split; [done|]. right. split; [done|]. exists l. split; [by left|].
      right. right. split; [|done]. by rewrite Efk, Ezero. }
    rewrite ledger_close by (unfold ends; set_solver).
    split; [eexists; split; [done|unfold ends; cbn; set_solver]|]. rewrite close_forks. lia. }
  destruct (babysitter_wait _ _ _ _ _ _) as [[s1 waiting] ended] eqn:Ew. pose proof Ew as [Hn Hfw]%wait_neutral.
  set (a0 := [Fork pid] ++ close_ pipefd.2 ++ waiting).
  assert (ledger a0 (ends pipefd) = Some (end_of pipefd.1)) as H0.
  { unfold a0. cbn [app ledger]. rewrite ledger_app, ledger_close by (unfold ends; set_solver). cbn. rewrite ledger_neutral by done.
    f_equal. unfold ends. set_solver. }
  assert (forks a0 = 1) as Hf0 by (unfold a0; rewrite !forks_app, close_forks, Hfw; done).
  clearbody a0. destruct ended as [[ret status|]|]; cycle 1.
  { intros [= <- <-]. split; [|lia]. eexists. split; [done|]. destruct (end_of_one pipefd.1) as [?|?]; [by left|right].
    split; [done|]. exists l. split; [by left|]. right. left. split; [|done]. by eexists _, _, _, _, _. }
  { intros [= <- <-]. split; [leaves|lia]. }
  set (a1 := a0 ++ close_ pipefd.1).
  assert (ledger a1 (ends pipefd) = Some ∅) as H1.
  { unfold a1. rewrite ledger_app, H0. cbn. rewrite ledger_close by done. f_equal. set_solver. }
  assert (forks a1 = 1) as Hf1 by (unfold a1; rewrite forks_app, close_forks; lia).
  clearbody a1. destruct (ret <? 0); [intros [= <- <-]; split; [leaves|lia]|].
  assert (forks (quit c) = 0 /\ Forall neutral (quit c)) as [Hq1 Hq2].
  { unfold quit. destruct (cleanup c); [split; [done|repeat constructor]|by split]. }
  assert (forall a b, ledger a (ends pipefd) = Some ∅ -> Forall neutral b -> ledger (a ++ b) (ends pipefd) = Some ∅) as Happ.
  { intros a b Ha Hb. rewrite ledger_app, Ha. cbn. by apply ledger_neutral. }
  destruct ((ret =? 0) && _); [intros [= <- <-]; rewrite Happ, forks_app by done; split; [leaves|lia]|].
  set (x := match spawn c with Some f => _ | None => _ end).
  assert (Forall neutral x.2 /\ forks x.2 = 0) as [Hx1 Hx2] by (unfold x; destruct (spawn c); (split; [repeat constructor|done])).
  destruct x as [cancelled spawned]. cbn in Hx1, Hx2.
  destruct cancelled; [intros [= <- <-]; rewrite !Happ, !forks_app by (done || by apply Happ); split; [leaves|lia]|].
  pose proof (delay_neutral (if ret =? 2 then coredump_delay c else normal_delay c) (slept l) s1) as [Hy1 Hy2].
  destruct (babysitter_delay _ _ _) as [s2 y]. cbn in Hy1, Hy2. set (a2 := (a1 ++ spawned) ++ y).
  assert (ledger a2 (ends pipefd) = Some ∅) as H2 by (apply Happ; [by apply Happ|done]).
  assert (forks a2 = 1) as Hf2 by (unfold a2; rewrite !forks_app; lia).
  clearbody a2. destruct s2 as [s2|]; [|intros [= <- <-]; split; [leaves|lia]].
  pose proof (ledger_create c (repiped l) Hf) as Hc. pose proof (create_forks c (repiped l)) as Hfc.
  destruct (babysitter_create_pipes c (repiped l)) as [pipefd' made] eqn:Emk. cbn in Hfc.
  destruct pipefd' as [pipefd'|]; [destruct Hc as [Hp' Hc]|].
  - destruct (negb (restart_times c =? 0) && _) eqn:Et.
    + intros [= <- <-]. rewrite ledger_app, H2. cbn [option_bind mbind option_map]. split; [|rewrite forks_app; lia].
      exists (ends pipefd'). split; [done|]. destruct (ends_piped c l pipefd' made Hf Emk) as [?|(r & w & Er & Ee)]; [by left|right].
      split; [done|]. exists l. split; [by left|]. left. rewrite forks_app. destruct (Z.eqb_spec (restart_times c) 0); [done|].
      cbn in Et. split_and!; [done|lia|by exists r, w].
    + destruct (babysitter_lives c ls _ pipefd' (dump s2)) as [more e'] eqn:El. intros [= <- <-].
      apply IH in El as [[rest [E1 E2]] E3]; [|done]. split.
      { exists rest. rewrite !ledger_app, H2. cbn. rewrite Hc. cbn. split; [done|]. eapply tidy_later; [exact E2|].
        rewrite forks_app. destruct (Z.eqb_spec (restart_times c) 0); lia. }
      rewrite !forks_app. intros Hr Ht. destruct (Z.eqb_spec (restart_times c) 0); [lia|]. cbn in Et. lia.
  - intros [= <- <-]. rewrite ledger_app, H2, forks_app. split; [leaves|lia].
Qed.

(** C33: whatever the system answers: the parent restarts its child at most as
    often as it was told; every descriptor of a pipe is closed once, and after
    it was opened; none is left open in the parent when the function returns or
    has done its work, and the child keeps its end only, which is where it
    feeds the watchdog.  A parent that gives up ([_exit] with EXIT_FAILURE)
    leaves none either, but for the fresh pipe when a restart would be one too
    many - it is made before the restarts are counted - and the end that it
    reads when waitpid fails. *)
Theorem babysitter_accounts c p blocked handled ls s acts e :
  fresh p -> Forall (fun l => fresh (repiped l)) ls ->
  babysitter_spawn (Some c) p blocked handled ls s = (acts, e) ->
  (exists rest, ledger acts ∅ = Some rest /\ tidy c ls 0 acts e rest) /\
  (0 < restart_times c -> forks acts <= restart_times c + 1).
Proof.
  intros Hf Hls. unfold babysitter_spawn, babysitter_initialize.
  pose proof (ledger_create c p Hf) as Hc. pose proof (create_forks c p) as Hfc.
  destruct (babysitter_create_pipes c p) as [pipefd made]. cbn in Hfc.
  destruct pipefd as [pipefd|]; [|intros [= <- <-]; split; [leaves|lia]]. destruct Hc as [Hp Hc].
  assert (ledger (made ++ babysitter_destroy_pipes pipefd) ∅ = Some ∅) as Hd by (rewrite ledger_app, Hc; by apply ledger_destroy).
  assert (forks (made ++ babysitter_destroy_pipes pipefd) = 0) as Hfd.
  { unfold babysitter_destroy_pipes. rewrite !forks_app, !close_forks. lia. }
  destruct (negb blocked); [intros [= <- <-]; split; [leaves|lia]|].
  destruct (negb (forallb _ _)); [intros [= <- <-]; split; [leaves|lia]|].
  destruct (babysitter_lives c ls 0 pipefd s) as [more e'] eqn:El. intros [= <- <-].
  apply lives_spec in El as [[rest [E1 E2]] E3]; [|done..]. split; [|rewrite forks_app; lia].
  exists rest. rewrite ledger_app, Hc. split; [done|]. unfold tidy in *. by rewrite forks_app, Hfc.
Qed.

(** ** Signals *)

Definition relayed (sigs : list Z) : list Z := filter (fun sig => sig <> SIGCHLD) sigs.

(** The queue keeps the first sixteen signals; SIGCHLD is only noted. *)
Lemma handler_queue sigs s : (length (g_signals s) <= 16)%nat ->
  fold_left (fun s sig => babysitter_signal_handler sig s) sigs s =
  mkSitter (g_child_exited s || bool_decide (SIGCHLD ∈ sigs)) (take 16 (g_signals s ++ relayed sigs)).
Proof.
  unfold relayed. revert s. induction sigs as [|sig sigs IH]; intros [b q] Hq; cbn [fold_left g_signals g_child_exited] in *.
  { rewrite bool_decide_eq_false_2, orb_false_r by set_solver. cbn. by rewrite app_nil_r, take_ge. }
  unfold babysitter_signal_handler at 2. cbn [g_signals g_child_exited]. destruct (Z.eqb_spec sig SIGCHLD) as [->|Hne].
  - rewrite IH by done. cbn [g_signals g_child_exited]. rewrite filter_cons_False by (intros H; by apply H).
    rewrite (bool_decide_eq_true_2 (_ ∈ SIGCHLD :: sigs)) by set_solver. by rewrite orb_true_r.
  - rewrite filter_cons_True by done.
    assert (bool_decide (SIGCHLD ∈ sig :: sigs) = bool_decide (SIGCHLD ∈ sigs)) as -> by (apply bool_decide_ext; set_solver).
    destruct (Z.eqb_spec (zlen q) 16) as [E|E]; unfold zlen in E; rewrite IH by (cbn [g_signals]; rewrite ?length_app; cbn; lia); cbn [g_signals g_child_exited].
    + f_equal. by rewrite !take_app_length' by lia.
    + by rewrite <- app_assoc.
Qed.

Lemma turn_relays c pid r p q acts l : watchdog_timer c = 0 -> g_signals (sit p) = [] -> (length (arrived r) <= 16)%nat ->
  babysitter_turn c pid r p = Some (q, acts, l) ->
  g_signals (sit q) = [] /\ acts = map (Relay pid) (relayed (arrived r)) \/ acts = [] /\ l <> None.
Proof.
  intros Hc Hs Ha. unfold babysitter_turn. rewrite handler_queue by (rewrite Hs; cbn; lia). rewrite Hs. cbn [app].
  rewrite take_ge by (etransitivity; [apply length_filter|done]).
  destruct (match selected r with Some e => _ | None => false end); [intros [= <- <- <-]; by right|]. cbn [sit fd last_feed].
  assert (forall n, babysitter_check_watchdog c (last_feed p) n = true) as Hw by (intros; unfold babysitter_check_watchdog; by rewrite Hc).
  rewrite Hw. cbn [negb]. unfold babysitter_relay_signals. cbn [g_signals g_child_exited].
  assert (forall b b' f x, (if negb ((if b : bool then 0 else -1) =? 0) then Some (mkPost (mkSitter b' []) f x, map (Relay pid) (relayed (arrived r)), Some (Returned (-1) 0))
    else match feed r (mkPost (mkSitter b' []) f x) with None => None | Some p => Some (p, map (Relay pid) (relayed (arrived r)), None) end) =
    Some (q, acts, l) -> g_signals (sit q) = [] /\ acts = map (Relay pid) (relayed (arrived r))) as Hgo.
  { intros b b' f x. destruct (negb _); [by intros [= <- <- <-]|]. destruct (feed r _) as [p1|] eqn:Ef; [|done].
    intros [= <- <- <-]. apply feed_fed in Ef as [E _]. by rewrite E. }
  destruct (_ || _); [|intros E; left; by eapply Hgo].
  destruct (babysitter_waitpid pid (waits r)) as [[ret status]|]; [|done]. destruct (ret <? 0); [intros [= <- <- <-]; by right|].
  destruct (0 <? ret); [intros [= <- <- <-]; by right|]. intros E. left. by eapply Hgo.
Qed.

(** Without a watchdog, and with no more than sixteen signals at a time, the
    child gets all that arrive before the turn in which it ends, in order and
    once. *)
Theorem babysitter_relays c pid rs p p' acts l :
  watchdog_timer c = 0 -> g_signals (sit p) = [] -> Forall (fun r => (length (arrived r) <= 16)%nat) rs ->
  babysitter_turns c pid rs p = (p', acts, l) ->
  exists n, acts = map (Relay pid) (relayed (concat (map arrived (take n rs)))).
Proof.
  intros Hc Hs Ha. revert p p' acts l Hs. induction Ha as [|r rs Hr _ IH]; intros p p' acts l Hs; cbn [babysitter_turns].
  { intros [= <- <- <-]. by exists O. }
  destruct (babysitter_turn c pid r p) as [[[p1 a1] l1]|] eqn:E1; [|intros [= <- <- <-]; by exists O].
  apply turn_relays in E1 as [[H1 ->]|[-> Hl]]; [|destruct l1; [|done]; intros [= <- <- <-]; by exists O|done..].
  destruct l1 as [l1|].
  - intros [= <- <- <-]. exists 1%nat. cbn. by rewrite app_nil_r.
  - destruct (babysitter_turns c pid rs p1) as [[p2 a2] l2] eqn:E2. intros [= <- <- <-]. destruct (IH _ _ _ _ H1 E2) as [n ->].
    exists (S n). cbn [take map concat]. unfold relayed. by rewrite filter_app, map_app.
Qed.

(** ** An example

    A child that feeds once and then hangs is killed; the next one ends well. *)
Definition demo_configure : babysitter_configure_t := mkConfigure false 3 100 1000 50 0 None true.

Definition demo_round (arrived : list Z) (waits : list waited) (now : Z) (reads : list (Z + Z)) : round :=
  mkRound None arrived waits (now * 1000000) (fun _ => true) reads (now * 1000000).

Definition demo_lives : list life :=
  [mkLife (Some 100) true 0
     [demo_round [15] [] 30 [inr 1; inl EAGAIN]; demo_round [] [] 70 [inl EAGAIN]; demo_round [] [] 90 [];
      demo_round [SIGCHLD] [WaitPid 7 0; WaitPid 100 9] 91 []] 0 (Piped 5 6);
   mkLife (Some 101) true 0 [demo_round [SIGCHLD] [WaitPid 101 0] 10 []] 0 PipeError].

Lemma babysitter_accounts_witness :
  let '(acts, e) := babysitter_spawn (Some demo_configure) (Piped 3 4) true (fun _ => 0) demo_lives (mkSitter false []) in
  acts = [Open 3; Open 4; Fork 100; Close 4; Relay 100 15; Bark 100 9 90000000 30000000; Close 3; Sleep 100; Open 5; Open 6;
          Fork 101; Close 6; Close 5; Cleanup] /\ e = Some (Exit_ 0) /\
  (exists rest, ledger acts ∅ = Some rest /\ tidy demo_configure demo_lives 0 acts e rest) /\
  (0 < restart_times demo_configure -> forks acts <= 4).
Proof.
  destruct (babysitter_spawn _ _ _ _ _ _) as [acts e] eqn:E.
  assert (acts = [Open 3; Open 4; Fork 100; Close 4; Relay 100 15; Bark 100 9 90000000 30000000; Close 3; Sleep 100; Open 5; Open 6;
          Fork 101; Close 6; Close 5; Cleanup] /\ e = Some (Exit_ 0)) as [Ha He] by (vm_compute in E; by injection E as <- <-).
  split; [done|]. split; [done|].
  apply (babysitter_accounts demo_configure (Piped 3 4) true (fun _ => 0) demo_lives (mkSitter false []));
    [cbn; lia|repeat constructor; cbn; lia|exact E].
Defined.

(** A child too many: its pipe is made and left open. *)
Example babysitter_limit_leaves_pipe :
  let c := mkConfigure false 1 100 1000 50 0 None true in
  let died := fun pid next => mkLife (Some pid) true 0 [demo_round [SIGCHLD] [WaitPid pid 9] 10 []] 0 next in
  let '(acts, e) := babysitter_spawn (Some c) (Piped 3 4) true (fun _ => 0) [died 100 (Piped 5 6); died 101 (Piped 7 8)] (mkSitter false []) in
  e = Some (Exit_ EXIT_FAILURE) /\ ledger acts ∅ = Some {[7; 8]} /\ forks acts = 2.
Proof. vm_compute. by split_and!. Qed.

Lemma babysitter_watchdog_witness :
  exists p' acts, babysitter_turns demo_configure 100 (rounds (default (mkLife None true 0 [] 0 PipeError) (head demo_lives)))
    (mkPost (mkSitter false []) 3 0) = (p', acts, Some (Returned 1 9)) /\
  Forall (due demo_configure 100 [0; 30000000; 70000000; 90000000; 91000000]) acts.
Proof.
  eexists _, _. split; [vm_compute; reflexivity|].
  eapply (babysitter_watchdog demo_configure 100
    (rounds (default (mkLife None true 0 [] 0 PipeError) (head demo_lives))) (mkPost (mkSitter false []) 3 0)).
  vm_compute. reflexivity.
Defined.
