(* ===== verification/TimedIo.v ===== *)
(** * Reads and writes with a timeout: safeio.c

    [safe_timed_read] and its kin make a descriptor non-blocking, wait for it
    with poll and read or write until they are done or the time is over.  What
    the system answers is an argument: a list of [turn]s of the loop, [None]
    being the result while it waits on.  The result says what the caller gets,
    how the descriptor is left, and the timeouts that poll was given. *)

From Stdlib Require Import ZifyBool.
From S2P Require Import Prelude AbstractIo StateMonad Sockets SafeIo.

(** A turn of a loop: what poll returns, what the transfer returns when it is
    asked for [n] bytes, or given some, and the clock behind it. *)
Record turn (A : Type) : Type := mkTurn {
  polled : Z + Z;
  moved : A;
  now : Z
}.
Arguments mkTurn {A}.
Arguments polled {A}.
Arguments moved {A}.
Arguments now {A}.

(** The calls around a loop: the first clock, the flags of the descriptor (or
    an error), whether they could be set, and set back. *)
Record around : Type := mkAround {
  started : Z;
  getfl : option bool;
  setfl : bool;
  restored : bool
}.

(** [value] and [errno_] as for the caller; [nonblocking]: how the descriptor
    is left; [waits]: the timeouts of poll; [done_bytes]: what was transferred. *)
Record outcome : Type := mkOutcome {
  value : Z;
  errno_ : option Z;
  nonblocking : bool;
  waits : list Z;
  done_bytes : bytes
}.

(** safe_calculate_timeout, its clock being [t]. *)
Definition calculate_timeout (start milliseconds t : Z) : Z :=
  if t <? 0 then 0
  else
    let timeout := signed 32 (Z.quot (t - start) 1000000) in
    if (timeout <? 0) || (milliseconds <? timeout) then 0 else milliseconds - timeout.

Definition again (e : Z) : bool := (e =? EINTR) || (e =? EAGAIN) || (e =? EWOULDBLOCK).

(** How a loop is left: by return, with errno, or by break, [hup] when the
    peer is gone (read returned 0, write failed with EPIPE). *)
Inductive leaves : Type :=
| Returned (errno_ : Z)
| Broke (hup : bool).

Section Loops.
Context (start milliseconds : Z) (all : bool).

(** The loop of safe_timed_read_ex; [remain] bytes are missing. *)
Fixpoint read_loop (ts : list (turn (Z -> Z + bytes))) (timeout remain : Z) (result : bytes)
  : option (leaves * bytes * list Z) :=
  match ts with
  | [] => None
  | t :: ts =>
      let next remain result :=
        match read_loop ts (calculate_timeout start milliseconds (now t)) remain result with
        | Some (l, b, w) => Some (l, b, timeout :: w)
        | None => None
        end in
      match polled t with
      | inl e => if negb (e =? EINTR) then Some (Returned e, result, [timeout]) else next remain result
      | inr n =>
          if n =? 0 then Some (Returned ETIMEDOUT, result, [timeout])
          else
            match moved t remain with
            | inl e => if again e then next remain result else Some (Returned e, result, [timeout])
            | inr b =>
                if zlen b =? 0 then Some (Broke true, result, [timeout])
                else if (remain - zlen b =? 0) || negb all then Some (Broke false, result ++ b, [timeout])
                else next (remain - zlen b) (result ++ b)
            end
      end
  end.

(** The loop of safe_timed_write_ex over the bytes that are left. *)
Fixpoint write_loop (ts : list (turn (bytes -> Z + Z))) (timeout : Z) (left result : bytes)
  : option (leaves * bytes * list Z) :=
  match ts with
  | [] => None
  | t :: ts =>
      let next left result :=
        match write_loop ts (calculate_timeout start milliseconds (now t)) left result with
        | Some (l, b, w) => Some (l, b, timeout :: w)
        | None => None
        end in
      match polled t with
      | inl e => if negb (e =? EINTR) then Some (Returned e, result, [timeout]) else next left result
      | inr n =>
          if n =? 0 then Some (Returned ETIMEDOUT, result, [timeout])
          else
            match moved t left with
            | inl e =>
                if again e then next left result
                else if e =? EPIPE then Some (Broke true, result, [timeout])
                else Some (Returned e, result, [timeout])
            | inr n =>
                let k := Z.to_nat n in
                if (zlen left - n =? 0) || negb all then Some (Broke false, result ++ take k left, [timeout])
                else next (drop k left) (result ++ take k left)
            end
      end
  end.

(** The loop of safe_timed_accept: the new descriptor. *)
Fixpoint accept_loop (ts : list (turn (Z + Z))) (timeout : Z) : option (leaves * Z * list Z) :=
  match ts with
  | [] => None
  | t :: ts =>
      let next :=
        match accept_loop ts (calculate_timeout start milliseconds (now t)) with
        | Some (l, b, w) => Some (l, b, timeout :: w)
        | None => None
        end in
      match polled t with
      | inl e => if negb (e =? EINTR) then Some (Returned e, -1, [timeout]) else next
      | inr n =>
          if n =? 0 then Some (Returned ETIMEDOUT, -1, [timeout])
          else
            match moved t with
            | inl e => if again e then next else Some (Returned e, -1, [timeout])
            | inr fd => Some (Broke false, fd, [timeout])
            end
      end
  end.

End Loops.

(** Before a loop: the flags, or the early return; and behind it. *)
Definition before_loop (a : around) : option bool :=
  if started a <? 0 then None
  else
    match getfl a with
    | None => None
    | Some flag => if negb flag && negb (setfl a) then None else Some flag
    end.

(** The early return: -1, the descriptor as it was. *)
Definition failed (a : around) : outcome :=
  mkOutcome (-1) None (match getfl a with Some flag => flag | None => false end) [] [].

Definition safe_timed_read_ex (a : around) (ts : list (turn (Z -> Z + bytes))) (count milliseconds : Z) (all : bool)
    (safe_read : Z + bytes) : option outcome :=
  if milliseconds <? 0 then
    Some (match safe_read with
          | inl e => mkOutcome (-1) (Some e) (default false (getfl a)) [] []
          | inr b => mkOutcome (zlen b) None (default false (getfl a)) [] b
          end)
  else
    match before_loop a with
    | None => Some (failed a)
    | Some flag =>
        match read_loop (started a) milliseconds all ts milliseconds count [] with
        | None => None
        | Some (Returned e, b, w) => Some (mkOutcome (if zlen b =? 0 then -1 else zlen b) (Some e) true w b)
        | Some (Broke hup, b, w) =>
            if negb flag && negb (restored a) then Some (mkOutcome (-1) None true w b)
            else Some (mkOutcome (if (zlen b =? 0) && negb hup then -1 else zlen b) None flag w b)
        end
    end.

Definition safe_timed_write_ex (a : around) (ts : list (turn (bytes -> Z + Z))) (buf : bytes) (milliseconds : Z) (all : bool)
    (safe_write : Z + Z) : option outcome :=
  if milliseconds <? 0 then
    Some (match safe_write with
          | inl e => mkOutcome (-1) (Some e) (default false (getfl a)) [] []
          | inr n => mkOutcome n None (default false (getfl a)) [] (take (Z.to_nat n) buf)
          end)
  else
    match before_loop a with
    | None => Some (failed a)
    | Some flag =>
        match write_loop (started a) milliseconds all ts milliseconds buf [] with
        | None => None
        | Some (Returned e, b, w) => Some (mkOutcome (if zlen b =? 0 then -1 else zlen b) (Some e) true w b)
        | Some (Broke hup, b, w) =>
            if negb flag && negb (restored a) then Some (mkOutcome (-1) None true w b)
            else Some (mkOutcome (if zlen b =? 0 then -1 else zlen b) (if hup then Some EPIPE else None) flag w b)
        end
    end.

Definition safe_timed_read a ts count ms := safe_timed_read_ex a ts count ms false.
Definition safe_timed_read_all a ts count ms := safe_timed_read_ex a ts count ms true.
Definition safe_timed_recvfrom a ts count ms := safe_timed_read_ex a ts count ms false.
Definition safe_timed_write a ts buf ms := safe_timed_write_ex a ts buf ms false.
Definition safe_timed_write_all a ts buf ms := safe_timed_write_ex a ts buf ms true.
Definition safe_timed_sendto a ts buf ms := safe_timed_write_ex a ts buf ms false.

(** The accepted descriptor, which is lost when the flags cannot be set back,
    comes second. *)
Definition safe_timed_accept (a : around) (ts : list (turn (Z + Z))) (milliseconds : Z) (safe_accept : Z)
  : option (outcome * option Z) :=
  if milliseconds <? 0 then
    Some (mkOutcome safe_accept None (default false (getfl a)) [] [], if safe_accept <? 0 then None else Some safe_accept)
  else
    match before_loop a with
    | None => Some (failed a, None)
    | Some flag =>
        match accept_loop (started a) milliseconds ts milliseconds with
        | None => None
        | Some (Returned e, _, w) => Some (mkOutcome (-1) (Some e) true w [], None)
        | Some (Broke _, fd, w) =>
            if negb flag && negb (restored a) then Some (mkOutcome (-1) None true w [], Some fd)
            else Some (mkOutcome fd None flag w [], Some fd)
        end
    end.

(** [connect], [waited]: what connect and safe_wait_until_connected return. *)
Definition safe_timed_connect (a : around) (milliseconds : Z) (connect : Z + unit) (waited safe_connect : Z) : outcome :=
  if milliseconds <? 0 then mkOutcome safe_connect None (default false (getfl a)) [] []
  else
    match getfl a with
    | None => failed a
    | Some flag =>
        if negb flag && negb (setfl a) then failed a
        else
          let finish :=
            if negb flag && negb (restored a) then mkOutcome (-1) None true [] [] else mkOutcome 0 None flag [] [] in
          match connect with
          | inl e =>
              if negb (e =? EINPROGRESS) then mkOutcome (-1) (Some e) true [] []
              else if negb (waited =? 0) then mkOutcome (-1) None true [] []
              else finish
          | inr _ => finish
          end
    end.

(** safe_resolve_and_connect: what socket, set_non_blocking_mode, getaddrinfo
    and safe_connect answer are arguments ([connect]: 0 or errno).  The second
    result is the descriptor that the caller gets, the third whether one was closed. *)
Definition safe_resolve_and_connect (port : Z) (socket : option Z) (nonblocked resolved : bool) (connect : Z)
  : Z * option Z * bool :=
  if port =? 0 then (-1, None, false)
  else
    match socket with
    | None => (-1, None, false)
    | Some fd =>
        if negb nonblocked || negb resolved then (-1, None, true)
        else if connect =? 0 then (0, Some fd, false)
        else if connect =? EINPROGRESS then (1, Some fd, false)
        else (-1, None, true)
    end.

(** ** What is transferred *)

(** read(2) and write(2) do not exceed what they are asked for. *)
Definition honest_read (t : turn (Z -> Z + bytes)) : Prop := forall n b, 0 <= n -> moved t n = inr b -> zlen b <= n.
Definition honest_write (t : turn (bytes -> Z + Z)) : Prop := forall l n, moved t l = inr n -> 0 <= n <= zlen l.

(** The loop gives [count] bytes at most, and all of them when it must unless
    the peer hung up; one piece when it need not. *)
Lemma read_loop_spec start ms all ts timeout remain result l b w :
  Forall honest_read ts -> 0 <= remain -> read_loop start ms all ts timeout remain result = Some (l, b, w) ->
  exists more, b = result ++ more /\ zlen more <= remain /\
    (l = Broke false -> 0 < zlen more /\ (all = true -> zlen more = remain)).
Proof.
  intros Ht. revert timeout remain result w. induction Ht as [|t ts Hh Ht IH]; intros timeout remain result w Hr; cbn [read_loop]; [done|].
  assert (forall remain' result', 0 <= remain' ->
    match read_loop start ms all ts (calculate_timeout start ms (now t)) remain' result' with
    | Some (l, b, w) => Some (l, b, timeout :: w)
    | None => None
    end = Some (l, b, w) -> exists more, b = result' ++ more /\ zlen more <= remain' /\
    (l = Broke false -> 0 < zlen more /\ (all = true -> zlen more = remain'))) as Hn.
  { intros remain' result' Hr' E. destruct (read_loop _ _ _ _ _ remain' result') as [[[l' b'] w']|] eqn:E1; [|done].
    injection E as -> -> <-. by eapply IH. }
  assert (forall l', l' <> Broke false -> Some (l', result, [timeout]) = Some (l, b, w) -> exists more, b = result ++ more /\
    zlen more <= remain /\ (l = Broke false -> 0 < zlen more /\ (all = true -> zlen more = remain))) as Hs.
  { intros l' Hl [= <- <- <-]. exists []. rewrite app_nil_r. by split_and!. }
  destruct (polled t) as [e|n]; [destruct (negb _); [by apply Hs|by apply Hn]|]. destruct (n =? 0); [by apply Hs|].
  destruct (moved t remain) as [e|got] eqn:Em; [destruct (again e); [by apply Hn|by apply Hs]|].
  pose proof (Hh _ _ Hr Em) as Hle. pose proof (zlen_nonneg got) as H0. destruct (Z.eqb_spec (zlen got) 0) as [|Hne]; [by apply Hs|].
  destruct (_ || _) eqn:Eo.
  - intros [= <- <- <-]. exists got. split; [done|]. split; [done|]. intros _. split; [lia|]. intros ->. cbn in Eo. lia.
  - intros E. apply Hn in E as (more & -> & H1 & H2); [|lia]. exists (got ++ more). rewrite zlen_app, app_assoc.
    split; [done|]. split; [lia|]. intros Hl. destruct (H2 Hl) as [H3 H4]. split; [lia|]. intros Ha. specialize (H4 Ha). lia.
Qed.

Lemma write_loop_spec start ms all ts timeout left result l b w :
  Forall honest_write ts -> write_loop start ms all ts timeout left result = Some (l, b, w) ->
  exists n, b = result ++ take n left /\ (n <= length left)%nat /\ (l = Broke false -> all = true -> n = length left).
Proof.
  intros Ht. revert timeout left result w. induction Ht as [|t ts Hh Ht IH]; intros timeout left result w; cbn [write_loop]; [done|].
  assert (forall left' result',
    match write_loop start ms all ts (calculate_timeout start ms (now t)) left' result' with
    | Some (l, b, w) => Some (l, b, timeout :: w)
    | None => None
    end = Some (l, b, w) -> exists n, b = result' ++ take n left' /\ (n <= length left')%nat /\
    (l = Broke false -> all = true -> n = length left')) as Hn.
  { intros left' result' E. destruct (write_loop _ _ _ _ _ left' result') as [[[l' b'] w']|] eqn:E1; [|done].
    injection E as -> -> <-. by eapply IH. }
  assert (forall l', l' <> Broke false -> Some (l', result, [timeout]) = Some (l, b, w) ->
    exists n, b = result ++ take n left /\ (n <= length left)%nat /\ (l = Broke false -> all = true -> n = length left)) as Hs.
  { intros l' Hl [= <- <- <-]. exists O. split; [by rewrite app_nil_r|]. split; [lia|done]. }
  destruct (polled t) as [e|n]; [destruct (negb _); [by apply Hs|by apply Hn]|]. destruct (n =? 0); [by apply Hs|].
  destruct (moved t left) as [e|m] eqn:Em; [destruct (again e); [by apply Hn|destruct (e =? EPIPE); by apply Hs]|].
  pose proof (Hh _ _ Em) as Hle. unfold zlen in *. destruct (_ || _) eqn:Eo.
  - intros [= <- <- <-]. exists (Z.to_nat m). split; [done|]. split; [lia|]. intros _ ->. cbn in Eo. lia.
  - intros E. apply Hn in E as (k & -> & H1 & H2). rewrite length_drop in *. exists (Z.to_nat m + k)%nat.
    split; [by rewrite <- app_assoc, take_take_drop|]. split; [lia|]. intros Hl Ha. specialize (H2 Hl Ha). lia.
Qed.

(** ** The time *)

Lemma signed_small z : 0 <= z < 2147483648 -> signed 32 z = z.
Proof.
  intros Hz. unfold signed. rewrite Z.mod_small by (change (2 ^ 32) with 4294967296; lia).
  change (2 ^ (32 - 1)) with 2147483648. by destruct (Z.ltb_spec z 2147483648); [|lia].
Qed.

(** [t] lies within 24 days of the start. *)
Definition soon (start t : Z) : Prop := start <= t /\ t - start < 2147483648 * 1000000.

Lemma calculate_timeout_bounds start ms t : 0 <= start -> 0 <= ms -> soon start t ->
  0 <= calculate_timeout start ms t <= ms /\
  (0 < calculate_timeout start ms t -> t + calculate_timeout start ms t * 1000000 <= start + (ms + 1) * 1000000).
Proof.
  intros Hs Hm [H1 H2]. unfold calculate_timeout. destruct (Z.ltb_spec t 0); [lia|].
  rewrite Z.quot_div_nonneg by lia. set (d := (t - start) / 1000000).
  assert (0 <= d < 2147483648) as Hd by (unfold d; split; [apply Z.div_pos; lia|apply Z.div_lt_upper_bound; lia]).
  rewrite signed_small by lia.
  pose proof (Z.div_mod (t - start) 1000000 ltac:(lia)) as E. fold d in E. pose proof (Z.mod_pos_bound (t - start) 1000000 ltac:(lia)).
  destruct (Z.ltb_spec d 0); [lia|]. cbn [orb]. destruct (Z.ltb_spec ms d); lia.
Qed.

(** The waits of a loop that begins with [timeout]: each is within what the
    caller allowed, and one that follows a turn ends in time. *)
Definition in_time {A} (start ms timeout : Z) (ts : list (turn A)) (ws : list Z) : Prop :=
  head ws = Some timeout /\ Forall (fun w => 0 <= w <= ms) ws /\
  forall k w t, ws !! S k = Some w -> ts !! k = Some t -> 0 < w -> now t + w * 1000000 <= start + (ms + 1) * 1000000.

Lemma in_time_one {A} start ms timeout (ts : list (turn A)) : 0 <= timeout <= ms -> in_time start ms timeout ts [timeout].
Proof. intros. split; [done|]. split; [constructor; [lia|constructor]|]. by intros [|k] w t. Qed.

Lemma in_time_next {A} start ms timeout (t : turn A) ts ws :
  0 <= start -> soon start (now t) -> 0 <= timeout <= ms ->
  in_time start ms (calculate_timeout start ms (now t)) ts ws -> in_time start ms timeout (t :: ts) (timeout :: ws).
Proof.
  intros Hs Ht Hm (H1 & H2 & H3). split; [done|]. split; [by constructor|].
  intros [|k] w t' E1 E2 Hw; [|by apply (H3 k w t')]. injection E2 as <-. change (ws !! 0%nat = Some w) in E1. rewrite <- head_lookup, H1 in E1.
  injection E1 as <-. by apply calculate_timeout_bounds; [done|lia|done|].
Qed.

Definition waiting {A} (start ms : Z) (ts : list (turn A)) : Prop :=
  0 <= start /\ Forall (fun t => soon start (now t)) ts.

Section Waits.
Context (start ms : Z).

(** A loop of either kind: what it makes of the first turn. *)
Lemma loop_in_time {A B R} (f : list (turn A) -> Z -> B -> option (leaves * R * list Z)) (step : turn A -> B -> leaves * R + B) :
  (forall timeout b, f [] timeout b = None) ->
  (forall t ts timeout b, f (t :: ts) timeout b =
     match step t b with
     | inl (l, b') => Some (l, b', [timeout])
     | inr b' => match f ts (calculate_timeout start ms (now t)) b' with
                 | Some (l, b'', w) => Some (l, b'', timeout :: w)
                 | None => None
                 end
     end) ->
  0 <= start -> 0 <= ms ->
  forall ts, Forall (fun t => soon start (now t)) ts -> forall timeout b l b' w,
  0 <= timeout <= ms -> f ts timeout b = Some (l, b', w) -> in_time start ms timeout ts w.
Proof.
  intros Hnil Hcons Hs Hm ts Hts. induction Hts as [|t ts Ht Hts IH]; intros timeout b l b' w Hto; [by rewrite Hnil|].
  rewrite Hcons. destruct (step t b) as [[l1 b1]|b1]; [intros [= <- <- <-]; by apply in_time_one|].
  destruct (f ts _ b1) as [[[l2 b2] w2]|] eqn:E; [|done]. intros [= <- <- <-].
  apply in_time_next; [done|done|done|]. eapply IH; [|done]. apply calculate_timeout_bounds; [done|done|done].
Qed.

End Waits.

Lemma read_loop_in_time start ms all ts timeout remain result l b w :
  waiting start ms ts -> 0 <= timeout <= ms ->
  read_loop start ms all ts timeout remain result = Some (l, b, w) -> in_time start ms timeout ts w.
Proof.
  intros [Hs Ht] Hm E.
  apply (loop_in_time start ms (fun ts timeout '(remain, result) => read_loop start ms all ts timeout remain result)
    (fun t '(remain, result) =>
       match polled t with
       | inl e => if negb (e =? EINTR) then inl (Returned e, result) else inr (remain, result)
       | inr n =>
           if n =? 0 then inl (Returned ETIMEDOUT, result)
           else
             match moved t remain with
             | inl e => if again e then inr (remain, result) else inl (Returned e, result)
             | inr b =>
                 if zlen b =? 0 then inl (Broke true, result)
                 else if (remain - zlen b =? 0) || negb all then inl (Broke false, result ++ b)
                 else inr (remain - zlen b, result ++ b)
             end
       end)) with (b := (remain, result)) (3 := Hs) (5 := Ht) (7 := E); [by intros ? []| |lia|done].
  intros t ts' timeout' [r1 b1]. cbn [read_loop]. repeat case_match; simplify_eq; done.
Qed.

Lemma write_loop_in_time start ms all ts timeout left result l b w :
  waiting start ms ts -> 0 <= timeout <= ms ->
  write_loop start ms all ts timeout left result = Some (l, b, w) -> in_time start ms timeout ts w.
Proof.
  intros [Hs Ht] Hm E.
  apply (loop_in_time start ms (fun ts timeout '(rest, result) => write_loop start ms all ts timeout rest result)
    (fun t '(rest, result) =>
       match polled t with
       | inl e => if negb (e =? EINTR) then inl (Returned e, result) else inr (rest, result)
       | inr n =>
           if n =? 0 then inl (Returned ETIMEDOUT, result)
           else
             match moved t rest with
             | inl e => if again e then inr (rest, result) else if e =? EPIPE then inl (Broke true, result) else inl (Returned e, result)
             | inr n =>
                 if (zlen rest - n =? 0) || negb all then inl (Broke false, result ++ take (Z.to_nat n) rest)
                 else inr (drop (Z.to_nat n) rest, result ++ take (Z.to_nat n) rest)
             end
       end)) with (b := (left, result)) (3 := Hs) (5 := Ht) (7 := E); [by intros ? []| |lia|done].
  intros t ts' timeout' [r1 b1]. cbn [write_loop]. repeat case_match; simplify_eq; done.
Qed.

Lemma accept_loop_in_time start ms ts timeout l fd w :
  waiting start ms ts -> 0 <= timeout <= ms ->
  accept_loop start ms ts timeout = Some (l, fd, w) -> in_time start ms timeout ts w.
Proof.
  intros [Hs Ht] Hm E.
  apply (loop_in_time start ms (fun ts timeout (_ : Z) => accept_loop start ms ts timeout)
    (fun t _ =>
       match polled t with
       | inl e => if negb (e =? EINTR) then inl (Returned e, -1) else inr (-1)
       | inr n =>
           if n =? 0 then inl (Returned ETIMEDOUT, -1)
           else match moved t with inl e => if again e then inr (-1) else inl (Returned e, -1) | inr fd => inl (Broke false, fd) end
       end)) with (b := -1) (l := l) (b' := fd); [done| |done|lia|done|done|done].
  intros t ts' timeout' b1. cbn [accept_loop]. repeat case_match; simplify_eq; done.
Qed.

(** ** The calls *)

(** *** What the turns of a read are

    [got t r]: what the turn [t] reads when [r] bytes are missing, and
    [taken ts r] what the turns [ts] read, one after the other. *)
Definition got (t : turn (Z -> Z + bytes)) (r : Z) : bytes :=
  match polled t with
  | inl _ => []
  | inr n => if n =? 0 then [] else match moved t r with inl _ => [] | inr b => b end
  end.

Fixpoint taken (ts : list (turn (Z -> Z + bytes))) (r : Z) : bytes :=
  match ts with
  | [] => []
  | t :: ts => got t r ++ taken ts (r - zlen (got t r))
  end.

(** Whether a turn is the last: poll failed or the time is over, the read
    failed, the peer hung up (the read gave nothing), or there is enough. *)
Definition verdict (all : bool) (t : turn (Z -> Z + bytes)) (r : Z) : option leaves :=
  match polled t with
  | inl e => if e =? EINTR then None else Some (Returned e)
  | inr n =>
      if n =? 0 then Some (Returned ETIMEDOUT)
      else
        match moved t r with
        | inl e => if again e then None else Some (Returned e)
        | inr [] => Some (Broke true)
        | inr b => if negb all || (zlen b =? r) then Some (Broke false) else None
        end
  end.

(** What is missing before the turn [k]. *)
Definition missing (ts : list (turn (Z -> Z + bytes))) (count : Z) (k : nat) : Z :=
  count - zlen (taken (take k ts) count).

(** The turn [k] is the first that ends the loop, as [l]. *)
Definition ends_at (all : bool) (ts : list (turn (Z -> Z + bytes))) (count : Z) (k : nat) (l : leaves) : Prop :=
  (forall j u, (j < k)%nat -> ts !! j = Some u -> verdict all u (missing ts count j) = None) /\
  exists t, ts !! k = Some t /\ verdict all t (missing ts count k) = Some l.

Lemma missing_cons t ts r k : missing (t :: ts) r (S k) = missing ts (r - zlen (got t r)) k.
Proof. unfold missing. cbn [take taken]. rewrite zlen_app. lia. Qed.

Lemma missing_zero ts r : missing ts r 0 = r.
Proof. unfold missing. change (zlen (taken (take 0 ts) r)) with 0. lia. Qed.

Lemma ends_at_cons all t ts r k l :
  verdict all t r = None -> ends_at all ts (r - zlen (got t r)) k l -> ends_at all (t :: ts) r (S k) l.
Proof.
  intros Hv (Hb & u & Hu & Hl). split.
  - intros [|j] v Hj Ev; [injection Ev as <-; by rewrite missing_zero|]. rewrite missing_cons. apply Hb; [lia|done].
  - exists u. by rewrite missing_cons.
Qed.

Lemma ends_at_zero all t ts r l : verdict all t r = Some l -> ends_at all (t :: ts) r 0 l.
Proof. intros Hv. split; [lia|]. exists t. by rewrite missing_zero. Qed.

(** One turn of the loop. *)
Lemma read_loop_step start ms all t ts timeout remain result :
  read_loop start ms all (t :: ts) timeout remain result =
  match verdict all t remain with
  | Some l => Some (l, result ++ got t remain, [timeout])
  | None =>
      match read_loop start ms all ts (calculate_timeout start ms (now t)) (remain - zlen (got t remain))
              (result ++ got t remain) with
      | Some (l, b, w) => Some (l, b, timeout :: w)
      | None => None
      end
  end.
Proof.
  cbn [read_loop]. unfold verdict, got. change (zlen (@nil ascii)) with 0.
  destruct (polled t) as [e|n]; [destruct (e =? EINTR); cbn [negb]|destruct (n =? 0);
    [|destruct (moved t remain) as [e|b]; [destruct (again e)|]]].
  1-5: by rewrite ?app_nil_r, ?Z.sub_0_r.
  destruct (Z.eqb_spec (zlen b) 0) as [->%zlen_zero|Hb]; [by rewrite app_nil_r|].
  destruct b as [|x b]; [done|]. replace (remain - zlen (x :: b) =? 0) with (zlen (x :: b) =? remain) by lia.
  rewrite orb_comm. by destruct (_ || _).
Qed.

Lemma read_loop_turns start ms all ts timeout remain result l b w :
  read_loop start ms all ts timeout remain result = Some (l, b, w) ->
  exists k, length w = S k /\ b = result ++ taken (take (S k) ts) remain /\ ends_at all ts remain k l.
Proof.
  revert timeout remain result w. induction ts as [|t ts IH]; intros timeout remain result w; [done|].
  rewrite read_loop_step. destruct (verdict all t remain) as [l'|] eqn:Ev.
  - intros [= -> <- <-]. exists O. cbn [take taken]. rewrite app_nil_r. split; [done|]. split; [done|]. by apply ends_at_zero.
  - destruct (read_loop _ _ _ _ _ _ _) as [[[l1 b1] w1]|] eqn:E; [|done]. intros [= -> <- <-].
    destruct (IH _ _ _ _ E) as (k & Hk & -> & He). exists (S k). cbn [length]. rewrite Hk. split; [done|].
    split; [by rewrite <- app_assoc|]. by apply ends_at_cons.
Qed.

(** What the caller of a read gets, its last turn being [k] and [l] the way it
    ended: [flag] tells whether the descriptor was non-blocking before. *)
Definition read_result (flag : bool) (a : around) (b : bytes) (l : leaves) (o : outcome) : Prop :=
  match l with
  | Returned e => errno_ o = Some e /\ nonblocking o = true /\ value o = if decide (b = []) then -1 else zlen b
  | Broke _ =>
      errno_ o = None /\
      if negb flag && negb (restored a) then value o = -1 /\ nonblocking o = true
      else value o = zlen b /\ nonblocking o = flag
  end.



(** A write with a timeout writes the bytes of the buffer from its beginning,
    the number says how many; without an error, [all] writes all. *)
Lemma timed_write (a : around) (ts : list (turn (bytes -> Z + Z))) buf ms all sw o :
  Forall honest_write ts -> waiting (started a) ms ts -> 0 <= ms ->
  safe_timed_write_ex a ts buf ms all sw = Some o ->
  done_bytes o = take (length (done_bytes o)) buf /\
  (value o = -1 \/ value o = zlen (done_bytes o)) /\
  (errno_ o = None -> 0 <= value o -> all = true -> done_bytes o = buf) /\
  (waits o = [] \/ in_time (started a) ms ms ts (waits o)).
Proof.
  intros Hh Hw Hm. unfold safe_timed_write_ex. destruct (Z.ltb_spec ms 0); [lia|].
  destruct (before_loop a) as [flag|]; [|intros [= <-]; cbn; split_and!; by auto].
  destruct (write_loop _ _ _ _ _ _ _) as [[[l b] w]|] eqn:E; [|done].
  pose proof (write_loop_in_time _ _ _ _ _ _ _ _ _ _ Hw (conj Hm (Z.le_refl ms)) E) as Hin.
  pose proof E as (n & -> & Hle & Hall)%write_loop_spec; [|done]. cbn [app] in *.
  assert (take n buf = take (length (take n buf)) buf) as Ht by (rewrite length_take; f_equal; lia).
  destruct l as [e|hup].
  - intros [= <-]. cbn. split_and!; [done|case_match; auto|done|auto].
  - destruct (negb flag && _); intros [= <-]; cbn; (split; [done|]).
    + split_and!; [auto|lia|auto].
    + split_and!; [case_match; auto| |auto]. intros He Hv Ha. destruct hup; [done|]. by rewrite (Hall eq_refl Ha), take_ge by lia.
Qed.

Lemma timed_write_witness :
  let a := mkAround 5000000 (Some false) true true in
  let ts := [mkTurn (inr 1) (fun l => inr (Z.min 2 (zlen l)) : Z + Z) 6000000;
             mkTurn (inr 1) (fun l => inl EAGAIN : Z + Z) 7000000;
             mkTurn (inr 1) (fun l => inr (zlen l) : Z + Z) 8000000] in
  exists o, safe_timed_write_all a ts ["h"; "i"; "!"]%char 10 (inl 0) = Some o /\ value o = 3 /\
    done_bytes o = take (length (done_bytes o)) ["h"; "i"; "!"]%char /\
    (value o = -1 \/ value o = zlen (done_bytes o)) /\
    (errno_ o = None -> 0 <= value o -> true = true -> done_bytes o = ["h"; "i"; "!"]%char) /\
    (waits o = [] \/ in_time 5000000 10 10 ts (waits o)).
Proof.
  intros a ts. eexists. split; [vm_compute; reflexivity|]. split; [reflexivity|].
  apply (timed_write a ts ["h"; "i"; "!"]%char 10 true (inl 0)); [| |lia|vm_compute; reflexivity].
  - repeat constructor; match goal with H : moved _ _ = inr _ |- _ => cbn in H; injection H as <- end || discriminate; unfold zlen; lia.
  - split; [vm_compute; discriminate|]. repeat constructor; vm_compute; done.
Defined.

(** When the time is over, or a call fails, the descriptor stays non-blocking
    although it was not. *)
Theorem timed_leaves_nonblocking a ts count ms all sr o :
  0 <= ms -> safe_timed_read_ex a ts count ms all sr = Some o -> errno_ o <> None -> nonblocking o = true.
Proof.
  intros Hm. unfold safe_timed_read_ex. destruct (Z.ltb_spec ms 0); [lia|].
  destruct (before_loop a) as [flag|] eqn:Eb; [|by intros [= <-]].
  destruct (read_loop _ _ _ _ _ _ _) as [[[[e|hup] b] w]|]; [by intros [= <-]| |done].
  by destruct (negb flag && _); intros [= <-].
Qed.

(** A descriptor that was accepted is lost when the flags of the listening
    socket cannot be set back: the caller gets -1. *)
Theorem timed_accept_loses a ts ms sa o fd :
  0 <= ms -> safe_timed_accept a ts ms sa = Some (o, Some fd) -> restored a = false -> getfl a = Some false ->
  value o = -1.
Proof.
  intros Hm. unfold safe_timed_accept, before_loop. destruct (Z.ltb_spec ms 0); [lia|]. intros E Hr Hg. rewrite Hg, Hr in E. cbn in E.
  repeat case_match; by simplify_eq.
Qed.

(** The call fails and leaves no descriptor open, or hands it out, connected
    (0) or connecting (1). *)
Lemma safe_resolve_and_connect_leaks_nothing port fd nonblocked resolved connect :
  let '(ret, handed, closed) := safe_resolve_and_connect port (Some fd) nonblocked resolved connect in
  if ret =? -1 then handed = None /\ (closed = true \/ port = 0) else handed = Some fd /\ closed = false /\ (ret = 0 \/ ret = 1).
Proof. unfold safe_resolve_and_connect. repeat case_match; simplify_eq/=; (split_and!; auto; lia) || auto; right; lia. Qed.
