(* ===== verification/Interface.v ===== *)
(** * A socket and its descriptor: linkage/interface.cpp

    [Interface] owns one descriptor, which it creates by connecting or
    listening.  [Accept] makes a descriptor for its caller instead, who finds
    it in the [LinkagePeer].  A [LinkagePeer *] is an address in [peers]. *)

From S2P Require Import Prelude StateMonad AbstractIo Libc Sockets SafeIo.

(** The resolver: interface of linkage/resolver.cpp. *)
Class Resolving (K : Type) {KK : Kernel K} {DD : Descriptors K} := {
  resolve : Z -> option bytes -> Z -> bool -> K -> K * option sockaddr;
  resolve_open : forall d h p first k, open (resolve d h p first k).1 = open k;
  resolve_family : forall d h p first k k' a, resolve d h p first k = (k', Some a) ->
    sa_family a = d
}.

(** The template argument [T]. *)
Inductive template : Type := T_in | T_in6 | T_un.

Definition family_of (T : template) : Z :=
  match T with T_in => AF_INET | T_in6 => AF_INET6 | T_un => AF_UNIX end.
Definition sizeof (T : template) : Z :=
  match T with T_in => 16 | T_in6 => 28 | T_un => 110 end.

Definition kMaximumQueueLength : Z := 256.

Section Interface.
Context {NET : Inet} {K : Type} {KK : Kernel K} {DD : Descriptors K} {RR : Resolving K}.

(** The object, with the memory of the callers' peers and the system. *)
Record Interface : Type := mkInterface {
  _sockname : bytes;
  _socket : Z;
  _domain : Z;
  peers : gmap Z LinkagePeer;
  system : os K
}.

Definition Interface_new (ps : gmap Z LinkagePeer) (s : os K) : Interface :=
  mkInterface [] (-1) AF_UNSPEC ps s.

Abbreviation M := (ST Interface).

Definition set_sockname (n : bytes) : M unit :=
  modify (fun i => mkInterface n (_socket i) (_domain i) (peers i) (system i)).
Definition set_socket (s : Z) : M unit :=
  modify (fun i => mkInterface (_sockname i) s (_domain i) (peers i) (system i)).
Definition set_domain (d : Z) : M unit :=
  modify (fun i => mkInterface (_sockname i) (_socket i) d (peers i) (system i)).

Definition on_os {A : Type} (m : ST (os K) A) : M A :=
  fun i => let! (a, s) := m (system i) in
           Ok (a, mkInterface (_sockname i) (_socket i) (_domain i) (peers i) s).

Definition lift {A : Type} (r : result exn A) : M A :=
  match r with Ok a => ret a | Err e => fail e end.

Definition read_peer (p : Z) : M LinkagePeer :=
  let* ps := gets peers in
  match ps !! p with Some v => ret v | None => fail undefined_behaviour end.

Definition write_peer (p : Z) (v : LinkagePeer) : M unit :=
  let* _ := read_peer p in
  modify (fun i => mkInterface (_sockname i) (_socket i) (_domain i) (<[p := v]> (peers i)) (system i)).

(** LinkagePeer::Set, the overload of the type of the name. *)
Definition Set_ (T : template) (p : Z) (a : sockaddr) (fd : Z) : M bool :=
  assert (sa_family a =? family_of T) ;;;
  match T with
  | T_in => let* v := lift (Set_in a fd) in write_peer p v ;;; ret true
  | T_in6 => let* v := lift (Set_in6 a fd) in write_peer p v ;;; ret true
  | T_un =>
      let* c := on_os (posix (sys_peercred fd)) in
      let* v := lift (Set_un a fd c) in
      match v with
      | None => ret false
      | Some v => write_peer p v ;;; ret true
      end
  end.

(** [safe_close(s); return r;] *)
Definition close_and {A : Type} (s : Z) (r : A) : M A :=
  let* _ := on_os (safe_close s) in
  ret r.

(** One half of GetPeerOrClose: [name] is getpeername or getsockname. *)
Definition GetNameOrClose (T : template) (s : Z) (name : Z -> K -> K * (Z + sockaddr))
  (who : option Z) : M bool :=
  match who with
  | None => ret true
  | Some p =>
      let* a := on_os (posix (name s)) in
      let* ok := match a with None => ret false | Some a => Set_ T p a s end in
      if negb ok then close_and s false else ret true
  end.

Definition GetPeerOrClose (T : template) (s : Z) (peer me : option Z) : M bool :=
  let* ok := GetNameOrClose T s sys_getpeername peer in
  if negb ok then ret false
  else GetNameOrClose T s sys_getsockname me.

Definition DoAccept (T : template) (s : Z) (peer me : option Z) : M Z :=
  let* fd := on_os (safe_accept s) in
  if fd <? 0 then ret (-1)
  else
    let* ok := GetPeerOrClose T fd peer me in
    if negb ok then ret 1 else ret 0.

(** ** Creating sockets *)

(** [if (wanted) { if (set(s)) return false; }] in front of the rest. *)
Definition wants (wanted : bool) (set : ST (os K) Z) (rest : M bool) : M bool :=
  if wanted then
    let* r := on_os set in
    if negb (r =? 0) then ret false else rest
  else rest.

Definition InitializeSocket (opt : Option) (s : Z) : M bool :=
  wants (socket_reuse_address opt) (set_socket_reuse_address s)
  (wants (socket_non_blocking opt) (set_non_blocking_mode s)
  (wants (socket_close_on_exec opt) (set_close_on_exec s)
  (wants (socket_keepalive opt) (set_socket_keepalive s)
  (wants (tcp_defer_accept opt) (set_tcp_defer_accept s)
  (wants (tcp_nodelay opt) (set_tcp_nodelay s)
  (wants (udp_broadcast opt) (set_socket_broadcast s)
  (ret true))))))).

Definition CreateSocket (socket : Socket) (opt : Option) : M Z :=
  let* s := on_os (posix_int (sys_socket (domain socket) (type_ socket) (protocol socket))) in
  if s <? 0 then ret (-1)
  else
    let* ok := InitializeSocket opt s in
    if negb ok then close_and s (-1) else ret s.

Definition Bind (s : Z) (a : sockaddr) (addrlen : Z) : M Z :=
  on_os (posix_int (sys (BindTo s a addrlen))).

Definition CreateListenSocket (socket : Socket) (opt : Option) (a : sockaddr) (addrlen : Z) : M Z :=
  let* s := CreateSocket socket opt in
  if s <? 0 then ret (-1)
  else
    let* r := Bind s a addrlen in
    if negb (r =? 0) then close_and s (-1)
    else if type_ socket =? SOCK_STREAM then
      let* r := on_os (posix_int (sys (ListenOn s kMaximumQueueLength))) in
      if negb (r =? 0) then close_and s (-1) else ret s
    else ret s.

Definition Resolve (T : template) (host : option bytes) (port : Z) (first : bool) : M (option sockaddr) :=
  on_os (fun s => let (k, a) := resolve (family_of T) host port first (kern s) in Ok (a, mkOs k (errno s))).

(** ** Closing *)

Definition Close : M bool :=
  let* socket := gets _socket in
  if socket <? 0 then ret true
  else
    let* name := gets _sockname in
    (if negb (match name with [] => true | _ => false end) then
       let* _ := on_os (posix_int (sys (Unlink (c_str name)))) in
       set_sockname []
     else ret tt) ;;;
    set_socket (-1) ;;;
    let* r := on_os (safe_close socket) in
    if negb (r =? 0) then ret false
    else
      set_domain AF_UNSPEC ;;;
      ret true.

(** ** Connecting *)

(** The failure of a call with an [errno] of the code's own. *)
Definition refuse {A : Type} (e : Z) (r : A) : M A :=
  let* _ := on_os (set_errno e) in
  ret r.

(** The interface owns [s] from now on. *)
Definition own (s d : Z) : M unit := set_socket s ;;; set_domain d.

Definition DoConnectTcp_bind (T : template) (socket : Socket) (s : Z) : M bool :=
  if given (socket_interface socket) then
    let* addr := Resolve T (socket_interface socket) (socket_bind_port socket) false in
    match addr with
    | None => close_and s false
    | Some a =>
        let* r := Bind s a (sizeof T) in
        if negb (r =? 0) then close_and s false else ret true
    end
  else ret true.

Definition DoConnectTcp (T : template) (socket : Socket) (opt : Option) (peer me : option Z) : M Z :=
  if negb (given (socket_hostname socket)) || (socket_port socket =? 0) then refuse EINVAL (-1)
  else
    let* s := CreateSocket socket opt in
    if s <? 0 then ret (-1)
    else
      let* ok := DoConnectTcp_bind T socket s in
      if negb ok then ret (-1)
      else
        let* addr := Resolve T (socket_hostname socket) (socket_port socket) false in
        match addr with
        | None => close_and s (-1)
        | Some a =>
            let* r := on_os (safe_connect s a (sizeof T)) in
            let* e := gets (fun i => errno (system i)) in
            if (r <? 0) && negb (e =? EINPROGRESS) then close_and s (-1)
            else
              let* ok := GetPeerOrClose T s None me in
              if negb ok then ret (-1)
              else
                let* ok := match peer with None => ret true | Some p => Set_ T p a s end in
                if negb ok then close_and s (-1)
                else
                  own s AF_INET ;;;
                  ret (if r =? 0 then 0 else 1)
        end.

Definition strlen (p : option bytes) : M Z :=
  match p with
  | None => fail undefined_behaviour
  | Some b => ret (zlen (c_str b))
  end.

(** What [memcpy] reads: a C string with its terminator is all there is. *)
Definition memcpy (p : option bytes) (n : Z) : M bytes :=
  match p with
  | None => fail undefined_behaviour
  | Some b =>
      if n <=? zlen (c_str b) + 1 then ret (take (Z.to_nat n) (c_str b ++ [NUL]))
      else fail undefined_behaviour
  end.

(** [sun_path], cleared, with [name] at [offset]. *)
Definition sun_path_of (offset : nat) (name : bytes) : bytes :=
  replicate offset NUL ++ name ++ replicate (Z.to_nat sizeof_sun_path - offset - length name) NUL.

(** sizeof(aun) - sizeof(aun.sun_path) + 1 *)
Definition path_overhead : Z := sizeof T_un - sizeof_sun_path + 1.

Definition DoConnectUnix (socket : Socket) (opt : Option) (peer me : option Z) : M Z :=
  let '(name, file_based) :=
    if given (unix_pathname socket) then (unix_pathname socket, true)
    else if given (unix_abstract socket) then (unix_abstract socket, false)
    else (None, true) in
  let* len := strlen name in
  if sizeof_sun_path <=? len then refuse EINVAL (-1)
  else
    let* text := memcpy name len in
    let a := sockaddr_un (sun_path_of (if file_based then 0 else 1) text) in
    let* s := CreateSocket socket opt in
    if s <? 0 then ret (-1)
    else
      let* r := on_os (safe_connect s a (len + path_overhead)) in
      if negb (r =? 0) then close_and s (-1)
      else
        let* ok := match peer with None => ret true | Some p => Set_ T_un p a s end in
        if negb ok then ret (-1)
        else
          own s AF_UNIX ;;;
          ret 0.

Definition Connect (socket : Socket) (opt : Option) (peer me : option Z) : M Z :=
  if negb (type_ socket =? SOCK_STREAM) && negb (type_ socket =? SOCK_DGRAM) then refuse EINVAL (-1)
  else
    let* closed := Close in
    if negb closed then ret (-1)
    else if domain socket =? AF_INET6 then DoConnectTcp T_in6 socket opt peer me
    else if domain socket =? AF_INET then DoConnectTcp T_in socket opt peer me
    else if domain socket =? AF_UNIX then DoConnectUnix socket opt peer me
    else ret (-1).

(** ** Listening *)

(** From CreateListenSocket on; [mreqn] is the group to join and the address of
    the interface, for multicast. *)
Definition DoListenTcp4_on (socket : Socket) (opt : Option) (me : option Z) (ain : sockaddr)
  (mreqn : option (Z * Z)) : M bool :=
  let* s := CreateListenSocket socket opt ain (sizeof T_in) in
  if s <? 0 then ret false
  else
    let* joined := on_os (match mreqn with
      | None => ret 0
      | Some (multiaddr, address) =>
          posix_int (sys (Setsockopt s IPPROTO_IP IP_ADD_MEMBERSHIP [multiaddr; address; 0]))
      end) in
    if negb (joined =? 0) then close_and s false
    else
      let* ok := GetPeerOrClose T_in s None me in
      if negb ok then ret false
      else own s AF_INET ;;; ret true.

Definition sin_addr (a : sockaddr) : Z :=
  match a with sockaddr_in s_addr _ => s_addr | _ => 0 end.

Definition DoListenTcp4 (socket : Socket) (opt : Option) (me : option Z) : M bool :=
  if (type_ socket =? SOCK_DGRAM) && udp_multicast opt then
    if negb (given (socket_interface socket)) then refuse EINVAL false
    else
      match inet_aton (or_else (socket_interface socket) "") with
      | None => refuse EINVAL false
      | Some address =>
          let* ain := Resolve T_in (socket_hostname socket) (socket_bind_port socket) true in
          match ain with
          | None => ret false
          | Some ain => DoListenTcp4_on socket opt me ain (Some (sin_addr ain, address))
          end
      end
  else
    let hostname := or_else (socket_interface socket) "0.0.0.0" in
    let* ain := Resolve T_in (Some hostname) (socket_bind_port socket) true in
    match ain with
    | None => ret false
    | Some ain => DoListenTcp4_on socket opt me ain None
    end.

Definition DoListenTcp6 (socket : Socket) (opt : Option) (me : option Z) : M bool :=
  let hostname := or_else (socket_interface socket) "::" in
  let* ai6 := Resolve T_in6 (Some hostname) (socket_bind_port socket) true in
  match ai6 with
  | None => ret false
  | Some ai6 =>
      let* s := CreateListenSocket socket opt ai6 (sizeof T_in6) in
      if s <? 0 then ret false
      else
        let* ok := GetPeerOrClose T_in6 s None me in
        if negb ok then ret false
        else own s AF_INET6 ;;; ret true
  end.

(** [safe_close(s); unlink(name); return false;] *)
Definition close_and_unlink (s : Z) (name : option bytes) : M bool :=
  close_and s tt ;;;
  let* _ := on_os (posix_int (sys (Unlink (or_else name "")))) in
  ret false.

Definition DoListenUnixSocket (socket : Socket) (opt : Option) (me : option Z) : M bool :=
  let name := unix_pathname socket in
  let* len := strlen name in
  if sizeof_sun_path <=? len then refuse EINVAL false
  else
    let* text := memcpy name len in
    let a := sockaddr_un (sun_path_of 0 text) in
    let* s := CreateSocket socket opt in
    if s <? 0 then ret false
    else
      let* r := Bind s a (len + path_overhead) in
      if negb (r =? 0) then close_and s false
      else
        let* r := on_os (posix_int (sys (Chmod (or_else name "") (unix_mode socket)))) in
        if negb (r =? 0) then close_and_unlink s name
        else
          let* r := on_os (posix_int (sys (ListenOn s kMaximumQueueLength))) in
          if negb (r =? 0) then close_and_unlink s name
          else
            own s AF_UNIX ;;;
            set_sockname (or_else name "") ;;;
            ret true.

Definition DoListenUnixNamespace (socket : Socket) (opt : Option) (me : option Z) : M bool :=
  let* len := strlen (unix_abstract socket) in
  if sizeof_sun_path <=? len then refuse EINVAL false
  else
    let* text := memcpy (unix_pathname socket) len in
    let a := sockaddr_un (sun_path_of 1 text) in
    let* s := CreateListenSocket socket opt a (len + path_overhead) in
    if s <? 0 then ret false
    else own s AF_UNIX ;;; ret true.

Definition DoListenUnix (socket : Socket) (opt : Option) (me : option Z) : M bool :=
  if given (unix_pathname socket) then DoListenUnixSocket socket opt me
  else if given (unix_abstract socket) then DoListenUnixNamespace socket opt me
  else refuse EINVAL false.

Definition Listen (socket : Socket) (opt : Option) (me : option Z) : M bool :=
  if negb (type_ socket =? SOCK_STREAM) && negb (type_ socket =? SOCK_DGRAM) then refuse EINVAL false
  else
    let* closed := Close in
    if negb closed then ret false
    else if domain socket =? AF_INET6 then DoListenTcp6 socket opt me
    else if domain socket =? AF_INET then DoListenTcp4 socket opt me
    else if domain socket =? AF_UNIX then DoListenUnix socket opt me
    else refuse EINVAL false.

(** [garbage] is what the constructor of [Option] leaves in [tcp_cork]. *)
Definition ListenTcp_on (garbage : bool) (d port : Z) (address : string) : M bool :=
  Listen (of_kind d SOCK_STREAM (bound_to (Some (B address)) port Socket_new))
         (wanting true true true (Option_new garbage)) None.

Definition ListenTcp6 (garbage : bool) (port : Z) (loopback : bool) : M bool :=
  ListenTcp_on garbage AF_INET6 port (if loopback then "::1" else "::").

Definition ListenTcp4 (garbage : bool) (port : Z) (loopback : bool) : M bool :=
  ListenTcp_on garbage AF_INET port (if loopback then "127.0.0.1" else "0.0.0.0").

Definition ListenTcp (garbage : bool) (port : Z) (loopback : bool) : M bool :=
  let* ok := ListenTcp6 garbage port loopback in
  if ok then ret true else ListenTcp4 garbage port loopback.

(** The socket of ListenUnix and ConnectUnix; the mode is the listener's. *)
Definition unix_socket (sockname : bytes) (file_based : bool) (mode : Z) : Socket :=
  of_kind AF_UNIX SOCK_STREAM
    (if file_based then named None (Some sockname) mode Socket_new
     else named (Some sockname) None kNormal Socket_new).

Definition ListenUnix (garbage : bool) (sockname : bytes) (file_based privileged : bool) : M bool :=
  Listen (unix_socket sockname file_based (if privileged then kPriviledged else kNormal))
         (wanting true false true (Option_new garbage)) None.

(** ** Accepting *)

Definition Accept (opt : Option) (peer me : option Z) : M Z :=
  let* socket := gets _socket in
  assert (0 <=? socket) ;;;
  assert (bool_decide (is_Some peer)) ;;;
  let* d := gets _domain in
  let* r :=
    if d =? AF_INET6 then DoAccept T_in6 socket peer me
    else if d =? AF_INET then DoAccept T_in socket peer me
    else if d =? AF_UNIX then DoAccept T_un socket peer me
    else refuse ESOCKTNOSUPPORT (-1) in
  if negb (r =? 0) then ret r
  else
    let* p := match peer with Some p => read_peer p | None => fail undefined_behaviour end in
    let* ok := InitializeSocket opt (_fd p) in
    if negb ok then close_and (_fd p) 1 else ret 0.

Definition Accept_default (garbage : bool) (peer me : option Z) : M Z :=
  Accept (wanting true false true (Option_new garbage)) peer me.

Definition Accepted (opt : Option) (fd : Z) : M bool :=
  let* closed := Close in
  if negb closed then ret false
  else
    let* ok := InitializeSocket opt fd in
    if negb ok then ret false
    else
      set_domain AF_UNSPEC ;;;
      set_socket fd ;;;
      ret true.

Definition Accepted_default (garbage : bool) (fd : Z) : M bool :=
  Accepted (wanting true false true (Option_new garbage)) fd.

(** ** The rest *)

Definition ConnectUnix (garbage : bool) (sockname : bytes) (file_based : bool) (peer me : option Z) : M Z :=
  Connect (unix_socket sockname file_based kNormal)
          (wanting true false true (Option_new garbage)) peer me.

Definition ConnectTcp4 (garbage : bool) (hostname : bytes) (port : Z) (peer me : option Z) : M Z :=
  Connect (of_kind AF_INET SOCK_STREAM (towards (Some hostname) port Socket_new))
          (wanting true false true (Option_new garbage)) peer me.

Definition WaitUntilConnected (timeout : Z) : M bool :=
  let* socket := gets _socket in
  if socket <? 0 then ret false
  else
    let milliseconds := if 0 <=? timeout then signed 32 (Z.quot timeout 1000000) else -1 in
    let* r := on_os (safe_wait_until_connected socket milliseconds) in
    if negb (r =? 0) then ret false else ret true.

Definition TestIfConnected : M bool :=
  let* socket := gets _socket in
  if socket <? 0 then refuse EBADF false
  else
    let* r := on_os (test_if_connected socket) in
    if negb (r =? 0) then ret false else ret true.

Definition Shutdown : M bool :=
  let* socket := gets _socket in
  on_os (fun s => let (k, ok) := Interface_Shutdown socket (kern s) in Ok (ok, mkOs k (errno s))).

End Interface.
Arguments Interface K : clear implicits.
