(* ===== verification/InterfaceFacts.v ===== *)
(** * What an interface does to the table of descriptors

    The judgements used here follow one descriptor from its creation:
    [still] when the table did not change, [held s] when it only gained the
    descriptor [s], and the methods of [Interface] in terms of them. *)

From S2P Require Import Prelude StateMonad AbstractIo Libc Sockets SafeIo Interface.

Section Facts.
Context {NET : Inet} {K : Type} {KK : Kernel K} {DD : Descriptors K} {RR : Resolving K}.

Abbreviation M := (ST (Interface K)).
Implicit Types (i : Interface K).

Definition fds i : gmap Z Z := open (kern (system i)).

(** The object itself, and which peers there are. *)
Definition same i i' : Prop :=
  _sockname i' = _sockname i /\ _socket i' = _socket i /\ _domain i' = _domain i /\
  dom (peers i') = dom (peers i).
Definition still i i' : Prop := same i i' /\ fds i' = fds i.

(** The table of [i0] with a new descriptor [s] of domain [d]. *)
Definition held (s d : Z) i0 i : Prop :=
  0 <= s /\ fds i0 !! s = None /\ same i0 i /\ fds i = <[s := d]> (fds i0).

(** NULL, or a peer of the caller. *)
Definition valid (p : option Z) i : Prop :=
  match p with Some a => a ∈ dom (peers i) | None => True end.

Lemma same_refl i : same i i.
Proof. done. Qed.
Lemma same_trans i1 i2 i3 : same i1 i2 -> same i2 i3 -> same i1 i3.
Proof. intros (? & ? & ? & ?) (? & ? & ? & ?). repeat split; congruence. Qed.
Lemma still_refl i : still i i.
Proof. done. Qed.
Lemma still_trans i1 i2 i3 : still i1 i2 -> still i2 i3 -> still i1 i3.
Proof. intros [? ?] [? ?]. split; [by eapply same_trans|congruence]. Qed.
Lemma held_still s d i0 i i' : held s d i0 i -> still i i' -> held s d i0 i'.
Proof.
  intros (? & ? & ? & ?) [? ?]. split_and!; try done; [by eapply same_trans|congruence].
Qed.
Lemma still_held s d i0 i i' : still i0 i -> held s d i i' -> held s d i0 i'.
Proof.
  intros [? E] (? & ? & ? & ?). rewrite E in *. split_and!; try done. by eapply same_trans.
Qed.
Lemma held_nonneg s d i0 i : held s d i0 i -> 0 <= s.
Proof. by intros [? _]. Qed.
Lemma held_lookup s d i0 i : held s d i0 i -> fds i !! s = Some d.
Proof. intros (? & ? & ? & ->). apply lookup_insert_eq. Qed.
Lemma valid_same p i i' : same i i' -> valid p i -> valid p i'.
Proof. intros (_ & _ & _ & E). destruct p; cbn; [by rewrite E|done]. Qed.
Lemma valid_held s d p i0 i : held s d i0 i -> valid p i0 -> valid p i.
Proof. intros (_ & _ & ? & _). by apply valid_same. Qed.

#[local] Hint Resolve same_refl still_refl held_nonneg : core.

Lemma known_family T : known (family_of T).
Proof. unfold known. destruct T; cbn; auto. Qed.

(** ** Instructions *)

Lemma run_on_os {A} (m : ST (os K) A) i Q :
  run m (system i) (fun a s => Q a (mkInterface (_sockname i) (_socket i) (_domain i) (peers i) s)) ->
  run (on_os m) i Q.
Proof. unfold run, on_os, rbind. by destruct (m (system i)) as [[a s]|e]. Qed.

Lemma run_keeps {A} (m : ST (os K) A) i : keeps m ->
  run (on_os m) i (fun _ i' => still i i' /\ peers i' = peers i).
Proof. intros H. apply run_on_os. eapply run_mono; [apply H|]. intros a s E. by repeat split. Qed.

(** The rule for a call that opens and closes nothing. *)
Lemma run_kept {A C} (m : ST (os K) A) (f : A -> M C) i Q : keeps m ->
  (forall a i', still i i' -> run (f a) i' Q) -> run (bind (on_os m) f) i Q.
Proof.
  intros H HQ. apply run_bind. eapply run_mono; [by apply run_keeps|]. intros a i' [HS _]. auto.
Qed.

Lemma run_safe_close_ s i : 0 <= s ->
  run (on_os (safe_close s)) i (fun _ i' => same i i' /\ fds i' = delete s (fds i)).
Proof. intros H0. apply run_on_os. eapply run_mono; [by apply run_safe_close|]. by intros a k E. Qed.

Lemma run_close_held {A} s d (r : A) i0 i : held s d i0 i ->
  run (close_and s r) i (fun r' i' => r' = r /\ still i0 i').
Proof.
  intros (H0 & Hn & Hs & Hf). apply run_bind. eapply run_mono; [by apply run_safe_close_|].
  intros _ i' [Hs' Hf']. apply run_ret. split; [done|split; [by eapply same_trans|]].
  rewrite Hf', Hf. by apply delete_insert_id.
Qed.

Lemma run_close_then {A} s d (r : A) i0 i (Q : A -> Interface K -> Prop) : held s d i0 i ->
  (forall i', still i0 i' -> Q r i') -> run (close_and s r) i Q.
Proof. intros H HQ. eapply run_mono; [by eapply run_close_held|]. intros r' i' [-> ?]. auto. Qed.

Lemma run_refuse {A} e (r : A) i : run (refuse e r) i (fun r' i' => r' = r /\ still i i').
Proof. apply run_kept; [apply keeps_errno|]. by intros _ i' HS. Qed.

Lemma run_Resolve T host port first i :
  run (Resolve T host port first) i (fun a i' => still i i' /\
    match a with Some a => sa_family a = family_of T | None => True end).
Proof.
  apply run_on_os. unfold run.
  pose proof (resolve_open (family_of T) host port first (kern (system i))) as HO.
  destruct (resolve _ _ _ _ _) as [k [a|]] eqn:E; (split; [by repeat split|]); [|done].
  by eapply resolve_family.
Qed.

Lemma run_own s d i :
  run (own s d) i (fun _ i' => _sockname i' = _sockname i /\ _socket i' = s /\ _domain i' = d /\
    peers i' = peers i /\ fds i' = fds i).
Proof. by unfold own; wp. Qed.

(** ** Peers *)

Lemma run_write_peer p v i : p ∈ dom (peers i) ->
  run (write_peer p v) i (fun _ i' => still i i' /\ peers i' = <[p := v]> (peers i)).
Proof.
  intros Hp. unfold write_peer, read_peer. wp.
  apply elem_of_dom in Hp as [w Hw]. rewrite Hw. wp. repeat split; cbn.
  rewrite dom_insert_L. apply subseteq_union_1_L, singleton_subseteq_l, (elem_of_dom_2 _ _ _ Hw).
Qed.

Lemma run_Set T p a fd i : sa_family a = family_of T -> p ∈ dom (peers i) ->
  run (Set_ T p a fd) i (fun ok i' => still i i' /\
    (ok = true -> exists v, peers i' = <[p := v]> (peers i) /\ _fd v = fd)).
Proof.
  intros Ha Hp. unfold Set_. wp; [by apply Z.eqb_eq|].
  destruct T, a; try discriminate Ha; cbn [Set_in Set_in6 lift]; wp.
  1,2: eapply run_mono; [by apply run_write_peer|]; intros _ i' [? ?]; wp; eauto.
  eapply run_mono; [apply run_keeps, keeps_posix, sys_peercred_open|]. intros c i1 [H1 E1].
  unfold Set_un. destruct c as [[[uid gid] pid]|]; cbn [lift]; wp; [|done].
  eapply run_mono; [apply run_write_peer; by rewrite E1|]. intros _ i2 [H2 E2]. wp.
  split; [by eapply still_trans|]. rewrite E1 in E2. eauto.
Qed.

(** A name of the held descriptor goes to the peer, or the descriptor is closed. *)
Lemma run_GetName T s name who i0 i :
  (forall k, open (name s k).1 = open k) ->
  (forall k k' a d, name s k = (k', inr a) -> open k !! s = Some d -> known d -> sa_family a = d) ->
  held s (family_of T) i0 i -> valid who i ->
  run (GetNameOrClose T s name who) i (fun ok i' =>
    if ok then held s (family_of T) i0 i' /\
               match who with
               | Some p => exists v, peers i' = <[p := v]> (peers i) /\ _fd v = s
               | None => peers i' = peers i
               end
    else still i0 i').
Proof.
  intros HO HF Hh Hv. unfold GetNameOrClose. destruct who as [p|]; [|by wp].
  apply run_bind, run_on_os, run_posix; intros k a E; pose proof (HO (kern (system i))) as H1;
    rewrite E in H1; cbn [fst] in H1.
  all: match goal with |- run _ ?j _ => assert (still i j) as Hj by done end.
  - wp. cbn [negb]. eapply run_close_then; [by eapply held_still|done].
  - apply run_bind. eapply run_mono; [apply run_Set; [|exact Hv]|].
    + eapply HF; [exact E| |apply known_family]. by eapply held_lookup.
    + cbv beta. intros ok i' [H2 H3]. eapply still_trans in H2; [|exact Hj].
      eapply held_still in H2; [|exact Hh]. destruct ok; cbn [negb]; [wp; auto|].
      by eapply run_close_then.
Qed.

(** What GetPeerOrClose leaves in the peers. *)
Definition told (who : option Z) (fd : Z) i : Prop :=
  match who with Some p => exists v, peers i !! p = Some v /\ _fd v = fd | None => True end.

Lemma run_GetPeerOrClose T s peer me i0 i :
  held s (family_of T) i0 i -> valid peer i -> valid me i ->
  run (GetPeerOrClose T s peer me) i (fun ok i' =>
    if ok then held s (family_of T) i0 i' /\ told peer s i' else still i0 i').
Proof.
  intros Hh Hp Hm. apply run_bind. eapply run_mono.
  { eapply run_GetName; [apply sys_getpeername_open|apply sys_getpeername_family|exact Hh|exact Hp]. }
  intros ok i1 H1. destruct ok; cbn [negb]; [|by apply run_ret]. destruct H1 as [H1 T1].
  eapply run_mono.
  { eapply run_GetName; [apply sys_getsockname_open|apply sys_getsockname_family|exact H1|].
    eapply valid_held; [exact H1|]. eapply valid_same; [|exact Hm].
    destruct Hh as (_ & _ & (?&?&?&?) & _). split_and!; congruence. }
  intros [] i2 H2; [|done]. destruct H2 as [H2 T2]. split; [done|].
  destruct peer as [p|]; [|done]. destruct T1 as (v & E1 & Hv). cbn.
  destruct me as [m|]; [destruct T2 as (w & E2 & Hw)|rename T2 into E2]; rewrite E2, E1.
  - destruct (decide (m = p)) as [->|Hne]; simplify_map_eq; eauto.
  - simplify_map_eq. eauto.
Qed.

(** ** Creating sockets *)

Definition kept i i' : Prop := still i i' /\ peers i' = peers i.

Lemma run_wants wanted set rest i0 i : keeps set -> kept i0 i ->
  (forall i', kept i0 i' -> run rest i' (fun _ i' => kept i0 i')) ->
  run (wants wanted set rest) i (fun _ i' => kept i0 i').
Proof.
  intros Hk H0 HQ. destruct wanted; cbn [wants]; [|by apply HQ].
  apply run_bind. eapply run_mono; [by apply run_keeps|]. intros r i' [H1 H2].
  assert (kept i0 i') by (destruct H0; split; [by eapply still_trans|congruence]).
  apply run_if; intros _; [by apply run_ret|auto].
Qed.

Lemma run_InitializeSocket opt s i : run (InitializeSocket opt s) i (fun _ i' => kept i i').
Proof.
  unfold InitializeSocket. assert (kept i i) as H by done. revert H. generalize i at 2 3.
  do 7 (intros j H; apply run_wants;
    [apply keeps_sys || apply keeps_non_blocking || apply keeps_close_on_exec|exact H|]; clear j H).
  by intros j H; apply run_ret.
Qed.

Lemma run_CreateSocket socket opt i :
  run (CreateSocket socket opt) i (fun s i' =>
    (s = -1 /\ still i i') \/ held s (domain socket) i i').
Proof.
  apply run_bind, run_on_os, run_posix_int; intros k s E.
  - apply run_if; [|done]. intros _. apply run_ret. left. split; [done|].
    split; [done|]. by eapply sys_socket_failed.
  - apply sys_socket_ok in E as (H0 & Hn & Ho).
    apply run_if; intros Hs; [apply Z.ltb_lt in Hs; lia|].
    match goal with |- run _ ?j _ => assert (held s (domain socket) i j) as Hj by done end.
    apply run_bind. eapply run_mono; [apply run_InitializeSocket|].
    intros ok i' [H _]. eapply held_still in H; [|exact Hj].
    destruct ok; cbn [negb]; [apply run_ret; auto|]. eapply run_close_then; [done|]. auto.
Qed.

(** The rule for [int s = CreateSocket(...); if (s < 0) return -1;]. *)
Lemma run_created {A} (m : M Z) d (r : A) (f : Z -> M A) i Q :
  run m i (fun s i' => (s = -1 /\ still i i') \/ held s d i i') ->
  (forall i', still i i' -> Q r i') ->
  (forall s i', held s d i i' -> run (f s) i' Q) ->
  run (let* s := m in if s <? 0 then ret r else f s) i Q.
Proof.
  intros Hm H1 H2. apply run_bind. eapply run_mono; [exact Hm|]. intros s i' [[-> H]|H].
  - apply run_ret. auto.
  - replace (s <? 0) with false; [auto|]. symmetry. apply Z.ltb_ge. by eapply held_nonneg.
Qed.

(** The rule for [if (call(s)) { safe_close(s); return r; }]. *)
Lemma run_or_close {A} s d (m : ST (os K) Z) (r : A) (f : M A) i0 i Q : keeps m ->
  held s d i0 i -> (forall i', still i0 i' -> Q r i') ->
  (forall i', held s d i0 i' -> run f i' Q) ->
  run (let* v := on_os m in if negb (v =? 0) then close_and s r else f) i Q.
Proof.
  intros Hk Hh H1 H2. apply run_kept; [done|]. intros v i' Hs. eapply held_still in Hs; [|exact Hh].
  apply run_if; intros _; [|auto]. by eapply run_close_then.
Qed.

Lemma run_CreateListenSocket socket opt a n i :
  run (CreateListenSocket socket opt a n) i (fun s i' =>
    (s = -1 /\ still i i') \/ held s (domain socket) i i').
Proof.
  eapply run_created; [apply run_CreateSocket|auto|]. intros s i' H.
  eapply run_or_close; [apply keeps_sys|exact H|auto|]. clear i' H. intros i' H.
  apply run_if; intros _; [|apply run_ret; auto].
  eapply run_or_close; [apply keeps_sys|exact H|auto|]. clear i' H. intros i' H. apply run_ret. auto.
Qed.

(** ** Closing *)

Definition empty_handed i i' : Prop :=
  dom (peers i') = dom (peers i) /\ _socket i' < 0 /\
  fds i' = (if _socket i <? 0 then fds i else delete (_socket i) (fds i)).

Lemma run_Close i : run Close i (fun _ i' => empty_handed i i').
Proof.
  unfold Close, empty_handed. wp. destruct (_socket i <? 0) eqn:E.
  - apply run_ret. apply Z.ltb_lt in E. done.
  - apply Z.ltb_ge in E. apply run_bind, run_gets, run_bind.
    eapply run_mono with (P := fun _ i' => still (mkInterface [] (_socket i) (_domain i) (peers i) (system i)) (mkInterface [] (_socket i') (_domain i') (peers i') (system i'))).
    + apply run_if; intros _; [|by apply run_ret].
      apply run_kept; [apply keeps_sys|]. intros _ i' [(?&?&?&?) ?].
      unfold set_sockname. by wp.
    + cbv beta. intros _ i' [(_&E2&_&E4) E5]. cbn in *. unfold set_socket, set_domain. wp.
      eapply run_mono; [by apply run_safe_close_|]. intros r i2 [(H1&H2&H3&H4) H5]. cbn in *.
      apply run_if; intros _; wp; split_and!; cbn; try congruence; try lia.
      all: unfold fds in *; cbn in *; congruence.
Qed.

(** ** Connecting *)

(** The interface has a new descriptor of domain [d], which it takes for one
    of domain [dm]. *)
Definition gained (d dm : Z) i i' : Prop :=
  0 <= _socket i' /\ fds i !! _socket i' = None /\ fds i' = <[_socket i' := d]> (fds i) /\
  _domain i' = dm /\ dom (peers i') = dom (peers i).

Lemma run_own_held {A} s d dm (f : M A) i0 i Q : held s d i0 i ->
  (forall i', gained d dm i0 i' -> run f i' Q) -> run (own s dm ;;; f) i Q.
Proof.
  intros (H0 & Hn & (_ & _ & _ & Hp) & Hf) HQ. unfold own, set_socket, set_domain. wp.
  apply HQ. by split_and!.
Qed.

Lemma run_valid_Set T p s i0 i : held s (family_of T) i0 i -> valid p i -> forall a,
  sa_family a = family_of T ->
  run (match p with None => ret true | Some p => Set_ T p a s end) i
      (fun ok i' => held s (family_of T) i0 i').
Proof.
  intros Hh Hv a Ha. destruct p as [p|]; [|by apply run_ret].
  eapply run_mono; [by apply run_Set|]. cbv beta. intros ok i' [Hs _]. by eapply held_still.
Qed.

Lemma run_DoConnectTcp_bind T socket s i0 i : held s (family_of T) i0 i ->
  run (DoConnectTcp_bind T socket s) i (fun ok i' =>
    if ok then held s (family_of T) i0 i' else still i0 i').
Proof.
  intros Hh. apply run_if; intros _; [|by apply run_ret].
  apply run_bind. eapply run_mono; [apply run_Resolve|]. cbv beta. intros a i1 [H1 _].
  eapply held_still in H1; [|exact Hh]. destruct a as [a|]; [|by eapply run_close_then].
  eapply run_or_close; [apply keeps_sys|exact H1|done|]. intros i2 H2. by apply run_ret.
Qed.

Lemma run_DoConnectTcp T socket opt peer me i :
  domain socket = family_of T -> valid peer i -> valid me i ->
  run (DoConnectTcp T socket opt peer me) i (fun r i' =>
    (r = -1 /\ still i i') \/ ((r = 0 \/ r = 1) /\ gained (domain socket) AF_INET i i')).
Proof.
  intros Hd Hp Hm. rewrite Hd. apply run_if; intros _.
  { eapply run_mono; [apply run_refuse|]. auto. }
  eapply run_created; [apply run_CreateSocket|auto|]. rewrite Hd. intros s i1 H1.
  apply run_bind. eapply run_mono; [by apply run_DoConnectTcp_bind|]. cbv beta. intros ok i2 H2.
  destruct ok; cbn [negb]; [|apply run_ret; auto].
  apply run_bind. eapply run_mono; [apply run_Resolve|]. cbv beta. intros a i3 [H3 Ha].
  eapply held_still in H3; [|exact H2]. destruct a as [a|]; [|eapply run_close_then; [exact H3|auto]].
  apply run_kept; [apply keeps_connect|]. intros r i4 H4. eapply held_still in H4; [|exact H3].
  apply run_bind, run_gets, run_if; intros _; [eapply run_close_then; [exact H4|auto]|].
  apply run_bind. eapply run_mono.
  { eapply run_GetPeerOrClose; [exact H4|done|by eapply valid_held]. }
  cbv beta. intros ok i5 H5. destruct ok; cbn [negb]; [|apply run_ret; auto]. destruct H5 as [H5 _].
  apply run_bind. eapply run_mono; [eapply run_valid_Set; [exact H5| |exact Ha]|].
  { by eapply valid_held. }
  cbv beta. intros ok i6 H6. destruct ok; cbn [negb]; [|eapply run_close_then; [exact H6|auto]].
  eapply run_own_held; [exact H6|]. intros i7 H7. apply run_ret. right. split; [|done].
  destruct (r =? 0); auto.
Qed.

(** ** Unix names *)

Lemma run_strlen p i : is_Some p -> run (strlen p) i (fun n i' =>
  i' = i /\ exists b, p = Some b /\ n = zlen (c_str b)).
Proof. intros [b ->]. apply run_ret. eauto. Qed.

Lemma run_memcpy b i : run (memcpy (Some b) (zlen (c_str b))) i (fun t i' => i' = i).
Proof.
  unfold memcpy. replace (_ <=? _) with true; [done|]. symmetry. apply Z.leb_le. lia.
Qed.

Lemma given_some p : given p = true -> is_Some p.
Proof. destruct p; [eauto|done]. Qed.

(** The descriptor that DoConnectUnix forgets to close when the credentials of
    the peer cannot be read. *)
Definition leaked (d : Z) i i' : Prop := exists s, held s d i i'.

Lemma run_DoConnectUnix socket opt peer me i :
  domain socket = AF_UNIX -> valid peer i ->
  given (unix_pathname socket) || given (unix_abstract socket) = true ->
  run (DoConnectUnix socket opt peer me) i (fun r i' =>
    (r = -1 /\ still i i') \/ (r = 0 /\ gained AF_UNIX AF_UNIX i i') \/
    (r = -1 /\ is_Some peer /\ leaked AF_UNIX i i')).
Proof.
  intros Hd Hp Hg. unfold DoConnectUnix.
  destruct (if given (unix_pathname socket) then _ else _) as [name file_based] eqn:EN.
  assert (is_Some name) as Hn.
  { destruct (given (unix_pathname socket)) eqn:E1; [|destruct (given (unix_abstract socket)) eqn:E2];
      simplify_eq; first [by apply given_some | done]. }
  apply run_bind. eapply run_mono; [by apply run_strlen|]. intros n i' [-> (b & -> & ->)].
  apply run_if; intros _; [eapply run_mono; [apply run_refuse|]; auto|].
  apply run_bind. eapply run_mono; [apply run_memcpy|]. cbv beta. intros t i' ->.
  eapply run_created; [apply run_CreateSocket|auto|]. rewrite Hd. intros s i1 H1.
  eapply run_or_close; [apply keeps_connect|exact H1|auto|]. intros i2 H2.
  apply run_bind. destruct peer as [p|].
  - eapply run_mono; [apply (run_valid_Set T_un (Some p) s i i2 H2); [by eapply valid_held|done]|].
    cbv beta. intros ok i3 H3. destruct ok; cbn [negb]; [|apply run_ret; unfold leaked; eauto 7].
    eapply run_own_held; [exact H3|]. intros i4 H4. apply run_ret. auto.
  - apply run_ret. cbn [negb]. eapply run_own_held; [exact H2|]. intros i4 H4. apply run_ret. auto.
Qed.

(** ** Listening *)

Definition listening d (ok : bool) i i' : Prop :=
  if ok then gained d d i i' else still i i'.

Lemma run_DoListenTcp6 socket opt me i : domain socket = AF_INET6 -> valid me i ->
  run (DoListenTcp6 socket opt me) i (fun ok i' => listening AF_INET6 ok i i').
Proof.
  intros Hd Hm. apply run_bind. eapply run_mono; [apply run_Resolve|]. cbv beta. intros a i1 [H1 _].
  destruct a as [a|]; [|by apply run_ret].
  eapply run_created; [apply run_CreateListenSocket|intros; by eapply still_trans|].
  rewrite Hd. intros s i2 H2. eapply still_held in H2; [|exact H1].
  apply run_bind. eapply run_mono.
  { eapply (run_GetPeerOrClose T_in6); [exact H2|done|by eapply valid_held]. }
  cbv beta. intros ok i3 H3. destruct ok; cbn [negb]; [|by apply run_ret]. destruct H3 as [H3 _].
  eapply run_own_held; [exact H3|]. intros i4 H4. by apply run_ret.
Qed.

Lemma run_DoListenTcp4_on socket opt me a group i : domain socket = AF_INET -> valid me i ->
  run (DoListenTcp4_on socket opt me a group) i (fun ok i' => listening AF_INET ok i i').
Proof.
  intros Hd Hm. eapply run_created; [apply run_CreateListenSocket|done|].
  rewrite Hd. intros s i1 H1. eapply run_or_close; [|exact H1|done|].
  { destruct group as [[multiaddr address]|]; [apply keeps_sys|apply keeps_ret]. }
  intros i2 H2. apply run_bind. eapply run_mono.
  { eapply (run_GetPeerOrClose T_in); [exact H2|done|by eapply valid_held]. }
  cbv beta. intros ok i3 H3. destruct ok; cbn [negb]; [|by apply run_ret]. destruct H3 as [H3 _].
  eapply run_own_held; [exact H3|]. intros i4 H4. by apply run_ret.
Qed.

Lemma listening_still d ok i i1 i' : still i i1 -> listening d ok i1 i' -> listening d ok i i'.
Proof.
  intros H1 H2. destruct ok; [|by eapply still_trans]. destruct H1 as [(_&_&_&HP) HF].
  destruct H2 as (?&?&?&?&?). rewrite HF in *. split_and!; try done. congruence.
Qed.

Lemma run_refused d i : run (refuse EINVAL false) i (fun ok i' => listening d ok i i').
Proof. eapply run_mono; [apply run_refuse|]. by intros ok i' [-> ?]. Qed.

Lemma run_DoListenTcp4 socket opt me i : domain socket = AF_INET -> valid me i ->
  run (DoListenTcp4 socket opt me) i (fun ok i' => listening AF_INET ok i i').
Proof.
  intros Hd Hm. apply run_if; intros _.
  - apply run_if; intros _; [apply run_refused|]. destruct (inet_aton _) as [address|]; [|apply run_refused].
    apply run_bind. eapply run_mono; [apply run_Resolve|]. cbv beta. intros [a|] i1 [H1 _]; [|by apply run_ret].
    eapply run_mono; [apply run_DoListenTcp4_on; [done|by eapply valid_same; [apply H1|]]|].
    intros ok i'. by apply listening_still.
  - apply run_bind. eapply run_mono; [apply run_Resolve|]. cbv beta. intros [a|] i1 [H1 _]; [|by apply run_ret].
    eapply run_mono; [apply run_DoListenTcp4_on; [done|by eapply valid_same; [apply H1|]]|].
    intros ok i'. by apply listening_still.
Qed.

Lemma run_close_and_unlink s d name i0 i : held s d i0 i ->
  run (close_and_unlink s name) i (fun ok i' => ok = false /\ still i0 i').
Proof.
  intros Hh. apply run_bind. eapply run_close_then; [exact Hh|]. intros i1 H1.
  apply run_kept; [apply keeps_sys|]. intros _ i2 H2. apply run_ret.
  split; [done|by eapply still_trans].
Qed.

Lemma run_DoListenUnixSocket socket opt me i : domain socket = AF_UNIX ->
  given (unix_pathname socket) = true ->
  run (DoListenUnixSocket socket opt me) i (fun ok i' => listening AF_UNIX ok i i').
Proof.
  intros Hd Hg. unfold DoListenUnixSocket.
  apply run_bind. eapply run_mono; [by apply run_strlen, given_some|]. intros n i' [-> (b & -> & ->)].
  apply run_if; intros _; [apply run_refused|].
  apply run_bind. eapply run_mono; [apply run_memcpy|]. cbv beta. intros t i' ->.
  eapply run_created; [apply run_CreateSocket|done|]. rewrite Hd. intros s i1 H1.
  eapply run_or_close; [apply keeps_sys|exact H1|done|]. clear i1 H1. intros i1 H1.
  apply run_kept; [apply keeps_sys|]. intros r i2 H2. eapply held_still in H2; [|exact H1].
  apply run_if; intros _.
  { eapply run_mono; [by eapply run_close_and_unlink|]. by intros ok i3 [-> ?]. }
  apply run_kept; [apply keeps_sys|]. intros r' i3 H3. eapply held_still in H3; [|exact H2].
  apply run_if; intros _.
  { eapply run_mono; [by eapply run_close_and_unlink|]. by intros ok i4 [-> ?]. }
  eapply run_own_held; [exact H3|]. intros i4 H4. unfold set_sockname. by wp.
Qed.

(** A name of the abstract namespace alone is never listened on: the code reads
    its bytes from the path name, which is not there. *)
Lemma DoListenUnix_abstract socket opt me i :
  unix_pathname socket = None -> given (unix_abstract socket) = true ->
  zlen (or_else (unix_abstract socket) "") < sizeof_sun_path ->
  DoListenUnix socket opt me i = Err undefined_behaviour.
Proof.
  intros Hp Ha Hl. unfold DoListenUnix, DoListenUnixNamespace. rewrite Hp, Ha. cbn [given].
  destruct (unix_abstract socket) as [b|] eqn:E; [|done]. unfold or_else in Hl. rewrite Ha in Hl.
  cbn [strlen memcpy]. unfold bind at 1, ret. cbn [rbind]. by apply Z.leb_gt in Hl as ->.
Qed.

Definition transport (socket : Socket) : bool :=
  (type_ socket =? SOCK_STREAM) || (type_ socket =? SOCK_DGRAM).

(** ** The public methods *)

Lemma run_Interface_Listen socket opt me i : valid me i ->
  (domain socket = AF_UNIX ->
   given (unix_pathname socket) || negb (given (unix_abstract socket)) = true) ->
  run (Listen socket opt me) i (fun ok i' =>
    if transport socket then
      exists i1, empty_handed i i1 /\ listening (domain socket) ok i1 i'
    else ok = false /\ still i i').
Proof.
  intros Hm Hn. unfold Listen. rewrite <- negb_orb. fold (transport socket).
  destruct (transport socket); cbn [negb]; [|apply run_refuse].
  apply run_bind. eapply run_mono; [apply run_Close|]. cbv beta. intros closed i1 H1.
  assert (forall d ok i', listening d ok i1 i' ->
    exists i1, empty_handed i i1 /\ listening d ok i1 i') as HW by eauto.
  assert (valid me i1) as Hm1 by (destruct me; [cbn; by rewrite (proj1 H1)|done]).
  destruct closed; cbn [negb]; [|by apply run_ret, (HW (domain socket) false)].
  apply run_if; intros E; [apply Z.eqb_eq in E|apply run_if; intros E2; [apply Z.eqb_eq in E2|
    apply run_if; intros E3; [apply Z.eqb_eq in E3|]]].
  - rewrite E. eapply run_mono; [by apply run_DoListenTcp6|]. auto.
  - rewrite E2. eapply run_mono; [by apply run_DoListenTcp4|]. auto.
  - rewrite E3. specialize (Hn E3). unfold DoListenUnix.
    destruct (given (unix_pathname socket)) eqn:Eg.
    + eapply run_mono; [by apply run_DoListenUnixSocket|]. auto.
    + destruct (given (unix_abstract socket)); [done|].
      eapply run_mono; [apply (run_refused AF_UNIX)|]. auto.
  - eapply run_mono; [apply (run_refused (domain socket))|]. auto.
Qed.

Lemma run_Interface_Connect socket opt peer me i : valid peer i -> valid me i ->
  (domain socket = AF_UNIX ->
   given (unix_pathname socket) || given (unix_abstract socket) = true) ->
  run (Connect socket opt peer me) i (fun r i' =>
    if transport socket then
      exists i1, empty_handed i i1 /\
        ((r = -1 /\ still i1 i') \/
         ((r = 0 \/ r = 1) /\
          gained (domain socket) (if domain socket =? AF_INET6 then AF_INET else domain socket) i1 i') \/
         (r = -1 /\ domain socket = AF_UNIX /\ is_Some peer /\ leaked AF_UNIX i1 i'))
    else r = -1 /\ still i i').
Proof.
  intros Hp Hm Hn. unfold Connect. rewrite <- negb_orb. fold (transport socket).
  destruct (transport socket); cbn [negb]; [|apply run_refuse].
  apply run_bind. eapply run_mono; [apply run_Close|]. cbv beta. intros closed i1 H1.
  assert (forall p, valid p i -> valid p i1) as HV by (intros []; cbn; by rewrite ?(proj1 H1)).
  destruct closed; cbn [negb]; [|apply run_ret; eauto].
  apply run_if; intros E; [apply Z.eqb_eq in E|apply run_if; intros E2; [apply Z.eqb_eq in E2|
    apply run_if; intros E3; [apply Z.eqb_eq in E3|]]].
  - eapply run_mono; [by apply run_DoConnectTcp; auto|]. rewrite E. cbn. intros r i' H. exists i1. tauto.
  - eapply run_mono; [by apply run_DoConnectTcp; auto|]. rewrite E2. cbn. intros r i' H. exists i1. tauto.
  - eapply run_mono; [by apply run_DoConnectUnix; auto|]. rewrite E3. cbn. intros r i' H. exists i1. tauto.
  - apply run_ret. eauto.
Qed.

Lemma run_DoAccept T s peer me i : fds i !! s = Some (family_of T) -> valid peer i -> valid me i ->
  run (DoAccept T s peer me) i (fun r i' =>
    (r <> 0 /\ still i i') \/
    (r = 0 /\ exists fd, held fd (family_of T) i i' /\ told peer fd i')).
Proof.
  intros Hs Hp Hm. apply run_bind, run_on_os. eapply run_mono; [apply run_safe_accept|].
  cbv beta. intros fd k [[Hfd Hk]|(Hfd & Hn & d & Hd & Hk)].
  - apply run_if; [|intros E; apply Z.ltb_ge in E; lia]. intros _. apply run_ret. by left.
  - apply run_if; intros E; [apply Z.ltb_lt in E; lia|].
    unfold fds in Hs. rewrite Hs in Hd. injection Hd as <-.
    apply run_bind. eapply run_mono.
    { eapply (run_GetPeerOrClose T fd peer me i); [by split_and!|exact Hp|exact Hm]. }
    cbv beta. intros ok i' H. destruct ok; cbn [negb]; apply run_ret; [right|by left].
    split; [done|eauto].
Qed.

Lemma run_Accept opt p me i : 0 <= _socket i -> valid (Some p) i -> valid me i ->
  (_domain i = AF_UNSPEC \/ fds i !! _socket i = Some (_domain i)) ->
  run (Accept opt (Some p) me) i (fun r i' =>
    (r <> 0 /\ still i i') \/
    (r = 0 /\ exists fd d, held fd d i i' /\ told (Some p) fd i')).
Proof.
  intros H0 Hp Hm Hd. unfold Accept. wp; [by apply Z.leb_le|done|]. wp.
  eapply run_mono with (P := fun r i' => (r <> 0 /\ still i i') \/
    (r = 0 /\ exists fd d, held fd d i i' /\ told (Some p) fd i')).
  { assert (forall T, _domain i = family_of T -> run (DoAccept T (_socket i) (Some p) me) i
      (fun r i' => (r <> 0 /\ still i i') \/
        (r = 0 /\ exists fd d, held fd d i i' /\ told (Some p) fd i'))) as HT.
    { intros T ET. eapply run_mono; [apply run_DoAccept; [|done..]|].
      - destruct Hd as [Hd|Hd]; rewrite ET in Hd; [by destruct T|done].
      - cbv beta. intros r i' [?|(-> & fd & ? & ?)]; eauto 6. }
    apply run_if; intros E; [apply Z.eqb_eq in E; by apply (HT T_in6)|clear E].
    apply run_if; intros E; [apply Z.eqb_eq in E; by apply (HT T_in)|clear E].
    apply run_if; intros E; [apply Z.eqb_eq in E; by apply (HT T_un)|clear E].
    eapply run_mono; [apply run_refuse|]. intros r i' [-> ?]. by left. }
  cbv beta. intros r i1 [[Hr H1]|(-> & fd & d & H1 & T1)].
  - apply Z.eqb_neq in Hr as E. rewrite E. cbn [negb]. apply run_ret. by left.
  - cbn [Z.eqb negb]. destruct T1 as (v & Ev & Hv). unfold read_peer. wp. rewrite Ev. wp.
    eapply run_mono; [apply run_InitializeSocket|]. cbv beta. intros ok i2 [H2 E2].
    eapply held_still in H2; [|exact H1]. rewrite Hv.
    destruct ok; cbn [negb].
    + apply run_ret. right. split; [done|]. exists fd, d. split; [done|]. exists v.
      by rewrite E2.
    + eapply run_close_then; [exact H2|]. intros i3 H3. by left.
Qed.

Lemma run_Accepted opt fd i :
  run (Accepted opt fd) i (fun ok i' => exists i1, empty_handed i i1 /\ fds i' = fds i1 /\
    dom (peers i') = dom (peers i1) /\
    if ok then _socket i' = fd /\ _domain i' = AF_UNSPEC else _socket i' < 0).
Proof.
  apply run_bind. eapply run_mono; [apply run_Close|]. cbv beta. intros closed i1 H1.
  destruct closed; cbn [negb];
    [|apply run_ret; exists i1; split_and!; try done; apply H1].
  apply run_bind. eapply run_mono; [apply run_InitializeSocket|].
  cbv beta. intros ok i2 [[(_ & HS & _ & HD) HF] _]. pose proof H1 as (?&?&?).
  destruct ok; cbn [negb]; unfold set_domain, set_socket; wp; exists i1; split_and!.
  all: first [done | exact HF | exact HD | lia].
Qed.

Lemma run_Wait timeout i : 0 <= timeout < 2 ^ 31 * 1000000 ->
  run (WaitUntilConnected timeout) i (fun _ i' => still i i').
Proof.
  intros Ht. unfold WaitUntilConnected. wp. apply run_if; intros _; [done|].
  replace (0 <=? timeout) with true by (symmetry; apply Z.leb_le; lia).
  apply run_kept; [|by intros r i' H; apply run_if; intros _; apply run_ret].
  apply keeps_wait. rewrite Z.quot_div_nonneg by lia. unfold signed.
  assert (0 <= timeout / 1000000 < 2 ^ 31).
  { split; [apply Z.div_pos; lia|apply Z.div_lt_upper_bound; lia]. }
  change (2 ^ 31) with 2147483648 in *. change (2 ^ 32) with 4294967296. change (2 ^ (32 - 1)) with 2147483648.
  rewrite Z.mod_small by lia. destruct (_ <? _) eqn:E; [lia|]. apply Z.ltb_ge in E. lia.
Qed.

Lemma run_Test i : run TestIfConnected i (fun _ i' => still i i').
Proof.
  unfold TestIfConnected. wp. apply run_if; intros _.
  { eapply run_mono; [apply run_refuse|]. by intros ok i' [_ ?]. }
  apply run_kept; [apply keeps_test|]. intros r i' H. by apply run_if; intros _; apply run_ret.
Qed.

Lemma run_Shutdown i : run Shutdown i (fun _ i' => still i i').
Proof.
  unfold Shutdown. wp. apply run_on_os. unfold run, Interface_Shutdown.
  pose proof (sys_shutdown_open (_socket i) (kern (system i))) as H.
  destruct (_socket i <? 0); [done|].
  destruct (sys_shutdown _ _) as [k [e|]]; by repeat split.
Qed.

End Facts.
