(* ===== verification/InterfaceProps.v ===== *)
(** * Descriptors have one owner: the ledger that [Interface] refines

    The specification of linkage/interface.cpp is a ledger: which descriptors
    the callers own, which one the interface owns, and which ones nobody can
    close any more.  Any sequence of public calls follows it. *)

From S2P Require Import Prelude Libc StateMonad Sockets AbstractIo SafeIo Interface InterfaceFacts.

(** ** The specification *)

Inductive op : Type :=
| OpConnect (socket : Socket) (opt : Option) (peer me : option Z)
| OpListen (socket : Socket) (opt : Option) (me : option Z)
| OpAccept (opt : Option) (peer me : option Z)
| OpAccepted (opt : Option) (fd : Z)
| OpClose
| OpShutdown
| OpTest
| OpWait (timeout : Z)
| OpCallerClose (fd : Z).

Record ledger : Type := mkLedger {
  callers : gset Z;
  mine : option Z;
  lost : gset Z
}.

Definition of_mine (m : option Z) : gset Z :=
  match m with Some s => {[ s ]} | None => ∅ end.
Definition recorded (l : ledger) : gset Z := callers l ∪ of_mine (mine l) ∪ lost l.

Definition let_go (l : ledger) : ledger := mkLedger (callers l) None (lost l).
Definition takes (fd : Z) (l : ledger) : ledger := mkLedger (callers l) (Some fd) (lost l).
Definition hands (fd : Z) (l : ledger) : ledger := mkLedger ({[ fd ]} ∪ callers l) (mine l) (lost l).
Definition loses (fd : Z) (l : ledger) : ledger := mkLedger (callers l) (mine l) ({[ fd ]} ∪ lost l).
Definition without (fd : Z) (l : ledger) : ledger := mkLedger (callers l ∖ {[ fd ]}) (mine l) (lost l).

(** A call returns a number, true being 1, and a descriptor for the caller. *)
Definition answer : Type := Z * option Z.

(** The calls that may lose a descriptor. *)
Definition careless (o : op) : bool :=
  match o with
  | OpConnect s _ (Some _) _ => domain s =? AF_UNIX
  | _ => false
  end.

Definition ledger_step (o : op) (a : answer) (l l' : ledger) : Prop :=
  match o with
  | OpConnect s _ _ _ =>
      if transport s then
        (a = (-1, None) /\ l' = let_go l) \/
        ((a = (0, None) \/ a = (1, None)) /\
         exists fd, (fd ∉ recorded (let_go l)) /\ l' = takes fd (let_go l)) \/
        (a = (-1, None) /\ careless o = true /\
         exists fd, (fd ∉ recorded (let_go l)) /\ l' = loses fd (let_go l))
      else a = (-1, None) /\ l' = l
  | OpListen s _ _ =>
      if transport s then
        (a = (0, None) /\ l' = let_go l) \/
        (a = (1, None) /\ exists fd, (fd ∉ recorded (let_go l)) /\ l' = takes fd (let_go l))
      else a = (0, None) /\ l' = l
  | OpAccept _ _ _ =>
      (a.1 <> 0 /\ a.2 = None /\ l' = l) \/
      (exists fd, a = (0, Some fd) /\ (fd ∉ recorded l) /\ l' = hands fd l)
  | OpAccepted _ fd =>
      (a = (0, None) /\ l' = let_go l) \/ (a = (1, None) /\ l' = takes fd (without fd (let_go l)))
  | OpClose => a.2 = None /\ l' = let_go l
  | OpShutdown | OpTest | OpWait _ => a.2 = None /\ l' = l
  | OpCallerClose fd => a.2 = None /\ l' = without fd l
  end.

Inductive ledger_steps : list op -> list answer -> ledger -> ledger -> Prop :=
| steps_nil l : ledger_steps [] [] l l
| steps_cons o a ops answers l l1 l2 :
    ledger_step o a l l1 -> ledger_steps ops answers l1 l2 ->
    ledger_steps (o :: ops) (a :: answers) l l2.

(** ** The calls *)

Section Calls.
Context {NET : Inet} {K : Type} {KK : Kernel K} {DD : Descriptors K} {RR : Resolving K}.
Abbreviation M := (ST (Interface K)).
Implicit Types (i : Interface K).

Definition as_answer (m : M Z) : M answer := let* r := m in ret (r, None).
Definition as_bool (m : M bool) : M answer := let* r := m in ret ((if r : bool then 1 else 0), None).

(** After a successful Accept the caller asks the peer for its descriptor. *)
Definition accepting (opt : Option) (peer me : option Z) : M answer :=
  let* r := Accept opt peer me in
  if r =? 0 then
    let* p := match peer with Some p => read_peer p | None => fail undefined_behaviour end in
    ret (r, Some (_fd p))
  else ret (r, None).

Definition exec (o : op) : M answer :=
  match o with
  | OpConnect socket opt peer me => as_answer (Connect socket opt peer me)
  | OpListen socket opt me => as_bool (Listen socket opt me)
  | OpAccept opt peer me => accepting opt peer me
  | OpAccepted opt fd => as_bool (Accepted opt fd)
  | OpClose => as_bool Close
  | OpShutdown => as_bool Shutdown
  | OpTest => as_bool TestIfConnected
  | OpWait timeout => as_bool (WaitUntilConnected timeout)
  | OpCallerClose fd => as_answer (on_os (safe_close fd))
  end.

Fixpoint run_ops (ops : list op) : M (list answer) :=
  match ops with
  | [] => ret []
  | o :: ops =>
      let* a := exec o in
      let* rest := run_ops ops in
      ret (a :: rest)
  end.

(** What a caller must respect; [c] are the descriptors it owns.  A socket of
    the unix domain has a name, and one to listen on has a path; an interface
    that accepts is listening, which one that connected over IPv6 is not. *)
Definition legal (o : op) (c : gset Z) i : Prop :=
  match o with
  | OpConnect s _ peer me =>
      valid peer i /\ valid me i /\
      (domain s = AF_UNIX -> given (unix_pathname s) || given (unix_abstract s) = true)
  | OpListen s _ me =>
      valid me i /\
      (domain s = AF_UNIX -> given (unix_pathname s) || negb (given (unix_abstract s)) = true)
  | OpAccept _ peer me =>
      0 <= _socket i /\ is_Some peer /\ valid peer i /\ valid me i /\
      (fds i !! _socket i = Some AF_INET6 -> _domain i <> AF_INET)
  | OpAccepted _ fd => fd ∈ c
  | OpWait timeout => 0 <= timeout < 2 ^ 31 * 1000000
  | OpCallerClose fd => fd ∈ c
  | OpClose | OpShutdown | OpTest => True
  end.

(** The descriptors of the caller after a call. *)
Definition after (o : op) (a : answer) (c : gset Z) : gset Z :=
  match o with
  | OpAccepted _ fd => if a.1 =? 0 then c else c ∖ {[ fd ]}
  | OpCallerClose fd => c ∖ {[ fd ]}
  | _ => match a.2 with Some fd => {[ fd ]} ∪ c | None => c end
  end.

Fixpoint legal_run (ops : list op) (c : gset Z) i : Prop :=
  match ops with
  | [] => True
  | o :: ops =>
      legal o c i /\ run (exec o) i (fun a i' => legal_run ops (after o a c) i')
  end.

#[export] Instance valid_dec p i : Decision (valid p i).
Proof. destruct p; cbn; apply _. Defined.

#[export] Instance legal_dec o c i : Decision (legal o c i).
Proof. destruct o; cbn; apply _. Defined.

Fixpoint legal_check (ops : list op) (c : gset Z) i : bool :=
  match ops with
  | [] => true
  | o :: ops =>
      bool_decide (legal o c i) &&
      match exec o i with Ok (a, i') => legal_check ops (after o a c) i' | Err _ => false end
  end.

Lemma legal_check_ok ops c i : legal_check ops c i = true -> legal_run ops c i.
Proof.
  revert c i. induction ops as [|o ops IH]; intros c i; cbn [legal_check legal_run]; [done|].
  intros [H1%bool_decide_eq_true H2]%andb_true_iff. split; [done|]. unfold run.
  destruct (exec o i) as [[a i']|]; [auto|done].
Qed.

(** ** The relation *)

Definition own_fd i : option Z := if _socket i <? 0 then None else Some (_socket i).

(** The ledger records exactly the open descriptors, each once. *)
Definition related i (l : ledger) : Prop :=
  dom (fds i) = recorded l /\ mine l = own_fd i /\
  callers l ## lost l /\ (forall s, mine l = Some s -> (s ∉ callers l) /\ (s ∉ lost l)) /\
  (forall fd, fd ∈ dom (fds i) -> 0 <= fd) /\
  (forall d, 0 <= _socket i -> fds i !! _socket i = Some d ->
     _domain i = AF_UNSPEC \/ _domain i = d \/ (d = AF_INET6 /\ _domain i = AF_INET)).

Lemma own_some i : 0 <= _socket i -> own_fd i = Some (_socket i).
Proof. intros H. unfold own_fd. destruct (_socket i <? 0) eqn:E; [apply Z.ltb_lt in E; lia|done]. Qed.
Lemma own_none i : _socket i < 0 -> own_fd i = None.
Proof. intros H. unfold own_fd. by apply Z.ltb_lt in H as ->. Qed.

Lemma related_still i i' l : related i l -> still i i' -> related i' l.
Proof.
  intros (H1 & H2 & H3 & H4 & H5 & H6) [(_ & ES & ED & _) EF].
  unfold related, own_fd in *. rewrite EF, ES, ED. done.
Qed.

Lemma related_let_go i i' l : related i l -> empty_handed i i' -> related i' (let_go l).
Proof.
  intros (H1 & H2 & H3 & H4 & H5 & H6) (_ & ES & EF).
  unfold related. rewrite (own_none i') by done. cbn [let_go mine callers lost].
  assert (dom (fds i') = callers l ∪ lost l) as HD.
  { rewrite EF. unfold own_fd, recorded in *. destruct (_socket i <? 0).
    - rewrite H1, H2. cbn. set_solver.
    - rewrite dom_delete_L, H1, H2. cbn. destruct (H4 (_socket i)); [by rewrite H2|]. set_solver. }
  split_and!; try done.
  - rewrite HD. unfold recorded. cbn. set_solver.
  - intros fd Hfd. apply H5. rewrite HD in Hfd. rewrite H1. unfold recorded. set_solver.
  - intros. lia.
Qed.

(** A new descriptor, for the interface, the caller or nobody. *)
Lemma related_gained d dm i i' l : related i (let_go l) -> gained d dm i i' ->
  dm = d \/ (d = AF_INET6 /\ dm = AF_INET) ->
  exists fd, (fd ∉ recorded (let_go l)) /\ related i' (takes fd (let_go l)).
Proof.
  intros (H1 & H2 & H3 & H4 & H5 & H6) (G1 & G2 & G3 & G4 & _) Hd.
  apply not_elem_of_dom in G2. rewrite H1 in G2.
  exists (_socket i'). split; [done|]. unfold recorded in *. cbn in *.
  unfold related, recorded. rewrite own_some, G3, dom_insert_L, H1 by done. cbn. split_and!; try done.
  - set_solver.
  - intros s [= <-]. set_solver.
  - intros fd Hfd. apply elem_of_union in Hfd as [->%elem_of_singleton|Hfd]; [done|].
    apply H5. by rewrite H1.
  - intros d' _. rewrite lookup_insert_eq. intros [= <-]. rewrite G4. destruct Hd as [->|[-> ->]]; auto.
Qed.

Lemma related_held fd d i i' l : related i l -> held fd d i i' ->
  (fd ∉ recorded l) /\ related i' (hands fd l) /\ related i' (loses fd l).
Proof.
  intros (H1 & H2 & H3 & H4 & H5 & H6) (G1 & G2 & (_ & ES & ED & _) & G3).
  pose proof G2 as G2'. apply not_elem_of_dom in G2. rewrite H1 in G2.
  assert ((fd ∉ callers l) /\ mine l <> Some fd /\ (fd ∉ lost l)) as (N1 & N2 & N3).
  { unfold recorded in G2. destruct (mine l) as [s|]; cbn in G2; set_solver. }
  assert (forall fd0, fd0 ∈ {[fd]} ∪ recorded l -> 0 <= fd0) as HP.
  { intros fd0 [->%elem_of_singleton|Hf]%elem_of_union; [done|]. apply H5. by rewrite H1. }
  assert (forall d', 0 <= _socket i' -> fds i' !! _socket i' = Some d' ->
     _domain i' = AF_UNSPEC \/ _domain i' = d' \/ (d' = AF_INET6 /\ _domain i' = AF_INET)) as HL.
  { intros d' HS. rewrite G3, ES, ED. rewrite ES in HS. rewrite lookup_insert_ne.
    - by apply H6.
    - intros ->. apply N2. rewrite H2. by apply own_some. }
  split; [done|]. unfold related, recorded in *. rewrite G3, dom_insert_L, H1.
  unfold own_fd in *. rewrite ES. cbn.
  assert (forall s, mine l = Some s -> (s ∉ callers l) /\ (s ∉ lost l) /\ s <> fd) as HM.
  { intros s Hs. destruct (H4 s Hs). rewrite Hs in N2. split_and!; congruence. }
  split; split_and!; try done.
  - clear. set_solver.
  - clear -H3 N3. set_solver.
  - intros s (Ha & Hb & Hc)%HM. clear -Ha Hb Hc. set_solver.
  - intros d'. rewrite <- G3, <- ES. apply HL.
  - clear. set_solver.
  - clear -H3 N1. set_solver.
  - intros s (Ha & Hb & Hc)%HM. clear -Ha Hb Hc. set_solver.
  - intros d'. rewrite <- G3, <- ES. apply HL.
Qed.

(** The ledger when the interface takes or closes a descriptor of the caller. *)
Lemma related_adopt i i1 i' fd l : related i l -> fd ∈ callers l -> empty_handed i i1 ->
  fds i' = fds i1 -> _socket i' = fd -> _domain i' = AF_UNSPEC ->
  related i' (takes fd (without fd (let_go l))).
Proof.
  intros HR Hfd He EF ES ED. destruct (related_let_go _ _ _ HR He) as (H1 & H2 & H3 & H4 & H5 & H6).
  unfold recorded in H1. cbn in *.
  assert (0 <= fd) as H0 by (apply H5; rewrite H1; clear -Hfd; set_solver).
  unfold related, recorded. rewrite own_some, EF, ES by congruence. cbn. split_and!; try done.
  - rewrite H1. apply set_eq. intros x. clear -Hfd. destruct (decide (x = fd)); set_solver.
  - clear -H3. set_solver.
  - intros s [= <-]. clear -Hfd H3. set_solver.
  - auto.
Qed.

Lemma related_without i fd l : related i l -> fd ∈ callers l ->
  run (on_os (safe_close fd)) i (fun _ i' => related i' (without fd l)).
Proof.
  intros (H1 & H2 & H3 & H4 & H5 & H6) Hfd.
  assert (0 <= fd) as H0 by (apply H5; rewrite H1; unfold recorded; clear -Hfd; set_solver).
  eapply run_mono; [by apply run_safe_close_|]. intros _ i' [(_ & ES & ED & _) EF].
  assert (mine l <> Some fd) as Hm by (intros E; destruct (H4 _ E); done).
  unfold related, recorded, own_fd in *. rewrite EF, ES, ED. cbn. split_and!; try done.
  - rewrite dom_delete_L, H1. clear -Hfd H3 Hm.
    destruct (mine l) as [s|]; cbn; [assert (s <> fd) by congruence|]; set_solver.
  - clear -H3. set_solver.
  - intros s Hs. destruct (H4 _ Hs) as [Ha Hb]. clear -Ha Hb. set_solver.
  - intros x Hx. apply H5. clear -Hx. set_solver.
  - intros d HS. rewrite lookup_delete_ne; [by apply H6|].
    intros ->. apply Hm. rewrite H2. by apply own_some.
Qed.

(** Every call follows the ledger. *)
Lemma exec_ledger o i l : related i l -> legal o (callers l) i ->
  run (exec o) i (fun a i' => exists l', ledger_step o a l l' /\ related i' l' /\
    callers l' = after o a (callers l) /\ (careless o = false -> lost l' = lost l)).
Proof.
  intros HR HL. destruct o; cbn [exec legal] in *.
  - destruct HL as (Hp & Hm & Hn). apply run_bind. eapply run_mono; [by apply run_Interface_Connect|].
    cbv beta. intros r i' H. apply run_ret. cbn [ledger_step after snd]. destruct (transport socket).
    + destruct H as (i1 & He & H). pose proof (related_let_go _ _ _ HR He) as HR1.
      destruct H as [[-> Hs]|[[Hr Hg]|(-> & Hd & Hpeer & fd & Hh)]].
      * exists (let_go l). split_and!; [by left|by eapply related_still|done..].
      * eapply related_gained in Hg as (fd & Hfd & HR2); [|exact HR1|].
        -- exists (takes fd (let_go l)). split_and!; [right; left|done..].
           split; [destruct Hr as [->| ->]; auto|eauto].
        -- destruct (Z.eqb_spec (domain socket) AF_INET6); auto.
      * destruct (related_held _ _ _ _ _ HR1 Hh) as (Hfd & _ & HR2).
        assert (careless (OpConnect socket opt peer me) = true) as Hc.
        { destruct peer; [cbn; by rewrite Hd|by destruct Hpeer]. }
        exists (loses fd (let_go l)). split_and!; [right; right; eauto|done|done|congruence].
    + destruct H as [-> Hs]. exists l. split_and!; [done|done|by eapply related_still|done..].
  - destruct HL as (Hm & Hn). apply run_bind. eapply run_mono; [by apply run_Interface_Listen|].
    cbv beta. intros ok i' H. apply run_ret. cbn [ledger_step after snd]. destruct (transport socket).
    + destruct H as (i1 & He & H). pose proof (related_let_go _ _ _ HR He) as HR1.
      destruct ok; cbn [listening] in H.
      * eapply related_gained in H as (fd & Hfd & HR2); [|exact HR1|auto].
        exists (takes fd (let_go l)). split_and!; [right; eauto|done..].
      * exists (let_go l). split_and!; [by left|by eapply related_still|done..].
    + destruct H as [-> Hs]. exists l. split_and!; [done|done|by eapply related_still|done..].
  - destruct HL as (H0 & [p ->] & Hp & Hm & H6). apply run_bind.
    assert (_domain i = AF_UNSPEC \/ fds i !! _socket i = Some (_domain i)) as Hd.
    { pose proof HR as (R1 & R2 & _ & _ & _ & R6). rewrite own_some in R2 by done.
      destruct (fds i !! _socket i) as [d|] eqn:E.
      - destruct (R6 d H0 eq_refl) as [?|[->|[-> ?]]]; auto. by destruct H6.
      - apply not_elem_of_dom in E. destruct E. rewrite R1. unfold recorded. rewrite R2. cbn.
        clear. set_solver. }
    eapply run_mono; [by apply run_Accept|]. cbv beta.
    intros r i' [[Hr Hs]|(-> & fd & d & Hh & (v & Ev & Hv))].
    + apply Z.eqb_neq in Hr as E. rewrite E. apply run_ret. exists l.
      split_and!; [left; by split_and!|by eapply related_still|done..].
    + cbn [Z.eqb]. unfold read_peer. wp. rewrite Ev. wp.
      destruct (related_held _ _ _ _ _ HR Hh) as (Hfd & HR2 & _). rewrite Hv.
      exists (hands fd l). split_and!; [right; eauto|done..].
  - apply run_bind. eapply run_mono; [apply run_Accepted|]. cbv beta.
    intros ok i' (i1 & He & EF & EP & H). apply run_ret. destruct ok.
    + destruct H as [ES ED]. exists (takes fd (without fd (let_go l))).
      split_and!; [by right|by eapply related_adopt|done..].
    + exists (let_go l). split_and!; [by left| |done..].
      eapply related_let_go; [exact HR|]. destruct He as (E1 & E2 & E3).
      split_and!; [congruence|done|congruence].
  - apply run_bind. eapply run_mono; [apply run_Close|]. cbv beta. intros ok i' He. apply run_ret.
    exists (let_go l). split_and!; try done. by eapply related_let_go.
  - apply run_bind. eapply run_mono; [apply run_Shutdown|]. intros ok i' Hs. apply run_ret.
    exists l. split_and!; try done. by eapply related_still.
  - apply run_bind. eapply run_mono; [apply run_Test|]. intros ok i' Hs. apply run_ret.
    exists l. split_and!; try done. by eapply related_still.
  - apply run_bind. eapply run_mono; [by apply run_Wait|]. intros ok i' Hs. apply run_ret.
    exists l. split_and!; try done. by eapply related_still.
  - apply run_bind. eapply run_mono; [by apply related_without|]. cbv beta. intros r i' H. apply run_ret.
    exists (without fd l). by split_and!.
Qed.

Lemma related_closed i l : related i l ->
  run Close i (fun _ i' => dom (fds i') = callers l ∪ lost l).
Proof.
  intros HR. eapply run_mono; [apply run_Close|]. cbv beta. intros _ i' He.
  destruct (related_let_go _ _ _ HR He) as (H & _). rewrite H. unfold recorded. cbn. clear. set_solver.
Qed.

(** C14: the descriptors of a process follow a ledger that gives each of them
    one owner.  Whatever sequence of legal calls its callers make of an
    interface, and whatever the system answers, every call returns and moves
    the ledger as the specification says ([legal] leaves out unix sockets to
    connect without a name or to listen on in the abstract namespace, Accept on
    an interface that does not listen, waits with a negative timeout or of 24
    days or more, and what the caller does not own): Connect and Listen give up
    the descriptor of before and own a new one or none, Accept hands a new one
    to the caller or keeps nothing, Accepted takes one over, a failure closes
    what it opened.
    The destructor then leaves open exactly what the callers own and the
    descriptors that are lost; only connecting over a unix socket with a peer
    to fill ([careless]) can lose one. *)
Theorem interface_refines_ledger (ops : list op) i l :
  related i l -> legal_run ops (callers l) i ->
  run (run_ops ops) i (fun answers i' => exists l',
    ledger_steps ops answers l l' /\ related i' l' /\
    (forallb (fun o => negb (careless o)) ops = true -> lost l' = lost l) /\
    run Close i' (fun _ i'' => dom (fds i'') = callers l' ∪ lost l')).
Proof.
  revert i l. induction ops as [|o ops IH]; intros i l HR HL; cbn [run_ops].
  - apply run_ret. exists l. split_and!; [constructor|done|done|by apply related_closed].
  - destruct HL as [HL HL2]. apply run_bind.
    eapply run_mono; [apply (run_and _ _ _ _ (exec_ledger o i l HR HL) HL2)|].
    cbv beta. intros a i1 [(l1 & S1 & R1 & C1 & F1) HL1]. rewrite <- C1 in HL1.
    apply run_bind. eapply run_mono; [by apply IH|]. cbv beta.
    intros rest i2 (l2 & S2 & R2 & F2 & D2). apply run_ret. exists l2. split_and!; [|done| |done].
    + by econstructor.
    + cbn [forallb]. intros [Ho%negb_true_iff Hops]%andb_true_iff. rewrite F2, F1; done.
Qed.

End Calls.

Record dk : Type := mkDk { dk_open : gmap Z Z }.

Definition biggest (m : gmap Z Z) : Z := foldr (fun p a => Z.max p.1 a) 2 (map_to_list m).
Definition next_fd (m : gmap Z Z) : Z := biggest m + 1.

Lemma biggest_ge m fd d : m !! fd = Some d -> fd <= biggest m.
Proof.
  unfold biggest. rewrite <- elem_of_map_to_list. induction (map_to_list m) as [|p l IH].
  - by intros ?%not_elem_of_nil.
  - intros [<-|H%IH]%elem_of_cons; cbn; lia.
Qed.
Lemma biggest_min m : 2 <= biggest m.
Proof. unfold biggest. induction (map_to_list m); cbn; lia. Qed.
Lemma next_fd_fresh m : m !! next_fd m = None.
Proof.
  destruct (m !! next_fd m) eqn:E; [|done]. apply biggest_ge in E. unfold next_fd in E. lia.
Qed.

#[export, refine] Instance dk_kernel : Kernel dk := {|
  sys_read fd n k := (k, inl EAGAIN);
  sys_write fd b k := (k, inl EAGAIN);
  sys_shutdown fd k := (k, None);
  sys_so_error fd k := (k, inr 0);
  sent_bytes k := [];
  interrupts k := O
|}.
Proof. all: by intros. Defined.

Definition dk_sys (c : syscall) (k : dk) : dk * (Z + Z) :=
  match c with
  | ConnectTo _ _ _ => (k, inl EINPROGRESS)
  | Poll _ _ => (k, inr 1)
  | _ => (k, inr 0)
  end.

Definition dk_new (d : Z) (k : dk) : dk * (Z + Z) :=
  (mkDk (<[next_fd (dk_open k) := d]> (dk_open k)), inr (next_fd (dk_open k))).

Definition dk_accept (s : Z) (k : dk) : dk * (Z + Z) :=
  match dk_open k !! s with Some d => dk_new d k | None => (k, inl EBADF) end.

Definition dk_name_of (d : Z) : sockaddr :=
  if d =? AF_INET then sockaddr_in 16777343 80
  else if d =? AF_INET6 then sockaddr_in6 (replicate 15 NUL ++ ["001"%char]) 80
  else if d =? AF_UNIX then sockaddr_un (replicate 108 NUL)
  else sockaddr_other.

Definition dk_name (fd : Z) (k : dk) : dk * (Z + sockaddr) :=
  match dk_open k !! fd with Some d => (k, inr (dk_name_of d)) | None => (k, inl EBADF) end.

Lemma dk_name_family fd k k' a d : dk_name fd k = (k', inr a) ->
  dk_open k !! fd = Some d -> known d -> sa_family a = d.
Proof.
  unfold dk_name. intros H E. rewrite E in H. injection H as <- <-.
  by intros [->|[->| ->]].
Qed.

Lemma dk_name_open fd k : dk_open (dk_name fd k).1 = dk_open k.
Proof. unfold dk_name. by destruct (dk_open k !! fd). Qed.

#[export, refine] Instance dk_descriptors : Descriptors dk := {|
  sys := dk_sys;
  sys_socket d t p k := dk_new d k;
  sys_accept := dk_accept;
  sys_close fd k := (mkDk (delete fd (dk_open k)), inr tt);
  sys_getpeername := dk_name;
  sys_getsockname := dk_name;
  sys_peercred fd k := (k, inr (1000, 1000, 42));
  sys_clock k := (k, 1);
  open := dk_open
|}.
Proof.
  - by intros [].
  - intros [] k k' v; cbn; by intros [= _ <-].
  - done.
  - done.
  - intros d t p k k' fd. unfold dk_new. intros [= <- <-]. cbn. pose proof (biggest_min (dk_open k)).
    split_and!; [unfold next_fd; lia|apply next_fd_fresh|done].
  - done.
  - intros s k k' fd. unfold dk_accept. destruct (dk_open k !! s) as [d|]; [|done].
    unfold dk_new. intros [= <- <-]. cbn. pose proof (biggest_min (dk_open k)).
    exists d. split_and!; [done|unfold next_fd; lia|apply next_fd_fresh|done].
  - intros s k k' e. unfold dk_accept. by destruct (dk_open k !! s); intros [= <-].
  - intros s k k'. unfold dk_accept. by destruct (dk_open k !! s).
  - intros fd k k' r [= <- <-]. by left.
  - done.
  - apply dk_name_open.
  - apply dk_name_family.
  - apply dk_name_open.
  - apply dk_name_family.
  - done.
  - done.
  - done.
  - done.
  - done.
Defined.

#[export, refine] Instance dk_resolving : Resolving dk := {|
  resolve d h p first k :=
    (k, if bool_decide (known d) then Some (dk_name_of d) else None)
|}.
Proof.
  - intros. done.
  - intros d h p first k k' a [= <- H]. case_bool_decide as Hd; [|done]. injection H as <-.
    by destruct Hd as [->|[->| ->]].
Defined.

#[export] Instance dk_inet : Inet := {|
  inet_ntop4 _ := B "127.0.0.1";
  inet_ntop6 _ := B "::1";
  inet_aton _ := Some 16777343;
  inet_pton4 _ := None;
  inet_pton6 _ := None
|}.

(** An interface of a process with the descriptors 0, 1 and 2, and two peers. *)
Definition demo_kernel : dk := mkDk (<[0 := 0]> (<[1 := 0]> (<[2 := 0]> ∅))).
Definition demo_interface : Interface dk :=
  Interface_new (<[100 := LinkagePeer_new]> (<[200 := LinkagePeer_new]> ∅)) (mkOs demo_kernel 0).
Definition demo_ledger : ledger := mkLedger {[ 0; 1; 2 ]} None ∅.

Definition demo_tcp6 : Socket :=
  of_kind AF_INET6 SOCK_STREAM (bound_to (Some (B "::1")) 80 Socket_new).
Definition demo_tcp4 : Socket :=
  of_kind AF_INET SOCK_STREAM (towards (Some (B "localhost")) 80 Socket_new).
Definition demo_unix : Socket := unix_socket (B "/tmp/socket") true kNormal.
Definition demo_option : Option := wanting true true true (Option_new false).

Definition demo_interface_ops : list op :=
  [OpListen demo_tcp6 demo_option None; OpAccept demo_option (Some 100) (Some 200);
   OpAccept demo_option (Some 100) None; OpCallerClose 4; OpConnect demo_tcp4 demo_option (Some 100) None;
   OpShutdown; OpListen demo_unix demo_option None; OpAccepted demo_option 5; OpClose].

Example demo_answers :
  match run_ops demo_interface_ops demo_interface with
  | Ok (answers, i) => answers = [(1, None); (0, Some 4); (0, Some 5); (0, None); (1, None);
                                  (1, None); (1, None); (1, None); (1, None)] /\
                       dom (fds i) = ({[ 0; 1; 2 ]} : gset Z)
  | Err _ => False
  end.
Proof. vm_compute. auto. Qed.

Lemma demo_dom : dom (fds demo_interface) = ({[ 0; 1; 2 ]} : gset Z).
Proof. by apply (bool_decide_unpack _). Qed.

Lemma demo_related : related demo_interface demo_ledger.
Proof.
  split_and!; [by apply (bool_decide_unpack _)|done|by apply (bool_decide_unpack _)|done| |done].
  intros fd. rewrite demo_dom. rewrite !elem_of_union, !elem_of_singleton. lia.
Qed.

Lemma demo_legal : legal_run demo_interface_ops (callers demo_ledger) demo_interface.
Proof.
  apply legal_check_ok. by vm_compute.
Qed.

(** Listening, accepting, connecting and taking over, down to the destructor. *)
Lemma interface_refines_ledger_witness :
  related demo_interface demo_ledger /\
  legal_run demo_interface_ops (callers demo_ledger) demo_interface /\
  run (run_ops demo_interface_ops) demo_interface (fun answers i' => exists l',
    ledger_steps demo_interface_ops answers demo_ledger l' /\ related i' l' /\
    (forallb (fun o => negb (careless o)) demo_interface_ops = true -> lost l' = lost demo_ledger) /\
    run Close i' (fun _ i'' => dom (fds i'') = callers l' ∪ lost l')).
Proof.
  pose proof demo_related as HR. pose proof demo_legal as HL.
  split; [exact HR|split; [exact HL|]].
  exact (interface_refines_ledger demo_interface_ops demo_interface demo_ledger HR HL).
Defined.
