(* ===== verification/Linkage.v ===== *)
(** * A connection: linkage/linkage.cpp, linkage_handler.cpp, linkage_base.cpp

    [Linkage] cuts the bytes its I/O engine reads into messages for a
    [LinkageHandler], queues what the kernel does not take at once, and drives
    the engine through connecting and shutting down.  Its methods are programs
    of the state monad, with failed assertions as errors.  The state [st] is
    the linkage, its engine (interface [AbstractIo]), the workers (interface
    [WorkerApi]), the application (interface [LinkageHandler]) and the clock;
    two ghost logs record what the methods did: the bytes that [Send] took, and
    the messages delivered with the replies. *)

From S2P Require Import Prelude StateMonad AbstractIo.

(** ** The workers, as a linkage sees them

    A worker is known by its address.  [watching] is what the worker watches
    for the linkage: readability, writability.  [worker_ok] is an invariant of
    its own that every method keeps. *)
Class WorkerApi (W : Type) := {
  w_Attach : Z -> Z -> bool -> bool -> bool -> W -> W * bool;
  w_Detach : Z -> W -> W * bool;
  w_SetWanna : Z -> bool -> bool -> W -> W;
  w_SetWannaRead : Z -> bool -> W -> W;
  w_SetWannaWrite : Z -> bool -> W -> W;

  watching : Z -> W -> option (bool * bool);

  Attach_watching : forall k fd r w a W0 W1, w_Attach k fd r w a W0 = (W1, true) ->
    watching k W0 = None -> watching k W1 = Some (r, w);
  Attach_refused : forall k fd r w a W0 W1, w_Attach k fd r w a W0 = (W1, false) ->
    watching k W1 = watching k W0;
  Attach_others : forall k k' fd r w a W0, k <> k' ->
    watching k' (w_Attach k fd r w a W0).1 = watching k' W0;
  Detach_watching : forall k W0, watching k (w_Detach k W0).1 = None;
  Detach_others : forall k k' W0, k <> k' -> watching k' (w_Detach k W0).1 = watching k' W0;
  SetWanna_watching : forall k r w W0,
    watching k (w_SetWanna k r w W0) = match watching k W0 with Some _ => Some (r, w) | None => None end;
  SetWanna_others : forall k k' r w W0, k <> k' ->
    watching k' (w_SetWanna k r w W0) = watching k' W0;
  SetWannaRead_watching : forall k r W0,
    watching k (w_SetWannaRead k r W0) = match watching k W0 with Some (_, w) => Some (r, w) | None => None end;
  SetWannaRead_others : forall k k' r W0, k <> k' ->
    watching k' (w_SetWannaRead k r W0) = watching k' W0;
  SetWannaWrite_watching : forall k w W0,
    watching k (w_SetWannaWrite k w W0) = match watching k W0 with Some (r, _) => Some (r, w) | None => None end;
  SetWannaWrite_others : forall k k' w W0, k <> k' ->
    watching k' (w_SetWannaWrite k w W0) = watching k' W0;

  worker_ok : W -> Prop;
  Attach_worker_ok : forall k fd r w a W0, worker_ok W0 -> worker_ok (w_Attach k fd r w a W0).1;
  Detach_worker_ok : forall k W0, worker_ok W0 -> worker_ok (w_Detach k W0).1;
  SetWanna_worker_ok : forall k r w W0, worker_ok W0 -> worker_ok (w_SetWanna k r w W0);
  SetWannaRead_worker_ok : forall k r W0, worker_ok W0 -> worker_ok (w_SetWannaRead k r W0);
  SetWannaWrite_worker_ok : forall k w W0, worker_ok W0 -> worker_ok (w_SetWannaWrite k w W0)
}.

(** ** The application

    A callback is a program that may call [Send] and [Disconnect] of the
    linkage it is given before it returns. *)
Inductive prog (A : Type) : Type :=
| Ret (a : A)
| CallSend (b : bytes) (k : bool -> prog A)
| CallDisconnect (finish_write : bool) (k : Z -> prog A).
Arguments Ret {A} _.
Arguments CallSend {A} _ _.
Arguments CallDisconnect {A} _ _.

Class LinkageHandler (H : Type) := {
  h_GetMessageLength : bytes -> H -> prog (H * Z);
  h_OnMessage : bytes -> H -> prog (H * Z);
  h_OnConnected : H -> prog (H * bool);
  h_OnDisconnected : H -> prog H;
  h_OnError : bool -> Z -> H -> prog H;
  h_Cleanup : Z -> H -> prog (H * bool)
}.

(** The virtual functions that linkage_handler.cpp defines; they only log. *)
Definition LinkageHandler_OnConnected {H : Type} (h : H) : prog (H * bool) := Ret (h, true).
Definition LinkageHandler_OnDisconnected {H : Type} (h : H) : prog H := Ret h.
Definition LinkageHandler_OnError {H : Type} (reading_or_writing : bool) (errnum : Z) (h : H)
  : prog H := Ret h.
Definition LinkageHandler_Cleanup {H : Type} (now : Z) (h : H) : prog (H * bool) := Ret (h, true).

(** ** The state *)

Record Linkage : Type := mkLinkage {
  _peer_fd : Z;
  _rbuffer : bytes;
  _wbuffer : bytes;
  _last_writing : Z;
  _receive_timeout : Z;
  _connect_timeout : Z;
  _last_received : Z;
  _idle_timeout : Z;
  _send_timeout : Z;
  _receive_jam : Z;
  _connect_jam : Z;
  _last_sent : Z;
  _send_jam : Z;
  _action : Action;
  _worker : option Z;
  _rlength : Z;
  _graceful : bool;
  _closed : bool
}.


Definition set_rbuffer (v : bytes) (l : Linkage) : Linkage :=
  mkLinkage (_peer_fd l) v (_wbuffer l) (_last_writing l) (_receive_timeout l)
    (_connect_timeout l) (_last_received l) (_idle_timeout l) (_send_timeout l)
    (_receive_jam l) (_connect_jam l) (_last_sent l) (_send_jam l) (_action l)
    (_worker l) (_rlength l) (_graceful l) (_closed l).

Definition set_wbuffer (v : bytes) (l : Linkage) : Linkage :=
  mkLinkage (_peer_fd l) (_rbuffer l) v (_last_writing l) (_receive_timeout l)
    (_connect_timeout l) (_last_received l) (_idle_timeout l) (_send_timeout l)
    (_receive_jam l) (_connect_jam l) (_last_sent l) (_send_jam l) (_action l)
    (_worker l) (_rlength l) (_graceful l) (_closed l).

Definition set_last_writing (v : Z) (l : Linkage) : Linkage :=
  mkLinkage (_peer_fd l) (_rbuffer l) (_wbuffer l) v (_receive_timeout l)
    (_connect_timeout l) (_last_received l) (_idle_timeout l) (_send_timeout l)
    (_receive_jam l) (_connect_jam l) (_last_sent l) (_send_jam l) (_action l)
    (_worker l) (_rlength l) (_graceful l) (_closed l).

Definition set_receive_timeout (v : Z) (l : Linkage) : Linkage :=
  mkLinkage (_peer_fd l) (_rbuffer l) (_wbuffer l) (_last_writing l) v
    (_connect_timeout l) (_last_received l) (_idle_timeout l) (_send_timeout l)
    (_receive_jam l) (_connect_jam l) (_last_sent l) (_send_jam l) (_action l)
    (_worker l) (_rlength l) (_graceful l) (_closed l).

Definition set_connect_timeout (v : Z) (l : Linkage) : Linkage :=
  mkLinkage (_peer_fd l) (_rbuffer l) (_wbuffer l) (_last_writing l)
    (_receive_timeout l) v (_last_received l) (_idle_timeout l) (_send_timeout l)
    (_receive_jam l) (_connect_jam l) (_last_sent l) (_send_jam l) (_action l)
    (_worker l) (_rlength l) (_graceful l) (_closed l).

Definition set_last_received (v : Z) (l : Linkage) : Linkage :=
  mkLinkage (_peer_fd l) (_rbuffer l) (_wbuffer l) (_last_writing l)
    (_receive_timeout l) (_connect_timeout l) v (_idle_timeout l) (_send_timeout l)
    (_receive_jam l) (_connect_jam l) (_last_sent l) (_send_jam l) (_action l)
    (_worker l) (_rlength l) (_graceful l) (_closed l).

Definition set_idle_timeout (v : Z) (l : Linkage) : Linkage :=
  mkLinkage (_peer_fd l) (_rbuffer l) (_wbuffer l) (_last_writing l)
    (_receive_timeout l) (_connect_timeout l) (_last_received l) v (_send_timeout l)
    (_receive_jam l) (_connect_jam l) (_last_sent l) (_send_jam l) (_action l)
    (_worker l) (_rlength l) (_graceful l) (_closed l).

Definition set_send_timeout (v : Z) (l : Linkage) : Linkage :=
  mkLinkage (_peer_fd l) (_rbuffer l) (_wbuffer l) (_last_writing l)
    (_receive_timeout l) (_connect_timeout l) (_last_received l) (_idle_timeout l) v
    (_receive_jam l) (_connect_jam l) (_last_sent l) (_send_jam l) (_action l)
    (_worker l) (_rlength l) (_graceful l) (_closed l).

Definition set_receive_jam (v : Z) (l : Linkage) : Linkage :=
  mkLinkage (_peer_fd l) (_rbuffer l) (_wbuffer l) (_last_writing l)
    (_receive_timeout l) (_connect_timeout l) (_last_received l) (_idle_timeout l)
    (_send_timeout l) v (_connect_jam l) (_last_sent l) (_send_jam l) (_action l)
    (_worker l) (_rlength l) (_graceful l) (_closed l).

Definition set_connect_jam (v : Z) (l : Linkage) : Linkage :=
  mkLinkage (_peer_fd l) (_rbuffer l) (_wbuffer l) (_last_writing l)
    (_receive_timeout l) (_connect_timeout l) (_last_received l) (_idle_timeout l)
    (_send_timeout l) (_receive_jam l) v (_last_sent l) (_send_jam l) (_action l)
    (_worker l) (_rlength l) (_graceful l) (_closed l).

Definition set_last_sent (v : Z) (l : Linkage) : Linkage :=
  mkLinkage (_peer_fd l) (_rbuffer l) (_wbuffer l) (_last_writing l)
    (_receive_timeout l) (_connect_timeout l) (_last_received l) (_idle_timeout l)
    (_send_timeout l) (_receive_jam l) (_connect_jam l) v (_send_jam l) (_action l)
    (_worker l) (_rlength l) (_graceful l) (_closed l).

Definition set_send_jam (v : Z) (l : Linkage) : Linkage :=
  mkLinkage (_peer_fd l) (_rbuffer l) (_wbuffer l) (_last_writing l)
    (_receive_timeout l) (_connect_timeout l) (_last_received l) (_idle_timeout l)
    (_send_timeout l) (_receive_jam l) (_connect_jam l) (_last_sent l) v (_action l)
    (_worker l) (_rlength l) (_graceful l) (_closed l).

Definition set_action (v : Action) (l : Linkage) : Linkage :=
  mkLinkage (_peer_fd l) (_rbuffer l) (_wbuffer l) (_last_writing l)
    (_receive_timeout l) (_connect_timeout l) (_last_received l) (_idle_timeout l)
    (_send_timeout l) (_receive_jam l) (_connect_jam l) (_last_sent l) (_send_jam l) v
    (_worker l) (_rlength l) (_graceful l) (_closed l).

Definition set_worker (v : option Z) (l : Linkage) : Linkage :=
  mkLinkage (_peer_fd l) (_rbuffer l) (_wbuffer l) (_last_writing l)
    (_receive_timeout l) (_connect_timeout l) (_last_received l) (_idle_timeout l)
    (_send_timeout l) (_receive_jam l) (_connect_jam l) (_last_sent l) (_send_jam l)
    (_action l) v (_rlength l) (_graceful l) (_closed l).

Definition set_rlength (v : Z) (l : Linkage) : Linkage :=
  mkLinkage (_peer_fd l) (_rbuffer l) (_wbuffer l) (_last_writing l)
    (_receive_timeout l) (_connect_timeout l) (_last_received l) (_idle_timeout l)
    (_send_timeout l) (_receive_jam l) (_connect_jam l) (_last_sent l) (_send_jam l)
    (_action l) (_worker l) v (_graceful l) (_closed l).

Definition set_graceful (v : bool) (l : Linkage) : Linkage :=
  mkLinkage (_peer_fd l) (_rbuffer l) (_wbuffer l) (_last_writing l)
    (_receive_timeout l) (_connect_timeout l) (_last_received l) (_idle_timeout l)
    (_send_timeout l) (_receive_jam l) (_connect_jam l) (_last_sent l) (_send_jam l)
    (_action l) (_worker l) (_rlength l) v (_closed l).

Definition set_closed (v : bool) (l : Linkage) : Linkage :=
  mkLinkage (_peer_fd l) (_rbuffer l) (_wbuffer l) (_last_writing l)
    (_receive_timeout l) (_connect_timeout l) (_last_received l) (_idle_timeout l)
    (_send_timeout l) (_receive_jam l) (_connect_jam l) (_last_sent l) (_send_jam l)
    (_action l) (_worker l) (_rlength l) (_graceful l) v.
Definition kDefaultReceiveTimeout : Z := 15000000000.
Definition kDefaultConnectTimeout : Z := 15000000000.
Definition kDefaultSendTimeout : Z := 15000000000.
Definition kDefaultIdleTimeout : Z := 300000000000.
Definition kMaximumBytes : Z := 64 * 1024 * 1024.

Definition INCOMPLETE (x : Status) : bool :=
  match x with kStatusWannaRead | kStatusWannaWrite => true | _ => false end.

Definition nonempty (b : bytes) : bool := negb (zlen b =? 0).

Section Linkage.
Context {I W H : Type} {IO : AbstractIo I} {WA : WorkerApi W} {LH : LinkageHandler H}.
(** What the calls of the monotonic clock return, in their order. *)
Context (clock : nat -> Z).

Record st : Type := mkSt {
  lk : Linkage;
  io : I;
  wk : W;
  hs : H;
  ticks : nat;
  sent : bytes;
  delivered : list (bytes * Z)
}.

Definition put_lk (v : Linkage) (s : st) : st :=
  mkSt v (io s) (wk s) (hs s) (ticks s) (sent s) (delivered s).
Definition put_io (v : I) (s : st) : st :=
  mkSt (lk s) v (wk s) (hs s) (ticks s) (sent s) (delivered s).
Definition put_wk (v : W) (s : st) : st :=
  mkSt (lk s) (io s) v (hs s) (ticks s) (sent s) (delivered s).
Definition put_hs (v : H) (s : st) : st :=
  mkSt (lk s) (io s) (wk s) v (ticks s) (sent s) (delivered s).
Definition put_ticks (v : nat) (s : st) : st :=
  mkSt (lk s) (io s) (wk s) (hs s) v (sent s) (delivered s).
Definition put_sent (v : bytes) (s : st) : st :=
  mkSt (lk s) (io s) (wk s) (hs s) (ticks s) v (delivered s).
Definition put_delivered (v : list (bytes * Z)) (s : st) : st :=
  mkSt (lk s) (io s) (wk s) (hs s) (ticks s) (sent s) v.

Abbreviation M := (ST st).
Definition get {A : Type} (f : Linkage -> A) : M A := gets (fun s => f (lk s)).
Definition set (f : Linkage -> Linkage) : M unit := modify (fun s => put_lk (f (lk s)) s).
Definition get_monotonic_timestamp : M Z :=
  fun s => Ok (clock (ticks s), put_ticks (S (ticks s)) s).

(** Calls of the engine and of the worker. *)
Definition io_call {A : Type} (f : I -> I * A) : M A :=
  fun s => let '(i, a) := f (io s) in Ok (a, put_io i s).
Definition wk_call {A : Type} (f : W -> W * A) : M A :=
  fun s => let '(w, a) := f (wk s) in Ok (a, put_wk w s).

Definition SetWanna (worker : Z) (r w : bool) : M unit :=
  wk_call (fun x => (w_SetWanna worker r w x, tt)).
Definition SetWannaRead (worker : Z) (r : bool) : M unit :=
  wk_call (fun x => (w_SetWannaRead worker r x, tt)).
Definition SetWannaWrite (worker : Z) (w : bool) : M unit :=
  wk_call (fun x => (w_SetWannaWrite worker w x, tt)).
Definition DoAttach (worker fd : Z) (r w auto_release : bool) : M bool :=
  wk_call (w_Attach worker fd r w auto_release).
Definition DoDetach (worker : Z) : M bool := wk_call (w_Detach worker).

(** [_worker->...]: the pointer must not be null. *)
Definition the_worker : M Z :=
  let* w := get _worker in
  match w with Some k => ret k | None => fail undefined_behaviour end.

(** ** Times *)

Definition UpdateLastReceived : M unit :=
  let* now := get_monotonic_timestamp in set (set_last_received now).

Definition UpdateReceiveJam (jammed : bool) : M unit :=
  if jammed then
    let* j := get _receive_jam in
    if j =? 0 then let* now := get_monotonic_timestamp in set (set_receive_jam now)
    else ret tt
  else set (set_receive_jam 0).

Definition UpdateConnectJam (jammed : bool) : M unit :=
  if jammed then
    let* j := get _connect_jam in
    if j =? 0 then let* now := get_monotonic_timestamp in set (set_connect_jam now)
    else ret tt
  else set (set_connect_jam 0).

Definition UpdateLastSent (sent jammed : bool) : M unit :=
  let* now := get_monotonic_timestamp in
  (if sent then set (set_last_sent now) else ret tt) ;;;
  if jammed then
    let* j := get _send_jam in
    if j =? 0 then set (set_send_jam now) else ret tt
  else set (set_send_jam 0).

(** ** The sending buffer *)

Definition AppendSendingBuffer (b : bytes) : M bool :=
  assert (negb (zlen b =? 0)) ;;;
  let* wb := get _wbuffer in
  let left := u64 (kMaximumBytes - zlen wb) in
  if left <? zlen b then ret false
  else set (set_wbuffer (wb ++ b)) ;;; ret true.

(** The bytes at the pointer, as many as [length] says. *)
Definition PickSendingBuffer : M bytes :=
  let* wb := get _wbuffer in
  if negb (nonempty wb) then ret []
  else
    let* last := get _last_writing in
    let* length :=
      (if negb (last =? 0) then set (set_last_writing 0) ;;; ret last
       else ret (zlen wb)) in
    if zlen wb <? length then fail undefined_behaviour
    else ret (take (Z.to_nat length) wb).

Definition ConsumeSendingBuffer (length : Z) : M unit :=
  let* wb := get _wbuffer in
  assert (length <=? zlen wb) ;;;
  set (set_wbuffer (drop (Z.to_nat length) wb)).

Definition GetSendingBufferSize : M Z := let* wb := get _wbuffer in ret (zlen wb).

Definition DumpSendingBuffer : M unit := set (set_wbuffer []).

(** The ghost log of [Send]: all the bytes when it returns true; when it
    returns false, those it had written before it ran out of room. *)
Definition log_sent (b : bytes) : M unit := modify (fun s => put_sent (sent s ++ b) s).

(** The end of the branches of [Send] that queue the whole message. *)
Definition Send_queue (b : bytes) (k : M unit) : M bool :=
  let* ok := AppendSendingBuffer b in
  if negb ok then ret false else k ;;; log_sent b ;;; ret true.

Definition Send (buffer : option bytes) : M bool :=
  let* worker := get _worker in
  let* graceful := get _graceful in
  match buffer, worker with
  | Some b, Some w =>
      if (INT_MAX <? zlen b) || graceful then ret false
      else if zlen b =? 0 then ret true
      else
        let* action := get _action in
        let* size := GetSendingBufferSize in
        if bool_decide (action <> kActionNone) || negb (size =? 0) then
          Send_queue b (ret tt)
        else
          let* (status, retlen) :=
            io_call (fun i => let '(i, s, n) := io_Write b i in (i, (s, n))) in
          match status with
          | kStatusJammed =>
              Send_queue b (SetWanna w false true ;;; UpdateLastSent false true)
          | kStatusWannaRead =>
              Send_queue b (set (set_action kActionWrite) ;;; SetWanna w true false ;;;
                            UpdateLastSent false true ;;; set (set_last_writing (zlen b)))
          | kStatusWannaWrite =>
              Send_queue b (set (set_action kActionWrite) ;;; SetWanna w false true ;;;
                            UpdateLastSent false true ;;; set (set_last_writing (zlen b)))
          | kStatusOk =>
              if retlen <? zlen b then
                let* ok := AppendSendingBuffer (drop (Z.to_nat retlen) b) in
                if negb ok then log_sent (take (Z.to_nat retlen) b) ;;; ret false
                else SetWannaWrite w true ;;; UpdateLastSent true true ;;;
                     log_sent b ;;; ret true
              else UpdateLastSent true false ;;; log_sent b ;;; ret true
          | _ => ret false
          end
  | _, _ => ret false
  end.

(** ** Events *)

Definition AfterEvent (worker : Z) (status : Status) : M Z :=
  match status with
  | kStatusWannaRead => SetWanna worker true false ;;; ret 1
  | kStatusWannaWrite => SetWanna worker false true ;;; ret 1
  | kStatusClosed => ret 0
  | kStatusOk => ret 1
  | _ => ret (-1)
  end.

(** Returns the status that is stored through the pointer, if any. *)
Definition Shutdown : M (Z * option Status) :=
  set (set_graceful true) ;;;
  let* closed := get _closed in
  if closed then ret (0, None)
  else
    UpdateConnectJam true ;;;
    let* status := io_call io_Shutdown in
    match status with
    | kStatusOk | kStatusClosed => set (set_closed true) ;;; ret (0, Some status)
    | kStatusWannaRead | kStatusWannaWrite => ret (1, Some status)
    | _ => ret (-1, Some status)
    end.

(** The last lines of [OnEventOnce]. *)
Definition OnEventOnce_end (worker : Z) (action : Action) (status : Status) : M (Z * Action) :=
  set (set_action (if INCOMPLETE status then action else kActionNone)) ;;;
  let* r := AfterEvent worker status in
  ret (r, kActionNone).

Section events.
(** [OnReceived] and [DoConnected], which call [OnEvent] again through the
    callbacks; see [Disconnect] below. *)
Context (recv : bytes -> M Z) (conn : M bool).

(** Returns the result and the next action. *)
Definition OnEventOnce (worker : Z) (action : Action) : M (Z * Action) :=
  match action with
  | kActionRead =>
      let* (status, buffer, more) :=
        io_call (fun i => let '(i, s, b, m) := io_Read 65536 i in (i, (s, b, m))) in
      if decide (status = kStatusOk) then
        set (set_action kActionNone) ;;;
        let* r := recv buffer in
        if r =? 0 then ret (1, kActionShutdown)
        else if 0 <? r then ret (1, if (more : bool) then kActionRead else kActionNone)
        else ret (-1, kActionNone)
      else OnEventOnce_end worker action status
  | kActionWrite =>
      let* buffer := PickSendingBuffer in
      let* graceful := get _graceful in
      if negb (zlen buffer =? 0) then
        let* (status, retlen) :=
          io_call (fun i => let '(i, s, n) := io_Write buffer i in (i, (s, n))) in
        if decide (status = kStatusOk) then
          set (set_action kActionNone) ;;;
          if retlen <? zlen buffer then
            UpdateLastSent true true ;;;
            ConsumeSendingBuffer retlen ;;;
            let* size := GetSendingBufferSize in
            assert (negb (size =? 0)) ;;;
            ret (1, kActionNone)
          else
            UpdateLastSent true false ;;;
            ConsumeSendingBuffer (zlen buffer) ;;;
            ret (1, kActionNone)
        else
          UpdateLastSent false true ;;;
          (if INCOMPLETE status then set (set_last_writing (zlen buffer)) else ret tt) ;;;
          OnEventOnce_end worker action status
      else if (graceful : bool) then
        set (set_action kActionNone) ;;; ret (1, kActionShutdown)
      else
        set (set_action kActionNone) ;;; ret (1, kActionNone)
  | kActionAccept =>
      let* status := io_call io_Accept in
      if decide (status = kStatusOk) then
        set (set_action kActionNone) ;;;
        let* ok := conn in
        ret (if (ok : bool) then 1 else -1, kActionNone)
      else OnEventOnce_end worker action status
  | kActionConnect =>
      let* status := io_call io_Connect in
      if decide (status = kStatusOk) then
        set (set_action kActionNone) ;;;
        let* ok := conn in
        ret (if (ok : bool) then 1 else -1, kActionNone)
      else OnEventOnce_end worker action status
  | kActionShutdown =>
      let* (r, status) := Shutdown in
      if r <=? 0 then
        set (set_action kActionNone) ;;;
        SetWannaRead worker true ;;;
        ret (r, kActionNone)
      else OnEventOnce_end worker action (default kStatusBug status)
  | kActionNone => OnEventOnce_end worker action kStatusBug
  end.

Fixpoint OnEvent_loop (fuel : nat) (worker : Z) (action : Action) : M Z :=
  match fuel with
  | O => fail out_of_fuel
  | S fuel =>
      let* (r, next_action) := OnEventOnce worker action in
      if decide (next_action = kActionNone) then ret r
      else OnEvent_loop fuel worker next_action
  end.

(** The fuel: each [Read] but the last takes from the internal buffer of the
    engine, and [Shutdown] is the last action. *)
Definition OnEvent (worker : option Z) (idle_action : Action) : M Z :=
  match worker with
  | None => fail assertion_failed
  | Some w =>
      assert (bool_decide (idle_action <> kActionNone)) ;;;
      let* a := get _action in
      let action := if decide (a = kActionNone) then idle_action else a in
      let* n := gets (fun s => internal (io s)) in
      let* r := OnEvent_loop (S (S n)) w action in
      let* a := get _action in
      (if decide (a = kActionNone) then
         let* size := GetSendingBufferSize in SetWanna w true (negb (size =? 0))
       else ret tt) ;;;
      ret r
  end.

End events.

(** [OnEvent] of a shutdown ends before it reads or connects: the callbacks
    it is given here are never called (see [OnEvent_shutdown] in LinkageFacts). *)
Definition Disconnect (finish_write : bool) : M Z :=
  set (set_graceful true) ;;;
  (if finish_write then ret tt else DumpSendingBuffer) ;;;
  let* action := get _action in
  if decide (action <> kActionNone) then ret 1
  else
    let* worker := get _worker in
    OnEvent (fun _ => fail undefined_behaviour) (fail undefined_behaviour)
            worker kActionShutdown.

(** ** Callbacks *)

Fixpoint run_prog {A : Type} (p : prog A) : M A :=
  match p with
  | Ret a => ret a
  | CallSend b k => let* r := Send (Some b) in run_prog (k r)
  | CallDisconnect f k => let* r := Disconnect f in run_prog (k r)
  end.

(** Runs a callback of the handler, which keeps its state. *)
Definition callback {A : Type} (f : H -> prog (H * A)) : M A :=
  let* h := gets hs in
  let* (h, a) := run_prog (f h) in
  modify (put_hs h) ;;; ret a.

Definition no_result (f : H -> prog H) (h : H) : prog (H * unit) :=
  (fix go (p : prog H) : prog (H * unit) :=
     match p with
     | Ret h => Ret (h, tt)
     | CallSend b k => CallSend b (fun r => go (k r))
     | CallDisconnect d k => CallDisconnect d (fun r => go (k r))
     end) (f h).

Definition GetMessageLength (b : bytes) : M Z := callback (h_GetMessageLength b).

Definition OnMessage (b : bytes) : M Z :=
  let* r := callback (h_OnMessage b) in
  modify (fun s => put_delivered (delivered s ++ [(b, r)]) s) ;;;
  ret r.

Definition OnError (reading_or_writing : bool) (errnum : Z) : M unit :=
  callback (no_result (h_OnError reading_or_writing errnum)).

Definition OnDisconnected : M unit := callback (no_result h_OnDisconnected).

Definition OnConnected : M bool := callback h_OnConnected.

Definition DoConnected : M bool :=
  let* size := GetSendingBufferSize in
  let* w := the_worker in
  SetWanna w true (negb (size =? 0)) ;;;
  set (set_action kActionNone) ;;;
  UpdateConnectJam false ;;;
  UpdateLastReceived ;;;
  OnConnected.

(** ** Receiving *)

(** The first lines of the loop of [DoReceived], which find out the length of
    the message; [Some]: the loop ends with this result. *)
Definition DoReceived_length (ptr : bytes) : M (option Z) :=
  let* rlength := get _rlength in
  if rlength =? 0 then
    let* r := GetMessageLength ptr in
    if r <? 0 then ret (Some (-1))
    else if r =? 0 then UpdateReceiveJam true ;;; ret (Some 1)
    else set (set_rlength r) ;;; ret None
  else ret None.

(** The loop; returns the result and [*consumed].  Every iteration but the
    last consumes a message. *)
Fixpoint DoReceived_loop (fuel : nat) (ptr : bytes) (consumed : Z) : M (Z * Z) :=
  match ptr, fuel with
  | [], _ => ret (1, consumed)
  | _, O => fail out_of_fuel
  | _, S fuel =>
      let* stop := DoReceived_length ptr in
      match stop with
      | Some r => ret (r, consumed)
      | None =>
          let* rlength := get _rlength in
          if zlen ptr <? rlength then UpdateReceiveJam true ;;; ret (1, consumed)
          else
            UpdateReceiveJam false ;;;
            let* next := OnMessage (take (Z.to_nat rlength) ptr) in
            if next <? 0 then ret (-1, consumed)
            else if next =? 0 then ret (0, consumed)
            else
              let* rlength := get _rlength in
              set (set_rlength 0) ;;;
              DoReceived_loop fuel (drop (Z.to_nat rlength) ptr) (consumed + rlength)
      end
  end.

Definition DoReceived (b : bytes) : M (Z * Z) := DoReceived_loop (length b) b 0.

(** [_rbuffer.insert(_rbuffer.end(), ...)] *)
Definition append_rbuffer (b : bytes) : M unit :=
  let* rb := get _rbuffer in set (set_rbuffer (rb ++ b)).

(** The bytes that [DoReceived] left are kept. *)
Definition OnReceived_direct (ptr : bytes) : M Z :=
  let* (r, consumed) := DoReceived ptr in
  if r <=? 0 then ret r
  else
    (if negb (consumed =? zlen ptr) then append_rbuffer (drop (Z.to_nat consumed) ptr)
     else ret tt) ;;;
    ret 1.

(** "I already know the minimum bytes to move" *)
Definition OnReceived_fill (ptr : bytes) : M Z :=
  let* rb := get _rbuffer in
  let* rlength := get _rlength in
  let last := zlen rb in
  assert (last <? rlength) ;;;
  append_rbuffer (take (Z.to_nat (rlength - last)) ptr) ;;;
  let* rb := get _rbuffer in
  assert (zlen rb =? rlength) ;;;
  let* (r, consumed) := DoReceived rb in
  if r <=? 0 then ret r
  else
    set (set_rbuffer []) ;;;
    if (consumed <? last) || (zlen ptr <? consumed - last) then fail undefined_behaviour
    else
      let ptr := drop (Z.to_nat (consumed - last)) ptr in
      if negb (zlen ptr =? 0) then OnReceived_direct ptr else ret 1.

(** "The worst case, all the buffer must be moved" *)
Definition OnReceived_move (ptr : bytes) : M Z :=
  append_rbuffer ptr ;;;
  let* rb := get _rbuffer in
  let* (r, consumed) := DoReceived rb in
  if r <=? 0 then ret r
  else
    (if negb (consumed =? 0) then
       let* rb := get _rbuffer in
       if zlen rb <? consumed then fail undefined_behaviour
       else set (set_rbuffer (drop (Z.to_nat consumed) rb))
     else ret tt) ;;;
    ret 1.

Definition OnReceived (buffer : option bytes) : M Z :=
  match buffer with
  | None => ret (-1)
  | Some ptr =>
      if zlen ptr =? 0 then ret 1
      else
        UpdateLastReceived ;;;
        let* graceful := get _graceful in
        if (graceful : bool) then ret 1
        else
          let* rb := get _rbuffer in
          let* rlength := get _rlength in
          if zlen rb =? 0 then OnReceived_direct ptr
          else if negb (rlength =? 0) && (rlength <=? zlen rb + zlen ptr) then OnReceived_fill ptr
          else OnReceived_move ptr
  end.

(** ** The methods the workers call *)

Definition OnReadable (worker : option Z) : M Z :=
  OnEvent (fun b => OnReceived (Some b)) DoConnected worker kActionRead.

Definition OnWritable (worker : option Z) : M Z :=
  OnEvent (fun b => OnReceived (Some b)) DoConnected worker kActionWrite.

Definition Cleanup (now : Z) : M bool :=
  let* l := gets lk in
  let jammed_c := if negb (_connect_jam l =? 0) then now - _connect_jam l else 0 in
  if negb (_connect_timeout l =? 0) && negb (jammed_c =? 0) && (_connect_timeout l <=? jammed_c)
  then ret false
  else
    let jammed_w := if negb (_send_jam l =? 0) then now - _send_jam l else 0 in
    if negb (_send_timeout l =? 0) && negb (jammed_w =? 0) && (_send_timeout l <=? jammed_w)
    then ret false
    else
      let jammed_r := if negb (_receive_jam l =? 0) then now - _receive_jam l else 0 in
      if negb (_receive_timeout l =? 0) && negb (jammed_r =? 0) && (_receive_timeout l <=? jammed_r)
      then ret false
      else
        let passed_w := now - _last_sent l in
        let passed_r := now - _last_received l in
        let idle := if passed_r <? passed_w then passed_r else passed_w in
        if negb (_idle_timeout l =? 0) && (_idle_timeout l <=? idle) then ret false
        else callback (h_Cleanup now).

Definition Attach (worker : option Z) : M bool :=
  let* attached := get _worker in
  match worker, attached with
  | None, _ => ret false
  | Some w, Some k => ret (k =? w)
  | Some w, None =>
      let* init := io_call io_Initialize in
      match init with
      | None => ret false
      | Some i =>
          assert (bool_decide (action i = kActionNone) || bool_decide (next_action i = kActionNone)) ;;;
          let connecting :=
            bool_decide (action i <> kActionNone) || bool_decide (next_action i <> kActionNone) in
          let wanna_read := if negb connecting then true else wanna_read i in
          let* fd := get _peer_fd in
          let* ok := DoAttach w fd wanna_read (wanna_write i) true in
          if negb ok then ret false
          else
            set (set_worker (Some w)) ;;;
            if negb connecting then
              let* ok := DoConnected in
              if negb ok then DoDetach w ;;; set (set_worker None) ;;; ret false
              else ret true
            else
              UpdateConnectJam true ;;;
              if decide (action i = kActionNone) then
                set (set_action (next_action i)) ;;; ret true
              else
                set (set_action (action i)) ;;;
                let* r := OnEvent (fun b => OnReceived (Some b)) DoConnected worker (action i) in
                if r <=? 0 then DoDetach w ;;; set (set_worker None) ;;; ret false
                else ret true
      end
  end.

Definition Detach (worker : option Z) : M bool :=
  let* attached := get _worker in
  match worker with
  | None => ret false
  | Some w =>
      if negb (bool_decide (attached = Some w)) then ret true
      else
        let* ok := DoDetach w in
        if negb ok then ret false
        else set (set_worker None) ;;; ret true
  end.

(** The constructor: the state with its new linkage; the log of the bytes
    sent starts with those the peer was already sent. *)
Definition Linkage_new (fd : Z) (i : I) (w : W) (h : H) (tick : nat) : st :=
  let now := clock tick in
  mkSt (mkLinkage fd [] [] 0 kDefaultReceiveTimeout kDefaultConnectTimeout now
          kDefaultIdleTimeout kDefaultSendTimeout 0 0 now 0 kActionNone None 0 false false)
       i w h (S tick) (written i) [].

End Linkage.
