(* ===== verification/LinkageFacts.v ===== *)
(** * The rules to reason on the programs of Linkage.v, and its invariant

    [base] is the invariant of the buffers, the stream and the watchers;
    [stable] is what a callback can change. *)

From S2P Require Import Prelude StateMonad AbstractIo Linkage.

Section LinkageFacts.
Context {I W H : Type} {IO : AbstractIo I} {WA : WorkerApi W} {LH : LinkageHandler H}.
Context (clock : nat -> Z).

Abbreviation st := (@st I W H).
Abbreviation M := (ST st).
Implicit Types (s : st) (l : Linkage).

Lemma run_get {A} (f : Linkage -> A) s (Q : A -> st -> Prop) : Q (f (lk s)) s -> run (get f) s Q.
Proof. done. Qed.

Lemma run_set f s (Q : unit -> st -> Prop) : Q tt (put_lk (f (lk s)) s) -> run (set f) s Q.
Proof. done. Qed.

Lemma run_io {A} (f : I -> I * A) s (Q : A -> st -> Prop) :
  (forall i a, f (io s) = (i, a) -> Q a (put_io i s)) -> run (io_call f) s Q.
Proof. unfold run, io_call. destruct (f (io s)) as [i a]. auto. Qed.

Lemma run_wk {A} (f : W -> W * A) s (Q : A -> st -> Prop) :
  (forall w a, f (wk s) = (w, a) -> Q a (put_wk w s)) -> run (wk_call f) s Q.
Proof. unfold run, wk_call. destruct (f (wk s)) as [w a]. auto. Qed.

(** ** The times

    The functions that update them read the clock and change nothing else. *)

Lemma run_UpdateLastReceived s (Q : unit -> st -> Prop) :
  Q tt (put_ticks (S (ticks s)) (put_lk (set_last_received (clock (ticks s)) (lk s)) s)) ->
  run (UpdateLastReceived clock) s Q.
Proof. done. Qed.

Lemma run_UpdateReceiveJam b s (Q : unit -> st -> Prop) :
  (forall n v, Q tt (put_ticks n (put_lk (set_receive_jam v (lk s)) s))) ->
  run (UpdateReceiveJam clock b) s Q.
Proof.
  intros HQ. destruct s as [l ? ? ? n ? ?]. cbn in HQ.
  unfold run, UpdateReceiveJam, bind, get, gets. destruct b; cbn.
  - destruct (_receive_jam l =? 0); cbn; [apply HQ|].
    specialize (HQ n (_receive_jam l)). by destruct l.
  - specialize (HQ n 0). by destruct l.
Qed.

Lemma run_UpdateConnectJam b s (Q : unit -> st -> Prop) :
  (forall n v, Q tt (put_ticks n (put_lk (set_connect_jam v (lk s)) s))) ->
  run (UpdateConnectJam clock b) s Q.
Proof.
  intros HQ. destruct s as [l ? ? ? n ? ?]. cbn in HQ.
  unfold run, UpdateConnectJam, bind, get, gets. destruct b; cbn.
  - destruct (_connect_jam l =? 0); cbn; [apply HQ|].
    specialize (HQ n (_connect_jam l)). by destruct l.
  - specialize (HQ n 0). by destruct l.
Qed.

Lemma run_UpdateLastSent a b s (Q : unit -> st -> Prop) :
  (forall n u v, Q tt (put_ticks n (put_lk (set_last_sent u (set_send_jam v (lk s))) s))) ->
  run (UpdateLastSent clock a b) s Q.
Proof.
  intros HQ. destruct s as [l ? ? ? n ? ?]. cbn in HQ.
  unfold run, UpdateLastSent, bind, get, gets.
  destruct a, b; cbn; try (destruct (_send_jam l =? 0); cbn).
  all: first
    [ apply (HQ (S n) (clock n) (clock n))
    | specialize (HQ (S n) (clock n) (_send_jam l)); by destruct l
    | apply (HQ (S n) (clock n) 0)
    | specialize (HQ (S n) (_last_sent l) (clock n)); by destruct l
    | specialize (HQ (S n) (_last_sent l) (_send_jam l)); by destruct l
    | specialize (HQ (S n) (_last_sent l) 0); by destruct l ].
Qed.

End LinkageFacts.

Ltac wp_more ::=
  lazymatch goal with
  | |- run (get _) _ _ => apply run_get
  | |- run (set _) _ _ => apply run_set
  | |- run (io_call _) _ _ => apply run_io; intros ? ? ?
  | |- run (wk_call _) _ _ => apply run_wk; intros ? ? ?
  | |- run (UpdateLastReceived _) _ _ => apply run_UpdateLastReceived
  | |- run (UpdateReceiveJam _ _) _ _ => apply run_UpdateReceiveJam; intros ? ?
  | |- run (UpdateConnectJam _ _) _ _ => apply run_UpdateConnectJam; intros ? ?
  | |- run (UpdateLastSent _ _ _) _ _ => apply run_UpdateLastSent; intros ? ? ?
  end.

Section Invariant.
Context {I W H : Type} {IO : AbstractIo I} {WA : WorkerApi W} {LH : LinkageHandler H}.
Context (clock : nat -> Z).

Abbreviation st := (@st I W H).
Abbreviation M := (ST st).
Implicit Types (s : st) (l : Linkage).

(** ** The watchers *)

(** Only the worker the linkage is attached to watches it, and it watches for
    something; the invariant of the workers holds. *)
Definition watched (w : W) (worker : option Z) : Prop :=
  worker_ok w /\
  forall k r x, watching k w = Some (r, x) -> worker = Some k /\ r || x = true.

(** Whoever watches the linkage watches for writability. *)
Definition for_write (w : W) : Prop := forall k r x, watching k w = Some (r, x) -> x = true.

Lemma watched_SetWanna w worker k r x :
  watched w worker -> r || x = true -> watched (w_SetWanna k r x w) worker.
Proof.
  intros [Hok Hw] Hrx. split; [by apply SetWanna_worker_ok|]. intros k' r' x'. destruct (decide (k = k')) as [<-|Hk].
  - rewrite SetWanna_watching. destruct (watching k w) as [[a b]|] eqn:E; [|done].
    intros [= <- <-]. split; [|done]. by destruct (Hw _ _ _ E).
  - rewrite SetWanna_others by done. apply Hw.
Qed.

Lemma watched_SetWannaRead w worker k :
  watched w worker -> watched (w_SetWannaRead k true w) worker.
Proof.
  intros [Hok Hw]. split; [by apply SetWannaRead_worker_ok|]. intros k' r' x'. destruct (decide (k = k')) as [<-|Hk].
  - rewrite SetWannaRead_watching. destruct (watching k w) as [[a b]|] eqn:E; [|done].
    intros [= <- <-]. split; [|done]. by destruct (Hw _ _ _ E).
  - rewrite SetWannaRead_others by done. apply Hw.
Qed.

Lemma watched_SetWannaWrite w worker k :
  watched w worker -> watched (w_SetWannaWrite k true w) worker.
Proof.
  intros [Hok Hw]. split; [by apply SetWannaWrite_worker_ok|]. intros k' r' x'. destruct (decide (k = k')) as [<-|Hk].
  - rewrite SetWannaWrite_watching. destruct (watching k w) as [[a b]|] eqn:E; [|done].
    intros [= <- <-]. split; [by destruct (Hw _ _ _ E)|]. by destruct a.
  - rewrite SetWannaWrite_others by done. apply Hw.
Qed.

Lemma for_write_SetWanna w k r :
  watched w (Some k) -> for_write (w_SetWanna k r true w).
Proof.
  intros [_ Hw] k' r' x'. destruct (decide (k = k')) as [<-|Hk].
  - rewrite SetWanna_watching. destruct (watching k w) as [[a b]|] eqn:E; [|done].
    by intros [= <- <-].
  - rewrite SetWanna_others by done. intros E. destruct (Hw _ _ _ E). congruence.
Qed.

Lemma for_write_SetWannaWrite w k :
  watched w (Some k) -> for_write (w_SetWannaWrite k true w).
Proof.
  intros [_ Hw] k' r' x'. destruct (decide (k = k')) as [<-|Hk].
  - rewrite SetWannaWrite_watching. destruct (watching k w) as [[a b]|] eqn:E; [|done].
    by intros [= <- <-].
  - rewrite SetWannaWrite_others by done. intros E. destruct (Hw _ _ _ E). congruence.
Qed.

(** ** The invariant *)

Record base (s : st) : Prop := mkBase {
  base_room : zlen (_wbuffer (lk s)) <= kMaximumBytes;
  base_writing : 0 <= _last_writing (lk s) /\
    (_last_writing (lk s) <= zlen (_wbuffer (lk s)) \/
     _wbuffer (lk s) = [] /\ _graceful (lk s) = true);
  base_stream : written (io s) ++ _wbuffer (lk s) = sent s \/
    _graceful (lk s) = true /\ _wbuffer (lk s) = [] /\ written (io s) `prefix_of` sent s;
  base_watched : watched (wk s) (_worker (lk s))
}.

(** Queued bytes are not forgotten. *)
Definition awake (s : st) : Prop :=
  _action (lk s) = kActionNone -> _wbuffer (lk s) <> [] -> for_write (wk s).

(** What [Send], [Disconnect] and the callbacks leave as it is. *)
Record stable (s s' : st) : Prop := mkStable {
  stable_rbuffer : _rbuffer (lk s') = _rbuffer (lk s);
  stable_rlength : _rlength (lk s') = _rlength (lk s);
  stable_worker : _worker (lk s') = _worker (lk s);
  stable_delivered : delivered s' = delivered s;
  stable_graceful : _graceful (lk s) = true -> _graceful (lk s') = true /\ sent s' = sent s;
  stable_internal : (internal (io s') <= internal (io s))%nat;
  stable_awake : awake s -> awake s';
  stable_sent : sent s `prefix_of` sent s'
}.

Lemma stable_refl s : stable s s.
Proof. by constructor. Qed.

Lemma stable_trans s1 s2 s3 : stable s1 s2 -> stable s2 s3 -> stable s1 s3.
Proof.
  intros [] []. constructor; try congruence; try lia; auto.
  - intros Hg. destruct (stable_graceful0 Hg) as [Hg' Hs].
    destruct (stable_graceful1 Hg') as [Hg'' Hs']. split; congruence.
  - by etrans.
Qed.

Lemma u64_left n : 0 <= n <= kMaximumBytes -> u64 (kMaximumBytes - n) = kMaximumBytes - n.
Proof. intros. unfold u64, kMaximumBytes in *. apply Z.mod_small. lia. Qed.

Lemma run_AppendSendingBuffer b s (Q : bool -> st -> Prop) :
  zlen (_wbuffer (lk s)) <= kMaximumBytes -> b <> [] ->
  (kMaximumBytes < zlen (_wbuffer (lk s)) + zlen b -> Q false s) ->
  (zlen (_wbuffer (lk s)) + zlen b <= kMaximumBytes ->
   Q true (put_lk (set_wbuffer (_wbuffer (lk s) ++ b) (lk s)) s)) ->
  run (AppendSendingBuffer b) s Q.
Proof.
  intros Hs Hb Hf Ht. unfold AppendSendingBuffer. wp.
  { destruct b; [done|]. rewrite zlen_cons. pose proof (zlen_nonneg b). apply negb_true_iff, Z.eqb_neq. lia. }
  wp. cbv zeta. rewrite u64_left by (split; [apply zlen_nonneg|done]).
  apply run_if; intros; bprop; wp; [apply Hf|apply Ht]; lia.
Qed.

Lemma zlen_take_all {A} n (l : list A) : zlen l <= n -> take (Z.to_nat n) l = l.
Proof. intros. apply take_ge. unfold zlen in *. lia. Qed.

(** What [Send] promises. *)
Definition Send_result (b : option bytes) (s : st) (r : bool) (s' : st) : Prop :=
  match b with
  | None => r = false
  | Some b =>
      (r = true -> sent s' = sent s ++ b) /\
      (r = false -> sent s' <> sent s -> kMaximumBytes < zlen b)
  end.

Lemma queue_stream s b i :
  base s -> written i = written (io s) -> _graceful (lk s) = false ->
  written i ++ (_wbuffer (lk s) ++ b) = sent s ++ b.
Proof.
  intros [_ _ [Hs|[Hg _]] _] -> Hf; [|congruence]. by rewrite app_assoc, Hs.
Qed.

(** The branches that queue the whole message: [k] changes no buffer. *)
Lemma run_Send_queue b s s0 (k : M unit) w :
  base s0 -> b <> [] -> _graceful (lk s0) = false -> _worker (lk s0) = Some w ->
  (exists i, s = put_io i s0 /\ written i = written (io s0) /\
             (internal i <= internal (io s0))%nat) ->
  (forall s1, s1 = put_lk (set_wbuffer (_wbuffer (lk s0) ++ b) (lk s0)) s ->
    run k s1 (fun _ s2 =>
      exists a lw n u v W',
        s2 = put_ticks n (put_lk (set_last_sent u (set_send_jam v (set_action a (set_last_writing lw (lk s1)))))
               (put_wk W' s1)) /\
        0 <= lw <= zlen (_wbuffer (lk s1)) /\ watched W' (Some w) /\
        (awake s0 -> a = kActionNone -> for_write W'))) ->
  run (Send_queue b k) s (fun r s' =>
    base s' /\ stable s0 s' /\ hs s' = hs s0 /\ Send_result (Some b) s0 r s').
Proof.
  intros Hb Hne Hg Hw (i & -> & Hwr & Hint) Hk. unfold Send_queue.
  apply run_bind, run_AppendSendingBuffer; [apply Hb|done| |]; cbn [negb]; intros Hl.
  - wp. split; [by destruct Hb; constructor; cbn; rewrite ?Hwr; auto|]. split; [|split; [done|]].
    + constructor; cbn; auto.
    + by split.
  - wp. cbn in Hl. eapply run_mono; [by apply Hk|]. cbn. intros _ s2 (a & lw & n & u & v & W' & -> & Hlw & HW & Haw).
    unfold log_sent. wp. cbn in Hlw. destruct Hb as [? Hb2 Hb3 Hb4]. split; [|split; [|split; [done|]]].
    + constructor; cbn; [by rewrite zlen_app|lia| |by rewrite Hw].
      left. rewrite Hwr, app_assoc. destruct Hb3 as [->|[? _]]; [done|congruence].
    + constructor; cbn; auto; [congruence| |by eexists]. intros Ha HA _. by apply Haw.
    + cbn. by split.
Qed.

Lemma put_io_same s : put_io (io s) s = s.
Proof. by destruct s. Qed.

Lemma run_Send b s :
  base s ->
  run (Send clock b) s (fun r s' =>
    base s' /\ stable s s' /\ hs s' = hs s /\ Send_result b s r s').
Proof.
  intros Hb. unfold Send. wp.
  assert (forall b, base s /\ stable s s /\ hs s = hs s /\ Send_result b s false s) as Hno.
  { intros c. split; [done|]. split; [apply stable_refl|]. split; [done|]. by destruct c. }
  destruct b as [b|]; [|wp; apply Hno]. destruct (_worker (lk s)) as [w|] eqn:Ew; [|wp; apply Hno].
  destruct (INT_MAX <? zlen b); cbn [orb]; [wp; apply Hno|].
  apply run_if; intros Hg; [wp; apply Hno|].
  apply run_if; intros Hz; [wp|].
  { bprop. apply zlen_zero in Hz as ->. split; [done|]. split; [apply stable_refl|].
    split; [done|]. split; [by rewrite app_nil_r|done]. }
  assert (b <> []) as Hne by (intros ->; discriminate). clear Hz Hno.
  wp. unfold GetSendingBufferSize. wp. apply run_if; intros Hq.
  - apply (run_Send_queue _ _ _ _ w); auto.
    { exists (io s). by rewrite put_io_same. }
    intros s1 ->. wp. exists (_action (lk s)), (_last_writing (lk s)), (ticks s), (_last_sent (lk s)),
      (_send_jam (lk s)), (wk s). cbn.
    split; [by destruct s as [[] ? ? ? ? ? ?]|].
    destruct Hb as [? [? [?|[_ ?]]] ? Hwt]; [|congruence]. rewrite zlen_app.
    pose proof (zlen_nonneg b). split; [lia|]. split; [by rewrite <- Ew|].
    intros Haw Ha. apply Haw; [done|]. intros Hwb. rewrite Ha, Hwb in Hq. discriminate.
  - apply orb_false_iff in Hq as [Hact Hwb]. apply bool_decide_eq_false in Hact.
    apply dec_stable in Hact. bprop. apply zlen_zero in Hwb.
    assert (watched (wk s) (Some w)) as Hwt by (rewrite <- Ew; apply Hb).
    wp. destruct (io_Write b (io s)) as [[i' status] retlen] eqn:EW.
    simplify_eq/=. rename i into i'.
    pose proof (Write_internal b (io s)) as Hint. rewrite EW in Hint. cbn in Hint.
    pose proof (zlen_nonneg b) as Hzb.
    assert (status <> kStatusOk -> exists i0, put_io i' s = put_io i0 s /\ written i0 = written (io s) /\
              (internal i0 <= internal (io s))%nat) as Hq.
    { intros Hs. exists i'. repeat split; [|done]. by eapply Write_not_ok. }
    assert (status <> kStatusOk -> base (put_io i' s) /\ stable s (put_io i' s) /\
              hs (put_io i' s) = hs s /\ Send_result (Some b) s false (put_io i' s)) as Hno.
    { intros Hs. apply (Write_not_ok _ _ _ _ _ EW) in Hs.
      split; [destruct Hb; constructor; cbn; rewrite ?Hs; auto|].
      split; [by constructor; cbn; auto|]. split; [done|]. by split. }
    destruct status; cbn [negb].
    + apply Write_ok in EW as [Hr Hwr].
      apply run_if; intros Hlt; bprop.
      * assert (drop (Z.to_nat retlen) b <> []) as Hd.
        { intros Hd. apply (f_equal length) in Hd. rewrite length_drop in Hd. cbn in Hd.
          unfold zlen in *. lia. }
        assert (zlen (drop (Z.to_nat retlen) b) = zlen b - retlen) as Hzd.
        { unfold zlen in *. rewrite length_drop. lia. }
        destruct Hb as [Hb1 Hb2 Hb3 Hb4]. rewrite Hwb, app_nil_r in *.
        assert (sent s = written (io s)) as Hst by (destruct Hb3 as [<-|[? _]]; [done|congruence]).
        change (zlen (@nil ascii)) with 0 in *.
        apply run_bind, run_AppendSendingBuffer; cbn; rewrite ?Hwb; [done|done| |];
          change (zlen (@nil ascii)) with 0; intros Hl; cbn; unfold log_sent, SetWannaWrite; wp.
        -- split; [|split; [|split; [done|]]].
           ++ constructor; cbn; rewrite ?Hwb; auto. left. by rewrite app_nil_r, Hwr, Hst.
           ++ constructor; cbn; auto; [congruence|by eexists].
           ++ cbn. split; [done|]. intros _ _. lia.
        -- simplify_eq. split; [|split; [|split; [done|]]].
           ++ constructor; cbn.
              ** rewrite Hzd. unfold kMaximumBytes in *. lia.
              ** destruct Hb2 as [? [?|[_ ?]]]; [lia|congruence].
              ** left. by rewrite Hwr, <- app_assoc, take_drop, Hst.
              ** rewrite Ew. by apply watched_SetWannaWrite.
           ++ constructor; cbn; auto; [congruence| |by eexists].
              intros _ _ _. by apply for_write_SetWannaWrite.
           ++ by split.
      * unfold log_sent. wp. rewrite zlen_take_all in Hwr by lia.
        destruct Hb as [Hb1 Hb2 Hb3 Hb4]. split; [|split; [|split; [done|]]].
        -- constructor; cbn; auto. left. rewrite Hwb, app_nil_r in *.
           destruct Hb3 as [<-|[? _]]; [done|congruence].
        -- constructor; cbn; auto; [congruence|by eexists].
        -- by split.
    + wp. by apply Hno.
    + wp. by apply Hno.
    + apply (run_Send_queue _ _ _ _ w); auto. intros s1 ->. unfold SetWanna. wp. simplify_eq.
      eexists _, (_last_writing (lk s)), _, _, _, _.
      split; [by destruct s as [[] ? ? ? ? ? ?]|]. cbn. rewrite Hwb. split; [|split].
      * destruct Hb as [_ [? [Hl|[_ ?]]] _ _]; [|congruence]. rewrite Hwb in Hl. cbn.
        change (zlen (@nil ascii)) with 0 in Hl. lia.
      * by apply watched_SetWanna.
      * intros _ _. by apply for_write_SetWanna.
    + wp. by apply Hno.
    + apply (run_Send_queue _ _ _ _ w); auto. intros s1 ->. unfold SetWanna. wp. simplify_eq.
      eexists kActionWrite, (zlen b), _, _, _, _.
      split; [by destruct s as [[] ? ? ? ? ? ?]|]. cbn. rewrite Hwb. split; [cbn; lia|]. split; [|done].
      by apply watched_SetWanna.
    + apply (run_Send_queue _ _ _ _ w); auto. intros s1 ->. unfold SetWanna. wp. simplify_eq.
      eexists kActionWrite, (zlen b), _, _, _, _.
      split; [by destruct s as [[] ? ? ? ? ? ?]|]. cbn. rewrite Hwb. split; [cbn; lia|]. split; [|done].
      by apply watched_SetWanna.
Qed.

(** ** Events *)

(** [stable] without the watchers, which an event updates when it ends. *)
Record calm (s s' : st) : Prop := mkCalm {
  calm_rbuffer : _rbuffer (lk s') = _rbuffer (lk s);
  calm_rlength : _rlength (lk s') = _rlength (lk s);
  calm_worker : _worker (lk s') = _worker (lk s);
  calm_delivered : delivered s' = delivered s;
  calm_graceful : _graceful (lk s) = true -> _graceful (lk s') = true /\ sent s' = sent s;
  calm_internal : (internal (io s') <= internal (io s))%nat;
  calm_sent : sent s `prefix_of` sent s'
}.

Lemma stable_calm s s' : stable s s' -> calm s s'.
Proof. by intros []. Qed.

Lemma calm_stable s s' : calm s s' -> (awake s -> awake s') -> stable s s'.
Proof. by intros []. Qed.

Lemma calm_refl s : calm s s.
Proof. by constructor. Qed.

Lemma calm_trans s1 s2 s3 : calm s1 s2 -> calm s2 s3 -> calm s1 s3.
Proof.
  intros H1 H2. destruct H1 as [? ? ? ? Hg ? ?], H2 as [? ? ? ? Hg' ? ?].
  constructor; try congruence; try lia.
  - intros Hs. destruct (Hg Hs) as [Hs' ?]. destruct (Hg' Hs'). split; congruence.
  - by etrans.
Qed.

(** Statuses are results of the engine that wrote nothing. *)
Lemma base_put_io i s : base s -> written i = written (io s) -> base (put_io i s).
Proof. intros [] Hw. by constructor; cbn; rewrite ?Hw. Qed.

Lemma calm_put_io i s : (internal i <= internal (io s))%nat -> calm s (put_io i s).
Proof. by constructor. Qed.

(** Setting fields that [base] does not mention, or to values it allows. *)
Lemma base_set_action a s : base s -> base (put_lk (set_action a (lk s)) s).
Proof. by intros []. Qed.

Lemma calm_set_action a s : calm s (put_lk (set_action a (lk s)) s).
Proof. by constructor. Qed.

Lemma run_SetWanna k r x s (Q : unit -> st -> Prop) :
  base s -> r || x = true ->
  (forall w, w = w_SetWanna k r x (wk s) -> base (put_wk w s) -> calm s (put_wk w s) ->
     Q tt (put_wk w s)) ->
  run (SetWanna k r x) s Q.
Proof.
  intros [Hb1 Hb2 Hb3 Hb4] Hrx HQ. unfold SetWanna. wp. simplify_eq. apply HQ; [done| |by constructor].
  constructor; cbn; auto. by apply watched_SetWanna.
Qed.

Lemma run_OnEventOnce_end k a status s :
  base s ->
  run (OnEventOnce_end k a status) s (fun r s' => r.2 = kActionNone /\ base s' /\ calm s s').
Proof.
  intros Hb. unfold OnEventOnce_end. wp.
  eapply (run_mono _ _ (fun _ s' => base s' /\ calm s s')).
  - assert (base (put_lk (set_action (if INCOMPLETE status then a else kActionNone) (lk s)) s)) as Hb'
      by by apply base_set_action.
    pose proof (calm_set_action (if INCOMPLETE status then a else kActionNone) s) as Hc.
    unfold AfterEvent. destruct status; wp; try done.
    all: apply run_SetWanna; [done|done|]; intros w _ Hb2 Hc2; wp; split; [done|by eapply calm_trans].
  - intros r s' [? ?]. by wp.
Qed.

Lemma run_OnEventOnce_shutdown recv conn k s :
  base s ->
  run (OnEventOnce clock recv conn k kActionShutdown) s (fun r s' =>
    r.2 = kActionNone /\ base s' /\ calm s s' /\ _graceful (lk s') = true).
Proof.
  intros Hb. unfold OnEventOnce, Shutdown. wp.
  set (s1 := put_lk (set_graceful true (lk s)) s).
  assert (base s1) as Hb1.
  { destruct Hb as [? [? Hw] Hs ?]. constructor; cbn; auto.
    - split; [done|]. by destruct Hw as [?|[? ?]]; [left|right].
    - by destruct Hs as [?|[? ?]]; [left|right]. }
  assert (calm s s1) as Hc1 by by constructor.
  assert (_graceful (lk s1) = true) as Hg1 by done. clearbody s1. clear Hb.
  assert (forall s', base s' -> calm s1 s' -> _graceful (lk s') = true -> forall r : Z,
    run (set (set_action kActionNone);;; SetWannaRead k true;;; ret (r, kActionNone)) s'
      (fun r s' => r.2 = kActionNone /\ base s' /\ calm s s' /\ _graceful (lk s') = true)) as Hend.
  { intros s' Hb' Hc' Hg' r. unfold SetWannaRead. wp. simplify_eq. split; [done|]. split.
    - destruct Hb'. constructor; cbn; auto. by apply watched_SetWannaRead.
    - split; [|done]. eapply calm_trans; [done|]. eapply calm_trans; [done|]. by constructor. }
  apply run_if; intros _; [wp; by apply Hend|].
  apply run_bind, run_UpdateConnectJam. intros n v.
  set (s2 := put_ticks n (put_lk (set_connect_jam v (lk s1)) s1)). assert (base s2) as Hb2 by by destruct Hb1.
  assert (calm s1 s2) as Hc2 by by constructor.
  assert (_graceful (lk s2) = true) as Hg2 by done. clearbody s2.
  apply run_bind, run_io. intros i' status ES. cbn beta.
  pose proof (Shutdown_internal (io s2)) as Hi. pose proof (Shutdown_written (io s2)) as Hwr.
  rewrite ES in Hi, Hwr. cbn in Hi, Hwr.
  pose proof (base_put_io _ _ Hb2 Hwr) as Hb3. pose proof (calm_put_io _ s2 Hi) as Hc3.
  assert (calm s1 (put_io i' s2)) as Hc4 by by eapply calm_trans.
  assert (_graceful (lk (put_io i' s2)) = true) as Hg3 by done.
  set (s3 := put_io i' s2) in *. clearbody s3. clear Hb2 Hc2 Hg2 Hc3.
  assert (run (OnEventOnce_end k kActionShutdown status) s3 (fun r s' =>
    r.2 = kActionNone /\ base s' /\ calm s s' /\ _graceful (lk s') = true)) as Hend'.
  { eapply run_mono; [by apply run_OnEventOnce_end|]. cbn. intros r s' (? & ? & Hc).
    split; [done|]. split; [done|]. split; [|by apply Hc].
    eapply calm_trans; [done|]. by eapply calm_trans. }
  destruct status; wp; cbn [Z.leb Z.compare]; try done; try by apply Hend.
  all: apply (Hend (put_lk _ s3)); [by destruct Hb3|by destruct Hc4; constructor|done].
Qed.

Lemma run_PickSendingBuffer s (Q : bytes -> st -> Prop) :
  base s ->
  (_wbuffer (lk s) = [] -> Q [] s) ->
  (forall n, 0 < n <= zlen (_wbuffer (lk s)) ->
     Q (take (Z.to_nat n) (_wbuffer (lk s))) (put_lk (set_last_writing 0 (lk s)) s)) ->
  run PickSendingBuffer s Q.
Proof.
  intros Hb He Hq. unfold PickSendingBuffer. wp.
  destruct (_wbuffer (lk s)) as [|c wb] eqn:Ewb; [by wp; apply He|].
  assert (0 < zlen (c :: wb)) as Hpos by (rewrite zlen_cons; pose proof (zlen_nonneg wb); lia).
  unfold nonempty. apply run_if; intros Hz; [bprop; lia|]. wp.
  destruct Hb as [_ [Hw Hl] _ _]. rewrite Ewb in Hl.
  destruct Hl as [Hl|[? _]]; [|done].
  apply run_if; intros Hlw; wp; apply run_if; intros Hlt; bprop; try lia; wp.
  - apply Hq. lia.
  - specialize (Hq (zlen (c :: wb))). rewrite Hlw in *.
    replace (put_lk (set_last_writing 0 (lk s)) s) with s in Hq.
    + apply Hq. lia.
    + destruct s as [[] ? ? ? ? ? ?]; cbn in *. by rewrite Hlw.
Qed.

Lemma zlen_take_le {A} n (l : list A) : 0 <= n <= zlen l -> zlen (take (Z.to_nat n) l) = n.
Proof. intros. unfold zlen in *. rewrite length_take. lia. Qed.

Lemma zlen_drop_le {A} n (l : list A) : 0 <= n <= zlen l -> zlen (drop (Z.to_nat n) l) = zlen l - n.
Proof. intros. unfold zlen in *. rewrite length_drop. lia. Qed.

Lemma run_ConsumeSendingBuffer n s (Q : unit -> st -> Prop) :
  n <= zlen (_wbuffer (lk s)) ->
  Q tt (put_lk (set_wbuffer (drop (Z.to_nat n) (_wbuffer (lk s))) (lk s)) s) ->
  run (ConsumeSendingBuffer n) s Q.
Proof. intros. unfold ConsumeSendingBuffer. wp; [by apply Z.leb_le|wp]. done. Qed.

(** What the engine took is no longer in the buffer. *)
Lemma base_consume i m n s u v t a :
  base s -> 0 < n <= zlen (_wbuffer (lk s)) -> 0 <= m <= n ->
  written i = written (io s) ++ take (Z.to_nat m) (take (Z.to_nat n) (_wbuffer (lk s))) ->
  base (put_lk (set_wbuffer (drop (Z.to_nat m) (_wbuffer (lk s)))
         (set_last_sent u (set_send_jam v (set_action a (set_last_writing 0 (lk s))))))
         (put_ticks t (put_io i s))).
Proof.
  intros [Hb1 Hb2 Hb3 Hb4] Hn Hm Hw. constructor; cbn; auto.
  - rewrite zlen_drop_le by lia. lia.
  - split; [lia|]. left. apply zlen_nonneg.
  - left. destruct Hb3 as [<-|(_ & He & _)].
    + rewrite Hw, take_take, Nat.min_l, <- app_assoc, take_drop by lia. done.
    + rewrite He in Hn. change (zlen (@nil ascii)) with 0 in Hn. lia.
Qed.

Lemma run_OnEventOnce_write recv conn k s :
  base s ->
  run (OnEventOnce clock recv conn k kActionWrite) s (fun r s' =>
    base s' /\ calm s s' /\ (r.2 = kActionNone \/ r.2 = kActionShutdown)).
Proof.
  intros Hb. unfold OnEventOnce. apply run_bind, run_PickSendingBuffer; [done| |].
  - intros _. wp. change (zlen (@nil ascii)) with 0. cbn [negb Z.eqb].
    apply run_if; intros _; wp; (split; [by apply base_set_action|]);
      (split; [apply calm_set_action|]); auto.
  - intros n Hn. wp. rewrite zlen_take_le by lia.
    apply run_if; intros Hz; [|bprop; lia]. apply run_bind, run_io. intros i' [status m] EW.
    destruct (io_Write _ _) as [[i0 s0] m0] eqn:EW'; cbn in EW'; injection EW as -> -> ->.
    pose proof (Write_internal (take (Z.to_nat n) (_wbuffer (lk s))) (io s)) as Hi.
    rewrite EW' in Hi. cbn in Hi. cbn beta iota.
    case_decide as Hs.
    + subst status. apply Write_ok in EW' as [Hm Hw]. rewrite zlen_take_le in Hm by lia.
      pose proof (fun u v t a => base_consume i' m n s u v t a Hb Hn Hm Hw) as Hb'. wp.
      apply run_if; intros Hlt; bprop; apply run_bind, run_UpdateLastSent; intros t u v.
      * apply run_bind, run_ConsumeSendingBuffer; [cbn; lia|]. unfold GetSendingBufferSize. wp.
        { cbn. rewrite zlen_drop_le by lia. apply negb_true_iff, Z.eqb_neq. lia. }
        wp. split; [exact (Hb' u v t kActionNone)|]. split; [by constructor|auto].
      * apply run_bind, run_ConsumeSendingBuffer; [cbn; lia|]. wp.
        replace m with n in Hb' by lia.
        split; [exact (Hb' u v t kActionNone)|]. split; [by constructor|auto].
    + pose proof (Write_not_ok _ _ _ _ _ EW' Hs) as Hw.
      apply run_bind, run_UpdateLastSent; intros t u v.
      assert (forall lw, 0 <= lw <= n -> base (put_lk (set_last_writing lw (lk s)) (put_io i' s))) as Hb'.
      { intros lw Hlw. destruct Hb as [? ? ? ?]. constructor; cbn; rewrite ?Hw; auto. split; [lia|]. left. lia. }
      apply run_bind, run_if; intros _; wp; (eapply run_mono; [apply run_OnEventOnce_end|]); cbn.
      * destruct (Hb' n ltac:(lia)). by constructor.
      * intros r s' (? & ? & ?). split; [done|]. split; [|auto]. eapply calm_trans; [|done]. by constructor.
      * destruct (Hb' 0 ltac:(lia)). by constructor.
      * intros r s' (? & ? & ?). split; [done|]. split; [|auto]. eapply calm_trans; [|done]. by constructor.
Qed.

(** The events with any receiving function that respects a preorder [G]
    coarser than [calm], and an invariant [P] of the receiving side that is
    free to be broken once the linkage hangs up. *)
Section Events.
Context (G : st -> st -> Prop) (P : st -> Prop) (k : Z).
Context (recv : bytes -> M Z) (conn : M bool).
Context (G_calm : forall s s', calm s s' -> G s s').
Context (G_trans : forall s1 s2 s3, G s1 s2 -> G s2 s3 -> G s1 s3).
Context (G_worker : forall s s', G s s' -> _worker (lk s') = _worker (lk s)).
Context (G_internal : forall s s', G s s' -> (internal (io s') <= internal (io s))%nat).
Context (P_calm : forall s s', calm s s' -> P s -> P s').
Context (P_graceful : forall s, _graceful (lk s) = true -> P s).
Context (recv_spec : forall b s, base s -> _worker (lk s) = Some k -> P s ->
  run (recv b) s (fun r s' => base s' /\ G s s' /\ (0 < r -> P s'))).
Context (conn_spec : forall s, base s -> _worker (lk s) = Some k -> P s ->
  run conn s (fun _ s' => base s' /\ G s s' /\ P s')).

(** How many actions can follow. *)
Definition rank (a : Action) (s : st) : nat :=
  match a with
  | kActionShutdown => 1
  | kActionRead => S (S (internal (io s)))
  | _ => 2
  end.

Definition once_post (a : Action) (s : st) (r : Z * Action) (s' : st) : Prop :=
  base s' /\ G s s' /\
  (r.2 = kActionNone -> 0 < r.1 -> P s') /\
  (r.2 <> kActionNone -> (rank r.2 s' < rank a s)%nat /\ (r.2 <> kActionShutdown -> P s')).

Lemma once_post_end a s s0 status :
  base s0 -> calm s s0 -> P s ->
  run (OnEventOnce_end k a status) s0 (once_post a s).
Proof.
  intros Hb Hc HP. eapply run_mono; [by apply run_OnEventOnce_end|].
  intros [r n] s' (Hn & Hb' & Hc'). cbn in Hn. subst n. unfold once_post; cbn.
  assert (calm s s') as Hc2 by by eapply calm_trans.
  split; [done|]. split; [auto|]. split; [|done]. intros _ _. by eapply P_calm.
Qed.

Lemma run_OnEventOnce_read s :
  base s -> _worker (lk s) = Some k -> P s ->
  run (OnEventOnce clock recv conn k kActionRead) s (once_post kActionRead s).
Proof.
  intros Hb Hw HP. unfold OnEventOnce. apply run_bind, run_io. intros i' [[status b] more] ER.
  destruct (io_Read 65536 (io s)) as [[[i0 s0] b0] m0] eqn:ER'. injection ER as -> -> -> ->.
  pose proof (Read_internal 65536 (io s)) as Hi. pose proof (Read_written 65536 (io s)) as Hwr.
  rewrite ER' in Hi, Hwr. cbn in Hi, Hwr. cbn beta iota.
  pose proof (base_put_io _ _ Hb Hwr) as Hb1. pose proof (calm_put_io _ s Hi) as Hc1.
  case_decide as Hs; [|by apply once_post_end]. wp.
  set (s1 := put_lk _ _). assert (base s1) as Hb2 by by apply base_set_action.
  assert (calm s s1) as Hc2 by (eapply calm_trans; [exact Hc1|apply calm_set_action]).
  eapply run_mono; [apply recv_spec; [done|done|by eapply P_calm]|].
  cbn beta. intros r s' (Hb' & Hg & HP').
  assert (G s s') as Hg' by eauto.
  apply run_if; intros Hr0; [wp|apply run_if; intros Hr1; wp]; bprop; unfold once_post; cbn.
  - split; [done|]. split; [done|]. split; [done|]. split; [lia|done].
  - split; [done|]. split; [done|]. destruct more; (split; [auto|]); [|done].
    intros _. pose proof (G_internal _ _ Hg) as Hi2. change (io s1) with i' in Hi2.
    pose proof (Read_more _ _ _ _ _ ER'). split; [cbn [rank]; lia|auto].
  - split; [done|]. split; [done|]. split; [intros _ ?; lia|done].
Qed.

Lemma run_OnEventOnce_connect a s :
  a = kActionAccept \/ a = kActionConnect ->
  base s -> _worker (lk s) = Some k -> P s ->
  run (OnEventOnce clock recv conn k a) s (once_post a s).
Proof.
  intros Ha Hb Hw HP.
  assert (forall (f : I -> I * Status),
    (forall i, (internal (f i).1 <= internal i)%nat) -> (forall i, written (f i).1 = written i) ->
    run (let* status := io_call f in
         if decide (status = kStatusOk) then
           set (set_action kActionNone) ;;;
           let* ok := conn in
           ret (if (ok : bool) then 1 else -1, kActionNone)
         else OnEventOnce_end k a status) s (once_post a s)) as Hgen.
  { intros f Hi Hwr. apply run_bind, run_io. intros i' status Ef.
    specialize (Hi (io s)). specialize (Hwr (io s)). rewrite Ef in Hi, Hwr. cbn in Hi, Hwr.
    pose proof (base_put_io _ _ Hb Hwr) as Hb1. pose proof (calm_put_io _ s Hi) as Hc1.
    cbn beta. case_decide as Hs; [|by apply once_post_end]. wp.
    set (s1 := put_lk _ _). assert (base s1) as Hb2 by by apply base_set_action.
    assert (calm s s1) as Hc2 by (eapply calm_trans; [exact Hc1|apply calm_set_action]).
    eapply run_mono; [apply conn_spec; [done|done|by eapply P_calm]|].
    cbn beta. intros ok s' (Hb' & Hg & HP'). wp. unfold once_post; cbn.
    split; [done|]. split; [eauto|]. split; [done|done]. }
  destruct Ha as [-> | ->]; apply Hgen.
  - apply Accept_internal.
  - apply Accept_written.
  - apply Connect_internal.
  - apply Connect_written.
Qed.

Lemma run_OnEventOnce a s :
  base s -> _worker (lk s) = Some k -> (a <> kActionShutdown -> P s) ->
  run (OnEventOnce clock recv conn k a) s (once_post a s).
Proof.
  intros Hb Hw HP. destruct a.
  - by apply once_post_end; [| |apply HP].
  - by apply run_OnEventOnce_read; [| |apply HP].
  - eapply run_mono; [by apply run_OnEventOnce_write|]. intros [r n] s' (Hb' & Hc & Hn).
    cbn in Hn. unfold once_post; cbn. split; [done|]. split; [auto|].
    split; [intros; eapply P_calm; [done|by apply HP]|].
    destruct Hn as [-> | ->]; [done|]. cbn. intros _. split; [lia|done].
  - by apply run_OnEventOnce_connect; [left| | |apply HP].
  - by apply run_OnEventOnce_connect; [right| | |apply HP].
  - eapply run_mono; [by apply run_OnEventOnce_shutdown|]. intros [r n] s' (Hn & Hb' & Hc & Hg).
    cbn in Hn. subst n. unfold once_post; cbn. split; [done|]. split; [auto|]. split; [|done].
    intros _ _. by apply P_graceful.
Qed.

(** The loop ends: the fuel of [OnEvent] is enough. *)
Lemma run_OnEvent_loop fuel a s :
  base s -> _worker (lk s) = Some k -> (a <> kActionShutdown -> P s) -> (rank a s <= fuel)%nat ->
  run (OnEvent_loop clock recv conn fuel k a) s (fun r s' => base s' /\ G s s' /\ (0 < r -> P s')).
Proof.
  revert a s. induction fuel as [|n IH]; intros a s Hb Hw HP Hr.
  { destruct a; cbn in Hr; lia. }
  cbn [OnEvent_loop]. apply run_bind. eapply run_mono; [by apply run_OnEventOnce|].
  intros [r a'] s' (Hb' & Hg & Hstop & Hgo). cbn [fst snd] in *.
  case_decide as Ha; [wp; auto|]. destruct (Hgo Ha) as [Hr' HP'].
  eapply run_mono.
  - apply IH; [done| |done|lia]. by rewrite (G_worker _ _ Hg).
  - intros r' s'' (? & ? & ?). split; [done|]. split; [eauto|done].
Qed.

Lemma run_OnEvent a s :
  base s -> _worker (lk s) = Some k -> a <> kActionNone ->
  ((if decide (_action (lk s) = kActionNone) then a else _action (lk s)) <> kActionShutdown -> P s) ->
  run (OnEvent clock recv conn (Some k) a) s (fun r s' =>
    base s' /\ G s s' /\ (0 < r -> P s') /\ awake s').
Proof.
  intros Hb Hw Ha HP. unfold OnEvent. wp; [by apply bool_decide_eq_true|]. wp.
  eapply run_mono; [apply run_OnEvent_loop; [done|done|exact HP|]|].
  { destruct (if decide _ then _ else _); cbn [rank]; lia. }
  cbn beta. clear HP. intros r s' (Hb' & Hg & HP'). wp. case_decide as Hact; wp.
  - unfold GetSendingBufferSize. wp. apply run_SetWanna; [done|done|].
    intros w -> Hb2 Hc2. wp. split; [done|]. split; [eauto|]. split.
    + intros ?. eapply P_calm; [done|]. auto.
    + intros _ Hne. cbn in *.
      assert ((zlen (_wbuffer (lk s')) =? 0) = false) as ->
        by (apply Z.eqb_neq; intros Hz; by apply zlen_zero in Hz).
      apply for_write_SetWanna. rewrite <- Hw, <- (G_worker _ _ Hg). apply Hb'.
  - split; [done|]. split; [done|]. split; [done|]. by intros ?.
Qed.

End Events.

(** ** Disconnect and the callbacks *)

(** The loop of a shutdown stops after one step, whatever the callbacks. *)
Lemma OnEvent_shutdown recv conn recv' conn' w s :
  base s -> _action (lk s) = kActionNone ->
  OnEvent clock recv conn w kActionShutdown s = OnEvent clock recv' conn' w kActionShutdown s.
Proof.
  intros Hb Ha. destruct w as [k|]; [|done]. unfold OnEvent.
  apply bind_ext; intros u s0 E; injection E as _ <-.
  apply bind_ext; intros a s0 E; injection E as <- <-. rewrite Ha. cbn iota.
  apply bind_ext; intros n s0 E; injection E as <- <-.
  assert (OnEvent_loop clock recv conn (S (S (internal (io s)))) k kActionShutdown s =
          OnEvent_loop clock recv' conn' (S (S (internal (io s)))) k kActionShutdown s) as Hl.
  { cbn [OnEvent_loop]. apply bind_ext. intros [r n] s' E.
    pose proof (run_OnEventOnce_shutdown recv' conn' k s Hb) as Hr. unfold run in Hr.
    rewrite E in Hr. destruct Hr as [Hn _]. cbn in Hn. by subst n. }
  by apply bind_cong.
Qed.

Lemma run_Disconnect f s :
  base s -> is_Some (_worker (lk s)) ->
  run (Disconnect clock f) s (fun _ s' =>
    base s' /\ stable s s' /\ _graceful (lk s') = true).
Proof.
  intros Hb [k Hk]. unfold Disconnect. wp.
  set (s1 := put_lk (set_graceful true (lk s)) s).
  assert (base s1) as Hb1.
  { destruct Hb as [? [? Hw] Hs ?]. constructor; cbn; auto.
    - split; [done|]. by destruct Hw as [?|[? ?]]; [left|right].
    - by destruct Hs as [?|[? ?]]; [left|right]. }
  assert (stable s s1 /\ _graceful (lk s1) = true /\ _worker (lk s1) = Some k) as (Hst & Hg & Hk1)
    by by split; [constructor|].
  clearbody s1.
  assert (run (if f then ret tt else DumpSendingBuffer) s1 (fun _ s' =>
    base s' /\ stable s1 s' /\ _graceful (lk s') = true)) as Hdump.
  { destruct f; [wp; by split; [|split; [apply stable_refl|]]|].
    unfold DumpSendingBuffer. wp. split; [|split; [|done]].
    - destruct Hb1 as [Hb1 [? ?] Hb3 ?]. constructor; cbn; auto; [by compute|].
      right. split; [done|]. split; [done|].
      destruct Hb3 as [<-|(_ & _ & ?)]; [by apply prefix_app_r|done].
    - constructor; cbn; auto. by intros _ _ ?. }
  eapply run_mono; [exact Hdump|]. cbn beta. clear Hdump. intros _ s2 (Hb2 & Hst2 & Hg2).
  assert (stable s s2) as Hst' by by eapply stable_trans.
  assert (_worker (lk s2) = Some k) as Hk2 by (by rewrite (stable_worker _ _ Hst2)).
  wp. case_decide as Ha; wp; [done|].
  rewrite Hk2. unfold run. erewrite OnEvent_shutdown by done.
  eapply run_mono; [apply (run_OnEvent calm (fun _ => True) k (fun _ => ret 1) (ret true)
    (fun _ _ h => h) calm_trans calm_worker calm_internal
    (fun _ _ _ _ => Logic.I) (fun _ _ => Logic.I)); [| |done|done|done|done]|].
  - intros b s3 ? _ _. wp. by split; [|split; [apply calm_refl|]].
  - intros s3 ? _ _. wp. by split; [|split; [apply calm_refl|]].
  - cbn beta. intros r s' (Hb' & Hc & _ & Haw). split; [done|].
    split; [eapply stable_trans; [done|by apply calm_stable]|]. by apply Hc.
Qed.

Lemma run_run_prog {A} (p : prog A) s :
  base s -> is_Some (_worker (lk s)) ->
  run (run_prog clock p) s (fun _ s' => base s' /\ stable s s').
Proof.
  revert s. induction p as [a|b p IH|f p IH]; intros s Hb Hk; cbn [run_prog].
  - wp. split; [done|apply stable_refl].
  - apply run_bind. eapply run_mono; [by apply run_Send|]. cbn beta.
    intros r s' (Hb' & Hst & _). eapply run_mono; [apply IH; [done|by rewrite (stable_worker _ _ Hst)]|].
    cbn beta. intros a s'' [? ?]. split; [done|]. by eapply stable_trans.
  - apply run_bind. eapply run_mono; [by apply run_Disconnect|]. cbn beta.
    intros r s' (Hb' & Hst & _). eapply run_mono; [apply IH; [done|by rewrite (stable_worker _ _ Hst)]|].
    cbn beta. intros a s'' [? ?]. split; [done|]. by eapply stable_trans.
Qed.

Lemma run_handler {A} (f : H -> prog (H * A)) s :
  base s -> is_Some (_worker (lk s)) ->
  run (callback clock f) s (fun _ s' => base s' /\ stable s s').
Proof.
  intros Hb Hk. unfold callback. wp.
  eapply run_mono; [by apply run_run_prog|]. intros [h a] s' [Hb' Hst]. wp.
  split; [by destruct Hb'|]. destruct Hst. by constructor.
Qed.

(** ** What receiving, and any event, can change *)

Record flows (s s' : st) : Prop := mkFlows {
  flows_worker : _worker (lk s') = _worker (lk s);
  flows_graceful : _graceful (lk s) = true -> _graceful (lk s') = true /\ sent s' = sent s;
  flows_internal : (internal (io s') <= internal (io s))%nat;
  flows_sent : sent s `prefix_of` sent s';
  flows_delivered : delivered s `prefix_of` delivered s'
}.

Definition grows (s s' : st) : Prop :=
  flows s s' /\ (_graceful (lk s) = true -> delivered s' = delivered s).

Lemma calm_flows s s' : calm s s' -> flows s s'.
Proof. intros []. constructor; auto. by rewrite calm_delivered0. Qed.

Lemma flows_refl s : flows s s.
Proof. apply calm_flows, calm_refl. Qed.

Lemma flows_trans s1 s2 s3 : flows s1 s2 -> flows s2 s3 -> flows s1 s3.
Proof.
  intros H1 H2. destruct H1 as [? Hg ? ? ?], H2 as [? Hg' ? ? ?].
  constructor; try congruence; try lia; try by etrans.
  intros Hs. destruct (Hg Hs) as (Hs' & ?). destruct (Hg' Hs'). split; congruence.
Qed.

Lemma calm_grows s s' : calm s s' -> grows s s'.
Proof. intros Hc. split; [by apply calm_flows|]. intros _. apply Hc. Qed.

Lemma grows_refl s : grows s s.
Proof. apply calm_grows, calm_refl. Qed.

Lemma grows_trans s1 s2 s3 : grows s1 s2 -> grows s2 s3 -> grows s1 s3.
Proof.
  intros [H1 Hd1] [H2 Hd2]. split; [by eapply flows_trans|].
  intros Hg. rewrite Hd2, Hd1; auto. by apply H1.
Qed.

End Invariant.
