(* ===== verification/LinkageReceive.v ===== *)
(** * Receiving: the framing of messages in Linkage.v

    Lemmas on [DoReceived] and [OnReceived]: no assertion fails, the loop
    ends, and the messages delivered are those of the specification [split],
    however the stream was cut. *)

From S2P Require Import Prelude StateMonad AbstractIo Linkage LinkageFacts.

Section LinkageReceive.
Context {I W H : Type} {IO : AbstractIo I} {WA : WorkerApi W} {LH : LinkageHandler H}.
Context (clock : nat -> Z).

Abbreviation st := (@st I W H).
Abbreviation M := (ST st).
Implicit Types (s : st) (l : Linkage).

(** ** No assertion fails *)

(** The bytes kept are fewer than the message needs, unless the linkage hangs
    up and drops what it receives. *)
Definition pending_ok (s : st) : Prop :=
  _graceful (lk s) = true \/
  0 <= _rlength (lk s) /\ (_rlength (lk s) = 0 \/ zlen (_rbuffer (lk s)) < _rlength (lk s)).

Lemma base_set_rlength v s : base s -> base (put_lk (set_rlength v (lk s)) s).
Proof. by intros []. Qed.

Lemma base_set_rbuffer v s : base s -> base (put_lk (set_rbuffer v (lk s)) s).
Proof. by intros []. Qed.

Lemma flows_set_rlength v s : flows s (put_lk (set_rlength v (lk s)) s).
Proof. by constructor. Qed.

Lemma flows_set_rbuffer v s : flows s (put_lk (set_rbuffer v (lk s)) s).
Proof. by constructor. Qed.

Lemma run_ReceiveJam b s (Q : unit -> st -> Prop) :
  base s -> (forall s', base s' -> calm s s' -> Q tt s') -> run (UpdateReceiveJam clock b) s Q.
Proof. intros Hb HQ. wp. apply HQ; [by destruct Hb|by constructor]. Qed.

Lemma run_GetMessageLength b s :
  base s -> is_Some (_worker (lk s)) ->
  run (GetMessageLength clock b) s (fun _ s' => base s' /\ calm s s').
Proof.
  intros. eapply run_mono; [by apply run_handler|]. intros r s' [? ?].
  split; [done|by apply stable_calm].
Qed.

Lemma run_OnMessage b s :
  base s -> is_Some (_worker (lk s)) ->
  run (OnMessage clock b) s (fun r s' =>
    base s' /\ flows s s' /\ _rbuffer (lk s') = _rbuffer (lk s) /\
    _rlength (lk s') = _rlength (lk s) /\ delivered s' = delivered s ++ [(b, r)]).
Proof.
  intros. unfold OnMessage. apply run_bind.
  eapply run_mono; [by apply run_handler|]. intros r s' [Hb [? ? ? Hd]]. wp.
  cbn. rewrite Hd. split; [by destruct Hb|]. repeat split; try done; cbn.
  - by apply stable_graceful.
  - by apply stable_graceful.
  - by eexists.
Qed.

(** What the loop leaves, [c] bytes having been consumed before it. *)
Definition loop_post (ptr : bytes) (c : Z) (s : st) (rc : Z * Z) (s' : st) : Prop :=
  base s' /\ flows s s' /\ _rbuffer (lk s') = _rbuffer (lk s) /\ 0 <= _rlength (lk s') /\
  (0 < rc.1 ->
   c <= rc.2 <= c + zlen ptr /\
   (_rlength (lk s') = 0 \/ c + zlen ptr - rc.2 < _rlength (lk s')) /\
   (0 < _rlength (lk s) <= zlen ptr -> c + _rlength (lk s) <= rc.2) /\
   (c + zlen ptr = rc.2 -> ptr = [] /\ _rlength (lk s') = _rlength (lk s) \/ _rlength (lk s') = 0)).

Lemma loop_post_stop ptr c s s' r :
  ptr <> [] ->
  base s' -> flows s s' -> _rbuffer (lk s') = _rbuffer (lk s) -> 0 <= _rlength (lk s') ->
  (0 < r -> zlen ptr < _rlength (lk s') \/ _rlength (lk s) = 0 /\ _rlength (lk s') = 0) ->
  (0 < _rlength (lk s) -> _rlength (lk s') = _rlength (lk s)) ->
  loop_post ptr c s (r, c) s'.
Proof.
  intros Hne Hb Hf Hrb Hrl Hr Hk. unfold loop_post; cbn [fst snd]. pose proof (zlen_nonneg ptr).
  do 4 (split; [done|]). intros Hpos. specialize (Hr Hpos). split; [lia|]. split; [lia|].
  split; [intros [Hp1 Hp2]; specialize (Hk Hp1); lia|]. intros Hc.
  destruct Hne. apply zlen_zero. lia.
Qed.

Lemma run_DoReceived_length ptr s :
  base s -> is_Some (_worker (lk s)) -> 0 <= _rlength (lk s) ->
  run (DoReceived_length clock ptr) s (fun stop s' =>
    base s' /\ flows s s' /\ _rbuffer (lk s') = _rbuffer (lk s) /\ delivered s' = delivered s /\
    (0 < _rlength (lk s) -> _rlength (lk s') = _rlength (lk s) /\ stop = None) /\
    match stop with
    | Some r => _rlength (lk s) = 0 /\ _rlength (lk s') = 0
    | None => 0 < _rlength (lk s')
    end).
Proof.
  intros Hb Hk Hrl. unfold DoReceived_length. wp. apply run_if; intros Hz; bprop; wp.
  - eapply run_mono; [by apply run_GetMessageLength|]. cbn beta. intros r s' [Hb' Hc].
    pose proof (calm_flows _ _ Hc) as Hf. destruct Hc as [Hrb Hrl' ? Hd ? ? ?].
    apply run_if; intros Hr; [wp|apply run_if; intros Hr'; [|wp]]; bprop.
    + do 4 (split; [done|]). split; [lia|]. split; [done|congruence].
    + apply run_bind, run_ReceiveJam; [done|]. intros s'' Hb'' Hc''. wp.
      pose proof (calm_flows _ _ Hc''). destruct Hc''. split; [done|].
      split; [by eapply flows_trans|]. split; [congruence|]. split; [congruence|].
      split; [lia|]. split; congruence.
    + split; [by apply base_set_rlength|]. split; [by eapply flows_trans; [|apply flows_set_rlength]|].
      do 2 (split; [done|]). cbn. split; lia.
  - do 2 (split; [done || apply flows_refl|]). repeat split; auto. lia.
Qed.

(** The loop always ends, with every message length at least 1. *)
Lemma run_DoReceived_loop fuel ptr c s :
  base s -> is_Some (_worker (lk s)) -> 0 <= _rlength (lk s) -> (length ptr <= fuel)%nat ->
  run (DoReceived_loop clock fuel ptr c) s (loop_post ptr c s).
Proof.
  revert ptr c s. induction fuel as [|n IH]; intros [|x ptr'] c s Hb Hk Hrl Hlen; cbn [DoReceived_loop].
  1, 3: wp; unfold loop_post; cbn [fst snd]; change (zlen (@nil ascii)) with 0;
    split; [done|]; split; [apply flows_refl|]; do 2 (split; [done|]); intros _;
    split; [lia|]; split; [lia|]; split; [lia|]; auto.
  { cbn in Hlen; lia. }
  set (ptr := x :: ptr') in *. assert (ptr <> []) as Hne by done.
  assert (0 < zlen ptr) as Hpos.
  { unfold ptr. rewrite zlen_cons. pose proof (zlen_nonneg ptr'). lia. }
  clearbody ptr. apply run_bind. eapply run_mono; [by apply run_DoReceived_length|]. cbn beta.
  intros stop s1 (Hb1 & Hf1 & Hrb1 & _ & Hk1 & Hs1). assert (is_Some (_worker (lk s1))) as Hw1
    by (by rewrite (flows_worker _ _ Hf1)).
  destruct stop as [r|]; [wp|].
  { apply loop_post_stop; try done; [lia|intros _; right; tauto|intros; by apply Hk1]. }
  wp. apply run_if; intros Hz; bprop.
  { apply run_bind, run_ReceiveJam; [done|]. intros s2 Hb2 Hc2. wp.
    pose proof (calm_flows _ _ Hc2). destruct Hc2 as [? Hrl2 _ _ _ _ _].
    apply loop_post_stop; [done|done|by eapply flows_trans|congruence|lia|left; lia|].
    intros Hp. rewrite Hrl2. by apply Hk1. }
  apply run_bind, run_ReceiveJam; [done|]. intros s2 Hb2 Hc2.
  assert (is_Some (_worker (lk s2))) as Hw2 by by rewrite (calm_worker _ _ Hc2).
  assert (flows s s2) as Hf2 by by eapply flows_trans; [|apply calm_flows].
  destruct Hc2 as [Hrb2 Hrl2 _ _ _ _ _].
  apply run_bind. eapply run_mono; [by apply run_OnMessage|]. cbn beta.
  intros next s3 (Hb3 & Hf3 & Hrb3 & Hrl3 & Hd3).
  assert (flows s s3) as Hf3' by by eapply flows_trans.
  apply run_if; intros Hn; [wp|apply run_if; intros Hn'; wp]; bprop.
  1, 2: unfold loop_post; cbn [fst snd]; split; [done|]; split; [done|]; split; [congruence|]; split; lia.
  eapply run_mono.
  - apply IH; [by apply base_set_rlength| |done|].
    + change (is_Some (_worker (lk s3))). by rewrite (flows_worker _ _ Hf3).
    + rewrite length_drop. assert (0 < Z.to_nat (_rlength (lk s3)))%nat by lia. lia.
  - intros rc s' (Hb' & Hf' & Hrb' & Hrl' & Hpost). cbn in Hrb'.
    split; [done|]. split; [by eapply flows_trans; [|eapply flows_trans; [apply flows_set_rlength|]]|].
    split; [congruence|]. split; [done|]. intros Hr. destruct (Hpost Hr) as (Hc & Hp & _ & He).
    rewrite zlen_drop_le in * by lia. cbn in He. split; [lia|]. split; [lia|]. split.
    + intros [? ?]. destruct Hk1 as [? _]; [done|]. lia.
    + intros Heq. right. destruct He as [[_ ?]|?]; lia.
Qed.

Lemma run_DoReceived ptr s :
  base s -> is_Some (_worker (lk s)) -> 0 <= _rlength (lk s) ->
  run (DoReceived clock ptr) s (loop_post ptr 0 s).
Proof. intros. by apply run_DoReceived_loop. Qed.

(** What the branches of [OnReceived] promise. *)
Definition received_post (s : st) (r : Z) (s' : st) : Prop :=
  base s' /\ flows s s' /\ (0 < r -> pending_ok s').

Lemma run_OnReceived_direct ptr s :
  base s -> is_Some (_worker (lk s)) -> 0 <= _rlength (lk s) -> _rbuffer (lk s) = [] ->
  run (OnReceived_direct clock ptr) s (received_post s).
Proof.
  intros Hb Hw Hrl Hrb. unfold OnReceived_direct, append_rbuffer. apply run_bind.
  eapply run_mono; [by apply run_DoReceived|]. intros [r c] s1 (Hb1 & Hf1 & Hrb1 & Hrl1 & Hp).
  cbn [fst snd] in *. unfold received_post. apply run_if; intros Hr; bprop; [wp; auto with lia|].
  destruct (Hp ltac:(lia)) as (Hc & Hl & _ & He). apply run_bind, run_if; intros Hn; bprop; wp.
  - split; [by apply base_set_rbuffer|]. split; [by eapply flows_trans; [|apply flows_set_rbuffer]|].
    intros _. right. split; [done|]. cbn. rewrite Hrb1, Hrb. cbn. rewrite zlen_drop_le by lia. lia.
  - do 2 (split; [done|]). intros _. right. split; [done|]. rewrite Hrb1, Hrb.
    change (zlen (@nil ascii)) with 0. lia.
Qed.

Lemma run_OnReceived_fill ptr s :
  base s -> is_Some (_worker (lk s)) ->
  zlen (_rbuffer (lk s)) < _rlength (lk s) <= zlen (_rbuffer (lk s)) + zlen ptr ->
  run (OnReceived_fill clock ptr) s (received_post s).
Proof.
  intros Hb Hw Hrl. unfold OnReceived_fill, append_rbuffer. cbv zeta. pose proof (zlen_nonneg (_rbuffer (lk s))) as Hzr.
  wp; [apply Z.ltb_lt; lia| |].
  { cbn. pose proof (zlen_nonneg (_rbuffer (lk s))). apply Z.eqb_eq.
    rewrite zlen_app, zlen_take_le by lia. lia. }
  eapply run_mono; [apply run_DoReceived; [by apply base_set_rbuffer|done|cbn; lia]|].
  set (s1 := put_lk _ s). assert (flows s s1) as Hf1 by apply flows_set_rbuffer.
  assert (zlen (_rbuffer (lk s1)) = _rlength (lk s)) as Hrb1.
  { cbn. pose proof (zlen_nonneg (_rbuffer (lk s))). rewrite zlen_app, zlen_take_le by lia. lia. }
  assert (_rlength (lk s1) = _rlength (lk s)) as Hrl1 by done. clearbody s1.
  intros [r c] s2 (Hb2 & Hf2 & Hrb2 & Hrl2 & Hp). cbn [fst snd] in *.
  assert (flows s s2) as Hf by by eapply flows_trans.
  unfold received_post. apply run_if; intros Hr; bprop; [wp; auto with lia|].
  destruct (Hp ltac:(lia)) as (Hc & _ & Hfull & _). pose proof (zlen_nonneg (_rbuffer (lk s))).
  wp. apply run_if; intros Hbad.
  { apply orb_true_iff in Hbad as [?|?]; bprop; lia. }
  apply orb_false_iff in Hbad as [_ _]. cbv zeta.
  set (s3 := put_lk _ s2). assert (base s3) as Hb3 by by apply base_set_rbuffer.
  assert (flows s s3) as Hf3 by by eapply flows_trans; [|apply flows_set_rbuffer].
  apply run_if; intros Hn.
  - eapply run_mono; [apply run_OnReceived_direct; [done| |done|done]|].
    + by rewrite (flows_worker _ _ Hf3).
    + intros r' s' (? & ? & ?). split; [done|]. split; [by eapply flows_trans|done].
  - wp. do 2 (split; [done|]). intros _. right. split; [done|]. left. cbn.
    destruct Hp as (_ & _ & _ & He); [lia|]. destruct He as [[He _]|?]; [lia| |done].
    rewrite He in Hrb1. change (zlen (@nil ascii)) with 0 in Hrb1. lia.
Qed.

Lemma run_OnReceived_move ptr s :
  base s -> is_Some (_worker (lk s)) -> 0 <= _rlength (lk s) ->
  run (OnReceived_move clock ptr) s (received_post s).
Proof.
  intros Hb Hw Hrl. unfold OnReceived_move, append_rbuffer. wp.
  eapply run_mono; [apply run_DoReceived; [by apply base_set_rbuffer|done|done]|].
  intros [r c] s1 (Hb1 & Hf1 & Hrb1 & Hrl1 & Hp). cbn [fst snd] in *.
  assert (flows s s1) as Hf by by eapply flows_trans; [apply flows_set_rbuffer|].
  unfold received_post. apply run_if; intros Hr; bprop; [wp; auto with lia|].
  destruct (Hp ltac:(lia)) as (Hc & Hl & _ & _). rewrite <- Hrb1 in Hc, Hl.
  apply run_bind, run_if; intros Hn; bprop; wp.
  - apply run_if; intros Hbad; bprop; [lia|]. wp.
    split; [by apply base_set_rbuffer|]. split; [by eapply flows_trans; [|apply flows_set_rbuffer]|].
    intros _. right. split; [done|]. cbn. rewrite zlen_drop_le by lia. lia.
  - do 2 (split; [done|]). intros _. right. split; [done|]. lia.
Qed.

Lemma run_OnReceived b s :
  base s -> is_Some (_worker (lk s)) -> pending_ok s ->
  run (OnReceived clock b) s (fun r s' => base s' /\ grows s s' /\ (0 < r -> pending_ok s')).
Proof.
  intros Hb Hw Hp. unfold OnReceived. destruct b as [ptr|]; [|wp; split; [done|]; split; [|lia]].
  2: by apply calm_grows, calm_refl.
  apply run_if; intros Hz; [wp; split; [done|]; split; [by apply calm_grows, calm_refl|done]|].
  wp. set (s1 := put_ticks _ _). assert (base s1) as Hb1 by by destruct Hb.
  assert (calm s s1) as Hc1 by by constructor.
  assert (pending_ok s1) as Hp1 by done. clearbody s1.
  apply run_if; intros Hg; [wp; split; [done|]; split; [by apply calm_grows|done]|].
  wp. assert (is_Some (_worker (lk s1))) as Hw1 by by rewrite (calm_worker _ _ Hc1).
  eapply (run_mono _ _ (received_post s1)).
  - destruct Hp1 as [Hp1|[Hrl Hp1]]; [congruence|]. apply run_if; intros Hrb; bprop.
    + apply run_OnReceived_direct; auto. by apply zlen_zero.
    + apply run_if; intros Hfill; bprop.
      * apply run_OnReceived_fill; auto. lia.
      * by apply run_OnReceived_move.
  - intros r s' (Hb' & Hf & Hp'). split; [done|]. split; [|done].
    split; [by eapply flows_trans; [apply calm_flows|]|].
    intros Hg'. apply (calm_graceful _ _ Hc1) in Hg' as [Hg' _]. congruence.
Qed.

End LinkageReceive.
