(* ===== verification/LinkageLife.v ===== *)
(** * The life of a connection: every method of Linkage.v keeps the invariant

    [Inv] is the invariant of an attached linkage between two calls.  [serve]
    is what a worker and the application do with a linkage, in any order,
    until it is dropped. *)

From S2P Require Import Prelude StateMonad AbstractIo Linkage LinkageFacts LinkageReceive.

Section LinkageLife.
Context {I W H : Type} {IO : AbstractIo I} {WA : WorkerApi W} {LH : LinkageHandler H}.
Context (clock : nat -> Z).

Abbreviation st := (@st I W H).
Abbreviation M := (ST st).
Implicit Types (s : st) (l : Linkage).

Definition Inv (s : st) : Prop := base s /\ pending_ok s /\ awake s.

Lemma pending_ok_calm s s' : calm s s' -> pending_ok s -> pending_ok s'.
Proof.
  intros [Hrb Hrl ? ? Hg ? ?] [Hp|Hp]; [left; by apply Hg|right; by rewrite Hrl, Hrb].
Qed.

Lemma Inv_stable s s' : Inv s -> base s' -> stable s s' -> Inv s'.
Proof.
  intros (_ & Hp & Ha) Hb Hst. split; [done|]. split; [|by apply Hst].
  eapply pending_ok_calm; [by apply stable_calm|done].
Qed.

(** ** Connecting *)

(** [base], but for the watchers being off while a connection starts. *)
Record base0 (s : st) : Prop := mkBase0 {
  base0_room : zlen (_wbuffer (lk s)) <= kMaximumBytes;
  base0_writing : 0 <= _last_writing (lk s) /\
    (_last_writing (lk s) <= zlen (_wbuffer (lk s)) \/
     _wbuffer (lk s) = [] /\ _graceful (lk s) = true);
  base0_stream : written (io s) ++ _wbuffer (lk s) = sent s \/
    _graceful (lk s) = true /\ _wbuffer (lk s) = [] /\ written (io s) `prefix_of` sent s;
  base0_owner : forall k r x, watching k (wk s) = Some (r, x) -> _worker (lk s) = Some k;
  base0_worker : worker_ok (wk s)
}.

Lemma base_base0 s : base s -> base0 s.
Proof. intros [? ? ? [Hok Hw]]. constructor; auto. intros k r x E. by destruct (Hw _ _ _ E). Qed.

Lemma run_SetWanna0 k r x s (Q : unit -> st -> Prop) :
  base0 s -> _worker (lk s) = Some k -> r || x = true ->
  (forall w, w = w_SetWanna k r x (wk s) -> base (put_wk w s) ->
     (x = true -> for_write w) -> Q tt (put_wk w s)) ->
  run (SetWanna k r x) s Q.
Proof.
  intros [Hb1 Hb2 Hb3 Hb4 Hok] Hk Hrx HQ. unfold SetWanna. wp. simplify_eq.
  assert (forall k' r' x', watching k' (w_SetWanna k r x (wk s)) = Some (r', x') ->
            k' = k /\ r' = r /\ x' = x) as HW.
  { intros k' r' x'. destruct (decide (k = k')) as [<-|Hne].
    - rewrite SetWanna_watching. destruct (watching k (wk s)); [|done]. by intros [= <- <-].
    - rewrite SetWanna_others by done. intros E. apply Hb4 in E. congruence. }
  apply HQ; [done| |].
  - constructor; cbn; auto. split; [by apply SetWanna_worker_ok|].
    intros k' r' x' E. destruct (HW _ _ _ E) as (-> & -> & ->). done.
  - intros -> k' r' x' E. by destruct (HW _ _ _ E) as (_ & _ & ->).
Qed.

Lemma run_DoConnected k s :
  base0 s -> _worker (lk s) = Some k -> pending_ok s ->
  run (DoConnected clock) s (fun _ s' => base s' /\ grows s s' /\ pending_ok s' /\ awake s').
Proof.
  intros Hb Hk Hp. unfold DoConnected, GetSendingBufferSize, the_worker. wp.
  rewrite Hk. wp. apply run_SetWanna0; [done|done|done|]. intros w Ew Hb1 Hw.
  wp. match goal with |- run _ ?x _ => set (s1 := x) end.
  assert (base s1) as Hb2 by by destruct Hb1.
  assert (calm s s1) as Hc2 by by constructor.
  assert (awake s1) as Ha.
  { intros _ Hne. change (for_write w). change (_wbuffer (lk s1)) with (_wbuffer (lk s)) in Hne.
    apply Hw, negb_true_iff, Z.eqb_neq. intros Hz. by apply zlen_zero in Hz. }
  clearbody s1. eapply run_mono; [apply run_handler; [done|]|].
  { by rewrite (calm_worker _ _ Hc2). }
  intros ok s' [Hb' Hst]. pose proof (stable_calm _ _ Hst) as Hc3.
  assert (calm s s') as Hc by by eapply calm_trans.
  split; [done|]. split; [by apply calm_grows|]. split; [by eapply pending_ok_calm|].
  by apply Hst.
Qed.

(** [OnEvent] with the real callbacks. *)
Lemma run_event k a s :
  base s -> _worker (lk s) = Some k -> pending_ok s -> a <> kActionNone ->
  run (OnEvent clock (fun b => OnReceived clock (Some b)) (DoConnected clock) (Some k) a) s
    (fun r s' => base s' /\ grows s s' /\ (0 < r -> Inv s')).
Proof.
  intros Hb Hk Hp Ha.
  eapply run_mono; [apply (run_OnEvent clock grows pending_ok k _ _ calm_grows grows_trans)|].
  - intros s1 s2 [Hf _]. apply Hf.
  - intros s1 s2 [Hf _]. apply Hf.
  - apply pending_ok_calm.
  - intros s1 Hg. by left.
  - intros b s1 ? Hk1 ?. apply run_OnReceived; [done|by rewrite Hk1|done].
  - intros s1 ? Hk1 ?. eapply run_mono; [apply (run_DoConnected k); [by apply base_base0|done|done]|]. cbn beta. tauto.
  - done.
  - done.
  - done.
  - done.
  - cbn beta. intros r s' (Hb' & Hg & HP & Haw). split; [done|]. split; [done|].
    intros Hr. split; [done|]. auto.
Qed.

(** What the engine does not write keeps [base0]. *)
Lemma base0_put_io i s : base0 s -> written i = written (io s) -> base0 (put_io i s).
Proof. intros [] Hw. by constructor; cbn; rewrite ?Hw. Qed.

(** The first action of a connection, done at once. *)
Definition started (k : Z) (r : Z * Action) (s' : st) : Prop :=
  r.2 = kActionNone /\ base0 s' /\ _worker (lk s') = Some k /\
  (0 < r.1 -> base s' /\ pending_ok s').

Lemma run_start_end k a status s :
  base0 s -> _worker (lk s) = Some k -> pending_ok s -> status <> kStatusOk ->
  run (OnEventOnce_end k a status) s (started k).
Proof.
  intros Hb Hk Hp Hs. unfold OnEventOnce_end. wp.
  set (s1 := put_lk _ _). assert (base0 s1) as Hb1 by by destruct Hb.
  assert (_worker (lk s1) = Some k) as Hk1 by done. assert (pending_ok s1) as Hp1 by done.
  clearbody s1. unfold AfterEvent, started.
  destruct status; try done; wp; cbn [fst snd]; try by (do 3 (split; [done|])).
  all: apply run_SetWanna0; [done|done|done|]; intros w _ Hb2 _; wp; cbn [fst snd];
    split; [done|]; split; [by apply base_base0|]; split; done.
Qed.

Lemma run_start_once k a s :
  a = kActionAccept \/ a = kActionConnect ->
  base0 s -> _worker (lk s) = Some k -> pending_ok s ->
  run (OnEventOnce clock (fun b => OnReceived clock (Some b)) (DoConnected clock) k a) s
    (started k).
Proof.
  intros Ha Hb Hk Hp.
  assert (forall (f : I -> I * Status), (forall i, written (f i).1 = written i) ->
    run (let* status := io_call f in
         if decide (status = kStatusOk) then
           set (set_action kActionNone) ;;;
           let* ok := DoConnected clock in
           ret (if (ok : bool) then 1 else -1, kActionNone)
         else OnEventOnce_end k a status) s (started k)) as Hgen.
  { intros f Hwr. apply run_bind, run_io. intros i' status Ef.
    specialize (Hwr (io s)). rewrite Ef in Hwr. cbn in Hwr.
    pose proof (base0_put_io _ _ Hb Hwr) as Hb1. cbn beta.
    case_decide as Hs; [|by apply run_start_end]. wp.
    set (s1 := put_lk _ _). assert (base0 s1) as Hb2 by by destruct Hb1.
    eapply run_mono; [by apply (run_DoConnected k)|]. cbn beta.
    intros ok s' (Hb' & [Hg _] & Hp' & _). wp. unfold started; cbn [fst snd].
    split; [done|]. split; [by apply base_base0|]. split; [by rewrite (flows_worker _ _ Hg)|done]. }
  destruct Ha as [-> | ->]; apply Hgen; [apply Accept_written|apply Connect_written].
Qed.

Lemma run_start k a s :
  a = kActionAccept \/ a = kActionConnect ->
  base0 s -> _worker (lk s) = Some k -> pending_ok s -> _action (lk s) = a ->
  run (OnEvent clock (fun b => OnReceived clock (Some b)) (DoConnected clock) (Some k) a) s
    (fun r s' => base0 s' /\ _worker (lk s') = Some k /\ (0 < r -> Inv s')).
Proof.
  intros Ha Hb Hk Hp Hact. assert (a <> kActionNone) as Hne by (destruct Ha; congruence).
  unfold OnEvent. wp; [by apply bool_decide_eq_true|]. rewrite Hact, decide_False by done.
  cbn [OnEvent_loop]. apply run_bind. eapply run_mono; [by apply run_start_once|].
  intros [r n] s1 (Hn & Hb1 & Hk1 & Hr). cbn [fst snd] in *. subst n.
  rewrite decide_True by done. wp. case_decide as Hact1; wp.
  - unfold GetSendingBufferSize. wp. apply run_SetWanna0; [done|done|done|].
    intros w -> Hb2 Hw. wp. split; [by apply base_base0|]. split; [done|]. intros Hr'.
    split; [done|]. split; [by apply Hr|]. intros _ Hwb. apply Hw, negb_true_iff, Z.eqb_neq.
    intros Hz. by apply zlen_zero in Hz.
  - split; [done|]. split; [done|]. intros Hr'. destruct (Hr Hr') as [? ?].
    split; [done|]. split; [done|]. by intros ?.
Qed.

(** [Attach] of a linkage that no worker watches yet. *)
Definition attach_post (k : Z) (ok : bool) (s' : st) : Prop :=
  base0 s' /\
  if ok then Inv s' /\ _worker (lk s') = Some k
  else _worker (lk s') = None /\ forall k', watching k' (wk s') = None.

Lemma run_attach_fails k s :
  base0 s -> _worker (lk s) = Some k ->
  run (DoDetach k ;;; set (set_worker None) ;;; ret false) s (attach_post k).
Proof.
  intros [Hb1 Hb2 Hb3 Hb4 Hok] Hk. unfold DoDetach. wp.
  assert (forall k', watching k' w = None) as Hw.
  { intros k'. change w with (w, a).1. rewrite <- H0. destruct (decide (k = k')) as [<-|Hne].
    - apply Detach_watching.
    - rewrite Detach_others by done. destruct (watching k' (wk s)) as [[r x]|] eqn:E; [|done].
      apply Hb4 in E. congruence. }
  split; [|done]. constructor; cbn; auto; [intros k' r x; by rewrite Hw|].
  change w with (w, a).1. rewrite <- H0. by apply Detach_worker_ok.
Qed.

Lemma run_Attach k s :
  base0 s -> _worker (lk s) = None -> pending_ok s -> (forall k', watching k' (wk s) = None) ->
  run (Attach clock (Some k)) s (attach_post k).
Proof.
  intros Hb Hnone Hp Hw. unfold Attach. wp. rewrite Hnone.
  apply run_bind, run_io. intros i' [w|] EI; pose proof (Initialize_written (io s)) as Hwr;
    rewrite EI in Hwr; cbn [fst] in Hwr; pose proof (base0_put_io _ _ Hb Hwr) as Hb1; [|by wp].
  destruct (Initialize_wishes _ _ _ EI) as (Hone & Hact & Hwish). wp.
  { destruct Hone as [-> | ->]; [done|]. apply orb_true_r. }
  cbv zeta. set (connecting := bool_decide _ || bool_decide _).
  set (wanna := if negb connecting then true else wanna_read w).
  wp. unfold DoAttach. apply run_wk. intros w1 ok EA.
  change (wk (put_io i' s)) with (wk s) in EA.
  change (_peer_fd (lk (put_io i' s))) with (_peer_fd (lk s)) in EA. cbn beta.
  assert (forall k', k <> k' -> watching k' w1 = None) as Hother.
  { intros k' Hne. change w1 with (w1, ok).1. rewrite <- EA, Attach_others by done. apply Hw. }
  destruct ok; cbn [negb].
  all: pose proof (Attach_worker_ok k (_peer_fd (lk s)) wanna (wanna_write w) true (wk s)) as Hok1;
    rewrite EA in Hok1; cbn [fst] in Hok1; specialize (Hok1 (base0_worker _ Hb)).
  2: { apply Attach_refused in EA. rewrite Hw in EA.
       assert (forall k', watching k' w1 = None) as Hw1.
       { intros k'. by destruct (decide (k = k')) as [<-|?]; [|apply Hother]. }
       wp. split; [|done]. destruct Hb1. constructor; cbn; auto. intros k' r x. by rewrite Hw1. }
  apply Attach_watching in EA; [|apply Hw]. wp.
  set (s1 := put_lk _ _).
  assert (base0 s1) as Hb2.
  { destruct Hb1 as [? ? ? _ _]. constructor; auto. intros k' r x E.
    destruct (decide (k = k')) as [<-|Hne]; [done|]. cbn in E. by rewrite (Hother k' Hne) in E. }
  assert (watching k (wk s1) = Some (wanna, wanna_write w)) as Hon by done.
  assert (_worker (lk s1) = Some k) as Hk1 by done. assert (pending_ok s1) as Hp1 by done.
  assert (forall k' r x, watching k' (wk s1) = Some (r, x) -> r = wanna /\ x = wanna_write w) as Hon'.
  { intros k' r x E. pose proof (base0_owner _ Hb2 _ _ _ E) as Hk'. rewrite Hk1 in Hk'.
    injection Hk' as <-. rewrite Hon in E. by injection E as <- <-. }
  clearbody s1. apply run_if; intros Hc.
  - eapply run_bind, run_mono; [by apply (run_DoConnected k)|]. cbn beta.
    intros ok s2 (Hb3 & [Hf _] & Hp3 & Ha3).
    assert (_worker (lk s2) = Some k) as Hk2 by by rewrite (flows_worker _ _ Hf).
    apply run_if; intros Hok.
    + apply run_attach_fails; [by apply base_base0|done].
    + wp. split; [by apply base_base0|]. done.
  - apply negb_false_iff in Hc. apply run_bind, run_UpdateConnectJam. intros n v.
    case_decide as Ha; wp.
    + set (s2 := put_lk _ _). assert (base0 s2) as Hb3 by by destruct Hb2.
      assert (next_action w <> kActionNone) as Hnext.
      { unfold connecting in Hc. rewrite Ha in Hc. by apply bool_decide_eq_true in Hc. }
      split; [done|]. split; [|done]. split; [|split].
      * destruct Hb3. constructor; auto. split; [done|]. intros k' r x E. split; [by eapply base0_owner0|].
        destruct (Hon' _ _ _ E) as [-> ->]. unfold wanna. rewrite Hc. auto.
      * done.
      * by intros ?.
    + set (s2 := put_lk _ _). assert (base0 s2) as Hb3 by by destruct Hb2.
      eapply run_mono; [apply run_start; try done|].
      { by destruct Hact as [?|?]. }
      cbn beta. intros r s3 (Hb4 & Hk4 & Hr).
      apply run_if; intros Hr'; bprop; [by apply run_attach_fails|]. wp.
      split; [done|]. split; [|done]. apply Hr. lia.
Qed.

(** ** What the workers and the application do

    A worker that is told that its client failed or hung up reports it and
    drops the client; the client is also dropped when [Cleanup] says so.  The
    application may send and disconnect at any time. *)
Inductive op : Type :=
| ev_readable (errnum : Z)
| ev_writable (errnum : Z)
| ev_check (now : Z)
| ev_send (b : option bytes)
| ev_disconnect (finish_write : bool).

(** LinkageWorker::OnReadable, OnWritable, OnError and OnDisconnected. *)
Definition dropped (r : Z) (reading_or_writing : bool) (errnum : Z) : M bool :=
  if r <? 0 then OnError clock reading_or_writing errnum ;;; OnDisconnected clock ;;; ret false
  else if r =? 0 then OnDisconnected clock ;;; ret false
  else ret true.

(** Returns whether the linkage stays. *)
Definition run_op (k : Z) (o : op) : M bool :=
  match o with
  | ev_readable errnum => let* r := OnReadable clock (Some k) in dropped r true errnum
  | ev_writable errnum => let* r := OnWritable clock (Some k) in dropped r false errnum
  | ev_check now =>
      let* ok := Cleanup clock now in
      if (ok : bool) then ret true else OnDisconnected clock ;;; ret false
  | ev_send b => let* _ := Send clock b in ret true
  | ev_disconnect f => let* _ := Disconnect clock f in ret true
  end.

Fixpoint serve (k : Z) (ops : list op) : M bool :=
  match ops with
  | [] => ret true
  | o :: ops => let* keep := run_op k o in if (keep : bool) then serve k ops else ret false
  end.

(** From [Attach] on. *)
Definition life (k : Z) (ops : list op) : M bool :=
  let* ok := Attach clock (Some k) in
  if (ok : bool) then serve k ops else ret false.

(** ** The invariant is kept *)

Definition kept (s : st) (keep : bool) (s' : st) : Prop :=
  base s' /\ grows s s' /\ (keep = true -> Inv s').

Lemma run_OnDisconnected s :
  base s -> is_Some (_worker (lk s)) ->
  run (OnDisconnected clock) s (fun _ s' => base s' /\ grows s s').
Proof.
  intros. eapply run_mono; [by apply run_handler|]. intros ? ? [? Hs]. split; [done|].
  by apply calm_grows, stable_calm.
Qed.

Lemma run_dropped r b e s0 s :
  base s -> is_Some (_worker (lk s)) -> grows s0 s -> (0 < r -> Inv s) ->
  run (dropped r b e) s (kept s0).
Proof.
  intros Hb Hw Hf Hi. unfold dropped, OnError. apply run_if; intros Hr; bprop.
  - apply run_bind. eapply run_mono; [by apply run_handler|]. intros [] s1 [Hb1 Hs1].
    apply run_bind. eapply run_mono; [apply run_OnDisconnected; [done|]|].
    { by rewrite (stable_worker _ _ Hs1). }
    intros ? s2 [Hb2 Hf2]. wp. split; [done|]. split; [|done].
    eapply grows_trans; [done|]. by eapply grows_trans; [apply calm_grows, stable_calm|].
  - apply run_if; intros Hr0; bprop.
    + apply run_bind. eapply run_mono; [by apply run_OnDisconnected|]. intros ? s2 [Hb2 Hf2]. wp.
      split; [done|]. split; [by eapply grows_trans|done].
    + wp. split; [done|]. split; [done|]. intros _. apply Hi. lia.
Qed.

Lemma run_Cleanup now s :
  Inv s -> is_Some (_worker (lk s)) ->
  run (Cleanup clock now) s (fun _ s' => Inv s' /\ grows s s').
Proof.
  intros Hi Hw. unfold Cleanup. wp. cbv zeta.
  assert (forall b, run (@ret st bool b) s (fun _ s' => Inv s' /\ grows s s')) as Hret
    by (intros b; wp; split; [done|apply grows_refl]).
  do 4 (apply run_if; intros _; [apply Hret|]).
  eapply run_mono; [apply run_handler; [apply Hi|done]|].
  intros ok s' [Hb' Hs]. split; [by eapply Inv_stable|]. by apply calm_grows, stable_calm.
Qed.

Lemma run_run_op k o s :
  Inv s -> _worker (lk s) = Some k -> run (run_op k o) s (kept s).
Proof.
  intros Hi Hk. pose proof Hi as (Hb & Hp & Ha).
  assert (is_Some (_worker (lk s))) as Hw by by rewrite Hk.
  assert (forall b e a, a <> kActionNone ->
    run (let* r := OnEvent clock (fun b => OnReceived clock (Some b)) (DoConnected clock) (Some k) a
         in dropped r b e) s (kept s)) as Hev.
  { intros b e a Hne. apply run_bind. eapply run_mono; [by apply run_event|].
    cbn beta. intros r s1 (Hb1 & Hg1 & Hi1). apply run_dropped; [done| |done|done].
    by rewrite (flows_worker _ _ (proj1 Hg1)). }
  destruct o as [e|e|now|b|f]; cbn [run_op]; [by apply Hev|by apply Hev|..].
  - apply run_bind. eapply run_mono; [by apply run_Cleanup|]. cbn beta.
    intros ok s1 [Hi1 Hf1]. apply run_if; intros _; [wp; split; [apply Hi1|done]|].
    apply run_bind. eapply run_mono; [apply run_OnDisconnected; [apply Hi1|]|].
    { by rewrite (flows_worker _ _ (proj1 Hf1)). }
    intros ? s2 [Hb2 Hf2]. wp. split; [done|]. split; [by eapply grows_trans|done].
  - apply run_bind. eapply run_mono; [by apply run_Send|]. cbn beta.
    intros r s1 (Hb1 & Hs1 & _). wp. split; [done|].
    split; [by apply calm_grows, stable_calm|]. intros _. by eapply Inv_stable.
  - apply run_bind. eapply run_mono; [by apply run_Disconnect|]. cbn beta.
    intros r s1 (Hb1 & Hs1 & _). wp. split; [done|].
    split; [by apply calm_grows, stable_calm|]. intros _. by eapply Inv_stable.
Qed.

Lemma run_serve k ops s :
  Inv s -> _worker (lk s) = Some k -> run (serve k ops) s (kept s).
Proof.
  revert s. induction ops as [|o ops IH]; intros s Hi Hk; cbn [serve].
  { wp. split; [apply Hi|]. split; [apply grows_refl|done]. }
  apply run_bind. eapply run_mono; [by apply run_run_op|].
  intros keep s1 (Hb1 & Hf1 & Hi1). apply run_if; intros Hkeep.
  - eapply run_mono; [apply IH; [auto|by rewrite (flows_worker _ _ (proj1 Hf1))]|].
    intros keep' s2 (? & ? & ?). split; [done|]. split; [by eapply grows_trans|done].
  - wp. split; [done|]. split; [done|]. done.
Qed.

End LinkageLife.
