(* ===== verification/Listener.v ===== *)
(** * A listening socket: linkage/listener.cpp

    [Listener] waits for connections on a descriptor, in one or more workers,
    and makes a linkage of each.  What it makes linkages of, and the table of
    open descriptors, belong to its host: interface [Acceptor].  The answers
    of the kernel to [accept] and to the calls that prepare the new descriptor
    are inputs. *)

From S2P Require Import Prelude StateMonad AbstractIo Sockets LinkageWorker.

Definition ENOMEM : Z := 12.
Definition ENFILE : Z := 23.
Definition EMFILE : Z := 24.
Definition ECONNABORTED : Z := 103.

(** [_listener] is the descriptor of the listening [Interface]; [_workers] the
    workers, by their number. *)
Record Listener : Type := mkListener {
  _listener : Z;
  _workers : gset Z
}.

Definition Listener_new (fd : Z) : Listener := mkListener fd ∅.

(** LinkageBase::DoAttach and DoDetach call the worker; [me] is the address of
    the listener.  A null worker is [None]. *)
Definition Attach (me : Z) (worker : option (Z * LinkageWorker)) (l : Listener)
  : bool * Listener * option (Z * LinkageWorker) :=
  match worker with
  | None => (false, l, None)
  | Some (k, w) =>
      if decide (k ∈ _workers l) then (true, l, worker)
      else
        let '(w, ok) := LinkageWorker.Attach (Some me) (_listener l) true false false w in
        if negb ok then (false, l, Some (k, w))
        else (true, mkListener (_listener l) ({[ k ]} ∪ _workers l), Some (k, w))
  end.

Definition Detach (me : Z) (worker : option (Z * LinkageWorker)) (l : Listener)
  : bool * Listener * option (Z * LinkageWorker) :=
  match worker with
  | None => (false, l, None)
  | Some (k, w) =>
      if decide (k ∈ _workers l) then
        let '(w, ok) := LinkageWorker.Detach (Some me) w in
        if negb ok then (false, l, Some (k, w))
        else (true, mkListener (_listener l) (_workers l ∖ {[ k ]}), Some (k, w))
      else (true, l, worker)
  end.

(** [Disconnect]; [shut] is what [_listener.Shutdown()] returns. *)
Definition Disconnect (me : Z) (shut : bool) (l : Listener) (ws : gmap Z LinkageWorker)
  : Z * gmap Z LinkageWorker :=
  let ws := map_imap (fun k w => Some (if decide (k ∈ _workers l)
              then (LinkageWorker.SetWannaRead me false w).1 else w)) ws in
  (if negb shut then -1 else 0, ws).

Definition Shutdown (shut : bool) : Z := if negb shut then -1 else 0.

(** The callbacks that make no sense for a listener. *)
Definition GetMessageLength (buffer : bytes) : Z := -1.
Definition OnMessage (buffer : bytes) : Z := -1.
Definition OnReceived (buffer : bytes) : Z := -1.
Definition OnWritable (worker : Z) : Z := -1.
Definition OnConnected : bool := true.
Definition Cleanup (now : Z) : bool := true.

(** ** Accepting *)

(** What the kernel answers: [accept] fails, or gives a descriptor; then the
    names of the two ends can be read or not, and the descriptor be prepared
    or not. *)
Inductive accept_answer : Type :=
| AcceptError (errno : Z)
| AcceptFd (named prepared : bool).

(** The host.  [host_CreateLinkage worker fd] is null when it refuses. *)
Class Acceptor (S : Type) := {
  host_open : ST S Z;
  host_close : Z -> ST S unit;
  host_CreateLinkage : Z -> Z -> ST S (option Z);
  host_Attach : Z -> Z -> ST S bool;
  host_delete : Z -> ST S unit
}.

Section Accept.
Context {S : Type} {AC : Acceptor S}.

(** Interface::Accept with DoAccept: the value returned, [errno] and the
    descriptor of the peer. *)
Definition Accept (a : accept_answer) : ST S (Z * Z * Z) :=
  match a with
  | AcceptError e => ret (-1, e, -1)
  | AcceptFd named prepared =>
      let* fd := host_open in
      if negb named then host_close fd ;;; ret (1, 0, fd)
      else if negb prepared then host_close fd ;;; ret (1, 0, fd)
      else ret (0, 0, fd)
  end.

Definition OnReadable (worker : Z) (a : accept_answer) : ST S Z :=
  let* (r, errno, fd) := Accept a in
  if r <? 0 then
    if (errno =? EINTR) || (errno =? EAGAIN) || (errno =? EWOULDBLOCK)
       || (errno =? ECONNABORTED) then ret 1
    else if (errno =? ENFILE) || (errno =? EMFILE) then
      fail (runtime_error "Open file limit exceeded")
    else if errno =? ENOMEM then fail bad_alloc
    else fail (runtime_error "Failed to accept listening fd")
  else if 0 <? r then ret 1
  else
    let* linkage := host_CreateLinkage worker fd in
    match linkage with
    | None => host_close fd ;;; ret 1
    | Some l =>
        let* ok := host_Attach l worker in
        (if negb ok then host_delete l else ret tt) ;;;
        ret 1
    end.

End Accept.

(** ** Listening *)


(** [listen domain] is what Interface::Listen returns for that domain. *)
Definition Listen (domain : Z) (listen : Z -> bool) : bool :=
  if domain =? AF_UNSPEC then
    if listen AF_INET6 then true else listen AF_INET
  else listen domain.
