(* ===== verification/EasyServer.v ===== *)
(** * The server: linkage/easy_server.cpp, easy_handler.cpp

    [EasyServer] owns the I/O workers, the job workers and the channels.  Each
    I/O worker has an [IoContext]: three tables from channels to the live
    linkages, to the outgoing destinations and to their handlers.  A channel is
    a number that names its I/O context.  The state [world] is the server, the
    heap it allocates from, the open descriptors and the application.  A method
    is a program of the state monad; using or deleting a dead object, an index
    out of range and a division by zero are errors.  A critical section is one
    step of the model.  What the kernel answers and [rand()] are arguments.

    The linkages are known by an interface, [LinkageApi]; what the application
    does inside a callback is its own, but for the calls of the server that it
    makes, which are calls of the methods below.  [EasyContext]s are values:
    their reference counts are not modelled. *)

From S2P Require Import Prelude StateMonad AbstractIo Explode Sockets FixedThreadPool LinkageWorker Listener.

(** ** Constants and options *)

Record Configure : Type := mkConfigure {
  incoming_receive_timeout : Z;
  incoming_connect_timeout : Z;
  incoming_send_timeout : Z;
  incoming_idle_timeout : Z;
  outgoing_receive_timeout : Z;
  outgoing_connect_timeout : Z;
  outgoing_send_timeout : Z;
  outgoing_idle_timeout : Z;
  maximum_incoming_connections : Z
}.

Definition kDefaultConfigure : Configure :=
  mkConfigure 5000000000 5000000000 5000000000 60000000000
    5000000000 5000000000 5000000000 60000000000 50000.

Definition kInvalidChannel : Z := 0.
Definition kMaximumWorkers : Z := 16384.
Definition kMaximumSlots : Z := 128.

(** The options that the constructors below choose; nothing reads [tcp_cork],
    which [Interface::Option] leaves uninitialised. *)
Definition kListenOption : Option := wanting true true true (Option_new false).
Definition kStreamOption : Option := wanting true false true (Option_new false).

(** Factories, handlers and SSL contexts are known by their addresses. *)
Record ListenOption : Type := mkListenOption {
  listen_socket : Socket;
  listen_option : Option;
  accepted_option : Option;
  l_easy_factory : option Z;
  l_easy_handler : option Z;
  l_ssl : option Z
}.

Definition ListenOption_new : ListenOption :=
  mkListenOption (of_kind AF_INET6 SOCK_STREAM Socket_new) kListenOption kStreamOption None None None.

Record ConnectOption : Type := mkConnectOption {
  connect_socket : Socket;
  connect_option : Option;
  c_easy_factory : option Z;
  c_easy_handler : option Z;
  c_ssl : option Z;
  c_thread_id : Z
}.

Definition ConnectOption_new : ConnectOption :=
  mkConnectOption (of_kind AF_INET6 SOCK_STREAM Socket_new) kStreamOption None None None (-1).

(** ** Objects *)

Record ProxyHandler : Type := mkProxyHandler {
  ph_accepted_option : Option;
  ssl : option Z;
  easy_handler : option Z;
  easy_factory : option Z
}.

Record OutgoingInformation : Type := mkOutgoing {
  proxy_handler : Z;
  socket : Socket;
  socket_option : Option;
  o_thread_id : Z
}.

Record EasyContext : Type := mkContext {
  ctx_handler : option Z;
  auto_release_handler : bool;
  channel : Z;
  peer_fd : Z;
  io_thread_id : Z
}.

(** [ProxyLinkage]: [base] is the [Linkage] it derives from, [pl_fd] the
    descriptor its engine owns. *)
Record ProxyLinkage (L : Type) : Type := mkProxyLinkage {
  context : EasyContext;
  pl_handler : Z;
  pl_fd : Z;
  base : L
}.
Arguments mkProxyLinkage {L}.
Arguments context {L}.
Arguments pl_handler {L}.
Arguments pl_fd {L}.
Arguments base {L}.

(** The [Runnable]s: JobWorker::Job, the three jobs of the I/O workers, and
    those of the application. *)
Inductive Job : Type :=
| MessageJob (c : EasyContext) (message : bytes)
| RegisterTimerJob (worker : Z) (after repeat : Z) (timer : Z)
| DisconnectJob (c : Z) (finish_write : bool)
| SendJob (worker : Z) (c : Z) (buffer : option bytes)
| UserJob (r : Z).

(** Pointers: a linkage, an [OutgoingInformation], a [ProxyHandler]. *)
Record IoContext : Type := mkIoContext {
  _outgoing_informations : gmap Z Z;
  _connect_proxy_handlers : gmap Z Z;
  _channel_linkages : gmap Z Z;
  _thread_id : Z;
  _channel : Z
}.

Definition IoContext_new (thread_id : Z) : IoContext := mkIoContext ∅ ∅ ∅ thread_id thread_id.

Definition with_outgoing v c :=
  mkIoContext v (_connect_proxy_handlers c) (_channel_linkages c) (_thread_id c) (_channel c).
Definition with_connect v c :=
  mkIoContext (_outgoing_informations c) v (_channel_linkages c) (_thread_id c) (_channel c).
Definition with_linkages v c :=
  mkIoContext (_outgoing_informations c) (_connect_proxy_handlers c) v (_thread_id c) (_channel c).
Definition with_channel v c :=
  mkIoContext (_outgoing_informations c) (_connect_proxy_handlers c) (_channel_linkages c) (_thread_id c) v.

(** [running] is what [running_thread_id()] returns; 0 when the loop does not run. *)
Record ProxyLinkageWorker : Type := mkIoWorker {
  worker : LinkageWorker;
  w_affinities : list Z;
  w_thread_id : Z;
  running : Z
}.

Definition with_worker v (w : ProxyLinkageWorker) : ProxyLinkageWorker :=
  mkIoWorker v (w_affinities w) (w_thread_id w) (running w).
Definition with_running v (w : ProxyLinkageWorker) : ProxyLinkageWorker :=
  mkIoWorker (worker w) (w_affinities w) (w_thread_id w) v.

Record JobWorker : Type := mkJobWorker { j_id : Z; j_affinities : list Z }.

Record ProxyListener : Type := mkProxyListener { l_base : Listener; l_proxy_handler : Z }.

(** ** What the server uses *)

(** Linkages, with a state of type [L].  [l_new ssl client connecting fd] is the
    linkage with its engine.  [l_fresh] is a linkage that was not attached,
    [l_live] one that is, between two of its methods. *)
Class LinkageApi (L : Type) := {
  l_new : bool -> bool -> bool -> Z -> L;
  l_set_timeouts : Z -> Z -> Z -> Z -> L -> L;
  l_worker : L -> option Z;
  l_Attach : Z -> L -> result exn (bool * L);
  l_Send : bytes -> L -> result exn (bool * L);
  l_Disconnect : bool -> L -> result exn (Z * L);

  l_fresh : L -> Prop;
  l_live : L -> Prop;
  l_new_fresh : forall s c k fd, l_fresh (l_new s c k fd);
  l_set_timeouts_fresh : forall r c s i l, l_fresh l -> l_fresh (l_set_timeouts r c s i l);
  l_set_timeouts_live : forall r c s i l, l_live l ->
    l_live (l_set_timeouts r c s i l) /\ l_worker (l_set_timeouts r c s i l) = l_worker l;
  l_Attach_ok : forall w l, l_fresh l -> exists ok l', l_Attach w l = Ok (ok, l') /\
    (ok = true -> l_live l' /\ l_worker l' = Some w);
  l_Send_ok : forall b l, l_live l -> exists r l', l_Send b l = Ok (r, l') /\
    l_live l' /\ l_worker l' = l_worker l;
  l_Disconnect_ok : forall f l, l_live l -> exists r l', l_Disconnect f l = Ok (r, l') /\
    l_live l' /\ l_worker l' = l_worker l
}.

(** The handlers, factories and runnables of the application, with a state of
    type [A]; the first argument is the address of the object. *)
Class EasyHandlers (A : Type) := {
  eh_GetMessageLength : Z -> EasyContext -> bytes -> A -> Z * A;
  eh_OnMessage : Z -> EasyContext -> bytes -> A -> Z * A;
  eh_HashMessage : Z -> EasyContext -> bytes -> A -> Z * A;
  eh_OnConnected : Z -> EasyContext -> A -> bool * A;
  eh_OnDisconnected : Z -> EasyContext -> A -> A;
  eh_OnError : Z -> EasyContext -> bool -> Z -> A -> A;
  eh_Cleanup : Z -> EasyContext -> Z -> A -> bool * A;
  ef_Create : Z -> A -> Z * A;
  a_errno : A -> Z;
  a_Run : Z -> A -> A
}.

(** The virtual functions that easy_handler.cpp defines; they only log. *)
Definition EasyHandler_HashMessage {A : Type} (a : A) : Z * A := (-1, a).
Definition EasyHandler_OnError {A : Type} (reading_or_writing : bool) (errnum : Z) (a : A) : A := a.
Definition EasyHandler_OnDisconnected {A : Type} (a : A) : A := a.
Definition EasyHandler_OnConnected {A : Type} (a : A) : bool * A := (true, a).
Definition EasyHandler_Cleanup {A : Type} (now : Z) (a : A) : bool * A := (true, a).

(** The result of Interface::Connect: [ret], and [errno] when it fails. *)
Record connect_answer : Type := mkConnectAnswer { c_ret : Z; c_errno : Z }.

(** ** The state *)

Record EasyServer : Type := mkEasyServer {
  _timers : list (Z * (Z * Z));
  _listen_proxy_handlers : list Z;
  _hashjobs : list (list (option Z));
  _io_workers : list ProxyLinkageWorker;
  _job_workers : list JobWorker;
  _listeners : list ProxyListener;
  _jobs : list (option Z);
  _pool : FixedThreadPool;
  _configure : Configure;
  _workers : Z;
  _slots : Z;
  _io_context : list IoContext;
  _incoming_connections : Z;
  _outgoing_connections : Z
}.

Definition EasyServer_new : EasyServer :=
  mkEasyServer [] [] [] [] [] [] [] FixedThreadPool_new kDefaultConfigure 0 0 [] 0 0.

Definition set_timers v s := mkEasyServer v (_listen_proxy_handlers s) (_hashjobs s) (_io_workers s) (_job_workers s) (_listeners s) (_jobs s) (_pool s) (_configure s) (_workers s) (_slots s) (_io_context s) (_incoming_connections s) (_outgoing_connections s).
Definition set_listen_proxy_handlers v s := mkEasyServer (_timers s) v (_hashjobs s) (_io_workers s) (_job_workers s) (_listeners s) (_jobs s) (_pool s) (_configure s) (_workers s) (_slots s) (_io_context s) (_incoming_connections s) (_outgoing_connections s).
Definition set_hashjobs v s := mkEasyServer (_timers s) (_listen_proxy_handlers s) v (_io_workers s) (_job_workers s) (_listeners s) (_jobs s) (_pool s) (_configure s) (_workers s) (_slots s) (_io_context s) (_incoming_connections s) (_outgoing_connections s).
Definition set_io_workers v s := mkEasyServer (_timers s) (_listen_proxy_handlers s) (_hashjobs s) v (_job_workers s) (_listeners s) (_jobs s) (_pool s) (_configure s) (_workers s) (_slots s) (_io_context s) (_incoming_connections s) (_outgoing_connections s).
Definition set_job_workers v s := mkEasyServer (_timers s) (_listen_proxy_handlers s) (_hashjobs s) (_io_workers s) v (_listeners s) (_jobs s) (_pool s) (_configure s) (_workers s) (_slots s) (_io_context s) (_incoming_connections s) (_outgoing_connections s).
Definition set_listeners v s := mkEasyServer (_timers s) (_listen_proxy_handlers s) (_hashjobs s) (_io_workers s) (_job_workers s) v (_jobs s) (_pool s) (_configure s) (_workers s) (_slots s) (_io_context s) (_incoming_connections s) (_outgoing_connections s).
Definition set_jobs v s := mkEasyServer (_timers s) (_listen_proxy_handlers s) (_hashjobs s) (_io_workers s) (_job_workers s) (_listeners s) v (_pool s) (_configure s) (_workers s) (_slots s) (_io_context s) (_incoming_connections s) (_outgoing_connections s).
Definition set_pool v s := mkEasyServer (_timers s) (_listen_proxy_handlers s) (_hashjobs s) (_io_workers s) (_job_workers s) (_listeners s) (_jobs s) v (_configure s) (_workers s) (_slots s) (_io_context s) (_incoming_connections s) (_outgoing_connections s).
Definition set_workers v s := mkEasyServer (_timers s) (_listen_proxy_handlers s) (_hashjobs s) (_io_workers s) (_job_workers s) (_listeners s) (_jobs s) (_pool s) (_configure s) v (_slots s) (_io_context s) (_incoming_connections s) (_outgoing_connections s).
Definition set_slots v s := mkEasyServer (_timers s) (_listen_proxy_handlers s) (_hashjobs s) (_io_workers s) (_job_workers s) (_listeners s) (_jobs s) (_pool s) (_configure s) (_workers s) v (_io_context s) (_incoming_connections s) (_outgoing_connections s).
Definition set_io_context v s := mkEasyServer (_timers s) (_listen_proxy_handlers s) (_hashjobs s) (_io_workers s) (_job_workers s) (_listeners s) (_jobs s) (_pool s) (_configure s) (_workers s) (_slots s) v (_incoming_connections s) (_outgoing_connections s).
Definition set_incoming_connections v s := mkEasyServer (_timers s) (_listen_proxy_handlers s) (_hashjobs s) (_io_workers s) (_job_workers s) (_listeners s) (_jobs s) (_pool s) (_configure s) (_workers s) (_slots s) (_io_context s) v (_outgoing_connections s).
Definition set_outgoing_connections v s := mkEasyServer (_timers s) (_listen_proxy_handlers s) (_hashjobs s) (_io_workers s) (_job_workers s) (_listeners s) (_jobs s) (_pool s) (_configure s) (_workers s) (_slots s) (_io_context s) (_incoming_connections s) v.

Section EasyServer.
Context {L A : Type} {LA : LinkageApi L} {EH : EasyHandlers A}.

(** The tables are the live objects, by address; addresses and descriptors
    are not used twice.  [deleted_timers] is a ghost log. *)
Record world : Type := mkWorld {
  sv : EasyServer;
  next : Z;
  handlers : gmap Z ProxyHandler;
  infos : gmap Z OutgoingInformation;
  linkages : gmap Z (ProxyLinkage L);
  jobs : gmap Z Job;
  fds : gmap Z unit;
  app : A;
  deleted_timers : list Z
}.

Definition put_sv v w := mkWorld v (next w) (handlers w) (infos w) (linkages w) (jobs w) (fds w) (app w) (deleted_timers w).
Definition put_next v w := mkWorld (sv w) v (handlers w) (infos w) (linkages w) (jobs w) (fds w) (app w) (deleted_timers w).
Definition put_handlers v w := mkWorld (sv w) (next w) v (infos w) (linkages w) (jobs w) (fds w) (app w) (deleted_timers w).
Definition put_infos v w := mkWorld (sv w) (next w) (handlers w) v (linkages w) (jobs w) (fds w) (app w) (deleted_timers w).
Definition put_linkages v w := mkWorld (sv w) (next w) (handlers w) (infos w) v (jobs w) (fds w) (app w) (deleted_timers w).
Definition put_jobs v w := mkWorld (sv w) (next w) (handlers w) (infos w) (linkages w) v (fds w) (app w) (deleted_timers w).
Definition put_fds v w := mkWorld (sv w) (next w) (handlers w) (infos w) (linkages w) (jobs w) v (app w) (deleted_timers w).
Definition put_app v w := mkWorld (sv w) (next w) (handlers w) (infos w) (linkages w) (jobs w) (fds w) v (deleted_timers w).
Definition put_deleted_timers v w := mkWorld (sv w) (next w) (handlers w) (infos w) (linkages w) (jobs w) (fds w) (app w) v.

Abbreviation M := (ST world).

Definition get {T : Type} (f : EasyServer -> T) : M T := gets (fun w => f (sv w)).
Definition set (f : EasyServer -> EasyServer) : M unit := modify (fun w => put_sv (f (sv w)) w).

(** A null pointer, an invalid iterator or an index out of range. *)
Definition the {T : Type} (o : option T) : M T :=
  match o with Some x => ret x | None => fail undefined_behaviour end.

(** The part of the heap that holds the objects of one type. *)
Record cell (T : Type) : Type := mkCell {
  cget : world -> gmap Z T;
  cput : gmap Z T -> world -> world
}.
Arguments mkCell {T}.
Arguments cget {T}.
Arguments cput {T}.

Definition Handlers : cell ProxyHandler := mkCell handlers put_handlers.
Definition Infos : cell OutgoingInformation := mkCell infos put_infos.
Definition Linkages : cell (ProxyLinkage L) := mkCell linkages put_linkages.
Definition Jobs : cell Job := mkCell jobs put_jobs.
Definition Fds : cell unit := mkCell fds put_fds.

(** [new], a use of a pointer, and [delete]; for [Fds], what opens a
    descriptor, and [close]. *)
Definition new_ {T : Type} (c : cell T) (x : T) : M Z :=
  let* p := gets next in
  modify (fun w => put_next (p + 1) (cput c (<[p := x]> (cget c w)) w)) ;;;
  ret p.
Definition load {T : Type} (c : cell T) (p : Z) : M T :=
  let* m := gets (cget c) in the (m !! p).
Definition store {T : Type} (c : cell T) (p : Z) (x : T) : M unit :=
  let* m := gets (cget c) in
  let* _ := the (m !! p) in
  modify (cput c (<[p := x]> m)).
Definition delete_ {T : Type} (c : cell T) (p : Z) : M unit :=
  let* m := gets (cget c) in
  let* _ := the (m !! p) in
  modify (cput c (delete p m)).

(** [insert] of an [unordered_map]: a key that is there stays. *)
Definition insert_new {T : Type} (k : Z) (x : T) (m : gmap Z T) : gmap Z T :=
  match m !! k with Some _ => m | None => <[k := x]> m end.

Definition app_call {T : Type} (f : A -> T * A) : M T :=
  fun w => let '(x, a) := f (app w) in Ok (x, put_app a w).
Definition app_do (f : A -> A) : M unit := modify (fun w => put_app (f (app w)) w).

(** ** Channels *)

Definition OUTGOING : Z := 2 ^ 63.

Definition IsOutgoingChannel (channel : Z) : bool := negb (Z.land channel OUTGOING =? 0).
Definition IsValidChannel (channel : Z) : bool := negb (channel =? kInvalidChannel).

Definition GetThreadId (channel : Z) : M Z :=
  let* slots := get _slots in
  if slots =? 0 then fail undefined_behaviour
  else ret (signed 32 (Z.land channel (OUTGOING - 1) mod slots)).

(** [_io_context[i]], with a negative index out of range. *)
Definition index {T : Type} (l : list T) (i : Z) : option T :=
  if i <? 0 then None else l !! Z.to_nat i.

Definition io_context (i : Z) : M IoContext := let* l := get _io_context in the (index l i).
Definition set_context (i : Z) (c : IoContext) : M unit :=
  set (fun s => set_io_context (<[Z.to_nat i := c]> (_io_context s)) s).

(** The index of the I/O context, none for the invalid channel. *)
Definition GetIoContext (channel : Z) : M (option Z) :=
  if negb (IsValidChannel channel) then ret None
  else
    let* i := GetThreadId channel in
    let* _ := io_context i in
    ret (Some i).

(** AllocateChannel(IoContext *, bool) *)
Definition AllocateChannel_number (ioc : Z) (incoming_or_outgoing : bool) : M Z :=
  let* c := io_context ioc in
  let* slots := get _slots in
  let c := with_channel (u64 (_channel c + slots)) c in
  set_context ioc c ;;;
  ret (if negb incoming_or_outgoing then Z.lor (_channel c) OUTGOING else _channel c).

(** ** Workers *)

Definition io_worker (i : Z) : M ProxyLinkageWorker := let* l := get _io_workers in the (index l i).
Definition set_worker (i : Z) (w : ProxyLinkageWorker) : M unit :=
  set (fun s => set_io_workers (<[Z.to_nat i := w]> (_io_workers s)) s).

Definition worker_SendCommand (i : Z) (job : option Z) : M bool :=
  let* w := io_worker i in
  let '(lw, r) := LinkageWorker.SendCommand job (worker w) in
  set_worker i (with_worker lw w) ;;;
  ret r.

(** The timers are released by the worker. *)
Definition worker_RegisterTimer (i after repeat timer : Z) : M bool :=
  let* w := io_worker i in
  let '(lw, r) := LinkageWorker.RegisterTimer after repeat (Some timer) true (worker w) in
  set_worker i (with_worker lw w) ;;;
  ret r.

(** The index of the worker; [rand] is what [rand()] returns. *)
Definition GetIoWorker (rand thread_id : Z) : M Z :=
  let* l := get _io_workers in
  let size := zlen l in
  let* r :=
    (if (thread_id <? 0) || (size <=? thread_id) then
       if signed 32 size =? 0 then fail undefined_behaviour else ret (Z.rem rand (signed 32 size))
     else ret thread_id) in
  let* _ := the (index l r) in
  ret r.

(** ** Jobs *)

Definition DoAppendJob (job : option Z) (hash : Z) : M unit :=
  if hash <? 0 then set (fun s => set_jobs (_jobs s ++ [job]) s)
  else
    let* h := get _hashjobs in
    assert (negb (zlen h =? 0)) ;;;
    let i := Z.to_nat (hash mod zlen h) in
    let* q := the (h !! i) in
    set (set_hashjobs (<[i := q ++ [job]]> h)).

(** [delete] of a [Runnable *] that may be null. *)
Definition delete_job (job : option Z) : M unit :=
  match job with None => ret tt | Some j => delete_ Jobs j end.

Fixpoint delete_jobs (q : list (option Z)) : M unit :=
  match q with
  | [] => ret tt
  | j :: q => delete_job j ;;; delete_jobs q
  end.

Definition DoDumpJobs : M unit :=
  let* q := get _jobs in
  delete_jobs q ;;;
  set (set_jobs []) ;;;
  let* h := get _hashjobs in
  delete_jobs (concat h) ;;;
  set (fun s => set_hashjobs (map (fun _ => []) (_hashjobs s)) s).

(** [None]: the thread waits for the condition. *)
Definition GetJob (id : Z) : M (option (option Z)) :=
  let* q := get _jobs in
  let* h := get _hashjobs in
  let* mine := the (index h id) in
  match mine, q with
  | [], [] => ret None
  | job :: mine, _ =>
      set (set_hashjobs (<[Z.to_nat id := mine]> h)) ;;; ret (Some job)
  | [], job :: q => set (set_jobs q) ;;; ret (Some job)
  end.

(** ** Handlers and engines *)

(** The handler and whether the context owns it. *)
Definition GetEasyHandler (proxy_handler : Z) : M (option Z * bool) :=
  let* h := load Handlers proxy_handler in
  match easy_factory h with
  | Some f => let* e := app_call (ef_Create f) in ret (Some e, true)
  | None => ret (easy_handler h, false)
  end.

(** GetAbstractIo, and the Linkage on it. *)
Definition GetAbstractIo (proxy_handler : Z) (fd : Z) (client_or_server socket_connecting : bool)
  : M L :=
  let* h := load Handlers proxy_handler in
  ret (l_new (match ssl h with Some _ => true | None => false end)
         client_or_server socket_connecting fd).

Definition handler_of (c : EasyContext) : M Z := the (ctx_handler c).

(** [h->OnError(...)] and [h->OnDisconnected(...)] *)
Definition call_OnError (c : EasyContext) (reading_or_writing : bool) (errnum : Z) : M unit :=
  let* h := handler_of c in app_do (eh_OnError h c reading_or_writing errnum).
Definition call_OnDisconnected (c : EasyContext) : M unit :=
  let* h := handler_of c in app_do (eh_OnDisconnected h c).

(** [delete linkage]: its engine closes its descriptor. *)
Definition delete_linkage (l : Z) : M unit :=
  let* p := load Linkages l in
  delete_ Fds (pl_fd p) ;;;
  delete_ Linkages l.

(** A method of the linkage. *)
Definition on_linkage {T : Type} (l : Z) (f : L -> result exn (T * L)) : M T :=
  let* p := load Linkages l in
  match f (base p) with
  | Err e => fail e
  | Ok (r, b) =>
      store Linkages l (mkProxyLinkage (context p) (pl_handler p) (pl_fd p) b) ;;; ret r
  end.
Definition set_timeouts (receive connect send idle : Z) (l : Z) : M unit :=
  on_linkage l (fun b => Ok (tt, l_set_timeouts receive connect send idle b)).

(** ** Channels, again *)

(** The end of AllocateChannel: the linkage of the accepted descriptor. *)
Definition AllocateChannel_linkage (i thread_id fd proxy_handler c : Z) : M (option Z) :=
  let* conf := get _configure in
  let* (h, auto) := GetEasyHandler proxy_handler in
  let ctx := mkContext h auto c fd thread_id in
  let* io := GetAbstractIo proxy_handler fd false false in
  let* l := new_ Linkages (mkProxyLinkage ctx proxy_handler fd io) in
  set_timeouts (incoming_receive_timeout conf) (incoming_connect_timeout conf)
    (incoming_send_timeout conf) (incoming_idle_timeout conf) l ;;;
  let* ioc := io_context i in
  set_context i (with_linkages (insert_new c l (_channel_linkages ioc)) ioc) ;;;
  ret (Some l).

(** AllocateChannel, for an accepted descriptor; [prepared] is whether
    Interface::Accepted prepares it. *)
Definition AllocateChannel (w : Z) (fd : Z) (proxy_handler : Z) (prepared : bool) : M (option Z) :=
  let* lw := io_worker w in
  let i := w_thread_id lw in
  let* _ := io_context i in
  let* n := get _incoming_connections in
  let inconn := u64 (n + 1) in
  set (set_incoming_connections inconn) ;;;
  let* conf := get _configure in
  if maximum_incoming_connections conf <=? inconn then
    let* n := get _incoming_connections in
    set (set_incoming_connections (u64 (n - 1))) ;;;
    ret None
  else
    let* c := AllocateChannel_number i true in
    if negb prepared then
      let* n := get _incoming_connections in
      set (set_incoming_connections (u64 (n - 1))) ;;;
      ret None
    else
      AllocateChannel_linkage i (w_thread_id lw) fd proxy_handler c.

(** [delete] of the handler of an outgoing channel, with its entry. *)
Definition erase_connect (i c p : Z) : M unit :=
  delete_ Handlers p ;;;
  let* ioc := io_context i in
  set_context i (with_connect (delete c (_connect_proxy_handlers ioc)) ioc).

Definition ReleaseChannel (c : Z) : M unit :=
  let* r := GetIoContext c in
  match r with
  | None => ret tt
  | Some i =>
      let* ioc := io_context i in
      set_context i (with_linkages (delete c (_channel_linkages ioc)) ioc) ;;;
      if negb (IsOutgoingChannel c) then
        let* n := get _incoming_connections in
        set (set_incoming_connections (u64 (n - 1)))
      else
        let* n := get _outgoing_connections in
        set (set_outgoing_connections (u64 (n - 1))) ;;;
        match _outgoing_informations ioc !! c with
        | Some _ => ret tt
        | None =>
            match _connect_proxy_handlers ioc !! c with
            | None => fail assertion_failed
            | Some p => erase_connect i c p
            end
        end
  end.

Definition Forget (c : Z) : M unit :=
  let* r := GetIoContext c in
  match r with
  | None => ret tt
  | Some i =>
      let* ioc := io_context i in
      (match _outgoing_informations ioc !! c with
       | Some p =>
           delete_ Infos p ;;;
           set_context i (with_outgoing (delete c (_outgoing_informations ioc)) ioc)
       | None => ret tt
       end) ;;;
      let* ioc := io_context i in
      match _channel_linkages ioc !! c with
      | Some _ => ret tt
      | None =>
          match _connect_proxy_handlers ioc !! c with
          | None => ret tt
          | Some p => erase_connect i c p
          end
      end
  end.

Definition Forget_context (c : EasyContext) : M unit := Forget (channel c).

(** ** Connecting *)

(** DoReconnect; [conn] is what Interface::Connect answers: it leaves no
    descriptor behind when it fails. *)
Definition DoReconnect (worker c : Z) (info : OutgoingInformation) (conn : connect_answer)
  : M (option Z) :=
  let* r := GetIoContext c in
  match r with
  | None => fail assertion_failed
  | Some i =>
      let* (h, auto) := GetEasyHandler (proxy_handler info) in
      let* lw := io_worker worker in
      if c_ret conn <? 0 then
        let ctx := mkContext h auto c (-1) (w_thread_id lw) in
        call_OnError ctx false (c_errno conn) ;;;
        call_OnDisconnected ctx ;;;
        ret None
      else
        let* fd := new_ Fds tt in
        let ctx := mkContext h auto c fd (w_thread_id lw) in
        let* io := GetAbstractIo (proxy_handler info) fd true (0 <? c_ret conn) in
        let* l := new_ Linkages (mkProxyLinkage ctx (proxy_handler info) fd io) in
        let* ok := on_linkage l (l_Attach worker) in
        if negb ok then
          let* a := gets app in
          call_OnError ctx false (a_errno a) ;;;
          delete_linkage l ;;;
          ret None
        else
          let* conf := get _configure in
          set_timeouts (outgoing_receive_timeout conf) (outgoing_receive_timeout conf)
            (outgoing_send_timeout conf) (outgoing_idle_timeout conf) l ;;;
          let* ioc := io_context i in
          set_context i (with_linkages (insert_new c l (_channel_linkages ioc)) ioc) ;;;
          let* n := get _outgoing_connections in
          set (set_outgoing_connections (u64 (n + 1))) ;;;
          ret (Some l)
  end.

(** [rand] is what [rand()] returns, for a thread that is not named. *)
Definition Connect (rand : Z) (o : ConnectOption) : M Z :=
  if Bool.eqb (bool_decide (is_Some (c_easy_handler o))) (bool_decide (is_Some (c_easy_factory o)))
  then ret kInvalidChannel
  else
    let* l := get _io_workers in
    if zlen l =? 0 then fail (logic_error "EasyServer only connects after Initialize()")
    else
      let thread_id :=
        if (c_thread_id o <? 0) || (zlen l <=? c_thread_id o)
        then Z.rem rand (signed 32 (zlen l)) else c_thread_id o in
      let* _ := io_context thread_id in
      let* ph := new_ Handlers (mkProxyHandler (Option_new false) (c_ssl o) (c_easy_handler o) (c_easy_factory o)) in
      let* info := new_ Infos (mkOutgoing ph (connect_socket o) (connect_option o) thread_id) in
      let* c := AllocateChannel_number thread_id false in
      let* ioc := io_context thread_id in
      set_context thread_id
        (with_outgoing (insert_new c info (_outgoing_informations ioc))
           (with_connect (insert_new c ph (_connect_proxy_handlers ioc)) ioc)) ;;;
      ret c.

Definition ConnectTcp4_option (host : bytes) (port : Z) (handler factory ssl : option Z)
  (thread_id : Z) : ConnectOption :=
  mkConnectOption (of_kind AF_INET SOCK_STREAM (towards (Some host) port Socket_new))
    kStreamOption factory handler ssl thread_id.

Definition ConnectTcp4 (rand : Z) (host : bytes) (port : Z) (easy_handler : option Z)
  (thread_id : Z) : M Z :=
  match easy_handler with
  | None => ret kInvalidChannel
  | Some _ => Connect rand (ConnectTcp4_option host port easy_handler None None thread_id)
  end.

Definition SslConnectTcp4 (rand : Z) (host : bytes) (port : Z) (ssl easy_handler : option Z)
  (thread_id : Z) : M Z :=
  match ssl, easy_handler with
  | None, _ | _, None => ret kInvalidChannel
  | Some _, Some _ => Connect rand (ConnectTcp4_option host port easy_handler None ssl thread_id)
  end.

Definition ConnectTcp4_factory (rand : Z) (host : bytes) (port : Z) (easy_factory : option Z)
  (thread_id : Z) : M Z :=
  match easy_factory with
  | None => ret kInvalidChannel
  | Some _ => Connect rand (ConnectTcp4_option host port None easy_factory None thread_id)
  end.

Definition SslConnectTcp4_factory (rand : Z) (host : bytes) (port : Z) (ssl easy_factory : option Z)
  (thread_id : Z) : M Z :=
  match ssl, easy_factory with
  | None, _ | _, None => ret kInvalidChannel
  | Some _, Some _ => Connect rand (ConnectTcp4_option host port None easy_factory ssl thread_id)
  end.

(** ** Sending and disconnecting *)

(** [tid] is the calling thread. *)
Definition Disconnect (tid c : Z) (finish_write : bool) : M bool :=
  let* r := GetIoContext c in
  match r with
  | None => ret true
  | Some i =>
      let* ioc := io_context i in
      match _channel_linkages ioc !! c with
      | None => ret true
      | Some l =>
          let* p := load Linkages l in
          let* w := the (l_worker (base p)) in
          let* lw := io_worker w in
          if (0 <? tid) && (tid =? running lw) then
            let* r := on_linkage l (l_Disconnect finish_write) in
            ret (0 <=? r)
          else
            let* job := new_ Jobs (DisconnectJob c finish_write) in
            worker_SendCommand w (Some job)
      end
  end.

Definition Disconnect_context (tid : Z) (c : EasyContext) (finish_write : bool) : M bool :=
  Disconnect tid (channel c) finish_write.

Definition DoRealDisconnect (c : Z) (finish_write : bool) : M unit :=
  let* r := GetIoContext c in
  match r with
  | None => ret tt
  | Some i =>
      let* ioc := io_context i in
      match _channel_linkages ioc !! c with
      | None => ret tt
      | Some l => let* _ := on_linkage l (l_Disconnect finish_write) in ret tt
      end
  end.

(** The linkage of an outgoing channel that is in the table of destinations,
    made by [k], if any. *)
Definition destination {T : Type} (ioc : IoContext) (c : Z) (none : M T)
  (k : OutgoingInformation -> M T) : M T :=
  if IsOutgoingChannel c then
    match _outgoing_informations ioc !! c with
    | Some p => let* info := load Infos p in k info
    | None => none
    end
  else none.

(** A null buffer is [None]. *)
Definition DoRealSend (worker c : Z) (buffer : option bytes) (conn : connect_answer) : M unit :=
  let* r := GetIoContext c in
  match r with
  | None => ret tt
  | Some i =>
      let* ioc := io_context i in
      let* linkage :=
        match _channel_linkages ioc !! c with
        | Some l => ret (Some l)
        | None => destination ioc c (ret None) (fun info => DoReconnect worker c info conn)
        end in
      match linkage, buffer with
      | Some l, Some b =>
          let* sent := on_linkage l (l_Send b) in
          if negb sent then
            let* p := load Linkages l in
            call_OnError (context p) false ENOMEM ;;;
            let* _ := on_linkage l (l_Disconnect false) in
            ret tt
          else ret tt
      | _, _ => ret tt
      end
  end.

Definition empty_buffer (buffer : option bytes) : bool :=
  match buffer with None => true | Some b => zlen b =? 0 end.

(** The constructor of [SendJob]. *)
Definition SendJob_new (worker c : Z) (buffer : option bytes) : Job :=
  SendJob worker c (if empty_buffer buffer then None else buffer).

Definition Send_command (worker c : Z) (buffer : option bytes) : M bool :=
  let* job := new_ Jobs (SendJob_new worker c buffer) in
  worker_SendCommand worker (Some job).

Definition Send (rand tid c : Z) (buffer : option bytes) (conn : connect_answer) : M bool :=
  let* r := GetIoContext c in
  match r with
  | None => ret false
  | Some i =>
      let* ioc := io_context i in
      match _channel_linkages ioc !! c with
      | Some l =>
          match buffer with
          | None => ret true
          | Some b =>
              if zlen b =? 0 then ret true
              else
                let* p := load Linkages l in
                let* w := the (l_worker (base p)) in
                let* lw := io_worker w in
                if (0 <? tid) && (tid =? running lw) then on_linkage l (l_Send b)
                else Send_command w c buffer
          end
      | None =>
          destination ioc c (ret true) (fun info =>
            let* w := GetIoWorker rand (o_thread_id info) in
            let* lw := io_worker w in
            if (0 <? tid) && (tid =? running lw) then
              let* linkage := DoReconnect w c info conn in
              match linkage, buffer with
              | None, _ => ret false
              | Some _, None => ret true
              | Some l, Some b => if zlen b =? 0 then ret true else on_linkage l (l_Send b)
              end
            else Send_command w c buffer)
      end
  end.

Definition Send_context (rand tid : Z) (c : EasyContext) (buffer : option bytes)
  (conn : connect_answer) : M bool := Send rand tid (channel c) buffer conn.

(** ** Callbacks of a linkage: [ProxyHandler] *)

Definition ProxyHandler_GetMessageLength (l : Z) (buffer : bytes) : M Z :=
  let* p := load Linkages l in
  let* h := handler_of (context p) in
  app_call (eh_GetMessageLength h (context p) buffer).

Definition ProxyHandler_OnMessage (l : Z) (buffer : bytes) : M Z :=
  let* p := load Linkages l in
  let* workers := get _workers in
  let* h := handler_of (context p) in
  if negb (workers =? 0) then
    let* job := new_ Jobs (MessageJob (context p) buffer) in
    let* hash := app_call (eh_HashMessage h (context p) buffer) in
    DoAppendJob (Some job) hash ;;;
    ret 1
  else app_call (eh_OnMessage h (context p) buffer).

Definition ProxyHandler_OnDisconnected (l : Z) : M unit :=
  let* p := load Linkages l in
  call_OnDisconnected (context p) ;;;
  ReleaseChannel (channel (context p)).

Definition ProxyHandler_OnConnected (l : Z) : M bool :=
  let* p := load Linkages l in
  let* h := handler_of (context p) in
  app_call (eh_OnConnected h (context p)).

Definition ProxyHandler_OnError (l : Z) (reading_or_writing : bool) (errnum : Z) : M unit :=
  let* p := load Linkages l in call_OnError (context p) reading_or_writing errnum.

Definition ProxyHandler_Cleanup (l : Z) (now : Z) : M bool :=
  let* p := load Linkages l in
  let* h := handler_of (context p) in
  app_call (eh_Cleanup h (context p) now).

(** What a worker does with a linkage it is done with: the end of
    LinkageWorker::DoRelease. *)
Definition Release (l : Z) : M unit := ProxyHandler_OnDisconnected l ;;; delete_linkage l.

(** ** Running jobs *)

(** JobWorker::Job::Run *)
Definition MessageJob_Run (tid : Z) (c : EasyContext) (message : bytes) : M bool :=
  let* h := handler_of c in
  let* r := app_call (eh_OnMessage h c message) in
  (if r <? 0 then
     let* a := gets app in
     call_OnError c true (a_errno a) ;;;
     let* _ := Disconnect tid (channel c) false in ret tt
   else if r =? 0 then
     let* _ := Disconnect tid (channel c) true in ret tt
   else ret tt) ;;;
  ret true.

Definition Job_Run (tid : Z) (conn : connect_answer) (j : Job) : M bool :=
  match j with
  | MessageJob c m => MessageJob_Run tid c m
  | RegisterTimerJob w after repeat timer =>
      let* _ := worker_RegisterTimer w after repeat timer in ret true
  | DisconnectJob c finish_write => DoRealDisconnect c finish_write ;;; ret true
  | SendJob w c buffer => DoRealSend w c buffer conn ;;; ret true
  | UserJob r => app_do (a_Run r) ;;; ret true
  end.

(** [job->Run(); delete job;] *)
Definition run_and_delete (tid : Z) (conn : connect_answer) (job : Z) : M unit :=
  let* j := load Jobs job in
  let* _ := Job_Run tid conn j in
  delete_ Jobs job.

(** One turn of the loop of JobWorker::Run: [None] when the thread waits,
    [Some false] when it leaves the loop. *)
Definition JobWorker_Run_once (tid id : Z) (conn : connect_answer) : M (option bool) :=
  let* job := GetJob id in
  match job with
  | None => ret None
  | Some None => ret (Some false)
  | Some (Some j) => run_and_delete tid conn j ;;; ret (Some true)
  end.

(** LinkageWorker::OnCommand takes the whole batch; it deletes the jobs of a
    batch when all have run. *)
Definition IoWorker_commands (i : Z) : M (list (option Z)) :=
  let* w := io_worker i in
  set_worker i (with_worker (LinkageWorker.set_commands [] (worker w)) w) ;;;
  ret (_commands (worker w)).

Definition QueueOrExecuteJob (tid : Z) (job : option Z) (id : Z) : M unit :=
  match job with
  | None => ret tt
  | Some j =>
      let* workers := get _workers in
      if negb (workers =? 0) then DoAppendJob job id
      else run_and_delete tid (mkConnectAnswer (-1) 0) j
  end.

Definition QueueIo (job : option Z) (thread_id : Z) : M bool :=
  match job with
  | None => ret true
  | Some _ => worker_SendCommand thread_id job
  end.

(** A null timer is [None]. *)
Definition RegisterTimer (rand tid after repeat : Z) (timer : option Z) : M bool :=
  match timer with
  | None => ret false
  | Some t =>
      if (after <? 0) || (repeat <=? 0) then ret false
      else
        let* l := get _io_workers in
        if zlen l =? 0 then
          set (fun s => set_timers (_timers s ++ [(t, (after, repeat))]) s) ;;; ret true
        else
          let* w := GetIoWorker rand (-1) in
          let* lw := io_worker w in
          if (0 <? tid) && (tid =? running lw) then
            let* ok := worker_RegisterTimer w after repeat t in
            ret (if negb ok then false else true)
          else
            let* job := new_ Jobs (RegisterTimerJob w after repeat t) in
            worker_SendCommand w (Some job)
  end.

Definition RegisterTimer_interval (rand tid interval : Z) (timer : option Z) : M bool :=
  RegisterTimer rand tid interval interval timer.

(** ** Listening *)

(** [listens] is what Listener::Listen returns; then the listener owns a new
    descriptor. *)
Definition Listen (o : ListenOption) (listens : bool) : M bool :=
  if Bool.eqb (bool_decide (is_Some (l_easy_handler o))) (bool_decide (is_Some (l_easy_factory o)))
  then ret false
  else if negb (type_ (listen_socket o) =? SOCK_STREAM) then ret false
  else
    let* ph := new_ Handlers (mkProxyHandler (accepted_option o) (l_ssl o) (l_easy_handler o)
                                       (l_easy_factory o)) in
    if negb listens then delete_ Handlers ph ;;; ret false
    else
      let* fd := new_ Fds tt in
      let* l := get _io_workers in
      if negb (zlen l =? 0) then
        delete_ Fds fd ;;;
        delete_ Handlers ph ;;;
        fail (logic_error "EasyServer only listens before Initialize()")
      else
        set (fun s => set_listen_proxy_handlers (_listen_proxy_handlers s ++ [ph]) s) ;;;
        set (fun s => set_listeners (_listeners s ++ [mkProxyListener (Listener_new fd) ph]) s) ;;;
        ret true.

Definition Listen_option (port : Z) (handler factory ssl : option Z) : ListenOption :=
  mkListenOption (of_kind AF_INET SOCK_STREAM (bound_to None port Socket_new))
    kListenOption kStreamOption factory handler ssl.

Definition Listen_port (port : Z) (easy_handler : option Z) (listens : bool) : M bool :=
  match easy_handler with
  | None => ret false
  | Some _ => Listen (Listen_option port easy_handler None None) listens
  end.

Definition SslListen (port : Z) (ssl easy_handler : option Z) (listens : bool) : M bool :=
  match ssl, easy_handler with
  | None, _ | _, None => ret false
  | Some _, Some _ => Listen (Listen_option port easy_handler None ssl) listens
  end.

Definition Listen_factory (port : Z) (easy_factory : option Z) (listens : bool) : M bool :=
  match easy_factory with
  | None => ret false
  | Some _ => Listen (Listen_option port None easy_factory None) listens
  end.

Definition SslListen_factory (port : Z) (ssl easy_factory : option Z) (listens : bool) : M bool :=
  match ssl, easy_factory with
  | None, _ | _, None => ret false
  | Some _, Some _ => Listen (Listen_option port None easy_factory ssl) listens
  end.

(** The loop of AttachListeners, on the worker [i]; the listeners before it
    are [done]. *)
Fixpoint AttachListeners_loop (i : Z) (done todo : list ProxyListener) : M bool :=
  match todo with
  | [] => ret true
  | p :: q =>
      let* w := io_worker i in
      let '(ok, l, lw) := Listener.Attach (_listener (l_base p)) (Some (i, worker w)) (l_base p) in
      let p := mkProxyListener l (l_proxy_handler p) in
      set (set_listeners (done ++ p :: q)) ;;;
      (match lw with
       | Some (_, lw) => set_worker i (with_worker lw w)
       | None => ret tt
       end) ;;;
      if negb ok then ret false else AttachListeners_loop i (done ++ [p]) q
  end.

Definition AttachListeners (i : Z) : M bool :=
  let* l := get _listeners in AttachListeners_loop i [] l.

(** ProxyListener::CreateLinkage, and what Listener::OnReadable needs of its
    host; [p] is the listener, [prepared] as in [AllocateChannel]. *)
Definition server_acceptor (p : ProxyListener) (prepared : bool) : Acceptor world := {|
  host_open := new_ Fds tt;
  host_close := delete_ Fds;
  host_CreateLinkage w fd := AllocateChannel w fd (l_proxy_handler p) prepared;
  host_Attach l w := on_linkage l (l_Attach w);
  host_delete := delete_linkage
|}.

(** The worker [w] finds that the listener number [n] is readable. *)
Definition OnReadable (n w : Z) (a : accept_answer) (prepared : bool) : M Z :=
  let* l := get _listeners in
  let* p := the (index l n) in
  @Listener.OnReadable world (server_acceptor p prepared) w a.

(** ** Shutting down *)

Fixpoint append_nulls (n : nat) (i : Z) : M unit :=
  match n with
  | O => ret tt
  | S n => DoAppendJob None i ;;; append_nulls n (i + 1)
  end.

(** DoShutdown, until it waits for the threads of the pool. *)
Definition DoShutdown_begin : M unit :=
  DoDumpJobs ;;;
  let* workers := get _workers in
  append_nulls (Z.to_nat workers) 0 ;;;
  set (fun s => set_io_workers
    (map (fun w => with_worker (LinkageWorker.Shutdown (worker w)).1 w) (_io_workers s)) s).

Fixpoint delete_all {T : Type} (c : cell T) (q : list Z) : M unit :=
  match q with
  | [] => ret tt
  | p :: q => delete_ c p ;;; delete_all c q
  end.

Definition delete_IoContext (c : IoContext) : M unit :=
  delete_all Handlers (map snd (map_to_list (_connect_proxy_handlers c))) ;;;
  delete_all Infos (map snd (map_to_list (_outgoing_informations c))).

Fixpoint delete_IoContexts (l : list IoContext) : M unit :=
  match l with
  | [] => ret tt
  | c :: l => delete_IoContext c ;;; delete_IoContexts l
  end.

(** DoShutdown, after [_pool->Shutdown()] returned. *)
Definition DoShutdown_end : M bool :=
  let* cs := get _io_context in
  delete_IoContexts cs ;;;
  let* hs := get _listen_proxy_handlers in
  delete_all Handlers hs ;;;
  let* ls := get _listeners in
  delete_all Fds (map (fun p => _listener (l_base p)) ls) ;;;
  let* ts := get _timers in
  modify (fun w => put_deleted_timers (deleted_timers w ++ map fst ts) w) ;;;
  DoDumpJobs ;;;
  set (fun s => mkEasyServer [] [] [] [] [] [] (_jobs s) (_pool s) (_configure s) 0 0 []
                  (_incoming_connections s) (_outgoing_connections s)) ;;;
  ret true.

(** The threads of the pool end in between; [threads] is what they do until
    then. *)
Definition DoShutdown (threads : M unit) : M bool :=
  DoShutdown_begin ;;;
  threads ;;;
  set (fun s => set_pool (Shutdown_end (Shutdown_begin true (_pool s)).2) s) ;;;
  DoShutdown_end.

Definition Shutdown (threads : M unit) : M bool := DoShutdown threads.

(** The destructor. *)
Definition EasyServer_delete (threads : M unit) : M unit := let* _ := Shutdown threads in ret tt.

(** ** Initialize *)

Definition pool_call {T : Type} (f : FixedThreadPool -> result exn (T * FixedThreadPool)) : M T :=
  let* p := get _pool in
  match f p with
  | Ok (r, p) => set (set_pool p) ;;; ret r
  | Err e => fail e
  end.

(** The loop that makes the I/O workers; [i] of them exist. *)
Fixpoint Initialize_io (threads : M unit) (i : Z) (as_ : list (list Z)) : M bool :=
  match as_ with
  | [] => ret true
  | a :: as_ =>
      set (fun s => set_io_workers (_io_workers s ++ [mkIoWorker LinkageWorker_new a i 0]) s) ;;;
      let* ok := AttachListeners i in
      if negb ok then let* _ := DoShutdown threads in ret false
      else Initialize_io threads (i + 1) as_
  end.

(** The loop on [_timers]; [rand] gives the values of [rand()]. *)
Fixpoint Initialize_timers (threads : M unit) (rand : list Z) (timers : list (Z * (Z * Z))) : M bool :=
  match timers with
  | [] => ret true
  | (t, (after, repeat)) :: q =>
      let* w := GetIoWorker (hd 0 rand) (-1) in
      let* ok := worker_RegisterTimer w after repeat t in
      if negb ok then let* _ := DoShutdown threads in ret false
      else
        set (set_timers q) ;;;
        Initialize_timers threads (tail rand) q
  end.

(** The loops of [AppendJob]; the runnables are numbered after one another. *)
Fixpoint Initialize_append (threads : M unit) (n : nat) (r : Z) : M bool :=
  match n with
  | O => ret true
  | S n =>
      let* ok := pool_call (AppendJob (Some r) true) in
      if negb ok then let* _ := DoShutdown threads in ret false
      else Initialize_append threads n (r + 1)
  end.

Fixpoint seqZ_ (n : nat) (i : Z) : list Z :=
  match n with O => [] | S n => i :: seqZ_ n (i + 1) end.

Definition lists_of (input : bytes) : M (Z * list (list Z)) :=
  match explode_lists input 256 with Ok r => ret r | Err e => fail e end.

Definition Initialize_main (threads : M unit) (rand : list Z) (as_ aw : list (list Z)) : M bool :=
  let* ok := pool_call (FixedThreadPool.Initialize (zlen as_ + zlen aw)) in
  if negb ok then ret false
  else
    set (set_workers (zlen aw)) ;;;
    set (set_slots (zlen as_)) ;;;
    let* ok := Initialize_io threads 0 as_ in
    if negb ok then ret false
    else
      let* ts := get _timers in
      let* ok := Initialize_timers threads rand ts in
      if negb ok then ret false
      else
        set (set_io_context (map IoContext_new (seqZ_ (length as_) 0))) ;;;
        set (set_job_workers (zip_with mkJobWorker (seqZ_ (length aw) 0) aw)) ;;;
        set (set_hashjobs (replicate (length aw) [])) ;;;
        let* ok := Initialize_append threads (length as_) 1 in
        if negb ok then ret false
        else Initialize_append threads (length aw) (zlen as_ + 1).

Definition Initialize (threads : M unit) (rand : list Z) (slots : bytes) (workers : option bytes)
  : M bool :=
  let* (r, as_) := lists_of slots in
  if negb (r =? 0) then ret false
  else
    let* (r, aw) := (match workers with None => ret (0, []) | Some w => lists_of w end) in
    if negb (r =? 0) || (zlen as_ =? 0) || (kMaximumSlots <? zlen as_)
       || (kMaximumWorkers <? zlen aw) then ret false
    else Initialize_main threads rand as_ aw.

(** The loops of the overload with counts: an empty delimiter, then ";". *)
Fixpoint Initialize_string (n : nat) (delim : bytes) : bytes :=
  match n with
  | O => []
  | S n => delim ++ Initialize_string n (B ";")
  end.

Definition Initialize_count (threads : M unit) (rand : list Z) (slots workers : Z) : M bool :=
  if (slots =? 0) || (kMaximumSlots <? slots) || (kMaximumWorkers <? workers) then ret false
  else
    Initialize threads rand (Initialize_string (Z.to_nat slots) [])
      (if negb (workers =? 0) then Some (Initialize_string (Z.to_nat workers) []) else None).

End EasyServer.
Arguments mkCell {L A T}.
Arguments cget {L A T}.
Arguments cput {L A T}.
