(* ===== verification/EasyServerInv.v ===== *)
(** * The invariant of the server

    [conn_inv] ties the tables of the I/O contexts to the heap: every pointer
    of a table is to a live object, every live object is in exactly one
    table, every descriptor that is open belongs to one linkage or listener,
    and the counters count.  [job_inv] says the same of the queues of jobs.
    Both are predicates on the parts of the state they speak of, so that a
    method that does not touch those parts keeps them by conversion.  The
    lemmas are the elementary changes the methods are made of. *)

From S2P Require Import Prelude StateMonad Listener LinkageWorker EasyServer.

(** ** Lists indexed by integers *)

Lemma index_lt {T} (l : list T) i x : index l i = Some x -> 0 <= i < zlen l.
Proof.
  unfold index, zlen. intros H. destruct (Z.ltb_spec i 0); [done|].
  apply lookup_lt_Some in H. lia.
Qed.

Lemma index_some {T} (l : list T) i : 0 <= i < zlen l -> exists x, index l i = Some x.
Proof.
  unfold index, zlen. intros H. rewrite (proj2 (Z.ltb_ge i 0)) by lia.
  apply lookup_lt_is_Some. lia.
Qed.

Lemma index_insert {T} (l : list T) i j x : 0 <= i < zlen l ->
  index (<[Z.to_nat i := x]> l) j = if decide (i = j) then Some x else index l j.
Proof.
  unfold index, zlen. intros H. case_decide as E; [subst|].
  - rewrite (proj2 (Z.ltb_ge j 0)) by lia. apply list_lookup_insert_eq. lia.
  - destruct (Z.ltb_spec j 0); [done|]. apply list_lookup_insert_ne. lia.
Qed.

Lemma index_insert_eq {T} (l : list T) i x y : index l i = Some y ->
  index (<[Z.to_nat i := x]> l) i = Some x.
Proof. intros H. rewrite index_insert by by eapply index_lt. by rewrite decide_True. Qed.

Lemma zlen_insert {T} (l : list T) n x : zlen (<[n := x]> l) = zlen l.
Proof. unfold zlen. by rewrite length_insert. Qed.

(** ** Channels *)

(** The channel of number [n]. *)
Definition channel_of (n : Z) (outgoing : bool) : Z := if outgoing then n + OUTGOING else n.

Lemma channel_of_split n b : 0 <= n < OUTGOING ->
  IsOutgoingChannel (channel_of n b) = b /\ Z.land (channel_of n b) (OUTGOING - 1) = n.
Proof.
  intros Hn. unfold IsOutgoingChannel, OUTGOING in *.
  change (2 ^ 63 - 1) with (Z.ones 63). rewrite !Z.land_ones by lia.
  assert (Z.land (channel_of n b) (2 ^ 63) = (channel_of n b / 2 ^ 63) mod 2 ^ 1 * 2 ^ 63) as ->.
  { apply Z.bits_inj'. intros k Hk. rewrite Z.land_spec, Z.pow2_bits_eqb by lia.
    rewrite <- Z.shiftl_mul_pow2, Z.shiftl_spec by lia. destruct (Z.eqb_spec 63 k) as [<-|E].
    - rewrite Z.sub_diag, Z.mod_pow2_bits_low, Z.div_pow2_bits by lia. apply andb_true_r.
    - rewrite andb_false_r. destruct (Z.lt_ge_cases (k - 63) 0).
      + by rewrite Z.testbit_neg_r by lia.
      + by rewrite Z.mod_pow2_bits_high by lia. }
  unfold channel_of, OUTGOING. change (2 ^ 1) with 2. destruct b.
  - replace (n + 2 ^ 63) with (n + 1 * 2 ^ 63) by lia.
    rewrite Z.div_add, Z.div_small by lia. split; [done|].
    rewrite Z.mod_add by lia. by apply Z.mod_small.
  - rewrite Z.div_small by lia. split; [done|]. by apply Z.mod_small.
Qed.

Lemma channel_of_lor n : 0 <= n < OUTGOING -> Z.lor n OUTGOING = channel_of n true.
Proof.
  intros Hn. assert (Z.land n OUTGOING = 0) as H0.
  { apply Z.bits_inj'. intros k Hk. rewrite Z.land_spec, Z.bits_0. unfold OUTGOING in *.
    rewrite Z.pow2_bits_eqb by lia. destruct (Z.eqb_spec 63 k) as [<-|E]; [|apply andb_false_r].
    rewrite <- (Z.mod_small n (2 ^ 63)), Z.mod_pow2_bits_high by lia. done. }
  unfold channel_of. rewrite Z.add_nocarry_lxor by done. by rewrite Z.lxor_lor.
Qed.

(** The keys of the tables of the context [i] when its last channel is [top]. *)
Definition valid_key (slots i top k : Z) : Prop :=
  exists n b, k = channel_of n b /\ 0 < n <= top /\ n mod slots = i.

Lemma valid_key_mono slots i top top' k :
  valid_key slots i top k -> top <= top' -> valid_key slots i top' k.
Proof. intros (n & b & ? & ? & ?) ?. exists n, b. split_and!; [done|lia|lia|done]. Qed.

Definition owner (slots k : Z) : Z := signed 32 (Z.land k (OUTGOING - 1) mod slots).

Lemma owner_range slots k : 0 < slots <= kMaximumSlots -> 0 <= owner slots k < slots.
Proof.
  unfold owner, signed, kMaximumSlots. intros H.
  pose proof (Z.mod_pos_bound (Z.land k (OUTGOING - 1)) slots).
  rewrite (Z.mod_small (_ mod slots)) by lia.
  rewrite (proj2 (Z.ltb_lt _ (2 ^ (32 - 1)))) by (simpl; lia). lia.
Qed.

Lemma valid_key_owner slots i top k : 0 < slots <= kMaximumSlots -> top < OUTGOING ->
  valid_key slots i top k -> owner slots k = i /\ IsValidChannel k = true.
Proof.
  intros Hs Ht (n & b & -> & Hn & <-). unfold owner.
  destruct (channel_of_split n b) as [_ ->]; [lia|]. split.
  - unfold signed, kMaximumSlots in *. pose proof (Z.mod_pos_bound n slots).
    rewrite (Z.mod_small (_ mod slots)) by lia.
    by rewrite (proj2 (Z.ltb_lt _ (2 ^ (32 - 1)))) by (simpl; lia).
  - unfold IsValidChannel, kInvalidChannel. apply negb_true_iff, Z.eqb_neq.
    unfold channel_of, OUTGOING in *. destruct b; lia.
Qed.

(** ** The tables of all the contexts, as one *)

(** The structure of the contexts: the keys of a context are its own. *)
Record ctx_inv (slots : Z) (ctxs : list IoContext) : Prop := {
  cx_slots : 0 < slots <= kMaximumSlots;
  cx_len : zlen ctxs = slots;
  cx_ctx : forall i c, index ctxs i = Some c ->
    _thread_id c = i /\ 0 <= _channel c < OUTGOING /\ _channel c mod slots = i;
  cx_keys : forall i c k, index ctxs i = Some c ->
    is_Some (_outgoing_informations c !! k) \/ is_Some (_connect_proxy_handlers c !! k) \/
      is_Some (_channel_linkages c !! k) ->
    valid_key slots i (_channel c) k
}.

Definition view (f : IoContext -> gmap Z Z) (slots : Z) (ctxs : list IoContext) (k : Z) : option Z :=
  match index ctxs (owner slots k) with Some c => f c !! k | None => None end.

(** A function changed at [k]. *)
Definition upd (f : Z -> option Z) (k : Z) (v : option Z) : Z -> option Z :=
  fun k' => if decide (k = k') then v else f k'.

Definition same (f g : Z -> option Z) : Prop := forall k, f k = g k.

#[export] Instance same_equivalence : Equivalence same.
Proof. split; [by intros ? ?|by intros ? ? H ?|intros ? ? ? H1 H2 k; by rewrite H1]. Qed.

Lemma upd_eq f k v : upd f k v k = v.
Proof. unfold upd. by rewrite decide_True. Qed.

Lemma upd_ne f k v k' : k <> k' -> upd f k v k' = f k'.
Proof. intros. unfold upd. by rewrite decide_False. Qed.

Lemma view_index f slots ctxs k c : index ctxs (owner slots k) = Some c ->
  view f slots ctxs k = f c !! k.
Proof. unfold view. by intros ->. Qed.

(** A context is replaced: what becomes of a table that does not change, or
    that changes at one of its own keys. *)
Lemma view_same f slots ctxs i c c' : index ctxs i = Some c -> f c' = f c ->
  same (view f slots (<[Z.to_nat i := c']> ctxs)) (view f slots ctxs).
Proof.
  intros Hi Hf k. unfold view. rewrite index_insert by apply (index_lt _ _ _ Hi).
  case_decide as E; [|done]. by rewrite <- E, Hi, Hf.
Qed.

Lemma view_upd f slots ctxs i c c' k v : index ctxs i = Some c -> owner slots k = i ->
  (forall k', f c' !! k' = if decide (k = k') then v else f c !! k') ->
  same (view f slots (<[Z.to_nat i := c']> ctxs)) (upd (view f slots ctxs) k v).
Proof.
  intros Hi Ho Hf k'. unfold view, upd. rewrite index_insert by apply (index_lt _ _ _ Hi).
  case_decide as E; rewrite ?Hf; case_decide as E'; subst; try done.
  by rewrite <- E, Hi.
Qed.

(** A context is replaced by one with the same identity, whose new keys are
    its own. *)
Lemma ctx_inv_set slots ctxs i c c' : ctx_inv slots ctxs -> index ctxs i = Some c ->
  _thread_id c' = _thread_id c -> _channel c <= _channel c' < OUTGOING ->
  _channel c' mod slots = i ->
  (forall k, is_Some (_outgoing_informations c' !! k) \/ is_Some (_connect_proxy_handlers c' !! k) \/
      is_Some (_channel_linkages c' !! k) ->
    is_Some (_outgoing_informations c !! k) \/ is_Some (_connect_proxy_handlers c !! k) \/
      is_Some (_channel_linkages c !! k) \/ valid_key slots i (_channel c') k) ->
  ctx_inv slots (<[Z.to_nat i := c']> ctxs).
Proof.
  intros [Hs Hlen Hc Hk] Hi Et Ec Em Hkeys. destruct (Hc _ _ Hi) as (Ht & ? & ?).
  assert (forall P : Z -> IoContext -> Prop, (forall j x, index ctxs j = Some x -> P j x) -> P i c' ->
    forall j x, index (<[Z.to_nat i := c']> ctxs) j = Some x -> P j x) as HP.
  { intros P H1 H2 j x. rewrite index_insert by apply (index_lt _ _ _ Hi).
    case_decide; [intros [= <-]; by subst|apply H1]. }
  constructor; [done|by rewrite zlen_insert|..].
  - apply HP; [done|]. split_and!; [congruence|lia|lia|done].
  - intros j x k Hj. revert j x Hj. apply (HP (fun j x => _ -> valid_key slots j (_channel x) k)).
    + intros j x. apply Hk.
    + intros HS. apply Hkeys in HS.
      assert (valid_key slots i (_channel c) k \/ valid_key slots i (_channel c') k) as [|]; [|
        by eapply valid_key_mono; [|apply Ec]|done].
      destruct HS as [HS|[HS|[HS|HS]]]; [left..|by right]; apply (Hk _ _ _ Hi); auto.
Qed.

Section Contexts.
Context (slots : Z) (ctxs : list IoContext) (HC : ctx_inv slots ctxs).

Lemma ctx_at k : exists c, index ctxs (owner slots k) = Some c.
Proof. apply index_some. destruct HC as [Hs -> _ _]. by apply owner_range. Qed.

Lemma ctx_entry i c k :
  index ctxs i = Some c ->
  is_Some (_outgoing_informations c !! k) \/ is_Some (_connect_proxy_handlers c !! k) \/
    is_Some (_channel_linkages c !! k) -> owner slots k = i.
Proof.
  intros Hi Hk. pose proof (cx_keys _ _ HC _ _ _ Hi Hk) as Hv.
  destruct (cx_ctx _ _ HC _ _ Hi) as (_ & ? & _).
  by apply (valid_key_owner _ _ _ _ (cx_slots _ _ HC)) in Hv as [Hv _]; [|lia].
Qed.

(** The next channel of a context. *)
Definition next_key (c : IoContext) (b : bool) : Z := channel_of (_channel c + slots) b.

Lemma next_key_valid i c b : index ctxs i = Some c -> _channel c + slots < OUTGOING ->
  valid_key slots i (_channel c + slots) (next_key c b).
Proof.
  intros Hi Hr. destruct (cx_ctx _ _ HC _ _ Hi) as (_ & ? & Hm). pose proof (cx_slots _ _ HC).
  exists (_channel c + slots), b. split_and!; [done|lia|lia|].
  rewrite <- Z.add_mod_idemp_r, Z.mod_same, Z.add_0_r by lia. done.
Qed.

Lemma next_key_owner i c b : index ctxs i = Some c -> _channel c + slots < OUTGOING ->
  owner slots (next_key c b) = i /\ IsOutgoingChannel (next_key c b) = b.
Proof.
  intros Hi Hr. destruct (cx_ctx _ _ HC _ _ Hi) as (_ & ? & _). pose proof (cx_slots _ _ HC).
  split.
  - eapply valid_key_owner; [apply HC|apply Hr|by apply next_key_valid].
  - apply channel_of_split. lia.
Qed.

Lemma next_key_fresh i c b : index ctxs i = Some c -> _channel c + slots < OUTGOING ->
  _outgoing_informations c !! next_key c b = None /\
  _connect_proxy_handlers c !! next_key c b = None /\
  _channel_linkages c !! next_key c b = None.
Proof.
  intros Hi Hr. destruct (cx_ctx _ _ HC _ _ Hi) as (_ & ? & _). pose proof (cx_slots _ _ HC).
  assert (~ valid_key slots i (_channel c) (next_key c b)) as Hno.
  { intros (n & b' & E & ? & _). unfold next_key in E.
    destruct (channel_of_split n b') as [_ E1]; [lia|].
    destruct (channel_of_split (_channel c + slots) b) as [_ E2]; [lia|]. rewrite E in E2. lia. }
  split_and!; apply eq_None_not_Some; intros HS; apply Hno, (cx_keys _ _ HC _ _ _ Hi); auto.
Qed.

Lemma ctx_bump i c : index ctxs i = Some c -> _channel c + slots < OUTGOING ->
  ctx_inv slots (<[Z.to_nat i := with_channel (_channel c + slots) c]> ctxs).
Proof.
  intros Hi Hr. destruct (cx_ctx _ _ HC _ _ Hi) as (_ & ? & Hm). pose proof (cx_slots _ _ HC).
  eapply ctx_inv_set; try done; cbn.
  - lia.
  - rewrite <- Z.add_mod_idemp_r, Z.mod_same, Z.add_0_r by lia. done.
  - intros k [?|[?|?]]; auto.
Qed.

(** Entries are erased. *)
Lemma ctx_erase i c o h l : index ctxs i = Some c ->
  o ⊆ _outgoing_informations c -> h ⊆ _connect_proxy_handlers c -> l ⊆ _channel_linkages c ->
  ctx_inv slots (<[Z.to_nat i := mkIoContext o h l (_thread_id c) (_channel c)]> ctxs).
Proof.
  intros Hi Ho Hh Hl. destruct (cx_ctx _ _ HC _ _ Hi) as (_ & ? & Hm).
  eapply ctx_inv_set; try done; cbn; [lia|].
  intros k [[x E]|[[x E]|[x E]]].
  - left. exists x. by eapply lookup_weaken.
  - right; left. exists x. by eapply lookup_weaken.
  - right; right; left. exists x. by eapply lookup_weaken.
Qed.

(** Entries are added, at a key of the context. *)
Lemma ctx_add i c c' k : index ctxs i = Some c -> valid_key slots i (_channel c) k ->
  _thread_id c' = _thread_id c -> _channel c' = _channel c ->
  (forall k', k' <> k -> _outgoing_informations c' !! k' = _outgoing_informations c !! k' /\
     _connect_proxy_handlers c' !! k' = _connect_proxy_handlers c !! k' /\
     _channel_linkages c' !! k' = _channel_linkages c !! k') ->
  ctx_inv slots (<[Z.to_nat i := c']> ctxs).
Proof.
  intros Hi Hk Et Ec Hkeys. destruct (cx_ctx _ _ HC _ _ Hi) as (_ & ? & Hm).
  eapply ctx_inv_set; try done; cbn; [lia|by rewrite Ec|].
  intros k' H'. destruct (decide (k' = k)) as [->|Hne]; [right; right; right; by rewrite Ec|].
  destruct (Hkeys _ Hne) as (E1 & E2 & E3). rewrite E1, E2, E3 in H'. tauto.
Qed.

End Contexts.

(** ** Ownership *)

Definition handler_ok (h : ProxyHandler) : Prop :=
  is_Some (easy_handler h) \/ is_Some (easy_factory h).

Section Ownership.
Context {L : Type} {LA : LinkageApi L}.

Definition of_kind (outgoing : bool) (x : Z * ProxyLinkage L) : Prop :=
  IsOutgoingChannel (channel (context x.2)) = outgoing.

#[export] Instance of_kind_dec b x : Decision (of_kind b x).
Proof. unfold of_kind. apply _. Defined.

Definition count (outgoing : bool) (ls : gmap Z (ProxyLinkage L)) : Z :=
  Z.of_nat (size (filter (of_kind outgoing) ls)).

Lemma count_insert b l pl (ls : gmap Z (ProxyLinkage L)) : ls !! l = None ->
  count b (<[l := pl]> ls) =
  count b ls + if Bool.eqb (IsOutgoingChannel (channel (context pl))) b then 1 else 0.
Proof.
  intros Hl. unfold count. destruct (Bool.eqb_spec (IsOutgoingChannel (channel (context pl))) b).
  - rewrite map_filter_insert_True by done.
    rewrite map_size_insert_None; [lia|]. by apply map_lookup_filter_None; left.
  - rewrite map_filter_insert_False by done. rewrite delete_id by done. lia.
Qed.

Lemma count_delete b l pl (ls : gmap Z (ProxyLinkage L)) : ls !! l = Some pl ->
  count b (delete l ls) =
  count b ls - if Bool.eqb (IsOutgoingChannel (channel (context pl))) b then 1 else 0.
Proof.
  intros Hl. rewrite <- (insert_delete_id ls l pl Hl) at 2.
  rewrite count_insert by apply lookup_delete_eq. lia.
Qed.

(** A linkage in service. *)
Definition in_service (slots : Z) (pl : ProxyLinkage L) : Prop :=
  l_live (base pl) /\ l_worker (base pl) = Some (owner slots (channel (context pl))) /\
  io_thread_id (context pl) = owner slots (channel (context pl)) /\
  is_Some (ctx_handler (context pl)).

(** [outs], [cons] and [lnks] are the three tables, [listen] the handlers of
    the listeners and [lfds] their descriptors; then the heap, the next address
    and the counters. *)
Record own_inv (slots : Z) (outs cons lnks : Z -> option Z) (listen lfds : list Z)
  (hs : gmap Z ProxyHandler) (ifs : gmap Z OutgoingInformation)
  (ls : gmap Z (ProxyLinkage L)) (fs : gmap Z unit) (nx inc out max : Z) : Prop := {
  ow_out : forall k p, outs k = Some p -> exists x, ifs !! p = Some x /\
    o_thread_id x = owner slots k /\ cons k = Some (proxy_handler x);
  ow_con : forall k p, cons k = Some p ->
    IsOutgoingChannel k = true /\ is_Some (hs !! p) /\ p ∉ listen;
  ow_link : forall k l, lnks k = Some l -> exists pl, ls !! l = Some pl /\ channel (context pl) = k;
  ow_live : forall l pl, ls !! l = Some pl ->
    l < nx /\ in_service slots pl /\ lnks (channel (context pl)) = Some l /\
    (if IsOutgoingChannel (channel (context pl))
     then cons (channel (context pl)) = Some (pl_handler pl) else pl_handler pl ∈ listen);
  ow_out_inj : forall k k' p, outs k = Some p -> outs k' = Some p -> k = k';
  ow_con_inj : forall k k' p, cons k = Some p -> cons k' = Some p -> k = k';
  ow_listen : NoDup listen /\ forall p, p ∈ listen -> is_Some (hs !! p);
  ow_hs : forall p h, hs !! p = Some h ->
    handler_ok h /\ p < nx /\ (p ∈ listen \/ exists k, cons k = Some p);
  ow_ifs : forall p x, ifs !! p = Some x -> p < nx /\ exists k, outs k = Some p;
  ow_fds : forall fd, is_Some (fs !! fd) <->
    (fd ∈ lfds \/ exists l pl, ls !! l = Some pl /\ pl_fd pl = fd);
  ow_lfds : NoDup lfds;
  ow_fd_own : forall l pl, ls !! l = Some pl -> (pl_fd pl ∉ lfds) /\
    forall l' pl', ls !! l' = Some pl' -> pl_fd pl' = pl_fd pl -> l' = l;
  ow_fd_next : forall fd, is_Some (fs !! fd) -> fd < nx;
  ow_inc : inc = count false ls /\ (inc = 0 \/ inc < max);
  ow_max : 0 <= max < 2 ^ 64;
  ow_outc : out = u64 (count true ls)
}.

(** The handler of an outgoing channel is kept only while it is needed. *)
Definition needed (outs cons lnks : Z -> option Z) : Prop :=
  forall k, is_Some (cons k) -> is_Some (outs k) \/ is_Some (lnks k).

#[export] Instance own_inv_proper :
  Proper (eq ==> same ==> same ==> same ==> eq ==> eq ==> eq ==> eq ==> eq ==> eq ==> eq ==>
          eq ==> eq ==> eq ==> impl) own_inv.
Proof.
  intros sl ? <- o o' Ho c c' Hc l l' Hl ? ? <- ? ? <- ? ? <- ? ? <- ? ? <- ? ? <- ? ? <- ? ? <- ? ? <-
    ? ? <- [].
  constructor; auto.
  - intros k p. rewrite <- Ho, <- Hc. apply ow_out0.
  - intros k p. rewrite <- Hc. apply ow_con0.
  - intros k p. rewrite <- Hl. apply ow_link0.
  - intros k p. rewrite <- Hl, <- Hc. apply ow_live0.
  - intros k k' p. rewrite <- !Ho. apply ow_out_inj0.
  - intros k k' p. rewrite <- !Hc. apply ow_con_inj0.
  - intros p h Hp. destruct (ow_hs0 p h Hp) as (? & ? & Hw). split_and!; [done..|].
    destruct Hw as [?|[k Hk]]; [by left|right]. exists k. by rewrite <- Hc.
  - intros p h Hp. destruct (ow_ifs0 p h Hp) as (? & k & Hk). split; [done|].
    exists k. by rewrite <- Ho.
Qed.

#[export] Instance needed_proper : Proper (same ==> same ==> same ==> impl) needed.
Proof.
  intros o o' Ho c c' Hc l l' Hl HN k. rewrite <- Ho, <- Hc, <- Hl. apply HN.
Qed.

Section Changes.
Context {slots : Z} {outs cons lnks : Z -> option Z} {listen lfds : list Z}
  {hs : gmap Z ProxyHandler} {ifs : gmap Z OutgoingInformation}
  {ls : gmap Z (ProxyLinkage L)} {fs : gmap Z unit} {nx inc out max : Z}
  (HI : own_inv slots outs cons lnks listen lfds hs ifs ls fs nx inc out max).

Lemma own_next nx' : nx <= nx' ->
  own_inv slots outs cons lnks listen lfds hs ifs ls fs nx' inc out max.
Proof.
  intros Hle. destruct HI; constructor; auto.
  - intros l pl Hl. destruct (ow_live0 l pl Hl). split; [lia|done].
  - intros p h Hp. destruct (ow_hs0 p h Hp) as (? & ? & ?). split_and!; [done|lia|done].
  - intros p h Hp. destruct (ow_ifs0 p h Hp) as (? & ?). split_and!; [lia|done].
  - intros fd Hfd. specialize (ow_fd_next0 fd Hfd). lia.
Qed.

(** Forget, first part. *)
Lemma own_drop_info k p : outs k = Some p ->
  own_inv slots (upd outs k None) cons lnks listen lfds hs (delete p ifs) ls fs nx inc out max.
Proof.
  intros Hk. destruct HI; constructor; auto.
  - intros k' p'. unfold upd. case_decide as E; [done|]. intros Hk'.
    destruct (ow_out0 _ _ Hk') as (x & Hx & ?). exists x. split; [|done].
    rewrite lookup_delete_ne; [done|]. intros ->. by apply E, (ow_out_inj0 _ _ _ Hk Hk').
  - intros k1 k2 p'. unfold upd. repeat case_decide; try done. apply ow_out_inj0.
  - intros p' x [Hne Hx]%lookup_delete_Some. destruct (ow_ifs0 _ _ Hx) as (? & k' & Hk').
    split; [done|]. exists k'. rewrite upd_ne; [done|]. intros ->. congruence.
Qed.

(** A handler that no entry needs. *)
Lemma own_drop_handler k p : cons k = Some p -> outs k = None -> lnks k = None ->
  own_inv slots outs (upd cons k None) lnks listen lfds (delete p hs) ifs ls fs nx inc out max.
Proof.
  intros Hk Ho Hl. destruct HI. destruct (ow_con0 _ _ Hk) as (Hkind & _ & Hp).
  constructor; auto.
  - intros k' p' Hk'. rewrite upd_ne; [by apply ow_out0|]. intros ->. congruence.
  - intros k' p'. unfold upd. case_decide as E; [done|]. intros Hk'.
    destruct (ow_con0 _ _ Hk') as (? & ? & ?). split_and!; [done| |done].
    rewrite lookup_delete_ne; [done|]. intros ->. by apply E, (ow_con_inj0 _ _ _ Hk Hk').
  - intros l pl Hpl. destruct (ow_live0 _ _ Hpl) as (? & ? & Hl' & ?). split_and!; [done..|].
    rewrite upd_ne; [done|]. intros ->. congruence.
  - intros k1 k2 p'. unfold upd. repeat case_decide; try done. apply ow_con_inj0.
  - destruct ow_listen0 as [? Hli]. split; [done|]. intros p' Hp'.
    rewrite lookup_delete_ne; [by apply Hli|]. by intros ->.
  - intros p' x [Hne Hx]%lookup_delete_Some. destruct (ow_hs0 _ _ Hx) as (? & ? & Hw).
    split_and!; [done..|]. destruct Hw as [?|[k' Hk']]; [by left|right]. exists k'.
    rewrite upd_ne; [done|]. intros ->. congruence.
Qed.

(** A linkage that its worker releases. *)
Lemma own_drop_link k l pl : ls !! l = Some pl -> channel (context pl) = k ->
  own_inv slots outs cons (upd lnks k None) listen lfds hs ifs (delete l ls) (delete (pl_fd pl) fs)
    nx (if IsOutgoingChannel k then inc else u64 (inc - 1))
    (if IsOutgoingChannel k then u64 (out - 1) else out) max.
Proof.
  intros Hl Hch. destruct HI. destruct (ow_live0 _ _ Hl) as (_ & _ & Hk & _). rewrite Hch in Hk.
  assert (forall b, count b (delete l ls) =
            count b ls - if Bool.eqb (IsOutgoingChannel k) b then 1 else 0) as HC.
  { intros b. rewrite <- Hch. by apply count_delete. }
  constructor; auto.
  - intros k' l'. unfold upd. case_decide as E; [done|]. intros Hk'.
    destruct (ow_link0 _ _ Hk') as (pl' & Hpl' & Hc'). exists pl'. split; [|done].
    rewrite lookup_delete_ne; [done|]. intros ->. congruence.
  - intros l' pl' [Hne Hl']%lookup_delete_Some. destruct (ow_live0 _ _ Hl') as (? & ? & Hk' & ?).
    split_and!; [done..| |done]. rewrite upd_ne; [done|]. intros E. rewrite <- E in Hk'. congruence.
  - intros fd. rewrite lookup_delete_is_Some, ow_fds0. split.
    + intros [Hne [?|(l' & pl' & Hl' & Hfd)]]; [by left|right]. exists l', pl'. split; [|done].
      rewrite lookup_delete_ne; [done|]. intros ->. congruence.
    + destruct (ow_fd_own0 _ _ Hl) as [Hn Hu].
      intros [Hfd|(l' & pl' & [Hne Hl']%lookup_delete_Some & Hfd)].
      * split; [|by left]. intros E. by rewrite <- E in Hfd.
      * split; [|eauto]. intros Hfd'. apply Hne. symmetry. eapply Hu; [done|congruence].
  - intros l' pl' [Hne Hl']%lookup_delete_Some. destruct (ow_fd_own0 _ _ Hl') as [? Hu].
    split; [done|]. intros l2 pl2 [_ Hl2]%lookup_delete_Some. by apply Hu.
  - intros fd [_ Hfd]%lookup_delete_is_Some. by apply ow_fd_next0.
  - rewrite HC. destruct ow_inc0 as [-> Hm]. destruct (IsOutgoingChannel k) eqn:Ek; cbn; [split; [lia|done]|].
    assert (0 < count false ls) as Hpos.
    { specialize (HC false). cbn in HC. unfold count in *. lia. }
    unfold u64. rewrite Z.mod_small by lia. split; lia.
  - rewrite HC. subst out. destruct (IsOutgoingChannel k); cbn; [|f_equal; lia].
    unfold u64. by rewrite Zminus_mod_idemp_l.
Qed.

(** A linkage that goes into service. *)
Lemma own_add_link k l pl : ls !! l = None -> fs !! pl_fd pl = None -> lnks k = None ->
  l < nx -> pl_fd pl < nx -> channel (context pl) = k -> in_service slots pl ->
  (if IsOutgoingChannel k then cons k = Some (pl_handler pl)
   else (pl_handler pl ∈ listen) /\ inc + 1 < max) ->
  own_inv slots outs cons (upd lnks k (Some l)) listen lfds hs ifs (<[l := pl]> ls)
    (<[pl_fd pl := tt]> fs) nx (if IsOutgoingChannel k then inc else inc + 1)
    (if IsOutgoingChannel k then u64 (out + 1) else out) max.
Proof.
  intros Hl Hfd Hk ? ? Hch Hs Hhand. destruct HI.
  assert (forall b, count b (<[l := pl]> ls) =
            count b ls + if Bool.eqb (IsOutgoingChannel k) b then 1 else 0) as HC.
  { intros b. rewrite <- Hch. by apply count_insert. }
  constructor; auto.
  - intros k' l'. unfold upd. case_decide as E.
    + intros [= <-]. exists pl. rewrite lookup_insert_eq. split; congruence.
    + intros Hk'. destruct (ow_link0 _ _ Hk') as (pl' & Hpl' & Hc'). exists pl'. split; [|done].
      rewrite lookup_insert_ne; [done|]. intros ->. congruence.
  - intros l' pl' [[<- <-]|[Hne Hl']]%lookup_insert_Some.
    + rewrite Hch, upd_eq. split_and!; [done..|]. destruct (IsOutgoingChannel k); tauto.
    + destruct (ow_live0 _ _ Hl') as (? & ? & Hk' & ?). split_and!; [done..| |done].
      rewrite upd_ne; [done|]. intros E. rewrite <- E in Hk'. congruence.
  - intros fd. rewrite lookup_insert_is_Some, ow_fds0. split.
    + intros [<-|[Hne [?|(l' & pl' & Hl' & Hf)]]]; [right|by left|right].
      * exists l, pl. by rewrite lookup_insert_eq.
      * exists l', pl'. split; [|done]. rewrite lookup_insert_ne; [done|]. intros ->. congruence.
    + destruct (decide (pl_fd pl = fd)); [by left|]. intros [Hf|(l' & pl' & Hl' & Hf)]; right; (split; [done|]).
      * by left.
      * apply lookup_insert_Some in Hl' as [[-> ->]|[? Hl']]; [done|]. right. eauto.
  - assert (forall l' pl', ls !! l' = Some pl' -> pl_fd pl' <> pl_fd pl) as Hu.
    { intros l' pl' Hl' E. apply eq_None_not_Some in Hfd. apply Hfd, ow_fds0. right. eauto. }
    intros l' pl' [[<- <-]|[Hne Hl']]%lookup_insert_Some.
    + split.
      * intros Hin. apply eq_None_not_Some in Hfd. apply Hfd, ow_fds0. by left.
      * intros l2 pl2 [[<- <-]|[_ Hl2]]%lookup_insert_Some; [done|]. intros E. by destruct (Hu _ _ Hl2).
    + destruct (ow_fd_own0 _ _ Hl') as [? Hu']. split; [done|].
      intros l2 pl2 [[<- <-]|[_ Hl2]]%lookup_insert_Some; [|by apply Hu'].
      intros E. by destruct (Hu _ _ Hl').
  - intros fd. rewrite lookup_insert_is_Some. intros [<-|[_ Hf]]; [done|by apply ow_fd_next0].
  - rewrite HC. destruct ow_inc0 as [-> Hm]. destruct (IsOutgoingChannel k); cbn; split; lia.
  - rewrite HC. subst out. destruct (IsOutgoingChannel k); cbn; [|f_equal; lia].
    unfold u64. by rewrite Zplus_mod_idemp_l.
Qed.

(** A linkage changes. *)
Lemma own_set_base l pl b : ls !! l = Some pl -> l_live b -> l_worker b = l_worker (base pl) ->
  own_inv slots outs cons lnks listen lfds hs ifs
    (<[l := mkProxyLinkage (context pl) (pl_handler pl) (pl_fd pl) b]> ls) fs nx inc out max.
Proof.
  intros Hl Hb Hw. set (pl' := mkProxyLinkage _ _ _ _). destruct HI.
  assert (forall x y, <[l := pl']> ls !! x = Some y -> exists z, ls !! x = Some z /\
     context y = context z /\ pl_handler y = pl_handler z /\ pl_fd y = pl_fd z) as HB.
  { intros x y [[<- <-]|[? ?]]%lookup_insert_Some; [by exists pl|by exists y]. }
  assert (forall x z, ls !! x = Some z -> exists y, <[l := pl']> ls !! x = Some y /\
     context y = context z /\ pl_fd y = pl_fd z) as HF.
  { intros x z Hz. destruct (decide (l = x)) as [<-|]; [|exists z; by rewrite lookup_insert_ne].
    exists pl'. rewrite lookup_insert_eq. rewrite Hl in Hz. by injection Hz as <-. }
  assert (forall b, count b (<[l := pl']> ls) = count b ls) as HC.
  { intros b'. rewrite <- insert_delete_eq, count_insert, (count_delete _ _ pl) by
      (done || apply lookup_delete_eq). cbn. lia. }
  constructor; auto.
  - intros k x Hk. destruct (ow_link0 _ _ Hk) as (z & Hz & E).
    destruct (HF _ _ Hz) as (y & Hy & E' & _). exists y. by rewrite E'.
  - intros x y Hy. destruct (HB _ _ Hy) as (z & Hz & E1 & E2 & _).
    destruct (ow_live0 _ _ Hz) as (? & (Hli & ? & ? & ?) & ? & ?). rewrite E1, E2.
    split_and!; try done. unfold in_service. rewrite E1.
    apply lookup_insert_Some in Hy as [[<- <-]|[_ Hy]]; [|by simplify_eq].
    simplify_eq. cbn. rewrite Hw. done.
  - intros fd. rewrite ow_fds0. split; (intros [?|(x & y & Hx & Hf)]; [by left|right]).
    + destruct (HF _ _ Hx) as (z & ? & _ & E). exists x, z. by rewrite E.
    + destruct (HB _ _ Hx) as (z & ? & _ & _ & E). exists x, z. by rewrite <- E.
  - intros x y Hy. destruct (HB _ _ Hy) as (z & Hz & _ & _ & E). destruct (ow_fd_own0 _ _ Hz) as [? Hu].
    rewrite E. split; [done|]. intros x' y' Hy'. destruct (HB _ _ Hy') as (z' & Hz' & _ & _ & E').
    rewrite E'. by apply Hu.
  - by rewrite HC.
  - by rewrite HC.
Qed.

(** An outgoing channel. *)
Lemma own_connect k ph h p x : cons k = None -> outs k = None ->
  hs !! ph = None -> ifs !! p = None -> ph < nx -> p < nx -> (ph ∉ listen) ->
  IsOutgoingChannel k = true -> handler_ok h -> proxy_handler x = ph -> o_thread_id x = owner slots k ->
  own_inv slots (upd outs k (Some p)) (upd cons k (Some ph)) lnks listen lfds (<[ph := h]> hs)
    (<[p := x]> ifs) ls fs nx inc out max.
Proof.
  intros Hc Ho Hph Hp ? ? Hnl Hkind Hh Hx Ht. destruct HI. constructor; auto.
  - intros k' p'. unfold upd at 1. case_decide as E.
    + intros [= <-]. subst k'. exists x. rewrite lookup_insert_eq, upd_eq. split_and!; congruence.
    + intros Hk'. destruct (ow_out0 _ _ Hk') as (y & Hy & ?). exists y. rewrite upd_ne by done.
      rewrite lookup_insert_ne; [done|]. intros ->. congruence.
  - intros k' p'. unfold upd. case_decide as E.
    + intros [= <-]. subst k'. rewrite lookup_insert_eq. done.
    + intros Hk'. destruct (ow_con0 _ _ Hk') as (? & [y ?] & ?). split_and!; [done| |done].
      exists y. rewrite lookup_insert_ne; [done|]. intros ->. congruence.
  - intros l pl Hl. destruct (ow_live0 _ _ Hl) as (? & ? & ? & Hc'). split_and!; [done..|].
    destruct (IsOutgoingChannel (channel (context pl))); [|done].
    rewrite upd_ne; [done|]. intros ->. congruence.
  - intros k1 k2 p'. unfold upd. repeat case_decide; try congruence; [..|apply ow_out_inj0].
    + intros [= <-] Hq. destruct (ow_out0 _ _ Hq) as (y & ? & _). congruence.
    + intros Hq [= <-]. destruct (ow_out0 _ _ Hq) as (y & ? & _). congruence.
  - intros k1 k2 p'. unfold upd. repeat case_decide; try congruence; [..|apply ow_con_inj0].
    + intros [= <-] Hq. destruct (ow_con0 _ _ Hq) as (_ & [y ?] & _). congruence.
    + intros Hq [= <-]. destruct (ow_con0 _ _ Hq) as (_ & [y ?] & _). congruence.
  - destruct ow_listen0 as [? Hli]. split; [done|]. intros p' Hp'. destruct (Hli _ Hp') as [y Hy].
    exists y. rewrite lookup_insert_ne; [done|]. intros ->. congruence.
  - intros p' y [[<- <-]|[Hne Hy]]%lookup_insert_Some.
    + split_and!; [done..|]. right. exists k. apply upd_eq.
    + destruct (ow_hs0 _ _ Hy) as (? & ? & Hw). split_and!; [done..|].
      destruct Hw as [?|[k' Hk']]; [by left|right]. exists k'. rewrite upd_ne; [done|]. intros ->. congruence.
  - intros p' y [[<- <-]|[Hne Hy]]%lookup_insert_Some.
    + split; [done|]. exists k. apply upd_eq.
    + destruct (ow_ifs0 _ _ Hy) as (? & k' & Hk'). split; [done|]. exists k'.
      rewrite upd_ne; [done|]. intros ->. congruence.
Qed.

End Changes.
End Ownership.

(** ** Jobs *)

Definition job_ok (slots : Z) (x : Job) : Prop :=
  match x with
  | MessageJob c _ => is_Some (ctx_handler c)
  | RegisterTimerJob w _ _ _ => 0 <= w < slots
  | SendJob w c _ => w = owner slots c
  | DisconnectJob _ _ | UserJob _ => True
  end.

(** The jobs in the global queue, the queues of the job workers and those of
    the I/O workers; a null pointer is no job. *)
Definition queued (q : list (option Z)) (hq cmds : list (list (option Z))) : list Z :=
  omap id (q ++ concat hq ++ concat cmds).

(** [held]: the jobs that a thread took from a queue and did not delete yet. *)
Record job_inv (slots nworkers : Z) (js : gmap Z Job) (q : list (option Z))
  (hq cmds : list (list (option Z))) (held : list Z) (nx : Z) : Prop := {
  jb_hash : zlen hq = nworkers;
  jb_nodup : NoDup (held ++ queued q hq cmds);
  jb_alive : forall j, j ∈ held ++ queued q hq cmds -> exists x, js !! j = Some x /\ job_ok slots x;
  jb_next : forall j, is_Some (js !! j) -> j < nx
}.

Lemma concat_perm {T} (l : list (list T)) i x : l !! i = Some x ->
  exists R, Permutation (concat l) (x ++ R) /\
    forall x', Permutation (concat (<[i := x']> l)) (x' ++ R).
Proof.
  revert i. induction l as [|y l IH]; intros [|i]; cbn; try done.
  - intros [= ->]. by exists (concat l).
  - intros Hi. destruct (IH _ Hi) as (R & H1 & H2). exists (y ++ R). split.
    + rewrite H1. apply Permutation_app_swap_app.
    + intros x'. change (list_insert i x' l) with (<[i := x']> l). rewrite H2. apply Permutation_app_swap_app.
Qed.

Lemma queued_perm q q' hq hq' cmds cmds' a b :
  Permutation (a ++ q ++ concat hq ++ concat cmds) (b ++ q' ++ concat hq' ++ concat cmds') ->
  Permutation (omap id a ++ queued q hq cmds) (omap id b ++ queued q' hq' cmds').
Proof.
  intros H. unfold queued. rewrite <- !omap_app. by apply omap_Permutation.
Qed.

Section Jobs.
Context {slots nworkers : Z} {js : gmap Z Job} {q : list (option Z)}
  {hq cmds : list (list (option Z))} {held : list Z} {nx : Z}
  (HJ : job_inv slots nworkers js q hq cmds held nx).

Lemma job_next nx' : nx <= nx' -> job_inv slots nworkers js q hq cmds held nx'.
Proof. intros ?. destruct HJ. constructor; auto. intros j Hj. specialize (jb_next0 _ Hj). lia. Qed.

(** The jobs move between the queues. *)
Lemma job_move q' hq' cmds' held' : zlen hq' = zlen hq ->
  Permutation (held ++ queued q hq cmds) (held' ++ queued q' hq' cmds') ->
  job_inv slots nworkers js q' hq' cmds' held' nx.
Proof.
  intros Hl Hp. destruct HJ. constructor; [by rewrite Hl|by rewrite <- Hp| |done].
  intros j. rewrite <- Hp. apply jb_alive0.
Qed.

Lemma job_new x : job_ok slots x -> js !! nx = None ->
  job_inv slots nworkers (<[nx := x]> js) q hq cmds (nx :: held) (nx + 1).
Proof.
  intros Hx Hn. destruct HJ. constructor; [done|..].
  - cbn. apply NoDup_cons. split; [|done]. intros Hin. apply jb_alive0 in Hin as (y & ? & _). congruence.
  - cbn. intros j [->|Hj]%elem_of_cons; [exists x; by rewrite lookup_insert_eq|].
    destruct (jb_alive0 _ Hj) as (y & Hy & ?). exists y. split; [|done].
    rewrite lookup_insert_ne; [done|]. intros ->. congruence.
  - intros j [->|[_ Hj]]%lookup_insert_is_Some; [lia|]. specialize (jb_next0 _ Hj). lia.
Qed.

Lemma job_delete j held' : held = j :: held' ->
  job_inv slots nworkers (delete j js) q hq cmds held' nx.
Proof.
  intros ->. destruct HJ. cbn in *. apply NoDup_cons in jb_nodup0 as [Hn Hd].
  constructor; [done|done|..].
  - intros i Hi. rewrite lookup_delete_ne by by intros ->. apply jb_alive0. by right.
  - intros i [_ Hi]%lookup_delete_is_Some. by apply jb_next0.
Qed.

Lemma job_fresh x : x = nx -> js !! x = None.
Proof.
  intros ->. apply eq_None_not_Some. intros Hy. destruct HJ. apply jb_next0 in Hy. lia.
Qed.

End Jobs.
