(* ===== verification/EasyServerFacts.v ===== *)
(** * What the methods of the server do

    [Inv held w]: the invariant between two critical sections; [held] are the
    jobs that some thread is running.  One lemma per method: it does not fail,
    whatever the kernel and the application answer, and keeps [Inv]. *)

From S2P Require Import Prelude StateMonad Listener LinkageWorker EasyServer EasyServerInv.

Section Rules.
Context {L A : Type} {LA : LinkageApi L} {EH : EasyHandlers A}.
Abbreviation world := (@world L A).
Implicit Types (w : world).

(** ** Rules *)

Lemma run_server_get {T} (f : EasyServer -> T) w (Q : T -> world -> Prop) : Q (f (sv w)) w -> run (get f) w Q.
Proof. done. Qed.

Lemma run_server_set f w (Q : unit -> world -> Prop) : Q tt (put_sv (f (sv w)) w) -> run (set f) w Q.
Proof. done. Qed.

Lemma run_the {T} (o : option T) x w (Q : T -> world -> Prop) : o = Some x -> Q x w -> run (the o) w Q.
Proof. by intros ->. Qed.

Lemma run_load {T} (c : cell T) p x w (Q : T -> world -> Prop) :
  cget c w !! p = Some x -> Q x w -> run (load c p) w Q.
Proof. intros Hp HQ. unfold load. wp. by eapply run_the. Qed.

Lemma run_store {T} (c : cell T) p x y w (Q : unit -> world -> Prop) :
  cget c w !! p = Some y -> Q tt (cput c (<[p := x]> (cget c w)) w) -> run (store c p x) w Q.
Proof. intros Hp HQ. unfold store. wp. eapply run_the; [done|]. by wp. Qed.

Lemma run_delete {T} (c : cell T) p x w (Q : unit -> world -> Prop) :
  cget c w !! p = Some x -> Q tt (cput c (delete p (cget c w)) w) -> run (delete_ c p) w Q.
Proof. intros Hp HQ. unfold delete_. wp. eapply run_the; [done|]. by wp. Qed.

Lemma run_new {T} (c : cell T) x w (Q : Z -> world -> Prop) :
  Q (next w) (put_next (next w + 1) (cput c (<[next w := x]> (cget c w)) w)) -> run (new_ c x) w Q.
Proof. intros HQ. unfold new_. by wp. Qed.

Lemma run_app_call {T} (f : A -> T * A) w (Q : T -> world -> Prop) :
  (forall x a, Q x (put_app a w)) -> run (app_call f) w Q.
Proof. intros HQ. unfold run, app_call. destruct (f (app w)). apply HQ. Qed.

Lemma run_app_do f w (Q : unit -> world -> Prop) :
  (forall a, Q tt (put_app a w)) -> run (app_do f) w Q.
Proof. intros HQ. apply HQ. Qed.

Lemma run_io_context i c w (Q : IoContext -> world -> Prop) :
  index (_io_context (sv w)) i = Some c -> Q c w -> run (io_context i) w Q.
Proof. intros Hi HQ. unfold io_context. wp. apply run_server_get. by eapply run_the. Qed.

Lemma run_io_worker i x w (Q : ProxyLinkageWorker -> world -> Prop) :
  index (_io_workers (sv w)) i = Some x -> Q x w -> run (io_worker i) w Q.
Proof. intros Hi HQ. unfold io_worker. wp. apply run_server_get. by eapply run_the. Qed.

Lemma run_call_OnError c r e w (Q : unit -> world -> Prop) : is_Some (ctx_handler c) ->
  (forall a, Q tt (put_app a w)) -> run (call_OnError c r e) w Q.
Proof.
  intros [h Hh] HQ. unfold call_OnError, handler_of. wp. eapply run_the; [done|]. by apply run_app_do.
Qed.

Lemma run_call_OnDisconnected c w (Q : unit -> world -> Prop) : is_Some (ctx_handler c) ->
  (forall a, Q tt (put_app a w)) -> run (call_OnDisconnected c) w Q.
Proof.
  intros [h Hh] HQ. unfold call_OnDisconnected, handler_of. wp. eapply run_the; [done|]. by apply run_app_do.
Qed.

(** A method of a linkage that does not fail on its state. *)
Lemma run_on_linkage {T} l p (f : L -> result exn (T * L)) r b w (Q : T -> world -> Prop) :
  linkages w !! l = Some p -> f (base p) = Ok (r, b) ->
  Q r (put_linkages (<[l := mkProxyLinkage (context p) (pl_handler p) (pl_fd p) b]> (linkages w)) w) ->
  run (on_linkage l f) w Q.
Proof.
  intros Hl Hf HQ. unfold on_linkage. wp. eapply run_load; [exact Hl|]. rewrite Hf. wp.
  eapply run_store; [exact Hl|]. by wp.
Qed.

End Rules.

Ltac wp_more ::=
  lazymatch goal with
  | |- run (get _) _ _ => apply run_server_get
  | |- run (set _) _ _ => apply run_server_set
  | |- run (set_context _ _) _ _ => apply run_server_set
  | |- run (set_worker _ _) _ _ => apply run_server_set
  | |- run (new_ _ _) _ _ => apply run_new
  | |- run (app_call _) _ _ => apply run_app_call; intros ? ?
  | |- run (app_do _) _ _ => apply run_app_do; intros ?
  end.

Section Invariant.
Context {L A : Type} {LA : LinkageApi L} {EH : EasyHandlers A}.
Abbreviation world := (@world L A).
Implicit Types (w : world).

Definition outs (s : EasyServer) : Z -> option Z :=
  view _outgoing_informations (_slots s) (_io_context s).
Definition cons_ (s : EasyServer) : Z -> option Z :=
  view _connect_proxy_handlers (_slots s) (_io_context s).
Definition lnks (s : EasyServer) : Z -> option Z :=
  view _channel_linkages (_slots s) (_io_context s).

(** The I/O workers are numbered. *)
Definition workers_ok (slots : Z) (ws : list ProxyLinkageWorker) : Prop :=
  zlen ws = slots /\ forall i x, index ws i = Some x -> w_thread_id x = i.

Definition commands (ws : list ProxyLinkageWorker) : list (list (option Z)) :=
  map (fun x => _commands (worker x)) ws.

(** [Inv0] allows handlers that are not needed. *)
Record Inv0 (held : list Z) (w : world) : Prop := mkInv {
  inv_ctx : ctx_inv (_slots (sv w)) (_io_context (sv w));
  inv_own : own_inv (_slots (sv w)) (outs (sv w)) (cons_ (sv w)) (lnks (sv w))
    (_listen_proxy_handlers (sv w)) (map (fun p => _listener (l_base p)) (_listeners (sv w)))
    (handlers w) (infos w) (linkages w) (fds w) (next w)
    (_incoming_connections (sv w)) (_outgoing_connections (sv w))
    (maximum_incoming_connections (_configure (sv w)));
  inv_workers : workers_ok (_slots (sv w)) (_io_workers (sv w));
  inv_jobs : job_inv (_slots (sv w)) (_workers (sv w)) (jobs w) (_jobs (sv w)) (_hashjobs (sv w))
    (commands (_io_workers (sv w))) held (next w);
  inv_listeners : Forall (fun p => l_proxy_handler p ∈ _listen_proxy_handlers (sv w))
    (_listeners (sv w));
  inv_pool : FixedThreadPool.pool_ok (_pool (sv w))
}.

Definition Inv (held : list Z) (w : world) : Prop :=
  Inv0 held w /\ needed (outs (sv w)) (cons_ (sv w)) (lnks (sv w)).

Lemma Inv_app a held w : Inv held w -> Inv held (put_app a w).
Proof. intros [[] ?]. by split; [constructor|]. Qed.

Lemma Inv0_slots held w : Inv0 held w -> 0 < _slots (sv w) <= kMaximumSlots.
Proof. intros HI. apply HI. Qed.

Lemma Inv_Inv0 held w : Inv held w -> Inv0 held w.
Proof. by intros []. Qed.
#[local] Hint Resolve Inv_Inv0 : core.

(** *** Looking up *)

Lemma run_GetIoContext held c w (Q : option Z -> world -> Prop) : Inv0 held w ->
  (c = kInvalidChannel -> Q None w) ->
  (forall ioc, c <> kInvalidChannel ->
     index (_io_context (sv w)) (owner (_slots (sv w)) c) = Some ioc ->
     Q (Some (owner (_slots (sv w)) c)) w) ->
  run (GetIoContext c) w Q.
Proof.
  intros HI HN HS. unfold GetIoContext, IsValidChannel. destruct (Z.eqb_spec c kInvalidChannel) as [E|E].
  - cbn. wp. auto.
  - cbn. unfold GetThreadId. wp. pose proof (Inv0_slots _ _ HI).
    destruct (Z.eqb_spec (_slots (sv w)) 0); [lia|]. wp.
    destruct (ctx_at _ _ (inv_ctx _ _ HI) c) as [ioc Hi].
    eapply run_io_context; [exact Hi|]. wp. by eapply HS.
Qed.

Lemma worker_at held w i : Inv0 held w -> 0 <= i < _slots (sv w) ->
  exists x, index (_io_workers (sv w)) i = Some x /\ w_thread_id x = i.
Proof.
  intros HI Hi. destruct (inv_workers _ _ HI) as [Hl Ht].
  destruct (index_some (_io_workers (sv w)) i) as [x Hx]; [by rewrite Hl|]. exists x. split; [done|].
  by apply Ht.
Qed.

Lemma lnk_entry held w c ioc l : Inv0 held w ->
  index (_io_context (sv w)) (owner (_slots (sv w)) c) = Some ioc ->
  _channel_linkages ioc !! c = Some l ->
  exists pl, linkages w !! l = Some pl /\ channel (context pl) = c /\
    in_service (_slots (sv w)) pl.
Proof.
  intros HI Hi Hl. assert (lnks (sv w) c = Some l) as Hk.
  { unfold lnks. by rewrite (view_index _ _ _ _ _ Hi). }
  destruct (ow_link _ _ _ _ _ _ _ _ _ _ _ _ _ _ (inv_own _ _ HI) _ _ Hk) as (pl & Hpl & Hc).
  exists pl. split_and!; [done|done|].
  apply (ow_live _ _ _ _ _ _ _ _ _ _ _ _ _ _ (inv_own _ _ HI) _ _ Hpl).
Qed.

(** The worker of a linkage in service. *)
Lemma service_worker held w pl : Inv0 held w -> in_service (_slots (sv w)) pl ->
  exists x, index (_io_workers (sv w)) (owner (_slots (sv w)) (channel (context pl))) = Some x /\
    l_worker (base pl) = Some (owner (_slots (sv w)) (channel (context pl))).
Proof.
  intros HI (_ & Hw & _). destruct (worker_at _ _ (owner (_slots (sv w)) (channel (context pl))) HI) as (x & ? & _).
  - apply owner_range, (Inv0_slots _ _ HI).
  - eauto.
Qed.

(** *** Methods of a linkage *)

Lemma Inv_set_base held w l pl b : Inv held w -> linkages w !! l = Some pl ->
  l_live b -> l_worker b = l_worker (base pl) ->
  Inv held (put_linkages (<[l := mkProxyLinkage (context pl) (pl_handler pl) (pl_fd pl) b]> (linkages w)) w).
Proof. intros [[] ?] Hl Hb Hw. split; [|done]. constructor; try done. by apply own_set_base. Qed.

Lemma run_live {T} (f : L -> result exn (T * L)) held l pl w (Q : T -> world -> Prop) :
  (forall b, l_live b -> exists r b', f b = Ok (r, b') /\ l_live b' /\ l_worker b' = l_worker b) ->
  Inv held w -> linkages w !! l = Some pl ->
  (forall r b, Inv held (put_linkages (<[l := mkProxyLinkage (context pl) (pl_handler pl) (pl_fd pl) b]> (linkages w)) w) ->
     l_live b -> l_worker b = l_worker (base pl) ->
     Q r (put_linkages (<[l := mkProxyLinkage (context pl) (pl_handler pl) (pl_fd pl) b]> (linkages w)) w)) ->
  run (on_linkage l f) w Q.
Proof.
  intros Hf HI Hl HQ.
  destruct (ow_live _ _ _ _ _ _ _ _ _ _ _ _ _ _ (inv_own _ _ (Inv_Inv0 _ _ HI)) _ _ Hl) as (_ & (Hlive & _) & _).
  destruct (Hf _ Hlive) as (r & b & E & Hb & Hw). eapply run_on_linkage; [done|exact E|].
  apply HQ; [by apply Inv_set_base|done|done].
Qed.

(** *** Jobs *)

Lemma commands_insert ws i x v : index ws i = Some x ->
  commands (<[Z.to_nat i := with_worker v x]> ws) = <[Z.to_nat i := _commands v]> (commands ws).
Proof. intros Hi. unfold commands. by rewrite list_fmap_insert. Qed.

Lemma index_nth {T} (l : list T) i x : index l i = Some x -> l !! Z.to_nat i = Some x.
Proof. unfold index. by destruct (i <? 0). Qed.

Lemma workers_insert slots ws i x v : workers_ok slots ws -> index ws i = Some x ->
  workers_ok slots (<[Z.to_nat i := with_worker v x]> ws).
Proof.
  intros [Hl Ht] Hi. split; [by rewrite zlen_insert|]. intros j y.
  rewrite index_insert by apply (index_lt _ _ _ Hi). case_decide as E; [|apply Ht].
  intros [= <-]. subst. by apply (Ht j x).
Qed.

Lemma perm_front {T} (h q r c t : list T) :
  Permutation (h ++ q ++ r ++ c ++ t) ((h ++ c) ++ q ++ r ++ t).
Proof.
  rewrite (Permutation_app_swap_app r c t), (Permutation_app_swap_app q c (r ++ t)).
  by rewrite <- app_assoc.
Qed.

(** The commands of the worker [i] change, and the held jobs with them. *)
Lemma Inv_commands held held' w i x v : Inv held w -> index (_io_workers (sv w)) i = Some x ->
  Permutation (held ++ omap id (_commands (worker x))) (held' ++ omap id (_commands v)) ->
  Inv held' (put_sv (set_io_workers (<[Z.to_nat i := with_worker v x]> (_io_workers (sv w))) (sv w)) w).
Proof.
  intros [[Hc Ho Hw Hj Hl Hpl] Hn] Hi Hp. split; [|done]. constructor; try done.
  - by eapply workers_insert.
  - cbn. rewrite (commands_insert _ _ x) by done. eapply (job_move Hj); [done|].
    destruct (concat_perm (commands (_io_workers (sv w))) (Z.to_nat i) (_commands (worker x))) as (R & H1 & H2).
    { unfold commands. by rewrite list_lookup_fmap, (index_nth _ _ _ Hi). }
    unfold queued. rewrite !omap_app, (omap_Permutation _ _ _ H1), (omap_Permutation _ _ _ (H2 _)), !omap_app.
    rewrite !perm_front. by rewrite Hp.
Qed.

Lemma Inv_new_job held w x : Inv held w -> job_ok (_slots (sv w)) x ->
  Inv (next w :: held) (put_next (next w + 1) (cput Jobs (<[next w := x]> (cget Jobs w)) w)).
Proof.
  intros [[Hc Ho Hw Hj Hl Hpl] Hn] Hx. split; [|done]. constructor; try done; cbn.
  - apply (own_next Ho). lia.
  - apply (job_new Hj); [done|]. by eapply job_fresh.
Qed.

Lemma Inv_hold_perm held held' w : Inv held w -> Permutation held held' -> Inv held' w.
Proof.
  intros [[Hc Ho Hw Hj Hl Hpl] Hn] Hp. split; [|done]. constructor; try done. eapply (job_move Hj); [done|].
  by rewrite Hp.
Qed.

(** [job] behind the commands of the worker [i], which is [x]. *)
Definition commanded (i : Z) (x : ProxyLinkageWorker) (job : option Z) (w : world) : world :=
  put_sv (set_io_workers (<[Z.to_nat i :=
    with_worker (LinkageWorker.set_commands (_commands (worker x) ++ [job]) (worker x)) x]>
      (_io_workers (sv w))) (sv w)) w.

Lemma run_SendCommand held w i x job : Inv (omap id [job] ++ held) w ->
  index (_io_workers (sv w)) i = Some x ->
  run (worker_SendCommand i job) w (fun r w' => r = true /\ Inv held w' /\ w' = commanded i x job w).
Proof.
  intros HI Hi. unfold worker_SendCommand. wp. eapply run_io_worker; [exact Hi|]. cbn [LinkageWorker.SendCommand].
  wp. split; [done|]. split; [|done]. eapply Inv_commands; [exact HI|done|]. cbn [LinkageWorker._commands LinkageWorker.set_commands].
  rewrite omap_app. rewrite (Permutation_app_comm (omap id [job])). rewrite <- app_assoc.
  f_equiv. apply Permutation_app_comm.
Qed.

End Invariant.
