(* ===== verification/EasyServerMethods.v ===== *)
(** * The methods of the server keep its invariant *)

From S2P Require Import Prelude StateMonad Sockets AbstractIo Listener LinkageWorker EasyServer EasyServerInv EasyServerFacts.

Section Methods.
Context {L A : Type} {LA : LinkageApi L} {EH : EasyHandlers A}.
Abbreviation world := (@world L A).
Implicit Types (w : world).

#[local] Hint Resolve Inv_Inv0 : core.
#[local] Hint Resolve Inv_app : core.

Definition keeps (held : list Z) {T : Type} (m : ST world T) : Prop :=
  forall w, Inv held w -> run m w (fun _ w' => Inv held w').

(** ** Disconnecting *)

(** A new job behind the commands of the worker [i]. *)
Definition queued_command (i : Z) (job : Job) (w w' : world) : Prop :=
  exists x, index (_io_workers (sv w)) i = Some x /\
    w' = commanded i x (Some (next w)) (put_next (next w + 1) (put_jobs (<[next w := job]> (jobs w)) w)).

Lemma run_new_command held w i x job : Inv held w -> index (_io_workers (sv w)) i = Some x ->
  job_ok (_slots (sv w)) job ->
  run (let* j := new_ Jobs job in worker_SendCommand i (Some j)) w (fun r w' =>
    r = true /\ Inv held w' /\ queued_command i job w w').
Proof.
  intros HI Hi Hj. wp. eapply run_mono.
  - eapply run_SendCommand; [|exact Hi]. by apply Inv_new_job.
  - cbn beta. intros r w' (? & ? & ->). split_and!; [done|done|]. exists x. done.
Qed.

Lemma run_DisconnectChannel held tid c f : keeps held (Disconnect tid c f).
Proof.
  intros w HI. unfold Disconnect. wp. eapply run_GetIoContext; [eauto|by wp|]. intros ioc Hc Hi.
  wp. eapply run_io_context; [exact Hi|].
  destruct (_channel_linkages ioc !! c) as [l|] eqn:El; [|by wp].
  destruct (lnk_entry held w c ioc l) as (pl & Hl & Hch & Hs); [auto..|].
  wp. eapply run_load; [exact Hl|].
  destruct (service_worker held w pl) as (x & Hx & Hw); [auto..|].
  wp. eapply run_the; [exact Hw|]. wp. eapply run_io_worker; [exact Hx|].
  apply run_if; intros _.
  - wp. eapply (run_live _ held); [apply l_Disconnect_ok|done|exact Hl|]. intros. by wp.
  - eapply run_mono; [eapply run_new_command; [done|exact Hx|done]|]. cbn beta. tauto.
Qed.

Lemma run_DoRealDisconnect held c f : keeps held (DoRealDisconnect c f).
Proof.
  intros w HI. unfold DoRealDisconnect. wp. eapply run_GetIoContext; [eauto|by wp|]. intros ioc Hc Hi.
  wp. eapply run_io_context; [exact Hi|].
  destruct (_channel_linkages ioc !! c) as [l|] eqn:El; [|by wp].
  destruct (lnk_entry held w c ioc l) as (pl & Hl & Hch & Hs); [auto..|].
  wp. eapply (run_live _ held); [apply l_Disconnect_ok|done|exact Hl|]. intros. by wp.
Qed.

(** ** Changes of a context *)

Definition put_context (i : Z) (c : IoContext) (w : world) : world :=
  put_sv (set_io_context (<[Z.to_nat i := c]> (_io_context (sv w))) (sv w)) w.

(** The entry of a table, read through the views. *)
Lemma view_entry f (s : EasyServer) k ioc :
  index (_io_context s) (owner (_slots s) k) = Some ioc ->
  view f (_slots s) (_io_context s) k = f ioc !! k.
Proof. apply view_index. Qed.

Lemma lookup_delete_upd (m : gmap Z Z) k k' :
  delete k m !! k' = if decide (k = k') then None else m !! k'.
Proof.
  case_decide as E; [subst; apply lookup_delete_eq|by apply lookup_delete_ne].
Qed.

Lemma lookup_insert_new (m : gmap Z Z) k v k' : m !! k = None ->
  insert_new k v m !! k' = if decide (k = k') then Some v else m !! k'.
Proof.
  intros Hm. unfold insert_new. rewrite Hm.
  case_decide as E; [subst; apply lookup_insert_eq|by apply lookup_insert_ne].
Qed.

#[local] Ltac views w' :=
  change (outs (set_io_context _ _)) with (outs (sv w'));
  change (cons_ (set_io_context _ _)) with (cons_ (sv w'));
  change (lnks (set_io_context _ _)) with (lnks (sv w')).

Lemma Inv0_drop_info held w k ioc p : Inv0 held w ->
  index (_io_context (sv w)) (owner (_slots (sv w)) k) = Some ioc ->
  _outgoing_informations ioc !! k = Some p ->
  let w' := put_context (owner (_slots (sv w)) k)
              (with_outgoing (delete k (_outgoing_informations ioc)) ioc)
              (put_infos (delete p (infos w)) w) in
  Inv0 held w' /\ same (outs (sv w')) (upd (outs (sv w)) k None) /\
  same (cons_ (sv w')) (cons_ (sv w)) /\ same (lnks (sv w')) (lnks (sv w)).
Proof.
  intros [Hc Ho Hw Hj Hl Hpool] Hi Hk w'.
  assert (same (outs (sv w')) (upd (outs (sv w)) k None)) as H1.
  { by apply (view_upd _ _ _ _ _ _ _ _ Hi); [|apply lookup_delete_upd]. }
  assert (same (cons_ (sv w')) (cons_ (sv w))) as H2 by by apply (view_same _ _ _ _ _ _ Hi).
  assert (same (lnks (sv w')) (lnks (sv w))) as H3 by by apply (view_same _ _ _ _ _ _ Hi).
  split; [|done]. constructor; try done; cbn -[outs cons_ lnks].
  - by apply (ctx_erase _ _ Hc); [|apply delete_subseteq|..].
  - views w'. rewrite H1, H2, H3. apply (own_drop_info Ho). unfold outs. by rewrite (view_entry _ _ _ _ Hi).
Qed.

Lemma Inv0_drop_handler held w k ioc p : Inv0 held w ->
  index (_io_context (sv w)) (owner (_slots (sv w)) k) = Some ioc ->
  _connect_proxy_handlers ioc !! k = Some p ->
  _outgoing_informations ioc !! k = None -> _channel_linkages ioc !! k = None ->
  let w' := put_context (owner (_slots (sv w)) k)
              (with_connect (delete k (_connect_proxy_handlers ioc)) ioc)
              (put_handlers (delete p (handlers w)) w) in
  Inv0 held w' /\ same (outs (sv w')) (outs (sv w)) /\
  same (cons_ (sv w')) (upd (cons_ (sv w)) k None) /\ same (lnks (sv w')) (lnks (sv w)).
Proof.
  intros [Hc Ho Hw Hj Hl Hpool] Hi Hk Hno Hnl w'.
  assert (same (outs (sv w')) (outs (sv w))) as H1 by by apply (view_same _ _ _ _ _ _ Hi).
  assert (same (cons_ (sv w')) (upd (cons_ (sv w)) k None)) as H2.
  { by apply (view_upd _ _ _ _ _ _ _ _ Hi); [|apply lookup_delete_upd]. }
  assert (same (lnks (sv w')) (lnks (sv w))) as H3 by by apply (view_same _ _ _ _ _ _ Hi).
  split; [|done]. constructor; try done; cbn -[outs cons_ lnks].
  - by apply (ctx_erase _ _ Hc); [|done|apply delete_subseteq|].
  - views w'. rewrite H1, H2, H3.
    apply (own_drop_handler Ho); unfold outs, cons_, lnks; by rewrite (view_entry _ _ _ _ Hi).
Qed.

(** The end of Forget and of ReleaseChannel: the handler of [k] goes with the
    last entry. *)
Lemma run_erase_connect w i k ioc p : is_Some (handlers w !! p) ->
  index (_io_context (sv w)) i = Some ioc ->
  run (erase_connect i k p) w (fun _ w' =>
    w' = put_context i (with_connect (delete k (_connect_proxy_handlers ioc)) ioc)
           (put_handlers (delete p (handlers w)) w)).
Proof.
  intros [h Hh] Hi. unfold erase_connect. wp.
  eapply run_delete; [exact Hh|]. cbn [cput Handlers]. wp. eapply run_io_context; [exact Hi|]. by wp.
Qed.

Lemma handler_alive held w k ioc p : Inv0 held w ->
  index (_io_context (sv w)) (owner (_slots (sv w)) k) = Some ioc ->
  _connect_proxy_handlers ioc !! k = Some p ->
  is_Some (handlers w !! p) /\ IsOutgoingChannel k = true.
Proof.
  intros HI Hi Hk.
  assert (cons_ (sv w) k = Some p) as Hc by (unfold cons_; by rewrite (view_entry _ _ _ _ Hi)).
  by destruct (ow_con _ _ _ _ _ _ _ _ _ _ _ _ _ _ (inv_own _ _ HI) _ _ Hc) as (? & ? & _).
Qed.

(** [needed] after the entry of [k] in a table is erased. *)
Lemma needed_drop o c l o' c' l' k :
  needed o c l -> same c' c \/ same c' (upd c k None) ->
  (forall k', k' <> k -> o' k' = o k' /\ l' k' = l k') ->
  (is_Some (c' k) -> is_Some (o' k) \/ is_Some (l' k)) -> needed o' c' l'.
Proof.
  intros HN Hc Hne Hk k'. destruct (decide (k' = k)) as [->|E]; [done|].
  destruct (Hne _ E) as [-> ->]. intros Hk'. apply HN. destruct Hc as [Hc|Hc]; rewrite Hc in Hk'; [done|].
  by rewrite upd_ne in Hk' by done.
Qed.

Lemma put_context_at i c c' w : index (_io_context (sv w)) i = Some c ->
  index (_io_context (sv (put_context i c' w))) i = Some c'.
Proof. intros Hi. cbn. by eapply index_insert_eq. Qed.

(** The first part of Forget: the destination is forgotten. *)
Lemma run_Forget_info held w k ioc (o := owner (_slots (sv w)) k) : Inv0 held w ->
  index (_io_context (sv w)) o = Some ioc ->
  run (match _outgoing_informations ioc !! k with
       | Some p => delete_ Infos p ;;;
           set_context o (with_outgoing (delete k (_outgoing_informations ioc)) ioc)
       | None => ret tt end) w (fun _ w' => exists ioc',
    Inv0 held w' /\ _slots (sv w') = _slots (sv w) /\
    index (_io_context (sv w')) o = Some ioc' /\ _outgoing_informations ioc' !! k = None /\
    (forall k', k' <> k -> outs (sv w') k' = outs (sv w) k') /\
    same (cons_ (sv w')) (cons_ (sv w)) /\ same (lnks (sv w')) (lnks (sv w))).
Proof.
  intros H0 Hi. destruct (_outgoing_informations ioc !! k) as [p|] eqn:Ep.
  - destruct (Inv0_drop_info _ _ _ _ _ H0 Hi Ep) as (HI & H1 & H2 & H3).
    assert (outs (sv w) k = Some p) as Hp by (unfold outs; by rewrite (view_entry _ _ _ _ Hi)).
    destruct (ow_out _ _ _ _ _ _ _ _ _ _ _ _ _ _ (inv_own _ _ H0) _ _ Hp) as (x & Hx & _).
    wp. eapply run_delete; [exact Hx|]. wp. eexists. split_and!; [exact HI|done|by eapply index_insert_eq| | | |].
    + apply lookup_delete_eq.
    + intros k' Hk'. rewrite H1. by rewrite upd_ne.
    + done.
    + done.
  - wp. exists ioc. by split_and!.
Qed.

Lemma run_Forget held k : keeps held (Forget k).
Proof.
  intros w [H0 HN]. unfold Forget. wp. eapply run_GetIoContext; [eauto|by wp|]. intros ioc Hc Hi.
  wp. eapply run_io_context; [exact Hi|].
  wp. eapply run_mono; [by eapply run_Forget_info|]. cbn beta. intros _ w1 (ioc1 & H1 & Es & Hi1 & Ho & Hout & Hcon & Hlnk).
  wp. eapply run_io_context; [exact Hi1|]. rewrite <- Es in Hi1 |- *.
  assert (cons_ (sv w1) k = _connect_proxy_handlers ioc1 !! k /\
          lnks (sv w1) k = _channel_linkages ioc1 !! k) as [Ec El].
  { unfold cons_, lnks. by rewrite !(view_entry _ _ _ _ Hi1). }
  destruct (_channel_linkages ioc1 !! k) as [l|] eqn:El1; [|destruct (_connect_proxy_handlers ioc1 !! k) as [p|] eqn:Ep].
  - wp. split; [done|]. eapply (needed_drop _ _ _ _ _ _ k HN); [by left|by split; [apply Hout|]|].
    intros _. right. by rewrite El.
  - destruct (handler_alive _ _ _ _ _ H1 Hi1 Ep) as [Hp _].
    eapply run_mono; [by eapply run_erase_connect|]. cbn beta. intros _ ? ->.
    destruct (Inv0_drop_handler _ _ _ _ _ H1 Hi1 Ep Ho El1) as (HI & V1 & V2 & V3).
    split; [exact HI|]. eapply (needed_drop _ _ _ _ _ _ k HN).
    + right. intros k'. rewrite V2. unfold upd. by rewrite Hcon.
    + intros k' Hk'. rewrite V1, V3. by split; [apply Hout|].
    + rewrite V2, upd_eq. by intros [].
  - wp. split; [done|]. eapply (needed_drop _ _ _ _ _ _ k HN); [by left|by split; [apply Hout|]|].
    rewrite Ec. by intros [].
Qed.

(** ** Releasing a linkage *)

(** The state once the entry, the linkage and its descriptor are gone. *)
Definition without_link (k l : Z) (pl : ProxyLinkage L) (ioc : IoContext) (w : world) : world :=
  let s := set_io_context (<[Z.to_nat (owner (_slots (sv w)) k) :=
             with_linkages (delete k (_channel_linkages ioc)) ioc]> (_io_context (sv w))) (sv w) in
  let s := if IsOutgoingChannel k
           then set_outgoing_connections (u64 (_outgoing_connections (sv w) - 1)) s
           else set_incoming_connections (u64 (_incoming_connections (sv w) - 1)) s in
  put_linkages (delete l (linkages w)) (put_fds (delete (pl_fd pl) (fds w)) (put_sv s w)).

Lemma Inv0_drop_link held w k ioc l pl : Inv0 held w ->
  index (_io_context (sv w)) (owner (_slots (sv w)) k) = Some ioc ->
  linkages w !! l = Some pl -> channel (context pl) = k ->
  let w' := without_link k l pl ioc w in
  Inv0 held w' /\ same (outs (sv w')) (outs (sv w)) /\
  same (cons_ (sv w')) (cons_ (sv w)) /\ same (lnks (sv w')) (upd (lnks (sv w)) k None).
Proof.
  intros [Hc Ho Hw Hj Hl Hpool] Hi Hk Hch w'.
  assert (same (outs (sv w')) (outs (sv w)) /\ same (cons_ (sv w')) (cons_ (sv w)) /\
    same (lnks (sv w')) (upd (lnks (sv w)) k None)) as (V1 & V2 & V3).
  { unfold w', without_link. destruct (IsOutgoingChannel k); split_and!.
    all: try by apply (view_same _ _ _ _ _ _ Hi).
    all: by apply (view_upd _ _ _ _ _ _ _ _ Hi); [|apply lookup_delete_upd]. }
  split; [|done]. pose proof (own_drop_link Ho k l pl Hk Hch) as HD. rewrite <- V1, <- V2, <- V3 in HD.
  clear V1 V2 V3. unfold w', without_link in *. destruct (IsOutgoingChannel k);
    (constructor; [by apply (ctx_erase _ _ Hc); [| | |apply delete_subseteq]|exact HD|done..]).
Qed.

Lemma run_ReleaseChannel held w l pl (k := channel (context pl)) : Inv held w ->
  linkages w !! l = Some pl ->
  run (ReleaseChannel k) w (fun _ w' => exists w1, Inv held w1 /\
    linkages w' = linkages w /\ fds w' = fds w /\
    w1 = put_linkages (delete l (linkages w')) (put_fds (delete (pl_fd pl) (fds w')) w')).
Proof.
  intros [H0 HN] Hl.
  destruct (ow_live _ _ _ _ _ _ _ _ _ _ _ _ _ _ (inv_own _ _ H0) _ _ Hl) as (_ & _ & Hk & Hcon).
  unfold ReleaseChannel. wp. eapply run_GetIoContext; [exact H0| |].
  { intros E. fold k in Hk. rewrite E in Hk. unfold lnks in Hk. exfalso.
    destruct (ctx_at _ _ (inv_ctx _ _ H0) kInvalidChannel) as [ioc Hi].
    rewrite (view_entry _ _ _ _ Hi) in Hk.
    assert (valid_key (_slots (sv w)) (owner (_slots (sv w)) kInvalidChannel) (_channel ioc) kInvalidChannel) as Hv.
    { apply (cx_keys _ _ (inv_ctx _ _ H0) _ _ _ Hi). right; right. by exists l. }
    destruct (cx_ctx _ _ (inv_ctx _ _ H0) _ _ Hi) as (_ & ? & _).
    eapply valid_key_owner in Hv as [_ ?]; [done|apply H0|lia]. }
  intros ioc Hc Hi. wp. eapply run_io_context; [exact Hi|]. wp.
  destruct (Inv0_drop_link _ _ _ _ _ _ H0 Hi Hl eq_refl) as (HI & V1 & V2 & V3). fold k in HI, V1, V2, V3.
  unfold without_link in *. apply run_if; intros Hkind.
  - apply negb_true_iff in Hkind. rewrite Hkind in *. wp. eexists. split_and!; [|done|done|done].
    split; [exact HI|]. eapply (needed_drop _ _ _ _ _ _ k HN); [by left| |].
    + intros k' Hk'. by rewrite V3, upd_ne.
    + rewrite V2. intros [p Hp].
      destruct (ow_con _ _ _ _ _ _ _ _ _ _ _ _ _ _ (inv_own _ _ H0) _ _ Hp) as (? & _). congruence.
  - apply negb_false_iff in Hkind. rewrite Hkind in *. wp.
    assert (outs (sv w) k = _outgoing_informations ioc !! k /\
            cons_ (sv w) k = _connect_proxy_handlers ioc !! k) as [Eo Ec].
    { unfold outs, cons_. by rewrite !(view_entry _ _ _ _ Hi). }
    destruct (_outgoing_informations ioc !! k) as [q|] eqn:Eq.
    + wp. eexists. split_and!; [|done|done|done].
      split; [exact HI|]. eapply (needed_drop _ _ _ _ _ _ k HN); [by left| |].
      * intros k' Hk'. by rewrite V3, upd_ne.
      * intros _. left. by rewrite V1, Eo.
    + fold k in Hcon. rewrite Hkind in Hcon. rewrite Hcon in Ec. rewrite <- Ec.
      destruct (handler_alive _ _ _ _ _ H0 Hi (eq_sym Ec)) as [Hp _].
      eapply run_mono; [eapply run_erase_connect; [exact Hp|by eapply index_insert_eq]|].
      cbn beta. intros _ ? ->. eexists. split_and!; [|done|done|done].
      eapply Inv0_drop_handler in HI as (HI' & W1 & W2 & W3); [|by eapply index_insert_eq|exact (eq_sym Ec)|exact Eq|apply lookup_delete_eq].
      split; [exact HI'|]. eapply (needed_drop _ _ _ _ _ _ k HN).
      * right. intros k'. rewrite W2. unfold upd. case_decide; [done|]. by rewrite V2.
      * intros k' Hk'. rewrite W1, W3, V3. split; [done|]. by rewrite upd_ne.
      * rewrite W2, upd_eq. by intros [].
Qed.

Lemma run_Release held w l : Inv held w -> is_Some (linkages w !! l) ->
  run (Release l) w (fun _ w' => Inv held w' /\ linkages w' = delete l (linkages w)).
Proof.
  intros HI [pl Hl]. unfold Release, ProxyHandler_OnDisconnected. wp. eapply run_load; [exact Hl|].
  destruct (ow_live _ _ _ _ _ _ _ _ _ _ _ _ _ _ (inv_own _ _ (Inv_Inv0 _ _ HI)) _ _ Hl) as (_ & Hs & _).
  wp. apply run_call_OnDisconnected; [apply Hs|]. intros a. apply Inv_app with (a := a) in HI.
  eapply run_mono; [by eapply run_ReleaseChannel|]. cbn beta. intros _ w' (w1 & H1 & El & Ef & ->).
  assert (linkages w' !! l = Some pl) as Hl' by by rewrite El.
  assert (is_Some (fds w' !! pl_fd pl)) as [u Hu].
  { rewrite Ef. apply (ow_fds _ _ _ _ _ _ _ _ _ _ _ _ _ _ (inv_own _ _ (Inv_Inv0 _ _ HI))).
    right. by exists l, pl. }
  unfold delete_linkage. wp. eapply run_load; [exact Hl'|]. wp. eapply run_delete; [exact Hu|].
  eapply run_delete; [exact Hl'|]. split; [exact H1|]. cbn. by rewrite El.
Qed.

(** ** Making a linkage *)

Definition with_link (k l : Z) (pl : ProxyLinkage L) (ioc : IoContext) (nx : Z) (w : world) : world :=
  let s := set_io_context (<[Z.to_nat (owner (_slots (sv w)) k) :=
             with_linkages (insert_new k l (_channel_linkages ioc)) ioc]> (_io_context (sv w))) (sv w) in
  let s := if IsOutgoingChannel k
           then set_outgoing_connections (u64 (_outgoing_connections (sv w) + 1)) s
           else set_incoming_connections (u64 (_incoming_connections (sv w) + 1)) s in
  put_next nx (put_linkages (<[l := pl]> (linkages w)) (put_fds (<[pl_fd pl := tt]> (fds w)) (put_sv s w))).

Lemma Inv_add_link held w k ioc l pl nx : Inv held w ->
  index (_io_context (sv w)) (owner (_slots (sv w)) k) = Some ioc ->
  valid_key (_slots (sv w)) (owner (_slots (sv w)) k) (_channel ioc) k ->
  _channel_linkages ioc !! k = None ->
  next w <= l < nx -> next w <= pl_fd pl < nx ->
  channel (context pl) = k -> in_service (_slots (sv w)) pl ->
  (if IsOutgoingChannel k then _connect_proxy_handlers ioc !! k = Some (pl_handler pl)
   else (pl_handler pl ∈ _listen_proxy_handlers (sv w)) /\
        _incoming_connections (sv w) + 1 < maximum_incoming_connections (_configure (sv w))) ->
  Inv held (with_link k l pl ioc nx w).
Proof.
  intros [[Hc Ho Hw Hj Hl Hpool] HN] Hi Hv Hk ? ? Hch Hs Hhand. set (w' := with_link k l pl ioc nx w).
  assert (same (outs (sv w')) (outs (sv w)) /\ same (cons_ (sv w')) (cons_ (sv w)) /\
    same (lnks (sv w')) (upd (lnks (sv w)) k (Some l))) as (V1 & V2 & V3).
  { unfold w', with_link. destruct (IsOutgoingChannel k); split_and!.
    all: try by apply (view_same _ _ _ _ _ _ Hi).
    all: by apply (view_upd _ _ _ _ _ _ _ _ Hi); [|intros; apply lookup_insert_new]. }
  assert (lnks (sv w) k = None /\ cons_ (sv w) k = _connect_proxy_handlers ioc !! k) as [El Ec].
  { unfold lnks, cons_. by rewrite !(view_entry _ _ _ _ Hi). }
  split; [|rewrite V1, V2, V3; intros k' Hk'; unfold upd; case_decide; eauto].
  pose proof (own_next Ho nx ltac:(lia)) as Ho'.
  pose proof (own_add_link Ho' k l pl
    ltac:(apply eq_None_not_Some; intros [x Hx]; pose proof (proj1 (ow_live _ _ _ _ _ _ _ _ _ _ _ _ _ _ Ho _ _ Hx)); lia)
    ltac:(apply eq_None_not_Some; intros Hx; pose proof (ow_fd_next _ _ _ _ _ _ _ _ _ _ _ _ _ _ Ho _ Hx); lia)
    El ltac:(lia) ltac:(lia) Hch Hs) as HA. rewrite <- Ec in Hhand. specialize (HA Hhand).
  rewrite <- V1, <- V2, <- V3 in HA. clear V1 V2 V3.
  assert (job_inv (_slots (sv w)) (_workers (sv w)) (jobs w) (_jobs (sv w)) (_hashjobs (sv w))
    (commands (_io_workers (sv w))) held nx) as Hj' by (apply (job_next Hj); lia).
  assert (forall c', c' = with_linkages (insert_new k l (_channel_linkages ioc)) ioc ->
    ctx_inv (_slots (sv w)) (<[Z.to_nat (owner (_slots (sv w)) k) := c']> (_io_context (sv w)))) as Hctx.
  { intros c' ->. eapply (ctx_add _ _ Hc); [done|exact Hv|done..|]. intros k' Hne. cbn.
    rewrite lookup_insert_new by done. by rewrite decide_False by congruence. }
  destruct (ow_inc _ _ _ _ _ _ _ _ _ _ _ _ _ _ Ho) as [Einc _].
  pose proof (ow_max _ _ _ _ _ _ _ _ _ _ _ _ _ _ Ho) as Hmax.
  unfold w', with_link in *. destruct (IsOutgoingChannel k).
  - constructor; [by apply Hctx|exact HA|done|exact Hj'|done|done].
  - constructor; [by apply Hctx| |done|exact Hj'|done|done]. cbn in HA |- *.
    assert (u64 (_incoming_connections (sv w) + 1) = _incoming_connections (sv w) + 1) as ->; [|exact HA].
    unfold u64. apply Z.mod_small. destruct Hhand. unfold count in Einc. lia.
Qed.

Lemma run_GetEasyHandler held w p h (Q : option Z * bool -> world -> Prop) : Inv held w ->
  handlers w !! p = Some h ->
  (forall e b a, is_Some e -> Q (e, b) (put_app a w)) -> run (GetEasyHandler p) w Q.
Proof.
  intros HI Hp HQ. unfold GetEasyHandler. wp. eapply run_load; [exact Hp|].
  destruct (ow_hs _ _ _ _ _ _ _ _ _ _ _ _ _ _ (inv_own _ _ (Inv_Inv0 _ _ HI)) _ _ Hp) as (Hok & _).
  destruct (easy_factory h) as [f|] eqn:Ef; wp; [by apply HQ|].
  specialize (HQ (easy_handler h) false (app w)). destruct w. apply HQ. destruct Hok as [?|[? ?]]; [done|congruence].
Qed.

(** A linkage and its descriptor that do not outlive a failure. *)
Lemma Inv_next held w nx : Inv held w -> next w <= nx -> Inv held (put_next nx w).
Proof.
  intros [[Hc Ho Hw Hj Hl Hpool] HN] Hle. split; [|done]. constructor; try done.
  - by apply (own_next Ho).
  - by apply (job_next Hj).
Qed.

Lemma fresh_fd held w x : Inv held w -> next w <= x -> fds w !! x = None.
Proof.
  intros HI Hx. apply eq_None_not_Some. intros HS.
  pose proof (ow_fd_next _ _ _ _ _ _ _ _ _ _ _ _ _ _ (inv_own _ _ (Inv_Inv0 _ _ HI)) _ HS). lia.
Qed.

Lemma fresh_linkage held w x : Inv held w -> next w <= x -> linkages w !! x = None.
Proof.
  intros HI Hx. apply eq_None_not_Some. intros [y Hy].
  pose proof (proj1 (ow_live _ _ _ _ _ _ _ _ _ _ _ _ _ _ (inv_own _ _ (Inv_Inv0 _ _ HI)) _ _ Hy)). lia.
Qed.

Lemma destination_entry held w c ioc p : Inv held w ->
  index (_io_context (sv w)) (owner (_slots (sv w)) c) = Some ioc ->
  _outgoing_informations ioc !! c = Some p ->
  exists x h, infos w !! p = Some x /\ o_thread_id x = owner (_slots (sv w)) c /\
    _connect_proxy_handlers ioc !! c = Some (proxy_handler x) /\
    handlers w !! proxy_handler x = Some h /\ IsOutgoingChannel c = true /\
    valid_key (_slots (sv w)) (owner (_slots (sv w)) c) (_channel ioc) c.
Proof.
  intros [HI HN] Hi Hp.
  assert (outs (sv w) c = Some p /\ cons_ (sv w) c = _connect_proxy_handlers ioc !! c) as [Eo Ec].
  { unfold outs, cons_. by rewrite !(view_entry _ _ _ _ Hi). }
  destruct (ow_out _ _ _ _ _ _ _ _ _ _ _ _ _ _ (inv_own _ _ HI) _ _ Eo) as (x & Hx & Ht & Hcon).
  rewrite Ec in Hcon. destruct (handler_alive _ _ _ _ _ HI Hi Hcon) as [[h Hh] Hk].
  exists x, h. split_and!; try done. apply (cx_keys _ _ (inv_ctx _ _ HI) _ _ _ Hi). left. by exists p.
Qed.

Lemma run_DoReconnect held w c ioc p x conn (o := owner (_slots (sv w)) c) : Inv held w ->
  c <> kInvalidChannel -> index (_io_context (sv w)) o = Some ioc ->
  _channel_linkages ioc !! c = None ->
  _outgoing_informations ioc !! c = Some p -> infos w !! p = Some x ->
  run (DoReconnect o c x conn) w (fun r w' => Inv held w' /\
    match r with
    | Some l => 0 <= c_ret conn /\ linkages w !! l = None /\
        exists pl, linkages w' !! l = Some pl /\ channel (context pl) = c
    | None => linkages w' = linkages w
    end).
Proof.
  intros HI Hc Hi Hl Hp Hx. destruct (destination_entry _ _ _ _ _ HI Hi Hp) as (x' & h & Hx' & Ht & Hcon & Hh & Hk & Hv).
  rewrite Hx in Hx'. injection Hx' as <-. unfold DoReconnect. wp.
  eapply run_GetIoContext; [eauto|done|]. intros ioc' _ Hi'. fold o in Hi'. rewrite Hi in Hi'. injection Hi' as <-.
  wp. eapply run_GetEasyHandler; [exact HI|exact Hh|]. intros e b a He.
  destruct (worker_at held w o) as (lw & Hlw & Hid); [auto|apply owner_range, (Inv0_slots held); auto|].
  wp. eapply run_io_worker; [exact Hlw|]. rewrite Hid.
  apply Inv_app with (a := a) in HI. remember (put_app a w) as w1 eqn:Ew.
  assert (sv w1 = sv w /\ handlers w1 = handlers w /\ linkages w1 = linkages w) as (Es & Eh & El1) by by subst.
  apply run_if; intros Hret.
  { wp. apply run_call_OnError; [done|]. intros. wp. apply run_call_OnDisconnected; [done|]. intros. wp. split; [auto|done]. }
  wp. cbn [cput cget Fds]. unfold GetAbstractIo. wp. eapply run_load; [cbn; rewrite Eh; exact Hh|]. wp. cbn [cput cget Linkages].
  set (n := next w1). set (ctx := mkContext e b c n o).
  set (pl := mkProxyLinkage _ _ _ _). cbn [next put_next put_fds].
  destruct (l_Attach_ok o (base pl)) as (ok & l' & EA & Hok); [apply l_new_fresh|].
  eapply run_on_linkage; [apply lookup_insert_eq|exact EA|]. cbn [linkages put_linkages put_next put_fds].
  rewrite insert_insert_eq. cbn [context pl_handler pl_fd pl].
  destruct ok; cbn [negb].
  - destruct Hok as [Hlive Hwk]; [done|]. wp.
    destruct (l_set_timeouts_live (outgoing_receive_timeout (_configure (sv w))) (outgoing_receive_timeout (_configure (sv w)))
      (outgoing_send_timeout (_configure (sv w))) (outgoing_idle_timeout (_configure (sv w))) _ Hlive) as [Hlive' Hwk'].
    unfold set_timeouts. eapply run_on_linkage; [apply lookup_insert_eq|reflexivity|].
    cbn [linkages put_linkages put_next put_fds]. rewrite insert_insert_eq. cbn [context pl_handler pl_fd].
    wp. eapply run_io_context; [cbn; rewrite Es; exact Hi|]. wp.
    pose proof (Inv_add_link held w1 c ioc (n + 1) (mkProxyLinkage ctx (proxy_handler x) n
      (l_set_timeouts (outgoing_receive_timeout (_configure (sv w))) (outgoing_receive_timeout (_configure (sv w)))
      (outgoing_send_timeout (_configure (sv w))) (outgoing_idle_timeout (_configure (sv w))) l')) (n + 1 + 1) HI) as HA.
    unfold with_link in HA. rewrite Hk in HA. subst w1. split.
    + apply HA; try done; try (cbn; unfold n; cbn; lia).
      split_and!; try done. cbn. by rewrite Hwk'.
    + bprop. split; [done|]. split; [apply (fresh_linkage _ _ _ HI); unfold n; cbn; lia|].
      eexists. split; [apply lookup_insert_eq|done].
  - wp. apply run_call_OnError; [done|]. intros a1. wp. unfold delete_linkage. wp.
    eapply run_load; [apply lookup_insert_eq|]. wp.
    eapply run_delete; [apply lookup_insert_eq|]. eapply run_delete; [apply lookup_insert_eq|]. wp.
    cbn [cput cget Fds Linkages fds linkages put_fds put_linkages put_app put_next].
    rewrite !delete_insert_id by (by eapply fresh_fd || (eapply fresh_linkage; [exact HI|lia])).
    split; [|done]. apply (Inv_app a1) in HI.
    exact (Inv_next _ _ (n + 1 + 1) HI ltac:(unfold n; cbn; lia)).
Qed.

(** ** Connecting *)

(** There is a channel number left in every context. *)
Definition room (w : world) : Prop :=
  Forall (fun c => _channel c + _slots (sv w) < OUTGOING) (_io_context (sv w)).

Lemma room_at w i c : room w -> index (_io_context (sv w)) i = Some c ->
  _channel c + _slots (sv w) < OUTGOING.
Proof. intros Hr Hi. eapply Forall_lookup in Hr; [done|]. by apply index_nth. Qed.

Lemma u64_room held w i c : Inv held w -> room w -> index (_io_context (sv w)) i = Some c ->
  u64 (_channel c + _slots (sv w)) = _channel c + _slots (sv w).
Proof.
  intros [HI _] Hr Hi. pose proof (room_at _ _ _ Hr Hi). destruct (cx_ctx _ _ (inv_ctx _ _ HI) _ _ Hi) as (_ & ? & _).
  pose proof (Inv0_slots _ _ HI). apply Z.mod_small. unfold OUTGOING in *. lia.
Qed.

(** The I/O context after its next channel is taken. *)
Lemma run_AllocateChannel_number held w i ioc b (Q : Z -> world -> Prop) : Inv held w -> room w ->
  index (_io_context (sv w)) i = Some ioc ->
  (forall k w', w' = put_context i (with_channel (_channel ioc + _slots (sv w)) ioc) w ->
     k = next_key (_slots (sv w)) ioc (negb b) -> Inv held w' -> Q k w') ->
  run (AllocateChannel_number i b) w Q.
Proof.
  intros HI Hr Hi HQ. unfold AllocateChannel_number. wp. eapply run_io_context; [exact Hi|]. wp.
  pose proof (room_at _ _ _ Hr Hi) as Hlt. rewrite (u64_room _ _ _ _ HI Hr Hi). apply HQ; [done|..].
  - destruct (cx_ctx _ _ (inv_ctx _ _ (Inv_Inv0 _ _ HI)) _ _ Hi) as (_ & ? & _).
    pose proof (Inv0_slots _ _ (Inv_Inv0 _ _ HI)). cbn. destruct b; cbn; [done|].
    apply channel_of_lor. lia.
  - destruct HI as [[Hc Ho Hw Hj Hl Hpool] HN].
    assert (same (outs (sv w)) (outs (set_io_context (<[Z.to_nat i := with_channel (_channel ioc + _slots (sv w)) ioc]> (_io_context (sv w))) (sv w))) /\
      same (cons_ (sv w)) (cons_ (set_io_context (<[Z.to_nat i := with_channel (_channel ioc + _slots (sv w)) ioc]> (_io_context (sv w))) (sv w))) /\
      same (lnks (sv w)) (lnks (set_io_context (<[Z.to_nat i := with_channel (_channel ioc + _slots (sv w)) ioc]> (_io_context (sv w))) (sv w)))) as (V1 & V2 & V3).
    { split_and!; symmetry; by apply (view_same _ _ _ _ _ _ Hi). }
    rewrite V1, V2, V3 in Ho, HN. split; [|exact HN].
    constructor; [by apply ctx_bump|exact Ho|done..].
Qed.

(** The tables after a new destination [p] with its handler [ph]. *)
Definition new_destination (slots i p ph : Z) (ioc : IoContext) (s : EasyServer) : EasyServer :=
  let k := next_key slots ioc true in
  let c := with_channel (_channel ioc + slots) ioc in
  let c' := with_outgoing (insert_new k p (_outgoing_informations c))
              (with_connect (insert_new k ph (_connect_proxy_handlers c)) c) in
  set_io_context (<[Z.to_nat i := c']> (<[Z.to_nat i := c]> (_io_context s))) s.

Lemma connect_views s i ioc p ph (k := next_key (_slots s) ioc true) : ctx_inv (_slots s) (_io_context s) ->
  index (_io_context s) i = Some ioc -> _channel ioc + _slots s < OUTGOING ->
  let s' := new_destination (_slots s) i p ph ioc s in
  same (outs s') (upd (outs s) k (Some p)) /\ same (cons_ s') (upd (cons_ s) k (Some ph)) /\
  same (lnks s') (lnks s).
Proof.
  intros Hc Hi Hlt s'. destruct (next_key_fresh _ _ Hc _ _ true Hi Hlt) as (F1 & F2 & F3).
  destruct (next_key_owner _ _ Hc _ _ true Hi Hlt) as [Ho1 _].
  set (c := with_channel (_channel ioc + _slots s) ioc). fold k in F1, F2, F3, Ho1.
  assert (index (<[Z.to_nat i := c]> (_io_context s)) i = Some c) as Hic by by eapply index_insert_eq.
  assert (forall f, f c = f ioc -> same (view f (_slots s) (<[Z.to_nat i := c]> (_io_context s)))
       (view f (_slots s) (_io_context s))) as HV by (intros f Hf; by apply (view_same _ _ _ _ _ _ Hi)).
  split_and!; intros k'.
  - etransitivity; [apply (view_upd _ _ _ _ _ _ _ (Some p) Hic Ho1); intros; by apply lookup_insert_new|].
    unfold upd. case_decide; [done|]. by apply HV.
  - etransitivity; [apply (view_upd _ _ _ _ _ _ _ (Some ph) Hic Ho1); intros; by apply lookup_insert_new|].
    unfold upd. case_decide; [done|]. by apply HV.
  - etransitivity; [by apply (view_same _ _ _ _ _ _ Hic)|]. by apply HV.
Qed.

Lemma Inv_connect held w i ioc ph h p x : Inv held w -> index (_io_context (sv w)) i = Some ioc ->
  room w -> handler_ok h -> proxy_handler x = ph -> o_thread_id x = i ->
  next w <= ph < p -> 
  let k := next_key (_slots (sv w)) ioc true in
  let c := with_channel (_channel ioc + _slots (sv w)) ioc in
  let w' := put_next (p + 1) (put_infos (<[p := x]> (infos w)) (put_handlers (<[ph := h]> (handlers w)) w)) in
  Inv held (put_context i (with_outgoing (insert_new k p (_outgoing_informations c))
              (with_connect (insert_new k ph (_connect_proxy_handlers c)) c)) (put_context i c w')).
Proof.
  intros [[Hc Ho Hw Hj Hl Hpool] HN] Hi Hr Hh Hx Ht Hlt k c w'. pose proof (room_at _ _ _ Hr Hi) as Hlt'.
  destruct (next_key_fresh _ _ Hc _ _ true Hi Hlt') as (F1 & F2 & F3).
  destruct (next_key_owner _ _ Hc _ _ true Hi Hlt') as [Ho1 Hk].
  pose proof (next_key_valid _ _ Hc _ _ true Hi Hlt') as Hv.
  pose proof (ctx_bump _ _ Hc _ _ Hi Hlt') as Hb. fold c k in F1, F2, F3, Ho1, Hk, Hv, Hb.
  assert (index (<[Z.to_nat i := c]> (_io_context (sv w))) i = Some c) as Hic by by eapply index_insert_eq.
  set (w2 := put_context i _ (put_context i c w')).
  assert (same (outs (sv w2)) (upd (outs (sv w)) k (Some p)) /\
    same (cons_ (sv w2)) (upd (cons_ (sv w)) k (Some ph)) /\
    same (lnks (sv w2)) (lnks (sv w))) as (V1 & V2 & V3) by exact (connect_views (sv w) i ioc p ph Hc Hi Hlt').
  assert (outs (sv w) k = None /\ cons_ (sv w) k = None) as [Eo Ec].
  { unfold outs, cons_. rewrite <- Ho1 in Hi. by rewrite !(view_entry _ _ _ _ Hi). }
  pose proof (own_next Ho (p + 1) ltac:(lia)) as Ho'.
  assert (forall q, next w <= q -> handlers w !! q = None) as Fh.
  { intros q Hq. apply eq_None_not_Some. intros [y Hy].
    pose proof (proj1 (proj2 (ow_hs _ _ _ _ _ _ _ _ _ _ _ _ _ _ Ho _ _ Hy))). lia. }
  assert (infos w !! p = None) as Fp.
  { apply eq_None_not_Some. intros [y Hy]. pose proof (proj1 (ow_ifs _ _ _ _ _ _ _ _ _ _ _ _ _ _ Ho _ _ Hy)). lia. }
  assert (ph ∉ _listen_proxy_handlers (sv w)) as Fl.
  { intros Hin. apply (ow_listen _ _ _ _ _ _ _ _ _ _ _ _ _ _ Ho) in Hin as [y Hy]. by rewrite Fh in Hy by lia. }
  pose proof (own_connect Ho' k ph h p x Ec Eo (Fh ph ltac:(lia)) Fp ltac:(lia) ltac:(lia) Fl Hk Hh Hx
    (eq_trans Ht (eq_sym Ho1))) as HA. rewrite <- V1, <- V2 in HA. pose proof V3 as V3'. rewrite <- V3' in HA.
  split; [|rewrite V1, V2, V3; intros k' Hk'; unfold upd in *; case_decide; [by left; exists p|by apply HN]].
  constructor; [|exact HA|done|apply (job_next Hj); cbn; lia|done|done].
  eapply (ctx_add _ _ Hb); [exact Hic|exact Hv|done|done|]. intros k' Hne. cbn.
  rewrite !lookup_insert_new by done. by rewrite !decide_False by exact (not_eq_sym Hne).
Qed.

(** The thread of a new outgoing channel. *)
Definition chosen_thread (rand : Z) (o : ConnectOption) (slots : Z) : Z :=
  if (c_thread_id o <? 0) || (slots <=? c_thread_id o) then Z.rem rand slots else c_thread_id o.

Definition one_handler (o : ConnectOption) : bool :=
  negb (Bool.eqb (bool_decide (is_Some (c_easy_handler o))) (bool_decide (is_Some (c_easy_factory o)))).

Lemma run_Connect held rand o w (i := chosen_thread rand o (_slots (sv w))) : Inv held w -> room w -> 0 <= rand ->
  run (Connect rand o) w (fun r w' => Inv held w' /\
    if one_handler o then exists ioc, index (_io_context (sv w)) i = Some ioc /\
      r = next_key (_slots (sv w)) ioc true /\
      sv w' = new_destination (_slots (sv w)) i (next w + 1) (next w) ioc (sv w) /\
      infos w' !! (next w + 1) = Some (mkOutgoing (next w) (connect_socket o) (connect_option o) i) /\
      handlers w' !! next w = Some (mkProxyHandler (Option_new false) (c_ssl o) (c_easy_handler o) (c_easy_factory o)) /\
      linkages w' = linkages w
    else r = kInvalidChannel /\ w' = w).
Proof.
  intros HI Hr Hrand. unfold Connect.
  unfold one_handler. destruct (Bool.eqb _ _) eqn:Eh; [by wp|]. cbn [negb]. wp.
  pose proof (Inv0_slots _ _ (Inv_Inv0 _ _ HI)) as Hs.
  destruct (inv_workers _ _ (Inv_Inv0 _ _ HI)) as [Hlen _]. rewrite Hlen.
  destruct (Z.eqb_spec (_slots (sv w)) 0); [lia|]. unfold kMaximumSlots in Hs.
  assert (signed 32 (_slots (sv w)) = _slots (sv w)) as ->.
  { unfold signed. rewrite (Z.mod_small (_slots (sv w))) by lia.
    by rewrite (proj2 (Z.ltb_lt _ (2 ^ (32 - 1)))) by (simpl; lia). }
  fold (chosen_thread rand o (_slots (sv w))). fold i. assert (0 <= i < _slots (sv w)) as Hi.
  { unfold i, chosen_thread. destruct ((c_thread_id o <? 0) || (_slots (sv w) <=? c_thread_id o)) eqn:E; bprop; [|lia].
    apply Z.rem_bound_pos; lia. }
  clearbody i. destruct (index_some (_io_context (sv w)) i) as [ioc Hioc].
  { by rewrite (cx_len _ _ (inv_ctx _ _ (Inv_Inv0 _ _ HI))). }
  wp. eapply run_io_context; [exact Hioc|]. wp. cbn [cput cget Handlers Infos].
  pose proof (u64_room _ _ _ _ HI Hr Hioc) as Hu. pose proof (room_at _ _ _ Hr Hioc) as Hlt.
  unfold AllocateChannel_number. wp. eapply run_io_context; [exact Hioc|]. wp. cbn [_channel with_channel negb].
  match goal with |- context [u64 ?x] => change (u64 x) with (u64 (_channel ioc + _slots (sv w))) end.
  rewrite Hu. destruct (cx_ctx _ _ (inv_ctx _ _ (Inv_Inv0 _ _ HI)) _ _ Hioc) as (_ & ? & _).
  rewrite channel_of_lor by (cbn; lia).
  eapply run_io_context; [cbn; by eapply index_insert_eq|]. wp.
  split.
  - refine (Inv_connect held w i ioc (next w) _ (next w + 1) _ HI Hioc Hr _ _ _ _); [|done|done|lia].
    unfold handler_ok. cbn. destruct (c_easy_handler o), (c_easy_factory o); try done; eauto.
  - exists ioc. split; [exact Hioc|]. split; [done|]. split; [reflexivity|]. cbn.
    by rewrite !lookup_insert_eq.
Qed.

(** ** Accepting *)

(** [w] with a descriptor that no one owns yet. *)
Definition opened (w : world) : world :=
  put_next (next w + 1) (put_fds (<[next w := tt]> (fds w)) w).

(** The linkages that AllocateChannel makes, on the descriptor [fd]. *)
Definition incoming (fd : Z) (b : L) : Prop :=
  exists s r c x t, b = l_set_timeouts r c x t (l_new s false false fd).

Lemma incoming_fresh fd b : incoming fd b -> l_fresh b.
Proof. intros (? & ? & ? & ? & ? & ->). apply l_set_timeouts_fresh, l_new_fresh. Qed.

(** The worker [i] and the handlers refuse none of them when it starts. *)
Definition attach_accepts (i : Z) : Prop :=
  forall fd b b', incoming fd b -> l_Attach i b <> Ok (false, b').

(** What AllocateChannel makes of an accepted descriptor; [w1] is the state
    without it. *)
Record accepted (held : list Z) (p : ProxyListener) (i fd : Z) (w1 : world) (ioc : IoContext)
  (k : Z) (pl : ProxyLinkage L) : Prop := {
  ac_inv : Inv held w1;
  ac_next : next w1 = fd;
  ac_ioc : index (_io_context (sv w1)) i = Some ioc;
  ac_owner : owner (_slots (sv w1)) k = i;
  ac_key : valid_key (_slots (sv w1)) i (_channel ioc) k;
  ac_kind : IsOutgoingChannel k = false;
  ac_fresh : _channel_linkages ioc !! k = None;
  ac_channel : channel (context pl) = k;
  ac_thread : io_thread_id (context pl) = i;
  ac_handler : is_Some (ctx_handler (context pl));
  ac_fd : pl_fd pl = fd;
  ac_listen : pl_handler pl ∈ _listen_proxy_handlers (sv w1);
  ac_new : incoming fd (base pl);
  ac_limit : _incoming_connections (sv w1) + 1 < maximum_incoming_connections (_configure (sv w1))
}.

Lemma run_AllocateChannel_linkage w i tid fd ph h c ioc (Q : option Z -> world -> Prop) :
  handlers w !! ph = Some h -> handler_ok h -> index (_io_context (sv w)) i = Some ioc ->
  (forall pl a, channel (context pl) = c -> io_thread_id (context pl) = tid ->
     is_Some (ctx_handler (context pl)) -> pl_fd pl = fd -> pl_handler pl = ph -> incoming fd (base pl) ->
     Q (Some (next w)) (put_context i (with_linkages (insert_new c (next w) (_channel_linkages ioc)) ioc)
       (put_linkages (<[next w := pl]> (linkages w)) (put_next (next w + 1) (put_app a w))))) ->
  run (AllocateChannel_linkage i tid fd ph c) w Q.
Proof.
  intros Hh Hok Hi HQ. unfold AllocateChannel_linkage. wp.
  assert (run (GetEasyHandler ph) w (fun r w' => is_Some r.1 /\ exists a, w' = put_app a w)) as HG.
  { unfold GetEasyHandler. wp. eapply run_load; [exact Hh|].
    destruct (easy_factory h) eqn:Ef; wp; [by eauto|]. split; [destruct Hok as [?|[? ?]]; [done|congruence]|].
    exists (app w). by destruct w. }
  eapply run_mono; [exact HG|]. intros [e auto] ? [He [a ->]]. unfold GetAbstractIo. wp.
  eapply run_load; [exact Hh|]. wp. unfold set_timeouts.
  eapply run_on_linkage; [apply lookup_insert_eq|reflexivity|]. wp.
  eapply run_io_context; [exact Hi|]. wp. cbn [linkages put_linkages put_next put_app cget cput Linkages].
  rewrite insert_insert_eq. apply HQ; try done. cbn. unfold incoming. eauto 10.
Qed.

Lemma run_AllocateChannel held w i p prepared : Inv held w -> room w -> 0 <= i < _slots (sv w) ->
  (l_proxy_handler p ∈ _listen_proxy_handlers (sv w)) ->
  run (AllocateChannel i (next w) (l_proxy_handler p) prepared) (opened w) (fun r w' =>
    match r with
    | None => exists w1, Inv held w1 /\ next w1 = next w /\ w' = opened w1
    | Some l => exists w1 ioc k pl, accepted held p i (next w) w1 ioc k pl /\ l = next w + 1 /\
        w' = with_link k l pl ioc (next w + 1 + 1) w1
    end).
Proof.
  intros HI Hr Hi Hph. unfold AllocateChannel.
  destruct (worker_at held w i) as (x & Hx & Hid); [auto|done|].
  wp. eapply run_io_worker; [exact Hx|]. rewrite Hid.
  destruct (index_some (_io_context (sv w)) i) as [ioc Hioc].
  { by rewrite (cx_len _ _ (inv_ctx _ _ (Inv_Inv0 _ _ HI))). }
  wp. eapply run_io_context; [exact Hioc|]. wp. cbn [sv put_next put_fds opened].
  pose proof (inv_own _ _ (Inv_Inv0 _ _ HI)) as Hown.
  destruct (ow_inc _ _ _ _ _ _ _ _ _ _ _ _ _ _ Hown) as [Einc Hinc].
  pose proof (ow_max _ _ _ _ _ _ _ _ _ _ _ _ _ _ Hown) as Hmax.
  assert (u64 (_incoming_connections (sv w) + 1) = _incoming_connections (sv w) + 1 /\
          u64 (_incoming_connections (sv w) + 1 - 1) = _incoming_connections (sv w)) as [Eu Ed].
  { unfold count in Einc. rewrite Z.add_simpl_r. split; apply Z.mod_small; destruct Hinc; lia. }
  rewrite Eu. apply run_if; intros Hlim; wp; cbn [_incoming_connections set_incoming_connections].
  { match goal with |- context [u64 (?x - 1)] => change x with (_incoming_connections (sv w) + 1) end. rewrite Ed. exists w. split_and!; [done|done|]. by destruct w as [[] ? ? ? ? ? ? ? ?]. }
  bprop. unfold AllocateChannel_number. wp. eapply run_io_context; [exact Hioc|]. wp.
  pose proof (u64_room _ _ _ _ HI Hr Hioc) as Hu. pose proof (room_at _ _ _ Hr Hioc) as Hlt.
  match goal with |- context [u64 ?x] => change (u64 x) with (u64 (_channel ioc + _slots (sv w))) end.
  rewrite Hu. cbn [negb].
  set (w1 := put_context i (with_channel (_channel ioc + _slots (sv w)) ioc) w).
  assert (Inv held w1) as HI1.
  { pose proof (run_AllocateChannel_number held w i ioc true (fun _ w' => w' = w1 /\ Inv held w') HI Hr Hioc) as HA.
    apply run_ok in HA as (k & w2 & _ & -> & HI1); [done|]. by intros k w' -> _. }
  apply run_if; intros Hprep; wp.
  { match goal with |- context [u64 (?x - 1)] => change x with (_incoming_connections (sv w) + 1) end. rewrite Ed. exists w1. split_and!; [done|done|]. by destruct w as [[] ? ? ? ? ? ? ? ?]. }
  pose proof (next_key_owner _ _ (inv_ctx _ _ (Inv_Inv0 _ _ HI)) _ _ false Hioc Hlt) as [Hko Hkk].
  pose proof (next_key_valid _ _ (inv_ctx _ _ (Inv_Inv0 _ _ HI)) _ _ false Hioc Hlt) as Hkv.
  destruct (next_key_fresh _ _ (inv_ctx _ _ (Inv_Inv0 _ _ HI)) _ _ false Hioc Hlt) as (_ & _ & Hkf).
  destruct (ow_listen _ _ _ _ _ _ _ _ _ _ _ _ _ _ Hown) as [_ Hli]. destruct (Hli _ Hph) as [h Hh].
  destruct (ow_hs _ _ _ _ _ _ _ _ _ _ _ _ _ _ Hown _ _ Hh) as (Hok & _).
  eapply run_AllocateChannel_linkage; [exact Hh|exact Hok|by eapply index_insert_eq|].
  intros pl a Hch Ht He Hfd Hpl Hnew.
  exists (put_app a w1), (with_channel (_channel ioc + _slots (sv w)) ioc), (next_key (_slots (sv w)) ioc false), pl.
  split_and!.
  - constructor; try done; [by apply Inv_app|by eapply index_insert_eq|by rewrite Hpl].
  - done.
  - unfold with_link. rewrite Hkk. cbn [sv put_app put_context put_sv _slots set_io_context w1].
    rewrite Hko, Hfd. cbn [_incoming_connections set_io_context]. rewrite Eu. by destruct w as [[] ? ? ? ? ? ? ? ?].
Qed.

Lemma Inv_close held w : Inv held w ->
  Inv held (put_next (next w + 1) (put_fds (delete (next w) (<[next w := tt]> (fds w))) w)).
Proof.
  intros HI. rewrite delete_insert_id by (by eapply fresh_fd). apply (Inv_next _ _ (next w + 1)) in HI; [|lia].
  by destruct w.
Qed.

Lemma run_OnReadable held w n i p a prepared : Inv held w -> room w -> 0 <= i < _slots (sv w) ->
  index (_listeners (sv w)) n = Some p ->
  attach_accepts i ->
  match a with AcceptError e => e ∈ [EINTR; EAGAIN; ECONNABORTED] | AcceptFd _ _ => True end ->
  run (OnReadable n i a prepared) w (fun r w' => r = 1 /\ Inv held w').
Proof.
  intros HI Hr Hi Hp Hatt Ha. unfold OnReadable. wp. eapply run_the; [exact Hp|].
  assert (l_proxy_handler p ∈ _listen_proxy_handlers (sv w)) as Hph.
  { apply index_nth in Hp. pose proof (inv_listeners _ _ (Inv_Inv0 _ _ HI)) as HF.
    by eapply Forall_lookup in HF. }
  unfold Listener.OnReadable, Accept. cbn [host_open host_close host_CreateLinkage host_Attach host_delete server_acceptor].
  destruct a as [e|named pre]; wp.
  { cbn. set_unfold in Ha. destruct Ha as [->|[->|[->|[]]]]; cbn; by wp. }
  cbn [cput cget Fds]. change (put_next (next w + 1) (put_fds (<[next w := tt]> (fds w)) w)) with (opened w).
  assert (run (delete_ Fds (next w)) (opened w) (fun _ w' => Inv held w')) as Hclose.
  { eapply run_delete; [apply lookup_insert_eq|]. by apply Inv_close. }
  destruct named; cbn [negb]; [|wp; eapply run_mono; [exact Hclose|]; intros; by wp].
  destruct pre; cbn [negb]; [|wp; eapply run_mono; [exact Hclose|]; intros; by wp].
  wp. cbn -[opened AllocateChannel]. wp. eapply run_mono; [by apply run_AllocateChannel|]. cbn beta.
  intros [l|] w'.
  - intros (w1 & ioc & k & pl & [] & -> & ->). wp.
    destruct (l_Attach_ok i (base pl) (incoming_fresh _ _ ac_new0)) as ([] & l' & E & Hok); [|by destruct (Hatt _ _ _ ac_new0 E)].
    destruct (Hok eq_refl) as [Hlive Hwk].
    eapply run_on_linkage; [apply lookup_insert_eq|exact E|]. wp. split; [done|].
    pose proof (Inv_add_link held w1 k ioc (next w + 1) (mkProxyLinkage (context pl) (pl_handler pl) (pl_fd pl) l')
      (next w + 1 + 1) ac_inv0) as HA. rewrite ac_owner0 in HA. unfold with_link in *. cbn [linkages put_linkages put_next].
    rewrite insert_insert_eq. rewrite ac_owner0 in *. apply HA; cbn [pl_fd context pl_handler base]; rewrite ?ac_kind0; try done; try lia.
    unfold in_service; cbn [pl_fd context pl_handler base]. rewrite ac_channel0, ac_owner0. done.
  - intros (w1 & HI1 & En & ->). rewrite <- En. wp. eapply run_delete; [apply lookup_insert_eq|]. wp.
    split; [done|]. by apply Inv_close.
Qed.

End Methods.
