(* ===== verification/EasyServerJobs.v ===== *)
(** * The queues of the server

    The methods that queue, take, run and delete jobs, Send first; with those of
    EasyServerMethods.v, everything a thread does with a running server. *)

From S2P Require Import Prelude StateMonad Sockets LinkageWorker AbstractIo Listener EasyServer EasyServerInv EasyServerFacts EasyServerMethods.

Section Send.
Context {L A : Type} {LA : LinkageApi L} {EH : EasyHandlers A}.
Abbreviation world := (@world L A).
Implicit Types (w : world).

#[local] Hint Resolve Inv_Inv0 : core.
#[local] Hint Resolve Inv_app : core.

(** ** Sending *)

Lemma destination_info held w c ioc p : Inv held w ->
  index (_io_context (sv w)) (owner (_slots (sv w)) c) = Some ioc ->
  _outgoing_informations ioc !! c = Some p ->
  exists x, infos w !! p = Some x /\ o_thread_id x = owner (_slots (sv w)) c.
Proof.
  intros HI Hi Hp. destruct (destination_entry _ _ _ _ _ HI Hi Hp) as (x & _ & ? & ? & _). eauto.
Qed.

Lemma run_DoRealSend held c b conn w : Inv held w ->
  run (DoRealSend (owner (_slots (sv w)) c) c b conn) w (fun _ w' => Inv held w').
Proof.
  intros HI. unfold DoRealSend. wp. eapply run_GetIoContext; [eauto|by wp|]. intros ioc Hc Hi.
  wp. eapply run_io_context; [exact Hi|].
  apply run_bind, (run_mono _ _ (fun r w' => Inv held w' /\ forall l, r = Some l ->
    exists pl, linkages w' !! l = Some pl)).
  - destruct (_channel_linkages ioc !! c) as [l|] eqn:El.
    { wp. split; [done|]. intros ? [= <-].
      destruct (lnk_entry held w c ioc l) as (pl & Hl & _); [auto..|]. eauto. }
    unfold destination. destruct (IsOutgoingChannel c); [|by wp].
    destruct (_outgoing_informations ioc !! c) as [p|] eqn:Ep; [|by wp].
    destruct (destination_info _ _ _ _ _ HI Hi Ep) as (x & Hx & _). wp. eapply run_load; [exact Hx|].
    eapply run_mono; [by eapply run_DoReconnect|]. cbn beta. intros r w' [HI' Hr]. split; [done|].
    intros l ->. destruct Hr as (_ & _ & pl & ? & _). eauto.
  - intros [l|] w' [HI' Hr]; [|by wp]. destruct b as [b|]; [|by wp].
    destruct (Hr l eq_refl) as [pl Hl]. wp.
    eapply (run_live _ held); [apply l_Send_ok|done|exact Hl|]. intros sent l1 HI1 _ _.
    apply run_if; intros _; [|by wp]. wp. eapply run_load; [apply lookup_insert_eq|]. wp.
    destruct (ow_live _ _ _ _ _ _ _ _ _ _ _ _ _ _ (inv_own _ _ (Inv_Inv0 _ _ HI')) _ _ Hl) as (_ & Hs & _).
    apply run_call_OnError; [apply Hs|]. intros a. apply Inv_app with (a := a) in HI1. wp.
    eapply (run_live _ held); [apply l_Disconnect_ok|exact HI1|apply lookup_insert_eq|]. intros. by wp.
Qed.

Lemma run_Send_command held w c x b : Inv held w ->
  index (_io_workers (sv w)) (owner (_slots (sv w)) c) = Some x ->
  run (Send_command (owner (_slots (sv w)) c) c b) w (fun r w' => r = true /\ Inv held w' /\
    queued_command (owner (_slots (sv w)) c) (SendJob_new (owner (_slots (sv w)) c) c b) w w').
Proof. intros HI Hx. unfold Send_command. by eapply run_new_command. Qed.

(** ** Send *)

(** [tid] is the thread of the I/O worker of the channel. *)
Definition own_thread (tid c : Z) (w : world) : Prop :=
  0 < tid /\ exists x, index (_io_workers (sv w)) (owner (_slots (sv w)) c) = Some x /\ running x = tid.

(** The linkage [l] gets [l_Send buf], which returns [r]. *)
Definition sent_by (l : Z) (buf : bytes) (w : world) (r : bool) (w' : world) : Prop :=
  exists pl b, linkages w !! l = Some pl /\ l_Send buf (base pl) = Ok (r, b) /\
    w' = put_linkages (<[l := mkProxyLinkage (context pl) (pl_handler pl) (pl_fd pl) b]> (linkages w)) w.

Definition known (c : Z) (w : world) : Prop :=
  IsOutgoingChannel c = true /\ is_Some (outs (sv w) c).

Inductive send_post (tid c : Z) (b : option bytes) (conn : connect_answer) (w : world)
  : bool -> world -> Prop :=
| send_invalid : c = kInvalidChannel -> send_post tid c b conn w false w
| send_unknown : c <> kInvalidChannel -> lnks (sv w) c = None -> ~ known c w ->
    send_post tid c b conn w true w
| send_empty : is_Some (lnks (sv w) c) -> empty_buffer b = true -> send_post tid c b conn w true w
| send_direct l buf r w' : lnks (sv w) c = Some l -> b = Some buf -> own_thread tid c w ->
    sent_by l buf w r w' -> send_post tid c b conn w r w'
| send_command w' : is_Some (lnks (sv w) c) /\ empty_buffer b = false \/
      lnks (sv w) c = None /\ known c w ->
    ~ own_thread tid c w ->
    queued_command (owner (_slots (sv w)) c) (SendJob_new (owner (_slots (sv w)) c) c b) w w' ->
    send_post tid c b conn w true w'
| send_not_connected w' : lnks (sv w) c = None -> known c w -> own_thread tid c w ->
    linkages w' = linkages w -> send_post tid c b conn w false w'
| send_connected l r w1 w' : lnks (sv w) c = None -> known c w -> own_thread tid c w ->
    0 <= c_ret conn -> linkages w !! l = None -> lnks (sv w1) c = Some l ->
    (if empty_buffer b then r = true /\ w' = w1 else exists buf, b = Some buf /\ sent_by l buf w1 r w') ->
    send_post tid c b conn w r w'.

Lemma own_thread_dec tid c w x : index (_io_workers (sv w)) (owner (_slots (sv w)) c) = Some x ->
  if (0 <? tid) && (tid =? running x) then own_thread tid c w else ~ own_thread tid c w.
Proof.
  intros Hx. unfold own_thread. rewrite Hx. destruct (Z.ltb_spec 0 tid), (Z.eqb_spec tid (running x)); cbn.
  - split; [done|]. by exists x.
  - intros [_ (? & [= <-] & ?)]. congruence.
  - intros [? _]. lia.
  - intros [? _]. lia.
Qed.

(** The sending itself. *)
Lemma run_l_Send held w l pl buf : Inv held w -> linkages w !! l = Some pl ->
  run (on_linkage l (l_Send buf)) w (fun r w' => Inv held w' /\ sent_by l buf w r w').
Proof.
  intros HI Hl.
  destruct (ow_live _ _ _ _ _ _ _ _ _ _ _ _ _ _ (inv_own _ _ (Inv_Inv0 _ _ HI)) _ _ Hl) as (_ & (Hlive & _) & _).
  destruct (l_Send_ok buf _ Hlive) as (r & b & E & Hb & Hw). eapply run_on_linkage; [exact Hl|exact E|].
  split; [by apply Inv_set_base|]. by exists pl, b.
Qed.

Lemma lnks_channel held w l pl : Inv held w -> linkages w !! l = Some pl ->
  lnks (sv w) (channel (context pl)) = Some l.
Proof.
  intros HI Hl.
  by destruct (ow_live _ _ _ _ _ _ _ _ _ _ _ _ _ _ (inv_own _ _ (Inv_Inv0 _ _ HI)) _ _ Hl) as (_ & _ & ? & _).
Qed.

(** The channel has a linkage. *)
Lemma run_Send_linked held rand tid c b conn w l : Inv held w -> c <> kInvalidChannel ->
  lnks (sv w) c = Some l ->
  run (Send rand tid c b conn) w (fun r w' => Inv held w' /\ send_post tid c b conn w r w').
Proof.
  intros HI Hne Hk. unfold Send. wp. eapply run_GetIoContext; [eauto|done|]. intros ioc Hc Hi.
  wp. eapply run_io_context; [exact Hi|]. pose proof Hk as El. unfold lnks in El.
  rewrite (view_entry _ _ _ _ Hi) in El. rewrite El.
  destruct b as [b|]; [|wp; split; [done|by apply send_empty]].
  apply run_if; intros Hz; [wp; split; [done|by apply send_empty]|].
  destruct (lnk_entry held w c ioc l) as (pl & Hl & Hch & Hs); [auto..|].
  destruct (service_worker held w pl) as (x & Hx & Hw); [auto..|]. rewrite Hch in Hx, Hw.
  wp. eapply run_load; [exact Hl|]. wp. eapply run_the; [exact Hw|]. wp. eapply run_io_worker; [exact Hx|].
  pose proof (own_thread_dec tid c w x Hx) as Hown. apply run_if; intros Ht; rewrite Ht in Hown.
  - eapply run_mono; [by eapply run_l_Send|]. cbn beta. intros r w' [HI' HS]. split; [done|].
    by eapply send_direct.
  - eapply run_mono; [by eapply run_Send_command|]. cbn beta. intros r w' (-> & HI' & HQ). split; [done|].
    apply send_command; [left; split; [by eexists|exact Hz]|done|done].
Qed.

(** It has only a destination. *)
Lemma run_Send_known held rand tid c b conn w : Inv held w -> c <> kInvalidChannel ->
  lnks (sv w) c = None -> known c w ->
  run (Send rand tid c b conn) w (fun r w' => Inv held w' /\ send_post tid c b conn w r w').
Proof.
  intros HI Hne Hk Hkn. unfold Send. wp. eapply run_GetIoContext; [eauto|done|]. intros ioc Hc Hi.
  wp. eapply run_io_context; [exact Hi|]. pose proof Hk as El. unfold lnks in El.
  rewrite (view_entry _ _ _ _ Hi) in El. rewrite El. unfold destination.
  pose proof Hkn as [-> [p Ep]]. unfold outs in Ep. rewrite (view_entry _ _ _ _ Hi) in Ep. rewrite Ep.
  destruct (destination_info _ _ _ _ _ HI Hi Ep) as (x & Hx & Ht). wp. eapply run_load; [exact Hx|].
  destruct (worker_at held w (owner (_slots (sv w)) c)) as (y & Hy & _); [auto|apply owner_range, (Inv0_slots held); auto|].
  pose proof (index_lt _ _ _ Hy) as Hrange. unfold GetIoWorker. rewrite Ht. wp.
  rewrite (proj2 (Z.ltb_ge (owner _ _) 0)), (proj2 (Z.leb_gt (zlen _) (owner _ _))) by lia. cbn [orb]. wp.
  eapply run_the; [exact Hy|]. wp. eapply run_io_worker; [exact Hy|].
  pose proof (own_thread_dec tid c w y Hy) as Hown. apply run_if; intros Htid; rewrite Htid in Hown.
  - wp. eapply run_mono; [by eapply run_DoReconnect|]. cbn beta. intros [l|] w' [HI' Hr].
    2: { wp. split; [done|]. by apply send_not_connected. }
    destruct Hr as (Hret & Hfresh & pl & Hl & Hch). pose proof (lnks_channel _ _ _ _ HI' Hl) as Hlc. rewrite Hch in Hlc.
    destruct b as [b|]; [|wp; split; [done|by eapply send_connected]]. apply run_if; intros Hz.
    { wp. split; [done|]. eapply send_connected; try done. cbn. by rewrite Hz. }
    eapply run_mono; [by eapply run_l_Send|]. cbn beta. intros r w2 [HI2 HS]. split; [done|].
    eapply send_connected; try done. cbn. rewrite Hz. by exists b.
  - eapply run_mono; [by eapply run_Send_command|]. cbn beta. intros r w' (-> & HI' & HQ). split; [done|].
    apply send_command; [by right|done|done].
Qed.

Lemma run_Send_post held rand tid c b conn w : Inv held w ->
  run (Send rand tid c b conn) w (fun r w' => Inv held w' /\ send_post tid c b conn w r w').
Proof.
  intros HI. destruct (decide (c = kInvalidChannel)) as [E|Hne].
  { unfold Send. wp. eapply run_GetIoContext; [eauto| |done]. intros _. wp. split; [done|by apply send_invalid]. }
  destruct (lnks (sv w) c) as [l|] eqn:El; [by eapply run_Send_linked|].
  destruct (IsOutgoingChannel c) eqn:Ek, (outs (sv w) c) as [p|] eqn:Eo;
    [by apply run_Send_known; [..|split; [|exists p]]|..].
  all: unfold Send; wp; eapply run_GetIoContext; [eauto|done|]; intros ioc _ Hi;
    wp; eapply run_io_context; [exact Hi|]; pose proof El as El'; unfold lnks in El';
    rewrite (view_entry _ _ _ _ Hi) in El'; rewrite El'; unfold destination; rewrite Ek;
    pose proof Eo as Eo'; unfold outs in Eo'; rewrite (view_entry _ _ _ _ Hi) in Eo'; rewrite ?Eo'; wp;
    (split; [done|]); apply send_unknown; try done; unfold known; rewrite ?Ek, ?Eo; (intros [? []]; done).
Qed.

Lemma run_SendChannel held rand tid c b conn : keeps held (Send rand tid c b conn).
Proof. intros w HI. eapply run_mono; [by apply run_Send_post|]. by intros ? ? [? _]. Qed.

End Send.

Section Jobs.
Context {L A : Type} {LA : LinkageApi L} {EH : EasyHandlers A}.
Abbreviation world := (@world L A).
Implicit Types (w : world).

#[local] Hint Resolve Inv_Inv0 : core.
#[local] Hint Resolve Inv_app : core.

(** The queues of the job workers and the global queue change. *)
Lemma Inv_queues held held' w q' hq' : Inv held w -> zlen hq' = zlen (_hashjobs (sv w)) ->
  Permutation (held ++ omap id (_jobs (sv w) ++ concat (_hashjobs (sv w))))
    (held' ++ omap id (q' ++ concat hq')) ->
  Inv held' (put_sv (set_hashjobs hq' (set_jobs q' (sv w))) w).
Proof.
  intros [[Hc Ho Hw Hj Hl Hpool] HN] Hlen Hp. split; [|done]. constructor; try done. cbn.
  eapply (job_move Hj); [done|]. unfold queued.
  rewrite (app_assoc (_jobs (sv w))), (app_assoc q').
  rewrite (omap_app _ (_jobs (sv w) ++ _)), (omap_app _ (q' ++ _)), (app_assoc held), (app_assoc held').
  by rewrite Hp.
Qed.

Lemma set_same_hashjobs (s : EasyServer) q : set_hashjobs (_hashjobs s) (set_jobs q s) = set_jobs q s.
Proof. by destruct s. Qed.

Lemma set_same_jobs (s : EasyServer) h : set_hashjobs h (set_jobs (_jobs s) s) = set_hashjobs h s.
Proof. by destruct s. Qed.

Lemma run_DoAppendJob held w job hash : Inv (omap id [job] ++ held) w ->
  0 < _workers (sv w) -> run (DoAppendJob job hash) w (fun _ w' => Inv held w').
Proof.
  intros HI Hn. unfold DoAppendJob. apply run_if; intros Hh.
  - wp. rewrite <- set_same_hashjobs. eapply Inv_queues; [exact HI|done|].
    rewrite <- !app_assoc, !omap_app. rewrite !(Permutation_app_swap_app _ (omap id [job])).
    by rewrite !(Permutation_app_comm (omap id [job])), <- !app_assoc.
  - bprop. pose proof (jb_hash _ _ _ _ _ _ _ _ (inv_jobs _ _ (Inv_Inv0 _ _ HI))) as Hlen.
    wp. { apply negb_true_iff, Z.eqb_neq. lia. }
    pose proof (Z.mod_pos_bound hash (zlen (_hashjobs (sv w)))) as Hm.
    assert (is_Some (_hashjobs (sv w) !! Z.to_nat (hash mod zlen (_hashjobs (sv w))))) as [q Hq].
    { apply lookup_lt_is_Some. unfold zlen in *. lia. }
    eapply run_the; [exact Hq|]. wp. rewrite <- set_same_jobs. eapply Inv_queues; [exact HI|apply zlen_insert|].
    destruct (concat_perm _ _ _ Hq) as (R & P1 & P2).
    rewrite !omap_app, (omap_Permutation _ _ _ P1), (omap_Permutation _ _ _ (P2 _)), !omap_app.
    rewrite (Permutation_app_comm (omap id [job])), <- !app_assoc. f_equiv.
    rewrite (Permutation_app_comm (omap id [job])), <- !app_assoc. f_equiv. f_equiv.
    apply Permutation_app_comm.
Qed.

(** A job that is taken is held by its thread. *)
Lemma run_GetJob held w id : Inv held w -> 0 <= id < _workers (sv w) ->
  run (GetJob id) w (fun r w' => _workers (sv w') = _workers (sv w) /\
    match r with
    | None => w' = w
    | Some job => Inv (omap Datatypes.id [job] ++ held) w'
    end).
Proof.
  intros HI Hid. pose proof (jb_hash _ _ _ _ _ _ _ _ (inv_jobs _ _ (Inv_Inv0 _ _ HI))) as Hlen.
  unfold GetJob. wp. destruct (index_some (_hashjobs (sv w)) id) as [mine Hm]; [lia|].
  eapply run_the; [exact Hm|]. apply index_nth in Hm. destruct (concat_perm _ _ _ Hm) as (R & P1 & P2).
  destruct mine as [|job mine].
  - destruct (_jobs (sv w)) as [|job q] eqn:Eq; wp; [done|]. split; [done|].
    rewrite <- set_same_hashjobs. eapply Inv_queues; [exact HI|done|]. rewrite Eq.
    change (job :: q) with ([job] ++ q). rewrite <- (app_assoc [job]), (omap_app _ [job]).
    rewrite !app_assoc. f_equiv. apply Permutation_app_comm.
  - wp. split; [done|]. rewrite <- set_same_jobs. eapply Inv_queues; [exact HI|apply zlen_insert|].
    rewrite !omap_app, (omap_Permutation _ _ _ P1), (omap_Permutation _ _ _ (P2 _)).
    change (job :: mine) with ([job] ++ mine). rewrite !omap_app, <- !app_assoc.
    rewrite (Permutation_app_swap_app (omap _ (_jobs (sv w)))). by rewrite (Permutation_app_swap_app held).
Qed.

(** ** Running a job *)

Lemma run_MessageJob held tid c m w : Inv held w -> is_Some (ctx_handler c) ->
  run (MessageJob_Run tid c m) w (fun _ w' => Inv held w').
Proof.
  intros HI [h Hh]. unfold MessageJob_Run, handler_of. wp. eapply run_the; [exact Hh|]. wp.
  match goal with |- run _ ?x _ => assert (Inv held x) as HI1 by auto; generalize dependent x end.
  intros w1 HI1. apply run_if; intros _; [|apply run_if; intros _].
  - wp. apply run_call_OnError; [by eexists|]. intros. wp. eapply run_mono; [apply (run_DisconnectChannel held); auto|]. cbn beta.
    intros. by wp.
  - wp. eapply run_mono; [by apply (run_DisconnectChannel held)|]. cbn beta. intros. by wp.
  - by wp.
Qed.

Lemma run_RegisterTimer_worker held w i after repeat timer : Inv held w -> 0 <= i < _slots (sv w) ->
  run (worker_RegisterTimer i after repeat timer) w (fun _ w' => Inv held w').
Proof.
  intros HI Hi. destruct (worker_at held w i) as (x & Hx & _); [auto..|]. unfold worker_RegisterTimer.
  wp. eapply run_io_worker; [exact Hx|].
  destruct (LinkageWorker.RegisterTimer after repeat (Some timer) true (worker x)) as [lw r] eqn:E.
  wp. eapply Inv_commands; [exact HI|exact Hx|]. f_equiv. cbn in E.
  by destruct ((after <? 0) || (repeat <=? 0)); injection E as <- _.
Qed.

Lemma run_Job_Run held tid conn j w : Inv held w -> job_ok (_slots (sv w)) j ->
  run (Job_Run tid conn j) w (fun _ w' => Inv held w').
Proof.
  intros HI Hj. destruct j as [c m|i after repeat timer|c f|i c b|r]; cbn in *.
  - by apply run_MessageJob.
  - wp. eapply run_mono; [by apply run_RegisterTimer_worker|]. cbn beta. intros. by wp.
  - wp. eapply run_mono; [by apply run_DoRealDisconnect|]. cbn beta. intros. by wp.
  - subst i. wp. eapply run_mono; [by apply run_DoRealSend|]. cbn beta. intros. by wp.
  - wp. auto.
Qed.

Lemma Inv_delete_job held w j : Inv (j :: held) w ->
  run (delete_ Jobs j) w (fun _ w' => Inv held w').
Proof.
  intros [[Hc Ho Hw Hj Hl Hpool] HN].
  destruct (jb_alive _ _ _ _ _ _ _ _ Hj j) as (x & Hx & _); [by left|].
  eapply run_delete; [exact Hx|]. split; [|done]. constructor; try done. by eapply (job_delete Hj).
Qed.

Lemma run_run_and_delete held tid conn j w : Inv (j :: held) w ->
  run (run_and_delete tid conn j) w (fun _ w' => Inv held w').
Proof.
  intros HI. unfold run_and_delete.
  destruct (jb_alive _ _ _ _ _ _ _ _ (inv_jobs _ _ (Inv_Inv0 _ _ HI)) j) as (x & Hx & Hok); [by left|].
  wp. eapply run_load; [exact Hx|]. wp. eapply run_mono; [by apply run_Job_Run|]. cbn beta.
  intros _ w' HI'. by apply Inv_delete_job.
Qed.

Lemma run_JobWorker held tid id conn w : Inv held w -> 0 <= id < _workers (sv w) ->
  run (JobWorker_Run_once tid id conn) w (fun _ w' => Inv held w').
Proof.
  intros HI Hid. unfold JobWorker_Run_once. wp. eapply run_mono; [by apply run_GetJob|]. cbn beta.
  intros [[j|]|] w' [_ Hr]; [|by wp|wp; by subst].
  wp. eapply run_mono; [by apply (run_run_and_delete held)|]. cbn beta. intros. by wp.
Qed.

(** The jobs of a batch are held by the I/O worker. *)
Lemma run_IoWorker held i w : Inv held w -> 0 <= i < _slots (sv w) ->
  run (IoWorker_commands i) w (fun r w' => Inv (omap id r ++ held) w').
Proof.
  intros HI Hi. destruct (worker_at held w i) as (x & Hx & _); [auto..|]. unfold IoWorker_commands.
  wp. eapply run_io_worker; [exact Hx|]. wp. eapply Inv_commands; [exact HI|exact Hx|].
  cbn. rewrite app_nil_r. apply Permutation_app_comm.
Qed.

Lemma run_held_job held tid conn j w : Inv held w -> (j ∈ held) ->
  run (let* x := load Jobs j in Job_Run tid conn x) w (fun _ w' => Inv held w').
Proof.
  intros HI Hj.
  destruct (jb_alive _ _ _ _ _ _ _ _ (inv_jobs _ _ (Inv_Inv0 _ _ HI)) j) as (x & Hx & Hok).
  { apply elem_of_app. by left. }
  wp. eapply run_load; [exact Hx|]. by apply run_Job_Run.
Qed.

(** ** Queueing *)

(** A job of the application, made and handed over. *)
Definition with_job {T : Type} (r : Z) (k : Z -> ST world T) : ST world T :=
  let* j := new_ Jobs (UserJob r) in k j.

Lemma run_QueueOrExecute held w tid r id : Inv held w -> 0 <= _workers (sv w) ->
  run (with_job r (fun j => QueueOrExecuteJob tid (Some j) id)) w (fun _ w' => Inv held w').
Proof.
  intros HI Hn. unfold with_job. wp. apply (Inv_new_job _ _ (UserJob r)) in HI; [|done].
  match goal with |- run _ ?x _ => change (Inv (next w :: held) x) in HI; assert (_workers (sv x) = _workers (sv w)) as E by done;
    generalize dependent x end. intros w1 HI E. unfold QueueOrExecuteJob. wp.
  apply run_if; intros Hz.
  - bprop. apply run_DoAppendJob; [exact HI|lia].
  - by apply run_run_and_delete.
Qed.

Lemma run_QueueIo held w r i : Inv held w -> 0 <= i < _slots (sv w) ->
  run (with_job r (fun j => QueueIo (Some j) i)) w (fun ok w' => ok = true /\ Inv held w').
Proof.
  intros HI Hi. destruct (worker_at held w i) as (x & Hx & _); [auto..|].
  unfold with_job, QueueIo. eapply run_mono; [by eapply run_new_command|]. cbn beta. tauto.
Qed.

Lemma run_QueueMessage held w l b : Inv held w -> is_Some (linkages w !! l) ->
  run (ProxyHandler_OnMessage l b) w (fun _ w' => Inv held w').
Proof.
  intros HI [pl Hl]. unfold ProxyHandler_OnMessage. wp. eapply run_load; [exact Hl|].
  destruct (ow_live _ _ _ _ _ _ _ _ _ _ _ _ _ _ (inv_own _ _ (Inv_Inv0 _ _ HI)) _ _ Hl) as (_ & (_ & _ & _ & [h Hh]) & _).
  wp. unfold handler_of. eapply run_the; [exact Hh|].
  apply run_if; intros Hz; [|wp; auto]. bprop. wp.
  apply (Inv_new_job _ _ (MessageJob (context pl) b)) in HI; [|by eexists].
  match goal with |- run _ (put_app ?a ?x) _ => change (Inv (next w :: held) x) in HI; apply (Inv_app a) in HI;
    assert (_workers (sv x) = _workers (sv w)) as E by done end.
  eapply run_mono; [apply run_DoAppendJob; [exact HI|]|].
  - cbn. pose proof (jb_hash _ _ _ _ _ _ _ _ (inv_jobs _ _ (Inv_Inv0 _ _ HI))) as Hlen. cbn in Hlen.
    pose proof (zlen_nonneg (_hashjobs (sv w))). lia.
  - intros. by wp.
Qed.

Lemma run_RegisterTimer held w rand tid after repeat t : Inv held w -> 0 <= rand ->
  run (RegisterTimer rand tid after repeat t) w (fun _ w' => Inv held w').
Proof.
  intros HI Hr. unfold RegisterTimer. destruct t as [t|]; [|by wp].
  apply run_if; intros _; [by wp|]. pose proof (Inv0_slots _ _ (Inv_Inv0 _ _ HI)) as Hs.
  destruct (inv_workers _ _ (Inv_Inv0 _ _ HI)) as [Hlen _]. wp. rewrite Hlen.
  destruct (Z.eqb_spec (_slots (sv w)) 0); [lia|]. unfold kMaximumSlots in Hs.
  unfold GetIoWorker. wp. rewrite Hlen. cbn [Z.ltb Z.compare orb].
  assert (signed 32 (_slots (sv w)) = _slots (sv w)) as ->.
  { unfold signed. rewrite (Z.mod_small (_slots (sv w))) by lia.
    by rewrite (proj2 (Z.ltb_lt _ (2 ^ (32 - 1)))) by (simpl; lia). }
  destruct (Z.eqb_spec (_slots (sv w)) 0); [lia|]. wp.
  set (i := Z.rem rand (_slots (sv w))). assert (0 <= i < _slots (sv w)) as Hi by (apply Z.rem_bound_pos; lia).
  destruct (worker_at held w i) as (x & Hx & _); [auto..|]. eapply run_the; [exact Hx|]. wp.
  eapply run_io_worker; [exact Hx|]. apply run_if; intros _.
  - wp. eapply run_mono; [by apply run_RegisterTimer_worker|]. cbn beta. intros. by wp.
  - eapply run_mono; [eapply run_new_command; [exact HI|exact Hx|done]|]. cbn beta. tauto.
Qed.

End Jobs.
