(* ===== verification/EasyServerInit.v ===== *)
(** * Starting the server

    [Idle]: a server without workers, before Initialize or after Shutdown; the
    listeners and the timers may be there.  Initialize makes of it a server
    that satisfies the invariant. *)

From S2P Require Import Prelude StateMonad Sockets AbstractIo Explode FixedThreadPool Listener LinkageWorker EasyServer EasyServerInv EasyServerFacts EasyServerMethods.

Section Init.
Context {L A : Type} {LA : LinkageApi L} {EH : EasyHandlers A}.
Abbreviation world := (@world L A).
Implicit Types (w : world).

Definition nothing : Z -> option Z := fun _ => None.

Definition timer_ok (t : Z * (Z * Z)) : Prop := 0 <= t.2.1 /\ 0 < t.2.2.

Definition listener_fds (s : EasyServer) : list Z := map (fun p => _listener (l_base p)) (_listeners s).

Record Idle (w : world) : Prop := {
  idle_slots : _slots (sv w) = 0;
  idle_workers : _workers (sv w) = 0;
  idle_io : _io_workers (sv w) = [];
  idle_hash : _hashjobs (sv w) = [];
  idle_queue : _jobs (sv w) = [];
  idle_pool : pool_idle (_pool (sv w));
  idle_own : own_inv 0 nothing nothing nothing
    (_listen_proxy_handlers (sv w)) (listener_fds (sv w))
    (handlers w) (infos w) (linkages w) (fds w) (next w)
    (_incoming_connections (sv w)) (_outgoing_connections (sv w))
    (maximum_incoming_connections (_configure (sv w)));
  idle_jobs : forall j, is_Some (jobs w !! j) -> j < next w;
  idle_listeners : Forall (fun p => l_proxy_handler p ∈ _listen_proxy_handlers (sv w))
    (_listeners (sv w));
  idle_timers : Forall timer_ok (_timers (sv w))
}.

Lemma own_idle slots slots' listen lfds hs ifs (ls : gmap Z (ProxyLinkage L)) fs nx inc out max :
  own_inv slots nothing nothing nothing listen lfds hs ifs ls fs nx inc out max ->
  own_inv slots' nothing nothing nothing listen lfds hs ifs ls fs nx inc out max.
Proof.
  intros []. constructor; auto; [done|]. intros l pl Hl. by destruct (ow_live _ _ Hl) as (_ & _ & ? & _).
Qed.

(** ** Before Initialize *)

Lemma Idle_new (a : A) (conf : Configure) :
  0 <= maximum_incoming_connections conf < 2 ^ 64 ->
  Idle (mkWorld (mkEasyServer [] [] [] [] [] [] [] FixedThreadPool_new conf 0 0 [] 0 0)
          1 ∅ ∅ ∅ ∅ ∅ a []).
Proof.
  intros Hm. constructor; try done; cbn; [|by intros j []].
  constructor; try done; try (intros ? ?; rewrite lookup_empty; done).
  - split; [constructor|]. by intros p Hp%elem_of_nil.
  - intros fd. rewrite lookup_empty. split; [by intros []|]. intros [Hin%elem_of_nil|(l & pl & ? & _)]; [done|].
    by rewrite lookup_empty in *.
  - constructor.
  - intros fd []. by rewrite lookup_empty in *.
  - split; [done|by left].
Qed.

Lemma run_Listen w o listens : Idle w ->
  run (Listen o listens) w (fun r w' => Idle w' /\ (r = true -> listens = true)).
Proof.
  intros HI. unfold Listen. destruct (Bool.eqb _ _) eqn:Eh; [by wp|].
  apply run_if; intros _; [by wp|]. wp. cbn [cput cget Handlers].
  set (h := mkProxyHandler _ _ _ _).
  assert (handler_ok h) as Hh.
  { unfold handler_ok, h. cbn. destruct (l_easy_handler o), (l_easy_factory o); try done; eauto. }
  destruct HI as [? ? ? ? ? ? Ho Hj Hl Ht].
  assert (handlers w !! next w = None) as Fh.
  { apply eq_None_not_Some. intros [y Hy]. pose proof (proj1 (proj2 (ow_hs _ _ _ _ _ _ _ _ _ _ _ _ _ _ Ho _ _ Hy))). lia. }
  pose proof (own_next Ho (next w + 1) ltac:(lia)) as Ho1.
  apply run_if; intros Hli.
  { eapply run_bind, run_delete; [apply lookup_insert_eq|]. wp.
    cbn [cput cget Handlers handlers put_handlers put_next]. rewrite delete_insert_id by done. split; [|done].
    constructor; try done. intros j Hj'. cbn. specialize (Hj _ Hj'). lia. }
  apply negb_false_iff in Hli. wp. cbn. rewrite idle_io0. cbn. split; [|done].
  assert (fds w !! (next w + 1) = None) as Ff.
  { apply eq_None_not_Some. intros HS. pose proof (ow_fd_next _ _ _ _ _ _ _ _ _ _ _ _ _ _ Ho _ HS). lia. }
  constructor; try done; cbn.
  - unfold listener_fds. cbn. rewrite map_app. cbn. pose proof (own_next Ho (next w + 1 + 1) ltac:(lia)) as [].
    destruct ow_listen as [Hnd Hlive]. constructor; auto.
    + intros k p Hp. destruct (ow_con k p Hp) as (? & ? & ?). done.
    + intros l pl Hpl. by destruct (ow_live _ _ Hpl) as (_ & _ & ? & _).
    + split.
      * apply NoDup_app. split_and!; [done| |apply NoDup_singleton].
        intros p Hp ->%list_elem_of_singleton. destruct (Hlive _ Hp). congruence.
      * intros p [Hp|Hp]%elem_of_app; [|apply list_elem_of_singleton in Hp as ->; by rewrite lookup_insert_eq].
        apply lookup_insert_is_Some. destruct (decide (next w = p)); auto.
    + intros p x [[<- <-]|[_ Hx]]%lookup_insert_Some.
      * split_and!; [done|lia|left]. apply elem_of_app. right. by apply list_elem_of_singleton.
      * destruct (ow_hs _ _ Hx) as (? & ? & [?|[k ?]]); [|done]. split_and!; [done..|left].
        apply elem_of_app. by left.
    + intros fd. rewrite lookup_insert_is_Some, ow_fds, elem_of_app, list_elem_of_singleton.
      destruct (decide (next w + 1 = fd)) as [<-|]; [tauto|]. split; [tauto|].
      intros [[?|?]|?]; [tauto|congruence|tauto].
    + apply NoDup_app. split_and!; [done| |apply NoDup_singleton].
      intros fd Hfd ->%list_elem_of_singleton. apply eq_None_not_Some in Ff. apply Ff, ow_fds. by left.
    + intros l pl Hpl. by destruct (ow_live _ _ Hpl) as (_ & _ & ? & _).
    + intros fd [<-|[_ Hfd]]%lookup_insert_is_Some; [lia|by apply ow_fd_next].
  - intros j Hj'. specialize (Hj _ Hj'). lia.
  - apply Forall_app. split.
    + eapply Forall_impl; [exact Hl|]. cbn. intros p Hp. apply elem_of_app. by left.
    + apply Forall_singleton, elem_of_app. right. by apply list_elem_of_singleton.
Qed.

Lemma run_RegisterTimer_idle w rand tid after repeat t : Idle w ->
  run (RegisterTimer rand tid after repeat t) w (fun _ w' => Idle w').
Proof.
  intros HI. unfold RegisterTimer. destruct t as [t|]; [|by wp]. apply run_if; intros Ht; [by wp|].
  wp. rewrite (idle_io _ HI). cbn. wp. destruct HI. constructor; try done. cbn.
  apply Forall_app. split; [done|]. apply Forall_singleton. bprop. split; cbn; lia.
Qed.

(** ** Initialize *)

(** What the loops of Initialize keep of the workers and of the listeners. *)
Definition ids (ws : list ProxyLinkageWorker) : list (Z * list (option Z)) :=
  map (fun x => (w_thread_id x, _commands (worker x))) ws.
Definition lids (ls : list ProxyListener) : list (Z * Z) :=
  map (fun p => (_listener (l_base p), l_proxy_handler p)) ls.

(** Two servers that differ in what the listeners and the loops know. *)
Definition alike (s s' : EasyServer) : Prop :=
  exists ws ls, s' = set_listeners ls (set_io_workers ws s) /\
    ids ws = ids (_io_workers s) /\ lids ls = lids (_listeners s).

Lemma alike_refl s : alike s s.
Proof. exists (_io_workers s), (_listeners s). by destruct s. Qed.

Lemma alike_trans s1 s2 s3 : alike s1 s2 -> alike s2 s3 -> alike s1 s3.
Proof.
  intros (ws & ls & -> & E1 & E2) (ws' & ls' & -> & E3 & E4). exists ws', ls'.
  split_and!; [done|by rewrite E3, <- E1|by rewrite E4, <- E2].
Qed.

Lemma ids_insert ws i x v : index ws i = Some x -> _commands v = _commands (worker x) ->
  ids (<[Z.to_nat i := with_worker v x]> ws) = ids ws.
Proof.
  intros Hi Hv. unfold ids. rewrite list_fmap_insert. apply list_insert_id.
  rewrite list_lookup_fmap, (index_nth _ _ _ Hi). cbn. by rewrite Hv.
Qed.

Lemma ids_index ws ws' i x : ids ws = ids ws' -> index ws i = Some x ->
  exists y, index ws' i = Some y /\ w_thread_id y = w_thread_id x.
Proof.
  intros E Hi. pose proof (index_lt _ _ _ Hi) as Hlt.
  destruct (index_some ws' i) as [y Hy].
  { apply (f_equal length) in E. unfold ids, zlen in *. rewrite !length_map in E. lia. }
  exists y. split; [done|]. apply index_nth in Hi, Hy.
  assert (ids ws !! Z.to_nat i = ids ws' !! Z.to_nat i) as E' by by rewrite E.
  unfold ids in E'. rewrite !list_lookup_fmap, Hi, Hy in E'. cbn in E'. congruence.
Qed.

Lemma run_AttachListeners_loop i todo : forall done w x, index (_io_workers (sv w)) i = Some x ->
  _listeners (sv w) = done ++ todo ->
  run (AttachListeners_loop i done todo) w (fun r w' => r = true /\
    exists s, w' = put_sv s w /\ alike (sv w) s).
Proof.
  induction todo as [|p q IH]; intros d w x Hx Hl; cbn [AttachListeners_loop].
  { wp. split; [done|]. exists (sv w). split; [by destruct w|apply alike_refl]. }
  wp. eapply run_io_worker; [exact Hx|].
  destruct (Listener.Attach (_listener (l_base p)) (Some (i, worker x)) (l_base p)) as [[ok l] lw] eqn:E.
  assert (ok = true /\ _listener l = _listener (l_base p) /\
    exists v, lw = Some (i, v) /\ _commands v = _commands (worker x)) as (-> & El & v & -> & Ev).
  { unfold Listener.Attach in E. case_decide; [by injection E as <- <- <-; eauto|].
    cbn in E. destruct (_events (worker x) !! _listener (l_base p)); injection E as <- <- <-; eauto. }
  wp. cbn [negb].
  set (s1 := set_io_workers _ _). assert (alike (sv w) s1) as Ha.
  { eexists _, _. split_and!; [reflexivity|by apply (ids_insert (_io_workers (sv w)) i x v)|].
    cbn. rewrite Hl. unfold lids. rewrite !map_app. cbn. by rewrite El. }
  eapply run_mono; [eapply (IH _ _ _); cbn|].
  - eapply index_insert_eq; exact Hx.
  - cbn. by rewrite <- app_assoc.
  - cbn beta. intros r w' (-> & s & -> & Hs). split; [done|]. exists s. split; [done|].
    by eapply alike_trans.
Qed.

Definition fresh_ids (n : nat) (i : Z) : list (Z * list (option Z)) :=
  map (fun k => (k, [])) (seqZ_ n i).

Lemma run_Initialize_io threads as_ : forall i w, zlen (_io_workers (sv w)) = i ->
  run (Initialize_io threads i as_) w (fun r w' => r = true /\ exists ws ls,
    w' = put_sv (set_listeners ls (set_io_workers ws (sv w))) w /\
    ids ws = ids (_io_workers (sv w)) ++ fresh_ids (length as_) i /\
    lids ls = lids (_listeners (sv w))).
Proof.
  induction as_ as [|a as_ IH]; intros i w Hi; cbn [Initialize_io].
  { wp. split; [done|]. exists (_io_workers (sv w)), (_listeners (sv w)).
    rewrite app_nil_r. by destruct w as [[] ? ? ? ? ? ? ? ?]. }
  wp. unfold AttachListeners. wp. eapply run_mono.
  { eapply (run_AttachListeners_loop i); cbn; [|done].
    unfold index, zlen in *. rewrite (proj2 (Z.ltb_ge i 0)) by lia.
    rewrite lookup_app_r by lia. replace (Z.to_nat i - length (_io_workers (sv w)))%nat with 0%nat by lia. done. }
  cbn beta. intros r w' (-> & s & -> & ws & ls & -> & Ew & El). cbn [negb].
  eapply run_mono; [apply IH; cbn|].
  - apply (f_equal length) in Ew. unfold ids, zlen in *. rewrite !length_map in Ew. cbn in Ew. rewrite length_app in Ew. cbn in Ew. lia.
  - cbn beta. intros r w' (-> & ws' & ls' & -> & Ew' & El'). split; [done|]. exists ws', ls'.
    split_and!; [done| |by rewrite El']. rewrite Ew'. cbn [sv put_sv _io_workers set_listeners set_io_workers].
    rewrite Ew. unfold ids. cbn. rewrite map_app. cbn. by rewrite <- app_assoc.
Qed.

Lemma run_Initialize_timers threads timers : forall rand w,
  Forall timer_ok timers -> Forall (fun r => 0 <= r) rand ->
  0 < zlen (_io_workers (sv w)) <= kMaximumSlots ->
  run (Initialize_timers threads rand timers) w (fun r w' => r = true /\ exists ws ts,
    w' = put_sv (set_timers ts (set_io_workers ws (sv w))) w /\
    ids ws = ids (_io_workers (sv w)) /\ (ts = [] \/ ts = _timers (sv w) /\ timers = [])).
Proof.
  induction timers as [|[t [after repeat]] q IH]; intros rand w Ht Hr Hs; cbn [Initialize_timers].
  { wp. split; [done|]. exists (_io_workers (sv w)), (_timers (sv w)).
    split_and!; [by destruct w as [[] ? ? ? ? ? ? ? ?]|done|by right]. }
  apply Forall_cons in Ht as [[Ha Hp] Ht]. cbn in Ha, Hp. unfold kMaximumSlots in Hs.
  unfold GetIoWorker. wp. cbn [Z.ltb Z.compare orb].
  assert (signed 32 (zlen (_io_workers (sv w))) = zlen (_io_workers (sv w))) as ->.
  { unfold signed. rewrite (Z.mod_small (zlen _)) by lia.
    by rewrite (proj2 (Z.ltb_lt _ (2 ^ (32 - 1)))) by (simpl; lia). }
  destruct (Z.eqb_spec (zlen (_io_workers (sv w))) 0); [lia|]. wp.
  set (i := Z.rem (hd 0 rand) _). assert (0 <= i < zlen (_io_workers (sv w))) as Hi.
  { apply Z.rem_bound_pos; [|lia]. by destruct Hr. }
  destruct (index_some _ _ Hi) as [x Hx]. eapply run_the; [exact Hx|]. wp.
  unfold worker_RegisterTimer. wp. eapply run_io_worker; [exact Hx|]. cbn [LinkageWorker.RegisterTimer].
  destruct (Z.ltb_spec after 0); [lia|]. destruct (Z.leb_spec repeat 0); [lia|]. cbn [orb]. wp. cbn [negb]. wp.
  eapply run_mono; [apply IH; cbn; [done|by destruct Hr|by rewrite zlen_insert]|].
  cbn beta. intros r w' (-> & ws & ts & -> & Ew & Et). split; [done|]. exists ws, ts.
  split_and!; [done| |].
  - etransitivity; [exact Ew|]. by apply (ids_insert (_io_workers (sv w)) i x).
  - left. destruct Et as [?|[-> ->]]; done.
Qed.

Lemma run_Initialize_append threads n : forall r w, _initializing (_pool (sv w)) = false ->
  run (Initialize_append threads n r) w (fun ok w' => ok = true /\ exists p,
    w' = put_sv (set_pool p (sv w)) w /\ _initializing p = false /\
    _threads p = _threads (_pool (sv w)) /\
    length (_pending_jobs p) = (length (_pending_jobs (_pool (sv w))) + n)%nat).
Proof.
  induction n as [|n IH]; intros r w Hp; cbn [Initialize_append].
  { wp. split; [done|]. exists (_pool (sv w)). split_and!; [by destruct w as [[] ? ? ? ? ? ? ? ?]|done|done|lia]. }
  unfold pool_call. wp. cbn [AppendJob]. rewrite Hp. wp. cbn [negb].
  eapply run_mono; [by apply IH|]. cbn beta. intros ok w' (-> & p & -> & Hp' & Et & El). split; [done|].
  exists p. split_and!; [done|done|done|]. rewrite El. cbn. rewrite length_app. cbn. lia.
Qed.

Lemma seqZ_index n i k : index (seqZ_ n i) k = if (0 <=? k) && (k <? Z.of_nat n) then Some (i + k) else None.
Proof.
  unfold index. destruct (Z.ltb_spec k 0); [by rewrite (proj2 (Z.leb_gt 0 k)) by lia|].
  rewrite (proj2 (Z.leb_le 0 k)) by lia. cbn [andb]. revert i k H. induction n as [|n IH]; intros i k H.
  - by rewrite (proj2 (Z.ltb_ge k (Z.of_nat 0))) by lia.
  - destruct (decide (k = 0)) as [->|]; cbn [seqZ_].
    + rewrite (proj2 (Z.ltb_lt 0 _)) by lia. by rewrite Z.add_0_r.
    + replace (Z.to_nat k) with (S (Z.to_nat (k - 1))) by lia. change (seqZ_ n (i + 1) !! Z.to_nat (k - 1) =
        if k <? Z.of_nat (S n) then Some (i + k) else None). rewrite IH by lia.
      destruct (Z.ltb_spec (k - 1) (Z.of_nat n)), (Z.ltb_spec k (Z.of_nat (S n))); try lia; [f_equal; lia|done].
Qed.

Lemma seqZ_length n i : length (seqZ_ n i) = n.
Proof. revert i. induction n; intros; cbn; [done|by rewrite IHn]. Qed.

Lemma fresh_contexts slots : 0 < slots <= kMaximumSlots ->
  ctx_inv slots (map IoContext_new (seqZ_ (Z.to_nat slots) 0)).
Proof.
  intros Hs. assert (forall i c, index (map IoContext_new (seqZ_ (Z.to_nat slots) 0)) i = Some c ->
    0 <= i < slots /\ c = IoContext_new i) as HC.
  { intros i c Hi. assert (index (seqZ_ (Z.to_nat slots) 0) i = Some i /\ 0 <= i < slots) as [Hx ?].
    { pose proof (index_lt _ _ _ Hi) as Hlt. unfold zlen in Hlt. rewrite length_map, seqZ_length in Hlt.
      rewrite seqZ_index. rewrite (proj2 (Z.leb_le 0 i)), (proj2 (Z.ltb_lt i _)) by lia. split; [by f_equal; lia|lia]. }
    split; [done|]. apply index_nth in Hi, Hx. rewrite list_lookup_fmap, Hx in Hi. by injection Hi. }
  unfold kMaximumSlots in Hs. constructor; [done|..].
  - unfold zlen. rewrite length_map, seqZ_length. lia.
  - intros i c [? ->]%HC. cbn. split_and!; [done|lia|unfold OUTGOING; lia|]. apply Z.mod_small. lia.
  - intros i c k [_ ->]%HC. cbn. rewrite !lookup_empty. by intros [[? ?]|[[? ?]|[? ?]]].
Qed.

Lemma view_fresh f slots ctxs : (forall i, f (IoContext_new i) = ∅) ->
  Forall (fun c => exists i, c = IoContext_new i) ctxs -> same (view f slots ctxs) nothing.
Proof.
  intros Hf Hc k. unfold view. destruct (index ctxs (owner slots k)) as [c|] eqn:E; [|done].
  apply index_nth in E. rewrite Forall_lookup in Hc. destruct (Hc _ _ E) as [i ->]. by rewrite Hf, lookup_empty.
Qed.

Lemma fresh_workers ws n : ids ws = fresh_ids n 0 ->
  workers_ok (Z.of_nat n) ws /\ concat (commands ws) = [].
Proof.
  intros E. assert (length ws = n) as Hlen.
  { apply (f_equal length) in E. unfold ids, fresh_ids in E. by rewrite !length_map, seqZ_length in E. }
  split; [split|].
  - unfold zlen. by rewrite Hlen.
  - intros i x Hi. pose proof (index_lt _ _ _ Hi) as Hlt. unfold zlen in Hlt.
    assert (index (seqZ_ n 0) i = Some i) as Hk.
    { rewrite seqZ_index, (proj2 (Z.leb_le 0 i)), (proj2 (Z.ltb_lt i _)) by lia. by f_equal; lia. }
    apply index_nth in Hi, Hk. apply (f_equal (lookup (Z.to_nat i))) in E. unfold ids, fresh_ids in E.
    rewrite !list_lookup_fmap, Hi, Hk in E. cbn in E. congruence.
  - assert (commands ws = map snd (ids ws)) as -> by (unfold commands, ids; by rewrite map_map).
    rewrite E. unfold fresh_ids. rewrite map_map. clear. generalize 0. induction n; intros z; cbn; [done|apply IHn].
Qed.

Lemma lids_split (ls ls' : list ProxyListener) (P : Z -> Prop) : lids ls = lids ls' ->
  map (fun q => _listener (l_base q)) ls = map (fun q => _listener (l_base q)) ls' /\
  (Forall (fun q => P (l_proxy_handler q)) ls' -> Forall (fun q => P (l_proxy_handler q)) ls).
Proof.
  intros E. split.
  - transitivity (map fst (lids ls)); [unfold lids; by rewrite map_map|].
    rewrite E. unfold lids. by rewrite map_map.
  - assert (map snd (lids ls) = map l_proxy_handler ls /\
      map snd (lids ls') = map l_proxy_handler ls') as [E1 E2]
      by (unfold lids; by rewrite !map_map).
    intros HP. apply (Forall_map l_proxy_handler P ls). rewrite <- E1, E, E2. by apply Forall_map.
Qed.

(** The server that the loops of Initialize leave. *)
Lemma Inv_start w s n m : Idle w -> 0 < Z.of_nat n <= kMaximumSlots ->
  _slots s = Z.of_nat n -> _workers s = Z.of_nat m ->
  _io_context s = map IoContext_new (seqZ_ n 0) -> _hashjobs s = replicate m [] -> _jobs s = [] ->
  ids (_io_workers s) = fresh_ids n 0 -> lids (_listeners s) = lids (_listeners (sv w)) ->
  _listen_proxy_handlers s = _listen_proxy_handlers (sv w) -> _configure s = _configure (sv w) ->
  _incoming_connections s = _incoming_connections (sv w) ->
  _outgoing_connections s = _outgoing_connections (sv w) -> pool_ok (_pool s) ->
  Inv [] (put_sv s w) /\ concat (_hashjobs s) = [].
Proof.
  intros [_ _ _ _ _ _ Ho Hj Hl _] Hn Es Ew Ec Eh Eq Ei El Eli Econf Einc Eout Hpool.
  destruct (fresh_workers _ _ Ei) as [Hok Hcmd].
  destruct (lids_split _ _ (fun x => x ∈ _listen_proxy_handlers (sv w)) El) as [HL1 HL2].
  assert (concat (_hashjobs s) = []) as Hnil by (rewrite Eh; clear; by induction m).
  assert (forall f, (forall i, f (IoContext_new i) = ∅) ->
    same (view f (_slots s) (_io_context s)) nothing) as HV.
  { intros f Hf. apply view_fresh; [done|]. rewrite Ec. apply Forall_map, Forall_forall. eauto. }
  split; [|done]. split; [constructor; cbn [sv put_sv handlers infos linkages fds next jobs]|].
  - rewrite Es, Ec, <- (Nat2Z.id n). rewrite Nat2Z.id at 1. by apply fresh_contexts.
  - unfold outs, cons_, lnks. rewrite Eli, Einc, Eout, Econf, HL1, !HV by done. by eapply own_idle.
  - by rewrite Es.
  - assert (queued (_jobs s) (_hashjobs s) (commands (_io_workers s)) = []) as Hq'
      by (unfold queued; by rewrite Eq, Hnil, Hcmd).
    constructor; cbn [app]; rewrite ?Hq'.
    + rewrite Eh, Ew. unfold zlen. by rewrite length_replicate.
    + constructor.
    + by intros j Hj'%elem_of_nil.
    + done.
  - rewrite Eli. by apply HL2.
  - done.
  - intros k. unfold outs, cons_, lnks. cbn [sv put_sv]. rewrite HV by done. by intros [].
Qed.

Lemma run_Initialize_main w threads rand as_ aw : Idle w ->
  0 < zlen as_ <= kMaximumSlots -> Forall (fun r => 0 <= r) rand ->
  run (Initialize_main threads rand as_ aw) w (fun r w' => r = true /\ Inv [] w' /\
    _slots (sv w') = zlen as_ /\ _workers (sv w') = zlen aw /\
    _jobs (sv w') = [] /\ concat (_hashjobs (sv w')) = [] /\ linkages w' = linkages w /\
    size (_threads (_pool (sv w'))) = (length as_ + length aw)%nat /\
    length (_pending_jobs (_pool (sv w'))) = (length as_ + length aw)%nat).
Proof.
  intros HI Has Hr. pose proof HI as [Hs Hw Hio Hh Hq Hpool Ho Hj Hl Ht]. unfold Initialize_main.
  pose proof (zlen_nonneg aw). unfold pool_call. wp.
  destruct (Initialize_pool (zlen as_ + zlen aw) _ ltac:(lia) Hpool) as (p & -> & Hp & Hpt & Hpp).
  wp. cbn [negb]. wp. eapply run_mono; [apply run_Initialize_io; cbn; by rewrite Hio|].
  cbn beta. intros r w1 (-> & ws & ls & -> & Ew & El). cbn [negb]. wp.
  cbn [sv put_sv _io_workers _listeners set_slots set_workers set_pool] in Ew, El. rewrite Hio in Ew. cbn [ids map app] in Ew.
  destruct (fresh_workers _ _ Ew) as [[Hlen _] _].
  eapply run_mono; [apply run_Initialize_timers; [exact Ht|exact Hr|cbn; rewrite Hlen; exact Has]|].
  cbn beta. intros r w1 (-> & ws' & ts & -> & Ew' & _). cbn [negb]. wp.
  cbn [sv put_sv _io_workers set_listeners set_io_workers] in Ew'. rewrite Ew in Ew'. clear Ew Hlen.
  eapply run_mono; [apply run_Initialize_append; exact Hp|].
  cbn beta. intros r w1 (-> & p1 & -> & Hp1 & Ht1 & Hl1). cbn [negb].
  eapply run_mono; [apply run_Initialize_append; exact Hp1|].
  cbn beta. intros r w1 (-> & p2 & -> & Hp2 & Ht2 & Hl2). split; [done|].
  cbn in Ht1, Hl1, Ht2, Hl2. rewrite Ht1 in Ht2. rewrite Hl1, Hpp in Hl2. cbn in Hl2.
  assert (size (_threads p2) = (length as_ + length aw)%nat) as Hs2.
  { rewrite Ht2, Hpt. unfold zlen. lia. }
  assert (pool_ok p2) as Hok.
  { split; [done|]. intros E. rewrite E, size_empty in Hs2. apply length_zero_iff_nil. lia. }
  match goal with |- Inv [] (put_sv ?s _) /\ _ => destruct (Inv_start w s (length as_) (length aw) HI Has) as [H1 H2] end;
    try done.
Qed.

End Init.
