(* ===== verification/EasyServerShutdown.v ===== *)
(** * Stopping the server

    Shutdown first empties the queues and leaves a null job for every thread,
    then, when the threads are gone, deletes what the server owns. *)

From S2P Require Import Prelude StateMonad AbstractIo FixedThreadPool Listener LinkageWorker EasyServer EasyServerInv EasyServerFacts EasyServerMethods EasyServerJobs EasyServerInit.

Section Shutdown.
Context {L A : Type} {LA : LinkageApi L} {EH : EasyHandlers A}.
Abbreviation world := (@world L A).
Implicit Types (w : world).

#[local] Hint Resolve Inv_Inv0 : core.

(** ** The queues *)

Lemma run_delete_jobs q : forall w held slots nw qq hq cmds nx,
  job_inv slots nw (jobs w) qq hq cmds (omap id q ++ held) nx ->
  run (delete_jobs q) w (fun _ w' => exists js, w' = put_jobs js w /\
    js ⊆ jobs w /\ job_inv slots nw js qq hq cmds held nx).
Proof.
  induction q as [|[j|] q IH]; intros w held slots nw qq hq cmds nx HJ; cbn [delete_jobs delete_job].
  - wp. exists (jobs w). split; [by destruct w|done].
  - cbn in HJ. destruct (jb_alive _ _ _ _ _ _ _ _ HJ j) as (x & Hx & _); [by left|].
    wp. eapply run_delete; [exact Hx|]. eapply run_mono; [eapply (IH _ held)|].
    + cbn. by eapply (job_delete HJ).
    + cbn beta. intros _ w' (js & -> & Hsub & HJ'). exists js. split_and!; [done| |done].
      etransitivity; [exact Hsub|]. apply delete_subseteq.
  - cbn in HJ. wp. by apply IH.
Qed.

Lemma concat_nils {T U} (l : list T) : concat (map (fun _ => @nil U) l) = [].
Proof. by induction l. Qed.

Definition dumped (s : EasyServer) : EasyServer :=
  set_hashjobs (map (fun _ => []) (_hashjobs s)) (set_jobs [] s).

Lemma run_dump w slots nw cmds held nx :
  job_inv slots nw (jobs w) (_jobs (sv w)) (_hashjobs (sv w)) cmds held nx ->
  run DoDumpJobs w (fun _ w' => exists js, w' = put_sv (dumped (sv w)) (put_jobs js w) /\
    js ⊆ jobs w /\ job_inv slots nw js [] (map (fun _ => []) (_hashjobs (sv w))) cmds held nx).
Proof.
  intros Hj. unfold DoDumpJobs. wp.
  assert (job_inv slots nw (jobs w) [] (_hashjobs (sv w)) cmds (omap id (_jobs (sv w)) ++ held) nx) as HJ1.
  { eapply (job_move Hj); [done|]. unfold queued. rewrite omap_app. cbn [app].
    rewrite (Permutation_app_comm (omap id (_jobs (sv w))) held), <- app_assoc. done. }
  eapply run_mono; [by eapply run_delete_jobs|]. cbn beta. intros _ w1 (js & -> & Hs1 & HJ2). wp.
  assert (job_inv slots nw js [] (map (fun _ => []) (_hashjobs (sv w))) cmds
    (omap id (concat (_hashjobs (sv w))) ++ held) nx) as HJ3.
  { eapply (job_move HJ2); [unfold zlen; by rewrite length_map|]. unfold queued.
    rewrite concat_nils, !app_nil_l, omap_app.
    rewrite (Permutation_app_comm (omap id (concat _)) held), <- app_assoc. done. }
  eapply run_mono; [eapply (run_delete_jobs _ _ held); exact HJ3|]. cbn beta.
  intros _ w1 (js' & -> & Hs2 & HJ4). wp. exists js'.
  split_and!; [by destruct w as [[] ? ? ? ? ? ? ? ?]|by etransitivity|done].
Qed.

Lemma run_DoDumpJobs held w : Inv held w ->
  run DoDumpJobs w (fun _ w' => Inv held w' /\ exists js, w' = put_sv (dumped (sv w)) (put_jobs js w)).
Proof.
  intros [[Hc Ho Hw Hj Hl Hpool] HN]. eapply run_mono; [by eapply run_dump|]. cbn beta.
  intros _ w' (js & -> & _ & HJ). split; [split; [|exact HN]; constructor; try done|eauto].
Qed.

(** ** The null jobs *)

Lemma run_append_nulls n : forall pre w, _hashjobs (sv w) = pre ++ replicate n [] ->
  run (append_nulls n (zlen pre)) w (fun _ w' =>
    w' = put_sv (set_hashjobs (pre ++ replicate n [None]) (sv w)) w).
Proof.
  induction n as [|n IH]; intros pre w Hh; cbn [append_nulls].
  { wp. cbn in Hh. rewrite app_nil_r in Hh. cbn. rewrite app_nil_r, <- Hh. by destruct w as [[] ? ? ? ? ? ? ? ?]. }
  pose proof (zlen_nonneg pre). unfold DoAppendJob.
  rewrite (proj2 (Z.ltb_ge (zlen pre) 0)) by lia.
  assert (zlen (_hashjobs (sv w)) = zlen pre + Z.of_nat (S n)) as Hlen.
  { rewrite Hh, zlen_app. unfold zlen. by rewrite length_replicate. }
  wp. { apply negb_true_iff, Z.eqb_neq. lia. }
  rewrite Z.mod_small by lia. rewrite Hh.
  eapply run_the.
  { unfold zlen. rewrite Nat2Z.id, lookup_app_r by lia. by rewrite Nat.sub_diag. }
  wp. replace (zlen pre + 1) with (zlen (pre ++ [[None (A := Z)]])) by (rewrite zlen_app; done).
  eapply run_mono; [apply IH|].
  - cbn. rewrite <- app_assoc. unfold zlen. rewrite Nat2Z.id, insert_app_r_alt by lia.
    by rewrite Nat.sub_diag.
  - cbn beta. intros _ w' ->. by rewrite <- app_assoc.
Qed.

Lemma omap_nulls n : omap id (concat (replicate n [None (A := Z)])) = [].
Proof. by induction n. Qed.

Definition told (w : ProxyLinkageWorker) : ProxyLinkageWorker :=
  with_worker (LinkageWorker.Shutdown (worker w)).1 w.

Lemma commands_told ws : omap id (concat (commands (map told ws))) = omap id (concat (commands ws)).
Proof.
  induction ws as [|x ws IH]; [done|].
  change (commands (map told (x :: ws))) with ((_commands (worker x) ++ [None]) :: commands (map told ws)).
  change (commands (x :: ws)) with (_commands (worker x) :: commands ws). cbn [concat].
  rewrite !omap_app, IH. cbn. by rewrite app_nil_r.
Qed.

Lemma workers_told slots ws : workers_ok slots ws -> workers_ok slots (map told ws).
Proof.
  intros [Hl Ht]. split; [unfold zlen in *; by rewrite length_map|].
  intros i x Hi. pose proof (index_lt _ _ _ Hi) as Hlt. unfold zlen in Hlt. rewrite length_map in Hlt.
  destruct (index_some ws i) as [y Hy]; [unfold zlen; lia|]. pose proof (Ht _ _ Hy) as E.
  apply index_nth in Hi, Hy. rewrite list_lookup_fmap, Hy in Hi. injection Hi as <-. done.
Qed.

(** What the threads find: nothing else is queued, every job worker has its
    null job and every I/O worker its null command. *)
Definition stopping (w : world) : Prop :=
  _jobs (sv w) = [] /\ _hashjobs (sv w) = replicate (Z.to_nat (_workers (sv w))) [None] /\
  Forall (fun x => exists q, _commands (worker x) = q ++ [None]) (_io_workers (sv w)).

Lemma run_DoShutdown_begin w : Inv [] w ->
  run DoShutdown_begin w (fun _ w' => Inv [] w' /\ stopping w' /\
    _workers (sv w') = _workers (sv w)).
Proof.
  intros HI. unfold DoShutdown_begin. wp. eapply run_mono; [by apply run_DoDumpJobs|]. cbn beta.
  intros _ w1 (HI1 & js & E). pose proof HI1 as [[Hc Ho Hw Hj Hl Hpool] HN]. wp.
  pose proof (jb_hash _ _ _ _ _ _ _ _ Hj) as Hlen.
  assert (_hashjobs (sv w1) = replicate (Z.to_nat (_workers (sv w1))) []) as Hh.
  { rewrite <- Hlen. rewrite E. unfold zlen. cbn. rewrite Nat2Z.id, length_map.
    induction (_hashjobs (sv w)); [done|]. cbn. by f_equal. }
  assert (_jobs (sv w1) = []) as Hq by by rewrite E.
  eapply run_mono; [apply (run_append_nulls _ []); exact Hh|]. cbn beta. intros _ w2 ->. wp. cbn [app].
  split; [split; [constructor; try done|exact HN]|].
  - cbn. by apply workers_told.
  - cbn -[commands]. eapply (job_move Hj).
    + unfold zlen. by rewrite Hh, !length_replicate.
    + change (commands (map _ _)) with (commands (map told (_io_workers (sv w1)))).
      unfold queued. rewrite Hq. cbn [app]. rewrite !omap_app, commands_told, omap_nulls.
      rewrite Hh. assert (concat (replicate (Z.to_nat (_workers (sv w1))) (@nil (option Z))) = []) as ->; [|done].
      generalize (Z.to_nat (_workers (sv w1))) as n. clear. by induction n.
  - split; [|by rewrite E]. split_and!; [done|done|]. cbn. apply Forall_map, Forall_forall. intros x _. cbn. eauto.
Qed.

(** ** Deleting what is left *)

Definition deletes {T} (q : list Z) (m : gmap Z T) : gmap Z T := foldl (fun m p => delete p m) m q.

Lemma deletes_lookup {T} q (m : gmap Z T) p :
  deletes q m !! p = if decide (p ∈ q) then None else m !! p.
Proof.
  unfold deletes. revert m. induction q as [|x q IH]; intros m; cbn; [by rewrite decide_False by apply not_elem_of_nil|].
  rewrite IH. destruct (decide (p ∈ q)) as [Hp|Hp].
  - rewrite decide_True by by right. done.
  - destruct (decide (p = x)) as [->|Hne].
    + rewrite decide_True by by left. apply lookup_delete_eq.
    + rewrite decide_False by (intros [?|?]%elem_of_cons; done). by apply lookup_delete_ne.
Qed.

Lemma deletes_app {T} q q' (m : gmap Z T) : deletes (q ++ q') m = deletes q' (deletes q m).
Proof. apply foldl_app. Qed.

Lemma deletes_all {T} q (m : gmap Z T) : (forall p, is_Some (m !! p) -> p ∈ q) -> deletes q m = ∅.
Proof.
  intros H. apply map_eq. intros p. rewrite deletes_lookup, lookup_empty.
  destruct (decide (p ∈ q)); [done|]. apply eq_None_not_Some. intros Hp. by apply n, H.
Qed.

(** The parts of the heap behave as parts of a record. *)
Definition cell_ok {T} (c : cell (L := L) (A := A) T) : Prop :=
  (forall m w, cget c (cput c m w) = m) /\ (forall m m' w, cput c m (cput c m' w) = cput c m w) /\
  (forall w, cput c (cget c w) w = w).

Lemma cells_ok : cell_ok Handlers /\ cell_ok Infos /\ cell_ok Fds.
Proof. split_and!; (split; [done|split; [done|by intros []]]). Qed.

Lemma run_delete_all {T} (c : cell T) q : cell_ok c -> forall w,
  NoDup q -> (forall p, p ∈ q -> is_Some (cget c w !! p)) ->
  run (delete_all c q) w (fun _ w' => w' = cput c (deletes q (cget c w)) w).
Proof.
  intros (C1 & C2 & C3). induction q as [|p q IH]; intros w Hnd Hin; cbn [delete_all].
  { wp. cbn. by rewrite C3. }
  apply NoDup_cons in Hnd as [Hp Hnd]. destruct (Hin p) as [x Hx]; [by left|].
  wp. eapply run_delete; [exact Hx|]. eapply run_mono; [apply IH; [done|]|].
  - intros p' Hp'. rewrite C1, lookup_delete_ne by by intros ->. apply Hin. by right.
  - cbn beta. intros _ w' ->. by rewrite C1, C2.
Qed.

(** All the entries of a table. *)
Definition entries (f : IoContext -> gmap Z Z) (l : list IoContext) : list (Z * Z) :=
  concat (map (fun c => map_to_list (f c)) l).

Lemma entries_NoDup f own l : forall off,
  (forall i c k p, l !! i = Some c -> f c !! k = Some p -> own k = off + Z.of_nat i) ->
  NoDup (entries f l).
Proof.
  induction l as [|c l IH]; intros off H; [constructor|]. unfold entries. cbn. apply NoDup_app. split_and!.
  - apply NoDup_map_to_list.
  - intros [k p] Hkp Hin. apply elem_of_map_to_list in Hkp.
    apply list_elem_of_In, in_concat in Hin as (x & Hx & Hkp'%list_elem_of_In).
    apply in_map_iff in Hx as (c' & <- & Hc'%list_elem_of_In).
    apply list_elem_of_lookup in Hc' as [i Hi]. apply elem_of_map_to_list in Hkp'.
    pose proof (H 0%nat c k p eq_refl Hkp). pose proof (H (S i) c' k p Hi Hkp'). lia.
  - apply (IH (off + 1)). intros i c' k p Hi Hk. rewrite (H (S i) c' k p Hi Hk). lia.
Qed.

Lemma elem_of_entries f l k p : (k, p) ∈ entries f l <-> exists i c, l !! i = Some c /\ f c !! k = Some p.
Proof.
  unfold entries. rewrite list_elem_of_In, in_concat. split.
  - intros (x & Hx & Hkp%list_elem_of_In). apply in_map_iff in Hx as (c & <- & Hc%list_elem_of_In).
    apply list_elem_of_lookup in Hc as [i Hi]. apply elem_of_map_to_list in Hkp. eauto.
  - intros (i & c & Hi & Hk). exists (map_to_list (f c)). split.
    + apply in_map_iff. exists c. split; [done|]. apply list_elem_of_In. by eapply list_elem_of_lookup_2.
    + by apply list_elem_of_In, elem_of_map_to_list.
Qed.

(** The pointers of a table, when no two keys have the same. *)
Definition pointers (f : IoContext -> gmap Z Z) (l : list IoContext) : list Z := map snd (entries f l).

Lemma pointers_cons f c l : pointers f (c :: l) = map snd (map_to_list (f c)) ++ pointers f l.
Proof. unfold pointers, entries. cbn. by rewrite map_app. Qed.

Section Tables.
Context (slots : Z) (ctxs : list IoContext) (HC : ctx_inv slots ctxs).
Context (f : IoContext -> gmap Z Z) (Hf : forall c k, is_Some (f c !! k) ->
  is_Some (_outgoing_informations c !! k) \/ is_Some (_connect_proxy_handlers c !! k) \/
    is_Some (_channel_linkages c !! k)).

Lemma nth_index {T} (l : list T) i x : l !! i = Some x -> index l (Z.of_nat i) = Some x.
Proof. unfold index. rewrite (proj2 (Z.ltb_ge _ 0)) by lia. by rewrite Nat2Z.id. Qed.

Lemma entries_view k p : (k, p) ∈ entries f ctxs <-> view f slots ctxs k = Some p.
Proof.
  rewrite elem_of_entries. split.
  - intros (i & c & Hi%nth_index & Hk). rewrite <- Hk. apply view_index.
    rewrite (ctx_entry _ _ HC _ _ k Hi); [done|]. apply Hf. by eexists.
  - unfold view. destruct (index ctxs (owner slots k)) as [c|] eqn:E; [|done].
    intros Hk. apply index_nth in E. eauto.
Qed.

Lemma pointers_view p : p ∈ pointers f ctxs <-> exists k, view f slots ctxs k = Some p.
Proof.
  unfold pointers. rewrite list_elem_of_fmap. split.
  - intros ([k ?] & -> & Hk). exists k. by apply entries_view.
  - intros [k Hk]. exists (k, p). split; [done|]. by apply entries_view.
Qed.

Lemma pointers_NoDup :
  (forall k k' p, view f slots ctxs k = Some p -> view f slots ctxs k' = Some p -> k = k') ->
  NoDup (pointers f ctxs).
Proof.
  intros Hinj. apply NoDup_fmap_2_strong.
  - intros [k p] [k' p'] Hk Hk' E. cbn in E. subst. f_equal.
    by eapply Hinj; apply entries_view.
  - apply (entries_NoDup f (owner slots) _ 0). intros i c k p Hi%nth_index Hk.
    rewrite (ctx_entry _ _ HC _ _ k Hi); [done|]. apply Hf. by eexists.
Qed.

End Tables.

Lemma run_delete_IoContexts ctxs : forall w,
  NoDup (pointers _connect_proxy_handlers ctxs) -> NoDup (pointers _outgoing_informations ctxs) ->
  (forall p, p ∈ pointers _connect_proxy_handlers ctxs -> is_Some (handlers w !! p)) ->
  (forall p, p ∈ pointers _outgoing_informations ctxs -> is_Some (infos w !! p)) ->
  run (delete_IoContexts ctxs) w (fun _ w' =>
    w' = put_infos (deletes (pointers _outgoing_informations ctxs) (infos w))
          (put_handlers (deletes (pointers _connect_proxy_handlers ctxs) (handlers w)) w)).
Proof.
  destruct cells_ok as (CH & CI & _).
  induction ctxs as [|c l IH]; intros w H1 H2 H3 H4; cbn [delete_IoContexts].
  { wp. by destruct w. }
  rewrite pointers_cons in H1, H2. apply NoDup_app in H1 as (H1 & H1' & H1''), H2 as (H2 & H2' & H2'').
  unfold delete_IoContext. wp. eapply run_mono; [apply (run_delete_all Handlers); [done|done|]|].
  { intros p Hp. apply H3. rewrite pointers_cons. apply elem_of_app. by left. }
  cbn beta. intros _ w1 ->. eapply run_mono; [apply (run_delete_all Infos); [done|done|]|].
  { intros p Hp. apply H4. rewrite pointers_cons. apply elem_of_app. by left. }
  cbn beta. intros _ w1 ->. eapply run_mono; [apply IH; [done|done|..]|].
  - intros p Hp. cbn. rewrite deletes_lookup, decide_False by (intros Hp'; by apply (H1' _ Hp')).
    apply H3. rewrite pointers_cons. apply elem_of_app. by right.
  - intros p Hp. cbn. rewrite deletes_lookup, decide_False by (intros Hp'; by apply (H2' _ Hp')).
    apply H4. rewrite pointers_cons. apply elem_of_app. by right.
  - cbn beta. intros _ w' ->. by rewrite !pointers_cons, !deletes_app.
Qed.

(** ** After the threads are gone *)

Definition reset (s : EasyServer) : EasyServer :=
  mkEasyServer [] [] [] [] [] [] [] (_pool s) (_configure s) 0 0 []
    (_incoming_connections s) (_outgoing_connections s).

(** The pointers of the two tables that own what they point to. *)
Lemma tables_pointers held w : Inv held w ->
  (NoDup (pointers _connect_proxy_handlers (_io_context (sv w))) /\
   forall p, p ∈ pointers _connect_proxy_handlers (_io_context (sv w)) <-> exists k, cons_ (sv w) k = Some p) /\
  (NoDup (pointers _outgoing_informations (_io_context (sv w))) /\
   forall p, p ∈ pointers _outgoing_informations (_io_context (sv w)) <-> exists k, outs (sv w) k = Some p).
Proof.
  intros [[Hc Ho _ _ _ _] _]. destruct Ho. split; split.
  - eapply pointers_NoDup; [exact Hc|auto|exact ow_con_inj].
  - intros p. eapply pointers_view; [exact Hc|auto].
  - eapply pointers_NoDup; [exact Hc|auto|exact ow_out_inj].
  - intros p. eapply pointers_view; [exact Hc|auto].
Qed.

Lemma run_DoShutdown_end w : Inv [] w -> linkages w = ∅ ->
  run DoShutdown_end w (fun r w' => r = true /\ exists js, js ⊆ jobs w /\
    w' = mkWorld (reset (sv w)) (next w) ∅ ∅ ∅ js ∅ (app w)
           (deleted_timers w ++ map fst (_timers (sv w)))).
Proof.
  intros HI Hl0. destruct (tables_pointers _ _ HI) as [[C1 C2] [O1 O2]].
  pose proof (inv_own _ _ (Inv_Inv0 _ _ HI)) as Ho. pose proof HI as [[_ _ _ Hj _ _] _].
  destruct (ow_listen _ _ _ _ _ _ _ _ _ _ _ _ _ _ Ho) as [L1 L2].
  destruct cells_ok as (CH & _ & CF). unfold DoShutdown_end. wp.
  eapply run_mono; [apply run_delete_IoContexts; [done|done|..]|].
  { intros p [k Hk]%C2. by destruct (ow_con _ _ _ _ _ _ _ _ _ _ _ _ _ _ Ho _ _ Hk) as (_ & ? & _). }
  { intros p [k Hk]%O2. destruct (ow_out _ _ _ _ _ _ _ _ _ _ _ _ _ _ Ho _ _ Hk) as (x & ? & _). by exists x. }
  cbn beta. intros _ w1 ->. wp. eapply run_mono; [apply (run_delete_all Handlers); [done|exact L1|]|].
  { intros p Hp. cbn. rewrite deletes_lookup, decide_False; [by apply L2|]. intros [k Hk]%C2.
    by destruct (ow_con _ _ _ _ _ _ _ _ _ _ _ _ _ _ Ho _ _ Hk) as (_ & _ & ?). }
  cbn beta. intros _ w1 ->. wp. eapply run_mono; [apply (run_delete_all Fds); [done|apply Ho|]|].
  { intros p Hp. apply (ow_fds _ _ _ _ _ _ _ _ _ _ _ _ _ _ Ho). by left. }
  cbn beta. intros _ w1 ->. wp. eapply run_mono; [eapply run_dump; exact Hj|]. cbn beta.
  intros _ w1 (js & -> & Hsub & _). wp. split; [done|]. exists js. split; [exact Hsub|].
  unfold put_sv. cbn. f_equal; [|..|by rewrite Hl0|]; rewrite <- ?deletes_app; apply deletes_all.
  - intros p [h Hp]. destruct (ow_hs _ _ _ _ _ _ _ _ _ _ _ _ _ _ Ho _ _ Hp) as (_ & _ & [?|[k Hk]]);
      apply elem_of_app; [by right|left]. apply C2. eauto.
  - intros p [x Hp]. apply O2. by destruct (ow_ifs _ _ _ _ _ _ _ _ _ _ _ _ _ _ Ho _ _ Hp).
  - intros fd Hfd. apply (ow_fds _ _ _ _ _ _ _ _ _ _ _ _ _ _ Ho) in Hfd as [?|(l & pl & Hl & _)]; [done|].
    by rewrite Hl0, lookup_empty in Hl.
Qed.

(** ** Shutdown *)

(** [Inv] knows of the pool only [pool_ok]. *)
Lemma Inv_pool held w p : Inv held w -> pool_ok p -> Inv held (put_sv (set_pool p (sv w)) w).
Proof. intros [[Hc Ho Hw Hj Hl Hpool] HN] Hp. split; [constructor; done|exact HN]. Qed.

Lemma run_DoShutdown w threads : Inv [] w ->
  (forall w1, DoShutdown_begin w = Ok (tt, w1) -> Inv [] w1 ->
     run threads w1 (fun _ w2 => Inv [] w2 /\ linkages w2 = ∅)) ->
  run (DoShutdown threads) w (fun r w' => r = true /\ Idle w' /\
    handlers w' = ∅ /\ infos w' = ∅ /\ linkages w' = ∅ /\ fds w' = ∅ /\ _listeners (sv w') = [] /\
    _incoming_connections (sv w') = 0 /\ _outgoing_connections (sv w') = 0).
Proof.
  intros HI HT. unfold DoShutdown.
  destruct (run_ok _ _ _ (run_DoShutdown_begin w HI)) as ([] & w1 & E1 & HI1 & _).
  apply run_bind. unfold run at 1. rewrite E1. wp. eapply run_mono; [by apply HT|]. cbn beta. clear HT.
  intros _ w2 (HI2 & Hl2). wp.
  pose proof (pool_ended _ (inv_pool _ _ (Inv_Inv0 _ _ HI2))) as HP.
  pose proof (Inv_pool _ _ _ HI2 (proj1 HP)) as HI3.
  eapply run_mono; [by apply run_DoShutdown_end|]. cbn beta. intros r w' (-> & js & Hsub & ->).
  pose proof (inv_own _ _ (Inv_Inv0 _ _ HI2)) as Ho. pose proof HI2 as [[_ _ _ Hj _ _] _].
  destruct (ow_inc _ _ _ _ _ _ _ _ _ _ _ _ _ _ Ho) as [Einc _].
  pose proof (ow_outc _ _ _ _ _ _ _ _ _ _ _ _ _ _ Ho) as Eout. rewrite Hl2 in Einc, Eout. cbn in Einc, Eout.
  split; [done|]. split; [|cbn; by rewrite Einc, Eout].
  constructor; try done; cbn.
  - constructor; try done; try (intros ? ?; rewrite lookup_empty; done); rewrite ?Einc, ?Eout.
    + split; [constructor|]. by intros p Hp%elem_of_nil.
    + intros fd. rewrite lookup_empty. split; [by intros []|].
      intros [Hin%elem_of_nil|(l & pl & E & _)]; [done|by rewrite lookup_empty in E].
    + constructor.
    + intros fd []. by rewrite lookup_empty in *.
    + split; [done|by left].
    + apply Ho.
  - intros j [x Hx]. apply (jb_next _ _ _ _ _ _ _ _ Hj). exists x. by eapply lookup_weaken.
Qed.

End Shutdown.
