(* ===== verification/EasyServerLife.v ===== *)
(** * The life of a server

    [event]: one thing that a thread does with a running server - a call of
    the application, a turn of a job worker or of an I/O worker, the progress
    of a linkage.  Events of different threads interleave in any order; the
    jobs that a thread took and still runs are [held].

    [life running s]: the states that a server can be in, from its
    construction on: stopped or running, with any number of restarts.  [sound]
    says what its invariant means in terms of the tables, the heap and the
    descriptors. *)

From S2P Require Import Prelude Explode StateMonad Sockets FixedThreadPool LinkageWorker AbstractIo Listener EasyServer EasyServerInv EasyServerFacts EasyServerMethods EasyServerJobs EasyServerInit EasyServerShutdown.

Section Run.
Context {L A : Type} {LA : LinkageApi L} {EH : EasyHandlers A}.
Abbreviation world := (@world L A).
Implicit Types (w : world).

#[local] Hint Resolve Inv_Inv0 : core.
#[local] Hint Resolve Inv_app : core.

(** ** Events *)

Inductive callback : Type :=
| GetMessageLength_ (buffer : bytes)
| OnConnected_
| OnError_ (reading_or_writing : bool) (errnum : Z)
| Cleanup_ (now : Z).

Inductive event : Type :=
(** The application. *)
| Connects (rand : Z) (o : ConnectOption)
| Sends (rand tid c : Z) (buffer : option bytes) (conn : connect_answer)
| Disconnects (tid c : Z) (finish_write : bool)
| Forgets (c : Z)
| QueuesOrExecutes (tid r id : Z)
| QueuesIo (r i : Z)
| RegistersTimer (rand tid after repeat : Z) (timer : option Z)
(** An I/O worker: it starts or stops its loop, finds a listener readable,
    takes a batch of commands. *)
| Starts (i tid : Z)
| Readable (n i : Z) (a : accept_answer) (prepared : bool)
| TakesCommands (i : Z)
(** A linkage: what it does by itself, what it tells its handler, its end. *)
| Progress (l : Z) (b : L)
| Calls (l : Z) (k : callback)
| Receives (l : Z) (buffer : bytes)
| Releases (l : Z)
(** A thread that runs jobs: a job worker takes one; then it is run; then it
    is deleted. *)
| TakesJob (id : Z)
| RunsJob (tid j : Z) (conn : connect_answer)
| DropsJob (j : Z).

(** The server and the jobs held. *)
Abbreviation system := (list Z * world)%type.

Definition on_world {T : Type} (m : ST world T) : ST system T :=
  fun s => let! (r, w) := m s.2 in Ok (r, (s.1, w)).
Definition hold (js : list Z) : ST system unit := modify (fun s => (js ++ s.1, s.2)).
Definition quiet {S T : Type} (m : ST S T) : ST S unit := let* _ := m in ret tt.

Definition run_callback (l : Z) (k : callback) : ST world unit :=
  match k with
  | GetMessageLength_ b => quiet (ProxyHandler_GetMessageLength l b)
  | OnConnected_ => quiet (ProxyHandler_OnConnected l)
  | OnError_ r e => ProxyHandler_OnError l r e
  | Cleanup_ now => quiet (ProxyHandler_Cleanup l now)
  end.

Definition exec (e : event) : ST system unit :=
  match e with
  | Connects rand o => quiet (on_world (Connect rand o))
  | Sends rand tid c b conn => quiet (on_world (Send rand tid c b conn))
  | Disconnects tid c f => quiet (on_world (Disconnect tid c f))
  | Forgets c => on_world (Forget c)
  | QueuesOrExecutes tid r id => on_world (with_job r (fun j => QueueOrExecuteJob tid (Some j) id))
  | QueuesIo r i => quiet (on_world (with_job r (fun j => QueueIo (Some j) i)))
  | RegistersTimer rand tid after repeat t => quiet (on_world (RegisterTimer rand tid after repeat t))
  | Starts i tid =>
      on_world (let* x := io_worker i in set_worker i (with_running tid x))
  | Readable n i a prepared => quiet (on_world (OnReadable n i a prepared))
  | TakesCommands i => let* r := on_world (IoWorker_commands i) in hold (omap id r)
  | Progress l b => on_world (on_linkage l (fun _ => Ok (tt, b)))
  | Calls l k => on_world (run_callback l k)
  | Receives l b => quiet (on_world (ProxyHandler_OnMessage l b))
  | Releases l => on_world (Release l)
  | TakesJob n =>
      let* r := on_world (GetJob n) in
      match r with Some job => hold (omap id [job]) | None => ret tt end
  | RunsJob tid j conn =>
      quiet (on_world (let* x := load Jobs j in Job_Run tid conn x))
  | DropsJob j =>
      modify (fun s => (filter (fun i => i <> j) s.1, s.2)) ;;;
      on_world (delete_ Jobs j)
  end.

(** What the threads and the kernel see to.  A channel number is left for the
    next connection ([room]); the kernel never runs out of descriptors; what a
    listener accepts starts ([attach_accepts]). *)
Definition enabled (e : event) (s : system) : Prop :=
  match e with
  | Connects rand _ => 0 <= rand /\ room s.2
  | Sends _ _ _ _ _ | Disconnects _ _ _ | Forgets _ => True
  | QueuesOrExecutes _ _ _ => True
  | QueuesIo _ i | Starts i _ | TakesCommands i => 0 <= i < _slots (sv s.2)
  | RegistersTimer rand _ _ _ _ => 0 <= rand
  | Readable n i a _ =>
      0 <= i < _slots (sv s.2) /\ 0 <= n < zlen (_listeners (sv s.2)) /\ room s.2 /\ attach_accepts i /\
      match a with AcceptError e => e ∈ [EINTR; EAGAIN; ECONNABORTED] | AcceptFd _ _ => True end
  | Progress l b => exists pl, linkages s.2 !! l = Some pl /\ l_live b /\ l_worker b = l_worker (base pl)
  | Calls l _ | Receives l _ | Releases l => is_Some (linkages s.2 !! l)
  | TakesJob n => 0 <= n < EasyServer._workers (sv s.2)
  | RunsJob _ j _ | DropsJob j => j ∈ s.1
  end.

Fixpoint run_events (es : list event) : ST system unit :=
  match es with
  | [] => ret tt
  | e :: es => exec e ;;; run_events es
  end.

(** Every event is enabled when its turn comes. *)
Fixpoint legal (es : list event) (s : system) : Prop :=
  match es with
  | [] => True
  | e :: es => enabled e s /\ forall s', exec e s = Ok (tt, s') -> legal es s'
  end.

(** ** Every event keeps the invariant *)

Lemma run_on_world {T} (m : ST world T) h w (Q : T -> system -> Prop) :
  run m w (fun r w' => Q r (h, w')) -> run (on_world m) (h, w) Q.
Proof. unfold run, on_world, rbind. cbn. by destruct (m w) as [[? ?]|]. Qed.

Lemma run_quiet {T} (m : ST world T) h w (Q : unit -> system -> Prop) :
  run m w (fun _ w' => Q tt (h, w')) -> run (quiet (on_world m)) (h, w) Q.
Proof. intros H. unfold quiet. apply run_bind, run_on_world. eapply run_mono; [exact H|]. intros. by wp. Qed.

Lemma workers_running slots ws i x t : workers_ok slots ws -> index ws i = Some x ->
  workers_ok slots (<[Z.to_nat i := with_running t x]> ws).
Proof.
  intros [Hl Ht] Hi. split; [by rewrite zlen_insert|]. intros j y.
  rewrite index_insert by apply (index_lt _ _ _ Hi). case_decide as E; [|apply Ht].
  intros [= <-]. subst. by apply (Ht j x).
Qed.

Lemma commands_running ws i x t : index ws i = Some x ->
  commands (<[Z.to_nat i := with_running t x]> ws) = commands ws.
Proof.
  intros Hi. unfold commands. rewrite list_fmap_insert. apply list_insert_id.
  by rewrite list_lookup_fmap, (index_nth _ _ _ Hi).
Qed.

Lemma run_Starts held w i t : Inv held w -> 0 <= i < _slots (sv w) ->
  run (let* x := io_worker i in set_worker i (with_running t x)) w (fun _ w' => Inv held w').
Proof.
  intros HI Hi. destruct (worker_at held w i) as (x & Hx & _); [auto..|].
  wp. eapply run_io_worker; [exact Hx|]. wp.
  destruct HI as [[Hc Ho Hw Hj Hl Hpool] HN]. split; [|done]. constructor; try done; cbn.
  - by apply workers_running.
  - by rewrite commands_running.
Qed.

Lemma run_run_callback held l k w : Inv held w -> is_Some (linkages w !! l) ->
  run (run_callback l k) w (fun _ w' => Inv held w').
Proof.
  intros HI [pl Hl].
  destruct (ow_live _ _ _ _ _ _ _ _ _ _ _ _ _ _ (inv_own _ _ (Inv_Inv0 _ _ HI)) _ _ Hl) as (_ & (_ & _ & _ & Hh) & _).
  destruct k; unfold run_callback, quiet; wp.
  3: { unfold ProxyHandler_OnError. wp. eapply run_load; [exact Hl|]. apply run_call_OnError; auto. }
  all: unfold ProxyHandler_GetMessageLength, ProxyHandler_OnConnected, ProxyHandler_Cleanup; wp;
    eapply run_load; [exact Hl|]; destruct Hh as [h Hh]; wp; unfold handler_of;
    eapply run_the; [exact Hh|]; wp; auto.
Qed.

#[local] Ltac ev := first [apply run_quiet | apply run_on_world]; cbn [fst snd].

Lemma exec_Inv e s : Inv s.1 s.2 -> enabled e s ->
  run (exec e) s (fun _ s' => Inv s'.1 s'.2).
Proof.
  destruct s as [h w]. cbn [fst snd]. intros HI He.
  pose proof (Inv_Inv0 _ _ HI) as H0.
  destruct e; cbn [exec enabled fst snd] in *.
  - destruct He. ev. eapply run_mono; [by apply (run_Connect h)|]. by intros ? ? [? _].
  - ev. by apply run_SendChannel.
  - ev. by apply run_DisconnectChannel.
  - ev. by apply run_Forget.
  - ev. apply run_QueueOrExecute; [done|].
    rewrite <- (jb_hash _ _ _ _ _ _ _ _ (inv_jobs _ _ H0)). apply zlen_nonneg.
  - ev. eapply run_mono; [by apply run_QueueIo|]. by intros ? ? [_ ?].
  - ev. by apply run_RegisterTimer.
  - ev. by apply run_Starts.
  - destruct He as (Hi & Hn & Hr & HA & Ha). destruct (index_some _ _ Hn) as [p Hp]. ev.
    eapply run_mono; [by eapply run_OnReadable|]. by intros ? ? [_ ?].
  - wp. ev. eapply run_mono; [by apply run_IoWorker|]. cbn beta. intros r w' HI'. unfold hold. by wp.
  - destruct He as (pl & Hl & Hb & Hw). ev. eapply run_on_linkage; [exact Hl|done|].
    by apply Inv_set_base.
  - ev. by apply run_run_callback.
  - ev. by apply run_QueueMessage.
  - ev. eapply run_mono; [by apply run_Release|]. by intros ? ? [? _].
  - wp. ev. eapply run_mono; [by apply run_GetJob|]. cbn beta.
    intros [job|] w' [_ Hr]; [unfold hold|]; wp; [done|by subst].
  - ev. by apply run_held_job.
  - wp. ev. apply Inv_delete_job.
    eapply Inv_hold_perm; [exact HI|].
    pose proof (jb_nodup _ _ _ _ _ _ _ _ (inv_jobs _ _ H0)) as Hnd. apply NoDup_app in Hnd as (Hnd & _).
    apply NoDup_Permutation; [done|apply NoDup_cons; split; [|by apply NoDup_filter]|].
    + rewrite list_elem_of_filter. by intros [? _].
    + intros i. rewrite elem_of_cons, list_elem_of_filter. destruct (decide (i = j)) as [->|]; [tauto|].
      split; [by auto|]. by intros [|[_ ?]].
Qed.

Lemma run_events_Inv es : forall s, Inv s.1 s.2 -> legal es s ->
  run (run_events es) s (fun _ s' => Inv s'.1 s'.2).
Proof.
  induction es as [|e es IH]; intros s HI Hes; cbn [run_events]; [by wp|].
  destruct Hes as [He Hes]. destruct (run_ok _ _ _ (exec_Inv e s HI He)) as ([] & s' & E & HI').
  wp. unfold run. rewrite E. by apply IH, Hes.
Qed.

End Run.

Section Life.
Context {L A : Type} {LA : LinkageApi L} {EH : EasyHandlers A}.
Abbreviation world := (@world L A).
Abbreviation system := (list Z * world)%type.
Abbreviation event := (@event L).
Implicit Types (w : world) (s : system).

#[local] Hint Resolve Inv_Inv0 : core.

(** ** The end of the threads

    What the threads still do when they are told to stop, [es]; then each I/O
    worker releases its linkages. *)
Fixpoint Release_all (ls : list Z) : ST world unit :=
  match ls with
  | [] => ret tt
  | l :: ls => Release l ;;; Release_all ls
  end.

Definition threads (es : list event) : ST world unit :=
  (fun w => let! (_, s) := run_events es ([], w) in Ok (tt, s.2)) ;;;
  let* m := gets linkages in
  Release_all (map fst (map_to_list m)).

(** They may do it, and in the end no thread holds a job. *)
Definition ends (es : list event) (w : world) : Prop :=
  legal es ([], w) /\ forall s, run_events es ([], w) = Ok (tt, s) -> s.1 = [].

Lemma run_Release_all ls : forall w, Inv [] w -> NoDup ls ->
  (forall l, l ∈ ls <-> is_Some (linkages w !! l)) ->
  run (Release_all ls) w (fun _ w' => Inv [] w' /\ linkages w' = ∅).
Proof.
  induction ls as [|l ls IH]; intros w HI Hnd Hin; cbn [Release_all].
  { wp. split; [done|]. apply map_eq. intros l. rewrite lookup_empty. apply eq_None_not_Some.
    intros Hl%Hin. by apply elem_of_nil in Hl. }
  apply NoDup_cons in Hnd as [Hl Hnd]. wp. eapply run_mono; [apply run_Release; [done|apply Hin; by left]|].
  cbn beta. intros _ w' [HI' El]. apply IH; [done|done|]. intros l'. rewrite El, lookup_delete_is_Some, <- Hin.
  rewrite elem_of_cons. split; [|by intros [? [|]]]. intros Hl'. split; [by intros ->|by right].
Qed.

Lemma run_threads es w : Inv [] w -> ends es w ->
  run (threads es) w (fun _ w' => Inv [] w' /\ linkages w' = ∅).
Proof.
  intros HI [Hes Hend]. unfold threads.
  destruct (run_ok _ _ _ (run_events_Inv es ([], w) HI Hes)) as ([] & [h w1] & E & HI1).
  apply run_bind. unfold run at 1. rewrite E. cbn [rbind snd]. cbn in HI1.
  pose proof (Hend _ E) as Hh. cbn in Hh. subst h. wp. apply run_Release_all; [done|..].
  - apply NoDup_fst_map_to_list.
  - intros l. rewrite list_elem_of_fmap. split.
    + intros ([l' pl] & -> & Hl). apply elem_of_map_to_list in Hl. by exists pl.
    + intros [pl Hl]. exists (l, pl). split; [done|]. by apply elem_of_map_to_list.
Qed.

(** ** Life *)

Definition world_new (conf : Configure) (a : A) : world :=
  mkWorld (mkEasyServer [] [] [] [] [] [] [] FixedThreadPool_new conf 0 0 [] 0 0)
    1 ∅ ∅ ∅ ∅ ∅ a [].

(** [configure()] lets the application set the limits before it starts. *)
Inductive life : bool -> system -> Prop :=
| life_new conf a : 0 <= maximum_incoming_connections conf < 2 ^ 64 ->
    life false ([], world_new conf a)
| life_Listen w o listens r w' : life false ([], w) ->
    Listen o listens w = Ok (r, w') -> life false ([], w')
| life_RegisterTimer w rand tid after repeat timer r w' : life false ([], w) ->
    RegisterTimer rand tid after repeat timer w = Ok (r, w') -> life false ([], w')
| life_Initialize w ts rand slots workers w' : life false ([], w) -> Forall (fun x => 0 <= x) rand ->
    Initialize ts rand slots workers w = Ok (true, w') -> life true ([], w')
| life_event s e s' : life true s -> enabled e s -> exec e s = Ok (tt, s') -> life true s'
| life_Shutdown w es r w' : life true ([], w) ->
    (forall w1, DoShutdown_begin w = Ok (tt, w1) -> ends es w1) ->
    Shutdown (threads es) w = Ok (r, w') -> life false ([], w').

(** *** Initialize *)

Lemma run_lists_of input r n w (Q : Z * list (list Z) -> world -> Prop) :
  explode_lists input 256 = Ok (r, n) -> Q (r, n) w -> run (lists_of input) w Q.
Proof. intros E HQ. unfold lists_of. by rewrite E. Qed.

(** A successful Initialize is a run of its main part. *)
Lemma Initialize_true ts rand slots workers w w' : Initialize ts rand slots workers w = Ok (true, w') ->
  exists as_ aw, 0 < zlen as_ <= kMaximumSlots /\ Initialize_main ts rand as_ aw w = Ok (true, w').
Proof.
  unfold Initialize, bind, rbind, lists_of. destruct (explode_lists slots 256) as [[r1 as_]|]; [|done]. cbn -[explode_lists].
  destruct (negb (r1 =? 0)); [done|]. intros H.
  assert (exists r2 aw, (if negb (r2 =? 0) || (zlen as_ =? 0) || (kMaximumSlots <? zlen as_)
       || (kMaximumWorkers <? zlen aw) then ret false else Initialize_main ts rand as_ aw) w = Ok (true, w'))
    as (r2 & aw & H').
  { destruct workers as [b|]; [|exists 0, []; exact H]. destruct (explode_lists b 256) as [[r2 aw]|]; [|done].
    by exists r2, aw. }
  exists as_, aw. destruct (negb (r2 =? 0) || _ || _ || _) eqn:E; [done|]. bprop.
  pose proof (zlen_nonneg as_). split; [lia|done].
Qed.

Lemma life_inv b s : life b s -> if b then Inv s.1 s.2 else s.1 = [] /\ Idle s.2.
Proof.
  induction 1 as [conf a Hm|w o listens r w' _ [_ IH] E|w rand tid after repeat timer r w' _ [_ IH] E|
    w ts rand slots workers w' _ [_ IH] Hr E|s e s' _ IH He E|w es r w' _ IH Hes E]; cbn [fst snd] in *.
  - split; [done|]. by apply Idle_new.
  - split; [done|]. pose proof (run_Listen w o listens IH) as HR. unfold run in HR. rewrite E in HR. apply HR.
  - split; [done|]. pose proof (run_RegisterTimer_idle w rand tid after repeat timer IH) as HR.
    unfold run in HR. by rewrite E in HR.
  - apply Initialize_true in E as (as_ & aw & Has & E).
    pose proof (run_Initialize_main w ts rand as_ aw IH Has Hr) as HR. unfold run in HR. rewrite E in HR. apply HR.
  - pose proof (exec_Inv e s IH He) as HR. unfold run in HR. by rewrite E in HR.
  - split; [done|].
    assert (run (DoShutdown (threads es)) w (fun _ w' => Idle w')) as HR.
    { eapply run_mono; [apply run_DoShutdown; [done|]|by intros ? ? (_ & ? & _)].
      intros w1 E1 HI1. by apply run_threads, Hes. }
    unfold run in HR. unfold Shutdown in E. by rewrite E in HR.
Qed.

(** ** What the invariant means *)

Abbreviation context_at w i := (index (_io_context (sv w)) i).

Record sound (s : system) (w := s.2) : Prop := {
  (** The counters count the linkages; the limit is not reached. *)
  snd_incoming : _incoming_connections (sv w) = count false (linkages w) /\
    (_incoming_connections (sv w) = 0 \/
     _incoming_connections (sv w) < maximum_incoming_connections (_configure (sv w)));
  snd_outgoing : _outgoing_connections (sv w) = u64 (count true (linkages w));
  (** A linkage is in the table of its own thread, under its channel, and that
      thread works for it. *)
  snd_linkage : forall l pl, linkages w !! l = Some pl ->
    l_live (base pl) /\ l_worker (base pl) = Some (io_thread_id (context pl)) /\
    exists ioc, context_at w (io_thread_id (context pl)) = Some ioc /\
      _channel_linkages ioc !! channel (context pl) = Some l;
  (** A channel of the tables leads to a live linkage, or to a live destination
      with a live handler. *)
  snd_channel : forall i ioc c l, context_at w i = Some ioc -> _channel_linkages ioc !! c = Some l ->
    exists pl, linkages w !! l = Some pl /\ channel (context pl) = c /\ io_thread_id (context pl) = i;
  snd_destination : forall i ioc c p, context_at w i = Some ioc ->
    _outgoing_informations ioc !! c = Some p ->
    IsOutgoingChannel c = true /\ exists x, infos w !! p = Some x /\ o_thread_id x = i /\
      _connect_proxy_handlers ioc !! c = Some (proxy_handler x) /\ is_Some (handlers w !! proxy_handler x);
  (** The handlers are those of the listeners and of the outgoing channels that
      are connected or remembered. *)
  snd_handlers : forall p, is_Some (handlers w !! p) <->
    (p ∈ _listen_proxy_handlers (sv w)) \/
    exists i ioc c, context_at w i = Some ioc /\ _connect_proxy_handlers ioc !! c = Some p /\
      (is_Some (_outgoing_informations ioc !! c) \/ is_Some (_channel_linkages ioc !! c));
  (** The open descriptors are those of the listeners and of the linkages. *)
  snd_fds : forall fd, is_Some (fds w !! fd) <->
    (fd ∈ map (fun p => _listener (l_base p)) (_listeners (sv w))) \/
    exists l pl, linkages w !! l = Some pl /\ pl_fd pl = fd;
  (** Every job that is queued or run is live, and there once. *)
  snd_jobs : NoDup (s.1 ++ queued (_jobs (sv w)) (_hashjobs (sv w)) (commands (_io_workers (sv w)))) /\
    forall j, j ∈ s.1 ++ queued (_jobs (sv w)) (_hashjobs (sv w)) (commands (_io_workers (sv w))) ->
      is_Some (jobs w !! j)
}.

(** Where the views look. *)
Lemma view_owner f held w i ioc c : Inv held w -> context_at w i = Some ioc ->
  is_Some (_outgoing_informations ioc !! c) \/ is_Some (_connect_proxy_handlers ioc !! c) \/
    is_Some (_channel_linkages ioc !! c) ->
  owner (_slots (sv w)) c = i /\ view f (_slots (sv w)) (_io_context (sv w)) c = f ioc !! c.
Proof.
  intros HI Hi Hc. pose proof (ctx_entry _ _ (inv_ctx _ _ (Inv_Inv0 _ _ HI)) _ _ _ Hi Hc) as E.
  split; [done|]. apply view_index. by rewrite E.
Qed.

Lemma view_context f w c p : view f (_slots (sv w)) (_io_context (sv w)) c = Some p ->
  exists ioc, context_at w (owner (_slots (sv w)) c) = Some ioc /\ f ioc !! c = Some p.
Proof. unfold view. destruct (index _ _) as [ioc|]; [|done]. eauto. Qed.

Lemma Inv_sound s : Inv s.1 s.2 -> sound s.
Proof.
  destruct s as [h w]. cbn [fst snd]. intros HI. pose proof HI as [[Hc Ho _ Hj _ _] HN].
  constructor; cbn [fst snd].
  - apply Ho.
  - apply Ho.
  - intros l pl Hl. destruct (ow_live _ _ _ _ _ _ _ _ _ _ _ _ _ _ Ho _ _ Hl) as (_ & (H1 & H2 & H3 & _) & H4 & _).
    rewrite H3. split_and!; [done|done|by apply view_context].
  - intros i ioc c l Hi Hl. destruct (view_owner _channel_linkages _ _ _ _ c HI Hi) as [Hown Hv]; [eauto|].
    rewrite Hl in Hv. destruct (ow_link _ _ _ _ _ _ _ _ _ _ _ _ _ _ Ho _ _ Hv) as (pl & Hpl & <-).
    destruct (ow_live _ _ _ _ _ _ _ _ _ _ _ _ _ _ Ho _ _ Hpl) as (_ & (_ & _ & H3 & _) & _).
    exists pl. rewrite H3. done.
  - intros i ioc c p Hi Hp. destruct (view_owner _outgoing_informations _ _ _ _ c HI Hi) as [Hown Hv]; [eauto|].
    rewrite Hp in Hv. destruct (ow_out _ _ _ _ _ _ _ _ _ _ _ _ _ _ Ho _ _ Hv) as (x & Hx & Ht & Hcon).
    destruct (ow_con _ _ _ _ _ _ _ _ _ _ _ _ _ _ Ho _ _ Hcon) as (Hk & Hlive & _). split; [done|]. exists x.
    split_and!; [done|congruence| |done]. unfold cons_, view in Hcon. by rewrite Hown, Hi in Hcon.
  - intros p. split.
    + intros [y Hp]. destruct (ow_hs _ _ _ _ _ _ _ _ _ _ _ _ _ _ Ho _ _ Hp) as (_ & _ & [?|[c Hcon]]); [by left|right].
      destruct (view_context _ _ _ _ Hcon) as (ioc & Hi & Hcp). eexists _, ioc, c. split_and!; [done|done|].
      destruct (HN c) as [HS|HS]; [by eexists|left|right]; unfold outs, lnks, view in HS; by rewrite Hi in HS.
    + intros [Hp|(i & ioc & c & Hi & Hp & _)]; [by apply (ow_listen _ _ _ _ _ _ _ _ _ _ _ _ _ _ Ho)|].
      destruct (view_owner _connect_proxy_handlers _ _ _ _ c HI Hi) as [_ Hv]; [eauto|]. rewrite Hp in Hv.
      by apply (ow_con _ _ _ _ _ _ _ _ _ _ _ _ _ _ Ho _ _ Hv).
  - apply Ho.
  - split; [apply Hj|]. intros j Hq. destruct (jb_alive _ _ _ _ _ _ _ _ Hj j Hq) as (x & ? & _). by exists x.
Qed.

(** ** Initialize, on every branch *)

(** A server with [n] I/O workers and [m] job workers, each on a thread of its
    own, and nothing to do. *)
Record started (n m : Z) (w : world) : Prop := {
  st_slots : _slots (sv w) = n /\ _workers (sv w) = m;
  st_workers : zlen (_io_workers (sv w)) = n /\ zlen (_io_context (sv w)) = n /\ zlen (_hashjobs (sv w)) = m;
  st_threads : Z.of_nat (size (_threads (_pool (sv w)))) = n + m /\
    zlen (_pending_jobs (_pool (sv w))) = n + m;
  st_queues : _jobs (sv w) = [] /\ concat (_hashjobs (sv w)) = [];
  st_linkages : linkages w = ∅
}.

Lemma Idle_linkages w : Idle w -> linkages w = ∅.
Proof.
  intros HI. apply map_eq. intros l. rewrite lookup_empty. apply eq_None_not_Some. intros [pl Hl].
  by destruct (ow_live _ _ _ _ _ _ _ _ _ _ _ _ _ _ (idle_own _ HI) _ _ Hl) as (_ & _ & ? & _).
Qed.

Lemma run_Initialize_started w ts rand as_ aw : Idle w -> 0 < zlen as_ <= kMaximumSlots ->
  Forall (fun r => 0 <= r) rand ->
  run (Initialize_main ts rand as_ aw) w (fun ok w' => ok = true /\ Inv [] w' /\
    started (zlen as_) (zlen aw) w').
Proof.
  intros HI Has Hr. eapply run_mono; [by apply run_Initialize_main|]. cbn beta.
  intros ok w' (-> & HI' & Es & Ew & Hq & Hh & Hl & Ht & Hp). split; [done|]. split; [done|].
  destruct (inv_workers _ _ (Inv_Inv0 _ _ HI')) as [Hlen _].
  pose proof (cx_len _ _ (inv_ctx _ _ (Inv_Inv0 _ _ HI'))) as Hc.
  pose proof (jb_hash _ _ _ _ _ _ _ _ (inv_jobs _ _ (Inv_Inv0 _ _ HI'))) as Hj.
  constructor; [done| | |done|by rewrite Hl, (Idle_linkages _ HI)].
  - split_and!; congruence.
  - unfold zlen. lia.
Qed.

Definition accepted_sizes (n m : Z) : bool :=
  (1 <=? n) && (n <=? kMaximumSlots) && (m <=? kMaximumWorkers).

Definition parsed_as (workers : option bytes) (r : Z) (aw : list (list Z)) : Prop :=
  match workers with
  | Some b => explode_lists b 256 = Ok (r, aw)
  | None => r = 0 /\ aw = []
  end.

(** What Initialize returns, and leaves. *)
Definition initialized (n m : Z) (w : world) (good ok : bool) (w' : world) : Prop :=
  if good then ok = true /\ Inv [] w' /\ started n m w' else ok = false /\ w' = w.

Lemma run_Initialize w ts rand slots workers r1 as_ r2 aw : Idle w -> Forall (fun r => 0 <= r) rand ->
  explode_lists slots 256 = Ok (r1, as_) -> parsed_as workers r2 aw ->
  run (Initialize ts rand slots workers) w
    (initialized (zlen as_) (zlen aw) w
      ((r1 =? 0) && (r2 =? 0) && accepted_sizes (zlen as_) (zlen aw))).
Proof.
  intros HI Hr E1 E2. unfold Initialize. wp. eapply run_lists_of; [exact E1|]. unfold initialized.
  destruct (r1 =? 0); cbn [negb andb]; [|by wp].
  apply run_bind, (run_mono _ _ (fun x w' => x = (r2, aw) /\ w' = w)).
  { unfold parsed_as in E2. destruct workers as [b|]; [by eapply run_lists_of|].
    destruct E2 as [-> ->]. by wp. }
  cbn beta. intros [] ? [[= -> ->] ->]. pose proof (zlen_nonneg as_).
  destruct (r2 =? 0); cbn [negb orb andb]; [|by wp]. unfold accepted_sizes.
  destruct (Z.eqb_spec (zlen as_) 0), (Z.leb_spec 1 (zlen as_)); try lia; cbn [negb orb andb]; [by wp|].
  destruct (Z.ltb_spec kMaximumSlots (zlen as_)), (Z.leb_spec (zlen as_) kMaximumSlots); try lia;
    cbn [negb orb andb]; [by wp|].
  destruct (Z.ltb_spec kMaximumWorkers (zlen aw)), (Z.leb_spec (zlen aw) kMaximumWorkers); try lia; [by wp|].
  cbn [andb orb]. apply run_Initialize_started; [done|lia|done].
Qed.

(** The texts that the overload with counts writes. *)
Lemma Initialize_string_join n : (n <> 0)%nat -> Initialize_string n [] = join ";"%char (replicate n []).
Proof.
  assert (forall m, Initialize_string (S m) (B ";") = ";"%char :: join ";"%char (replicate (S m) [])) as HS.
  { induction m as [|m IH]; [done|].
    change (Initialize_string (S (S m)) (B ";")) with (B ";" ++ Initialize_string (S m) (B ";")). by rewrite IH. }
  destruct n as [|[|n]]; [done|done|]. intros _.
  change (Initialize_string (S (S n)) []) with (Initialize_string (S n) (B ";")). by rewrite HS.
Qed.

Lemma explode_lists_count n : (n <> 0)%nat ->
  explode_lists (Initialize_string n []) 256 = Ok (0, replicate n []).
Proof.
  intros Hn. rewrite Initialize_string_join by done.
  assert (replicate n [] = map render (replicate n [])) as ->.
  { clear. induction n as [|n IH]; [done|]. cbn. by f_equal. }
  unfold explode_lists. cbn [Z.ltb Z.compare].
  pose proof (join_length ";"%char (map render (replicate n []))) as HL. rewrite length_map, length_replicate in HL.
  rewrite lists_loop_render; [|apply Forall_replicate; constructor|by destruct n|done|rewrite ?length_replicate; lia].
  do 2 f_equal. clear. induction n as [|n IH]; [done|]. cbn. by f_equal.
Qed.

Lemma run_Initialize_count w ts rand n m : Idle w -> Forall (fun r => 0 <= r) rand -> 0 <= n -> 0 <= m ->
  run (Initialize_count ts rand n m) w (initialized n m w (accepted_sizes n m)).
Proof.
  intros HI Hr Hn Hm. unfold Initialize_count.
  destruct ((n =? 0) || (kMaximumSlots <? n) || (kMaximumWorkers <? m)) eqn:E.
  { assert (accepted_sizes n m = false) as ->; [|by wp]. unfold accepted_sizes. bprop.
    destruct (Z.leb_spec 1 n), (Z.leb_spec n kMaximumSlots), (Z.leb_spec m kMaximumWorkers); try done. lia. }
  bprop. assert (accepted_sizes n m = true) as ->.
  { unfold accepted_sizes. rewrite !(proj2 (Z.leb_le _ _)) by lia. done. }
  set (as_ := replicate (Z.to_nat n) (@nil Z)). set (aw := replicate (Z.to_nat m) (@nil Z)).
  assert (zlen as_ = n /\ zlen aw = m) as [En Em] by (unfold zlen, as_, aw; rewrite !length_replicate; lia).
  eapply run_mono; [apply (run_Initialize w ts rand _ _ 0 as_ 0 aw); [done|done|apply explode_lists_count; lia|]|].
  - unfold parsed_as. destruct (Z.eqb_spec m 0) as [->|]; [done|]. cbn. apply explode_lists_count. lia.
  - intros ok w'. rewrite En, Em. unfold accepted_sizes. rewrite !(proj2 (Z.leb_le _ _)) by lia. done.
Qed.

End Life.
