(* ===== verification/Framing.v ===== *)
(** * The specification of message framing

    [split len b] cuts a byte stream with the function [len] that tells the
    length of the message a buffer starts with (0: not known yet, negative:
    invalid): the complete messages, the bytes that remain, and whether it
    stopped at an invalid one.  [answer] relates it to the messages a receiver
    was given and their replies.  The lemmas: a stream can be cut anywhere. *)

From S2P Require Import Prelude.

Section Framing.
Context (len : bytes -> Z).

Fixpoint split_ (fuel : nat) (b : bytes) : list bytes * bytes * bool :=
  match b, fuel with
  | [], _ | _, O => ([], b, false)
  | _, S fuel =>
      let n := len b in
      if n <? 0 then ([], b, true)
      else if (n =? 0) || (zlen b <? n) then ([], b, false)
      else
        let '(ms, rest, bad) := split_ fuel (drop (Z.to_nat n) b) in
        (take (Z.to_nat n) b :: ms, rest, bad)
  end.

(** Every message has at least one byte. *)
Definition split (b : bytes) : list bytes * bytes * bool := split_ (length b) b.

(** A longer buffer does not change what [len] knows. *)
Definition prefix_stable : Prop :=
  forall b c, (0 < len b -> len (b ++ c) = len b) /\ (len b < 0 -> len (b ++ c) < 0).

(** The messages delivered with their replies, and the result [r]: either all
    the messages, with positive replies, or those up to the first reply that
    is not positive. *)
Definition answer (spec : list bytes * bytes * bool) (L : list (bytes * Z)) (r : Z) : Prop :=
  let '(ms, rest, bad) := spec in
  (Forall (fun p => 0 < p.2) L /\ map fst L = ms /\ r = if bad then -1 else 1) \/
  (exists L0 m a, L = L0 ++ [(m, a)] /\ Forall (fun p => 0 < p.2) L0 /\ a <= 0 /\
     map fst L `prefix_of` ms /\ r = if a <? 0 then -1 else 0).

Lemma zlen_pos {A} (l : list A) : l <> [] -> 0 < zlen l.
Proof. destruct l as [|x l]; [done|]. intros _. rewrite zlen_cons. pose proof (zlen_nonneg l). lia. Qed.

Lemma length_drop_pos {A} (n : Z) (l : list A) :
  0 < n -> l <> [] -> (length (drop (Z.to_nat n) l) < length l)%nat.
Proof. intros Hn Hl. rewrite length_drop. destruct l; [done|]. cbn [length]. lia. Qed.


(** Two amounts of fuel that are enough agree. *)
Lemma split_fuel2 f g b : (length b <= f)%nat -> (length b <= g)%nat -> split_ f b = split_ g b.
Proof.
  revert g b. induction f as [|f IH]; intros g [|x b] Hf Hg; cbn in Hf; try lia; [by destruct g..|].
  destruct g as [|g]; [cbn in Hg; lia|]. cbn [split_]. cbv zeta.
  destruct (len (x :: b) <? 0) eqn:E1; [done|].
  destruct ((len (x :: b) =? 0) || _) eqn:E2; [done|]. bprop.
  assert (length (drop (Z.to_nat (len (x :: b))) (x :: b)) <= length b)%nat as Hd.
  { pose proof (length_drop_pos (len (x :: b)) (x :: b) ltac:(lia) ltac:(done)). cbn [length] in *. lia. }
  by rewrite (IH g) by (cbn in Hg; lia).
Qed.

Lemma split_nil : split [] = ([], [], false).
Proof. done. Qed.

Lemma split_bad b : b <> [] -> len b < 0 -> split b = ([], b, true).
Proof. intros Hb Hn. unfold split. destruct b; [done|]. cbn [split_ length]. by rewrite (proj2 (Z.ltb_lt _ _) Hn). Qed.

Lemma split_wait b : len b = 0 \/ 0 < len b /\ zlen b < len b -> split b = ([], b, false).
Proof.
  intros Hn. unfold split. destruct b as [|x b]; [done|]. cbn [split_ length]. cbv zeta.
  destruct (len (x :: b) <? 0) eqn:E1; [bprop; lia|].
  destruct ((len (x :: b) =? 0) || _) eqn:E2; [done|]. bprop. lia.
Qed.

Lemma split_msg b : 0 < len b <= zlen b ->
  split b = let '(ms, rest, bad) := split (drop (Z.to_nat (len b)) b) in
            (take (Z.to_nat (len b)) b :: ms, rest, bad).
Proof.
  intros Hn. unfold split at 1. destruct b as [|x b]; [change (zlen (@nil ascii)) with 0 in Hn; lia|].
  cbn [split_ length]. cbv zeta.
  destruct (len (x :: b) <? 0) eqn:E1; [bprop; lia|].
  destruct ((len (x :: b) =? 0) || _) eqn:E2.
  { apply orb_true_iff in E2 as [?|?]; bprop; lia. }
  unfold split. rewrite (split_fuel2 (length b) (length (drop (Z.to_nat (len (x :: b))) (x :: b)))); [done| |done].
  pose proof (length_drop_pos (len (x :: b)) (x :: b) ltac:(lia) ltac:(done)). cbn [length] in *. lia.
Qed.

(** The cases of [split], for inductions on the length of the stream. *)
Lemma split_cases b :
  b = [] \/ b <> [] /\ len b < 0 \/ b <> [] /\ (len b = 0 \/ 0 < len b /\ zlen b < len b) \/
  b <> [] /\ 0 < len b <= zlen b.
Proof. destruct b; [by left|]. right. assert (a :: b <> []) by done. destruct (Z.lt_trichotomy (len (a :: b)) 0) as [?|[?|?]]; [auto|auto 6|].
  destruct (Z_lt_le_dec (zlen (a :: b)) (len (a :: b))); auto 8. Qed.

Lemma split_ind (P : bytes -> Prop) :
  (forall b, (forall b', (length b' < length b)%nat -> P b') -> P b) -> forall b, P b.
Proof.
  intros HP b. remember (length b) as n eqn:En. revert b En.
  induction n as [n IH] using lt_wf_ind. intros b ->. apply HP. intros b' Hb'. by eapply IH.
Qed.

(** ** Cutting the stream *)

Context (Hstable : prefix_stable).

Lemma take_drop_app (n : Z) (b c : bytes) : 0 <= n <= zlen b ->
  take (Z.to_nat n) (b ++ c) = take (Z.to_nat n) b /\
  drop (Z.to_nat n) (b ++ c) = drop (Z.to_nat n) b ++ c.
Proof.
  intros Hn. unfold zlen in Hn. split; [apply take_app_le|apply drop_app_le]; lia.
Qed.

Lemma split_app b c ms rest bad :
  split b = (ms, rest, bad) ->
  split (b ++ c) =
    if bad then (ms, rest ++ c, true)
    else let '(ms', rest', bad') := split (rest ++ c) in (ms ++ ms', rest', bad').
Proof.
  revert ms rest bad. induction b as [b IH] using split_ind. intros ms rest bad E.
  destruct (split_cases b) as [->|[[Hb Hn]|[[Hb Hn]|[Hb Hn]]]].
  - rewrite split_nil in E. injection E as <- <- <-. by destruct (split ([] ++ c)) as [[? ?] ?].
  - rewrite split_bad in E by done. injection E as <- <- <-. apply split_bad; [by destruct b|].
    by apply Hstable.
  - rewrite split_wait in E by done. injection E as <- <- <-. by destruct (split (b ++ c)) as [[? ?] ?].
  - rewrite split_msg in E by lia. destruct (Hstable b c) as [Hpos _]. specialize (Hpos ltac:(lia)).
    destruct (split (drop _ b)) as [[ms1 rest1] bad1] eqn:E1. injection E as <- <- <-.
    destruct (take_drop_app (len b) b c ltac:(lia)) as [Ht Hd].
    rewrite (split_msg (b ++ c)), Hpos, Ht, Hd by (rewrite Hpos, zlen_app; pose proof (zlen_nonneg c); lia).
    rewrite (IH _ (length_drop_pos (len b) b ltac:(lia) Hb) _ _ _ E1).
    destruct bad1; [done|]. by destruct (split (rest1 ++ c)) as [[? ?] ?].
Qed.

(** What remains is the beginning of a message. *)
Lemma split_rest b ms rest : split b = (ms, rest, false) ->
  split rest = ([], rest, false) /\ (rest = [] \/ len rest = 0 \/ 0 < len rest /\ zlen rest < len rest).
Proof.
  revert ms. induction b as [b IH] using split_ind. intros ms E.
  destruct (split_cases b) as [->|[[Hb Hn]|[[Hb Hn]|[Hb Hn]]]].
  - rewrite split_nil in E. injection E as <- <-. auto.
  - by rewrite split_bad in E.
  - rewrite split_wait in E by done. injection E as <- <-. split; [by apply split_wait|auto].
  - rewrite split_msg in E by lia. destruct (split (drop _ b)) as [[ms1 rest1] bad1] eqn:E1.
    injection E as <- <- ->. by eapply (IH _ (length_drop_pos (len b) b ltac:(lia) Hb)).
Qed.

Lemma answer_app b c ms rest L L' r' :
  split b = (ms, rest, false) -> answer (ms, rest, false) L 1 ->
  answer (split (rest ++ c)) L' r' -> answer (split (b ++ c)) (L ++ L') r'.
Proof.
  intros E HL HL'. rewrite (split_app _ _ _ _ _ E). destruct (split (rest ++ c)) as [[ms' rest'] bad'].
  destruct HL as [(HF & <- & _)|(? & ? & a & _ & _ & _ & _ & Hr)]; [|by destruct (a <? 0)].
  destruct HL' as [(HF' & <- & ->)|(L0 & m & a & -> & HF' & Ha & Hpre & ->)].
  - left. split; [by apply Forall_app|]. split; [by rewrite map_app|done].
  - right. exists (L ++ L0), m, a. split; [by rewrite app_assoc|]. split; [by apply Forall_app|].
    split; [done|]. split; [|done]. rewrite map_app. by apply prefix_app.
Qed.

Lemma answer_stop b c L r : answer (split b) L r -> r <= 0 -> answer (split (b ++ c)) L r.
Proof.
  destruct (split b) as [[ms rest] bad] eqn:E. intros HL Hr. rewrite (split_app _ _ _ _ _ E).
  destruct HL as [(HF & Hms & ->)|(L0 & m & a & -> & HF & Ha & Hpre & ->)].
  - destruct bad; [|lia]. by left.
  - destruct bad; [right; by exists L0, m, a|]. destruct (split (rest ++ c)) as [[ms' rest'] bad'].
    right. exists L0, m, a. do 3 (split; [done|]). split; [|done]. by apply prefix_app_r.
Qed.

Lemma answer_cons ms rest bad m a L r :
  0 < a -> answer (ms, rest, bad) L r -> answer (m :: ms, rest, bad) ((m, a) :: L) r.
Proof.
  intros Hpos [(HF & <- & ->)|(L0 & m' & a' & -> & HF & Ha & Hpre & ->)].
  - left. split; [by constructor|done].
  - right. exists ((m, a) :: L0), m', a'. split; [done|]. split; [by constructor|].
    split; [done|]. split; [|done]. by apply prefix_cons.
Qed.

End Framing.
