(* ===== verification/LinkageFraming.v ===== *)
(** * What a linkage delivers: Linkage.v against the specification of Framing.v

    For an application whose [GetMessageLength] is a function [len] of the
    bytes, the chunks given to [OnReceived] are delivered as the messages of
    [split], wherever the stream was cut into chunks. *)

From S2P Require Import Prelude StateMonad AbstractIo Linkage LinkageFacts LinkageReceive Framing.

Section LinkageFraming.
Context {I W H : Type} {IO : AbstractIo I} {WA : WorkerApi W} {LH : LinkageHandler H}.
Context (clock : nat -> Z) (len : bytes -> Z).
Context (Hlen : forall b h, h_GetMessageLength b h = Ret (h, len b)).
Context (Hstable : prefix_stable len).

Abbreviation st := (@st I W H).
Abbreviation M := (ST st).
Implicit Types (s : st) (l : Linkage).

(** The length that is known is that of the message [b] starts with. *)
Definition expects (b : bytes) (s : st) : Prop :=
  _rlength (lk s) = 0 \/ b <> [] /\ 0 < _rlength (lk s) /\ len b = _rlength (lk s).

Lemma run_length b s (Q : Z -> st -> Prop) : Q (len b) s -> run (GetMessageLength clock b) s Q.
Proof.
  intros HQ. unfold GetMessageLength, callback. wp. rewrite Hlen. cbn [run_prog]. wp.
  by destruct s.
Qed.

(** The loop delivers [split ptr], up to the first reply that stops it. *)
Definition framing_post (ptr : bytes) (c : Z) (s : st) (rc : Z * Z) (s' : st) : Prop :=
  exists L, delivered s' = delivered s ++ L /\ answer (split len ptr) L rc.1 /\
    (0 < rc.1 -> drop (Z.to_nat (rc.2 - c)) ptr = (split len ptr).1.2 /\
                 expects (split len ptr).1.2 s').

Lemma framing_stop ptr c s s' r ms bad :
  split len ptr = (ms, ptr, bad) -> delivered s' = delivered s ->
  ms = [] -> r = (if bad then -1 else 1) -> (0 < r -> expects ptr s') ->
  framing_post ptr c s (r, c) s'.
Proof.
  intros E Hd -> -> He. exists []. rewrite app_nil_r, E. cbn [fst snd]. split; [done|]. split; [by left|].
  intros Hr. rewrite Z.sub_diag. split; [done|auto].
Qed.

Lemma run_framing_length ptr s :
  ptr <> [] -> expects ptr s ->
  run (DoReceived_length clock ptr) s (fun stop s' =>
    delivered s' = delivered s /\
    match stop with
    | Some r => exists bad, split len ptr = ([], ptr, bad) /\ r = (if bad then -1 else 1) /\
                            _rlength (lk s') = 0
    | None => 0 < len ptr /\ _rlength (lk s') = len ptr
    end).
Proof.
  intros Hne He. unfold DoReceived_length. wp. apply run_if; intros Hz; bprop.
  - apply run_bind, run_length. apply run_if; intros Hr; [wp|apply run_if; intros Hr'; wp]; bprop.
    + split; [done|]. exists true. split; [by apply split_bad|done].
    + split; [done|]. exists false. split; [apply split_wait; lia|done].
    + split; [done|]. cbn. lia.
  - wp. destruct He as [?|(_ & ? & ?)]; [congruence|]. split; [done|]. lia.
Qed.

Lemma run_framing_loop fuel ptr c s :
  base s -> is_Some (_worker (lk s)) -> 0 <= _rlength (lk s) -> (length ptr <= fuel)%nat ->
  expects ptr s ->
  run (DoReceived_loop clock fuel ptr c) s (framing_post ptr c s).
Proof.
  revert ptr c s. induction fuel as [|n IH]; intros [|x ptr'] c s Hb Hk Hrl Hlen' He; cbn [DoReceived_loop].
  1, 3: wp; by eapply framing_stop.
  { cbn in Hlen'; lia. }
  set (ptr := x :: ptr') in *. assert (ptr <> []) as Hne by done. clearbody ptr.
  apply run_bind. eapply run_mono; [by apply run_and; [by apply run_DoReceived_length|by apply run_framing_length]|].
  cbn beta. intros stop s1 ((Hb1 & Hf1 & _ & _ & _ & Hs1) & Hd1 & Hs1').
  assert (is_Some (_worker (lk s1))) as Hw1 by (by rewrite (flows_worker _ _ Hf1)).
  destruct stop as [r|]; [wp|].
  { destruct Hs1' as (bad & E & -> & Hz). eapply framing_stop; eauto. by left. }
  destruct Hs1' as [Hpos Hl1]. wp. rewrite Hl1. apply run_if; intros Hz; bprop.
  { apply run_bind, run_ReceiveJam; [done|]. intros s2 Hb2 Hc2. wp.
    eapply (framing_stop _ _ _ _ _ _ false); [by apply split_wait; auto| |done|done|].
    - rewrite (calm_delivered _ _ Hc2). done.
    - intros _. right. rewrite (calm_rlength _ _ Hc2). split; [done|]. split; lia. }
  apply run_bind, run_ReceiveJam; [done|]. intros s2 Hb2 Hc2.
  assert (is_Some (_worker (lk s2))) as Hw2 by by rewrite (calm_worker _ _ Hc2).
  assert (delivered s2 = delivered s) as Hd2 by by rewrite (calm_delivered _ _ Hc2).
  assert (_rlength (lk s2) = len ptr) as Hl2 by by rewrite (calm_rlength _ _ Hc2).
  apply run_bind. eapply run_mono; [by apply run_OnMessage|]. cbn beta.
  intros next s3 (Hb3 & Hf3 & Hrb3 & Hrl3 & Hd3). rewrite Hd2 in Hd3.
  pose proof (split_msg len ptr ltac:(lia)) as Esplit.
  destruct (split len (drop (Z.to_nat (len ptr)) ptr)) as [[ms rest] bad] eqn:E'.
  assert (next <= 0 -> forall r, r = (if next <? 0 then -1 else 0) -> framing_post ptr c s (r, c) s3) as Hstop.
  { intros Hn r ->. eexists. split; [exact Hd3|]. rewrite Esplit. cbn [fst snd]. split.
    - right. exists [], (take (Z.to_nat (len ptr)) ptr), next. repeat split; auto.
      by apply prefix_cons, prefix_nil.
    - destruct (next <? 0); lia. }
  apply run_if; intros Hn; [wp; apply Hstop; [bprop; lia|by rewrite Hn]|].
  apply run_if; intros Hn'; [wp; apply Hstop; [bprop; lia|by rewrite Hn]|]. wp.
  rewrite Hrl3, Hl2. bprop. clear Hstop.
  set (s4 := put_lk _ s3). assert (is_Some (_worker (lk s4))) as Hw4.
  { change (is_Some (_worker (lk s3))). by rewrite (flows_worker _ _ Hf3). }
  assert (length (drop (Z.to_nat (len ptr)) ptr) <= n)%nat as Hfuel.
  { pose proof (length_drop_pos (len ptr) ptr Hpos Hne). lia. }
  assert (base s4) as Hb4 by by apply base_set_rlength.
  eapply run_mono; [apply run_and; [by apply run_DoReceived_loop|by apply IH; [| | | |left]]|].
  intros [r c'] s' ((_ & _ & _ & _ & Hc) & L & Hd & Ha & Hrest). rewrite E' in Ha, Hrest. cbn [fst snd] in *.
  exists ((take (Z.to_nat (len ptr)) ptr, next) :: L). rewrite Esplit. cbn [fst snd].
  split; [|split].
  - rewrite Hd. change (delivered s4) with (delivered s3). by rewrite Hd3, <- app_assoc.
  - apply answer_cons; [lia|done].
  - intros Hr. destruct (Hrest Hr) as [Hdrop He']. split; [|done].
    destruct (Hc Hr) as [[Hc5 Hc6] _]. rewrite zlen_drop_le in Hc6 by lia.
    rewrite <- Hdrop, drop_drop. f_equal. lia.
Qed.

(** ** One chunk *)

(** The bytes kept are the beginning of a message. *)
Definition framed (s : st) : Prop :=
  expects (_rbuffer (lk s)) s /\
  (_rbuffer (lk s) = [] \/ len (_rbuffer (lk s)) = 0 \/ zlen (_rbuffer (lk s)) < len (_rbuffer (lk s))).

(** [b] came with the bytes kept in front of it. *)
Definition chunk_post (b : bytes) (s : st) (r : Z) (s' : st) : Prop :=
  exists L, delivered s' = delivered s ++ L /\ answer (split len b) L r /\
    (0 < r -> _rbuffer (lk s') = (split len b).1.2 /\ framed s').

Lemma expects_rlength b s : expects b s -> 0 <= _rlength (lk s).
Proof. unfold expects. lia. Qed.

Lemma answer_positive spec L r : answer spec L r -> 0 < r -> spec.2 = false /\ r = 1.
Proof.
  destruct spec as [[ms rest] bad]. intros [(_ & _ & ->)|(? & ? & a & _ & _ & _ & _ & ->)].
  - by destruct bad.
  - destruct (a <? 0); lia.
Qed.

Lemma framed_rest b L r s : answer (split len b) L r -> 0 < r ->
  _rbuffer (lk s) = (split len b).1.2 -> expects (split len b).1.2 s -> framed s.
Proof.
  intros Ha Hr Hrb He. destruct (answer_positive _ _ _ Ha Hr) as [Hbad _].
  destruct (split len b) as [[ms rest] bad] eqn:E. cbn in *. subst bad. unfold framed. rewrite Hrb.
  split; [done|]. destruct (split_rest len _ _ _ E) as [_ ?]. lia || tauto.
Qed.

Lemma run_framing_direct ptr s :
  base s -> is_Some (_worker (lk s)) -> _rlength (lk s) = 0 -> _rbuffer (lk s) = [] ->
  run (OnReceived_direct clock ptr) s (chunk_post ptr s).
Proof.
  intros Hb Hw Hrl Hrb. unfold OnReceived_direct, append_rbuffer. apply run_bind.
  eapply run_mono; [apply run_and|].
  - apply run_DoReceived; [done|done|lia].
  - apply run_framing_loop; [done|done|lia|done|by left].
  - intros [r c] s1 ((Hb1 & _ & Hrb1 & _ & Hc) & L & Hd & Ha & Hrest). cbn [fst snd] in *.
    rewrite Hrb in Hrb1. apply run_if; intros Hr; bprop.
    { wp. exists L. do 2 (split; [done|]). lia. }
    destruct (Hrest Hr) as [Hdrop He]. destruct (Hc Hr) as [Hc' _]. rewrite Z.sub_0_r in Hdrop.
    destruct (answer_positive _ _ _ Ha Hr) as [_ ->].
    apply run_bind, run_if; intros Hn; bprop; wp; exists L; do 2 (split; [done|]); intros _.
    + assert (_rbuffer (lk s1) ++ drop (Z.to_nat c) ptr = (split len ptr).1.2) as Hrest' by by rewrite Hrb1.
      split; [done|]. by eapply framed_rest.
    + assert ((split len ptr).1.2 = []) as Hnil.
      { rewrite <- Hdrop. apply drop_ge. unfold zlen in Hn. lia. }
      rewrite Hrb1, Hnil. split; [done|]. eapply framed_rest; try done. congruence.
Qed.


(** A buffer that is exactly one message. *)
Lemma split_one b : 0 < len b -> len b = zlen b -> split len b = ([b], [], false).
Proof.
  intros Hp Hl. rewrite split_msg by lia. rewrite Hl. unfold zlen.
  by rewrite Nat2Z.id, drop_all, firstn_all.
Qed.

Lemma run_framing_fill ptr s :
  base s -> is_Some (_worker (lk s)) -> _rlength (lk s) = len (_rbuffer (lk s)) ->
  zlen (_rbuffer (lk s)) < _rlength (lk s) <= zlen (_rbuffer (lk s)) + zlen ptr ->
  run (OnReceived_fill clock ptr) s (chunk_post (_rbuffer (lk s) ++ ptr) s).
Proof.
  intros Hb Hw Hlrb Hrl. unfold OnReceived_fill, append_rbuffer. cbv zeta.
  set (rb := _rbuffer (lk s)) in *. set (n := _rlength (lk s)) in *.
  pose proof (zlen_nonneg rb) as Hzr. wp; fold rb n; [apply Z.ltb_lt; lia| |].
  { change ((zlen (rb ++ take (Z.to_nat (n - zlen rb)) ptr) =? n) = true).
    apply Z.eqb_eq. rewrite zlen_app, zlen_take_le by lia. lia. }
  set (full := rb ++ take (Z.to_nat (n - zlen rb)) ptr). set (s1 := put_lk _ s).
  change (_rbuffer (lk s1)) with full. cbn beta.
  assert (zlen full = n) as Hzf by (unfold full; rewrite zlen_app, zlen_take_le by lia; lia).
  assert (len full = n) as Hlf.
  { unfold full. destruct (Hstable rb (take (Z.to_nat (n - zlen rb)) ptr)) as [Hs _]. rewrite Hs; lia. }
  pose proof (split_one full ltac:(lia) ltac:(lia)) as Esplit.
  assert (base s1) as Hb1 by by apply base_set_rbuffer.
  assert (is_Some (_worker (lk s1))) as Hw1 by done.
  assert (_rlength (lk s1) = n) as Hrl1 by done. assert (delivered s1 = delivered s) as Hd1 by done.
  assert (rb ++ ptr = full ++ drop (Z.to_nat (n - zlen rb)) ptr) as ->.
  { unfold full. by rewrite <- app_assoc, take_drop. }
  clearbody s1. eapply run_mono; [apply run_and|].
  { apply run_DoReceived; [done|done|lia]. }
  { apply run_framing_loop; [done|done|lia|done|]. right. split; [|lia].
    intros Hnil. rewrite Hnil in Hzf. change (zlen (@nil ascii)) with 0 in Hzf. lia. }
  intros [r c] s2 ((Hb2 & Hf2 & Hrb2 & _ & Hc) & L & Hd & Ha & _). cbn [fst snd] in *.
  apply run_if; intros Hr; bprop.
  { wp. exists L. split; [congruence|]. split; [by apply answer_stop|lia]. }
  destruct (Hc Hr) as (Hc1 & _ & Hc2 & Hc3). assert (c = n) as -> by lia.
  destruct (answer_positive _ _ _ Ha Hr) as [_ ->].
  wp. apply run_if; intros Hbad; [apply orb_true_iff in Hbad as [?|?]; bprop; lia|]. cbv zeta.
  assert (_rlength (lk s2) = 0) as Hrl2.
  { destruct Hc3 as [[Hnil _]|?]; [lia| |done]. rewrite Hnil in Hzf. change (zlen (@nil ascii)) with 0 in Hzf. lia. }
  set (s3 := put_lk _ s2). assert (base s3) as Hb3 by by apply base_set_rbuffer.
  assert (is_Some (_worker (lk s3))) as Hw3.
  { change (is_Some (_worker (lk s2))). by rewrite (flows_worker _ _ Hf2). }
  assert (delivered s3 = delivered s ++ L) as Hd3 by (change (delivered s3) with (delivered s2); congruence).
  set (rest := drop (Z.to_nat (n - zlen rb)) ptr).
  assert (forall r s', chunk_post rest s3 r s' -> chunk_post (full ++ rest) s r s') as Hjoin.
  { intros r s' (L' & Hd' & Ha' & Hk'). exists (L ++ L'). split; [by rewrite Hd', Hd3, app_assoc|].
    rewrite Esplit in Ha. split; [by eapply answer_app|]. intros Hr'.
    rewrite (split_app len Hstable _ _ _ _ _ Esplit). cbn [app] in *.
    destruct (split len rest) as [[ms rs] bad]. by apply Hk'. }
  apply run_if; intros Hn.
  - eapply run_mono; [by apply run_framing_direct|]. auto.
  - wp. apply Hjoin. bprop. apply zlen_zero in Hn. rewrite Hn. exists [].
    rewrite app_nil_r. split; [done|]. split; [by left|]. intros _. split; [done|].
    split; [by left|by left].
Qed.

Lemma run_framing_move ptr s :
  base s -> is_Some (_worker (lk s)) -> expects (_rbuffer (lk s)) s ->
  run (OnReceived_move clock ptr) s (chunk_post (_rbuffer (lk s) ++ ptr) s).
Proof.
  intros Hb Hw He. unfold OnReceived_move, append_rbuffer. wp.
  set (b := _rbuffer (lk s) ++ ptr). set (s1 := put_lk _ s). change (_rbuffer (lk s1)) with b. cbn beta.
  assert (base s1) as Hb1 by by apply base_set_rbuffer.
  assert (expects b s1) as He1.
  { destruct He as [?|(Hne & Hp & Hl)]; [by left|]. right. change (_rlength (lk s1)) with (_rlength (lk s)).
    split; [unfold b; by destruct (_rbuffer (lk s))|]. split; [done|].
    destruct (Hstable (_rbuffer (lk s)) ptr) as [Hs _]. unfold b. rewrite Hs; lia. }
  assert (is_Some (_worker (lk s1))) as Hw1 by done. assert (_rbuffer (lk s1) = b) as Hrb1 by done.
  assert (delivered s1 = delivered s) as Hd1 by done. clearbody s1.
  eapply run_mono; [apply run_and|].
  { apply run_DoReceived; [done|done|by eapply expects_rlength]. }
  { apply run_framing_loop; [done|done|by eapply expects_rlength|done|done]. }
  intros [r c] s2 ((Hb2 & _ & Hrb2 & _ & Hc) & L & Hd & Ha & Hrest). cbn [fst snd] in *.
  rewrite Hd1 in Hd. rewrite Hrb1 in Hrb2. apply run_if; intros Hr; bprop.
  { wp. exists L. do 2 (split; [done|]). lia. }
  destruct (Hrest Hr) as [Hdrop He2]. destruct (Hc Hr) as [Hc' _]. rewrite Z.sub_0_r in Hdrop.
  destruct (answer_positive _ _ _ Ha Hr) as [_ ->].
  apply run_bind, run_if; intros Hn; bprop; wp; rewrite ?Hrb2.
  - apply run_if; intros Hbad; bprop; [lia|]. wp. exists L. do 2 (split; [done|]). intros _.
    split; [done|]. by eapply framed_rest.
  - exists L. do 2 (split; [done|]). intros _. subst c. change (drop (Z.to_nat 0) b) with b in Hdrop.
    rewrite Hrb2. split; [done|]. eapply framed_rest; try done. congruence.
Qed.

Lemma run_framing_chunk ptr s :
  base s -> is_Some (_worker (lk s)) -> _graceful (lk s) = false -> framed s ->
  run (OnReceived clock (Some ptr)) s (chunk_post (_rbuffer (lk s) ++ ptr) s).
Proof.
  intros Hb Hw Hg [He Hwait]. unfold OnReceived. apply run_if; intros Hz.
  { bprop. apply zlen_zero in Hz as ->. wp. rewrite app_nil_r. exists []. rewrite app_nil_r.
    assert (split len (_rbuffer (lk s)) = ([], _rbuffer (lk s), false)) as ->; [|by split; [|split; [by left|]]].
    destruct Hwait as [->|Hwait]; [done|]. apply split_wait. pose proof (zlen_nonneg (_rbuffer (lk s))). lia. }
  wp. set (s1 := put_ticks _ _). assert (base s1) as Hb1 by by destruct Hb.
  change (chunk_post (_rbuffer (lk s) ++ ptr) s) with (chunk_post (_rbuffer (lk s1) ++ ptr) s1).
  assert (is_Some (_worker (lk s1))) as Hw1 by done. assert (_graceful (lk s1) = false) as Hg1 by done.
  assert (expects (_rbuffer (lk s1)) s1) as He1 by done.
  assert (_rbuffer (lk s1) = [] \/ len (_rbuffer (lk s1)) = 0 \/
          zlen (_rbuffer (lk s1)) < len (_rbuffer (lk s1))) as Hwait1 by done.
  clearbody s1. rewrite Hg1. wp.
  apply run_if; intros Hrb; bprop.
  - apply zlen_zero in Hrb. rewrite Hrb in *. apply run_framing_direct; try done.
    by destruct He1 as [?|[? _]].
  - apply run_if; intros Hfill; bprop; [|by apply run_framing_move].
    destruct He1 as [?|(Hne & Hp & Hl)]; [lia|].
    destruct Hwait1 as [?|[?|?]]; [done|lia|]. apply run_framing_fill; auto. lia.
Qed.

(** ** Any number of chunks *)

(** The worker drops a linkage that does not ask for more. *)
Fixpoint feed (chunks : list bytes) : M Z :=
  match chunks with
  | [] => ret 1
  | b :: chunks =>
      let* r := OnReceived clock (Some b) in
      if 0 <? r then feed chunks else ret r
  end.

(** How many of the chunks are read: those that come after the linkage hung up
    are thrown away, and none follows a reply that stops the stream. *)
Fixpoint heard (chunks : list bytes) (s : st) : nat :=
  match chunks with
  | [] => O
  | b :: chunks =>
      if _graceful (lk s) then O
      else match OnReceived clock (Some b) s with
           | Ok (r, s') => S (if 0 <? r then heard chunks s' else O)
           | Err _ => O
           end
  end.

(** The chunks of [cs] were read, with [kept] in front of them. *)
Definition feed_post (kept : bytes) (cs : list bytes) (n : nat) (s : st) (r : Z) (s' : st) : Prop :=
  exists L, delivered s' = delivered s ++ L /\ answer (split len (kept ++ concat (take n cs))) L r /\
    (0 < r -> _rbuffer (lk s') = (split len (kept ++ concat (take n cs))).1.2) /\
    (0 < r -> n = length cs \/ _graceful (lk s') = true).

(** What is kept holds no whole message. *)
Definition holds_none (s : st) : Prop :=
  split len (_rbuffer (lk s)) = ([], _rbuffer (lk s), false).

Lemma framed_holds_none s : framed s -> holds_none s.
Proof.
  unfold holds_none. intros [_ [->|Hwait]]; [done|]. apply split_wait.
  pose proof (zlen_nonneg (_rbuffer (lk s))). lia.
Qed.

Lemma feed_post_none cs s : holds_none s -> length cs = O \/ _graceful (lk s) = true ->
  feed_post (_rbuffer (lk s)) cs 0 s 1 s.
Proof.
  intros Hn Hc. exists []. change (concat (take 0 cs)) with (@nil ascii). rewrite !app_nil_r, Hn.
  split; [done|]. split; [by left|]. split; [done|]. intros _. destruct Hc; auto.
Qed.

(** A linkage that hung up throws away what it receives. *)
Lemma run_OnReceived_hung_up b s :
  _graceful (lk s) = true ->
  run (OnReceived clock (Some b)) s (fun r s' =>
    r = 1 /\ _graceful (lk s') = true /\ _rbuffer (lk s') = _rbuffer (lk s) /\ delivered s' = delivered s).
Proof. intros Hg. unfold OnReceived. apply run_if; intros Hz; wp; [done|]. cbn. rewrite Hg. by wp. Qed.

Lemma run_feed_hung_up cs s :
  _graceful (lk s) = true ->
  run (feed cs) s (fun r s' =>
    r = 1 /\ _graceful (lk s') = true /\ _rbuffer (lk s') = _rbuffer (lk s) /\ delivered s' = delivered s).
Proof.
  revert s. induction cs as [|b cs IH]; intros s Hg; cbn [feed]; [by wp|].
  apply run_bind. eapply run_mono; [by apply run_OnReceived_hung_up|]. cbn beta.
  intros r s1 (-> & Hg1 & Hrb & Hd). change (0 <? 1) with true. cbn [bool_decide].
  eapply run_mono; [by apply IH|]. cbn beta. intros r' s' (-> & Hg' & Hrb' & Hd').
  split; [done|]. split; [done|]. split; congruence.
Qed.

Lemma feed_post_app b chunks n s s1 r r' s' :
  chunk_post (_rbuffer (lk s) ++ b) s r s1 -> 0 < r ->
  feed_post (_rbuffer (lk s1)) chunks n s1 r' s' ->
  feed_post (_rbuffer (lk s)) (b :: chunks) (S n) s r' s'.
Proof.
  intros (L & Hd & Ha & Hk) Hr (L' & Hd' & Ha' & Hk' & Hn'). destruct (Hk Hr) as [Hrb _].
  destruct (answer_positive _ _ _ Ha Hr) as [Hbad ->]. rewrite Hrb in Ha', Hk'.
  destruct (split len (_rbuffer (lk s) ++ b)) as [[ms rest] bad] eqn:E.
  cbn [fst snd] in Hbad, Ha', Hk', Hrb. subst bad. unfold feed_post.
  change (concat (take (S n) (b :: chunks))) with (b ++ concat (take n chunks)). rewrite app_assoc.
  exists (L ++ L'). split; [by rewrite Hd', Hd, app_assoc|]. split; [by eapply answer_app|]. split.
  - intros Hr'. rewrite (split_app len Hstable _ _ _ _ _ E).
    destruct (split len (rest ++ concat (take n chunks))) as [[ms' rest'] bad']. by apply Hk'.
  - intros Hr'. destruct (Hn' Hr') as [->|?]; auto.
Qed.

Lemma run_feed chunks s :
  base s -> is_Some (_worker (lk s)) -> pending_ok s -> (_graceful (lk s) = false -> framed s) ->
  holds_none s ->
  run (feed chunks) s (feed_post (_rbuffer (lk s)) chunks (heard chunks s) s).
Proof.
  revert s. induction chunks as [|b chunks IH]; intros s Hb Hw Hp Hfr Hn; cbn [feed heard].
  { wp. apply feed_post_none; auto. }
  destruct (_graceful (lk s)) eqn:Hg.
  { eapply run_mono; [by apply (run_feed_hung_up (b :: chunks))|]. cbn beta.
    intros r s' (-> & Hg' & Hrb & Hd). destruct (feed_post_none (b :: chunks) s Hn (or_intror Hg))
      as (L & Hd0 & Ha & Hk & _). exists L. rewrite Hrb. split; [by rewrite Hd|]. auto. }
  specialize (Hfr eq_refl). apply run_bind.
  pose proof (run_and _ _ _ _ (run_OnReceived clock (Some b) s Hb Hw Hp)
                (run_framing_chunk b s Hb Hw Hg Hfr)) as Hrun.
  unfold run in Hrun |- *. destruct (OnReceived clock (Some b) s) as [[r s1]|e]; [|done].
  destruct Hrun as ((Hb1 & [Hf1 _] & Hp1) & Hc). fold (run (if 0 <? r then feed chunks else ret r) s1
    (feed_post (_rbuffer (lk s)) (b :: chunks) (S (if 0 <? r then heard chunks s1 else 0%nat)) s)).
  destruct (0 <? r) eqn:Hr; bprop.
  - pose proof Hc as (L & _ & Ha & Hk). destruct (Hk Hr) as [Hrb Hfr1].
    eapply run_mono; [apply IH; [done|by rewrite (flows_worker _ _ Hf1)|auto|auto|by apply framed_holds_none]|].
    cbn beta. intros r' s' Hpost. by eapply feed_post_app.
  - wp. destruct Hc as (L & Hd & Ha & _). exists L.
    change (concat (take 1 (b :: chunks))) with (b ++ []). rewrite app_nil_r.
    split; [done|]. split; [done|]. lia.
Qed.

End LinkageFraming.
