(* ===== verification/LinkageOnWorker.v ===== *)
(** * The workers of LinkageWorker.v are workers for Linkage.v

    [worker_api me] implements the interface [WorkerApi] for the linkage at
    address [me] on a map of workers: linkage_base.cpp passes [this].  Its
    invariant [worker_ok] is that of LinkageWorkerFacts.v for each worker.

    At the end a concrete connection, for the examples of LinkageProps.v: a
    kernel with an inbox, an outbox and the room of its send buffer; an echo
    server whose messages start with a byte that holds their length. *)

From S2P Require Import Prelude StateMonad LinkageWorker LinkageWorkerFacts AbstractIo Linkage Framing.

Implicit Types (W : gmap Z LinkageWorker) (w : LinkageWorker).

(** A method of the worker at address [k]; there is none at a wrong address. *)
Definition on_worker (k : Z) (f : LinkageWorker -> LinkageWorker * bool) W
  : gmap Z LinkageWorker * bool :=
  match W !! k with
  | Some w => (<[k := (f w).1]> W, (f w).2)
  | None => (W, false)
  end.

Definition watched_by (me : Z) (w : LinkageWorker) : option (bool * bool) :=
  match LinkageWorker._events w !! me with
  | Some c => Some (LinkageWorker.running_r c, LinkageWorker.running_w c)
  | None => None
  end.

Definition worker_watching (me k : Z) W : option (bool * bool) :=
  match W !! k with Some w => watched_by me w | None => None end.

Definition workers_ok W : Prop := map_Forall (fun _ w => winv w) W.

Lemma on_worker_ok k f W :
  (forall w, winv w -> winv (f w).1) -> workers_ok W -> workers_ok (on_worker k f W).1.
Proof.
  intros Hf HW. unfold on_worker. destruct (W !! k) as [w|] eqn:E; [|done]. cbn.
  apply map_Forall_insert_2; [|done]. by apply Hf, (HW k).
Qed.

Lemma on_worker_others me k k' f W : k <> k' ->
  worker_watching me k' (on_worker k f W).1 = worker_watching me k' W.
Proof.
  intros Hne. unfold worker_watching, on_worker. destruct (W !! k); [|done]. cbn.
  by rewrite lookup_insert_ne.
Qed.

Lemma on_worker_watching me k f W :
  worker_watching me k (on_worker k f W).1 =
    match W !! k with Some w => watched_by me (f w).1 | None => None end.
Proof.
  unfold worker_watching, on_worker. destruct (W !! k) eqn:E; cbn; [|by rewrite E].
  by rewrite lookup_insert_eq.
Qed.

(** What the methods do to the flags of the client. *)
Lemma SetWannaRead_flags me r w :
  watched_by me (LinkageWorker.SetWannaRead me r w).1 =
    match watched_by me w with Some (_, x) => Some (r, x) | None => None end.
Proof.
  unfold watched_by, LinkageWorker.SetWannaRead. destruct (LinkageWorker._events w !! me) as [c|] eqn:E;
    [|by cbn; rewrite E].
  destruct (Bool.eqb r (LinkageWorker.running_r c)) eqn:Er.
  - cbn. rewrite E. apply Bool.eqb_prop in Er. by rewrite Er.
  - cbn. by rewrite lookup_insert_eq.
Qed.

Lemma SetWannaWrite_flags me x w :
  watched_by me (LinkageWorker.SetWannaWrite me x w).1 =
    match watched_by me w with Some (r, _) => Some (r, x) | None => None end.
Proof.
  unfold watched_by, LinkageWorker.SetWannaWrite. destruct (LinkageWorker._events w !! me) as [c|] eqn:E;
    [|by cbn; rewrite E].
  destruct (Bool.eqb x (LinkageWorker.running_w c)) eqn:Er.
  - cbn. rewrite E. apply Bool.eqb_prop in Er. by rewrite Er.
  - cbn. by rewrite lookup_insert_eq.
Qed.

Lemma SetWanna_flags me r x w :
  watched_by me (LinkageWorker.SetWanna me r x w).1 =
    match watched_by me w with Some _ => Some (r, x) | None => None end.
Proof.
  rewrite LinkageWorkerFacts.SetWanna_halves, SetWannaWrite_flags, SetWannaRead_flags.
  by destruct (watched_by me w) as [[? ?]|].
Qed.

Lemma Detach_flags me w : watched_by me (LinkageWorker.Detach (Some me) w).1 = None.
Proof.
  unfold watched_by, LinkageWorker.Detach. destruct (LinkageWorker._events w !! me) as [c|] eqn:E; cbn;
    [by rewrite lookup_delete_eq|by rewrite E].
Qed.

Lemma Attach_flags me fd r x a w : watched_by me w = None ->
  watched_by me (LinkageWorker.Attach (Some me) fd r x a w).1 = Some (r, x) /\
  (LinkageWorker.Attach (Some me) fd r x a w).2 = true.
Proof.
  unfold watched_by, LinkageWorker.Attach. destruct (LinkageWorker._events w !! me) as [c|] eqn:E; [done|].
  intros _. split; [|done]. destruct r, x; cbn; by rewrite lookup_insert_eq.
Qed.

Section worker_api.
Context (me : Z).

#[export, refine] Instance worker_api : WorkerApi (gmap Z LinkageWorker) := {|
  w_Attach k fd r x a := on_worker k (LinkageWorker.Attach (Some me) fd r x a);
  w_Detach k := on_worker k (LinkageWorker.Detach (Some me));
  w_SetWanna k r x W := (on_worker k (LinkageWorker.SetWanna me r x) W).1;
  w_SetWannaRead k r W := (on_worker k (LinkageWorker.SetWannaRead me r) W).1;
  w_SetWannaWrite k x W := (on_worker k (LinkageWorker.SetWannaWrite me x) W).1;
  watching := worker_watching me;
  worker_ok := workers_ok
|}.
Proof.
  - intros k fd r x a W W' E Hno. change W' with (W', true).1. rewrite <- E, on_worker_watching.
    unfold worker_watching in Hno. unfold on_worker in E. destruct (W !! k) as [w|]; [|done].
    by apply Attach_flags.
  - intros k fd r x a W W' E. unfold on_worker in E. destruct (W !! k) as [w|] eqn:Ek; [|by injection E as <-].
    injection E as <- E. unfold LinkageWorker.Attach in E.
    by destruct (LinkageWorker._events w !! me).
  - intros. by apply on_worker_others.
  - intros k W. rewrite on_worker_watching. destruct (W !! k); [apply Detach_flags|done].
  - intros. by apply on_worker_others.
  - intros k r x W. rewrite on_worker_watching. unfold worker_watching.
    destruct (W !! k); [apply SetWanna_flags|done].
  - intros. by apply on_worker_others.
  - intros k r W. rewrite on_worker_watching. unfold worker_watching.
    destruct (W !! k); [apply SetWannaRead_flags|done].
  - intros. by apply on_worker_others.
  - intros k x W. rewrite on_worker_watching. unfold worker_watching.
    destruct (W !! k); [apply SetWannaWrite_flags|done].
  - intros. by apply on_worker_others.
  - intros. apply on_worker_ok; [|done]. intros. by apply LinkageWorkerFacts.Attach_winv.
  - intros. apply on_worker_ok; [|done]. intros. by apply LinkageWorkerFacts.Detach_winv.
  - intros. apply on_worker_ok; [|done]. intros. by apply LinkageWorkerFacts.SetWanna_winv.
  - intros. apply on_worker_ok; [|done]. intros. by apply LinkageWorkerFacts.SetWannaRead_winv.
  - intros. apply on_worker_ok; [|done]. intros. by apply LinkageWorkerFacts.SetWannaWrite_winv.
Defined.

End worker_api.

Record socket : Type := mkSocket {
  inbox : list bytes;
  outbox : bytes;
  room : Z
}.

Definition socket_read (fd n : Z) (k : socket) : socket * (Z + bytes) :=
  match inbox k with
  | [] => (k, inl EAGAIN)
  | b :: rest =>
      let got := take (Z.to_nat n) b in
      let left := drop (Z.to_nat n) b in
      (mkSocket (if nonempty left then left :: rest else rest) (outbox k) (room k), inr got)
  end.

Definition socket_write (fd : Z) (b : bytes) (k : socket) : socket * (Z + Z) :=
  if room k <=? 0 then (k, inl EAGAIN)
  else
    let n := Z.min (room k) (zlen b) in
    (mkSocket (inbox k) (outbox k ++ take (Z.to_nat n) b) (room k - n), inr n).

#[export, refine] Instance socket_kernel : Kernel socket := {|
  sys_read := socket_read;
  sys_write := socket_write;
  sys_shutdown fd k := (k, None);
  sys_so_error fd k := (k, inr 0);
  sent_bytes := outbox;
  interrupts k := O
|}.
Proof.
  - intros fd n k k'. unfold socket_read. by destruct (inbox k).
  - intros fd n k. unfold socket_read. by destruct (inbox k).
  - intros fd b k k'. unfold socket_write. by destruct (room k <=? 0).
  - intros fd b k k' n. unfold socket_write. destruct (room k <=? 0) eqn:E; [done|].
    intros [= <- <-]. cbn. bprop. pose proof (zlen_nonneg b). split; [lia|done].
  - intros fd b k k' e. unfold socket_write. destruct (room k <=? 0); [|done]. by intros [= <- _].
  - done.
  - done.
Defined.

(** The length that a message starts with; 0 is invalid. *)
Definition echo_len (b : bytes) : Z :=
  match b with
  | [] => 0
  | c :: _ => if code c =? 0 then -1 else code c
  end.

Lemma echo_len_stable : prefix_stable echo_len.
Proof. intros [|c b] d; cbn; lia. Qed.

(** The state of the application is the number of messages it got. *)
#[export] Instance echo : LinkageHandler Z := {|
  h_GetMessageLength b h := Ret (h, echo_len b);
  h_OnMessage b h := CallSend b (fun _ => Ret (h + 1, 1));
  h_OnConnected := LinkageHandler_OnConnected;
  h_OnDisconnected := LinkageHandler_OnDisconnected;
  h_OnError := LinkageHandler_OnError;
  h_Cleanup := LinkageHandler_Cleanup
|}.

(** The clock, a worker at address 1 and a new linkage at address 7. *)
Definition demo_clock (n : nat) : Z := 1000 + Z.of_nat n.

#[export] Instance demo_api : WorkerApi (gmap Z LinkageWorker) := worker_api 7.

Definition demo_workers : gmap Z LinkageWorker := {[ 1 := LinkageWorker_new ]}.

Definition demo_start (inbox : list bytes) (room : Z) : st :=
  Linkage_new demo_clock 5 (mkFdIo 5 false (mkSocket inbox [] room)) demo_workers 0 0.

Lemma demo_watching k : watching k demo_workers = None.
Proof.
  cbn. unfold worker_watching, demo_workers. destruct (decide (k = 1)) as [->|Hne].
  - by rewrite lookup_singleton_eq.
  - by rewrite lookup_singleton_ne.
Qed.

Lemma demo_workers_ok : worker_ok demo_workers.
Proof. cbn. unfold workers_ok, demo_workers. apply map_Forall_singleton. apply winv_new. Qed.
