(* ===== verification/EasyServerDemo.v ===== *)
(** * A concrete server, for the examples of EasyServerProps.v

    First, the linkages of Linkage.v keep what [LinkageApi] promises to a
    server.  Then a server whose linkages are those of LinkageOnWorker.v on plain
    descriptors; the state of its application counts the calls that it gets. *)

From S2P Require Import Prelude StateMonad Sockets LinkageWorker LinkageWorkerFacts AbstractIo Listener EasyServer Linkage LinkageFacts LinkageReceive LinkageLife EasyServerMethods EasyServerLife LinkageOnWorker.

Section linkage_api.
Context {I W H : Type} {IO : AbstractIo I} {WA : WorkerApi W} {LH : LinkageHandler H}.
Context (clock : nat -> Z).

(** The engine of a linkage, by whether it is secure, a client and connecting,
    and by its descriptor; the workers and the handler it starts with. *)
Context (engine : bool -> bool -> bool -> Z -> I) (workers : W) (handler : H).
Context (Hworkers : worker_ok workers) (Hnone : forall k, watching k workers = None).

Abbreviation st := (@Linkage.st I W H).

Definition linkage_fresh (s : st) : Prop :=
  base0 s /\ _worker (lk s) = None /\ pending_ok s /\ forall k, watching k (wk s) = None.

Definition linkage_live (s : st) : Prop := Inv s /\ is_Some (_worker (lk s)).

Definition set_all_timeouts (receive connect send idle : Z) (s : st) : st :=
  put_lk (set_idle_timeout idle (set_send_timeout send
    (set_connect_timeout connect (set_receive_timeout receive (lk s))))) s.

Lemma new_fresh ssl client connecting fd :
  linkage_fresh (Linkage_new clock fd (engine ssl client connecting fd) workers handler 0).
Proof.
  split_and!; [|done|right; split; [done|by left]|apply Hnone]. constructor; cbn; try done.
  - split; [done|]. by left.
  - left. by rewrite app_nil_r.
  - intros k r x. by rewrite Hnone.
Qed.

Lemma set_timeouts_fresh r c x i s : linkage_fresh s -> linkage_fresh (set_all_timeouts r c x i s).
Proof. intros ([] & ? & ? & ?). split_and!; [by constructor|done..]. Qed.

Lemma set_timeouts_live r c x i s : linkage_live s -> linkage_live (set_all_timeouts r c x i s).
Proof. intros [([] & ? & ?) ?]. split; [|done]. split_and!; [by constructor|done..]. Qed.

Lemma Attach_api w s : linkage_fresh s -> exists ok s', Attach clock (Some w) s = Ok (ok, s') /\
  (ok = true -> linkage_live s' /\ _worker (lk s') = Some w).
Proof.
  intros (Hb & Hw & Hp & Hn).
  destruct (run_ok _ _ _ (run_Attach clock w s Hb Hw Hp Hn)) as (ok & s' & E & Hb' & Hok).
  exists ok, s'. split; [exact E|]. intros ->. destruct Hok as [HI Hk]. split; [|done].
  split; [done|]. by rewrite Hk.
Qed.

(** What stays of a live linkage after a method that [stable]s it. *)
Lemma live_stable s s' : linkage_live s -> base s' -> stable s s' ->
  linkage_live s' /\ _worker (lk s') = _worker (lk s).
Proof.
  intros [HI Hw] Hb Hs. pose proof (stable_worker _ _ Hs) as Ew.
  split; [|exact Ew]. split; [by eapply Inv_stable|by rewrite Ew].
Qed.

Lemma Send_api b s : linkage_live s -> exists r s', Send clock (Some b) s = Ok (r, s') /\
  linkage_live s' /\ _worker (lk s') = _worker (lk s).
Proof.
  intros Hl. destruct (run_ok _ _ _ (run_Send clock (Some b) s (proj1 (proj1 Hl)))) as (r & s' & E & Hb & Hs & _).
  exists r, s'. split; [exact E|]. by apply live_stable.
Qed.

Lemma Disconnect_api f s : linkage_live s -> exists r s', Disconnect clock f s = Ok (r, s') /\
  linkage_live s' /\ _worker (lk s') = _worker (lk s).
Proof.
  intros Hl. destruct (run_ok _ _ _ (run_Disconnect clock f s (proj1 (proj1 Hl)) (proj2 Hl))) as (r & s' & E & Hb & Hs & _).
  exists r, s'. split; [exact E|]. by apply live_stable.
Qed.

#[export, refine] Instance linkage_api : LinkageApi st := {|
  l_new ssl client connecting fd :=
    Linkage_new clock fd (engine ssl client connecting fd) workers handler 0;
  l_set_timeouts := set_all_timeouts;
  l_worker s := _worker (lk s);
  l_Attach w := Attach clock (Some w);
  l_Send b := Send clock (Some b);
  l_Disconnect := Disconnect clock;
  l_fresh := linkage_fresh;
  l_live := linkage_live
|}.
Proof.
  - apply new_fresh.
  - apply set_timeouts_fresh.
  - intros. split; [by apply set_timeouts_live|done].
  - apply Attach_api.
  - apply Send_api.
  - apply Disconnect_api.
Defined.

End linkage_api.

Definition demo_engine (ssl client connecting : bool) (fd : Z) : @FileDescriptorIo socket :=
  mkFdIo fd connecting (LinkageOnWorker.mkSocket [] [] 1000).

Definition one_worker : gmap Z LinkageWorker := {[ 0 := LinkageWorker_new ]}.

Lemma one_worker_ok : worker_ok one_worker.
Proof. cbn. unfold workers_ok, one_worker. apply map_Forall_singleton. apply winv_new. Qed.

Lemma one_worker_none k : watching k one_worker = None.
Proof.
  cbn. unfold worker_watching, one_worker. destruct (decide (k = 0)) as [->|Hne].
  - by rewrite lookup_singleton_eq.
  - by rewrite lookup_singleton_ne.
Qed.

#[export] Instance demo_linkages : LinkageApi (@Linkage.st (@FileDescriptorIo socket) (gmap Z LinkageWorker) Z) :=
  linkage_api demo_clock demo_engine one_worker 0 one_worker_ok one_worker_none.

#[export] Instance demo_handlers : EasyHandlers Z := {|
  eh_GetMessageLength _ _ b a := (zlen b, a);
  eh_OnMessage _ _ _ a := (1, a + 1);
  eh_HashMessage _ _ _ := EasyHandler_HashMessage;
  eh_OnConnected _ _ := EasyHandler_OnConnected;
  eh_OnDisconnected _ _ a := EasyHandler_OnDisconnected (a + 1);
  eh_OnError _ _ := EasyHandler_OnError;
  eh_Cleanup _ _ := EasyHandler_Cleanup;
  ef_Create f a := (f + 100, a);
  a_errno _ := 0;
  a_Run _ a := a + 10
|}.

(** What the demo accepts starts. *)
Lemma demo_accepts : attach_accepts 0.
Proof. intros fd b b' (s & r & c & x & t & ->). vm_compute. discriminate. Qed.

Abbreviation demo_world := (@world (@Linkage.st (@FileDescriptorIo socket) (gmap Z LinkageWorker) Z) Z).

(** The state after a program that returns. *)
Definition after {S T : Type} (m : ST S T) (s : S) : S :=
  match m s with Ok (_, s') => s' | Err _ => s end.

Definition demo_new : demo_world := world_new kDefaultConfigure 0.
Definition demo_listen : ListenOption := Listen_option 80 (Some 5) None None.
Definition demo_listening : demo_world := after (Listen demo_listen true) demo_new.
Definition demo_threads : ST demo_world unit := ret tt.
Definition demo_started : demo_world :=
  after (Initialize demo_threads [] (B "") (Some (B ""))) demo_listening.

Definition demo_destination : ConnectOption :=
  ConnectTcp4_option (B "localhost") 80 (Some 6) None None 0.

Lemma demo_life_listening : life false ([], demo_listening).
Proof.
  apply (life_Listen demo_new demo_listen true true).
  - apply life_new. vm_compute. split; [discriminate|reflexivity].
  - vm_compute. reflexivity.
Qed.

Lemma demo_life_started : life true ([], demo_started).
Proof.
  apply (life_Initialize demo_listening demo_threads [] (B "") (Some (B ""))).
  - apply demo_life_listening.
  - constructor.
  - vm_compute. reflexivity.
Qed.

(** The I/O worker starts, a client is accepted, the server gets a destination. *)
Definition demo_step e (s : list Z * demo_world) : list Z * demo_world := after (exec e) s.
Definition demo_1 := demo_step (Starts 0 11) ([], demo_started).
Definition demo_2 := demo_step (Readable 0 0 (AcceptFd true true) true) demo_1.
Definition demo_running := demo_step (Connects 0 demo_destination) demo_2.

Lemma room_ok (w : demo_world) :
  forallb (fun c => EasyServer._channel c + _slots (sv w) <? OUTGOING) (_io_context (sv w)) = true -> EasyServerMethods.room w.
Proof. intros H. apply Forall_forall. intros c Hc. rewrite forallb_forall in H. by apply Z.ltb_lt, H, list_elem_of_In. Qed.

Lemma demo_life_running : life true demo_running.
Proof.
  apply (life_event demo_2 (Connects 0 demo_destination)); [|split; [done|by apply room_ok]|vm_compute; reflexivity].
  apply (life_event demo_1 (Readable 0 0 (AcceptFd true true) true)); [| |vm_compute; reflexivity].
  - apply (life_event ([], demo_started) (Starts 0 11)); [apply demo_life_started| |vm_compute; reflexivity].
    vm_compute. split; [discriminate|reflexivity].
  - split; [vm_compute; split; [discriminate|reflexivity]|]. split; [vm_compute; split; [discriminate|reflexivity]|].
    split; [by apply room_ok|]. split; [apply demo_accepts|done].
Qed.

Definition demo_server : demo_world := demo_running.2.

Lemma demo_life_server : life true ([], demo_server).
Proof.
  assert (demo_running = ([], demo_server)) as <- by (vm_compute; reflexivity). apply demo_life_running.
Qed.

(** ** A server that refuses its clients

    As [echo], but OnConnected returns false. *)
Definition refuser : LinkageHandler Z := {|
  h_GetMessageLength b h := Ret (h, zlen b);
  h_OnMessage b h := Ret (h, 1);
  h_OnConnected h := Ret (h, false);
  h_OnDisconnected := LinkageHandler_OnDisconnected;
  h_OnError := LinkageHandler_OnError;
  h_Cleanup := LinkageHandler_Cleanup
|}.

Definition refused_linkages : LinkageApi (@Linkage.st (@FileDescriptorIo socket) (gmap Z LinkageWorker) Z) :=
  linkage_api (LH := refuser) demo_clock demo_engine one_worker 0 one_worker_ok one_worker_none.

(** The state after a client was accepted and refused. *)
Definition after_refused : demo_world :=
  after (EasyServer.OnReadable (LA := refused_linkages) 0 0 (AcceptFd true true) true)
    (after (Initialize demo_threads [] (B "") None) demo_listening).
