(* ===== verification/EasyServerProps.v ===== *)
(** * The properties of the server

    The server is safe at any moment of its life; Initialize, Connect and Send
    on every branch; Shutdown stops the threads and frees everything.  The
    last part shows what a refused connection leaves behind. *)

From S2P Require Import Prelude StateMonad Sockets AbstractIo FixedThreadPool Explode Linkage LinkageOnWorker Listener LinkageWorker EasyServer EasyServerInv EasyServerFacts EasyServerMethods EasyServerJobs EasyServerInit EasyServerShutdown EasyServerLife EasyServerDemo.

Section Props.
Context {L A : Type} {LA : LinkageApi L} {EH : EasyHandlers A}.
Abbreviation world := (@world L A).
Implicit Types (w : world).

(** C7: From its construction on, through any number of restarts and whatever
    the threads, the kernel and the application do, in any order, a running
    server is sound - the counters, the tables, the heap, the descriptors and
    the queues agree - and everything that a thread may do next succeeds: no
    dead object is used, nothing is deleted twice, no assertion fails.  This is
    as long as no accepted connection is refused when it is attached
    ([attach_accepts]; [refused_connection_dangles] shows what happens else),
    accept fails only with EINTR, EAGAIN or ECONNABORTED (Listener::OnReadable
    throws for the other errors, on purpose) and channel numbers remain
    ([room]): see [enabled]. *)
Theorem easy_server_safe (s : list Z * world) :
  life true s ->
  sound s /\ forall e, enabled e s -> exists s', exec e s = Ok (tt, s') /\ life true s'.
Proof.
  intros Hs. pose proof (life_inv _ _ Hs) as HI. cbn in HI. split; [by apply Inv_sound|].
  intros e He. destruct (run_ok _ _ _ (exec_Inv e s HI He)) as ([] & s' & E & _).
  exists s'. split; [done|]. by eapply life_event.
Qed.

(** A stopped server starts, from texts or from counts, exactly when the
    texts are lists of lists of CPUs with 1 to 128 I/O workers and at most
    16384 job workers: it then has a thread, a pool job and an I/O context for
    each I/O worker, a thread, a pool job and a queue for each job worker, and
    nothing else.  Otherwise nothing changes. *)
Theorem easy_server_Initialize w ts rand :
  life false ([], w) -> Forall (fun r => 0 <= r) rand ->
  (forall slots workers r1 as_ r2 aw,
     explode_lists slots 256 = Ok (r1, as_) -> parsed_as workers r2 aw ->
     run (Initialize ts rand slots workers) w
       (initialized (zlen as_) (zlen aw) w
         ((r1 =? 0) && (r2 =? 0) && accepted_sizes (zlen as_) (zlen aw)))) /\
  (forall n m, 0 <= n -> 0 <= m ->
     run (Initialize_count ts rand n m) w (initialized n m w (accepted_sizes n m))).
Proof.
  intros Hs Hr. destruct (life_inv _ _ Hs) as [_ HI]. cbn in HI. split.
  - intros slots workers r1 as_ r2 aw. by apply run_Initialize.
  - intros n m. by apply run_Initialize_count.
Qed.

(** Connect of one handler or one factory gives a channel that no table
    and no linkage has, outgoing, of the thread that was asked for or else of a
    random one; the channel leads to the destination, and nothing else
    changes.  With both or none it gives the invalid channel and changes
    nothing. *)
Theorem easy_server_Connect (held : list Z) w rand o :
  life true (held, w) -> room w -> 0 <= rand ->
  let i := chosen_thread rand o (_slots (sv w)) in
  run (Connect rand o) w (fun c w' =>
    if one_handler o then
      0 <= i < _slots (sv w) /\ IsValidChannel c = true /\ IsOutgoingChannel c = true /\
      owner (_slots (sv w)) c = i /\
      outs (sv w) c = None /\ lnks (sv w) c = None /\
      (forall l pl, linkages w !! l = Some pl -> channel (context pl) <> c) /\
      (exists p ph, outs (sv w') c = Some p /\ cons_ (sv w') c = Some ph /\
        infos w' !! p = Some (mkOutgoing ph (connect_socket o) (connect_option o) i) /\
        handlers w' !! ph = Some (mkProxyHandler (Option_new false) (c_ssl o) (c_easy_handler o) (c_easy_factory o))) /\
      linkages w' = linkages w /\
      (forall c', c' <> c -> outs (sv w') c' = outs (sv w) c' /\ cons_ (sv w') c' = cons_ (sv w) c') /\
      same (lnks (sv w')) (lnks (sv w))
    else c = kInvalidChannel /\ w' = w).
Proof.
  intros Hs Hr Hrand i. pose proof (life_inv _ _ Hs) as HI. cbn in HI.
  eapply run_mono; [by apply (run_Connect held)|]. cbn beta. intros c w' [_ H].
  destruct (one_handler o); [|done]. fold i in H. destruct H as (ioc & Hi & -> & Es & Hinfo & Hhand & El).
  pose proof (inv_ctx _ _ (Inv_Inv0 _ _ HI)) as Hc. pose proof (room_at _ _ _ Hr Hi) as Hlt.
  destruct (next_key_fresh _ _ Hc _ _ true Hi Hlt) as (F1 & F2 & F3).
  destruct (next_key_owner _ _ Hc _ _ true Hi Hlt) as [Hown Hk].
  destruct (connect_views (sv w) i ioc (next w + 1) (next w) Hc Hi Hlt) as (V1 & V2 & V3).
  rewrite <- Es in V1, V2, V3. set (k := next_key (_slots (sv w)) ioc true) in *.
  assert (index (_io_context (sv w)) (owner (_slots (sv w)) k) = Some ioc) as Hi' by by rewrite Hown.
  assert (lnks (sv w) k = None) as Hlk by (unfold lnks; by rewrite (view_entry _ _ _ _ Hi')).
  split_and!; try done.
  - by apply (index_lt _ _ _) in Hi as [? _].
  - pose proof (index_lt _ _ _ Hi) as Hr'. rewrite (cx_len _ _ Hc) in Hr'. lia.
  - eapply valid_key_owner; [apply Hc|exact Hlt|by apply (next_key_valid _ _ Hc)].
  - unfold outs. by rewrite (view_entry _ _ _ _ Hi').
  - intros l pl Hl E. pose proof (lnks_channel _ _ _ _ HI Hl) as Hlc. congruence.
  - exists (next w + 1), (next w). by rewrite V1, V2, !upd_eq.
  - intros c' Hne. rewrite V1, V2, !upd_ne by done. done.
Qed.

(** C9: Send never fails, and does what [send_post] says in each case: it
    refuses the invalid channel, drops silently what is sent to a channel that
    is gone, hands the bytes to the linkage when the caller is the thread of
    the channel and queues one command for that thread when it is not, and
    connects an outgoing channel that is not connected. *)
Theorem easy_server_Send (held : list Z) w rand tid c b conn :
  life true (held, w) ->
  run (Send rand tid c b conn) w (fun r w' => sound (held, w') /\ send_post tid c b conn w r w').
Proof.
  intros Hs. pose proof (life_inv _ _ Hs) as HI. cbn in HI.
  eapply run_mono; [by apply (run_Send_post held)|]. cbn beta. intros r w' [HI' HP].
  split; [by apply Inv_sound|done].
Qed.

(** C8: Shutdown ends: once it is called every job worker leaves its loop at
    its next turn, whatever was queued, and the last command of every I/O
    worker tells it to stop; and when the threads have done what they still do
    and released their linkages, it returns true with every handler,
    destination, linkage and descriptor gone, the counters at 0, and the
    server as one that can be started again. *)
Theorem easy_server_Shutdown w es :
  life true ([], w) -> (forall w1, DoShutdown_begin w = Ok (tt, w1) -> ends es w1) ->
  run DoShutdown_begin w (fun _ w1 =>
    (forall tid id conn, 0 <= id < EasyServer._workers (sv w) ->
       run (JobWorker_Run_once tid id conn) w1 (fun r _ => r = Some false)) /\
    Forall (fun x => exists q, _commands (worker x) = q ++ [None]) (_io_workers (sv w1))) /\
  run (Shutdown (threads es)) w (fun r w' => r = true /\ life false ([], w') /\
    handlers w' = ∅ /\ infos w' = ∅ /\ linkages w' = ∅ /\ fds w' = ∅ /\
    _incoming_connections (sv w') = 0 /\ _outgoing_connections (sv w') = 0).
Proof.
  intros Hs Hes. pose proof (life_inv _ _ Hs) as HI. cbn in HI. split.
  - eapply run_mono; [by apply run_DoShutdown_begin|]. cbn beta. intros _ w1 (_ & (Hq & Hh & Hc) & Ew).
    split; [|done]. intros tid id conn Hid. unfold JobWorker_Run_once, GetJob. wp. rewrite Hq, Hh, Ew.
    assert (index (replicate (Z.to_nat (EasyServer._workers (sv w))) [None (A := Z)]) id = Some [None]) as E.
    { unfold index. rewrite (proj2 (Z.ltb_ge id 0)) by lia. apply lookup_replicate_2. lia. }
    eapply run_the; [exact E|]. by wp.
  - assert (run (DoShutdown (threads es)) w (fun r w' => r = true /\ Idle w' /\
      handlers w' = ∅ /\ infos w' = ∅ /\ linkages w' = ∅ /\ fds w' = ∅ /\ _listeners (sv w') = [] /\
      _incoming_connections (sv w') = 0 /\ _outgoing_connections (sv w') = 0)) as HR.
    { apply run_DoShutdown; [done|]. intros w1 E1 HI1. by apply run_threads, Hes. }
    apply run_ok in HR as (r & w' & E & -> & _ & ? & ? & ? & ? & _ & ? & ?).
    unfold Shutdown, run. rewrite E. split_and!; try done. by eapply life_Shutdown.
Qed.

End Props.

(** ** Examples *)

Lemma easy_server_safe_witness :
  sound demo_running /\ exists s', exec (Sends 0 11 1 (Some (B "hello")) (mkConnectAnswer 0 0)) demo_running = Ok (tt, s') /\
    life true s'.
Proof.
  destruct (easy_server_safe demo_running demo_life_running) as [H1 H2].
  split; [exact H1|]. apply (H2 (Sends 0 11 1 (Some (B "hello")) (mkConnectAnswer 0 0))). exact I.
Defined.

Lemma easy_server_Initialize_witness :
  run (Initialize demo_threads [] (B "0,1;2") (Some (B ";;"))) demo_listening
    (initialized 2 3 demo_listening true) /\
  run (Initialize_count demo_threads [] 129 0) demo_listening (initialized 129 0 demo_listening false).
Proof.
  destruct (easy_server_Initialize demo_listening demo_threads [] demo_life_listening (Forall_nil_2 _)) as [H1 H2].
  split.
  - apply (H1 (B "0,1;2") (Some (B ";;")) 0 [[0; 1]; [2]] 0 [[]; []; []]); vm_compute; reflexivity.
  - apply (H2 129 0); vm_compute; discriminate.
Defined.

Lemma easy_server_Connect_witness :
  exists c w', Connect 5 demo_destination demo_server = Ok (c, w') /\
    IsOutgoingChannel c = true /\ outs (sv demo_server) c = None /\ is_Some (outs (sv w') c).
Proof.
  pose proof (easy_server_Connect [] demo_server 5 demo_destination demo_life_server
    (room_ok demo_server eq_refl) ltac:(lia)) as H.
  apply run_ok in H as (c & w' & E & H). exists c, w'. split; [exact E|].
  destruct H as (_ & _ & H1 & _ & H2 & _ & _ & (p & ph & H3 & _) & _).
  split; [exact H1|]. split; [exact H2|]. exists p. exact H3.
Defined.

Lemma easy_server_Send_witness :
  run (Send 0 11 1 (Some (B "hello")) (mkConnectAnswer 0 0)) demo_server (fun r w' =>
    sound ([], w') /\ send_post 11 1 (Some (B "hello")) (mkConnectAnswer 0 0) demo_server r w').
Proof. exact (easy_server_Send [] demo_server 0 11 1 (Some (B "hello")) (mkConnectAnswer 0 0) demo_life_server). Defined.

Lemma easy_server_Shutdown_witness :
  run (Shutdown (threads [TakesJob 0; Starts 0 0])) demo_server (fun r w' => r = true /\ life false ([], w') /\
    handlers w' = ∅ /\ infos w' = ∅ /\ linkages w' = ∅ /\ fds w' = ∅ /\
    _incoming_connections (sv w') = 0 /\ _outgoing_connections (sv w') = 0).
Proof.
  apply (easy_server_Shutdown demo_server [TakesJob 0; Starts 0 0] demo_life_server).
  intros w1 E. assert (w1 = after DoShutdown_begin demo_server) as -> by (unfold after; rewrite E; reflexivity).
  clear E. split.
  - split; [vm_compute; split; [discriminate|reflexivity]|]. intros s' E.
    assert (s' = after (exec (TakesJob 0)) ([], after DoShutdown_begin demo_server)) as ->
      by (unfold after at 1; rewrite E; reflexivity).
    split; [vm_compute; split; [discriminate|reflexivity]|]. intros s'' _. exact I.
  - intros s E.
    assert (s = after (run_events [TakesJob 0; Starts 0 0]) ([], after DoShutdown_begin demo_server)) as ->
      by (unfold after at 1; rewrite E; reflexivity).
    vm_compute. reflexivity.
Defined.

(** ** A connection that is refused

    Listener::OnReadable deletes a linkage that does not attach - here since
    OnConnected returned false - without telling the server: its channel stays
    in the table, its place is still counted, and a message to the channel
    uses the deleted linkage. *)
Lemma refused_connection_dangles :
  linkages after_refused = ∅ /\ fds after_refused = fds demo_listening /\
  _incoming_connections (sv after_refused) = 1 /\
  is_Some (lnks (sv after_refused) 1) /\
  Send (LA := refused_linkages) 0 11 1 (Some (B "hello")) (mkConnectAnswer 0 0) after_refused
    = Err undefined_behaviour.
Proof. split_and!; vm_compute; try reflexivity. eexists. reflexivity. Qed.
