(* ===== verification/LinkageProps.v ===== *)
(** * What a connection promises: the theorems on Linkage.v

    No assertion of a linkage can fail and its buffers are bounded; the peer
    gets the bytes that were sent, in order; messages do not depend on how the
    stream was cut; queued bytes are always waited for; a linkage that hangs up
    sends and delivers nothing more.  Each is shown for any engine, worker and
    application, with the echo server of LinkageOnWorker.v as an instance.

    At the end the same over SSL, with the engine of SslIo.v: whatever OpenSSL
    returns, no assertion fails and the peer gets, as plaintext, what was sent,
    in order. *)

From S2P Require Import Prelude StateMonad LinkageWorker LinkageWorkerFacts AbstractIo SslIo Linkage LinkageFacts LinkageReceive LinkageLife Framing LinkageFraming LinkageOnWorker.

Section LinkageProps.
Context {I W H : Type} {IO : AbstractIo I} {WA : WorkerApi W} {LH : LinkageHandler H}.
Context (clock : nat -> Z).

Implicit Types (s : @st I W H).

Lemma base0_new fd i w h n :
  worker_ok w -> (forall k, watching k w = None) -> base0 (Linkage_new (H := H) clock fd i w h n).
Proof.
  intros Hok Hw. constructor; cbn; auto.
  - by compute.
  - split; [done|by left].
  - left. by rewrite app_nil_r.
  - intros k r x. by rewrite Hw.
Qed.

Lemma run_life k ops fd i w h n :
  worker_ok w -> (forall k, watching k w = None) ->
  run (life clock k ops) (Linkage_new (H := H) clock fd i w h n) (fun keep s' =>
    base0 s' /\ (keep = true -> Inv s' /\ _worker (lk s') = Some k)).
Proof.
  intros Hok Hw. unfold life. apply run_bind. eapply run_mono.
  { apply run_Attach; [by apply base0_new|done| |done]. right. cbn. lia. }
  intros ok s1 [Hb Hs]. destruct ok; [|wp; by split].
  destruct Hs as [Hi Hk]. eapply run_mono; [by apply run_serve|].
  intros keep s2 (Hb2 & [Hf _] & Hi2). split; [by apply base_base0|].
  intros Hkeep. split; [auto|]. by rewrite (flows_worker _ _ Hf).
Qed.

(** C3: whatever the engine reads, the kernel takes and the application does,
    every call on a linkage returns: no assertion fails, nothing is undefined
    and no loop runs on; the bytes it queues never exceed 64 MiB, and while it
    stays, the bytes of an incomplete message are fewer than its length. *)
Theorem linkage_never_fails k ops fd i w h n :
  worker_ok w -> (forall k, watching k w = None) ->
  exists keep s',
    life clock k ops (Linkage_new (H := H) clock fd i w h n) = Ok (keep, s') /\
    zlen (_wbuffer (lk s')) <= kMaximumBytes /\
    (keep = true -> _graceful (lk s') = false -> _rlength (lk s') <> 0 ->
     zlen (_rbuffer (lk s')) < _rlength (lk s')).
Proof.
  intros Hok Hw. destruct (run_ok _ _ _ (run_life k ops fd i w h n Hok Hw)) as (keep & s' & E & Hb & Hi).
  exists keep, s'. split; [done|]. split; [apply Hb|]. intros Hkeep Hg Hr.
  destruct (Hi Hkeep) as [(_ & [Hp|[_ [?|?]]] & _) _]; [congruence|done|done].
Qed.

(** C2: the peer gets what was sent: at any time the bytes written and those
    still queued are, in order, exactly the bytes that Send took; after a
    Disconnect that discards the queue, the bytes written are the beginning
    of those. *)
Theorem linkage_stream_integrity k ops fd i w h n keep s' :
  worker_ok w -> (forall k, watching k w = None) ->
  life clock k ops (Linkage_new (H := H) clock fd i w h n) = Ok (keep, s') ->
  written (io s') ++ _wbuffer (lk s') = sent s' \/
  _graceful (lk s') = true /\ _wbuffer (lk s') = [] /\ written (io s') `prefix_of` sent s'.
Proof.
  intros Hok Hw E. pose proof (run_life k ops fd i w h n Hok Hw) as Hr. unfold run in Hr.
  rewrite E in Hr. by destruct Hr as [[] _].
Qed.

(** Send is all or nothing up to 64 MiB: when it returns true the bytes are
    on their way behind all that were sent before, and when it returns false
    none is, unless the message alone exceeds the queue; it never fails an
    assertion, and an inbound message it was called from is not affected. *)
Theorem linkage_Send_all_or_nothing b s :
  base s ->
  exists r s',
    Send clock (Some b) s = Ok (r, s') /\
    (r = true -> sent s' = sent s ++ b) /\
    (r = false -> zlen b <= kMaximumBytes -> sent s' = sent s) /\
    (written (io s') ++ _wbuffer (lk s') = sent s' \/
     _graceful (lk s') = true /\ _wbuffer (lk s') = [] /\ written (io s') `prefix_of` sent s') /\
    _rbuffer (lk s') = _rbuffer (lk s) /\ _rlength (lk s') = _rlength (lk s) /\
    delivered s' = delivered s.
Proof.
  intros Hb. destruct (run_ok _ _ _ (run_Send clock (Some b) s Hb)) as (r & s' & E & Hb' & Hst & _ & Ht & Hf).
  exists r, s'. split; [done|]. split; [done|]. split; [|split; [apply Hb'|by destruct Hst]].
  intros -> Hz. destruct (decide (sent s' = sent s)) as [?|Hne]; [done|]. specialize (Hf eq_refl Hne). lia.
Qed.

(** C1: messages do not depend on how the stream is cut, up to the chunk in
    which the linkage hangs up.  For an application that tells message lengths
    from the bytes alone, whatever its OnMessage does, the chunks given to
    OnReceived that are read ([heard]) are delivered as the messages of their
    concatenation, up to the first reply that stops it, with the same result,
    and the bytes that are kept are those that follow; all the chunks are read,
    unless a reply stops the stream or the linkage hangs up while a chunk is
    handled: then that chunk is delivered to its end, and nothing of the later
    ones is. *)
Theorem linkage_framing len chunks s :
  (forall b h, h_GetMessageLength b h = Ret (h, len b)) -> prefix_stable len ->
  base s -> is_Some (_worker (lk s)) -> _rbuffer (lk s) = [] -> _rlength (lk s) = 0 ->
  let seen := concat (take (heard clock chunks s) chunks) in
  exists r s' L,
    feed clock chunks s = Ok (r, s') /\
    delivered s' = delivered s ++ L /\ answer (split len seen) L r /\
    (0 < r -> _rbuffer (lk s') = (split len seen).1.2) /\
    (0 < r -> heard clock chunks s = length chunks \/ _graceful (lk s') = true).
Proof.
  intros Hlen Hst Hb Hw Hrb Hrl seen.
  assert (framed len s) as Hf by (split; [by left|by left]).
  destruct (run_ok _ _ _ (run_feed clock len Hlen Hst chunks s Hb Hw
    (or_intror (conj (Z.eq_le_incl _ _ (eq_sym Hrl)) (or_introl Hrl))) (fun _ => Hf)
    (framed_holds_none len s Hf)))
    as (r & s' & E & L & Hd & Ha & Hk & Hn).
  rewrite Hrb in *. by exists r, s', L.
Qed.

(** C5: once a call on a linkage that hangs up, whether it was told to or on
    its own, has returned, Send takes no byte any more and no message is
    delivered, whatever happens next; what is still written to the peer are
    bytes that were taken before, in order. *)
Theorem linkage_graceful_is_final k ops s :
  Inv s -> _worker (lk s) = Some k -> _graceful (lk s) = true ->
  exists keep s',
    serve clock k ops s = Ok (keep, s') /\
    _graceful (lk s') = true /\ sent s' = sent s /\ delivered s' = delivered s /\
    written (io s') `prefix_of` sent s.
Proof.
  intros Hi Hk Hg. destruct (run_ok _ _ _ (run_serve clock k ops s Hi Hk)) as (keep & s' & E & Hb & [Hf Hd] & _).
  exists keep, s'. split; [done|]. destruct (flows_graceful _ _ Hf Hg) as [? Hs].
  split; [done|]. split; [done|]. split; [auto|]. rewrite <- Hs.
  destruct (base_stream _ Hb) as [<-|(_ & _ & ?)]; [by apply prefix_app_r|done].
Qed.

(** A disconnection does not wait for the queue: whenever no action is in
    progress, Disconnect shuts the engine down at once, even when it was asked
    to finish writing first and bytes are still queued. *)
Theorem linkage_Disconnect_skips_queue s k :
  _worker (lk s) = Some k -> _action (lk s) = kActionNone -> _closed (lk s) = false ->
  (io_Shutdown (io s)).2 = kStatusClosed -> written (io_Shutdown (io s)).1 = written (io s) ->
  exists s',
    Disconnect clock true s = Ok (0, s') /\
    io s' = (io_Shutdown (io s)).1 /\ _wbuffer (lk s') = _wbuffer (lk s) /\
    written (io s') = written (io s) /\ _closed (lk s') = true.
Proof.
  intros Hw Ha Hc Hs Hwr.
  assert (run (Disconnect clock true) s (fun r s' => r = 0 /\
    io s' = (io_Shutdown (io s)).1 /\ _wbuffer (lk s') = _wbuffer (lk s) /\ _closed (lk s') = true)) as Hr.
  { unfold Disconnect. wp. set (s1 := put_lk _ s).
    assert (_action (lk s1) = kActionNone /\ _worker (lk s1) = Some k /\ _closed (lk s1) = false /\
      io s1 = io s /\ _wbuffer (lk s1) = _wbuffer (lk s)) as (Ha1 & Hw1 & Hc1 & Hi1 & Hb1) by done.
    clearbody s1. rewrite Ha1, decide_False by auto. wp. rewrite Hw1. unfold OnEvent. wp; [done|].
    rewrite Ha1, decide_True by done. cbn [OnEvent_loop]. unfold OnEventOnce, Shutdown. wp.
    set (s2 := put_lk _ s1).
    assert (_closed (lk s2) = false /\ io s2 = io s /\ _wbuffer (lk s2) = _wbuffer (lk s)) as (Hc2 & Hi2 & Hb2)
      by by rewrite <- Hc1, <- Hi1, <- Hb1.
    clearbody s2. rewrite Hc2. apply run_bind, run_UpdateConnectJam. intros n v.
    apply run_bind, run_io. intros i status E.
    change (io_Shutdown (io s2) = (i, status)) in E. rewrite Hi2 in E.
    rewrite E in Hs. cbn in Hs. subst status. rewrite E. unfold SetWannaRead, GetSendingBufferSize, SetWanna. wp.
    cbn -[decide]. wp. simplify_eq/=. done. }
  destruct (run_ok _ _ _ Hr) as (r & s' & E & -> & Hi & Hb & Hcl).
  exists s'. split; [done|]. split; [done|]. split; [done|]. split; [by rewrite Hi|done].
Qed.


End LinkageProps.

(** C4: on the real workers no queued byte is forgotten: while a linkage stays
    attached, its client always has a watcher started in the event loop, and
    the watcher for writing is when bytes are queued and no action waits. *)
Theorem linkage_queue_is_watched {I H : Type} {IO : AbstractIo I} {LH : LinkageHandler H}
    (clock : nat -> Z) (me k : Z) ops fd i W h n s' w c :
  workers_ok W -> (forall k, worker_watching me k W = None) ->
  life (WA := worker_api me) clock k ops (Linkage_new (H := H) clock fd i W h n) = Ok (true, s') ->
  wk s' !! k = Some w -> _events w !! me = Some c ->
  ((caddr c, EV_READ) ∈ _loop w \/ (caddr c, EV_WRITE) ∈ _loop w) /\
  (_wbuffer (lk s') <> [] -> _action (lk s') = kActionNone -> (caddr c, EV_WRITE) ∈ _loop w).
Proof.
  intros Hok Hno E Hw Hc.
  pose proof (run_life (WA := worker_api me) clock k ops fd i W h n Hok Hno) as Hr. unfold run in Hr.
  rewrite E in Hr. destruct Hr as [_ Hi]. destruct (Hi eq_refl) as [(Hb & _ & Ha) _].
  destruct (base_watched _ Hb) as [Hwok Hon].
  assert (watching (WorkerApi := worker_api me) k (wk s') = Some (running_r c, running_w c)) as Hwatch.
  { change (worker_watching me k (wk s') = Some (running_r c, running_w c)).
    unfold worker_watching, watched_by. by rewrite Hw, Hc. }
  pose proof (Hwok k w Hw) as Hwinv. cbn in Hwinv.
  assert (forall d, running d c = true -> (caddr c, d) ∈ _loop w) as Hloop.
  { intros d Hrun. apply (winv_loop _ Hwinv). by exists me, c. }
  split.
  - destruct (Hon _ _ _ Hwatch) as [_ Hor]. apply orb_true_iff in Hor as [Hor|Hor]; [left|right]; by apply Hloop.
  - intros Hwb Hact. apply Hloop. by apply (Ha Hact Hwb _ _ _ Hwatch).
Qed.

(** ** The echo server *)

Definition msg (s : string) : bytes := chr (Z.of_nat (String.length s) + 1) :: B s.

(** Two messages in two packets, to a kernel with room for eight bytes. *)
Definition demo_packets : list bytes :=
  [msg "hello" ++ take 3 (msg "world"); drop 3 (msg "world")].

Definition demo_ops : list op := [ev_readable 0; ev_readable 0].

Lemma linkage_never_fails_witness :
  exists keep s', life demo_clock 1 (demo_ops ++ [ev_writable 0]) (demo_start demo_packets 8) = Ok (keep, s') /\
    zlen (_wbuffer (lk s')) <= kMaximumBytes.
Proof.
  destruct (linkage_never_fails demo_clock 1 (demo_ops ++ [ev_writable 0]) 5
    (mkFdIo 5 false (mkSocket demo_packets [] 8)) demo_workers 0 0 demo_workers_ok demo_watching)
    as (keep & s' & E & Hb & _).
  exists keep, s'. split; [exact E | exact Hb].
Defined.

(** What the kernel took and what is queued, the second reply being cut. *)
Lemma linkage_stream_integrity_witness :
  match life demo_clock 1 demo_ops (demo_start demo_packets 8) with
  | Ok (keep, s') =>
      written (io s') = msg "hello" ++ take 2 (msg "world") /\
      _wbuffer (lk s') = drop 2 (msg "world") /\
      (written (io s') ++ _wbuffer (lk s') = sent s' \/
       _graceful (lk s') = true /\ _wbuffer (lk s') = [] /\ written (io s') `prefix_of` sent s')
  | Err _ => False
  end.
Proof.
  assert (match life demo_clock 1 demo_ops (demo_start demo_packets 8) with
    | Ok (_, s') => written (io s') = msg "hello" ++ take 2 (msg "world") /\
                    _wbuffer (lk s') = drop 2 (msg "world")
    | Err _ => False end) as Hr by (vm_compute; split; reflexivity).
  destruct (life demo_clock 1 demo_ops (demo_start demo_packets 8)) as [[keep s']|e] eqn:E; [|exact Hr].
  destruct Hr as [H1 H2]. split; [exact H1|]. split; [exact H2|].
  exact (linkage_stream_integrity demo_clock 1 demo_ops 5 (mkFdIo 5 false (mkSocket demo_packets [] 8))
    demo_workers 0 0 keep s' demo_workers_ok demo_watching E).
Defined.

(** The attached linkage, before anything is received. *)
Definition demo_state : st :=
  match Attach demo_clock (Some 1) (demo_start demo_packets 8) with
  | Ok (_, s) => s
  | Err _ => demo_start [] 0
  end.

Lemma demo_state_inv : Inv demo_state /\ _worker (lk demo_state) = Some 1.
Proof.
  assert (run (Attach demo_clock (Some 1)) (demo_start demo_packets 8) (attach_post 1)) as Hr.
  { apply run_Attach; [|reflexivity| |apply demo_watching].
    - apply base0_new; [apply demo_workers_ok|apply demo_watching].
    - right. cbn. lia. }
  assert (match Attach demo_clock (Some 1) (demo_start demo_packets 8) with
          | Ok (true, _) => true | _ => false end = true) as Ht by (vm_compute; reflexivity).
  unfold demo_state. unfold run in Hr.
  destruct (Attach demo_clock (Some 1) (demo_start demo_packets 8)) as [[[] s']|]; try done.
  by destruct Hr as [_ [Hi Hk]].
Qed.

(** The linkage that was told to hang up. *)
Definition demo_hung_up : st :=
  match Disconnect demo_clock true demo_state with
  | Ok (_, s) => s
  | Err _ => demo_state
  end.

Lemma demo_hung_up_inv : Inv demo_hung_up /\ _worker (lk demo_hung_up) = Some 1.
Proof.
  destruct demo_state_inv as [Hi Hk]. pose proof Hi as (Hb & _ & _).
  assert (is_Some (_worker (lk demo_state))) as Hw by (rewrite Hk; by eexists).
  pose proof (run_Disconnect demo_clock true demo_state Hb Hw) as Hr. unfold run in Hr.
  unfold demo_hung_up. destruct (Disconnect demo_clock true demo_state) as [[r s']|]; [|done].
  destruct Hr as (Hb' & Hs & _). split; [by eapply Inv_stable|]. by rewrite (stable_worker _ _ Hs).
Qed.

Lemma linkage_Send_all_or_nothing_witness :
  base demo_state /\
  exists s', Send demo_clock (Some (B "0123456789")) demo_state = Ok (true, s') /\
    sent s' = B "0123456789" /\
    (written (io s') ++ _wbuffer (lk s') = sent s' \/
     _graceful (lk s') = true /\ _wbuffer (lk s') = [] /\ written (io s') `prefix_of` sent s').
Proof.
  split; [apply demo_state_inv|].
  destruct (linkage_Send_all_or_nothing demo_clock (B "0123456789") demo_state)
    as (r & s' & E & Ht & _ & Hs & _); [apply demo_state_inv|].
  assert (match Send demo_clock (Some (B "0123456789")) demo_state with
          | Ok (r, _) => r | Err _ => false end = true) as Hr by (vm_compute; reflexivity).
  rewrite E in Hr. subst r. exists s'. split; [exact E|]. split; [|exact Hs].
  rewrite (Ht eq_refl). vm_compute. reflexivity.
Defined.

(** An application that disconnects in its first message, and answers 1. *)
Definition quitter : LinkageHandler Z := {|
  h_GetMessageLength b h := Ret (h, echo_len b);
  h_OnMessage b h := CallDisconnect true (fun _ => Ret (h + 1, 1));
  h_OnConnected := LinkageHandler_OnConnected;
  h_OnDisconnected := LinkageHandler_OnDisconnected;
  h_OnError := LinkageHandler_OnError;
  h_Cleanup := LinkageHandler_Cleanup
|}.

(** The packet in which it hangs up is delivered to its end, here both of its
    messages, and the next one is not; cut behind the first message, only that
    one is delivered. *)
Lemma linkage_framing_witness :
  let cut := [msg "hello"; msg "world"] in
  let whole := [msg "hello" ++ msg "world"; msg "more"] in
  prefix_stable echo_len /\
  (exists r s' L, feed demo_clock demo_packets demo_state = Ok (r, s') /\
     delivered s' = L /\ answer ([msg "hello"; msg "world"], [], false) L r) /\
  (exists r s' L, feed (LH := quitter) demo_clock whole demo_state = Ok (r, s') /\
     delivered s' = L /\ answer ([msg "hello"; msg "world"], [], false) L r) /\
  (exists r s' L, feed (LH := quitter) demo_clock cut demo_state = Ok (r, s') /\
     delivered s' = L /\ answer ([msg "hello"], [], false) L r).
Proof.
  pose proof echo_len_stable as Hst. destruct demo_state_inv as [[Hb _] Hk].
  assert (is_Some (_worker (lk demo_state))) as Hw by (rewrite Hk; by eexists).
  split; [exact Hst|]. split; [|split].
  - destruct (linkage_framing demo_clock echo_len demo_packets demo_state) as (r & s' & L & E & Hd & Ha & _);
      [reflexivity|exact Hst|exact Hb|exact Hw|vm_compute; reflexivity|vm_compute; reflexivity|].
    exists r, s', L. split; [exact E|]. split; [exact Hd|exact Ha].
  - destruct (linkage_framing (LH := quitter) demo_clock echo_len
      [msg "hello" ++ msg "world"; msg "more"] demo_state) as (r & s' & L & E & Hd & Ha & _);
      [reflexivity|exact Hst|exact Hb|exact Hw|vm_compute; reflexivity|vm_compute; reflexivity|].
    exists r, s', L. split; [exact E|]. split; [exact Hd|exact Ha].
  - destruct (linkage_framing (LH := quitter) demo_clock echo_len
      [msg "hello"; msg "world"] demo_state) as (r & s' & L & E & Hd & Ha & _);
      [reflexivity|exact Hst|exact Hb|exact Hw|vm_compute; reflexivity|vm_compute; reflexivity|].
    exists r, s', L. split; [exact E|]. split; [exact Hd|exact Ha].
Defined.

Lemma linkage_graceful_is_final_witness :
  exists keep s',
    serve demo_clock 1 (demo_ops ++ [ev_send (Some (B "late"))]) demo_hung_up = Ok (keep, s') /\
    _graceful (lk s') = true /\ sent s' = [] /\ delivered s' = [] /\ written (io s') = [].
Proof.
  destruct (linkage_graceful_is_final demo_clock 1 (demo_ops ++ [ev_send (Some (B "late"))]) demo_hung_up)
    as (keep & s' & E & Hg & Hs & Hd & Hw).
  - apply demo_hung_up_inv.
  - apply demo_hung_up_inv.
  - vm_compute. reflexivity.
  - exists keep, s'. split; [exact E|]. split; [exact Hg|]. rewrite Hs, Hd.
    assert (sent demo_hung_up = []) as Hsent by (vm_compute; reflexivity). rewrite Hsent in Hw.
    split; [exact Hsent|]. split; [vm_compute; reflexivity|by apply prefix_nil_inv in Hw].
Defined.

(** Ten bytes are sent to a kernel that takes eight, and the linkage is told
    to disconnect when they are written: two are lost. *)
Definition demo_cut_off : st :=
  match Send demo_clock (Some (B "0123456789")) demo_state with
  | Ok (_, s) => s
  | Err _ => demo_state
  end.

Lemma linkage_Disconnect_skips_queue_witness :
  exists s', Disconnect demo_clock true demo_cut_off = Ok (0, s') /\
    written (io s') = B "01234567" /\ _wbuffer (lk s') = B "89" /\ _closed (lk s') = true.
Proof.
  destruct (linkage_Disconnect_skips_queue demo_clock demo_cut_off 1) as (s' & E & Hi & Hb & Hw & Hc);
    try (vm_compute; reflexivity).
  exists s'. split; [exact E|]. rewrite Hw, Hb. split; [vm_compute; reflexivity|].
  split; [vm_compute; reflexivity|exact Hc].
Defined.

(** The reply that was cut is waited for. *)
Lemma linkage_queue_is_watched_witness :
  match life demo_clock 1 demo_ops (demo_start demo_packets 8) with
  | Ok (true, s') =>
      match wk s' !! 1 with
      | Some w => match _events w !! 7 with
                  | Some c => (caddr c, EV_WRITE) ∈ _loop w
                  | None => False
                  end
      | None => False
      end
  | _ => False
  end.
Proof.
  assert (match life demo_clock 1 demo_ops (demo_start demo_packets 8) with
    | Ok (true, s') =>
        match wk s' !! 1 with
        | Some w => match _events w !! 7 with
                    | Some c => bool_decide (_wbuffer (lk s') <> []) && bool_decide (_action (lk s') = kActionNone)
                    | None => false
                    end
        | None => false
        end
    | _ => false
    end = true) as Hr by (vm_compute; reflexivity).
  destruct (life demo_clock 1 demo_ops (demo_start demo_packets 8)) as [[[] s']|] eqn:E; [|discriminate Hr|discriminate Hr].
  destruct (wk s' !! 1) as [w|] eqn:Ew; [|discriminate Hr].
  destruct (_events w !! 7) as [c|] eqn:Ec; [|discriminate Hr].
  apply andb_true_iff in Hr as [Hr1 Hr2]. apply bool_decide_eq_true in Hr1, Hr2.
  unfold demo_api in E. unfold demo_start in E.
  destruct (linkage_queue_is_watched demo_clock 7 1 demo_ops 5 (mkFdIo 5 false (mkSocket demo_packets [] 8))
    demo_workers 0 0 s' w c demo_workers_ok demo_watching E Ew Ec) as [_ Hwr].
  exact (Hwr Hr1 Hr2).
Defined.

Section LinkageOnSsl.
Context {S K W H : Type} {O : OpenSSL S} {KK : Kernel K} {WA : WorkerApi W} {LH : LinkageHandler H}.

Theorem ssl_linkage_stream (clock : nat -> Z) k ops fd (i : SslIo (S := S) (K := K)) (w : W) (h : H) n :
  worker_ok w -> (forall k, watching k w = None) ->
  exists keep s', life clock k ops (Linkage_new clock fd i w h n) = Ok (keep, s') /\
    (tunnelled (_ssl (io s')) ++ _wbuffer (lk s') = sent s' \/
     _graceful (lk s') = true /\ _wbuffer (lk s') = [] /\ tunnelled (_ssl (io s')) `prefix_of` sent s').
Proof.
  intros Hok Hw. destruct (run_ok _ _ _ (run_life clock k ops fd i w h n Hok Hw)) as (keep & s' & E & [] & _).
  by exists keep, s'.
Qed.

End LinkageOnSsl.

(** ** OpenSSL in memory *)

(** [steps]: how often the handshake still waits for the peer; [records]: the
    plaintext of the records that arrived; the answers to [SSL_get_error] are
    those of a connection that stays. *)
Record tunnel : Type := mkTunnel {
  steps : nat;
  records : list bytes;
  through : bytes
}.

Definition tunnel_read (n : Z) (t : tunnel) : tunnel * Z * bytes :=
  match records t with
  | [] => (t, -1, [])
  | b :: rest =>
      let got := take (Z.to_nat n) b in
      let left := drop (Z.to_nat n) b in
      (mkTunnel (steps t) (if nonempty left then left :: rest else rest) (through t), zlen got, got)
  end.

Definition tunnel_handshake (t : tunnel) : tunnel * Z :=
  match steps t with O => (t, 1) | Datatypes.S m => (mkTunnel m (records t) (through t), -1) end.

Definition waiting (l : list bytes) : nat := length (concat l).

#[export, refine] Instance tunnel_OpenSSL : OpenSSL tunnel := {|
  SSL_read := tunnel_read;
  SSL_write b t := (mkTunnel (steps t) (records t) (through t ++ b), zlen b);
  SSL_connect := tunnel_handshake;
  SSL_accept := tunnel_handshake;
  SSL_shutdown t := (t, 1);
  SSL_get_error t ret := SSL_ERROR_WANT_READ;
  SSL_errno t := 0;
  SSL_pending t := 0;
  SSL_get_version t := B "TLSv1.2";
  SSL_get_cipher_name t := B "AES256-SHA";
  SSL_get_peer_certificate t := None;
  tunnelled := through;
  unread t := waiting (records t)
|}.
Proof.
  - intros n t. unfold tunnel_read. by destruct (records t).
  - intros n t t' ret b. unfold tunnel_read. destruct (records t) as [|c rest] eqn:E; [intros [= <- <- <-]; rewrite E; cbn; lia|].
    intros [= <- <- <-]. cbn [records].
    assert (waiting (if nonempty (drop (Z.to_nat n) c) then drop (Z.to_nat n) c :: rest else rest) + length (take (Z.to_nat n) c)
      <= waiting (c :: rest))%nat as Hw.
    { unfold waiting, nonempty. pose proof (length_take c (Z.to_nat n)). pose proof (length_drop c (Z.to_nat n)).
      destruct (drop (Z.to_nat n) c) as [|d l]; [change (negb (zlen [] =? 0)) with false|rewrite (proj2 (Z.eqb_neq _ _)) by
        (rewrite zlen_cons; pose proof (zlen_nonneg l); lia)]; cbn [negb concat]; rewrite ?length_app; cbn [length] in *; lia. }
    destruct (0 <? _); [by split|lia].
  - intros b t t' ret [= <- <-]. cbn. destruct (Z.ltb_spec 0 (zlen b)) as [Hb|Hb].
    + split; [lia|]. unfold zlen. by rewrite Nat2Z.id, firstn_all.
    + destruct b; [by rewrite app_nil_r|]. rewrite zlen_cons in Hb. pose proof (zlen_nonneg b). lia.
  - done.
  - intros t. unfold tunnel_handshake. by destruct (steps t).
  - intros t. unfold tunnel_handshake. by destruct (steps t).
  - done.
Defined.

(** A server's end, whose handshake waits for the client once; two records of
    the client hold three messages, the second of which is cut. *)
Definition ssl_start (packets : list bytes) : st :=
  Linkage_new demo_clock 5 (mkSslIo (mkTunnel 1 packets []) false 5 false None (mkSocket [] [] 0)) demo_workers 0 0.

Lemma ssl_linkage_stream_witness :
  match life demo_clock 1 [ev_readable 0; ev_readable 0; ev_readable 0] (ssl_start demo_packets) with
  | Ok (keep, s') => keep = true /\ tunnelled (_ssl (io s')) = msg "hello" ++ msg "world" /\ is_Some (_peer (io s'))
  | Err _ => False
  end /\
  exists keep s', life demo_clock 1 [ev_readable 0] (ssl_start demo_packets) = Ok (keep, s').
Proof.
  split; [vm_compute; repeat split; by eexists|].
  destruct (ssl_linkage_stream demo_clock 1 [ev_readable 0] 5 (mkSslIo (mkTunnel 1 demo_packets []) false 5 false None (mkSocket [] [] 0))
    demo_workers 0 0 demo_workers_ok demo_watching) as (keep & s' & E & _).
  by exists keep, s'.
Defined.
